(* ===== verification/_CoqProject ===== *)
-Q . S2P
Prelude.v
Bytes.v
PyVal.v
PyOps.v
PyText.v
Engine.v
SqliteEngine.v
Mvcc.v
StateMachine.v
StateMachineFacts.v
Replicas.v
Groups.v
Tso.v
Dict.v
Local.v
LocalSpec.v
Router.v
Metadata.v
MetadataFacts.v
MetadataClient.v
RaftStorage.v
RaftNode.v
RaftNodeFacts.v
RaftRuns.v
RaftElection.v
RaftMachines.v
RaftTree.v
RaftNet.v
RaftSafety.v
RaftTimers.v
RaftDisk.v
RaftCluster.v
Shards.v
Coordinator.v
CoordinatorFacts.v
ClusterRuns.v
Routing.v
RoutingFacts.v
RoutingCache.v
RoutingCacheFacts.v
SmartClient.v
SmartClientFacts.v
Publisher.v
PublisherFacts.v
RecoveryNotes.v
Recovery.v
RecoveryFacts.v
RecoveryCopy.v
RecoveryDesk.v
ShardServer.v
ShardedCluster.v
ShardedFacts.v
Wire.v
ClientServicer.v
RemoteNode.v
RemoteFacts.v
NodeHere.v
RemoteHandles.v
RemoteGroups.v
RemoteGroupFacts.v
RemoteClock.v
RaftWire.v
Launcher.v
LauncherFacts.v
NodeView.v
NodeViewFacts.v
ClusterNode.v
ClusterNodeFacts.v
Cli.v
CliFacts.v
SqlParser.v
SqlParserFacts.v
SqlExecutor.v
SqlFacts.v
Witnesses.v
RaftWitnesses.v
ClusterWitnesses.v
ClientWitnesses.v
RecoveryWitnesses.v
ProcessWitnesses.v
