(* ===== verification/Prelude.v ===== *)
(** * OxideDB: a verification library

    OxideDB ([src/oxidedb/]) is a key-value database in Python.  It can be used in one
    process, as an embedded multi-version store with transactions, or as a cluster: the keys
    are cut into ranges (shards), each shard is a Raft group that replicates a multi-version
    state machine, transactions over shards are committed in two phases with locks, one group
    hands out timestamps, another keeps the routing table, and shards are split and moved
    while clients are using them.  This library models the code of these parts as Rocq
    functions and proves what makes them correct.

    ** How the code is modelled

    Code that may raise returns [result]; code that changes an object and may raise half way
    is a function [M S A := S -> S * result A] (this file), so what was written before an
    exception stays written.  Bytes are [list byte], integers [Z] with the code's bounds
    (64-bit timestamps, [valid_ts]), values that cross [msgpack] are [PyVal.pyval].
    Dictionaries are [gmap] where no order is seen and association lists ([Dict]) where it
    is.  Objects that are shared live in a store and are passed by a handle: the transactions
    of [Local], the records of moves in [Recovery], the Raft nodes of [ShardServer].

    A component uses another through a class, and its theorems are proved against the class:
    [Engine]/[EngineLaws] (a byte-ordered engine), [Msgpack] (the codec), [RaftStorage] and
    its laws, [StateMachine] (of a Raft node), [Group] and [MetaGroup] (a replicated group),
    [Shards] (a cluster, for a transaction), [NodeClientFactory], [TableRouter],
    [OwnPlacement], [TableSource], [NodeCalls] (for a client), [TableClient] and
    [ShardCluster] (for the publisher), [AdminStore], [RecoveryView], [RowCalls] and
    [RowGroups] (for a recovery), [ServerWorld] and [ClusterTable] (for the cluster object),
    [NodeClient], [NodeHere] and [RaftPeer] (a node, for its clients, its client service and
    its peers), [ClientsHere] and [NodeProcess] (for a node's process), [CommandStore] and
    [ClusterHandles] (for the command line), [ClusterWorld] (for [RaftCluster]).  gRPC is the classes [Grpc] and [Listening], and
    [GrpcLaws] is what is relied on of it: an answer is the answer of the servicer at the
    channel's address to this very request, and without one the servicer may or may not have
    been reached.
    [MemoryEngine], [SQLiteEngine] (where no statement fails), [EngineRaftStorage], [RoutingCache], [LocalNodeClientFactory],
    [RemoteNodeClientFactory], [LocalNodeClient], [RemoteNodeClient], [mvcc_machine],
    [node_here], [raft_peer], [ShardedRaftCluster] and [NodeClusterView] are instances made of
    the models of the code the classes stand for; the others have instances in the files that
    work out an execution or a witness.  [reference_codec] shows that [Msgpack] can be
    satisfied, and [DirectWire] that [GrpcLaws] can.

    Threads are schedules, events or steps of the world.  What other threads, other clients
    and the network do between two steps is part of the state [W] that a component's
    functions are polymorphic in, so a theorem holds for whatever they do, within the laws it
    names.

    ** The files

    - [Prelude], [Bytes], [PyVal], [PyOps], [PyText], [Dict]: the monads, tactics and hints;
      the order of byte strings and big-endian integers; Python values, conversions, text and
      the patterns of [re]; dictionaries with an order.
    - [Engine], [SqliteEngine] ([storage/engine.py]): the interface, its laws, the engine in
      memory; the SQLite engine over a model of the [sqlite3] module in which any statement can
      fail.  It answers as the engine in memory does and its file outlives the process; a
      batch is written whole or not at all; an execution in which a refused COMMIT swallows
      every later write.
    - [Mvcc] ([storage/mvcc.py]): keys, versions, locks, write records, scans, dumps.  [wf]
      is the invariant of the keyspace and [hist] the history of versions it stands for.
    - [StateMachine], [StateMachineFacts], [Replicas] ([raft/state_machine.py]): each command
      handler and each read.  [store_inv] is kept by every command; a PREWRITE is refused
      after a newer commit; reads at a timestamp are stable; a range read agrees with point
      reads; replicas that apply one log agree up to the times of their locks, and a snapshot
      stands for the log.
    - [Groups], [Tso] ([groups.py], [tso/tso.py], [storage/timestamp.py]): clients of the
      timestamp group are never given a timestamp twice.
    - [Local], [LocalSpec] ([transaction/local.py], [database.py]): the embedded database
      refines a database in which begin copies the committed data: a transaction's get reads
      its changes over the copy, its scan the copy alone, and clear empties every copy.
    - [Router], [Metadata], [MetadataFacts], [MetadataClient] ([shard/router.py],
      [metadata/service.py]): the ranges of the table never overlap; what a split, a move and
      a leader report change; a client reads its own writes.
    - [RaftStorage], [RaftNode], [RaftNodeFacts], [RaftRuns], [RaftElection], [RaftMachines]
      ([raft/storage.py], [raft/node.py]): a node over any events, restarts included: one
      vote per term, the log is on disk, a majority commits.  Elections are safe if answers
      are counted in their term, which the code does not check: an execution with two
      leaders.
    - [RaftTree], [RaftNet], [RaftSafety] ([raft/node.py]): a group without snapshots with its
      messages, which may come late, twice or never.  [RaftTree] has the argument for the
      entries as a tree and what the handlers do to a node's path in it, [RaftNet] the
      network, [RaftSafety] the invariant: committed entries are final and a leader has them
      all, if positive answers are counted in their term and a restart finds the term that
      was left.  The code ensures neither, and [RaftNet] has an execution without each of
      the two in which two nodes commit different entries at one index.
    - [RaftTimers] ([raft/node.py]): the same node with its deadlines, its ticker and the pool
      of threads that carries its requests.  The timers only say when ([timers_only_say_when]),
      so what is proved over any events holds with them; a node that hears nothing campaigns;
      at most one heartbeat per peer is in flight, whatever other requests are; a save that fails once stops the elections
      of a node.
    - [RaftDisk] ([raft/storage.py]): the storage of a node on a database file, which a killed
      process leaves as the saves describe it; the files of the JSON storage, replaced whole,
      except for the payload of a snapshot.
    - [RaftCluster] ([RaftCluster] of [raft/node.py], [TSOCluster], [MetadataCluster]): the
      groups that are started in one process without storage, which elect and name a node
      that campaigns first and undisturbed.
    - [Shards], [Coordinator], [CoordinatorFacts], [ClusterRuns]
      ([transaction/coordinator.py], [lock_resolver.py], [lock_cleaner.py]): a commit is all
      or nothing under any schedule of its threads, on shards that may apply a command without
      a successful answer late or again, up to the one case in which the COMMIT of the primary
      key is unanswered; what a resolver decides; executions in which a transaction loses
      a key, one of them in that case.
    - [Routing], [RoutingFacts], [RoutingCache], [RoutingCacheFacts] ([client/routing.py],
      [client/node_client.py], [metadata/cache.py]): the walk over the replicas of a shard
      ends, and one that is handed a first node finds a replica that answers.
    - [SmartClient], [SmartClientFacts] ([transaction/smart_client.py]): a range read over
      shards is one range read of their data, or raises because a shard did.
    - [Publisher], [PublisherFacts] ([metadata/publisher.py]): what is proposed to the table,
      and that a pass installs the placement.
    - [RecoveryNotes], [Recovery], [RecoveryFacts], [RecoveryCopy], [RecoveryDesk]
      ([raft/recovery_notes.py], [recovery_view.py], [recovery_runner.py]): notes survive; a
      move lets go of nothing before the table has answered, and the table is told when the
      new group reads the newest versions as the old one; an execution in which a split is published without a
      row that was refused.
    - [ShardServer], [ShardedCluster], [ShardedFacts] ([raft/shard_server.py]): a node's
      shards and the cluster object, which is an instance of [RecoveryView] and of
      [ShardCluster]; a shard is served by exactly the nodes it is given, by groups that were
      there and keep their members or by new ones with the members the server works out; on
      nodes whose handles are of closed groups a move finds no leader.
    - [Wire], [ClientServicer], [RemoteNode], [RemoteFacts], [NodeHere]
      ([raft/client_servicer.py], [client/remote_node_client.py], [client/node_client.py]): the
      messages, the service of a node and the client that calls it.  What a caller across a
      wire is answered is what the node answers, and a read that names no index is answered at
      one that was confirmed after it arrived.
    - [RemoteHandles] ([RemoteNodeClientFactory], [channels.py]): the handles of a factory stay
      usable over whole calls, and an interleaving of two calls after which one is not.
    - [RemoteGroups], [RemoteGroupFacts], [RemoteClock]
      ([client/remote_group_client.py]): the walk over the members of a group ends with the
      best answer there is; clients of the clock across a wire never share a timestamp; the
      table a client gets is one a member read.
    - [RaftWire] ([raft/network_client.py], [raft/raft_servicer.py]): messages between nodes
      arrive as they were sent.
    - [Launcher], [LauncherFacts] ([launcher.py]): ports, peers and the configuration of a node;
      what [validate] lets through, that its ports exist and do not collide, and that the
      address a node works out for another is the one the other binds.
    - [NodeView], [NodeViewFacts] ([NodeClusterView] of [launcher.py]): one
      node as the side a recovery runs on.  It holds exactly the group it is told to, routes
      as its server does, and publishes the addresses it proposes.
    - [ClusterNode], [ClusterNodeFacts] ([ClusterNode] of [launcher.py]): start and stop of a
      process; which nodes publish; a stopped node is quiet; [main] and what it answers to
      arguments it refuses; the signal handlers that are taken over and given back.
    - [Cli], [CliFacts] ([cli.py], [SmartClient.connect]): the wait before a command ends with
      a table that routes every key; a client's seeds are where the groups listen.
    - [SqlParser], [SqlParserFacts], [SqlExecutor], [SqlFacts] ([sql/]): statements are read
      back; a row that was inserted is selected by its key, and is not listed.
    - The files named [...Witnesses] apply the theorems that have hypotheses at concrete
      inputs, in a module for each group of components; the networks and clusters they run on,
      as [LocalCluster] of [ClusterRuns] and the desk of [RecoveryDesk], are test environments
      and translate no code; where a component is small its witnesses are at the end of its own file.

    ** Bounds and fuel

    Loops that wait for a clock take the number of looks as an argument, and the theorems
    hold for every number: [patience] of a recovery and of the cluster, the polls of
    [await_loop] and of a read.  [ask_loop] has fuel, and [ask_shard_terminates] gives the
    number of questions that is enough ([walk_bound]).  The walk of a group client has fuel
    too and answers [None] when it runs out; [group_walk_answers] shows that more than the
    number of its candidates and of the addresses refusals can name is enough.  [run_threads] takes a
    schedule and is given [rounds] of fuel: each round takes a key or a thread away.
    [_tick] takes the turns of the ticker as a list, each with what its thread was late by;
    [silent_node_campaigns] shows that [election_timeout_max] turns are enough for a campaign.
    [_wait_for_apply] takes the looks it has at the node.  [apply_rounds] is run with the number of entries up to the commit index.  Retries have
    the code's own numbers ([PROPOSE_ATTEMPTS], [_retry_max_attempts]).  The decoder of text
    has the length of its input as fuel.

    ** What is not modelled

    gRPC itself, the registration of services with a server, the generated protocol code, and
    what [argparse] makes of a command line ([Args] and the arguments of [Cli] are its
    answers).  SQLite is modelled as far as the code uses it ([sqlite3] of [SqliteEngine]),
    not as a file format.  Times are integers; pauses are no steps, except for the ticker of
    [RaftTimers], whose pauses are bounded by its deadlines; the texts of error messages and
    of most printed lines are not modelled. *)

From Stdlib Require Import ZArith Lia.
From Stdlib Require Export Init.Byte.
From Stdlib Require Import Strings.Byte.
From stdpp Require Export numbers sorting.
From stdpp Require Export base gmap strings fin_maps list.

#[export] Set Default Goal Selector "!".

Open Scope Z_scope.

(** ** Notations, hint databases and tactics *)

Declare Scope oxide_scope.
Delimit Scope oxide_scope with oxide.

Create HintDb oxide discriminated.

(** A Python [bytes] value. *)
Abbreviation bytes := (list byte).

(** Destruct the scrutinee of every [match] of the goal, simplifying. *)
Ltac break :=
  repeat (case_match; simplify_eq/=; try done).

(** The same in a hypothesis. *)
Ltac break_in H :=
  repeat (match type of H with
          | context [match ?x with _ => _ end] => destruct x eqn:?
          end; simplify_eq/=; try done).

(** Evaluate the decisions whose answer is known. *)
Ltac decides :=
  repeat first [rewrite decide_True by done | rewrite decide_False by done].

(** Turn boolean comparisons of integers into propositions. *)
Ltac zbool :=
  repeat match goal with
  | H : (_ <? _) = true |- _ => apply Z.ltb_lt in H
  | H : (_ <? _) = false |- _ => apply Z.ltb_ge in H
  | H : (_ <=? _) = true |- _ => apply Z.leb_le in H
  | H : (_ <=? _) = false |- _ => apply Z.leb_gt in H
  | H : (_ =? _) = true |- _ => apply Z.eqb_eq in H
  | H : (_ =? _) = false |- _ => apply Z.eqb_neq in H
  | H : _ && _ = true |- _ => apply andb_true_iff in H as [??]
  | H : _ && _ = false |- _ => apply andb_false_iff in H as [?|?]
  | H : _ || _ = true |- _ => apply orb_true_iff in H as [?|?]
  | H : _ || _ = false |- _ => apply orb_false_iff in H as [??]
  | H : negb _ = true |- _ => apply negb_true_iff in H
  | H : negb _ = false |- _ => apply negb_false_iff in H
  end.

(** ** Python exceptions and computations that may raise *)

(** The exceptions the modelled code raises or lets through.  Messages are prose and are
    not modelled; [ScanRefused] carries the code, the key and the leader's address a caller
    branches on. *)
Inductive exn :=
  | ValueError
  | TypeError
  | KeyError
  | AttributeError
  | IndexError
  | OverflowError
  | RuntimeError
  | NotImplementedError
  | NodeUnreachable
  | SerializationError
  | SqliteError
  | OSError
  | ScanRefused (code : Z) (key : option bytes) (leader_address : option string).

Inductive result (A : Type) :=
  | Ok (a : A)
  | Raise (e : exn).
Arguments Ok {A} _.
Arguments Raise {A} _.

Definition rbind {A B} (m : result A) (k : A → result B) : result B :=
  match m with Ok a => k a | Raise e => Raise e end.

Notation "'let?' x ':=' m 'in' k" := (rbind m (λ x, k))
  (at level 10, x pattern, m at level 100, k at level 200) : oxide_scope.
Open Scope oxide_scope.

Definition is_Ok {A} (r : result A) : Prop := ∃ a, r = Ok a.

(** Code that mutates one object and may raise half way: what was written before the
    exception stays written. *)
Definition M (S A : Type) : Type := S → S * result A.

Definition ret {S A} (a : A) : M S A := λ s, (s, Ok a).
Definition raise {S A} (e : exn) : M S A := λ s, (s, Raise e).
Definition bind {S A B} (m : M S A) (k : A → M S B) : M S B :=
  λ s, match m s with
       | (s', Ok a) => k a s'
       | (s', Raise e) => (s', Raise e)
       end.
(** A read of the state, which may raise. *)
Definition reads {S A} (f : S → result A) : M S A := λ s, (s, f s).
(** A write: on an exception the state is left as it was. *)
Definition updates {S} (f : S → result S) : M S unit :=
  λ s, match f s with Ok s' => (s', Ok tt) | Raise e => (s, Raise e) end.

Notation "'let*' x ':=' m 'in' k" := (bind m (λ x, k))
  (at level 10, x pattern, m at level 100, k at level 200) : oxide_scope.
Notation "m ';;;' k" := (bind m (λ _, k))
  (at level 199, right associativity) : oxide_scope.

Lemma rbind_Ok {A B} (m : result A) (k : A → result B) b :
  rbind m k = Ok b ↔ ∃ a, m = Ok a ∧ k a = Ok b.
Proof. destruct m; simpl; naive_solver. Qed.

Lemma bind_run {S A B} (m : M S A) (k : A → M S B) s s' a :
  m s = (s', Ok a) → bind m k s = k a s'.
Proof. unfold bind. by intros ->. Qed.

Lemma bind_raise {S A B} (m : M S A) (k : A → M S B) s s' e :
  m s = (s', Raise e) → bind m k s = (s', Raise e).
Proof. unfold bind. by intros ->. Qed.

Lemma bind_ret {S A B} (a : A) (k : A → M S B) s : bind (ret a) k s = k a s.
Proof. done. Qed.

Lemma bind_assoc {S A B C} (m : M S A) (k : A → M S B) (h : B → M S C) s :
  bind (bind m k) h s = bind m (λ a, bind (k a) h) s.
Proof. unfold bind. by destruct (m s) as [s' [a|x]]. Qed.

Lemma bind_Ok_inv {S A B} (m : M S A) (k : A → M S B) s s' b :
  bind m k s = (s', Ok b) → ∃ s1 a, m s = (s1, Ok a) ∧ k a s1 = (s', Ok b).
Proof. unfold bind. destruct (m s) as [s1 [a|x]]; [|done]. eauto. Qed.

(** Split a run that returned into the runs of its steps. *)
Ltac mstep H :=
  lazymatch type of H with
  | bind _ _ _ = (_, Ok _) =>
      let n1 := fresh "n" in let a := fresh "a" in let Hm := fresh "Hm" in
      apply bind_Ok_inv in H as (n1 & a & Hm & H)
  end.

(** ** Lists ordered by an integer key *)

Lemma sorted_by_key_unique {A} (f : A → Z) (l1 l2 : list A) :
  StronglySorted (λ a b, f a < f b) l1 → Sorted (λ a b, f a ≤ f b) l2 → l1 ≡ₚ l2 → l1 = l2.
Proof.
  intros H1 H2. apply Sorted_StronglySorted in H2; [|intros a b c; lia].
  revert l2 H2. induction H1 as [|x l1 H1 IH Hx]; intros l2 H2 Hp.
  { by apply Permutation_nil_l in Hp as ->. }
  destruct H2 as [|y l2 H2 Hy]; [by apply Permutation_nil_r in Hp|].
  rewrite list.Forall_forall in Hx, Hy.
  assert (x = y) as <-.
  { assert (y ∈ x :: l1) as [->|Hy1]%elem_of_cons by (rewrite Hp; left); [done|].
    assert (x ∈ y :: l2) as [->|Hx2]%elem_of_cons by (rewrite <-Hp; left); [done|].
    specialize (Hx _ Hy1). specialize (Hy _ Hx2). lia. }
  f_equal. apply IH; [done|]. by apply Permutation_cons_inv in Hp.
Qed.
