(* ===== verification/Bytes.v ===== *)
(** Byte strings: the [memcmp] order of the engines and the big-endian integers of the
    key encodings.  Everything the storage layer relies on about [bytes] is here: the
    order is a strict total order compatible with appending, and for strings of one
    length it is the order of the integers they encode. *)

From Stdlib Require Import ZArith Lia.
From Stdlib Require Import Strings.Byte.
From S2P Require Import Prelude.

#[global] Instance byte_eq_dec : EqDecision byte := Byte.byte_eq_dec.
#[global] Instance byte_countable : Countable byte :=
  inj_countable Byte.to_N Byte.of_N Byte.of_to_N.

#[global] Instance exn_eq_dec : EqDecision exn.
Proof. solve_decision. Defined.
#[global] Instance result_eq_dec {A} `{EqDecision A} : EqDecision (result A).
Proof. solve_decision. Defined.

(** [ord]: the integer a byte is. *)
Definition byteZ (b : byte) : Z := Z.of_N (Byte.to_N b).
(** [bytes([z])[0]], for [0 <= z < 256]. *)
Definition byte_of_Z (z : Z) : byte := default x00 (Byte.of_N (Z.to_N z)).

Lemma byteZ_range b : 0 ≤ byteZ b < 256.
Proof. unfold byteZ. pose proof (Byte.to_N_bounded b). lia. Qed.

Lemma byteZ_of_Z z : 0 ≤ z < 256 → byteZ (byte_of_Z z) = z.
Proof.
  intros Hz. unfold byteZ, byte_of_Z.
  destruct (Byte.of_N (Z.to_N z)) as [b|] eqn:E; simpl.
  - apply Byte.to_of_N in E. rewrite E. lia.
  - apply Byte.of_N_None_iff in E. lia.
Qed.

Lemma byteZ_inj a b : byteZ a = byteZ b → a = b.
Proof.
  unfold byteZ. intros H. apply N2Z.inj in H.
  pose proof (Byte.of_to_N a) as Ha. rewrite H, Byte.of_to_N in Ha. congruence.
Qed.

Lemma byte_of_byteZ b : byte_of_Z (byteZ b) = b.
Proof. apply byteZ_inj, byteZ_of_Z, byteZ_range. Qed.

(** ** The order of byte strings *)

(** [a < b] on Python [bytes]: byte by byte, a proper prefix first. *)
Fixpoint blt (a b : bytes) : bool :=
  match a, b with
  | _, [] => false
  | [], _ :: _ => true
  | x :: a', y :: b' =>
      (byteZ x <? byteZ y) || ((byteZ x =? byteZ y) && blt a' b')
  end.

(** [a <= b]. *)
Definition ble (a b : bytes) : bool := negb (blt b a).

(** [start <= k < end]: the half-open ranges of the engines and of the routing rule. *)
Definition in_range (start k end_ : bytes) : bool := ble start k && blt k end_.

Lemma blt_irrefl a : blt a a = false.
Proof. induction a as [|x a IH]; simpl; [done|]. rewrite IH, Z.ltb_irrefl. lia. Qed.

Lemma blt_trans a b c : blt a b = true → blt b c = true → blt a c = true.
Proof.
  revert b c. induction a as [|x a IH]; intros [|y b] [|z c]; simpl; try done.
  intros. zbool; rewrite orb_true_iff, andb_true_iff, Z.ltb_lt, Z.eqb_eq; eauto with lia.
Qed.

Lemma blt_total a b : blt a b = false → blt b a = false → a = b.
Proof.
  revert b. induction a as [|x a IH]; intros [|y b]; simpl; try done.
  intros. zbool; try lia.
  assert (x = y) as -> by (apply byteZ_inj; lia).
  f_equal. apply IH; done.
Qed.

Lemma blt_cases a b : blt a b = true ∨ a = b ∨ blt b a = true.
Proof.
  destruct (blt a b) eqn:?; [auto|].
  destruct (blt b a) eqn:?; [auto|]. right. left. by apply blt_total.
Qed.

Lemma blt_asym a b : blt a b = true → blt b a = false.
Proof.
  intros H. destruct (blt b a) eqn:E; [|done].
  pose proof (blt_trans _ _ _ H E) as Hc. by rewrite blt_irrefl in Hc.
Qed.

Lemma blt_neq a b : blt a b = true → a ≠ b.
Proof. intros H ->. by rewrite blt_irrefl in H. Qed.

Lemma ble_lt a b : ble a b = true ↔ a = b ∨ blt a b = true.
Proof.
  unfold ble. rewrite negb_true_iff. split.
  - intros H. destruct (blt_cases a b) as [|[|]]; auto; congruence.
  - intros [->|H]; [apply blt_irrefl | by apply blt_asym].
Qed.

Lemma ble_refl a : ble a a = true.
Proof. apply ble_lt. auto. Qed.

Lemma ble_blt_trans a b c : ble a b = true → blt b c = true → blt a c = true.
Proof. intros [->|H]%ble_lt; eauto using blt_trans. Qed.

Lemma blt_ble_trans a b c : blt a b = true → ble b c = true → blt a c = true.
Proof. intros ? [->|H]%ble_lt; eauto using blt_trans. Qed.

Lemma ble_trans a b c : ble a b = true → ble b c = true → ble a c = true.
Proof. rewrite !ble_lt. intros [->|] [->|]; eauto using blt_trans. Qed.

Lemma ble_total a b : ble a b = true ∨ ble b a = true.
Proof. rewrite !ble_lt. destruct (blt_cases a b) as [|[|]]; auto. Qed.

Lemma ble_antisym a b : ble a b = true → ble b a = true → a = b.
Proof.
  rewrite !ble_lt. intros [->|H1] [H2|H2]; auto.
  rewrite (blt_asym _ _ H1) in H2. done.
Qed.

(** The order ignores a common prefix. *)
Lemma blt_app p a b : blt (p ++ a) (p ++ b) = blt a b.
Proof. induction p as [|x p IH]; simpl; [done|]. rewrite IH, Z.ltb_irrefl, Z.eqb_refl. done. Qed.

Lemma ble_app p a b : ble (p ++ a) (p ++ b) = ble a b.
Proof. unfold ble. by rewrite blt_app. Qed.

Lemma blt_nil_r a : blt a [] = false.
Proof. by destruct a. Qed.

Lemma ble_nil a : ble [] a = true.
Proof. unfold ble. by rewrite blt_nil_r. Qed.

Lemma ble_app_r a b : ble a (a ++ b) = true.
Proof. rewrite <-(app_nil_r a) at 1. rewrite ble_app. apply ble_nil. Qed.

Lemma blt_cons x a b : blt (x :: a) (x :: b) = blt a b.
Proof. apply (blt_app [x]). Qed.
Lemma ble_cons x a b : ble (x :: a) (x :: b) = ble a b.
Proof. apply (ble_app [x]). Qed.

Lemma in_range_iff s k e : in_range s k e = true ↔ ble s k = true ∧ blt k e = true.
Proof. unfold in_range. apply andb_true_iff. Qed.

(** ** Appending below a separator

    [a] and [b] are strings without the separator byte; appending the separator and
    anything after it to each keeps the order between them, because the separator is the
    least byte. *)
Definition no_sep (k : bytes) : Prop := x00 ∉ k.

#[global] Instance no_sep_dec k : Decision (no_sep k).
Proof. unfold no_sep. apply _. Defined.

Lemma no_sep_cons x k : no_sep (x :: k) ↔ x ≠ x00 ∧ no_sep k.
Proof. unfold no_sep. rewrite not_elem_of_cons. naive_solver. Qed.

Lemma byteZ_pos x : x ≠ x00 → 0 < byteZ x.
Proof.
  intros H. pose proof (byteZ_range x).
  destruct (decide (byteZ x = 0)) as [E|]; [|lia].
  destruct H. by apply byteZ_inj.
Qed.

Lemma blt_sep_lt a b u v :
  no_sep b → blt a b = true → blt (a ++ x00 :: u) (b ++ v) = true.
Proof.
  revert b. induction a as [|x a IH]; intros [|y b]; simpl; try done.
  - intros [Hy _]%no_sep_cons _. apply byteZ_pos in Hy.
    change (byteZ x00) with 0. apply Z.ltb_lt in Hy. by rewrite Hy.
  - intros [_ Hb]%no_sep_cons H. zbool; rewrite orb_true_iff, andb_true_iff, Z.ltb_lt, Z.eqb_eq;
      eauto.
Qed.

Lemma blt_sep_iff a b u v :
  no_sep a → no_sep b → a ≠ b → blt (a ++ x00 :: u) (b ++ x00 :: v) = blt a b.
Proof.
  intros Ha Hb Hne. destruct (blt_cases a b) as [H|[H|H]]; [|done|].
  - rewrite H. by apply blt_sep_lt.
  - rewrite (blt_asym _ _ H). apply blt_asym. by apply blt_sep_lt.
Qed.

(** A row of key [a] is inside the bounds of a range of user keys exactly when [a] is. *)
Lemma blt_row_end a e u : no_sep e → blt (a ++ x00 :: u) e = blt a e.
Proof.
  intros He. destruct (blt a e) eqn:H.
  - rewrite <-(app_nil_r e). by apply blt_sep_lt.
  - assert (ble e a = true) as [->|Hb]%ble_lt by (unfold ble; by rewrite H).
    + apply negb_true_iff. change (negb (blt (a ++ x00 :: u) a)) with (ble a (a ++ x00 :: u)).
      apply ble_app_r.
    + apply blt_asym. eapply blt_ble_trans; [done|]. apply ble_app_r.
Qed.

Lemma ble_start_row s a u : no_sep s → ble s (a ++ x00 :: u) = ble s a.
Proof. intros Hs. unfold ble. by rewrite blt_row_end. Qed.

Lemma app_sep_inj a b u v :
  no_sep a → no_sep b → a ++ x00 :: u = b ++ x00 :: v → a = b ∧ u = v.
Proof.
  revert b. induction a as [|x a IH]; intros [|y b]; simpl.
  - naive_solver.
  - intros _ [? _]%no_sep_cons [=]. congruence.
  - intros [? _]%no_sep_cons _ [=]. congruence.
  - intros [_ Ha]%no_sep_cons [_ Hb]%no_sep_cons [= -> H].
    destruct (IH b) as [-> ->]; auto.
Qed.

(** ** Big-endian integers *)

(** [z.to_bytes(n, 'big')] for [0 <= z < 256 ^ n]. *)
Fixpoint be_bytes (n : nat) (z : Z) : bytes :=
  match n with
  | O => []
  | S n => byte_of_Z (z / 256 ^ Z.of_nat n mod 256) :: be_bytes n (z mod 256 ^ Z.of_nat n)
  end.

(** [int.from_bytes(l, 'big')]. *)
Fixpoint be_int (l : bytes) : Z :=
  match l with
  | [] => 0
  | b :: l => byteZ b * 256 ^ Z.of_nat (length l) + be_int l
  end.

Lemma length_be_bytes n z : length (be_bytes n z) = n.
Proof. revert z. induction n; intros; simpl; auto. Qed.

Lemma be_int_range l : 0 ≤ be_int l < 256 ^ Z.of_nat (length l).
Proof.
  induction l as [|b l IH]; [simpl; lia|].
  cbn [be_int length]. rewrite Nat2Z.inj_succ, Z.pow_succ_r by lia.
  pose proof (byteZ_range b). nia.
Qed.

Lemma be_int_bytes n z : 0 ≤ z < 256 ^ Z.of_nat n → be_int (be_bytes n z) = z.
Proof.
  revert z. induction n as [|n IH]; intros z Hz; [simpl in *; lia|].
  cbn [be_bytes be_int]. rewrite length_be_bytes.
  rewrite Nat2Z.inj_succ, Z.pow_succ_r in Hz by lia.
  assert (0 < 256 ^ Z.of_nat n) as Hp by (apply Z.pow_pos_nonneg; lia).
  rewrite IH by (apply Z.mod_pos_bound; lia).
  rewrite byteZ_of_Z by (apply Z.mod_pos_bound; lia).
  rewrite (Z.mod_small (z / _) 256).
  - rewrite (Z.mul_comm (z / _)). symmetry. apply Z.div_mod. lia.
  - split; [apply Z.div_pos; lia|]. apply Z.div_lt_upper_bound; lia.
Qed.

Lemma be_bytes_int l : be_bytes (length l) (be_int l) = l.
Proof.
  induction l as [|b l IH]; [done|].
  cbn [be_bytes be_int length]. pose proof (be_int_range l) as Hr.
  pose proof (byteZ_range b).
  rewrite Z.div_add_l by lia. rewrite (Z.div_small (be_int l)) by lia.
  rewrite Z.add_0_r, (Z.mod_small (byteZ b)) by lia. rewrite byte_of_byteZ.
  rewrite Z.add_comm, Z.mod_add by lia. rewrite Z.mod_small by lia. by rewrite IH.
Qed.

(** For strings of one length the byte order is the order of the integers: appending a
    big-endian suffix sorts by it. *)
Lemma blt_be_int a b : length a = length b → blt a b = (be_int a <? be_int b).
Proof.
  revert b. induction a as [|x a IH]; intros [|y b]; try done.
  intros [= Hl]. cbn [blt be_int]. rewrite (IH b Hl), Hl.
  pose proof (be_int_range a) as Ha. rewrite Hl in Ha. pose proof (be_int_range b).
  destruct (Z.ltb_spec (byteZ x) (byteZ y)); simpl.
  - symmetry. apply Z.ltb_lt. nia.
  - destruct (Z.eqb_spec (byteZ x) (byteZ y)) as [E|]; simpl.
    + rewrite E. destruct (Z.ltb_spec (be_int a) (be_int b)); symmetry;
        [apply Z.ltb_lt | apply Z.ltb_ge]; lia.
    + symmetry. apply Z.ltb_ge. nia.
Qed.

Lemma blt_be_bytes n x y :
  0 ≤ x < 256 ^ Z.of_nat n → 0 ≤ y < 256 ^ Z.of_nat n →
  blt (be_bytes n x) (be_bytes n y) = (x <? y).
Proof. intros. rewrite blt_be_int by (by rewrite !length_be_bytes). by rewrite !be_int_bytes. Qed.

Lemma be_bytes_inj n x y :
  0 ≤ x < 256 ^ Z.of_nat n → 0 ≤ y < 256 ^ Z.of_nat n →
  be_bytes n x = be_bytes n y → x = y.
Proof. intros Hx Hy H%(f_equal be_int). by rewrite !be_int_bytes in H. Qed.

(** ** Literals *)

(** A [b"..."] literal. *)
Definition b_ (s : string) : bytes := String.list_byte_of_string s.

#[global] Arguments be_bytes : simpl never.
#[global] Arguments be_int : simpl never.

#[export] Hint Resolve blt_irrefl ble_refl ble_nil : oxide.
