(* ===== verification/PyVal.v ===== *)
(** Python values as they cross a [msgpack] boundary, and what the code relies on about
    [msgpack] itself.

    [msgpack] is a third-party package, so its two functions are the operations of a class
    and what the code uses of them is the class's law: what [packb] accepted, [unpackb]
    gives back.  [reference_codec] is a codec that satisfies the class. *)

From S2P Require Import Prelude Bytes.

(** The values the program packs.  Tuples are packed as lists, and every dictionary of
    the program has string keys.  [PFloat] is a clock reading, in ticks. *)
Inductive pyval :=
  | PNone
  | PBool (b : bool)
  | PInt (z : Z)
  | PFloat (t : Z)
  | PBytes (b : bytes)
  | PStr (s : string)
  | PList (l : list pyval)
  | PDict (d : list (string * pyval)).

Section pyval_ind.
  Context (P : pyval → Prop).
  Context (HNone : P PNone) (HBool : ∀ b, P (PBool b)) (HInt : ∀ z, P (PInt z)).
  Context (HFloat : ∀ t, P (PFloat t)) (HBytes : ∀ b, P (PBytes b)) (HStr : ∀ s, P (PStr s)).
  Context (HList : ∀ l, Forall P l → P (PList l)).
  Context (HDict : ∀ d, Forall (λ e, P e.2) d → P (PDict d)).

Fixpoint pyval_rect' (v : pyval) : P v :=
  match v with
  | PNone => HNone
  | PBool b => HBool b
  | PInt z => HInt z
  | PFloat t => HFloat t
  | PBytes b => HBytes b
  | PStr s => HStr s
  | PList l => HList l (list_rect (Forall P) (Forall_nil_2 P)
                          (λ x l IH, Forall_cons_2 P x l (pyval_rect' x) IH) l)
  | PDict d => HDict d (list_rect (Forall (λ e, P e.2)) (Forall_nil_2 _)
                          (λ x l IH, Forall_cons_2 (λ e, P e.2) x l (pyval_rect' x.2) IH) d)
  end.
End pyval_ind.

(** Leaves of the tree a value is. *)
Inductive pyleaf :=
  | LNone | LBool (b : bool) | LInt (z : Z) | LFloat (t : Z) | LBytes (b : bytes) | LStr (s : string).

#[global] Instance pyleaf_eq_dec : EqDecision pyleaf.
Proof. solve_decision. Defined.

Definition leaf_code (l : pyleaf) : option bool + (Z + Z) + (bytes + string) :=
  match l with
  | LNone => inl (inl None) | LBool b => inl (inl (Some b))
  | LInt z => inl (inr (inl z)) | LFloat t => inl (inr (inr t))
  | LBytes b => inr (inl b) | LStr s => inr (inr s)
  end.
Definition leaf_uncode (c : option bool + (Z + Z) + (bytes + string)) : pyleaf :=
  match c with
  | inl (inl None) => LNone | inl (inl (Some b)) => LBool b
  | inl (inr (inl z)) => LInt z | inl (inr (inr t)) => LFloat t
  | inr (inl b) => LBytes b | inr (inr s) => LStr s
  end.
#[global] Instance pyleaf_countable : Countable pyleaf.
Proof. apply (inj_countable' leaf_code leaf_uncode). by intros []. Defined.

Fixpoint tree_of (v : pyval) : gen_tree pyleaf :=
  match v with
  | PNone => GenLeaf LNone
  | PBool b => GenLeaf (LBool b)
  | PInt z => GenLeaf (LInt z)
  | PFloat t => GenLeaf (LFloat t)
  | PBytes b => GenLeaf (LBytes b)
  | PStr s => GenLeaf (LStr s)
  | PList l => GenNode 0 (map tree_of l)
  | PDict d => GenNode 1 (map (λ e, GenNode 2 [GenLeaf (LStr e.1); tree_of e.2]) d)
  end.

Fixpoint of_tree (t : gen_tree pyleaf) : pyval :=
  match t with
  | GenLeaf LNone => PNone
  | GenLeaf (LBool b) => PBool b
  | GenLeaf (LInt z) => PInt z
  | GenLeaf (LFloat t) => PFloat t
  | GenLeaf (LBytes b) => PBytes b
  | GenLeaf (LStr s) => PStr s
  | GenNode 0 l => PList (map of_tree l)
  | GenNode _ l =>
      PDict (map (λ e, match e with
                       | GenNode _ [GenLeaf (LStr s); x] => (s, of_tree x)
                       | _ => (EmptyString, PNone)
                       end) l)
  end.

Lemma of_tree_of v : of_tree (tree_of v) = v.
Proof.
  induction v as [| | | | | |l IH|d IH] using pyval_rect'; simpl; try done.
  - f_equal. induction IH as [|x l Hx _ IHl]; simpl; congruence.
  - f_equal. induction IH as [|[s x] d Hx _ IHd]; simpl in *; congruence.
Qed.

#[global] Instance pyval_eq_dec : EqDecision pyval.
Proof.
  refine (λ x y, cast_if (decide (tree_of x = tree_of y)));
    abstract (first [congruence | rewrite <-(of_tree_of x), <-(of_tree_of y); congruence]).
Defined.
#[global] Instance pyval_countable : Countable pyval :=
  inj_countable' tree_of of_tree of_tree_of.

(** ** Reading a value the way the code does *)

(** [d.get(name)] on a dictionary: [None] is "not there". *)
Fixpoint dict_get (d : list (string * pyval)) (name : string) : option pyval :=
  match d with
  | [] => None
  | (s, v) :: d => if decide (s = name) then Some v else dict_get d name
  end.

(** [cmd.get(name)] on whatever was unpacked: only a dictionary has the method, and a
    name that is not there is [None]. *)
Definition py_get (v : pyval) (name : string) : result pyval :=
  match v with
  | PDict d => Ok (default PNone (dict_get d name))
  | _ => Raise AttributeError
  end.

(** [cmd.get(name, fallback)]. *)
Definition py_get_or (v : pyval) (name : string) (fallback : pyval) : result pyval :=
  match v with
  | PDict d => Ok (default fallback (dict_get d name))
  | _ => Raise AttributeError
  end.

(** [cmd[name]]. *)
Definition py_index (v : pyval) (name : string) : result pyval :=
  match v with
  | PDict d => match dict_get d name with Some x => Ok x | None => Raise KeyError end
  | _ => Raise TypeError
  end.

(** An operand of integer arithmetic or comparison. *)
Definition as_int (v : pyval) : result Z :=
  match v with
  | PInt z => Ok z
  | PBool b => Ok (if b then 1 else 0)
  | _ => Raise TypeError
  end.

(** A value a [bytes] parameter accepts: the [isinstance] test of the storage layer. *)
Definition as_bytes (v : pyval) : result bytes :=
  match v with PBytes b => Ok b | _ => Raise TypeError end.

(** [bytes(v)]: a copy of a byte string, that many zero bytes for an integer, and the
    bytes of a list of small integers. *)
Definition py_bytes (v : pyval) : result bytes :=
  match v with
  | PBytes b => Ok b
  | PInt z => if z <? 0 then Raise ValueError else Ok (replicate (Z.to_nat z) x00)
  | PBool b => Ok (if b then [x00] else [])
  | PList l =>
      foldr (λ x acc, let? bs := acc in let? z := as_int x in
                      if (0 <=? z) && (z <? 256) then Ok (byte_of_Z z :: bs)
                      else Raise ValueError) (Ok []) l
  | _ => Raise TypeError
  end.

(** ** msgpack *)

(** [packb] and [unpackb]; both may raise.  The law is the package's documented round
    trip: unpacking what was packed gives the value back.  [packb_packable]
    states where packing succeeds and where it raises: on dictionaries and lists of 64-bit integers, byte
    strings and text whose sizes fit 32 bits.  No packed value is the empty string. *)
Fixpoint packable (v : pyval) : bool :=
  match v with
  | PNone | PBool _ | PFloat _ => true
  | PInt z => (- 2 ^ 63 <=? z) && (z <? 2 ^ 64)
  | PBytes b => Z.of_nat (length b) <? 2 ^ 32
  | PStr s => Z.of_nat (String.length s) <? 2 ^ 32
  | PList l => (Z.of_nat (length l) <? 2 ^ 32) && forallb packable l
  | PDict d => (Z.of_nat (length d) <? 2 ^ 32)
               && forallb (λ e, (Z.of_nat (String.length e.1) <? 2 ^ 32) && packable e.2) d
  end.

Class Msgpack := {
  packb : pyval → result bytes;
  unpackb : bytes → result pyval;
  unpackb_packb v b : packb v = Ok b → unpackb b = Ok v;
  packb_packable v : packable v = true ↔ is_Ok (packb v);
  packb_not_empty v b : packb v = Ok b → b ≠ []
}.

(** A codec that satisfies the class: the value's number, written as bits. *)
Fixpoint bits_of (p : positive) : bytes :=
  match p with
  | xH => [x01]
  | xO p => x02 :: bits_of p
  | xI p => x03 :: bits_of p
  end.
Fixpoint of_bits (b : bytes) : option positive :=
  match b with
  | [x01] => Some xH
  | x02 :: b => xO <$> of_bits b
  | x03 :: b => xI <$> of_bits b
  | _ => None
  end.

Lemma of_bits_of p : of_bits (bits_of p) = Some p.
Proof.
  induction p as [p IH|p IH|]; simpl; [by rewrite IH | |done].
  rewrite IH. by destruct p.
Qed.

Definition reference_codec : Msgpack.
Proof.
  refine {|
    packb v := if packable v then Ok (bits_of (encode v)) else Raise OverflowError;
    unpackb b := match of_bits b ≫= decode with
                 | Some v => Ok v
                 | None => Raise ValueError
                 end |}.
  - intros v b. destruct (packable v); [|done]. intros [= <-]. rewrite of_bits_of. simpl.
    by rewrite decode_encode.
  - intros v. split; [intros ->; by eexists|]. intros [b Hb]. by destruct (packable v).
  - intros v b. destruct (packable v); [|done]. intros [= <-]. by destruct (encode v).
Defined.
