(* ===== verification/PyOps.v ===== *)
(** Python's conversions and iteration on values read out of a message: [int], [str],
    indexing by position and iteration, as the command handlers of the metadata group and
    the recovery code use them. *)

From Stdlib Require Import ZArith Lia Ascii.
From S2P Require Import Prelude Bytes PyVal.

(** [str(v)] of a value that is neither text, nor a number, nor a constant.  Nothing
    depends on what it is. *)
Class PyRepr := py_repr : pyval → string.

(** Decimal digits of a natural number. *)
Fixpoint digits (fuel : nat) (z : Z) (acc : string) : string :=
  match fuel with
  | O => acc
  | S fuel =>
      let acc := String (ascii_of_nat (Z.to_nat (48 + z mod 10))) acc in
      if z / 10 =? 0 then acc else digits fuel (z / 10) acc
  end.

(** [str(z)]: the fuel is at least the number of digits. *)
Definition str_of_Z (z : Z) : string :=
  let ds := digits (S (Z.to_nat (Z.log2 (Z.abs z)))) (Z.abs z) EmptyString in
  if z <? 0 then String "-" ds else ds.

Definition py_str `{PyRepr} (v : pyval) : string :=
  match v with
  | PStr s => s
  | PInt z => str_of_Z z
  | PNone => "None"
  | PBool true => "True"
  | PBool false => "False"
  | _ => py_repr v
  end.

(** [int] of text: surrounding white space, a sign, digits with single underscores between
    them (ASCII digits; the other decimal digits of Unicode are left out). *)
Definition is_space (c : Z) : bool :=
  ((9 <=? c) && (c <=? 13)) || ((28 <=? c) && (c <=? 32)).
Fixpoint strip_left (l : list Z) : list Z :=
  match l with
  | c :: l' => if is_space c then strip_left l' else l
  | [] => []
  end.
Definition strip (l : list Z) : list Z := rev (strip_left (rev (strip_left l))).

Fixpoint int_digits (l : list Z) (acc : Z) (after_digit : bool) : option Z :=
  match l with
  | [] => if after_digit then Some acc else None
  | c :: l =>
      if (48 <=? c) && (c <=? 57) then int_digits l (10 * acc + (c - 48)) true
      else if (c =? 95) && after_digit then int_digits l acc false
      else None
  end.

Definition int_of_chars (l : list Z) : result Z :=
  let r := match strip l with
           | 45 :: ds => Z.opp <$> int_digits ds 0 false
           | 43 :: ds => int_digits ds 0 false
           | ds => int_digits ds 0 false
           end in
  match r with Some z => Ok z | None => Raise ValueError end.

Definition chars (s : string) : list Z := map (λ c, Z.of_nat (nat_of_ascii c)) (String.list_ascii_of_string s).

(** [int(v)].  A float is in ticks of a nanosecond, and is cut towards zero. *)
Definition py_int (v : pyval) : result Z :=
  match v with
  | PInt z => Ok z
  | PBool b => Ok (if b then 1 else 0)
  | PFloat t => Ok (Z.quot t 1000000000)
  | PStr s => int_of_chars (chars s)
  | PBytes b => int_of_chars (map byteZ b)
  | PNone | PList _ | PDict _ => Raise TypeError
  end.

(** The values [for x in v] goes through. *)
Definition py_iter (v : pyval) : result (list pyval) :=
  match v with
  | PList l => Ok l
  | PBytes b => Ok (map (λ x, PInt (byteZ x)) b)
  | PStr s => Ok (map (λ c, PStr (String c EmptyString)) (String.list_ascii_of_string s))
  | PDict d => Ok (map (λ e, PStr e.1) d)
  | _ => Raise TypeError
  end.

(** [v[i]] for a position [i]. *)
Definition py_item (v : pyval) (i : nat) : result pyval :=
  match v with
  | PList _ | PBytes _ | PStr _ =>
      let? l := py_iter v in
      match l !! i with Some x => Ok x | None => Raise IndexError end
  | PDict _ => Raise KeyError
  | _ => Raise TypeError
  end.

(** [a, b = v]. *)
Definition py_pair (v : pyval) : result (pyval * pyval) :=
  let? l := py_iter v in
  match l with [a; b] => Ok (a, b) | _ => Raise ValueError end.

(** [[f(x) for x in l]]: the first exception ends it. *)
Fixpoint traverse {A B} (f : A → result B) (l : list A) : result (list B) :=
  match l with
  | [] => Ok []
  | x :: l => let? y := f x in let? ys := traverse f l in Ok (y :: ys)
  end.

Lemma traverse_map {A B C} (f : B → result C) (g : A → B) (h : A → C) l :
  (∀ x, x ∈ l → f (g x) = Ok (h x)) → traverse f (map g l) = Ok (map h l).
Proof.
  induction l as [|x l IH]; intros Hf; cbn; [done|].
  rewrite Hf by (by left). cbn. rewrite IH; [done|]. intros y Hy. apply Hf. by right.
Qed.
