(* ===== verification/PyText.v ===== *)
(** Python text as the SQL front end uses it: methods of [str], and [re.match] for the
    patterns of [sql/parser.py].

    Text is its UTF-8 encoding, so [encode] is the identity and [decode] checks it.  Case,
    white space, digits and word characters are those of ASCII: text that reaches [upper],
    [lower], [strip], [isdigit] or a pattern is taken to be ASCII. *)

From Stdlib Require Import ZArith Lia Ascii Strings.Byte Strings.String.
From S2P Require Import Prelude Bytes PyVal PyOps.

Abbreviation text := bytes.

Section chars.
Implicit Types x : byte.
Definition between (a x : byte) (b : byte) : bool := (byteZ a <=? byteZ x) && (byteZ x <=? byteZ b).
Definition is_sp x : bool := is_space (byteZ x).
Definition is_digit x : bool := between "0" x "9".
Definition is_word x : bool :=
  is_digit x || between "a" x "z" || between "A" x "Z" || bool_decide (x = "_"%byte).
Definition upper1 x : byte := if between "a" x "z" then byte_of_Z (byteZ x - 32) else x.
Definition lower1 x : byte := if between "A" x "Z" then byte_of_Z (byteZ x + 32) else x.
End chars.

Definition upper (s : text) : text := map upper1 s.
Definition lower (s : text) : text := map lower1 s.
Fixpoint lstrip (s : text) : text :=
  match s with
  | x :: s' => if is_sp x then lstrip s' else s
  | [] => []
  end.
Definition strip (s : text) : text := rev (lstrip (rev (lstrip s))).
Definition isdigit (s : text) : bool := negb (bool_decide (s = [])) && forallb is_digit s.
Fixpoint startswith (p s : text) : bool :=
  match p, s with
  | [], _ => true
  | x :: p, y :: s => bool_decide (x = y) && startswith p s
  | _, [] => false
  end.
Definition endswith (p s : text) : bool := startswith (rev p) (rev s).
(** [s.split(x)] for one character. *)
Fixpoint split (x : byte) (s : text) : list text :=
  match s with
  | [] => [[]]
  | y :: s =>
      if decide (y = x) then [] :: split x s
      else match split x s with
           | w :: ws => (y :: w) :: ws
           | [] => [[y]]
           end
  end.
(** [s[1:-1]]. *)
Definition inner (s : text) : text := take (length s - 2) (drop 1 s).
(** [int(s)] of digits. *)
Definition int_of_digits (s : text) : Z := foldl (λ acc x, 10 * acc + (byteZ x - 48)) 0 s.

(** [s.encode()] and [b.decode()]. *)
Definition str (s : text) : string := String.string_of_list_byte s.
Definition cont (x : byte) : bool := between x80 x xbf.
Fixpoint utf8_from (fuel : nat) (s : bytes) : bool :=
  match fuel with
  | O => false
  | S fuel =>
      match s with
      | [] => true
      | x :: s =>
          let z := byteZ x in
          if z <? 128 then utf8_from fuel s
          else if (194 <=? z) && (z <=? 223) then
            match s with a :: s => cont a && utf8_from fuel s | _ => false end
          else if (224 <=? z) && (z <=? 239) then
            match s with
            | a :: b :: s =>
                let za := byteZ a in
                cont a && cont b && negb ((z =? 224) && (za <? 160)) && negb ((z =? 237) && (159 <? za))
                && utf8_from fuel s
            | _ => false
            end
          else if (240 <=? z) && (z <=? 244) then
            match s with
            | a :: b :: c :: s =>
                let za := byteZ a in
                cont a && cont b && cont c && negb ((z =? 240) && (za <? 144))
                && negb ((z =? 244) && (143 <? za)) && utf8_from fuel s
            | _ => false
            end
          else false
      end
  end.
(** Every round takes a byte. *)
Definition utf8_valid (s : bytes) : bool := utf8_from (S (length s)) s.
Definition decode_text (b : bytes) : result text := if utf8_valid b then Ok b else Raise ValueError.

(** ** Patterns

    [Rep greedy least p] is a repeated character class: [p*] and [p+], and with
    [greedy = false] [p*?] and [p+?].  [rmatch] is a backtracking matcher in the order of
    [re]: [k] is what comes after the pattern, and the first way through wins. *)
Inductive regex :=
  | Eps
  | Chr (p : byte → bool)
  | Rep (greedy : bool) (least : nat) (p : byte → bool)
  | Seq (r1 r2 : regex)
  | Alt (r1 r2 : regex)
  | Opt (r : regex)
  | Group (i : nat) (r : regex).

Declare Scope regex_scope.
Delimit Scope regex_scope with regex.
Bind Scope regex_scope with regex.
Infix "⋅" := Seq (at level 41, right associativity) : regex_scope.
Infix "∥" := Alt (at level 42, right associativity) : regex_scope.

Definition lit (w : text) : regex := foldr (λ x r, Seq (Chr (λ y, bool_decide (x = y))) r) Eps w.

Definition captures := gmap nat text.

(** A repeated class at [s], with [k] after it. *)
Fixpoint rep (greedy : bool) (p : byte → bool) (k : text → option captures) (least : nat) (s : text)
    : option captures :=
  match least, s with
  | S n, x :: s' => if p x then rep greedy p k n s' else None
  | S _, [] => None
  | O, [] => k []
  | O, x :: s' =>
      let more := if p x then rep greedy p k O s' else None in
      if greedy then match more with Some c => Some c | None => k s end
      else match k s with Some c => Some c | None => more end
  end.

Fixpoint rmatch (r : regex) (s : text) (c : captures) (k : text → captures → option captures)
    : option captures :=
  match r with
  | Eps => k s c
  | Chr p => match s with x :: s' => if p x then k s' c else None | [] => None end
  | Rep greedy least p => rep greedy p (λ s', k s' c) least s
  | Seq r1 r2 => rmatch r1 s c (λ s' c', rmatch r2 s' c' k)
  | Alt r1 r2 => match rmatch r1 s c k with Some m => Some m | None => rmatch r2 s c k end
  | Opt r => match rmatch r s c k with Some m => Some m | None => k s c end
  | Group i r => rmatch r s c (λ s' c', k s' (<[i := take (length s - length s') s]> c'))
  end.

(** [re.match(pattern, s)]: from the start, with anything left over. *)
Definition re_match (r : regex) (s : text) : option captures := rmatch r s ∅ (λ _ c, Some c).
Definition group (c : captures) (i : nat) : option text := c !! i.

Definition any (x : byte) : bool := true.
Definition dot (x : byte) : bool := negb (bool_decide (x = x0a)).

(** ** Facts *)

(** A greedy class takes a whole run when what comes after the run matches there. *)
Lemma rep_greedy_run p k run rest c n :
  forallb p run = true → (n ≤ length run)%nat →
  match rest with x :: _ => p x = false | [] => True end →
  k rest = Some c → rep true p k n (run ++ rest) = Some c.
Proof.
  intros Hrun Hn Hrest Hk. revert n Hn.
  induction run as [|x run IH]; intros n Hn; cbn in Hrun.
  - destruct n; [|cbn in Hn; lia]. cbn [app]. destruct rest as [|y rest]; [done|]. cbn [rep]. by rewrite Hrest.
  - apply andb_true_iff in Hrun as [Hx Hrun]. cbn [app].
    destruct n as [|n]; cbn [rep]; rewrite Hx.
    + by rewrite (IH Hrun 0%nat) by lia.
    + apply IH; [done|]. cbn in Hn. lia.
Qed.

Lemma rep_greedy_all p k run c n :
  forallb p run = true → (n ≤ length run)%nat → k [] = Some c → rep true p k n run = Some c.
Proof. intros. rewrite <-(app_nil_r run). by apply rep_greedy_run. Qed.

(** A greedy class gives back what it has to. *)
Lemma rep_greedy_back p k run rest c n :
  forallb p run = true → forallb p rest = true → (n ≤ length run)%nat → k rest = Some c →
  (∀ u v, rest = u ++ v → u ≠ [] → k v = None) →
  rep true p k n (run ++ rest) = Some c.
Proof.
  intros Hrun Hrest Hn Hk Hlater.
  assert (Hno : ∀ u v, rest = u ++ v → u ≠ [] → rep true p k 0 v = None).
  { intros u v. revert u. induction v as [|x v IH]; intros u Heq Hu; cbn [rep]; [by eapply Hlater|].
    rewrite (Hlater _ _ Heq Hu).
    assert (p x = true) as -> by (rewrite Heq in Hrest; rewrite forallb_app in Hrest; cbn in Hrest;
      by repeat apply andb_true_iff in Hrest as [? Hrest]).
    rewrite (IH (u ++ [x])); [done|by rewrite <-app_assoc|]. by destruct u. }
  revert n Hn. induction run as [|x run IH]; intros n Hn; cbn in Hrun.
  - destruct n; [|cbn in Hn; lia]. cbn [app]. destruct rest as [|y rest]; [done|]. cbn [rep].
    rewrite (Hno [y] rest) by done. by rewrite Hk; destruct (p y).
  - apply andb_true_iff in Hrun as [Hx Hrun]. cbn [app].
    destruct n as [|n]; cbn [rep]; rewrite Hx.
    + by rewrite (IH Hrun 0%nat) by lia.
    + apply IH; [done|]. cbn in Hn. lia.
Qed.

(** A lazy class goes on as long as what comes after it does not match. *)
Lemma rep_lazy_run p k run rest c n :
  forallb p run = true → (n ≤ length run)%nat → k rest = Some c →
  (∀ u v, run = u ++ v → v ≠ [] → (n ≤ length u)%nat → k (v ++ rest) = None) →
  rep false p k n (run ++ rest) = Some c.
Proof.
  intros Hrun Hn Hk. revert n Hn. induction run as [|x run IH]; intros n Hn Hno; cbn in Hrun.
  - destruct n; [|cbn in Hn; lia]. cbn [app]. destruct rest; cbn [rep]; by rewrite Hk.
  - apply andb_true_iff in Hrun as [Hx Hrun]. cbn [app].
    destruct n as [|n]; cbn [rep]; rewrite Hx.
    + pose proof (Hno [] (x :: run) eq_refl ltac:(done) ltac:(cbn; lia)) as Hk0. cbn [app] in Hk0. rewrite Hk0.
      apply IH; [done|lia|]. intros u v -> Hv _. by apply (Hno (x :: u)); [|done|cbn; lia].
    + apply IH; [done|cbn in Hn; lia|]. intros u v -> Hv Hu. apply (Hno (x :: u)); [done..|cbn; lia].
Qed.

Lemma rmatch_lit w rest c k : rmatch (lit w) (w ++ rest) c k = k rest c.
Proof. induction w as [|x w IH]; [done|]. cbn. rewrite bool_decide_true by done. apply IH. Qed.

Lemma take_before {A} (a b : list A) : take (length (a ++ b) - length b) (a ++ b) = a.
Proof. rewrite length_app. replace (_ - _)%nat with (length a) by lia. apply take_app_length. Qed.

(** ** Numbers *)

Lemma digit_byte z s : 0 ≤ z < 10 →
  ∃ x, b_ (String (ascii_of_nat (Z.to_nat (48 + z))) s) = x :: b_ s ∧ is_digit x = true ∧ byteZ x - 48 = z.
Proof.
  intros Hz. assert (z ∈ seqZ 0 10) as Hin by (apply elem_of_seqZ; lia).
  change (seqZ 0 10) with [0; 1; 2; 3; 4; 5; 6; 7; 8; 9] in Hin.
  repeat (apply elem_of_cons in Hin as [-> |Hin]; [eexists; split_and!; reflexivity|]).
  by apply elem_of_nil in Hin.
Qed.

Lemma digits_read fuel : ∀ z acc, 0 ≤ z < 2 ^ Z.of_nat fuel → fuel ≠ O →
  ∃ ds, b_ (digits fuel z acc) = ds ++ b_ acc ∧ ds ≠ [] ∧ forallb is_digit ds = true ∧ int_of_digits ds = z.
Proof.
  induction fuel as [|fuel IH]; intros z acc Hz Hf; [done|]. cbn [digits].
  destruct (digit_byte (z mod 10) acc) as (x&Hx&Hd&Hv); [apply Z.mod_pos_bound; lia|].
  pose proof (Z.div_mod z 10 ltac:(lia)) as Hdiv. destruct (Z.eqb_spec (z / 10) 0) as [H0|H0].
  - exists [x]. split_and!; [done|done|cbn; by rewrite Hd|]. unfold int_of_digits. cbn -[Z.mul]. lia.
  - assert (0 ≤ z / 10 < 2 ^ Z.of_nat fuel) as Hq.
    { rewrite Nat2Z.inj_succ, Z.pow_succ_r in Hz by lia. split; [apply Z.div_pos; lia|].
      apply Z.div_lt_upper_bound; lia. }
    destruct (IH (z / 10) (String (ascii_of_nat (Z.to_nat (48 + z mod 10))) acc) Hq) as (ds&Hds&_&Hd'&Hv').
    { intros ->. cbn in Hq. lia. }
    exists (ds ++ [x]). rewrite Hds, Hx. split_and!.
    + by rewrite <-app_assoc.
    + by destruct ds.
    + rewrite forallb_app, Hd'. cbn. by rewrite Hd.
    + unfold int_of_digits in *. rewrite foldl_app, Hv'. cbn -[Z.mul]. lia.
Qed.

(** A printed number: its digits, which spell it. *)
Lemma number_read n : 0 ≤ n →
  b_ (str_of_Z n) ≠ [] ∧ forallb is_digit (b_ (str_of_Z n)) = true ∧ int_of_digits (b_ (str_of_Z n)) = n.
Proof.
  intros Hn. unfold str_of_Z. rewrite (proj2 (Z.ltb_ge n 0)) by lia. rewrite Z.abs_eq by lia.
  destruct (digits_read (S (Z.to_nat (Z.log2 n))) n EmptyString) as (ds&->&Hne&Hd&Hv); [|done|].
  - split; [done|]. rewrite Nat2Z.inj_succ, Z2Nat.id by apply Z.log2_nonneg.
    destruct (decide (n = 0)) as [->|]; [done|]. apply Z.log2_spec. lia.
  - change (b_ EmptyString) with (@nil byte). by rewrite app_nil_r.
Qed.

Lemma chars_bytes s : chars s = map byteZ (b_ s).
Proof.
  unfold chars. induction s as [|c s IH]; cbn; [done|]. f_equal; [|exact IH].
  by destruct c as [[] [] [] [] [] [] [] []].
Qed.

Lemma digit_range x : is_digit x = true → 48 ≤ byteZ x ≤ 57.
Proof. unfold is_digit, between. change (byteZ "0") with 48. change (byteZ "9") with 57. intros. zbool. lia. Qed.

Lemma int_digits_read ds : ∀ acc after, forallb is_digit ds = true → ds ≠ [] ∨ after = true →
  int_digits (map byteZ ds) acc after = Some (foldl (λ acc x, 10 * acc + (byteZ x - 48)) acc ds).
Proof.
  induction ds as [|x ds IH]; intros acc after Hd Hne; cbn [map int_digits foldl].
  - destruct Hne as [Hne | ->]; done.
  - cbn in Hd. apply andb_true_iff in Hd as [Hx Hd]. pose proof (digit_range _ Hx).
    rewrite (proj2 (Z.leb_le 48 _)), (proj2 (Z.leb_le _ 57)) by lia. apply IH; [done|by right].
Qed.

(** Text without white space at its ends is not stripped. *)
Definition unspaced (l : list Z) : Prop := match l with c :: _ => is_space c = false | [] => True end.

Lemma strip_left_id l : unspaced l → PyOps.strip_left l = l.
Proof. destruct l as [|c l]; [done|]. cbn. by intros ->. Qed.
Lemma strip_unspaced l : unspaced l → unspaced (rev l) → PyOps.strip l = l.
Proof. intros H1 H2. unfold PyOps.strip. by rewrite (strip_left_id l), (strip_left_id (rev l)), rev_involutive. Qed.

Lemma digit_unspaced z : 45 ≤ z ≤ 57 → is_space z = false.
Proof. intros. unfold is_space. apply orb_false_iff. rewrite !andb_false_iff, !Z.leb_gt. lia. Qed.

Lemma digits_unspaced ds : forallb is_digit ds = true → unspaced (map byteZ ds) ∧ unspaced (rev (map byteZ ds)).
Proof.
  intros Hd. rewrite forallb_forall in Hd. split.
  - destruct ds as [|x ds]; [done|]. apply digit_unspaced. pose proof (digit_range x (Hd x (or_introl eq_refl))). lia.
  - rewrite <-map_rev. destruct (rev ds) as [|x l] eqn:Hr; [done|]. apply digit_unspaced.
    assert (In x ds) as Hx by (apply in_rev; rewrite Hr; by left). pose proof (digit_range x (Hd x Hx)). lia.
Qed.

Lemma str_of_Z_chars z : ∃ ds, ds ≠ [] ∧ forallb is_digit ds = true ∧ int_of_digits ds = Z.abs z ∧
  chars (str_of_Z z) = if z <? 0 then 45 :: map byteZ ds else map byteZ ds.
Proof.
  destruct (number_read (Z.abs z) ltac:(lia)) as (Hne & Hd & Hv). eexists. split_and!; [exact Hne|exact Hd|exact Hv|].
  unfold str_of_Z. rewrite Z.abs_involutive. rewrite (proj2 (Z.ltb_ge (Z.abs z) 0)) by lia.
  destruct (z <? 0); [|apply chars_bytes].
  change (chars (String "-" ?s)) with (45 :: chars s). by rewrite chars_bytes.
Qed.

Lemma unsigned_digits c l : 48 ≤ c ≤ 57 →
  match c :: l with
  | 45 :: ds => Z.opp <$> int_digits ds 0 false
  | 43 :: ds => int_digits ds 0 false
  | ds => int_digits ds 0 false
  end = int_digits (c :: l) 0 false.
Proof.
  intros Hc. assert (c ∈ seqZ 48 10) as Hin by (apply elem_of_seqZ; lia).
  change (seqZ 48 10) with [48; 49; 50; 51; 52; 53; 54; 55; 56; 57] in Hin.
  repeat (apply elem_of_cons in Hin as [-> |Hin]; [done|]). by apply elem_of_nil in Hin.
Qed.

(** [int(str(z))]: a number is read back. *)
Lemma int_of_str z : py_int (PStr (str_of_Z z)) = Ok z.
Proof.
  cbn [py_int]. destruct (str_of_Z_chars z) as (ds & Hne & Hd & Hv & ->). unfold int_of_chars.
  destruct (digits_unspaced ds Hd) as [Hu Hr]. destruct (Z.ltb_spec z 0).
  - rewrite strip_unspaced; [|done|].
    + rewrite int_digits_read by auto. unfold int_of_digits in Hv. rewrite Hv. cbn. f_equal. lia.
    + cbn [rev]. destruct (rev (map byteZ ds)) eqn:E; [done|exact Hr].
  - rewrite strip_unspaced by done. destruct ds as [|x ds]; [done|].
    assert (48 ≤ byteZ x ≤ 57) as Hx by (apply digit_range; cbn in Hd; by apply andb_true_iff in Hd as [? _]).
    cbn [map]. rewrite unsigned_digits by done. change (byteZ x :: map byteZ ds) with (map byteZ (x :: ds)).
    rewrite int_digits_read by auto. unfold int_of_digits in Hv. rewrite Hv. f_equal. lia.
Qed.
