(* ===== verification/Engine.v ===== *)
(** The pluggable storage engines of [storage/engine.py].

    [Engine] is the abstract class every engine implements and [EngineLaws] is the
    contract the module's docstring gives: byte-ordered keys, half-open ranges.  The MVCC
    layer and the Raft storage are proved against the class; [MemoryEngine] discharges it. *)

From Stdlib Require Import ZArith Lia.
From S2P Require Import Prelude Bytes.

Abbreviation row := (bytes * bytes)%type.

(** Rows in strictly increasing key order. *)
Definition row_lt (a b : row) : Prop := blt a.1 b.1 = true.
Definition row_le (a b : row) : Prop := ble a.1 b.1 = true.

#[global] Instance row_le_dec : RelDecision row_le.
Proof. intros a b. unfold row_le. apply _. Defined.
#[global] Instance row_le_trans : Transitive row_le.
Proof. intros a b c. apply ble_trans. Qed.
#[global] Instance row_le_total : Total row_le.
Proof. intros a b. apply ble_total. Qed.

(** [class Engine(ABC)]. *)
Class Engine (E : Type) := {
  e_put : E → bytes → bytes → E;
  e_get : E → bytes → option bytes;
  e_delete : E → bytes → E;
  e_put_batch : E → list row → E;
  e_delete_range : E → bytes → bytes → E;
  e_scan : E → bytes → bytes → list row
}.

(** What every engine promises: [e_get] is a finite map updated by the writes, and [e_scan]
    lists exactly its rows of a range, in byte order. *)
Class EngineLaws (E : Type) `{Engine E} := {
  get_put e k v k' : e_get (e_put e k v) k' = if decide (k = k') then Some v else e_get e k';
  get_delete e k k' : e_get (e_delete e k) k' = if decide (k = k') then None else e_get e k';
  get_put_batch e items k :
    e_get (e_put_batch e items) k = e_get (foldl (λ e i, e_put e i.1 i.2) e items) k;
  get_delete_range e s t k :
    e_get (e_delete_range e s t) k = if in_range s k t then None else e_get e k;
  scan_spec e s t k v :
    (k, v) ∈ e_scan e s t ↔ e_get e k = Some v ∧ in_range s k t = true;
  scan_sorted e s t : StronglySorted row_lt (e_scan e s t)
}.

(** ** Consequences of the contract, for any engine *)

Lemma row_lt_irrefl r : ¬ row_lt r r.
Proof. unfold row_lt. by rewrite blt_irrefl. Qed.

(** Strictly sorted lists with the same rows are the same list. *)
Lemma sorted_ext (l1 l2 : list row) :
  StronglySorted row_lt l1 → StronglySorted row_lt l2 →
  (∀ r, r ∈ l1 ↔ r ∈ l2) → l1 = l2.
Proof.
  intros H1 H2 Heq. revert l2 H2 Heq.
  induction H1 as [|r l1 H1 IH Hr1]; intros l2 H2 Heq.
  { destruct l2 as [|r l2]; [done|]. exfalso. apply (not_elem_of_nil r), Heq. left. }
  destruct H2 as [|r' l2 H2 Hr2].
  { exfalso. apply (not_elem_of_nil r), Heq. left. }
  rewrite list.Forall_forall in Hr1, Hr2.
  assert (r = r') as <-.
  { assert (r ∈ r' :: l2) as [|Ha]%elem_of_cons by (apply Heq; left); [done|].
    assert (r' ∈ r :: l1) as [|Hb]%elem_of_cons by (apply Heq; left); [done|].
    specialize (Hr2 _ Ha). specialize (Hr1 _ Hb). unfold row_lt in *.
    rewrite (blt_asym _ _ Hr1) in Hr2. done. }
  f_equal. apply IH; [done|]. intros x. split; intros Hx.
  - assert (x ∈ r :: l2) as [->|]%elem_of_cons by (apply Heq; by right); [|done].
    destruct (row_lt_irrefl r). by apply Hr1.
  - assert (x ∈ r :: l1) as [->|]%elem_of_cons by (apply Heq; by right); [|done].
    destruct (row_lt_irrefl r). by apply Hr2.
Qed.

(** The last row of a strictly sorted list is its greatest. *)
Lemma sorted_last (l : list row) r :
  StronglySorted row_lt l → last l = Some r →
  r ∈ l ∧ ∀ r', r' ∈ l → r' = r ∨ row_lt r' r.
Proof.
  intros Hs Hl. apply last_Some in Hl as [l' ->].
  apply StronglySorted_app in Hs as (Hlt & _ & _). split; [set_solver|].
  intros r' [Hr'|Hr']%elem_of_app; [right; apply Hlt; set_solver|left; set_solver].
Qed.

Lemma sorted_last_intro (l : list row) r :
  StronglySorted row_lt l → r ∈ l → (∀ r', r' ∈ l → r' = r ∨ row_lt r' r) →
  last l = Some r.
Proof.
  intros Hs Hr Hmax. destruct (last l) as [r'|] eqn:E.
  - destruct (sorted_last _ _ Hs E) as [Hin Hmax'].
    destruct (Hmax' _ Hr) as [->|H1]; [done|].
    destruct (Hmax _ Hin) as [->|H2]; [done|].
    unfold row_lt in *. rewrite (blt_asym _ _ H1) in H2. done.
  - apply last_None in E. set_solver.
Qed.

Section engine_facts.
Context {E : Type} `{EngineLaws E}.
Implicit Types e : E.

(** Two engines that answer every [get] alike. *)
Definition same_rows e1 e2 : Prop := ∀ k, e_get e1 k = e_get e2 k.

#[global] Instance same_rows_equiv : Equivalence same_rows.
Proof.
  split; unfold same_rows.
  - done.
  - intros ?? Hs k. by rewrite Hs.
  - intros ??? H1 H2 k. by rewrite H1, H2.
Qed.

Lemma scan_ext e1 e2 s t : same_rows e1 e2 → e_scan e1 s t = e_scan e2 s t.
Proof.
  intros Hs. apply sorted_ext; [apply scan_sorted..|].
  intros [k v]. rewrite !scan_spec, (Hs k). done.
Qed.

#[global] Instance e_put_proper : Proper (same_rows ==> eq ==> eq ==> same_rows) e_put.
Proof. intros e1 e2 Hs k ? <- v ? <- k'. rewrite !get_put. by rewrite (Hs k'). Qed.
#[global] Instance e_delete_proper : Proper (same_rows ==> eq ==> same_rows) e_delete.
Proof. intros e1 e2 Hs k ? <- k'. rewrite !get_delete. by rewrite (Hs k'). Qed.
#[global] Instance e_delete_range_proper :
  Proper (same_rows ==> eq ==> eq ==> same_rows) e_delete_range.
Proof. intros e1 e2 Hs s ? <- t ? <- k'. rewrite !get_delete_range. by rewrite (Hs k'). Qed.

(** What a key reads as after a batch: the last item of the batch for it. *)
Lemma get_put_batch_lookup e items k :
  NoDup items.*1 →
  e_get (e_put_batch e items) k = match (list_to_map items : gmap bytes bytes) !! k with
                                  | Some v => Some v
                                  | None => e_get e k
                                  end.
Proof.
  rewrite get_put_batch. revert e. induction items as [|[k' v] items IH]; intros e; [done|].
  cbn. intros [Hn Hd]%list.NoDup_cons. rewrite IH by done. rewrite lookup_insert, get_put.
  case_decide; subst; [|done]. by rewrite not_elem_of_list_to_map_1.
Qed.

Lemma scan_keys_nodup e s t : NoDup (e_scan e s t).*1.
Proof.
  pose proof (scan_sorted e s t) as Hs. induction Hs as [|r l _ IH Hr]; [constructor|].
  cbn. apply list.NoDup_cons. split; [|done].
  intros (r' & Heq & Hr')%list_elem_of_fmap. rewrite list.Forall_forall in Hr.
  specialize (Hr _ Hr'). unfold row_lt in Hr. rewrite Heq, blt_irrefl in Hr. done.
Qed.

(** Emptying a range and writing back what a scan of it listed restores the range. *)
Lemma get_restore_range e1 e2 s t k :
  e_get (e_put_batch (e_delete_range e2 s t) (e_scan e1 s t)) k
  = if in_range s k t then e_get e1 k else e_get e2 k.
Proof.
  rewrite get_put_batch_lookup by apply scan_keys_nodup.
  rewrite get_delete_range.
  destruct (_ !! k) as [v|] eqn:Hl.
  - apply elem_of_list_to_map in Hl; [|apply scan_keys_nodup].
    apply scan_spec in Hl as [-> ->]. done.
  - destruct (in_range s k t) eqn:Hr; [|done].
    destruct (e_get e1 k) as [v|] eqn:Hg; [|done].
    apply not_elem_of_list_to_map_2 in Hl. destruct Hl.
    apply list_elem_of_fmap. exists (k, v). split; [done|]. by apply scan_spec.
Qed.
End engine_facts.

(** ** The successor of a key *)

(** [next_key]'s loop, from the last byte down: the trailing [0xFF] bytes are dropped and
    the last other byte is incremented.  [None] is a key made only of [0xFF]. *)
Fixpoint next_key_from (key : bytes) : option bytes :=
  match key with
  | [] => None
  | x :: rest =>
      match next_key_from rest with
      | Some r => Some (x :: r)
      | None => if decide (x = xff) then None else Some [byte_of_Z (byteZ x + 1)]
      end
  end.

Definition next_key (key : bytes) : bytes := default [xff] (next_key_from key).

Lemma byteZ_not_ff x : x ≠ xff → byteZ x < 255.
Proof.
  intros Hx. pose proof (byteZ_range x). destruct (decide (byteZ x = 255)) as [Ex|]; [|lia].
  destruct Hx. by apply byteZ_inj.
Qed.

Lemma next_key_from_lt key r : next_key_from key = Some r → blt key r = true.
Proof.
  revert r. induction key as [|x key IH]; intros r; cbn [next_key_from]; [done|].
  destruct (next_key_from key) as [r'|] eqn:Hk.
  - intros [= <-]. rewrite blt_cons. by apply IH.
  - case_decide as Hx; [done|]. intros [= <-]. cbn [blt].
    pose proof (byteZ_not_ff _ Hx). pose proof (byteZ_range x).
    rewrite byteZ_of_Z by lia. rewrite orb_true_iff, Z.ltb_lt. left. lia.
Qed.

(** ** MemoryEngine *)

Module MemoryEngine.

(** [self._data]: a [dict] from keys to values.  Every method that walks it sorts the keys
    or is indifferent to their order, so the dictionary is a finite map. *)
Record t := { _data : gmap bytes bytes }.

Definition init : t := {| _data := ∅ |}.

Definition put (e : t) (key value : bytes) : t := {| _data := <[key := value]> (_data e) |}.
Definition get (e : t) (key : bytes) : option bytes := _data e !! key.
Definition delete (e : t) (key : bytes) : t := {| _data := stdpp.base.delete key (_data e) |}.

(** One pass over the items under the lock. *)
Definition put_batch (e : t) (items : list row) : t :=
  {| _data := foldl (λ d i, <[i.1 := i.2]> d) (_data e) items |}.

(** [for key in [k for k in self._data if start <= k < end]: del self._data[key]]. *)
Definition delete_range (e : t) (start end_ : bytes) : t :=
  let keys := filter (λ k, in_range start k end_ = true) (map fst (map_to_list (_data e))) in
  {| _data := foldl (λ d k, stdpp.base.delete k d) (_data e) keys |}.

(** [[(k, self._data[k]) for k in sorted(self._data) if start <= k < end]]. *)
Definition scan (e : t) (start end_ : bytes) : list row :=
  filter (λ r : row, in_range start r.1 end_ = true)
    (merge_sort row_le (map_to_list (_data e))).

Definition clear (e : t) : t := {| _data := ∅ |}.

#[export] Instance engine : Engine t := {|
  e_put := put; e_get := get; e_delete := delete;
  e_put_batch := put_batch; e_delete_range := delete_range; e_scan := scan |}.

Lemma get_put_batch_aux e items :
  put_batch e items = foldl (λ e i, put e i.1 i.2) e items.
Proof.
  destruct e as [d]. unfold put_batch. simpl. revert d.
  induction items as [|i items IH]; intros d; simpl; [done|]. apply IH.
Qed.

Lemma lookup_foldl_delete (d : gmap bytes bytes) ks k :
  foldl (λ d k, stdpp.base.delete k d) d ks !! k = if decide (k ∈ ks) then None else d !! k.
Proof.
  revert d. induction ks as [|k' ks IH]; intros d; simpl.
  - destruct (decide (k ∈ [])) as [[]%not_elem_of_nil|]; done.
  - rewrite IH, lookup_delete. repeat case_decide; set_solver.
Qed.

Lemma get_delete_range_aux e s t k :
  get (delete_range e s t) k = if in_range s k t then None else get e k.
Proof.
  unfold get, delete_range. simpl. rewrite lookup_foldl_delete.
  destruct (in_range s k t) eqn:Hr; case_decide as Hk; try done.
  - destruct (_data e !! k) as [v|] eqn:Hd; [|done]. destruct Hk.
    apply list_elem_of_filter. split; [done|]. apply list_elem_of_fmap.
    exists (k, v). split; [done|]. by apply elem_of_map_to_list.
  - apply list_elem_of_filter in Hk as [? _]. congruence.
Qed.

Lemma scan_spec_aux e s t k v :
  (k, v) ∈ scan e s t ↔ get e k = Some v ∧ in_range s k t = true.
Proof.
  unfold scan, get. rewrite list_elem_of_filter, merge_sort_Permutation, elem_of_map_to_list.
  simpl. tauto.
Qed.

(** A sorted list of rows with distinct keys is strictly sorted. *)
Lemma sorted_strict (l : list row) :
  StronglySorted row_le l → NoDup l.*1 → StronglySorted row_lt l.
Proof.
  induction 1 as [|r l _ IH Hr]; [constructor|].
  cbn. intros [Hn Hd]%list.NoDup_cons. constructor; [by apply IH|].
  rewrite list.Forall_forall in Hr |- *. intros r' Hr'.
  specialize (Hr _ Hr'). apply ble_lt in Hr as [E|]; [|done].
  destruct Hn. rewrite E. by apply list_elem_of_fmap_2.
Qed.

Lemma strongly_sorted_filter {A} (R : relation A) (P : A → Prop) `{!∀ x, Decision (P x)} l :
  StronglySorted R l → StronglySorted R (filter P l).
Proof.
  induction 1 as [|x l _ IH Hx]; [constructor|].
  rewrite filter_cons. case_decide; [|done]. constructor; [done|].
  rewrite list.Forall_forall in Hx |- *. intros y [_ Hy]%list_elem_of_filter. auto.
Qed.

Lemma scan_sorted_aux e s t : StronglySorted row_lt (scan e s t).
Proof.
  apply strongly_sorted_filter, sorted_strict.
  - apply StronglySorted_merge_sort; apply _.
  - rewrite merge_sort_Permutation. apply NoDup_fst_map_to_list.
Qed.

(** The dictionary engine keeps the contract. *)
#[export] Instance laws : EngineLaws t.
Proof.
  split.
  - intros e k v k'. simpl. unfold get, put. simpl.
    apply lookup_insert.
  - intros e k k'. simpl. unfold get, delete. simpl.
    apply lookup_delete.
  - intros e items k. simpl. by rewrite get_put_batch_aux.
  - apply get_delete_range_aux.
  - apply scan_spec_aux.
  - apply scan_sorted_aux.
Qed.

End MemoryEngine.
