(* ===== verification/SqliteEngine.v ===== *)
(** The durable engine of [storage/engine.py]: [SQLiteEngine] and [create_engine].

    [sqlite3] models what the engine uses of the standard library's module of that name: a
    connection in autocommit mode ([isolation_level=None]) to a database file in WAL mode.
    A statement may fail; which ones do is an arbitrary list of outcomes of the world, so a
    theorem holds for whatever fails.  A process that is killed loses its connections and
    keeps the files; a machine that loses power may lose the newest commits as well.

    The engine refines the engine in memory while nothing fails, and is an instance of
    [EngineLaws] then; a batch is all or nothing whatever fails; what was there at a flush
    survives a power loss.  A [COMMIT] that fails leaves its transaction open. *)

From Stdlib Require Import ZArith Lia.
From S2P Require Import Prelude Bytes PyVal Engine.

(** ** The standard library's [sqlite3] *)

Module sqlite3.

(** The rows of the one table, [kv (k BLOB PRIMARY KEY, v BLOB NOT NULL)]. *)
Abbreviation table := (gmap bytes bytes).

(** A database file: the table as of the last commit that is known to be on the disk, and
    the table after each commit since. *)
Record file := { f_safe : table; f_recent : list table }.

Definition empty_file : file := {| f_safe := ∅; f_recent := [] |}.
Definition rows (f : file) : table := default (f_safe f) (last (f_recent f)).
Definition add_commit (t : table) (f : file) : file :=
  {| f_safe := f_safe f; f_recent := f_recent f ++ [t] |}.
Definition sync (f : file) : file := {| f_safe := rows f; f_recent := [] |}.

(** What can be found in the file after a loss of power: with [synchronous=NORMAL] the
    newest commits may be missing, and a commit is missing only if the later ones are. *)
Definition after_power_loss (f : file) (t : table) : Prop := t = f_safe f ∨ t ∈ f_recent f.

(** How a statement ends: it is done; it raises and an open transaction stays open; or it
    raises and SQLite has rolled the transaction back. *)
Inductive outcome := Done | Refused | RolledBack.

(** The files, and how the next statements end; past the end of the list all are done. *)
Record world := { w_files : gmap string file; w_outcomes : list outcome }.

Record Connection := { c_path : string; c_tx : option table }.

Definition file_of (w : world) (path : string) : file := default empty_file (w_files w !! path).
Definition set_file (path : string) (f : file) (w : world) : world :=
  {| w_files := <[path := f]> (w_files w); w_outcomes := w_outcomes w |}.
Definition set_tx (t : option table) (c : Connection) : Connection :=
  {| c_path := c_path c; c_tx := t |}.

(** What a statement of the connection sees. *)
Definition view (w : world) (c : Connection) : table :=
  default (rows (file_of w (c_path c))) (c_tx c).

Definition ends (w : world) : outcome := default Done (head (w_outcomes w)).
Definition tick (w : world) : world :=
  {| w_files := w_files w; w_outcomes := tail (w_outcomes w) |}.

(** One statement: [k] is what it does when it is done. *)
Definition statement {A} (k : M (world * Connection) A) : M (world * Connection) A :=
  λ s, match ends s.1 with
       | Done => k (tick s.1, s.2)
       | Refused => ((tick s.1, s.2), Raise SqliteError)
       | RolledBack => ((tick s.1, set_tx None s.2), Raise SqliteError)
       end.

(** A statement that changes the rows: in the open transaction, or as one of its own. *)
Definition execute (change : table → table) : M (world * Connection) unit :=
  statement (λ s,
    match c_tx s.2 with
    | Some t => ((s.1, set_tx (Some (change t)) s.2), Ok tt)
    | None =>
        let f := file_of s.1 (c_path s.2) in
        ((set_file (c_path s.2) (add_commit (change (rows f)) f) s.1, s.2), Ok tt)
    end).

(** The statement once per row. *)
Fixpoint executemany {P} (change : P → table → table) (params : list P)
  : M (world * Connection) unit :=
  match params with
  | [] => ret tt
  | p :: params => execute (change p) ;;; executemany change params
  end.

Definition select {A} (q : table → A) : M (world * Connection) A :=
  statement (λ s, (s, Ok (q (view s.1 s.2)))).

(** A setting of the connection. *)
Definition pragma : M (world * Connection) unit := statement (ret tt).

Definition begin : M (world * Connection) unit :=
  statement (λ s,
    match c_tx s.2 with
    | Some _ => (s, Raise SqliteError)
    | None => ((s.1, set_tx (Some (view s.1 s.2)) s.2), Ok tt)
    end).

Definition commit : M (world * Connection) unit :=
  statement (λ s,
    match c_tx s.2 with
    | None => (s, Raise SqliteError)
    | Some t =>
        let f := file_of s.1 (c_path s.2) in
        ((set_file (c_path s.2) (add_commit t f) s.1, set_tx None s.2), Ok tt)
    end).

Definition rollback : M (world * Connection) unit :=
  statement (λ s,
    match c_tx s.2 with
    | None => (s, Raise SqliteError)
    | Some _ => ((s.1, set_tx None s.2), Ok tt)
    end).

(** [PRAGMA wal_checkpoint(PASSIVE)] of the only connection to the file: the log is copied
    into the database and both are on the disk.  It is refused within a transaction. *)
Definition wal_checkpoint : M (world * Connection) unit :=
  statement (λ s,
    match c_tx s.2 with
    | Some _ => (s, Raise SqliteError)
    | None => ((set_file (c_path s.2) (sync (file_of s.1 (c_path s.2))) s.1, s.2), Ok tt)
    end).

End sqlite3.
Import sqlite3.

(** ** The statements of the engine *)

(** [INSERT INTO kv(k, v) VALUES(?, ?) ON CONFLICT(k) DO UPDATE SET v=excluded.v]. *)
Definition _UPSERT (r : row) (t : table) : table := <[r.1 := r.2]> t.
(** [SELECT v FROM kv WHERE k = ?]. *)
Definition select_value (k : bytes) (t : table) : option bytes := t !! k.
(** [DELETE FROM kv WHERE k = ?]. *)
Definition delete_key (k : bytes) (t : table) : table := delete k t.
(** [DELETE FROM kv WHERE k >= ? AND k < ?]. *)
Definition delete_between (start end_ : bytes) (t : table) : table :=
  filter (λ r : row, in_range start r.1 end_ = false) t.
(** [SELECT k, v FROM kv WHERE k >= ? AND k < ? ORDER BY k]: a BLOB sorts by [memcmp]. *)
Definition select_between (start end_ : bytes) (t : table) : list row :=
  merge_sort row_le (filter (λ r : row, in_range start r.1 end_ = true) (map_to_list t)).

(** [CREATE TABLE IF NOT EXISTS kv]: a file that was not there is one without rows. *)
Definition _DDL : M (world * Connection) unit :=
  statement (λ s, ((set_file (c_path s.2) (file_of s.1 (c_path s.2)) s.1, s.2), Ok tt)).

Module SQLiteEngine.

Record t := { _path : string; _conn : option Connection }.

(** Run a connection's method; [None] has none. *)
Definition on_conn {A} (m : M (world * Connection) A) : M (world * t) A :=
  λ s, match _conn s.2 with
       | None => (s, Raise AttributeError)
       | Some c =>
           let '((w, c'), r) := m (s.1, c) in
           ((w, {| _path := _path s.2; _conn := Some c' |}), r)
       end.

(** An argument is looked at before the state changes. *)
Definition arg {S} (v : pyval) : M S bytes := reads (λ _, as_bytes v).

(** [__init__].  The directory is made if it is not there; opening the file may fail. *)
Definition init (path : string) : M world t :=
  λ w, let '((w', c), r) :=
         (pragma ;;; pragma ;;; pragma ;;; pragma ;;; _DDL)
           (w, {| c_path := path; c_tx := None |}) in
       match r with
       | Ok _ => (w', Ok {| _path := path; _conn := Some c |})
       | Raise x => (w', Raise x)
       end.

Definition put (key value : pyval) : M (world * t) unit :=
  on_conn (let* k := arg key in let* v := arg value in execute (_UPSERT (k, v))).

Definition get (key : pyval) : M (world * t) (option bytes) :=
  on_conn (let* k := arg key in select (select_value k)).

Definition delete (key : pyval) : M (world * t) unit :=
  on_conn (let* k := arg key in execute (delete_key k)).

(** [[(_as_bytes(k), _as_bytes(v, "value")) for k, v in items]]. *)
Fixpoint as_rows (items : list (pyval * pyval)) : result (list row) :=
  match items with
  | [] => Ok []
  | (key, value) :: items =>
      let? k := as_bytes key in
      let? v := as_bytes value in
      let? rest := as_rows items in
      Ok ((k, v) :: rest)
  end.

(** [try: executemany(...) except Exception: ROLLBACK; raise]: an exception of the rollback
    takes the place of the first. *)
Definition upsert_or_rollback (rows : list row) : M (world * Connection) unit :=
  λ s, match executemany _UPSERT rows s with
       | (s', Ok _) => (s', Ok tt)
       | (s', Raise x) => (rollback ;;; raise x) s'
       end.

Definition put_batch (items : list (pyval * pyval)) : M (world * t) unit :=
  let* rows := reads (λ _, as_rows items) in
  match rows with
  | [] => ret tt
  | _ => on_conn (begin ;;; upsert_or_rollback rows ;;; commit)
  end.

(** [Engine.delete_batch], which the engine inherits. *)
Fixpoint delete_batch (keys : list pyval) : M (world * t) unit :=
  match keys with
  | [] => ret tt
  | key :: keys => delete key ;;; delete_batch keys
  end.

Definition delete_range (start end_ : pyval) : M (world * t) unit :=
  let* a := arg start in
  let* b := arg end_ in
  on_conn (execute (delete_between a b)).

Definition scan (start end_ : pyval) : M (world * t) (list row) :=
  let* a := arg start in
  let* b := arg end_ in
  on_conn (select (select_between a b)).

Definition flush : M (world * t) unit := on_conn wal_checkpoint.

(** A transaction that is still open is lost with the connection; calling it twice is calling
    it once. *)
Definition close : M (world * t) unit :=
  λ s, match _conn s.2 with
       | Some _ => ((s.1, {| _path := _path s.2; _conn := None |}), Ok tt)
       | None => (s, Ok tt)
       end.

Definition path (e : t) : string := _path e.

End SQLiteEngine.

(** [os.path.join(data_dir, f"{name}.sqlite3")], of a directory that does not end in a
    separator. *)
Definition engine_path (data_dir name : string) : string :=
  (data_dir +:+ "/" +:+ name +:+ ".sqlite3")%string.

(** [create_engine]: without a directory the engine is in memory. *)
Definition create_engine (data_dir : option string) (name : string)
  : M world (MemoryEngine.t + SQLiteEngine.t) :=
  match data_dir with
  | None => ret (inl MemoryEngine.init)
  | Some d => let* e := SQLiteEngine.init (engine_path d name) in ret (inr e)
  end.

(** ** The engine while nothing fails *)

Section facts.
Import SQLiteEngine.
Implicit Types (fs : gmap string file) (p : string).

(** An open engine that has no transaction and no failure ahead of it. *)
Definition ready fs p : world * t :=
  ({| w_files := fs; w_outcomes := [] |},
   {| _path := p; _conn := Some {| c_path := p; c_tx := None |} |}).

Definition file_at fs p : file := default empty_file (fs !! p).
Definition rows_at fs p : table := rows (file_at fs p).

(** The files after one more commit. *)
Definition committed tb fs p : gmap string file := <[p := add_commit tb (file_at fs p)]> fs.

Lemma rows_add_commit tb f : rows (add_commit tb f) = tb.
Proof. unfold rows. simpl. by rewrite last_snoc. Qed.

Lemma file_at_insert fs p f : file_at (<[p := f]> fs) p = f.
Proof. unfold file_at. by rewrite lookup_insert_eq. Qed.

Lemma rows_at_committed tb fs p : rows_at (committed tb fs p) p = tb.
Proof. unfold rows_at, committed. by rewrite file_at_insert, rows_add_commit. Qed.

Lemma rows_sync f : rows (sync f) = rows f.
Proof. done. Qed.

(** Within a transaction the rows are applied one after the other, to the transaction. *)
Lemma executemany_tx fs p params : ∀ tb,
  executemany _UPSERT params ({| w_files := fs; w_outcomes := [] |}, {| c_path := p; c_tx := Some tb |})
  = (({| w_files := fs; w_outcomes := [] |},
      {| c_path := p; c_tx := Some (foldl (λ d r, _UPSERT r d) tb params) |}), Ok tt).
Proof. induction params as [|r params IH]; intros tb; [done|]. apply IH. Qed.

Lemma as_rows_bytes (items : list row) :
  as_rows (map (λ r, (PBytes r.1, PBytes r.2)) items) = Ok items.
Proof. induction items as [|[k v] items IH]; [done|]. simpl. by rewrite IH. Qed.

Lemma put_batch_ready fs p (items : list row) :
  put_batch (map (λ r, (PBytes r.1, PBytes r.2)) items) (ready fs p)
  = (ready (match items with
            | [] => fs
            | _ => committed (foldl (λ d r, _UPSERT r d) (rows_at fs p) items) fs p
            end) p, Ok tt).
Proof.
  unfold put_batch, bind, reads. rewrite as_rows_bytes. destruct items as [|i items]; [done|].
  set (l := i :: items).
  unfold on_conn, upsert_or_rollback, bind, begin, statement, ready, set_tx, tick.
  cbn - [executemany l]. rewrite executemany_tx. done.
Qed.

Lemma select_between_sorted s t tb : StronglySorted row_lt (select_between s t tb).
Proof.
  apply MemoryEngine.sorted_strict.
  - apply StronglySorted_merge_sort; apply _.
  - unfold select_between. rewrite merge_sort_Permutation.
    apply (sublist_NoDup _ (map_to_list tb).*1); [apply NoDup_fst_map_to_list|].
    apply fmap_sublist, sublist_filter.
Qed.

Lemma select_between_spec s t tb k v :
  (k, v) ∈ select_between s t tb ↔ tb !! k = Some v ∧ in_range s k t = true.
Proof.
  unfold select_between. rewrite merge_sort_Permutation, list_elem_of_filter, elem_of_map_to_list.
  simpl. tauto.
Qed.

(** [ORDER BY] after the selection lists what sorting first and selecting then lists. *)
Lemma select_between_memory s t tb :
  select_between s t tb = MemoryEngine.scan {| MemoryEngine._data := tb |} s t.
Proof.
  apply sorted_ext; [apply select_between_sorted|apply MemoryEngine.scan_sorted_aux|].
  intros [k v]. by rewrite select_between_spec, MemoryEngine.scan_spec_aux.
Qed.

Lemma lookup_delete_between s t tb k :
  delete_between s t tb !! k = if in_range s k t then None else tb !! k.
Proof.
  unfold delete_between. rewrite map_lookup_filter. destruct (tb !! k) as [v|]; simpl.
  - destruct (in_range s k t) eqn:Hr; case_guard; simpl in *; congruence.
  - by destruct (in_range s k t).
Qed.

Lemma delete_between_memory s t tb :
  delete_between s t tb = MemoryEngine._data (MemoryEngine.delete_range {| MemoryEngine._data := tb |} s t).
Proof.
  apply map_eq. intros k. rewrite lookup_delete_between.
  symmetry. apply (MemoryEngine.get_delete_range_aux {| MemoryEngine._data := tb |}).
Qed.

(** ** The contract of an engine *)

(** An engine that is ready, and what is left of it after a call. *)
Record ready_t := { r_files : gmap string file; r_path : string }.
Definition state_of (r : ready_t) : world * t := ready (r_files r) (r_path r).
Definition back (s : world * t) : ready_t := {| r_files := w_files s.1; r_path := _path s.2 |}.
Definition answer_of {A} (d : A) (r : result A) : A := match r with Ok a => a | Raise _ => d end.

#[export] Instance sqlite_engine : Engine ready_t := {|
  e_put r k v := back (put (PBytes k) (PBytes v) (state_of r)).1;
  e_get r k := answer_of None (get (PBytes k) (state_of r)).2;
  e_delete r k := back (delete (PBytes k) (state_of r)).1;
  e_put_batch r items := back (put_batch (map (λ i, (PBytes i.1, PBytes i.2)) items) (state_of r)).1;
  e_delete_range r a b := back (delete_range (PBytes a) (PBytes b) (state_of r)).1;
  e_scan r a b := answer_of [] (scan (PBytes a) (PBytes b) (state_of r)).2 |}.

Lemma sqlite_get r k : e_get r k = rows_at (r_files r) (r_path r) !! k.
Proof. done. Qed.

Lemma sqlite_put r k v :
  e_put r k v = {| r_files := committed (<[k := v]> (rows_at (r_files r) (r_path r))) (r_files r) (r_path r);
                   r_path := r_path r |}.
Proof. done. Qed.

Lemma sqlite_puts items : ∀ r,
  rows_at (r_files (foldl (λ r i, e_put r i.1 i.2) r items))
          (r_path (foldl (λ r i, e_put r i.1 i.2) r items))
  = foldl (λ d i, _UPSERT i d) (rows_at (r_files r) (r_path r)) items.
Proof.
  induction items as [|i items IH]; intros r; [done|]. cbn [foldl]. rewrite IH.
  rewrite sqlite_put. cbn [r_files r_path]. by rewrite rows_at_committed.
Qed.

(** While no statement fails, the file keeps the contract the callers of an engine are
    proved against. *)
#[export] Instance sqlite_laws : EngineLaws ready_t.
Proof.
  split.
  - intros r k v k'. rewrite sqlite_put, !sqlite_get. cbn [r_files r_path].
    rewrite rows_at_committed. apply lookup_insert.
  - intros r k k'. rewrite !sqlite_get. cbn [e_delete sqlite_engine].
    change (rows_at _ _) with (rows_at (committed (base.delete k (rows_at (r_files r) (r_path r)))
                                          (r_files r) (r_path r)) (r_path r)) at 1.
    rewrite rows_at_committed. apply lookup_delete.
  - intros r items k. rewrite !sqlite_get, sqlite_puts. cbn [e_put_batch sqlite_engine].
    unfold state_of. rewrite put_batch_ready. unfold back. cbn [fst snd r_files r_path ready w_files _path].
    destruct items; [done|]. by rewrite rows_at_committed.
  - intros r a b k. rewrite !sqlite_get. cbn [e_delete_range sqlite_engine].
    change (rows_at _ _) with (rows_at (committed (delete_between a b (rows_at (r_files r) (r_path r)))
                                          (r_files r) (r_path r)) (r_path r)) at 1.
    rewrite rows_at_committed. apply lookup_delete_between.
  - intros r a b k v. apply select_between_spec.
  - intros r a b. apply select_between_sorted.
Qed.
End facts.

(** ** The engine refines the engine in memory *)

(** What a caller of an engine can ask of it, with byte strings as arguments. *)
Inductive engine_call :=
  | CPut (k v : bytes) | CGet (k : bytes) | CDelete (k : bytes)
  | CPutBatch (items : list row) | CDeleteBatch (keys : list bytes)
  | CDeleteRange (a b : bytes) | CScan (a b : bytes) | CFlush.

Inductive engine_answer := ANothing | AValue (v : option bytes) | ARows (l : list row).

Definition answered {S A} (f : A → engine_answer) (m : M S A) : M S engine_answer :=
  let* a := m in ret (f a).

Definition ask_sqlite (c : engine_call) : M (world * SQLiteEngine.t) engine_answer :=
  match c with
  | CPut k v => answered (λ _, ANothing) (SQLiteEngine.put (PBytes k) (PBytes v))
  | CGet k => answered AValue (SQLiteEngine.get (PBytes k))
  | CDelete k => answered (λ _, ANothing) (SQLiteEngine.delete (PBytes k))
  | CPutBatch items =>
      answered (λ _, ANothing) (SQLiteEngine.put_batch (map (λ i, (PBytes i.1, PBytes i.2)) items))
  | CDeleteBatch keys => answered (λ _, ANothing) (SQLiteEngine.delete_batch (map PBytes keys))
  | CDeleteRange a b => answered (λ _, ANothing) (SQLiteEngine.delete_range (PBytes a) (PBytes b))
  | CScan a b => answered ARows (SQLiteEngine.scan (PBytes a) (PBytes b))
  | CFlush => answered (λ _, ANothing) SQLiteEngine.flush
  end.

Definition ask_memory (c : engine_call) (e : MemoryEngine.t) : MemoryEngine.t * engine_answer :=
  match c with
  | CPut k v => (MemoryEngine.put e k v, ANothing)
  | CGet k => (e, AValue (MemoryEngine.get e k))
  | CDelete k => (MemoryEngine.delete e k, ANothing)
  | CPutBatch items => (MemoryEngine.put_batch e items, ANothing)
  | CDeleteBatch keys => (foldl MemoryEngine.delete e keys, ANothing)
  | CDeleteRange a b => (MemoryEngine.delete_range e a b, ANothing)
  | CScan a b => (e, ARows (MemoryEngine.scan e a b))
  | CFlush => (e, ANothing)
  end.

Fixpoint all_sqlite (cs : list engine_call) (s : world * SQLiteEngine.t)
  : (world * SQLiteEngine.t) * list (result engine_answer) :=
  match cs with
  | [] => (s, [])
  | c :: cs => let '(s1, r) := ask_sqlite c s in let '(s2, rs) := all_sqlite cs s1 in (s2, r :: rs)
  end.

Fixpoint all_memory (cs : list engine_call) (e : MemoryEngine.t)
  : MemoryEngine.t * list engine_answer :=
  match cs with
  | [] => (e, [])
  | c :: cs => let '(e1, a) := ask_memory c e in let '(e2, l) := all_memory cs e1 in (e2, a :: l)
  end.

Section refinement.
Implicit Types (fs : gmap string file) (p : string).

Lemma delete_batch_ready p keys : ∀ fs, ∃ fs',
  SQLiteEngine.delete_batch (map PBytes keys) (ready fs p) = (ready fs' p, Ok tt) ∧
  rows_at fs' p
  = MemoryEngine._data (foldl MemoryEngine.delete {| MemoryEngine._data := rows_at fs p |} keys).
Proof.
  induction keys as [|k keys IH]; intros fs; [by eexists|].
  destruct (IH (committed (delete_key k (rows_at fs p)) fs p)) as (fs' & Hr & Hrows).
  exists fs'. split; [exact Hr|]. by rewrite Hrows, rows_at_committed.
Qed.

(** One call: the same answer, and the same rows afterwards. *)
Lemma ask_refines c fs p : ∃ fs',
  ask_sqlite c (ready fs p)
  = (ready fs' p, Ok (ask_memory c {| MemoryEngine._data := rows_at fs p |}).2) ∧
  rows_at fs' p = MemoryEngine._data (ask_memory c {| MemoryEngine._data := rows_at fs p |}).1.
Proof.
  destruct c as [k v|k|k|items|keys|a b|a b|]; cbn [ask_sqlite ask_memory fst snd].
  - eexists. split; [done|]. apply rows_at_committed.
  - by eexists.
  - eexists. split; [done|]. apply rows_at_committed.
  - unfold answered, bind. rewrite put_batch_ready. eexists. split; [done|].
    destruct items; [done|]. apply rows_at_committed.
  - destruct (delete_batch_ready p keys fs) as (fs' & Hr & Hrows).
    exists fs'. unfold answered, bind. by rewrite Hr.
  - exists (committed (delete_between a b (rows_at fs p)) fs p). split; [done|].
    by rewrite rows_at_committed, delete_between_memory.
  - rewrite <-select_between_memory. by eexists.
  - exists (<[p := sync (file_at fs p)]> fs). split; [done|].
    unfold rows_at. by rewrite file_at_insert.
Qed.

Lemma all_refine cs : ∀ fs p, ∃ fs',
  all_sqlite cs (ready fs p)
  = (ready fs' p, map Ok (all_memory cs {| MemoryEngine._data := rows_at fs p |}).2) ∧
  rows_at fs' p = MemoryEngine._data (all_memory cs {| MemoryEngine._data := rows_at fs p |}).1.
Proof.
  induction cs as [|c cs IH]; intros fs p; [by eexists|].
  destruct (ask_refines c fs p) as (fs1 & Hc & Hrows). cbn [all_sqlite all_memory].
  rewrite Hc. destruct (ask_memory c _) as [e1 a]. cbn [fst snd] in *.
  destruct (IH fs1 p) as (fs2 & Hcs & Hrows2). rewrite Hcs.
  assert (e1 = {| MemoryEngine._data := rows_at fs1 p |}) as -> by (destruct e1; simpl in *; congruence).
  exists fs2. by destruct (all_memory cs _).
Qed.

(** Opening the file finds its rows. *)
Lemma init_finds_rows fs p : ∃ fs',
  SQLiteEngine.init p {| w_files := fs; w_outcomes := [] |}
  = ((ready fs' p).1, Ok (ready fs' p).2) ∧ rows_at fs' p = rows_at fs p.
Proof. eexists. split; [done|]. unfold rows_at. by rewrite file_at_insert. Qed.

(** C9: The durable engine is the engine in memory, but for the disk: over any sequence of
    calls in which no statement fails, [SQLiteEngine] answers what [MemoryEngine] answers
    when it starts with the rows of the file; and an engine that is opened on the file after
    the process was killed at the end has the rows the engine in memory ended with. *)
Theorem sqlite_refines_memory (cs : list engine_call) (fs : gmap string file) (p : string) :
  let m := all_memory cs {| MemoryEngine._data := rows_at fs p |} in
  let s := all_sqlite cs (ready fs p) in
  s.2 = map Ok m.2 ∧
  ∃ fs', SQLiteEngine.init p s.1.1 = ((ready fs' p).1, Ok (ready fs' p).2) ∧
         rows_at fs' p = MemoryEngine._data m.1.
Proof.
  intros m s. destruct (all_refine cs fs p) as (fs1 & Hs & Hrows). fold s m in Hs, Hrows.
  rewrite Hs. split; [done|].
  destruct (init_finds_rows fs1 p) as (fs2 & Hi & Hf). exists fs2. by rewrite Hf.
Qed.
End refinement.

(** ** The engine when statements fail *)

Section failures.
Import SQLiteEngine.
Implicit Types (w : world) (c : Connection) (s : world * t).

(** An open engine without a transaction; any statement ahead may fail. *)
Definition idle s : Prop :=
  ∃ c, _conn s.2 = Some c ∧ c_path c = _path s.2 ∧ c_tx c = None.

(** The file of the engine. *)
Definition its_file s : file := file_of s.1 (_path s.2).

Abbreviation same_files w w' := (w_files w' = w_files w).

(** A statement that raises has changed no file. *)
Lemma execute_raises change w c w' c' x :
  execute change (w, c) = ((w', c'), Raise x) → same_files w w' ∧ c_path c' = c_path c.
Proof. unfold execute, statement; cbn [fst snd]; destruct (ends w); cbn; [destruct (c_tx c)|..]; intros ?; simplify_eq; done. Qed.

Lemma execute_in_tx change w p tb w' c' :
  execute change (w, {| c_path := p; c_tx := Some tb |}) = ((w', c'), Ok tt) →
  same_files w w' ∧ c' = {| c_path := p; c_tx := Some (change tb) |}.
Proof. unfold execute, statement; cbn [fst snd]; destruct (ends w); cbn; intros ?; by simplify_eq. Qed.

(** The rows of a batch go to the transaction: all of them, or it raises; no file changes. *)
Lemma executemany_in_tx (params : list row) : ∀ w p tb w' c' r,
  executemany _UPSERT params (w, {| c_path := p; c_tx := Some tb |}) = ((w', c'), r) →
  same_files w w' ∧ c_path c' = p ∧
  (is_Ok r → c_tx c' = Some (foldl (λ d i, _UPSERT i d) tb params)).
Proof.
  induction params as [|i params IH]; intros w p tb w' c' r; cbn [executemany foldl].
  { by intros [= <- <- <-]. }
  unfold bind. destruct (execute _ _) as [[w1 c1] [[]|x]] eqn:Hx.
  - apply execute_in_tx in Hx as [Hw ->]. intros (Hw' & Hp & Htx)%IH.
    split_and!; [|done..]. congruence.
  - apply execute_raises in Hx as [Hw Hp]. intros [= <- <- <-].
    split_and!; [done|done|]. by intros [? ?].
Qed.

Lemma rollback_same_files w c w' c' r :
  rollback (w, c) = ((w', c'), r) → same_files w w' ∧ c_path c' = c_path c.
Proof. unfold rollback, statement; cbn [fst snd]; destruct (ends w); cbn; [destruct (c_tx c)|..]; intros ?; simplify_eq; done. Qed.

Lemma upsert_in_tx (l : list row) w p tb w' c' r :
  upsert_or_rollback l (w, {| c_path := p; c_tx := Some tb |}) = ((w', c'), r) →
  same_files w w' ∧ c_path c' = p ∧
  (is_Ok r → c_tx c' = Some (foldl (λ d i, _UPSERT i d) tb l)).
Proof.
  unfold upsert_or_rollback. destruct (executemany _ _ _) as [[w1 c1] [[]|x]] eqn:Hx.
  - apply executemany_in_tx in Hx. intros [= <- <- <-]. done.
  - apply executemany_in_tx in Hx as (Hw & Hp & _). unfold bind.
    destruct (rollback (w1, c1)) as [[w2 c2] [[]|y]] eqn:Hb; cbn; intros [= <- <- <-];
      apply rollback_same_files in Hb as [Hw2 Hp2];
      (split_and!; [congruence..|by intros [? ?]]).
Qed.

Lemma begin_cases w c w' c' r :
  begin (w, c) = ((w', c'), r) → c_tx c = None →
  same_files w w' ∧ c_path c' = c_path c ∧
  (is_Ok r → c' = {| c_path := c_path c; c_tx := Some (rows (file_of w (c_path c))) |}).
Proof.
  unfold begin, statement, view; cbn [fst snd]; destruct (ends w); cbn; intros Hb Htx; [rewrite Htx in Hb|..];
    injection Hb as <- <- <-; (split_and!; [done|done|]); first [done | by intros [? ?]].
Qed.

(** A commit adds the transaction to the file, or it raises and changes no file. *)
Lemma commit_cases w c w' c' r :
  commit (w, c) = ((w', c'), r) →
  match r with
  | Ok _ => ∃ tb, c_tx c = Some tb ∧ c_tx c' = None ∧ c_path c' = c_path c ∧
                  w_files w' = <[c_path c := add_commit tb (file_of w (c_path c))]> (w_files w)
  | Raise _ => same_files w w' ∧ c_path c' = c_path c
  end.
Proof.
  unfold commit, statement; cbn [fst snd]; destruct (ends w); cbn; [destruct (c_tx c) as [tb|]|..];
    intros [= <- <- <-]; [|done..]. by exists tb.
Qed.

(** The transaction of a batch. *)
Lemma batch_transaction (l : list row) w c w' c' r :
  c_tx c = None → (begin ;;; upsert_or_rollback l ;;; commit) (w, c) = ((w', c'), r) →
  c_path c' = c_path c ∧
  match r with
  | Ok _ => c_tx c' = None ∧
      w_files w' = <[c_path c := add_commit (foldl (λ d i, _UPSERT i d) (rows (file_of w (c_path c))) l)
                                           (file_of w (c_path c))]> (w_files w)
  | Raise _ => same_files w w'
  end.
Proof.
  intros Htx. unfold bind at 1. destruct (begin (w, c)) as [[w1 c1] [[]|x]] eqn:Hb.
  2: { intros [= <- <- <-]. by apply begin_cases in Hb as (? & ? & _). }
  apply begin_cases in Hb as (Hw1 & Hp1 & Hc1); [|done].
  specialize (Hc1 (ex_intro _ _ eq_refl)) as ->. clear Hp1.
  unfold bind at 1. destruct (upsert_or_rollback _ _) as [[w2 c2] [[]|x]] eqn:Hu.
  2: { apply upsert_in_tx in Hu as (Hw2 & Hp2 & _). intros [= <- <- <-].
       split; [done|]. congruence. }
  apply upsert_in_tx in Hu as (Hw2 & Hp2 & Hc2).
  specialize (Hc2 (ex_intro _ _ eq_refl)). intros Hc%commit_cases.
  unfold file_of in *. destruct r as [[]|x].
  - destruct Hc as (tb & Ht & Hn & Hp & Hf). split; [congruence|]. split; [done|].
    rewrite Hf, Hp2, Hw2, Hw1. congruence.
  - destruct Hc as [Hf Hp]. split; congruence.
Qed.

(** C10: A batch is all or nothing, whatever fails.  When [put_batch] returns, the file has
    every row of the batch and the transaction is over; when it raises, for an argument that
    is no byte string or for any of its statements, no file has changed.  A loss of power
    afterwards finds the file as it could have been found before, or with the whole batch.
    (A process that is killed in the middle is a run in which every later statement is
    refused: it leaves the same files.) *)
Theorem batch_is_all_or_nothing s items s' r :
  idle s → put_batch items s = (s', r) →
  match r with
  | Ok _ =>
      ∃ l, as_rows items = Ok l ∧ idle s' ∧
           rows (its_file s') = foldl (λ d i, <[i.1 := i.2]> d) (rows (its_file s)) l
  | Raise _ => w_files s'.1 = w_files s.1
  end ∧
  ∀ tb, after_power_loss (its_file s') tb →
        after_power_loss (its_file s) tb ∨ (r = Ok tt ∧ tb = rows (its_file s')).
Proof.
  destruct s as [w e]. intros (c & Hc & Hp & Htx) Hrun. unfold put_batch, reads in Hrun.
  unfold bind at 1 in Hrun.
  destruct (as_rows items) as [l|x] eqn:Hrows.
  2: { injection Hrun as <- <-. split; [done|]. by left. }
  destruct l as [|i l].
  { injection Hrun as <- <-. split; [|by left]. exists []. split_and!; [done| |done]. by exists c. }
  unfold on_conn in Hrun. rewrite Hc in Hrun. cbn [fst snd] in Hrun.
  destruct ((begin ;;; upsert_or_rollback (i :: l) ;;; commit) (w, c)) as [[w' c'] r'] eqn:Hbatch.
  injection Hrun as <- <-.
  destruct (batch_transaction _ _ _ _ _ _ Htx Hbatch) as [Hp' Hr]. rewrite Hp in *.
  unfold its_file, file_of. cbn [fst snd _path]. destruct r' as [[]|x].
  - destruct Hr as [Htx' Hf]. rewrite Hf, lookup_insert_eq. cbn [default].
    split.
    + exists (i :: l). split_and!; [done|by exists c'|]. apply rows_add_commit.
    + intros tb [Ht|Ht]; [left; by left|]. cbn in Ht.
      apply elem_of_app in Ht as [Ht|Ht%list_elem_of_singleton]; [left; by right|right].
      split; [done|]. rewrite Ht. symmetry. apply rows_add_commit.
  - rewrite Hr. split; [done|]. by left.
Qed.

(** Writes are durable once [flush] returns: the rows are the same, and a loss of power
    can find nothing else. *)
Theorem flushed_rows_are_durable s s' :
  idle s → flush s = (s', Ok tt) →
  rows (its_file s') = rows (its_file s) ∧
  ∀ tb, after_power_loss (its_file s') tb ↔ tb = rows (its_file s).
Proof.
  destruct s as [w e]. intros (c & Hc & Hp & Htx). unfold flush, on_conn. rewrite Hc.
  unfold wal_checkpoint, statement. cbn [fst snd]. destruct (ends w); [|done..].
  rewrite Htx, Hp. cbn. intros [= <-]. unfold its_file, after_power_loss, file_of. cbn.
  rewrite lookup_insert_eq. cbn. split; [done|]. intros tb. split; [|by left].
  by intros [?|[]%not_elem_of_nil].
Qed.
(** C39: The [COMMIT] of [put_batch] is outside its [try]: when it is refused and SQLite keeps
    the transaction, as it does when the database is busy, the engine stays in the
    transaction of the batch that raised.  Every write from then on returns and is read
    back, no batch can be written, and a process that is started again finds the rows as
    they were before the batch. *)
Theorem failed_commit_swallows_writes fs p k v k' v' items l :
  as_rows items = Ok l → l ≠ [] →
  let s0 := ({| w_files := fs; w_outcomes := [Done; Done; Refused] |}, (ready fs p).2) in
  let '(s1, r1) := put_batch [(PBytes k, PBytes v)] s0 in
  let '(s2, r2) := put (PBytes k') (PBytes v') s1 in
  let '(s3, r3) := get (PBytes k') s2 in
  let '(s4, r4) := put_batch items s3 in
  let '(w5, r5) := init p s4.1 in
  r1 = Raise SqliteError ∧ r2 = Ok tt ∧ r3 = Ok (Some v') ∧ r4 = Raise SqliteError ∧
  r5 = Ok (ready fs p).2 ∧ rows (file_of w5 p) = rows_at fs p.
Proof.
  intros Hl Hne s0. cbn - [put_batch lookup insert as_rows file_of rows].
  change (put_batch [(PBytes k, PBytes v)] s0)
    with (({| w_files := fs; w_outcomes := [] |},
           {| _path := p; _conn := Some {| c_path := p; c_tx := Some (<[k := v]> (rows_at fs p)) |} |}),
          @Raise unit SqliteError).
  cbn - [put_batch lookup insert as_rows file_of rows].
  unfold put_batch, bind at 1, reads. rewrite Hl. destruct l as [|i l]; [done|].
  cbn - [lookup insert file_of rows]. split_and!; try done.
  - unfold select_value, view, set_tx, _UPSERT. cbn. by rewrite lookup_insert_eq.
  - unfold file_of. cbn. rewrite lookup_insert_eq. done.
Qed.
End failures.

(** ** Executions *)

(** The second row of a batch is refused: nothing of the batch is in the file. *)
Definition w_start : world * SQLiteEngine.t :=
  ({| w_files := ∅; w_outcomes := [Done; Done; Refused] |}, (ready ∅ "a.sqlite3").2).
Definition w_items : list (pyval * pyval) :=
  [(PBytes [x01], PBytes [x07]); (PBytes [x02], PBytes [x08])].

Lemma w_start_idle : idle w_start.
Proof. by eexists. Qed.

Lemma batch_is_all_or_nothing_witness :
  (SQLiteEngine.put_batch w_items w_start).2 = Raise SqliteError ∧
  w_files (SQLiteEngine.put_batch w_items w_start).1.1 = ∅.
Proof.
  split; [reflexivity|].
  exact (proj1 (batch_is_all_or_nothing w_start w_items (SQLiteEngine.put_batch w_items w_start).1
                  (Raise SqliteError) w_start_idle eq_refl)).
Defined.

Lemma flushed_rows_are_durable_witness :
  let s := (SQLiteEngine.put (PBytes [x01]) (PBytes [x07]) (ready ∅ "a.sqlite3")).1 in
  rows (its_file (SQLiteEngine.flush s).1) = {[ [x01] := [x07] ]}.
Proof.
  intros s. etransitivity.
  - apply (proj1 (flushed_rows_are_durable s (SQLiteEngine.flush s).1 (ex_intro _ _ (conj eq_refl (conj eq_refl eq_refl)))
                    eq_refl)).
  - reflexivity.
Defined.

Lemma failed_commit_swallows_writes_witness :
  let s0 := ({| w_files := ∅; w_outcomes := [Done; Done; Refused] |}, (ready ∅ "a.sqlite3").2) in
  let s1 := (SQLiteEngine.put_batch [(PBytes [x01], PBytes [x07])] s0).1 in
  (SQLiteEngine.put (PBytes [x02]) (PBytes [x08]) s1).2 = Ok tt.
Proof.
  pose proof (failed_commit_swallows_writes ∅ "a.sqlite3" [x01] [x07] [x02] [x08] w_items
                [([x01], [x07]); ([x02], [x08])] eq_refl ltac:(discriminate)) as Hrun.
  vm_compute in Hrun |- *. apply Hrun.
Defined.
