(* ===== verification/Mvcc.v ===== *)
(** The MVCC storage of [storage/mvcc.py], encoded onto a byte-ordered engine.

    Definitions first: the key encoding, the point reads, the range read, lock and write
    records, snapshots.  Then the invariant of the keyspace ([wf]) and the theorems that
    relate the encoded operations to the history of versions they stand for. *)

From Stdlib Require Import ZArith Lia.
From S2P Require Import Prelude Bytes PyVal Engine.

(** ** The keyspace *)

Definition _VERSION : bytes := [x01].
Definition _WRITE : bytes := [x03].
Definition _LOCK : bytes := [x04].
Definition _SEP : bytes := [x00].
Definition _ALL_START : bytes := [x01].
Definition _ALL_END : bytes := [x05].

Definition _MAX_TS : Z := 2 ^ 64 - 1.

Definition _ts_bytes (timestamp : Z) : result bytes :=
  if negb ((0 <=? timestamp) && (timestamp <=? _MAX_TS)) then Raise ValueError
  else Ok (be_bytes 8 timestamp).

(** The [isinstance] half of the check is the type of [key]; a caller that holds an
    untyped value goes through [as_bytes] first. *)
Definition _check_user_key (key : bytes) : result bytes :=
  if decide (x00 ∈ key) then Raise ValueError else Ok key.

Definition _version_prefix (key : bytes) : bytes := _VERSION ++ key ++ _SEP.

Definition _key_upper_bound (namespace key : bytes) : bytes := namespace ++ key ++ [x01].

Record MVCCRecord := { mr_value : bytes; mr_timestamp : Z; mr_deleted : bool }.

Record WriteRecord := { wr_start_ts : Z; wr_commit_ts : Z }.

Module LockStatus.
Definition LOCKED : bytes := b_ "LOCKED".
Definition COMMITTED : bytes := b_ "COMMITTED".
Definition ABORTED : bytes := b_ "ABORTED".
End LockStatus.

(** The dictionary [_decode_lock] builds.  The first four fields are whatever the packed
    record held. *)
Record Lock := {
  lk_status : pyval;
  lk_primary_key : pyval;
  lk_lock_time : pyval;
  lk_value : pyval;
  lk_key : bytes;
  lk_start_ts : Z
}.

#[global] Instance Lock_eq_dec : EqDecision Lock.
Proof. solve_decision. Defined.

Module MVCCStorage.
Section storage.
Context {E : Type} `{Engine E} `{Msgpack}.
Implicit Types e : E.

Definition _decode_version (raw : option bytes) (timestamp : Z) : option MVCCRecord :=
  match raw with
  | None | Some [] => None
  | Some (flag :: payload) =>
      Some {| mr_value := payload; mr_timestamp := timestamp;
              mr_deleted := byteZ flag =? 0 |}
  end.

Definition _split_version_key (row_key : bytes) : result (bytes * Z) :=
  let body := drop 1 row_key in
  let separator := Z.of_nat (length body) - 9 in
  if separator <? 0 then Raise ValueError
  else Ok (take (Z.to_nat separator) body, be_int (drop (Z.to_nat (separator + 1)) body)).

(** *** Versions *)

Definition _get_version_at e (key : bytes) (timestamp : Z) : result (option MVCCRecord) :=
  let? key := _check_user_key key in
  let prefix := _version_prefix key in
  let? end_ := if timestamp <? _MAX_TS
               then let? ts := _ts_bytes (timestamp + 1) in Ok (prefix ++ ts)
               else Ok (_key_upper_bound _VERSION key) in
  match last (e_scan e prefix end_) with
  | None => Ok None
  | Some (last_key, last_value) =>
      let version_ts := be_int (drop (length prefix) last_key) in
      Ok (_decode_version (Some last_value) version_ts)
  end.

Definition get_version e (key : bytes) (timestamp : Z) : result (option MVCCRecord) :=
  let? record := _get_version_at e key timestamp in
  match record with
  | None => Ok None
  | Some r => if mr_deleted r then Ok None else Ok (Some r)
  end.

Definition get e (key : bytes) (timestamp : Z) : result (option bytes) :=
  let? version := get_version e key timestamp in
  Ok (mr_value <$> version).

Definition set e (key value : bytes) (timestamp : Z) : result E :=
  let? key := _check_user_key key in
  let? ts := _ts_bytes timestamp in
  Ok (e_put e (_version_prefix key ++ ts) ([x01] ++ value)).

Definition delete e (key : bytes) (timestamp : Z) : result E :=
  let? key := _check_user_key key in
  let? ts := _ts_bytes timestamp in
  Ok (e_put e (_version_prefix key ++ ts) [x00]).

(** The variables of the [for] loop of [scan_versions]. *)
Record scan_state := {
  sc_result : list (bytes * bytes * Z);
  sc_key : option bytes;
  sc_value : option bytes;
  sc_ts : Z
}.

Definition scan_init : scan_state :=
  {| sc_result := []; sc_key := None; sc_value := None; sc_ts := 0 |}.

(** [if current_key is not None and current_value is not None: result.append(...)]. *)
Definition scan_emit (s : scan_state) : list (bytes * bytes * Z) :=
  match sc_key s, sc_value s with
  | Some k, Some v => sc_result s ++ [(k, v, sc_ts s)]
  | _, _ => sc_result s
  end.

(** One iteration of the loop over the scanned rows. *)
Definition scan_step (timestamp : Z) (s : scan_state) (r : row) : result scan_state :=
  let? (user_key, version_ts) := _split_version_key r.1 in
  let s := if decide (Some user_key = sc_key s) then s
           else {| sc_result := scan_emit s; sc_key := Some user_key;
                   sc_value := None; sc_ts := 0 |} in
  if version_ts <=? timestamp then
    match _decode_version (Some r.2) 0 with
    | Some record =>
        if mr_deleted record
        then Ok {| sc_result := sc_result s; sc_key := sc_key s; sc_value := None; sc_ts := 0 |}
        else Ok {| sc_result := sc_result s; sc_key := sc_key s;
                   sc_value := Some (mr_value record); sc_ts := version_ts |}
    | None =>
        Ok {| sc_result := sc_result s; sc_key := sc_key s; sc_value := None; sc_ts := 0 |}
    end
  else Ok s.

Fixpoint scan_loop (timestamp : Z) (s : scan_state) (rows : list row) : result scan_state :=
  match rows with
  | [] => Ok s
  | r :: rows => let? s := scan_step timestamp s r in scan_loop timestamp s rows
  end.

Definition scan_versions e (start_key end_key : bytes) (timestamp : Z)
    : result (list (bytes * bytes * Z)) :=
  let? start_key := _check_user_key start_key in
  let? end_key := _check_user_key end_key in
  let rows := e_scan e (_VERSION ++ start_key) (_VERSION ++ end_key) in
  let? s := scan_loop timestamp scan_init rows in
  Ok (scan_emit s).

Definition scan e (start_key end_key : bytes) (timestamp : Z) : result (list (bytes * bytes)) :=
  let? rows := scan_versions e start_key end_key timestamp in
  Ok (map fst rows).

Definition get_latest_version e (key : bytes) : result (option MVCCRecord) :=
  let? key := _check_user_key key in
  match last (e_scan e (_version_prefix key) (_key_upper_bound _VERSION key)) with
  | None => Ok None
  | Some (row_key, raw) =>
      let? (_, version_ts) := _split_version_key row_key in
      Ok (_decode_version (Some raw) version_ts)
  end.

Definition get_latest_write e (key : bytes) : result (option WriteRecord) :=
  let? key := _check_user_key key in
  match last (e_scan e (_WRITE ++ key ++ _SEP) (_key_upper_bound _WRITE key)) with
  | None => Ok None
  | Some (row_key, raw) =>
      let commit_ts := be_int (drop (length _WRITE + length key + 1) row_key) in
      Ok (Some {| wr_start_ts := be_int raw; wr_commit_ts := commit_ts |})
  end.

Definition write_write_record e (key : bytes) (start_ts commit_ts : Z) : result E :=
  let? key := _check_user_key key in
  let? commit := _ts_bytes commit_ts in
  let? start := _ts_bytes start_ts in
  Ok (e_put e (_WRITE ++ key ++ _SEP ++ commit) start).

(** *** Lock records *)

Definition lock_payload (status primary_key : bytes) (lock_time : Z) (value : bytes) : pyval :=
  PDict [("s"%string, PBytes status); ("p"%string, PBytes primary_key);
         ("t"%string, PFloat lock_time); ("v"%string, PBytes value)].

Definition put_lock e (key : bytes) (start_ts : Z) (status primary_key : bytes)
    (lock_time : Z) (value : bytes) : result E :=
  let? key := _check_user_key key in
  let? payload := packb (lock_payload status primary_key lock_time value) in
  let? ts := _ts_bytes start_ts in
  Ok (e_put e (_LOCK ++ key ++ _SEP ++ ts) payload).

Definition _decode_lock (raw : option bytes) (key : bytes) (start_ts : Z) : result (option Lock) :=
  match raw with
  | None => Ok None
  | Some raw =>
      let? data := unpackb raw in
      let? s := py_index data "s" in
      let? p := py_index data "p" in
      let? t := py_index data "t" in
      let? v := py_index data "v" in
      Ok (Some {| lk_status := s; lk_primary_key := p; lk_lock_time := t; lk_value := v;
                  lk_key := key; lk_start_ts := start_ts |})
  end.

Definition get_lock e (key : bytes) (start_ts : Z) : result (option Lock) :=
  let? key := _check_user_key key in
  let? ts := _ts_bytes start_ts in
  _decode_lock (e_get e (_LOCK ++ key ++ _SEP ++ ts)) key start_ts.

Definition get_newest_lock e (key : bytes) : result (option Lock) :=
  let? key := _check_user_key key in
  match last (e_scan e (_LOCK ++ key ++ _SEP) (_key_upper_bound _LOCK key)) with
  | None => Ok None
  | Some (row_key, raw) =>
      let? (_, start_ts) := _split_version_key row_key in
      _decode_lock (Some raw) key start_ts
  end.

Definition remove_lock e (key : bytes) (start_ts : Z) : result E :=
  let? key := _check_user_key key in
  let? ts := _ts_bytes start_ts in
  Ok (e_delete e (_LOCK ++ key ++ _SEP ++ ts)).

Fixpoint decode_locks (rows : list row) : result (list (bytes * Lock)) :=
  match rows with
  | [] => Ok []
  | (row_key, raw) :: rows =>
      let? (key, start_ts) := _split_version_key row_key in
      let? record := _decode_lock (Some raw) key start_ts in
      let? rest := decode_locks rows in
      Ok (match record with Some r => (key, r) :: rest | None => rest end)
  end.

Definition iter_locks e : result (list (bytes * Lock)) := decode_locks (e_scan e _LOCK [x05]).

(** The three older entry points, kept over lock records. *)
Definition set_write_intent e (now : Z) (key value : bytes) (start_ts : Z) : result E :=
  put_lock e key start_ts LockStatus.LOCKED key now value.

Definition get_write_intent e (key : bytes) (start_ts : Z) : result (option pyval) :=
  let? lock := get_lock e key start_ts in Ok (lk_value <$> lock).

Definition remove_write_intent e (key : bytes) (start_ts : Z) : result E :=
  remove_lock e key start_ts.

(** *** Snapshots *)

Definition rows_payload (rows : list row) : pyval :=
  PList (map (λ r : row, PList [PBytes r.1; PBytes r.2]) rows).

Definition dump e : result bytes := packb (rows_payload (e_scan e _ALL_START _ALL_END)).

(** [((bytes(key), bytes(value)) for key, value in rows)]: the pairs the generator yields
    before it raises, and what it raises if it does. *)
Fixpoint unpack_rows (rows : list pyval) : list row * option exn :=
  match rows with
  | [] => ([], None)
  | PList [k; v] :: rows =>
      match py_bytes k, py_bytes v with
      | Ok k, Ok v => let '(l, err) := unpack_rows rows in ((k, v) :: l, err)
      | Raise x, _ => ([], Some x)
      | _, Raise x => ([], Some x)
      end
  | PList _ :: _ => ([], Some ValueError)
  | _ :: _ => ([], Some TypeError)
  end.

(** [load]: unpack, empty the keyspace, write the rows back.  A row that cannot be read
    raises after the rows before it were written, as the dictionary engine's batch does. *)
Definition load (data : bytes) : M E unit := λ e,
  match (match data with [] => Ok (PList []) | _ => unpackb data end) with
  | Raise x => (e, Raise x)
  | Ok (PList rows) =>
      let '(items, err) := unpack_rows rows in
      let e' := e_put_batch (e_delete_range e _ALL_START _ALL_END) items in
      (e', match err with None => Ok tt | Some x => Raise x end)
  | Ok (PDict []) | Ok (PStr EmptyString) | Ok (PBytes []) =>
      (e_put_batch (e_delete_range e _ALL_START _ALL_END) [], Ok tt)
  | Ok _ => (e_delete_range e _ALL_START _ALL_END, Raise TypeError)
  end.

Definition clear e : E := e_delete_range e _ALL_START _ALL_END.

End storage.
End MVCCStorage.
Import MVCCStorage.

(** ** The encoding of a row *)

(** The key of the row of user key [k] at timestamp [ts] in namespace [ns]. *)
Definition row_key (ns : byte) (k : bytes) (ts : Z) : bytes := ns :: k ++ x00 :: be_bytes 8 ts.

Definition valid_ts (ts : Z) : Prop := 0 ≤ ts ≤ _MAX_TS.

Lemma valid_ts_256 ts : valid_ts ts ↔ 0 ≤ ts < 256 ^ Z.of_nat 8.
Proof. unfold valid_ts, _MAX_TS. lia. Qed.

Lemma ts_bytes_valid ts : valid_ts ts → _ts_bytes ts = Ok (be_bytes 8 ts).
Proof.
  intros [H1 H2]. unfold _ts_bytes. apply Z.leb_le in H1, H2. by rewrite H1, H2.
Qed.

Lemma ts_bytes_Ok ts b : _ts_bytes ts = Ok b → valid_ts ts ∧ b = be_bytes 8 ts.
Proof.
  unfold _ts_bytes. destruct (_ && _) eqn:Hb; simpl; [|done]. zbool. by intros [= <-].
Qed.

Lemma check_key_valid k : no_sep k → _check_user_key k = Ok k.
Proof. intros Hk. unfold _check_user_key. by rewrite decide_False. Qed.

Lemma check_key_Ok k k' : _check_user_key k = Ok k' → no_sep k ∧ k' = k.
Proof. unfold _check_user_key. case_decide; [done|]. by intros [= <-]. Qed.

Lemma row_key_inj ns ns' k k' ts ts' :
  no_sep k → no_sep k' → valid_ts ts → valid_ts ts' →
  row_key ns k ts = row_key ns' k' ts' → ns = ns' ∧ k = k' ∧ ts = ts'.
Proof.
  intros Hk Hk' Ht Ht' Heq. unfold row_key in Heq. apply (f_equal (drop 1)) in Heq as Heq2.
  apply (f_equal head) in Heq. cbn in Heq, Heq2. injection Heq as ->. apply app_sep_inj in Heq2 as [-> Heq]; [|done..].
  apply be_bytes_inj in Heq; [done|by apply valid_ts_256..].
Qed.

Lemma row_pair_inj ns ns' k k' ts ts' (v v' : bytes) :
  (row_key ns k ts, v) = (row_key ns' k' ts', v') →
  no_sep k → no_sep k' → valid_ts ts → valid_ts ts' →
  ns = ns' ∧ k = k' ∧ ts = ts' ∧ v = v'.
Proof.
  intros Heq. apply (f_equal fst) in Heq as Hk. apply (f_equal snd) in Heq as Hv. simpl in *.
  intros. apply row_key_inj in Hk as (->&->&->); done.
Qed.

Lemma split_row_key ns k ts :
  valid_ts ts → _split_version_key (row_key ns k ts) = Ok (k, ts).
Proof.
  intros Ht. unfold _split_version_key, row_key. cbn [drop]. rewrite drop_0.
  rewrite length_app. cbn [length]. rewrite length_be_bytes.
  replace (Z.of_nat (length k + 9) - 9) with (Z.of_nat (length k)) by lia.
  rewrite (proj2 (Z.ltb_ge _ _)) by lia.
  rewrite Nat2Z.id, take_app_length.
  replace (Z.to_nat (Z.of_nat (length k) + 1)) with (length k + 1)%nat by lia.
  rewrite drop_app_add. cbn [drop]. rewrite drop_0, be_int_bytes; [done|]. by apply valid_ts_256.
Qed.

Lemma drop_row_prefix ns k ts n :
  n = (length k + 2)%nat → valid_ts ts → be_int (drop n (row_key ns k ts)) = ts.
Proof.
  intros -> Ht. unfold row_key. replace (length k + 2)%nat with (S (length k + 1)) by lia.
  cbn [drop]. rewrite drop_app_add. cbn [drop]. rewrite drop_0, be_int_bytes; [done|]. by apply valid_ts_256.
Qed.

(** A row of another namespace is outside every range of this one. *)
Lemma row_other_ns ns ns' a b c : ns ≠ ns' → in_range (ns :: a) (ns' :: c) (ns :: b) = false.
Proof.
  intros Hne. assert (byteZ ns ≠ byteZ ns') as Hz by (intros ?%byteZ_inj; done).
  unfold in_range, ble. simpl.
  destruct (Z.ltb_spec (byteZ ns') (byteZ ns)), (Z.eqb_spec (byteZ ns') (byteZ ns)); simpl;
    done || lia.
Qed.

(** Rows of one key up to a timestamp. *)
Lemma row_in_prefix ns k k' ts t :
  no_sep k → no_sep k' → valid_ts ts → valid_ts (t + 1) →
  in_range (ns :: k ++ [x00]) (row_key ns k' ts) (ns :: k ++ x00 :: be_bytes 8 (t + 1)) = true
  ↔ k' = k ∧ ts ≤ t.
Proof.
  intros Hk Hk' Hts Ht. unfold row_key. rewrite in_range_iff, ble_cons, blt_cons.
  destruct (decide (k' = k)) as [->|Hne].
  - rewrite ble_app, blt_app, ble_cons, blt_cons, ble_nil.
    rewrite blt_be_bytes by (by apply valid_ts_256). rewrite Z.ltb_lt. intuition lia.
  - split; [|naive_solver]. unfold ble.
    rewrite (blt_sep_iff k' k (be_bytes 8 ts) []), blt_sep_iff by done.
    intros [Hb Hc]. rewrite Hc in Hb. done.
Qed.

Lemma ble_bump k k' v : no_sep k' → blt k k' = true → ble (k ++ [x01]) (k' ++ v) = true.
Proof.
  revert k'. induction k as [|x k IH]; intros [|y k']; cbn [blt app]; try done.
  - intros [Hy _]%no_sep_cons _. apply byteZ_pos in Hy. unfold ble. cbn [blt].
    change (byteZ x01) with 1.
    rewrite (proj2 (Z.ltb_ge _ _)) by lia. rewrite blt_nil_r, andb_false_r. done.
  - intros [_ Hk']%no_sep_cons Hb. unfold ble. cbn [blt]. zbool.
    + rewrite (proj2 (Z.ltb_ge (byteZ y) _)), (proj2 (Z.eqb_neq (byteZ y) _)) by lia. done.
    + specialize (IH _ Hk' H0). unfold ble in IH. zbool. rewrite IH, andb_false_r.
      rewrite (proj2 (Z.ltb_ge _ _)) by lia. done.
Qed.

(** Every row of one key and of no other. *)
Lemma row_in_upper ns k k' ts :
  no_sep k → no_sep k' →
  in_range (ns :: k ++ [x00]) (row_key ns k' ts) (ns :: k ++ [x01]) = true ↔ k' = k.
Proof.
  intros Hk Hk'. unfold row_key. rewrite in_range_iff, ble_cons, blt_cons.
  destruct (decide (k' = k)) as [->|Hne].
  - rewrite ble_app, blt_app. split; [done|]. split; [|done]. apply (ble_app [x00] []).
  - split; [|done]. intros [Hb Hc]. exfalso.
    destruct (blt_cases k' k) as [Hlt|[|Hlt]]; [|done|].
    + unfold ble in Hb. rewrite blt_sep_lt in Hb; done.
    + pose proof (ble_bump _ _ (x00 :: be_bytes 8 ts) Hk' Hlt) as Hd.
      unfold ble in Hd. rewrite Hc in Hd. done.
Qed.

(** Rows of the keys of a range of user keys. *)
Lemma row_in_user_range ns s t k ts :
  no_sep s → no_sep t → in_range (ns :: s) (row_key ns k ts) (ns :: t) = in_range s k t.
Proof.
  intros Hs Ht. unfold in_range, row_key. rewrite ble_cons, blt_cons.
  by rewrite ble_start_row, blt_row_end.
Qed.

(** ** The invariant of the keyspace *)

Definition ns_ok (ns : byte) : Prop := ns = x01 ∨ ns = x03 ∨ ns = x04.

(** A key's history: which timestamps wrote it, and what each wrote ([None] is a
    tombstone).  This is what the encoded keyspace stands for. *)
Definition history := Z → option (option bytes).

(** What a read at [t] sees of a history: the newest write at or before [t], unless that
    write is a tombstone. *)
Definition visible (h : history) (t : Z) (r : option (bytes * Z)) : Prop :=
  match r with
  | Some (v, ts) => h ts = Some (Some v) ∧ ts ≤ t ∧ ∀ ts', ts < ts' ≤ t → h ts' = None
  | None => (∀ ts, ts ≤ t → h ts = None)
            ∨ ∃ ts, h ts = Some None ∧ ts ≤ t ∧ ∀ ts', ts < ts' ≤ t → h ts' = None
  end.

(** At most one answer is visible. *)
Lemma newest_unique (h : history) t ts1 ts2 w1 w2 :
  h ts1 = Some w1 → ts1 ≤ t → (∀ ts', ts1 < ts' ≤ t → h ts' = None) →
  h ts2 = Some w2 → ts2 ≤ t → (∀ ts', ts2 < ts' ≤ t → h ts' = None) →
  ts1 = ts2 ∧ w1 = w2.
Proof.
  intros H1 L1 N1 H2 L2 N2.
  assert (ts1 = ts2) as ->; [|split; congruence].
  destruct (Z.lt_trichotomy ts1 ts2) as [Hlt|[|Hlt]]; [|done|].
  - rewrite N1 in H2; [done|lia].
  - rewrite N2 in H1; [done|lia].
Qed.

Lemma visible_unique h t r1 r2 : visible h t r1 → visible h t r2 → r1 = r2.
Proof.
  destruct r1 as [[v1 ts1]|], r2 as [[v2 ts2]|]; simpl; [| | |done].
  - intros (H1&L1&N1) (H2&L2&N2).
    destruct (newest_unique h t ts1 ts2 (Some v1) (Some v2)) as [-> [= ->]]; done.
  - intros (H1&L1&N1) [Hn|(ts2&H2&L2&N2)]; [by rewrite Hn in H1|].
    by destruct (newest_unique h t ts1 ts2 (Some v1) None) as [_ ?].
  - intros [Hn|(ts1&H1&L1&N1)] (H2&L2&N2); [by rewrite Hn in H2|].
    by destruct (newest_unique h t ts1 ts2 None (Some v2)) as [_ ?].
Qed.

(** What a read shows a caller of a version: its value and its timestamp. *)
Definition version_of (r : MVCCRecord) : bytes * Z := (mr_value r, mr_timestamp r).

Section facts.
Context {E : Type} `{EngineLaws E} `{!Msgpack}.
Implicit Types e : E.

(** Every row of the keyspace is a row of one of the three namespaces, for a legal user
    key at a 64-bit timestamp. *)
Definition wf e : Prop := ∀ rk, is_Some (e_get e rk) →
  ∃ ns k ts, ns_ok ns ∧ no_sep k ∧ valid_ts ts ∧ rk = row_key ns k ts.

(** The row of [k] at [ts], when the timestamp is one a row can have. *)
Definition entry e (ns : byte) (k : bytes) (ts : Z) : option bytes :=
  if decide (0 ≤ ts ≤ _MAX_TS) then e_get e (row_key ns k ts) else None.

(** The write a version row stands for. *)
Definition decode_write (raw : bytes) : option bytes :=
  match raw with
  | [] => None
  | flag :: payload => if byteZ flag =? 0 then None else Some payload
  end.

(** The abstraction: the history of each key. *)
Definition hist e (k : bytes) : history := λ ts, decode_write <$> entry e x01 k ts.

Lemma entry_valid e ns k ts v :
  entry e ns k ts = Some v ↔ valid_ts ts ∧ e_get e (row_key ns k ts) = Some v.
Proof. unfold entry, valid_ts. case_decide; naive_solver. Qed.

(** The range of one key's rows up to [t]: what [last] of its scan is. *)
Definition selects (ns : byte) (k endb : bytes) (t : Z) : Prop :=
  ∀ ns' k' ts, no_sep k' → valid_ts ts →
    in_range (ns :: k ++ [x00]) (row_key ns' k' ts) endb = true ↔ ns' = ns ∧ k' = k ∧ ts ≤ t.

Lemma selects_prefix ns k t :
  no_sep k → valid_ts (t + 1) → selects ns k (ns :: k ++ x00 :: be_bytes 8 (t + 1)) t.
Proof.
  intros Hk Ht ns' k' ts Hk' Hts. destruct (decide (ns = ns')) as [->|Hne].
  - rewrite row_in_prefix by done. tauto.
  - unfold row_key at 1. rewrite row_other_ns by done. split; [done|]. by intros [-> _].
Qed.

Lemma selects_upper ns k t :
  no_sep k → _MAX_TS ≤ t → selects ns k (ns :: k ++ [x01]) t.
Proof.
  intros Hk Ht ns' k' ts Hk' [_ Hts]. destruct (decide (ns = ns')) as [->|Hne].
  - rewrite row_in_upper by done. split; [intros ->; split_and!; lia || done|tauto].
  - unfold row_key at 1. rewrite row_other_ns by done. split; [done|]. by intros [-> _].
Qed.

(** The last row of such a range is the key's newest row at or before [t]. *)
Lemma last_scan_newest e ns k endb t :
  wf e → no_sep k → selects ns k endb t →
  match last (e_scan e (ns :: k ++ [x00]) endb) with
  | Some (rk, v) => ∃ ts, rk = row_key ns k ts ∧ entry e ns k ts = Some v ∧ ts ≤ t ∧
                          ∀ ts', ts < ts' ≤ t → entry e ns k ts' = None
  | None => ∀ ts, ts ≤ t → entry e ns k ts = None
  end.
Proof.
  intros Hwf Hk Hsel. destruct (last _) as [[rk v]|] eqn:Hl.
  - apply sorted_last in Hl as [Hin Hmax]; [|apply scan_sorted].
    apply scan_spec in Hin as [Hg Hr].
    destruct (Hwf rk) as (ns'&k'&ts&_&Hk'&Hts&->); [by eexists|].
    apply Hsel in Hr as (->&->&Hle); [|done..].
    exists ts. split_and!; [done| by apply entry_valid |done|].
    intros ts' Hts'. destruct (entry e ns k ts') as [v'|] eqn:He; [|done].
    apply entry_valid in He as [Hv' Hg'].
    assert ((row_key ns k ts', v') ∈ e_scan e (ns :: k ++ [x00]) endb) as Hin'.
    { apply scan_spec. split; [done|]. apply Hsel; auto with lia. }
    destruct (Hmax _ Hin') as [Heq%(f_equal fst)|Hlt].
    + apply row_key_inj in Heq as (_&_&?); [lia|done..].
    + unfold row_lt, row_key in Hlt. simpl in Hlt.
      rewrite Z.ltb_irrefl, Z.eqb_refl in Hlt. simpl in Hlt.
      rewrite blt_app, blt_cons in Hlt. rewrite blt_be_bytes in Hlt by (by apply valid_ts_256).
      zbool. lia.
  - intros ts Hle. apply last_None in Hl. destruct (entry e ns k ts) as [v|] eqn:He; [|done].
    apply entry_valid in He as [Hv Hg].
    assert ((row_key ns k ts, v) ∈ e_scan e (ns :: k ++ [x00]) endb) as Hin.
    { apply scan_spec. split; [done|]. apply Hsel; auto. }
    rewrite Hl in Hin. by apply not_elem_of_nil in Hin.
Qed.

(** *** The writes, as updates of the rows *)

Lemma version_row k ts : _version_prefix k ++ be_bytes 8 ts = row_key x01 k ts.
Proof. unfold _version_prefix, row_key. simpl. by rewrite <-app_assoc. Qed.
Lemma write_row k ts : _WRITE ++ k ++ _SEP ++ be_bytes 8 ts = row_key x03 k ts.
Proof. done. Qed.
Lemma lock_row k ts : _LOCK ++ k ++ _SEP ++ be_bytes 8 ts = row_key x04 k ts.
Proof. done. Qed.

Lemma set_Ok e k v ts e' :
  set e k v ts = Ok e' ↔
  no_sep k ∧ valid_ts ts ∧ e' = e_put e (row_key x01 k ts) (x01 :: v).
Proof.
  unfold set. split.
  - intros (k'&Hk&(b&Hb&[= <-])%rbind_Ok)%rbind_Ok.
    apply check_key_Ok in Hk as [? ->]. apply ts_bytes_Ok in Hb as [? ->].
    unfold row_key. by rewrite <-app_assoc.
  - intros (Hk&Ht&->). rewrite check_key_valid, ts_bytes_valid by done.
    cbn [rbind]. by rewrite version_row.
Qed.

Lemma delete_Ok e k ts e' :
  delete e k ts = Ok e' ↔ no_sep k ∧ valid_ts ts ∧ e' = e_put e (row_key x01 k ts) [x00].
Proof.
  unfold delete. split.
  - intros (k'&Hk&(b&Hb&[= <-])%rbind_Ok)%rbind_Ok.
    apply check_key_Ok in Hk as [? ->]. apply ts_bytes_Ok in Hb as [? ->].
    unfold row_key. by rewrite <-app_assoc.
  - intros (Hk&Ht&->). rewrite check_key_valid, ts_bytes_valid by done.
    cbn [rbind]. by rewrite version_row.
Qed.

Lemma write_write_record_Ok e k sts cts e' :
  write_write_record e k sts cts = Ok e' ↔
  no_sep k ∧ valid_ts sts ∧ valid_ts cts ∧ e' = e_put e (row_key x03 k cts) (be_bytes 8 sts).
Proof.
  unfold write_write_record. split.
  - intros (k'&Hk&(b&Hb&(c&Hc&[= <-])%rbind_Ok)%rbind_Ok)%rbind_Ok.
    apply check_key_Ok in Hk as [? ->]. apply ts_bytes_Ok in Hb as [? ->].
    apply ts_bytes_Ok in Hc as [? ->]. done.
  - intros (Hk&Hs&Hc&->). by rewrite check_key_valid, !ts_bytes_valid.
Qed.

Lemma put_lock_Ok e k sts st pk lt v e' :
  put_lock e k sts st pk lt v = Ok e' ↔
  no_sep k ∧ valid_ts sts ∧ ∃ p, packb (lock_payload st pk lt v) = Ok p ∧
    e' = e_put e (row_key x04 k sts) p.
Proof.
  unfold put_lock. split.
  - intros (k'&Hk&(b&Hb&(c&Hc&[= <-])%rbind_Ok)%rbind_Ok)%rbind_Ok.
    apply check_key_Ok in Hk as [? ->]. apply ts_bytes_Ok in Hc as [? ->]. eauto.
  - intros (Hk&Hs&p&Hp&->). rewrite check_key_valid by done. simpl. rewrite Hp. simpl.
    by rewrite ts_bytes_valid.
Qed.

Lemma remove_lock_Ok e k sts e' :
  remove_lock e k sts = Ok e' ↔ no_sep k ∧ valid_ts sts ∧ e' = e_delete e (row_key x04 k sts).
Proof.
  unfold remove_lock. split.
  - intros (k'&Hk&(b&Hb&[= <-])%rbind_Ok)%rbind_Ok.
    apply check_key_Ok in Hk as [? ->]. apply ts_bytes_Ok in Hb as [? ->]. done.
  - intros (Hk&Ht&->). by rewrite check_key_valid, ts_bytes_valid.
Qed.

(** *** The invariant is kept *)

Lemma wf_put e ns k ts v :
  wf e → ns_ok ns → no_sep k → valid_ts ts → wf (e_put e (row_key ns k ts) v).
Proof.
  intros Hwf ??? rk. rewrite get_put. case_decide; [|apply Hwf]. intros _. subst. eauto 10.
Qed.

Lemma wf_delete e rk : wf e → wf (e_delete e rk).
Proof.
  intros Hwf rk'. rewrite get_delete. case_decide; [|apply Hwf]. intros [? [=]].
Qed.

Lemma wf_delete_range e s t : wf e → wf (e_delete_range e s t).
Proof.
  intros Hwf rk'. rewrite get_delete_range. case_match; [|apply Hwf]. intros [? [=]].
Qed.

Lemma wf_proper e1 e2 : same_rows e1 e2 → wf e1 → wf e2.
Proof. intros Hs Hwf rk. rewrite <-(Hs rk). apply Hwf. Qed.

(** A row is inside the bounds of a snapshot. *)
Lemma row_in_all ns k ts : ns_ok ns → in_range _ALL_START (row_key ns k ts) _ALL_END = true.
Proof.
  intros Hns. unfold in_range, ble, row_key, _ALL_START, _ALL_END. cbn [blt].
  rewrite !blt_nil_r, !andb_false_r, !orb_false_r. by destruct Hns as [->|[->| ->]].
Qed.

(** Keeping the rows legal is what every write does: whatever a write answers, the
    keyspace it leaves is well formed. *)
Definition write_op : Type := E → result E.

Inductive mvcc_write : write_op → Prop :=
  | w_set k v ts : mvcc_write (λ e, set e k v ts)
  | w_delete k ts : mvcc_write (λ e, delete e k ts)
  | w_write_record k sts cts : mvcc_write (λ e, write_write_record e k sts cts)
  | w_put_lock k sts st pk lt v : mvcc_write (λ e, put_lock e k sts st pk lt v)
  | w_set_intent now k v sts : mvcc_write (λ e, set_write_intent e now k v sts)
  | w_remove_lock k sts : mvcc_write (λ e, remove_lock e k sts)
  | w_remove_intent k sts : mvcc_write (λ e, remove_write_intent e k sts)
  | w_clear : mvcc_write (λ e, Ok (clear e)).

Lemma put_lock_wf e k sts st pk lt v e' :
  wf e → put_lock e k sts st pk lt v = Ok e' → wf e'.
Proof.
  intros Hwf (?&?&?&_&->)%put_lock_Ok. apply wf_put; try done. unfold ns_ok; auto.
Qed.

Lemma remove_lock_wf e k sts e' : wf e → remove_lock e k sts = Ok e' → wf e'.
Proof. intros Hwf (?&?&->)%remove_lock_Ok. by apply wf_delete. Qed.

(** Every write of the storage layer keeps the keyspace well formed: whatever the
    arguments, a write that does not raise leaves only rows of the three namespaces, for
    keys without the separator byte, at 64-bit timestamps. *)
Theorem mvcc_write_keeps_wf e op e' : wf e → mvcc_write op → op e = Ok e' → wf e'.
Proof.
  intros Hwf Hop He. destruct Hop; simpl in He.
  - apply set_Ok in He as (?&?&->). apply wf_put; try done. unfold ns_ok; auto.
  - apply delete_Ok in He as (?&?&->). apply wf_put; try done. unfold ns_ok; auto.
  - apply write_write_record_Ok in He as (?&?&?&->). apply wf_put; try done. unfold ns_ok; auto.
  - by eapply put_lock_wf.
  - by eapply put_lock_wf.
  - by eapply remove_lock_wf.
  - by eapply remove_lock_wf.
  - injection He as <-. by apply wf_delete_range.
Qed.

(** *** The reads *)

Lemma length_version_prefix k : length (_version_prefix k) = (length k + 2)%nat.
Proof. unfold _version_prefix, _VERSION, _SEP. rewrite !length_app. simpl. lia. Qed.

(** The row [_get_version_at] finds, decoded. *)
Lemma get_version_at_spec e k t :
  wf e → no_sep k → -1 ≤ t →
  match _get_version_at e k t with
  | Ok (Some r) => ∃ raw ts, entry e x01 k ts = Some raw ∧ ts ≤ t ∧
      (∀ ts', ts < ts' ≤ t → entry e x01 k ts' = None) ∧ _decode_version (Some raw) ts = Some r
  | Ok None => (∀ ts, ts ≤ t → entry e x01 k ts = None) ∨
      ∃ ts, entry e x01 k ts = Some [] ∧ ts ≤ t ∧ ∀ ts', ts < ts' ≤ t → entry e x01 k ts' = None
  | Raise _ => False
  end.
Proof.
  intros Hwf Hk Ht. unfold _get_version_at. rewrite check_key_valid by done. cbn [rbind].
  assert (∃ endb, (if t <? _MAX_TS then let? ts := _ts_bytes (t + 1) in Ok (_version_prefix k ++ ts)
                   else Ok (_key_upper_bound _VERSION k)) = Ok endb ∧ selects x01 k endb t)
    as (endb & -> & Hsel).
  { destruct (Z.ltb_spec t _MAX_TS) as [Hlt|Hge].
    - rewrite ts_bytes_valid by (unfold valid_ts; lia). cbn [rbind]. eexists. split; [done|].
      rewrite version_row. apply selects_prefix; [done|]. unfold valid_ts. lia.
    - eexists. split; [done|]. by apply selects_upper. }
  cbn [rbind]. pose proof (last_scan_newest e x01 k endb t Hwf Hk Hsel) as Hl.
  change (_version_prefix k) with (x01 :: k ++ [x00]) in *.
  destruct (last _) as [[rk raw]|]; [|by left].
  destruct Hl as (ts & -> & He & Hle & Hn). pose proof He as [Hv _]%entry_valid.
  rewrite (drop_row_prefix _ _ _ (length (x01 :: k ++ [x00]))); [|simpl; rewrite length_app; simpl; lia|done].
  destruct raw as [|flag raw]; simpl; [right; eauto|]. exists (flag :: raw), ts. done.
Qed.

Lemma hist_entry e k ts w : hist e k ts = Some w ↔ ∃ raw, entry e x01 k ts = Some raw ∧ decode_write raw = w.
Proof. unfold hist. rewrite fmap_Some. naive_solver. Qed.
Lemma hist_None e k ts : hist e k ts = None ↔ entry e x01 k ts = None.
Proof. unfold hist. by rewrite fmap_None. Qed.

(** The point read against the history of the key. *)
Lemma get_version_spec e k t :
  wf e → no_sep k → -1 ≤ t →
  ∃ r, get_version e k t = Ok r ∧ visible (hist e k) t (version_of <$> r).
Proof.
  intros Hwf Hk Ht. pose proof (get_version_at_spec e k t Hwf Hk Ht) as Hs.
  unfold get_version. destruct (_get_version_at e k t) as [[r|]|]; [| |done]; cbn [rbind].
  - destruct Hs as (raw & ts & He & Hle & Hn & Hd).
    destruct raw as [|flag raw]; [done|]. injection Hd as <-. cbn [mr_deleted].
    destruct (byteZ flag =? 0) eqn:Hf; eexists; (split; [done|]).
    + right. exists ts. split_and!; [|done|intros; apply hist_None; auto].
      apply hist_entry. eexists. split; [done|]. simpl. by rewrite Hf.
    + split_and!; [|done|intros; apply hist_None; auto].
      apply hist_entry. eexists. split; [done|]. simpl. by rewrite Hf.
  - eexists. split; [done|]. destruct Hs as [Hn|(ts&He&Hle&Hn)].
    + left. intros. by apply hist_None, Hn.
    + right. exists ts. split_and!; [|done|intros; apply hist_None; auto].
      apply hist_entry. eauto.
Qed.

(** A point read refines its specification.  For every legal key and every timestamp
    the engine can bound, [get_version] answers (it never raises) and answers exactly
    what is visible in the key's history at that timestamp: the newest version at or
    before it with the timestamp it was written at, or nothing when there is none or when
    the newest one is a tombstone. *)
Theorem get_version_visible e k t :
  wf e → no_sep k → -1 ≤ t →
  ∃ r, get_version e k t = Ok r ∧ visible (hist e k) t (version_of <$> r).
Proof. exact (get_version_spec e k t). Qed.

Lemma get_version_not_deleted e k t r : get_version e k t = Ok (Some r) → mr_deleted r = false.
Proof.
  unfold get_version. intros ([r'|]&_&Hr)%rbind_Ok; [|done].
  destruct (mr_deleted r') eqn:Hd; [done|]. by injection Hr as <-.
Qed.

(** A read at [t] depends on the history up to [t] only. *)
Lemma get_version_same_history e e' k t :
  wf e → wf e' → no_sep k → -1 ≤ t →
  (∀ ts, ts ≤ t → hist e' k ts = hist e k ts) → get_version e' k t = get_version e k t.
Proof.
  intros Hw Hw' Hk Ht Hsame.
  destruct (get_version_spec e k t Hw Hk Ht) as (r&Hr&Hvis).
  destruct (get_version_spec e' k t Hw' Hk Ht) as (r'&Hr'&Hvis').
  rewrite Hr, Hr'. f_equal.
  assert (version_of <$> r' = version_of <$> r) as Heq.
  { eapply visible_unique; [done|]. destruct r as [x|]; cbn in *.
    - destruct Hvis as (?&?&Hn). split_and!; [by rewrite Hsame|done|].
      intros. rewrite Hsame by lia. auto.
    - destruct Hvis as [Hn|(ts&?&?&Hn)]; [left; intros; rewrite Hsame; auto|].
      right. exists ts. split_and!; [by rewrite Hsame|done|]. intros. rewrite Hsame by lia. auto. }
  destruct r as [[]|], r' as [[]|]; cbn in Heq; try done.
  apply get_version_not_deleted in Hr, Hr'. unfold version_of in Heq. naive_solver.
Qed.

(** The same read as an equation: whatever is visible is the answer. *)
Lemma get_version_eq e k t r :
  wf e → no_sep k → -1 ≤ t → visible (hist e k) t r →
  ∃ r', get_version e k t = Ok r' ∧ version_of <$> r' = r.
Proof.
  intros ??? Hv. destruct (get_version_spec e k t) as (r'&Hr&Hv'); [done..|].
  exists r'. split; [done|]. by eapply visible_unique.
Qed.

Lemma row_key_put e ns k ts v ns' k' ts' :
  no_sep k → valid_ts ts → no_sep k' →
  entry (e_put e (row_key ns k ts) v) ns' k' ts'
  = if decide (ns = ns' ∧ k = k' ∧ ts = ts') then Some v else entry e ns' k' ts'.
Proof.
  intros Hk Hts Hk'. unfold entry. rewrite get_put.
  destruct (decide (0 ≤ ts' ≤ _MAX_TS)) as [Hv|Hv].
  - destruct (decide (ns = ns' ∧ k = k' ∧ ts = ts')) as [(->&->&->)|Hne].
    + by rewrite decide_True.
    + rewrite decide_False; [done|]. intros Heq. destruct Hne.
      apply row_key_inj in Heq; auto.
  - rewrite decide_False; [done|]. intros (_&_&->). done.
Qed.

Lemma row_key_delete e ns k ts ns' k' ts' :
  no_sep k → valid_ts ts → no_sep k' →
  entry (e_delete e (row_key ns k ts)) ns' k' ts'
  = if decide (ns = ns' ∧ k = k' ∧ ts = ts') then None else entry e ns' k' ts'.
Proof.
  intros Hk Hts Hk'. unfold entry. rewrite get_delete.
  destruct (decide (0 ≤ ts' ≤ _MAX_TS)) as [Hv|Hv].
  - destruct (decide (ns = ns' ∧ k = k' ∧ ts = ts')) as [(->&->&->)|Hne].
    + by rewrite decide_True.
    + rewrite decide_False; [done|]. intros Heq. destruct Hne.
      apply row_key_inj in Heq; auto.
  - by case_decide.
Qed.

(** A write refines one update of one history.  [set] and [delete] change the history
    of the key they name at the timestamp they name - to the value, or to a tombstone -
    and no other point of any history. *)
Theorem set_delete_update_history e k v ts k' ts' :
  no_sep k → valid_ts ts → no_sep k' →
  (∃ e', set e k v ts = Ok e' ∧
     hist e' k' ts' = if decide (k = k' ∧ ts = ts') then Some (Some v) else hist e k' ts') ∧
  (∃ e', delete e k ts = Ok e' ∧
     hist e' k' ts' = if decide (k = k' ∧ ts = ts') then Some None else hist e k' ts').
Proof.
  intros Hk Hts Hk'. split; eexists; (split; [by (apply set_Ok || apply delete_Ok)|]);
    unfold hist; rewrite row_key_put by done; repeat case_decide; naive_solver.
Qed.

(** The two checks every write starts with. *)
Lemma checked_ok k ts {A} (f : bytes → bytes → result A) :
  no_sep k → valid_ts ts →
  (let? k := _check_user_key k in let? b := _ts_bytes ts in f k b) = f k (be_bytes 8 ts).
Proof. intros. rewrite check_key_valid, ts_bytes_valid by done. done. Qed.

Lemma checked_bad k ts {A} (f : bytes → bytes → result A) :
  ¬ no_sep k ∨ ¬ valid_ts ts →
  (let? k := _check_user_key k in let? b := _ts_bytes ts in f k b) = Raise ValueError.
Proof.
  intros Hbad. destruct (_check_user_key k) as [k'|x] eqn:Hk.
  - pose proof Hk as [Hs ->]%check_key_Ok. cbn [rbind]. destruct (_ts_bytes ts) as [b|x] eqn:Ht.
    + apply ts_bytes_Ok in Ht as [? _]. naive_solver.
    + unfold _ts_bytes in Ht. destruct (negb _); [|done]. by injection Ht as <-.
  - unfold _check_user_key in Hk. case_decide; [|done]. by injection Hk as <-.
Qed.

Lemma set_refuses e k v ts : (¬ no_sep k ∨ ¬ valid_ts ts) → set e k v ts = Raise ValueError.
Proof. intros ?. by apply checked_bad. Qed.

(** What the storage layer accepts.  A version, a tombstone, a write record of a 64-bit
    transaction and the removal of a lock are refused, with a ValueError and nothing
    written, exactly when the key has the separator byte or the timestamp does not fit
    64 bits. *)
Theorem writes_refuse_bad_input e k v ts sts :
  valid_ts sts →
  let bad := ¬ no_sep k ∨ ¬ valid_ts ts in
  (bad ↔ set e k v ts = Raise ValueError) ∧
  (bad ↔ delete e k ts = Raise ValueError) ∧
  (bad ↔ write_write_record e k sts ts = Raise ValueError) ∧
  (bad ↔ remove_lock e k ts = Raise ValueError).
Proof.
  intros Hsts bad. assert (Hdec : bad ∨ no_sep k ∧ valid_ts ts).
  { subst bad. unfold no_sep, valid_ts. destruct (decide (x00 ∈ k)); [naive_solver|].
    destruct (decide (0 ≤ ts ≤ _MAX_TS)); naive_solver. }
  split_and!; (split; [intros ?; by apply checked_bad|]); intros Hr;
    (destruct Hdec as [?|[Hk Ht]]; [done|]);
    unfold set, delete, write_write_record, remove_lock in Hr; rewrite checked_ok in Hr by done;
    try done.
  by rewrite (ts_bytes_valid sts) in Hr.
Qed.

(** *** Newest rows of each namespace *)

(** [Some (ts, raw)]: the newest row of [k] in [ns]; [None]: there is none. *)
Definition newest e (ns : byte) (k : bytes) (r : option (Z * bytes)) : Prop :=
  match r with
  | Some (ts, raw) => entry e ns k ts = Some raw ∧ ∀ ts', ts < ts' → entry e ns k ts' = None
  | None => ∀ ts, entry e ns k ts = None
  end.

Lemma last_upper_newest e ns k :
  wf e → no_sep k →
  ∃ r, newest e ns k r ∧
    last (e_scan e (ns :: k ++ [x00]) (ns :: k ++ [x01])) = (λ p, (row_key ns k p.1, p.2)) <$> r.
Proof.
  intros Hwf Hk.
  pose proof (last_scan_newest e ns k _ _MAX_TS Hwf Hk (selects_upper ns k _MAX_TS Hk (Z.le_refl _))) as Hl.
  assert (Hout : ∀ ts, _MAX_TS < ts → entry e ns k ts = None).
  { intros ts Hts. unfold entry. rewrite decide_False; [done|]. lia. }
  destruct (last _) as [[rk raw]|].
  - destruct Hl as (ts&->&He&Hle&Hn). exists (Some (ts, raw)). split; [|done]. split; [done|].
    intros ts' Hlt. destruct (Z.le_gt_cases ts' _MAX_TS); auto.
  - exists None. split; [|done]. intros ts. destruct (Z.le_gt_cases ts _MAX_TS); auto.
Qed.

Lemma newest_inj e ns k r1 r2 : newest e ns k r1 → newest e ns k r2 → r1 = r2.
Proof.
  destruct r1 as [[t1 w1]|], r2 as [[t2 w2]|]; simpl; [| | |done].
  - intros [H1' N1] [H2' N2]. assert (t1 = t2) as ->; [|congruence].
    destruct (Z.lt_trichotomy t1 t2) as [Hlt|[|Hlt]]; [|done|].
    + by rewrite N1 in H2'.
    + by rewrite N2 in H1'.
  - intros [H1' _] Hn. by rewrite Hn in H1'.
  - intros Hn [H2' _]. by rewrite Hn in H2'.
Qed.

Lemma newest_valid e ns k ts raw : newest e ns k (Some (ts, raw)) → valid_ts ts.
Proof. intros [[? _]%entry_valid _]. done. Qed.

Lemma get_latest_version_newest e k r :
  wf e → no_sep k → newest e x01 k r →
  get_latest_version e k = Ok (match r with
                               | Some (ts, raw) => _decode_version (Some raw) ts
                               | None => None
                               end).
Proof.
  intros Hwf Hk Hr. destruct (last_upper_newest e x01 k Hwf Hk) as (r'&Hr'&Hl).
  rewrite (newest_inj _ _ _ _ _ Hr Hr'). unfold get_latest_version.
  rewrite check_key_valid by done. cbn [rbind].
  change (_version_prefix k) with (x01 :: k ++ [x00]).
  change (_key_upper_bound _VERSION k) with (x01 :: k ++ [x01]). rewrite Hl.
  destruct r' as [[ts raw]|]; cbn [fmap option_fmap option_map fst snd]; [|done].
  rewrite split_row_key by (by eapply newest_valid). done.
Qed.

Lemma get_latest_write_newest e k r :
  wf e → no_sep k → newest e x03 k r →
  get_latest_write e k = Ok ((λ p, {| wr_start_ts := be_int p.2; wr_commit_ts := p.1 |}) <$> r).
Proof.
  intros Hwf Hk Hr. destruct (last_upper_newest e x03 k Hwf Hk) as (r'&Hr'&Hl).
  rewrite (newest_inj _ _ _ _ _ Hr Hr'). unfold get_latest_write.
  rewrite check_key_valid by done. cbn [rbind].
  change (_WRITE ++ k ++ _SEP) with (x03 :: k ++ [x00]).
  change (_key_upper_bound _WRITE k) with (x03 :: k ++ [x01]). rewrite Hl.
  destruct r' as [[ts raw]|]; cbn [fmap option_fmap option_map fst snd]; [|done].
  rewrite drop_row_prefix; [done| unfold _WRITE; simpl; lia |by eapply newest_valid].
Qed.

Lemma get_newest_lock_newest e k r :
  wf e → no_sep k → newest e x04 k r →
  get_newest_lock e k = match r with
                        | Some (ts, raw) => _decode_lock (Some raw) k ts
                        | None => Ok None
                        end.
Proof.
  intros Hwf Hk Hr. destruct (last_upper_newest e x04 k Hwf Hk) as (r'&Hr'&Hl).
  rewrite (newest_inj _ _ _ _ _ Hr Hr'). unfold get_newest_lock.
  rewrite check_key_valid by done. cbn [rbind].
  change (_LOCK ++ k ++ _SEP) with (x04 :: k ++ [x00]).
  change (_key_upper_bound _LOCK k) with (x04 :: k ++ [x01]). rewrite Hl.
  destruct r' as [[ts raw]|]; cbn [fmap option_fmap option_map fst snd]; [|done].
  rewrite split_row_key by (by eapply newest_valid). done.
Qed.

Lemma newest_exists e ns k : wf e → no_sep k → ∃ r, newest e ns k r.
Proof. intros Hwf Hk. destruct (last_upper_newest e ns k Hwf Hk) as (r&Hr&_). eauto. Qed.

Lemma get_lock_entry e k ts :
  no_sep k → valid_ts ts → get_lock e k ts = _decode_lock (entry e x04 k ts) k ts.
Proof.
  intros Hk Hts. unfold get_lock. rewrite check_key_valid, ts_bytes_valid by done. cbn [rbind].
  unfold entry. by rewrite decide_True.
Qed.

(** A lock row decodes to the lock that was written. *)
Lemma decode_lock_payload st pk lt v p k ts :
  packb (lock_payload st pk lt v) = Ok p →
  _decode_lock (Some p) k ts
  = Ok (Some {| lk_status := PBytes st; lk_primary_key := PBytes pk; lk_lock_time := PFloat lt;
                lk_value := PBytes v; lk_key := k; lk_start_ts := ts |}).
Proof. intros Hp. unfold _decode_lock. by rewrite (unpackb_packb _ _ Hp). Qed.

(** Lock records round trip.  A lock that was put is read back whole - status, primary
    key, time, value, key and start timestamp - by [get_lock], and by [get_newest_lock]
    when no newer lock of the key is held; removing it takes it away and [get_lock] then
    finds none. *)
Theorem lock_roundtrip e k sts st pk lt v e1 e2 :
  wf e → put_lock e k sts st pk lt v = Ok e1 → remove_lock e1 k sts = Ok e2 →
  let lock := {| lk_status := PBytes st; lk_primary_key := PBytes pk; lk_lock_time := PFloat lt;
                 lk_value := PBytes v; lk_key := k; lk_start_ts := sts |} in
  get_lock e1 k sts = Ok (Some lock) ∧
  ((∀ ts, sts < ts → entry e x04 k ts = None) → get_newest_lock e1 k = Ok (Some lock)) ∧
  get_lock e2 k sts = Ok None.
Proof.
  intros Hwf Hput Hrem lock. pose proof (put_lock_wf _ _ _ _ _ _ _ _ Hwf Hput) as Hwf1.
  apply put_lock_Ok in Hput as (Hk&Hv&p&Hp&->). apply remove_lock_Ok in Hrem as (_&_&->).
  assert (He : entry (e_put e (row_key x04 k sts) p) x04 k sts = Some p)
    by (rewrite row_key_put by done; by rewrite decide_True).
  split_and!.
  - rewrite get_lock_entry, He by done. by apply decode_lock_payload.
  - intros Hn. rewrite (get_newest_lock_newest _ _ (Some (sts, p))); [by apply decode_lock_payload|done..|].
    split; [done|]. intros ts' Hlt. rewrite row_key_put by done.
    rewrite decide_False by naive_solver lia. auto.
  - rewrite get_lock_entry by done. rewrite row_key_delete by done. by rewrite decide_True.
Qed.

(** *** The range read *)

(** [ts] is the newest version of [k] among the rows [L] at or before [t], with value [v]. *)
Definition lvis (L : list row) (t : Z) (k v : bytes) (ts : Z) : Prop :=
  ∃ flag, byteZ flag ≠ 0 ∧ valid_ts ts ∧ (row_key x01 k ts, flag :: v) ∈ L ∧ ts ≤ t ∧
    ∀ ts' raw, valid_ts ts' → (row_key x01 k ts', raw) ∈ L → ts' ≤ t → ts' ≤ ts.

Definition version_rows (L : list row) : Prop :=
  ∀ r, r ∈ L → ∃ k ts, no_sep k ∧ valid_ts ts ∧ r.1 = row_key x01 k ts.

Definition out_lt (a b : bytes * bytes * Z) : Prop := blt a.1.1 b.1.1 = true.

(** The state of the loop after the rows [L], while it is on key [ck]. *)
Record on_key (L : list row) (t : Z) (s : scan_state) (ck : bytes) : Prop := {
  ok_key : sc_key s = Some ck;
  ok_sep : no_sep ck;
  ok_le : ∀ k ts raw, no_sep k → valid_ts ts → (row_key x01 k ts, raw) ∈ L → ble k ck = true;
  ok_out : ∀ k v ts, (k, v, ts) ∈ sc_result s ↔ blt k ck = true ∧ no_sep k ∧ lvis L t k v ts;
  ok_sorted : StronglySorted out_lt (sc_result s);
  ok_val : ∀ v ts, (sc_value s = Some v ∧ sc_ts s = ts) ↔ lvis L t ck v ts
}.

Lemma lvis_snoc_other L t k k2 ts2 raw v ts :
  no_sep k → no_sep k2 → valid_ts ts2 → (k ≠ k2 ∨ t < ts2) →
  lvis (L ++ [(row_key x01 k2 ts2, raw)]) t k v ts ↔ lvis L t k v ts.
Proof.
  intros Hk Hk2 Hv2 Hor. split; intros (flag&Hf&Hv&Hin&Hle&Hmax).
  - exists flag. split_and!; try done.
    + apply elem_of_app in Hin as [|Hin%list_elem_of_singleton]; [done|].
      apply row_pair_inj in Hin as (_&->&->&_); [|done..]. destruct Hor; [done|lia].
    + intros ts' raw' Hv' Hin'. apply (Hmax _ raw'); [done|]. set_solver.
  - exists flag. split_and!; try done; [set_solver|].
    intros ts' raw' Hv' [Hin'|Hin'%list_elem_of_singleton]%elem_of_app; [by eapply Hmax|].
    apply row_pair_inj in Hin' as (_&->&->&_); [|done..].
    destruct Hor; [done|lia].
Qed.

Lemma lvis_snoc_newest L t k ts2 raw v ts :
  no_sep k → valid_ts ts2 → ts2 ≤ t →
  (∀ ts' raw', valid_ts ts' → (row_key x01 k ts', raw') ∈ L → ts' < ts2) →
  lvis (L ++ [(row_key x01 k ts2, raw)]) t k v ts ↔
  ts = ts2 ∧ ∃ flag, byteZ flag ≠ 0 ∧ raw = flag :: v.
Proof.
  intros Hk Hv2 Hle2 Hnew. split.
  - intros (flag&Hf&Hv&Hin&Hle&Hmax).
    assert (ts2 ≤ ts) by (apply (Hmax ts2 raw); [done| |done]; set_solver).
    apply elem_of_app in Hin as [Hin|Hin%list_elem_of_singleton].
    + apply Hnew in Hin; [lia|done].
    + apply row_pair_inj in Hin as (_&_&->&<-); [|done..]. eauto.
  - intros (->&flag&Hf&->). exists flag. split_and!; try done; [set_solver|].
    intros ts' raw' Hv' [Hin'|Hin'%list_elem_of_singleton]%elem_of_app Hle'.
    + apply Hnew in Hin'; [lia|done].
    + apply row_pair_inj in Hin' as (_&_&->&_); [lia|done..].
Qed.

(** Starting a new key emits the last one. *)
Lemma on_key_next L t s ck k2 :
  on_key L t s ck → no_sep k2 → blt ck k2 = true →
  on_key L t {| sc_result := scan_emit s; sc_key := Some k2; sc_value := None; sc_ts := 0 |} k2.
Proof.
  intros [Hck Hsep Hle Hout Hs Hval] Hk2 Hlt.
  assert (Hnone : ∀ k v ts, no_sep k → lvis L t k v ts → ble k ck = true).
  { intros k v ts Hk (flag&_&Hv&Hin&_). by eapply Hle. }
  split; cbn; try done.
  - intros k ts raw Hk Hv Hin. apply ble_lt. right. eapply ble_blt_trans; [by eapply Hle|done].
  - intros k v ts. unfold scan_emit. rewrite Hck.
    assert (Hsplit : blt k k2 = true ∧ no_sep k ∧ lvis L t k v ts ↔
                     (k, v, ts) ∈ sc_result s ∨ k = ck ∧ sc_value s = Some v ∧ sc_ts s = ts).
    { rewrite Hout, Hval. split.
      - intros (_&Hk&Hl). destruct (proj1 (ble_lt _ _) (Hnone _ _ _ Hk Hl)) as [->|]; auto.
      - intros [(?&?&?)|(->&?)]; [|done]. split_and!; try done. by eapply blt_trans. }
    rewrite Hsplit. destruct (sc_value s) as [v'|]; [|naive_solver].
    rewrite elem_of_app, list_elem_of_singleton. naive_solver.
  - unfold scan_emit. rewrite Hck. destruct (sc_value s) as [v'|]; [|done].
    apply StronglySorted_app. split_and!; [|done|repeat constructor].
    intros [[k v] ts] x2 Hin ->%list_elem_of_singleton. by apply Hout in Hin as [? _].
  - intros v ts. split; [by intros [[=] _]|]. intros Hl.
    pose proof (Hnone _ _ _ Hk2 Hl) as Hb. unfold ble in Hb. by rewrite Hlt in Hb.
Qed.

(** One row of the key the loop is on. *)
Lemma on_key_row L t s0 k ts raw :
  on_key L t s0 k → valid_ts ts →
  (∀ ts' raw', valid_ts ts' → (row_key x01 k ts', raw') ∈ L → ts' < ts) →
  ∃ s', scan_step t s0 (row_key x01 k ts, raw) = Ok s' ∧
        on_key (L ++ [(row_key x01 k ts, raw)]) t s' k.
Proof.
  intros [Hck Hsep Hle Hout Hs Hval] Hv Hnew. unfold scan_step. cbn [fst snd].
  rewrite split_row_key by done. cbn [rbind]. rewrite decide_True by done.
  assert (Hle' : ∀ k' ts' raw', no_sep k' → valid_ts ts' →
      (row_key x01 k' ts', raw') ∈ L ++ [(row_key x01 k ts, raw)] → ble k' k = true).
  { intros k' ts' raw' Hk' Hv' [Hin|Hin%list_elem_of_singleton]%elem_of_app; [by eapply Hle|].
    apply row_pair_inj in Hin as (_&->&_); [|done..]. apply ble_refl. }
  assert (Hout' : ∀ k' v' ts', (k', v', ts') ∈ sc_result s0 ↔ blt k' k = true ∧ no_sep k' ∧
      lvis (L ++ [(row_key x01 k ts, raw)]) t k' v' ts').
  { intros k' v' ts'. rewrite Hout. split; intros (Hb&Hn&Hl); split_and!; try done;
      (apply lvis_snoc_other in Hl || apply lvis_snoc_other); try done; left; by apply blt_neq. }
  destruct (Z.leb_spec ts t) as [Hts|Hts].
  - destruct raw as [|flag payload]; [|simpl; destruct (Z.eqb_spec (byteZ flag) 0)];
      eexists; (split; [done|]); split; cbn; try done;
      intros v' ts'; rewrite lvis_snoc_newest by done.
    + split; [by intros [[=] _]|]. by intros (_&?&_&[=]).
    + split; [by intros [[=] _]|]. naive_solver.
    + split; [intros [[= <-] <-]; eauto|]. intros (->&?&_&[= _ <-]). done.
  - eexists. split; [done|]. split; try done. intros v' ts'. rewrite Hval.
    symmetry. apply lvis_snoc_other; auto.
Qed.

Lemma row_lt_inv ns k1 k2 ts1 ts2 (v1 v2 : bytes) :
  no_sep k1 → no_sep k2 → valid_ts ts1 → valid_ts ts2 →
  row_lt (row_key ns k1 ts1, v1) (row_key ns k2 ts2, v2) →
  blt k1 k2 = true ∨ k1 = k2 ∧ ts1 < ts2.
Proof.
  intros Hk1 Hk2 Ht1 Ht2. unfold row_lt, row_key. cbn [fst]. rewrite blt_cons.
  destruct (decide (k1 = k2)) as [->|Hne].
  - rewrite blt_app, blt_cons, blt_be_bytes by (by apply valid_ts_256). intros ?%Z.ltb_lt. auto.
  - rewrite blt_sep_iff by done. auto.
Qed.

(** The loop is before its first row, or on the key of a row it has read. *)
Definition loop_inv (L : list row) (t : Z) (s : scan_state) : Prop :=
  (L = [] ∧ s = scan_init) ∨
  ∃ ck ts raw, on_key L t s ck ∧ valid_ts ts ∧ (row_key x01 ck ts, raw) ∈ L.

Lemma scan_step_inv L t s r :
  loop_inv L t s → StronglySorted row_lt (L ++ [r]) → version_rows [r] →
  ∃ s', scan_step t s r = Ok s' ∧ loop_inv (L ++ [r]) t s'.
Proof.
  intros Hinv [Hlt _]%StronglySorted_app Hr.
  destruct r as [rk raw]. destruct (Hr (rk, raw)) as (k&ts&Hk&Hv&Hrk); [set_solver|].
  cbn [fst] in Hrk. subst rk.
  assert (∃ s0, scan_step t s (row_key x01 k ts, raw) = scan_step t s0 (row_key x01 k ts, raw)
                ∧ on_key L t s0 k) as (s0&Heq&Hon).
  { assert (Hjump : ∀ s, sc_key s ≠ Some k → scan_step t s (row_key x01 k ts, raw) =
      scan_step t {| sc_result := scan_emit s; sc_key := Some k; sc_value := None; sc_ts := 0 |}
                (row_key x01 k ts, raw)).
    { intros s1 Hne. unfold scan_step. cbn [fst snd]. rewrite split_row_key by done. cbn [rbind].
      rewrite decide_False by congruence. rewrite decide_True by done. done. }
    destruct Hinv as [[-> ->]|(ck&ts0&raw0&Hon&Hv0&Hin)].
    - eexists. split; [by apply Hjump|]. split; cbn; try done; [set_solver| |constructor|].
      + intros k' v' ts'. split; [set_solver|]. intros (_&_&?&_&_&?&_). set_solver.
      + intros v' ts'. split; [by intros [[=] _]|]. intros (?&_&_&?&_). set_solver.
    - destruct (decide (ck = k)) as [->|Hne]; [by exists s|].
      eexists. split; [apply Hjump; rewrite (ok_key _ _ _ _ Hon); congruence|].
      eapply on_key_next; [done..|].
      destruct (row_lt_inv x01 ck k ts0 ts raw0 raw) as [|[? _]]; try done; [by eapply ok_sep|].
      apply Hlt; set_solver. }
  destruct (on_key_row L t s0 k ts raw Hon Hv) as (s'&Hs'&Hon').
  { intros ts' raw' Hv' Hin'.
    destruct (row_lt_inv x01 k k ts' ts raw' raw) as [Hb|[_ ?]]; try done.
    - apply Hlt; set_solver.
    - by rewrite blt_irrefl in Hb. }
  exists s'. rewrite Heq. split; [done|]. right. exists k, ts, raw. split_and!; [done..|set_solver].
Qed.

Lemma scan_loop_inv rest L t s :
  loop_inv L t s → StronglySorted row_lt (L ++ rest) → version_rows rest →
  ∃ s', scan_loop t s rest = Ok s' ∧ loop_inv (L ++ rest) t s'.
Proof.
  revert L s. induction rest as [|r rest IH]; intros L s Hinv Hs Hr; cbn [scan_loop].
  { exists s. by rewrite app_nil_r. }
  rewrite cons_middle, app_assoc in Hs.
  destruct (scan_step_inv L t s r Hinv) as (s'&->&Hinv').
  - by apply StronglySorted_app_1_l in Hs.
  - intros x Hx. apply Hr. set_solver.
  - cbn [rbind]. destruct (IH (L ++ [r]) s' Hinv' Hs) as (s''&->&Hinv'').
    + intros x Hx. apply Hr. set_solver.
    + exists s''. by rewrite cons_middle, app_assoc.
Qed.

(** What the loop emits in all. *)
Lemma loop_inv_emit L t s :
  loop_inv L t s → version_rows L →
  StronglySorted out_lt (scan_emit s) ∧
  ∀ k v ts, (k, v, ts) ∈ scan_emit s ↔ no_sep k ∧ lvis L t k v ts.
Proof.
  intros [[-> ->]|(ck&ts0&raw0&[Hck Hsep Hle Hout Hs Hval]&_)] HL.
  { split; [constructor|]. intros k v ts. split; [set_solver|]. intros (_&?&_&_&?&_). set_solver. }
  assert (Hall : ∀ k v ts, no_sep k ∧ lvis L t k v ts ↔
            (k, v, ts) ∈ sc_result s ∨ k = ck ∧ sc_value s = Some v ∧ sc_ts s = ts).
  { intros k v ts. rewrite Hout, Hval. split; [|naive_solver].
    intros [Hk Hl]. pose proof Hl as (flag&_&Hv&Hin&_).
    destruct (proj1 (ble_lt _ _) (Hle _ _ _ Hk Hv Hin)) as [->|]; auto. }
  unfold scan_emit. rewrite Hck. destruct (sc_value s) as [v'|].
  - split.
    + apply StronglySorted_app. split_and!; [|done|repeat constructor].
      intros [[k v] ts] x2 Hin ->%list_elem_of_singleton. by apply Hout in Hin as [? _].
    + intros k v ts. rewrite Hall, elem_of_app, list_elem_of_singleton. naive_solver.
  - split; [done|]. intros k v ts. rewrite Hall. naive_solver.
Qed.

Lemma lvis_hist e s t' t k v ts :
  wf e → no_sep k → no_sep s → no_sep t' → in_range s k t' = true →
  lvis (e_scan e (x01 :: s) (x01 :: t')) t k v ts ↔ visible (hist e k) t (Some (v, ts)).
Proof.
  intros Hwf Hk Hs Ht Hr.
  assert (Hrow : ∀ ts raw, valid_ts ts →
    (row_key x01 k ts, raw) ∈ e_scan e (x01 :: s) (x01 :: t') ↔ entry e x01 k ts = Some raw).
  { intros ts' raw Hv. rewrite scan_spec, entry_valid, row_in_user_range, Hr by done. tauto. }
  split.
  - intros (flag&Hf&Hv&Hin&Hle&Hmax). split_and!; [|done|].
    + apply hist_entry. eexists. split; [by apply Hrow|]. simpl.
      by rewrite (proj2 (Z.eqb_neq _ _)).
    + intros ts' Hts'. apply hist_None. destruct (entry e x01 k ts') as [raw|] eqn:He; [|done].
      pose proof He as [Hv' _]%entry_valid. apply Hrow in He; [|done].
      apply Hmax in He; [lia|done|lia].
  - intros ((raw&He&Hd)%hist_entry&Hle&Hn). pose proof He as [Hv _]%entry_valid.
    destruct raw as [|flag payload]; [done|]. simpl in Hd.
    destruct (Z.eqb_spec (byteZ flag) 0) as [|Hf]; [done|]. injection Hd as ->.
    exists flag. split_and!; [done..| by apply Hrow |done|].
    intros ts' raw' Hv' Hin' Hle'. destruct (Z.le_gt_cases ts' ts); [done|].
    apply Hrow in Hin'; [|done]. specialize (Hn ts'). rewrite hist_None, Hin' in Hn.
    discriminate Hn. lia.
Qed.

(** The range read, row by row. *)
Lemma scan_versions_spec e s t' t :
  wf e → no_sep s → no_sep t' → -1 ≤ t →
  ∃ rows, scan_versions e s t' t = Ok rows ∧ StronglySorted out_lt rows ∧
    ∀ k v ts, (k, v, ts) ∈ rows ↔
      no_sep k ∧ in_range s k t' = true ∧
      ∃ r, get_version e k t = Ok (Some r) ∧ version_of r = (v, ts).
Proof.
  intros Hwf Hs Ht Hge. unfold scan_versions. rewrite !check_key_valid by done. cbn [rbind].
  change (_VERSION ++ s) with (x01 :: s). change (_VERSION ++ t') with (x01 :: t').
  set (L := e_scan e (x01 :: s) (x01 :: t')).
  assert (HL : version_rows L).
  { intros [rk raw] [Hg Hr]%scan_spec. destruct (Hwf rk) as (ns&k&ts&_&Hk&Hv&->); [by eexists|].
    exists k, ts. split_and!; [done..|]. cbn [fst].
    destruct (decide (x01 = ns)) as [<-|Hne]; [done|].
    unfold row_key in Hr. by rewrite row_other_ns in Hr. }
  destruct (scan_loop_inv L [] t scan_init) as (st&->&Hinv); [by left|apply scan_sorted|done|].
  cbn [rbind]. destruct (loop_inv_emit _ _ _ Hinv HL) as [Hsort Hmem].
  exists (scan_emit st). split_and!; [done..|]. intros k v ts. rewrite Hmem.
  assert (Hrange : ∀ Hk : no_sep k, lvis L t k v ts → in_range s k t' = true).
  { intros Hk (flag&_&Hv&Hin&_). apply scan_spec in Hin as [_ Hr].
    by rewrite row_in_user_range in Hr. }
  split.
  - intros [Hk Hl]. pose proof (Hrange Hk Hl) as Hr. split_and!; [done..|].
    apply lvis_hist in Hl; [|done..].
    destruct (get_version_eq e k t _ Hwf Hk Hge Hl) as ([r|]&Hget&Heq); [|done].
    exists r. split; [done|]. cbn in Heq. congruence.
  - intros (Hk&Hr&r&Hget&Heq). split; [done|]. apply lvis_hist; [done..|].
    destruct (get_version_spec e k t Hwf Hk Hge) as (r'&Hget'&Hvis).
    rewrite Hget in Hget'. injection Hget' as <-. cbn [fmap option_fmap option_map] in Hvis. by rewrite Heq in Hvis.
Qed.

(** The range read agrees with the point read.  On a well-formed keyspace
    [scan_versions] never raises for legal bounds, lists its rows in strictly increasing
    key order, and a row [(key, value, ts)] is listed exactly when the key is in the range
    and [get_version] of that key at the same timestamp answers that value at that
    version - so tombstoned keys and keys written later are absent, and nothing else is. *)
Theorem scan_versions_agrees e s t' t :
  wf e → no_sep s → no_sep t' → -1 ≤ t →
  ∃ rows, scan_versions e s t' t = Ok rows ∧ StronglySorted out_lt rows ∧
    ∀ k v ts, (k, v, ts) ∈ rows ↔
      no_sep k ∧ in_range s k t' = true ∧
      ∃ r, get_version e k t = Ok (Some r) ∧ version_of r = (v, ts).
Proof. exact (scan_versions_spec e s t' t). Qed.

(** *** Engines with the same rows read alike *)

#[global] Instance get_version_proper : Proper (same_rows ==> eq ==> eq ==> eq) get_version.
Proof.
  intros e1 e2 Hs k ? <- t ? <-. unfold get_version, _get_version_at.
  destruct (_check_user_key k) as [k'|]; [|done]. cbn [rbind].
  destruct (if t <? _MAX_TS then _ else _); [|done]. cbn [rbind]. by rewrite (scan_ext e1 e2).
Qed.
#[global] Instance scan_versions_proper :
  Proper (same_rows ==> eq ==> eq ==> eq ==> eq) scan_versions.
Proof.
  intros e1 e2 Hs a ? <- b ? <- t ? <-. unfold scan_versions.
  repeat (destruct (_check_user_key _); [cbn [rbind]|done]). by rewrite (scan_ext e1 e2).
Qed.
#[global] Instance get_newest_lock_proper : Proper (same_rows ==> eq ==> eq) get_newest_lock.
Proof.
  intros e1 e2 Hs k ? <-. unfold get_newest_lock.
  destruct (_check_user_key _); [cbn [rbind]|done]. by rewrite (scan_ext e1 e2).
Qed.
#[global] Instance get_latest_write_proper : Proper (same_rows ==> eq ==> eq) get_latest_write.
Proof.
  intros e1 e2 Hs k ? <-. unfold get_latest_write.
  destruct (_check_user_key _); [cbn [rbind]|done]. by rewrite (scan_ext e1 e2).
Qed.
#[global] Instance iter_locks_proper : Proper (same_rows ==> eq) iter_locks.
Proof. intros e1 e2 Hs. unfold iter_locks. by rewrite (scan_ext e1 e2). Qed.

(** *** Snapshots *)

Lemma unpack_rows_payload (rows : list row) :
  unpack_rows (map (λ r : row, PList [PBytes r.1; PBytes r.2]) rows) = (rows, None).
Proof. induction rows as [|[k v] rows IH]; simpl; [done|]. by rewrite IH. Qed.

(** A well-formed keyspace lies inside the bounds of a snapshot. *)
Lemma wf_in_all e k : wf e → in_range _ALL_START k _ALL_END = false → e_get e k = None.
Proof.
  intros Hwf Hr. destruct (e_get e k) as [v|] eqn:Hg; [|done].
  destruct (Hwf k) as (ns&k'&ts&Hns&_&_&->); [by eexists|]. by rewrite row_in_all in Hr.
Qed.

(** What [load] makes of the bytes [dump] produced. *)
Lemma load_dump e1 e2 data :
  wf e1 → wf e2 → dump e1 = Ok data →
  ∃ e', load data e2 = (e', Ok tt) ∧ wf e' ∧ same_rows e' e1.
Proof.
  intros Hwf1 Hwf2 Hd. unfold load.
  pose proof (packb_not_empty _ _ Hd) as Hne. destruct data as [|b data]; [by destruct Hne|].
  rewrite (unpackb_packb _ _ Hd). unfold rows_payload. cbn iota. rewrite unpack_rows_payload.
  assert (Hs : same_rows (e_put_batch (e_delete_range e2 _ALL_START _ALL_END)
                            (e_scan e1 _ALL_START _ALL_END)) e1).
  { intros k. rewrite get_restore_range. destruct (in_range _ _ _) eqn:Hr; [done|].
    by rewrite !wf_in_all. }
  eexists. split_and!; [done| |done]. by apply (wf_proper e1); [symmetry|].
Qed.

(** A snapshot restores the keyspace.  Loading what [dump] produced, into any
    well-formed storage, succeeds and leaves exactly the rows that were dumped: older
    rows of the loading storage - a lock the snapshot had already resolved among them -
    are gone, and every versioned, lock and write-record read answers as on the source. *)
Theorem dump_load_restores e1 e2 data :
  wf e1 → wf e2 → dump e1 = Ok data →
  ∃ e', load data e2 = (e', Ok tt) ∧ wf e' ∧ same_rows e' e1.
Proof. exact (load_dump e1 e2 data). Qed.

End facts.
