(* ===== verification/StateMachine.v ===== *)
(** The replicated state machine of [raft/state_machine.py]: the commands of the log,
    applied to the MVCC storage, and the reads a node serves from it.

    [apply] takes the clock as an argument, because [_apply_prewrite] reads it. *)

From Stdlib Require Import ZArith Lia.
From S2P Require Import Prelude Bytes PyVal Engine Mvcc.
Import MVCCStorage.

Module CommandType.
Definition SET : bytes := b_ "SET".
Definition DELETE : bytes := b_ "DELETE".
Definition PREWRITE : bytes := b_ "PREWRITE".
Definition COMMIT : bytes := b_ "COMMIT".
Definition ROLLBACK : bytes := b_ "ROLLBACK".
Definition CLEAN_LOCK : bytes := b_ "CLEAN_LOCK".
End CommandType.

Module ErrorCode.
Definition SUCCESS : Z := 0.
Definition ERR_UNKNOWN : Z := 1.
Definition ERR_APPLY_ERROR : Z := 2.
Definition ERR_LOCKED : Z := 101.
Definition ERR_WRITE_CONFLICT : Z := 102.
Definition ERR_NO_LOCK : Z := 201.
Definition ERR_TIMESTAMP_MISMATCH : Z := 202.
Definition ERR_LOCK_STATUS_INVALID : Z := 203.
Definition ERR_NOT_LEADER : Z := 301.
Definition ERR_LEADERSHIP_LOST : Z := 302.
Definition ERR_TIMEOUT : Z := 303.
Definition ERR_ENTRY_OVERWRITTEN : Z := 304.
Definition ERR_SPLIT_IN_PROGRESS : Z := 305.
Definition ERR_MIGRATING : Z := 306.
End ErrorCode.

(** A proposal's answer; the message is prose and is left out. *)
Record ApplyResult := {
  ar_success : bool;
  ar_error_code : option Z;
  ar_data : option bytes;
  ar_index : option Z
}.

Definition apply_success (data : option bytes) : ApplyResult :=
  {| ar_success := true; ar_error_code := Some ErrorCode.SUCCESS; ar_data := data;
     ar_index := None |}.
Definition apply_failure (code : Z) : ApplyResult :=
  {| ar_success := false; ar_error_code := Some code; ar_data := None; ar_index := None |}.

(** A read's answer: [rr_value] is [PNone] for a key that is not there. *)
Record ReadResult := {
  rr_success : bool;
  rr_value : pyval;
  rr_commit_ts : Z;
  rr_error_code : option Z;
  rr_read_index : option Z
}.

Definition read_success (value : pyval) (commit_ts : Z) : ReadResult :=
  {| rr_success := true; rr_value := value; rr_commit_ts := commit_ts;
     rr_error_code := None; rr_read_index := None |}.
Definition read_failure (code : Z) : ReadResult :=
  {| rr_success := false; rr_value := PNone; rr_commit_ts := 0;
     rr_error_code := Some code; rr_read_index := None |}.
Definition read_locked : ReadResult := read_failure ErrorCode.ERR_LOCKED.

Definition is_not_leader (error_code : option Z) : bool :=
  match error_code with
  | Some c => (c =? ErrorCode.ERR_NOT_LEADER) || (c =? ErrorCode.ERR_LEADERSHIP_LOST)
  | None => false
  end.

Definition DATA_COMMANDS : list bytes := [CommandType.SET; CommandType.DELETE; CommandType.PREWRITE].

(** [v == z] and [z > v] for an integer [z].  A float is in ticks of a nanosecond. *)
Definition py_eq_int (v : pyval) (z : Z) : bool :=
  match v with
  | PFloat t => t =? z * 1000000000
  | _ => match as_int v with Ok z' => z' =? z | Raise _ => false end
  end.
Definition int_gt (z : Z) (v : pyval) : result bool :=
  match v with
  | PFloat t => Ok (z * 1000000000 >? t)
  | _ => let? z' := as_int v in Ok (z >? z')
  end.

Section commands.
Context `{Msgpack}.

Definition serialize_command (cmd_type : bytes) (kwargs : list (string * pyval)) : result bytes :=
  packb (PDict (("type"%string, PBytes cmd_type) :: kwargs)).

(** A command that cannot be read counts as one that adds rows.  The membership test is
    outside the [try]: a kind that cannot be hashed raises. *)
Definition writes_new_data (command : bytes) : result bool :=
  match (let? cmd := unpackb command in py_get cmd "type") with
  | Raise _ => Ok true
  | Ok (PList _) | Ok (PDict _) => Raise TypeError
  | Ok (PBytes kind) => Ok (bool_decide (kind ∈ DATA_COMMANDS))
  | Ok _ => Ok false
  end.
End commands.

Module MVCCStateMachine.
Section machine.
Context {E : Type} `{Engine E} `{Msgpack}.

Record t := { _storage : E; _last_applied_timestamp : Z }.

Definition with_storage (s : t) (e : E) : t :=
  {| _storage := e; _last_applied_timestamp := _last_applied_timestamp s |}.

(** [if timestamp > self._last_applied_timestamp: self._last_applied_timestamp = timestamp]. *)
Definition bump (timestamp : Z) : M t unit := λ s,
  (if timestamp >? _last_applied_timestamp s
   then {| _storage := _storage s; _last_applied_timestamp := timestamp |} else s, Ok tt).

Definition lift {A} (r : result A) : M t A := reads (λ _, r).
Definition on_storage {A} (f : E → result A) : M t A := reads (λ s, f (_storage s)).
Definition write_storage (f : E → result E) : M t unit :=
  updates (λ s, let? e := f (_storage s) in Ok (with_storage s e)).

Definition _apply_set (cmd : pyval) : M t ApplyResult :=
  let* key := lift (py_get cmd "key") in
  let* value := lift (py_get cmd "value") in
  let* last := reads (λ s, Ok (_last_applied_timestamp s)) in
  let* timestamp := lift (py_get_or cmd "timestamp" (PInt (last + 1))) in
  let* k := lift (as_bytes key) in
  let* ts := lift (as_int timestamp) in
  let* v := lift (py_bytes value) in
  write_storage (λ e, set e k v ts);;;
  let* start_ts := lift (py_get cmd "start_ts") in
  (if decide (start_ts = PNone) then ret tt
   else let* sts := lift (as_int start_ts) in
        write_storage (λ e, write_write_record e k sts ts));;;
  bump ts;;;
  ret (apply_success None).

Definition _apply_delete (cmd : pyval) : M t ApplyResult :=
  let* key := lift (py_get cmd "key") in
  let* last := reads (λ s, Ok (_last_applied_timestamp s)) in
  let* timestamp := lift (py_get_or cmd "timestamp" (PInt (last + 1))) in
  let* k := lift (as_bytes key) in
  let* ts := lift (as_int timestamp) in
  write_storage (λ e, delete e k ts);;;
  bump ts;;;
  ret (apply_success None).

Definition _apply_prewrite (now : Z) (cmd : pyval) : M t ApplyResult :=
  let* key := lift (py_get cmd "key") in
  let* value := lift (py_get cmd "value") in
  let* start_ts := lift (py_get cmd "start_ts") in
  let* primary_key := lift (py_get cmd "primary_key") in
  let* k := lift (as_bytes key) in
  let* lock := on_storage (λ e, get_newest_lock e k) in
  if (match lock with
      | Some l => bool_decide (lk_status l = PBytes LockStatus.LOCKED)
      | None => false
      end)
  then ret (apply_failure ErrorCode.ERR_LOCKED)
  else
  let* existing_write := on_storage (λ e, get_latest_write e k) in
  let* newer_write := lift (match existing_write with
                            | Some w => int_gt (wr_commit_ts w) start_ts
                            | None => Ok false
                            end) in
  if (newer_write : bool) then ret (apply_failure ErrorCode.ERR_WRITE_CONFLICT)
  else
  let* existing_version := on_storage (λ e, get_latest_version e k) in
  let* newer_version := lift (match existing_version with
                              | Some r => int_gt (mr_timestamp r) start_ts
                              | None => Ok false
                              end) in
  if (newer_version : bool) then ret (apply_failure ErrorCode.ERR_WRITE_CONFLICT)
  else
  let* pk := lift (py_bytes primary_key) in
  let* v := lift (py_bytes value) in
  let* sts := lift (as_int start_ts) in
  write_storage (λ e, put_lock e k sts LockStatus.LOCKED pk now v);;;
  ret (apply_success None).

Definition _apply_commit (cmd : pyval) : M t ApplyResult :=
  let* key := lift (py_get cmd "key") in
  let* start_ts := lift (py_get cmd "start_ts") in
  let* commit_ts := lift (py_get cmd "commit_ts") in
  let* k := lift (as_bytes key) in
  let* sts := lift (as_int start_ts) in
  let* lock := on_storage (λ e, get_lock e k sts) in
  match lock with
  | None =>
      let* newest := on_storage (λ e, get_newest_lock e k) in
      match newest with
      | None => ret (apply_failure ErrorCode.ERR_NO_LOCK)
      | Some _ => ret (apply_failure ErrorCode.ERR_TIMESTAMP_MISMATCH)
      end
  | Some lock =>
      if decide (lk_status lock ≠ PBytes LockStatus.LOCKED)
      then ret (apply_failure ErrorCode.ERR_LOCK_STATUS_INVALID)
      else
      let* cts := lift (as_int commit_ts) in
      let* v := lift (py_bytes (lk_value lock)) in
      write_storage (λ e, set e k v cts);;;
      write_storage (λ e, write_write_record e k sts cts);;;
      write_storage (λ e, remove_lock e k sts);;;
      bump cts;;;
      ret (apply_success None)
  end.

Definition _apply_rollback (cmd : pyval) : M t ApplyResult :=
  let* key := lift (py_get cmd "key") in
  let* start_ts := lift (py_get cmd "start_ts") in
  let* k := lift (as_bytes key) in
  let* sts := lift (as_int start_ts) in
  let* lock := on_storage (λ e, get_lock e k sts) in
  match lock with
  | None =>
      let* newest := on_storage (λ e, get_newest_lock e k) in
      match newest with
      | None => ret (apply_success None)
      | Some _ => ret (apply_failure ErrorCode.ERR_TIMESTAMP_MISMATCH)
      end
  | Some _ =>
      write_storage (λ e, remove_lock e k sts);;;
      ret (apply_success None)
  end.

Definition _apply_clean_lock (cmd : pyval) : M t ApplyResult :=
  let* key := lift (py_get cmd "key") in
  let* start_ts := lift (py_get cmd "start_ts") in
  let* k := lift (as_bytes key) in
  let* lock := on_storage (λ e, get_newest_lock e k) in
  match lock with
  | None => ret (apply_success None)
  | Some l =>
      (if bool_decide (start_ts = PNone) || py_eq_int start_ts (lk_start_ts l)
       then write_storage (λ e, remove_lock e k (lk_start_ts l))
       else ret tt);;;
      ret (apply_success None)
  end.

(** The dispatch of [apply], inside its [try]. *)
Definition dispatch (now : Z) (cmd : pyval) : M t ApplyResult :=
  let* cmd_type := lift (py_get cmd "type") in
  if decide (cmd_type = PBytes CommandType.SET) then _apply_set cmd
  else if decide (cmd_type = PBytes CommandType.DELETE) then _apply_delete cmd
  else if decide (cmd_type = PBytes CommandType.PREWRITE) then _apply_prewrite now cmd
  else if decide (cmd_type = PBytes CommandType.COMMIT) then _apply_commit cmd
  else if decide (cmd_type = PBytes CommandType.ROLLBACK) then _apply_rollback cmd
  else if decide (cmd_type = PBytes CommandType.CLEAN_LOCK) then _apply_clean_lock cmd
  else ret (apply_failure 1).

(** [apply]: whatever is raised becomes an apply error; what was written before the
    exception stays written. *)
Definition apply (now : Z) (command : bytes) (s : t) : t * ApplyResult :=
  match bind (lift (unpackb command)) (dispatch now) s with
  | (s', Ok r) => (s', r)
  | (s', Raise _) => (s', apply_failure 2)
  end.

(** *** Reads *)

Definition get (s : t) (key : bytes) (timestamp : option Z) : result ReadResult :=
  let? lock := get_newest_lock (_storage s) key in
  let read := 
    let read_timestamp := default (_last_applied_timestamp s) timestamp in
    let? version := get_version (_storage s) key read_timestamp in
    match version with
    | None => Ok (read_success PNone 0)
    | Some r => Ok (read_success (PBytes (mr_value r)) (mr_timestamp r))
    end in
  match lock, timestamp with
  | None, _ => read
  | Some _, None => Ok read_locked
  | Some l, Some ts =>
      if lk_start_ts l =? ts then Ok (read_success (lk_value l) 0)
      else if lk_start_ts l <? ts then Ok read_locked
      else read
  end.

(** The loop over [iter_locks]: the rows, with the reader's own intents put in. *)
Fixpoint scan_locks (start_key end_key : bytes) (timestamp : option Z)
    (rows : gmap bytes (pyval * Z)) (locks : list (bytes * Lock))
    : result (gmap bytes (pyval * Z)) :=
  match locks with
  | [] => Ok rows
  | (key, lock) :: locks =>
      if negb (in_range start_key key end_key)
      then scan_locks start_key end_key timestamp rows locks
      else
      let blocked := match timestamp with
                     | None => true
                     | Some ts => lk_start_ts lock <? ts
                     end in
      if (blocked : bool) then Raise (ScanRefused ErrorCode.ERR_LOCKED (Some key) None)
      else
      let rows := match timestamp with
                  | Some ts => if lk_start_ts lock =? ts
                               then <[key := (lk_value lock, 0)]> rows else rows
                  | None => rows
                  end in
      scan_locks start_key end_key timestamp rows locks
  end.

Definition item_le (a b : bytes * (pyval * Z)) : Prop := ble a.1 b.1 = true.
#[global] Instance item_le_dec : RelDecision item_le.
Proof. intros a b. unfold item_le. apply _. Defined.

Definition scan_versions (s : t) (start_key end_key : bytes) (timestamp : option Z)
    : result (list (bytes * pyval * Z)) :=
  let read_timestamp := default (_last_applied_timestamp s) timestamp in
  let? versions := MVCCStorage.scan_versions (_storage s) start_key end_key read_timestamp in
  let rows : gmap bytes (pyval * Z) :=
    foldl (λ m r, <[r.1.1 := (PBytes r.1.2, r.2)]> m) ∅ versions in
  let? locks := iter_locks (_storage s) in
  let? rows := scan_locks start_key end_key timestamp rows locks in
  Ok (map (λ i, (i.1, i.2.1, i.2.2)) (merge_sort item_le (map_to_list rows))).

Definition scan (s : t) (start_key end_key : bytes) (timestamp : option Z)
    : result (list (bytes * pyval)) :=
  let? rows := scan_versions s start_key end_key timestamp in
  Ok (map fst rows).

Definition get_lock_status (s : t) (key : bytes) : result (option Lock) :=
  get_newest_lock (_storage s) key.

Definition get_write_record (s : t) (key : bytes) : result (option WriteRecord) :=
  get_latest_write (_storage s) key.

(** *** Snapshots *)

Definition snapshot (s : t) : result bytes :=
  let? storage := dump (_storage s) in
  packb (PDict [("ts"%string, PInt (_last_applied_timestamp s)); ("storage"%string, PBytes storage)]).

Definition load_storage (data : bytes) : M t unit := λ s,
  let '(e, r) := load data (_storage s) in (with_storage s e, r).

Definition restore (data : bytes) : M t unit :=
  match data with
  | [] =>
      load_storage [];;;
      (λ s, ({| _storage := _storage s; _last_applied_timestamp := 0 |}, Ok tt))
  | _ =>
      let* record := lift (unpackb data) in
      let* storage := lift (py_index record "storage") in
      let* blob := lift (as_bytes storage) in
      load_storage blob;;;
      let* ts := lift (py_index record "ts") in
      let* z := lift (as_int ts) in
      (λ s, ({| _storage := _storage s; _last_applied_timestamp := z |}, Ok tt))
  end.

End machine.
Arguments t : clear implicits.
End MVCCStateMachine.
Import MVCCStateMachine.

Abbreviation mk e ts := {| _storage := e; _last_applied_timestamp := ts |}.

(** ** What a command can do to the machine

    [sm_step] lists the changes of state a command can make.  Every handler makes one of
    them ([dispatch_step]), so a property of the machine is proved once per change. *)

Section steps.
Context {E : Type} `{EngineLaws E} `{!Msgpack}.
Abbreviation sm := (MVCCStateMachine.t E).
Implicit Types s : sm.

Lemma lift_inv {A B} (r : result A) (k : A → M sm B) s s' q :
  bind (lift r) k s = (s', q) →
  (∃ a, r = Ok a ∧ k a s = (s', q)) ∨ (∃ x, r = Raise x ∧ s' = s ∧ q = Raise x).
Proof. unfold bind, lift, reads. destruct r; naive_solver. Qed.

Lemma reads_inv {A B} (f : sm → result A) (k : A → M sm B) s s' q :
  bind (reads f) k s = (s', q) →
  (∃ a, f s = Ok a ∧ k a s = (s', q)) ∨ (∃ x, f s = Raise x ∧ s' = s ∧ q = Raise x).
Proof. unfold bind, reads. destruct (f s); naive_solver. Qed.

Lemma on_storage_inv {A B} (f : E → result A) (k : A → M sm B) s s' q :
  bind (on_storage f) k s = (s', q) →
  (∃ a, f (_storage s) = Ok a ∧ k a s = (s', q)) ∨
  (∃ x, f (_storage s) = Raise x ∧ s' = s ∧ q = Raise x).
Proof. unfold bind, on_storage, reads. destruct (f _); naive_solver. Qed.

Lemma write_inv {B} (f : E → result E) (k : unit → M sm B) s s' q :
  bind (write_storage f) k s = (s', q) →
  (∃ e, f (_storage s) = Ok e ∧ k tt (with_storage s e) = (s', q)) ∨
  (∃ x, f (_storage s) = Raise x ∧ s' = s ∧ q = Raise x).
Proof. unfold bind, write_storage, updates. destruct (f _); simpl; naive_solver. Qed.

(** Run one step of a handler forward. *)
Lemma lift_run {A B} (a : A) (r : result A) (k : A → M sm B) s :
  r = Ok a → bind (lift r) k s = k a s.
Proof. intros ->. done. Qed.

Lemma on_run {A B} (a : A) (f : E → result A) (k : A → M sm B) s :
  f (_storage s) = Ok a → bind (on_storage f) k s = k a s.
Proof. unfold bind, on_storage, reads. by intros ->. Qed.

Lemma write_run {B} (e : E) (f : E → result E) (k : unit → M sm B) s :
  f (_storage s) = Ok e → bind (write_storage f) k s = k tt (with_storage s e).
Proof. unfold bind, write_storage, updates. by intros ->. Qed.

(** The changes. *)
Inductive sm_step : sm → sm → Prop :=
  | st_same s : sm_step s s
  | st_set e last k v ts e' :
      set e k v ts = Ok e' →
      sm_step (mk e last) (mk e' (Z.max ts last))
  | st_set_rec e last k v ts sts e' e'' :
      set e k v ts = Ok e' → write_write_record e' k sts ts = Ok e'' →
      sm_step (mk e last) (mk e'' (Z.max ts last))
  | st_set_half e last k v ts sts e' x :
      set e k v ts = Ok e' →
      (as_int sts = Raise x ∨ ∃ z, as_int sts = Ok z ∧ write_write_record e' k z ts = Raise x) →
      sm_step (mk e last) (mk e' last)
  | st_delete e last k ts e' :
      delete e k ts = Ok e' → sm_step (mk e last) (mk e' (Z.max ts last))
  | st_lock e last k sts pk now v e' lock :
      get_newest_lock e k = Ok lock →
      match lock with Some l => lk_status l ≠ PBytes LockStatus.LOCKED | None => True end →
      put_lock e k sts LockStatus.LOCKED pk now v = Ok e' →
      sm_step (mk e last) (mk e' last)
  | st_commit e last k sts cts lock v e1 e2 e3 :
      get_lock e k sts = Ok (Some lock) → py_bytes (lk_value lock) = Ok v →
      set e k v cts = Ok e1 → write_write_record e1 k sts cts = Ok e2 →
      remove_lock e2 k sts = Ok e3 →
      sm_step (mk e last) (mk e3 (Z.max cts last))
  | st_unlock e last k sts lock e' :
      (get_lock e k sts = Ok (Some lock) ∨ get_newest_lock e k = Ok (Some lock) ∧ sts = lk_start_ts lock) →
      remove_lock e k sts = Ok e' →
      sm_step (mk e last) (mk e' last).

Lemma bump_run {B} ts (k : unit → M sm B) e last :
  bind (bump ts) k (mk e last) = k tt (mk e (Z.max ts last)).
Proof.
  unfold bind, bump. cbn. rewrite Z.gtb_ltb.
  destruct (Z.ltb_spec last ts); [by rewrite Z.max_l by lia | by rewrite Z.max_r by lia].
Qed.

End steps.

(** Run a handler forward through one hypothesis, closing the branches that raised. *)
Ltac mrun H :=
  repeat (cbv beta in H;
   lazymatch type of H with
   | bind (lift _) _ _ = _ => apply lift_inv in H as [(? & ? & H)|(? & ? & -> & ->)]
   | bind (on_storage _) _ _ = _ => apply on_storage_inv in H as [(? & ? & H)|(? & ? & -> & ->)]
   | bind (reads _) _ _ = _ => apply reads_inv in H as [(? & ? & H)|(? & ? & -> & ->)]
   | bind (write_storage _) _ _ = _ => apply write_inv in H as [(? & ? & H)|(? & ? & -> & ->)]
   end; [|try solve [constructor | reflexivity]]).

Section handlers.
Context {E : Type} `{EngineLaws E} `{!Msgpack}.
Abbreviation sm := (MVCCStateMachine.t E).
Implicit Types s : sm.

Lemma set_then_record e k v ts sts e' :
  set e k v ts = Ok e' → valid_ts sts → is_Ok (write_write_record (E := E) e' k sts ts).
Proof.
  intros (Hk&Ht&_)%set_Ok Hs. eexists. by apply write_write_record_Ok.
Qed.

Lemma get_lock_valid (e : E) k sts l : get_lock e k sts = Ok l → no_sep k ∧ valid_ts sts.
Proof.
  unfold get_lock. intros (k'&Hk&(b&Hb&_)%rbind_Ok)%rbind_Ok.
  apply check_key_Ok in Hk as [? _]. apply ts_bytes_Ok in Hb as [? _]. done.
Qed.

Lemma remove_lock_total (e : E) k sts :
  no_sep k → valid_ts sts → remove_lock e k sts = Ok (e_delete e (row_key x04 k sts)).
Proof. intros. by apply remove_lock_Ok. Qed.

Ltac cbn_sm := unfold with_storage in *; cbn [_storage _last_applied_timestamp] in *.

Lemma apply_set_step cmd s s' r : _apply_set cmd s = (s', r) → sm_step s s'.
Proof.
  destruct s as [e last]. unfold _apply_set. intros Hr. mrun Hr; [|by destruct cmd].
  cbn_sm. case_decide.
  - rewrite bind_ret, bump_run in Hr. injection Hr as <- <-. by eapply st_set.
  - rewrite bind_assoc in Hr. mrun Hr; cbn_sm.
    + rewrite bump_run in Hr. injection Hr as <- <-. by eapply st_set_rec.
    + by eapply st_set_half; [|right; eauto].
    + by eapply st_set_half; [|left].
Qed.

Lemma apply_delete_step cmd s s' r : _apply_delete cmd s = (s', r) → sm_step s s'.
Proof.
  destruct s as [e last]. unfold _apply_delete. intros Hr. mrun Hr. cbn_sm.
  rewrite bump_run in Hr. injection Hr as <- <-. by eapply st_delete.
Qed.

Lemma apply_prewrite_step now cmd s s' r : _apply_prewrite now cmd s = (s', r) → sm_step s s'.
Proof.
  destruct s as [e last]. unfold _apply_prewrite. intros Hr. mrun Hr. cbn_sm.
  destruct (match _ with Some _ => _ | None => _ end) eqn:Hlock.
  { injection Hr as <- <-. constructor. }
  mrun Hr. case_match. { injection Hr as <- <-. constructor. }
  mrun Hr. case_match. { injection Hr as <- <-. constructor. }
  mrun Hr. cbn_sm. injection Hr as <- <-. eapply st_lock; [done| |done].
  match goal with |- match ?l with _ => _ end => destruct l end; [|done].
  by apply bool_decide_eq_false in Hlock.
Qed.

Lemma apply_commit_step cmd s s' r : _apply_commit cmd s = (s', r) → sm_step s s'.
Proof.
  destruct s as [e last]. unfold _apply_commit. intros Hr. mrun Hr. cbn_sm.
  case_match; last first.
  { mrun Hr. case_match; injection Hr as <- <-; constructor. }
  case_decide. { injection Hr as <- <-. constructor. }
  mrun Hr; cbn_sm.
  - rewrite bump_run in Hr. injection Hr as <- <-. by eapply st_commit.
  - match goal with Hg : get_lock _ _ _ = Ok _, Hr : remove_lock _ _ _ = Raise _ |- _ =>
      apply get_lock_valid in Hg as [??]; by rewrite remove_lock_total in Hr end.
  - match goal with Hg : get_lock _ _ _ = Ok _, Hs : set _ _ _ _ = Ok _,
        Hr : write_write_record _ _ _ _ = Raise _ |- _ =>
      apply get_lock_valid in Hg as [??];
      destruct (set_then_record _ _ _ _ _ _ Hs ltac:(done)) as [??]; congruence end.
Qed.

Lemma apply_rollback_step cmd s s' r : _apply_rollback cmd s = (s', r) → sm_step s s'.
Proof.
  destruct s as [e last]. unfold _apply_rollback. intros Hr. mrun Hr. cbn_sm.
  case_match; last first.
  { mrun Hr. case_match; injection Hr as <- <-; constructor. }
  mrun Hr. cbn_sm. injection Hr as <- <-. by eapply st_unlock; [left|].
Qed.

Lemma apply_clean_lock_step cmd s s' r : _apply_clean_lock cmd s = (s', r) → sm_step s s'.
Proof.
  destruct s as [e last]. unfold _apply_clean_lock. intros Hr. mrun Hr. cbn_sm.
  case_match; [|injection Hr as <- <-; constructor].
  destruct (_ || _); [|rewrite bind_ret in Hr; injection Hr as <- <-; constructor].
  mrun Hr. cbn_sm. injection Hr as <- <-. by eapply st_unlock; [right|].
Qed.

(** Every command makes one of the changes, or none. *)
Lemma dispatch_step now cmd s s' r : dispatch now cmd s = (s', r) → sm_step s s'.
Proof.
  unfold dispatch. intros Hr. mrun Hr.
  repeat case_decide; eauto using apply_set_step, apply_delete_step, apply_prewrite_step,
    apply_commit_step, apply_rollback_step, apply_clean_lock_step.
  injection Hr as <- <-. constructor.
Qed.

Lemma apply_step now command s : sm_step s (apply now command s).1.
Proof.
  unfold apply. destruct (bind _ _ s) as [s' r] eqn:Hr.
  assert (sm_step s s') as Hs.
  { mrun Hr. by eapply dispatch_step. }
  by destruct r.
Qed.

End handlers.

(** ** The invariant of the machine's storage *)

Section invariant.
Context {E : Type} `{EngineLaws E} `{!Msgpack}.
Abbreviation sm := (MVCCStateMachine.t E).
Implicit Types s : sm.
Implicit Types e : E.

(** Every lock is a LOCKED record, a key has at most one, a version is a tombstone or a
    value, a write record holds a 64-bit start timestamp and has its version beside it. *)
Record store_inv e : Prop := {
  inv_wf : wf e;
  inv_lock k ts raw : no_sep k → entry e x04 k ts = Some raw →
    ∃ pk lt v, packb (lock_payload LockStatus.LOCKED pk lt v) = Ok raw;
  inv_one k ts1 ts2 : no_sep k → is_Some (entry e x04 k ts1) → is_Some (entry e x04 k ts2) →
    ts1 = ts2;
  inv_version k ts raw : no_sep k → entry e x01 k ts = Some raw →
    raw = [x00] ∨ ∃ v, raw = x01 :: v;
  inv_record k ts raw : no_sep k → entry e x03 k ts = Some raw →
    (∃ sts, valid_ts sts ∧ raw = be_bytes 8 sts) ∧ is_Some (entry e x01 k ts)
}.

(** No version is newer than the timestamp a read without one is served at. *)
Definition all_applied s : Prop := ∀ k ts,
  no_sep k → is_Some (entry (_storage s) x01 k ts) → ts ≤ _last_applied_timestamp s.

(** Rewrite the entries of an updated engine by cases on the row. *)
Ltac entry_cases :=
  repeat match goal with
  | H : context [entry (e_put _ _ _) _ _ _] |- _ => rewrite row_key_put in H by done
  | H : context [entry (e_delete _ _) _ _ _] |- _ => rewrite row_key_delete in H by done
  | |- context [entry (e_put _ _ _) _ _ _] => rewrite row_key_put by done
  | |- context [entry (e_delete _ _) _ _ _] => rewrite row_key_delete by done
  | _ => case_decide
  | _ => progress destruct_and?
  | _ => progress simplify_eq
  end.

Lemma store_inv_version e k ts raw :
  store_inv e → no_sep k → valid_ts ts → (raw = [x00] ∨ ∃ v, raw = x01 :: v) →
  store_inv (e_put e (row_key x01 k ts) raw).
Proof.
  intros [Hwf Hl Ho Hv Hr] Hk Ht Hraw. split.
  - apply wf_put; try done. unfold ns_ok; auto.
  - intros k' ts' raw' Hk'. entry_cases; eauto.
  - intros k' ts1 ts2 Hk'. entry_cases; eauto.
  - intros k' ts' raw' Hk'. entry_cases; eauto. by intros [= <-].
  - intros k' ts' raw' Hk' He. entry_cases; eauto. apply Hr in He as [? ?]; done || eauto.
Qed.

Lemma store_inv_record e k sts ts :
  store_inv e → no_sep k → valid_ts ts → valid_ts sts → is_Some (entry e x01 k ts) →
  store_inv (e_put e (row_key x03 k ts) (be_bytes 8 sts)).
Proof.
  intros [Hwf Hl Ho Hv Hr] Hk Ht Hs Hsome. split.
  - apply wf_put; try done. unfold ns_ok; auto.
  - intros k' ts' raw' Hk'. entry_cases; eauto.
  - intros k' ts1 ts2 Hk'. entry_cases; eauto.
  - intros k' ts' raw' Hk'. entry_cases; eauto.
  - intros k' ts' raw' Hk' He. entry_cases; eauto.
Qed.

Lemma store_inv_lock e k ts p pk lt v :
  store_inv e → no_sep k → valid_ts ts → (∀ ts', entry e x04 k ts' = None) →
  packb (lock_payload LockStatus.LOCKED pk lt v) = Ok p →
  store_inv (e_put e (row_key x04 k ts) p).
Proof.
  intros [Hwf Hl Ho Hv Hr] Hk Ht Hnone Hp. split.
  - apply wf_put; try done. unfold ns_ok; auto.
  - intros k' ts' raw' Hk' He. entry_cases; eauto.
  - intros k' ts1 ts2 Hk' [r1 He1] [r2 He2]. entry_cases; rewrite ?Hnone in *; try done.
    eapply (Ho k'); by eauto.
  - intros k' ts' raw' Hk'. entry_cases; eauto.
  - intros k' ts' raw' Hk' He. entry_cases; eauto.
Qed.

Lemma store_inv_unlock e k ts :
  store_inv e → no_sep k → valid_ts ts → store_inv (e_delete e (row_key x04 k ts)).
Proof.
  intros [Hwf Hl Ho Hv Hr] Hk Ht. split.
  - by apply wf_delete.
  - intros k' ts' raw' Hk' He. entry_cases; eauto.
  - intros k' ts1 ts2 Hk' [r1 He1] [r2 He2]. entry_cases; try done. eapply (Ho k'); by eauto.
  - intros k' ts' raw' Hk' He. entry_cases; eauto.
  - intros k' ts' raw' Hk' He. entry_cases; eauto.
Qed.

(** Under the invariant a lock found is a LOCKED one. *)
Lemma store_inv_newest_lock e k :
  store_inv e → no_sep k →
  (∀ ts, entry e x04 k ts = None) ∧ get_newest_lock e k = Ok None ∨
  ∃ ts pk lt v, is_Some (entry e x04 k ts) ∧ valid_ts ts ∧
    (∀ ts', ts' ≠ ts → entry e x04 k ts' = None) ∧
    get_newest_lock e k = Ok (Some {| lk_status := PBytes LockStatus.LOCKED;
      lk_primary_key := PBytes pk; lk_lock_time := PFloat lt; lk_value := PBytes v;
      lk_key := k; lk_start_ts := ts |}).
Proof.
  intros [Hwf Hl Ho _ _] Hk. destruct (newest_exists e x04 k Hwf Hk) as (r&Hr).
  rewrite (get_newest_lock_newest e k r) by done.
  destruct r as [[ts raw]|]; [right|by left].
  destruct (Hl k ts raw Hk (proj1 Hr)) as (pk&lt&v&Hp).
  exists ts, pk, lt, v. split_and!; [by eexists; apply Hr|by eapply newest_valid| |].
  - intros ts' Hne. destruct (entry e x04 k ts') eqn:He; [|done]. destruct Hne.
    apply (Ho k); [done|by eexists|by eexists; apply Hr].
  - by apply decode_lock_payload.
Qed.

(** The whole storage invariant is kept by every change of state. *)
Lemma sm_step_inv s s' : sm_step s s' → store_inv (_storage s) → store_inv (_storage s').
Proof.
  intros Hstep Hi. destruct Hstep; cbn [_storage] in *; try done;
    repeat match goal with
    | Hs : set _ _ _ _ = Ok _ |- _ => apply set_Ok in Hs as (?&?&->)
    | Hs : delete _ _ _ = Ok _ |- _ => apply delete_Ok in Hs as (?&?&->)
    | Hs : write_write_record _ _ _ _ = Ok _ |- _ => apply write_write_record_Ok in Hs as (?&?&?&->)
    | Hs : remove_lock _ _ _ = Ok _ |- _ => apply remove_lock_Ok in Hs as (?&?&->)
    | Hs : put_lock _ _ _ _ _ _ _ = Ok _ |- _ => apply put_lock_Ok in Hs as (?&?&?&?&->)
    end.
  - apply store_inv_version; eauto.
  - apply store_inv_record; [|done..|entry_cases; naive_solver]. apply store_inv_version; eauto.
  - apply store_inv_version; eauto.
  - apply store_inv_version; eauto.
  - eapply store_inv_lock; [done..| |done].
    destruct (store_inv_newest_lock e k) as [[??]|(?&?&?&?&?&?&?&Hl)]; [done..|].
    match goal with Hg : get_newest_lock e k = Ok lock |- _ => rewrite Hg in Hl end.
    by simplify_eq/=.
  - apply store_inv_unlock; [|done..]. apply store_inv_record; [|done..|entry_cases; naive_solver].
    apply store_inv_version; eauto.
  - by apply store_inv_unlock.
Qed.

(** C4: The machine's invariant survives any log.  Whatever bytes are applied, at whatever
    clock readings, starting from storage that satisfies it: every lock record decodes and
    is LOCKED, no key ever holds two locks, every version row is a value or a tombstone,
    and every write record names a 64-bit start timestamp and has its version. *)
Theorem apply_keeps_invariant log s :
  store_inv (_storage s) →
  store_inv (_storage (foldl (λ s c, (apply c.1 c.2 s).1) s log)).
Proof.
  revert s. induction log as [|c log IH]; intros s Hi; [done|]. cbn [foldl].
  apply IH. eapply sm_step_inv; [apply apply_step|done].
Qed.

End invariant.

(** ** The commands clients build *)

(** What the coordinator, the resolver, the copy of a row and the SQL layer put in the log. *)
Inductive op :=
  | OSet (key value : bytes) (timestamp : Z) (start_ts : option Z)
  | ODelete (key : bytes) (timestamp : Z)
  | OPrewrite (key value : bytes) (start_ts : Z) (primary_key : bytes)
  | OCommit (key : bytes) (start_ts commit_ts : Z)
  | ORollback (key : bytes) (start_ts : Z)
  | OCleanLock (key : bytes) (start_ts : option Z).

Definition op_type (o : op) : bytes :=
  match o with
  | OSet _ _ _ _ => CommandType.SET
  | ODelete _ _ => CommandType.DELETE
  | OPrewrite _ _ _ _ => CommandType.PREWRITE
  | OCommit _ _ _ => CommandType.COMMIT
  | ORollback _ _ => CommandType.ROLLBACK
  | OCleanLock _ _ => CommandType.CLEAN_LOCK
  end.

Local Open Scope string_scope.
(** The keyword arguments of [serialize_command]. *)
Definition op_kwargs (o : op) : list (string * pyval) :=
  match o with
  | OSet k v ts None => [("key", PBytes k); ("value", PBytes v); ("timestamp", PInt ts)]
  | OSet k v ts (Some sts) =>
      [("key", PBytes k); ("value", PBytes v); ("timestamp", PInt ts); ("start_ts", PInt sts)]
  | ODelete k ts => [("key", PBytes k); ("timestamp", PInt ts)]
  | OPrewrite k v sts pk =>
      [("key", PBytes k); ("value", PBytes v); ("start_ts", PInt sts); ("primary_key", PBytes pk)]
  | OCommit k sts cts => [("key", PBytes k); ("start_ts", PInt sts); ("commit_ts", PInt cts)]
  | ORollback k sts => [("key", PBytes k); ("start_ts", PInt sts)]
  | OCleanLock k None => [("key", PBytes k); ("start_ts", PNone)]
  | OCleanLock k (Some sts) => [("key", PBytes k); ("start_ts", PInt sts)]
  end.
Local Close Scope string_scope.

Definition op_cmd (o : op) : pyval := PDict (("type"%string, PBytes (op_type o)) :: op_kwargs o).

Section client.
Context {E : Type} `{EngineLaws E} `{!Msgpack}.
Abbreviation sm := (MVCCStateMachine.t E).
Implicit Types s : sm.
Implicit Types e : E.

(** [apply] of a command a client built. *)
Definition apply_op (now : Z) (o : op) (s : sm) : sm * ApplyResult :=
  match dispatch now (op_cmd o) s with
  | (s', Ok r) => (s', r)
  | (s', Raise _) => (s', apply_failure 2)
  end.

Lemma apply_serialized now o b s :
  serialize_command (op_type o) (op_kwargs o) = Ok b → apply now b s = apply_op now o s.
Proof.
  intros Hb. unfold apply, apply_op, serialize_command in *.
  unfold bind at 1, lift at 1, reads. by rewrite (unpackb_packb _ _ Hb).
Qed.

Lemma apply_op_step now o s : sm_step s (apply_op now o s).1.
Proof.
  unfold apply_op. destruct (dispatch _ _ s) as [s' r] eqn:Hr.
  apply dispatch_step in Hr. by destruct r.
Qed.

(** The dispatch of a client's command. *)
Lemma dispatch_op now o s :
  dispatch now (op_cmd o) s =
  match o with
  | OSet _ _ _ _ => _apply_set (op_cmd o) s
  | ODelete _ _ => _apply_delete (op_cmd o) s
  | OPrewrite _ _ _ _ => _apply_prewrite now (op_cmd o) s
  | OCommit _ _ _ => _apply_commit (op_cmd o) s
  | ORollback _ _ => _apply_rollback (op_cmd o) s
  | OCleanLock _ _ => _apply_clean_lock (op_cmd o) s
  end.
Proof.
  unfold dispatch. rewrite (lift_run (PBytes (op_type o))) by done.
  destruct o; cbn [op_type]; rewrite ?decide_False by done; by rewrite ?decide_True.
Qed.

(** The last three steps of a PREWRITE, for a key with no lock. *)
Lemma prewrite_conflict_checks e k sts w r :
  store_inv e → no_sep k → newest e x03 k w → newest e x01 k r →
  let newer := match w with Some (ts, _) => ts >? sts | None => false end
               || match r with Some (ts, _) => ts >? sts | None => false end in
  if newer then ∃ ts, sts < ts ∧ is_Some (entry e x01 k ts)
  else ∀ ts, sts < ts → entry e x01 k ts = None.
Proof.
  intros Hi Hk Hw Hr. destruct w as [[tw raww]|], r as [[tr rawr]|]; simpl in *;
    rewrite ?Z.gtb_ltb; repeat (match goal with |- context [?a <? ?b] => destruct (Z.ltb_spec a b) end; simpl);
    try (exists tw; split; [lia|]; by eapply (inv_record _ Hi), Hw);
    try (exists tr; split; [lia|]; by eexists; apply Hr).
  - intros ts Hlt. apply Hr. lia.
  - intros ts Hlt. apply Hr.
  - intros ts Hlt. apply Hr. lia.
  - intros ts Hlt. apply Hr.
Qed.

(** A PREWRITE, on every branch. *)
Lemma apply_prewrite_run now k v sts pk e last :
  store_inv e → no_sep k → valid_ts sts →
  is_Ok (packb (lock_payload LockStatus.LOCKED pk now v)) →
  (∃ ts, is_Some (entry e x04 k ts)) ∧
    apply_op now (OPrewrite k v sts pk) (mk e last) = (mk e last, apply_failure 101) ∨
  (∀ ts, entry e x04 k ts = None) ∧ (∃ ts, sts < ts ∧ is_Some (entry e x01 k ts)) ∧
    apply_op now (OPrewrite k v sts pk) (mk e last) = (mk e last, apply_failure 102) ∨
  (∀ ts, entry e x04 k ts = None) ∧ (∀ ts, sts < ts → entry e x01 k ts = None) ∧
    ∃ p, packb (lock_payload LockStatus.LOCKED pk now v) = Ok p ∧
    apply_op now (OPrewrite k v sts pk) (mk e last)
    = (mk (e_put e (row_key x04 k sts) p) last, apply_success None).
Proof.
  intros Hi Hk Hs [p Hp]. unfold apply_op. rewrite dispatch_op. unfold _apply_prewrite.
  rewrite (lift_run (PBytes k)), (lift_run (PBytes v)), (lift_run (PInt sts)),
    (lift_run (PBytes pk)), (lift_run k) by done.
  destruct (store_inv_newest_lock e k Hi Hk) as [[Hnone Hl]|(ts&pk'&lt&v'&Hsome&_&_&Hl)].
  2: { left. split; [eauto|]. erewrite on_run by exact Hl. done. }
  right. erewrite on_run by exact Hl.
  destruct (newest_exists e x03 k (inv_wf _ Hi) Hk) as (w&Hw).
  destruct (newest_exists e x01 k (inv_wf _ Hi) Hk) as (r&Hr).
  pose proof (prewrite_conflict_checks e k sts w r Hi Hk Hw Hr) as Hc. simpl in Hc.
  erewrite on_run by exact (get_latest_write_newest e k w (inv_wf _ Hi) Hk Hw).
  rewrite (lift_run (match w with Some (ts, _) => ts >? sts | None => false end))
    by (by destruct w as [[??]|]).
  destruct (match w with Some _ => _ | None => _ end); simpl in Hc; [by left|].
  erewrite on_run by exact (get_latest_version_newest e k r (inv_wf _ Hi) Hk Hr).
  rewrite (lift_run (match r with Some (ts, _) => ts >? sts | None => false end)).
  2: { destruct r as [[ts raw]|]; [|done].
       by destruct (inv_version _ Hi k ts raw Hk (proj1 Hr)) as [->|[? ->]]. }
  destruct (match r with Some _ => _ | None => _ end); [by left|].
  right. split_and!; [done..|]. exists p. split; [done|].
  rewrite (lift_run pk), (lift_run v), (lift_run sts) by done.
  rewrite (write_run (e_put e (row_key x04 k sts) p)); [done|].
  apply put_lock_Ok. eauto.
Qed.

(** What a commit does to the rows: the version, its write record, and the lock gone. *)
Definition publish e (k v : bytes) (sts cts : Z) : E :=
  e_delete (e_put (e_put e (row_key x01 k cts) (x01 :: v)) (row_key x03 k cts) (be_bytes 8 sts))
    (row_key x04 k sts).

Lemma lock_held e k sts raw :
  store_inv e → no_sep k → entry e x04 k sts = Some raw →
  valid_ts sts ∧ ∃ pk lt v, packb (lock_payload LockStatus.LOCKED pk lt v) = Ok raw ∧
    get_lock e k sts = Ok (Some {| lk_status := PBytes LockStatus.LOCKED;
      lk_primary_key := PBytes pk; lk_lock_time := PFloat lt; lk_value := PBytes v;
      lk_key := k; lk_start_ts := sts |}).
Proof.
  intros Hi Hk He. pose proof He as [Hv _]%entry_valid. split; [done|].
  destruct (inv_lock _ Hi _ _ _ Hk He) as (pk&lt&v&Hp). exists pk, lt, v. split; [done|].
  rewrite get_lock_entry, He by done. by apply decode_lock_payload.
Qed.

Lemma apply_commit_run now k sts cts pk lt v raw e last :
  store_inv e → no_sep k → valid_ts cts →
  entry e x04 k sts = Some raw → packb (lock_payload LockStatus.LOCKED pk lt v) = Ok raw →
  apply_op now (OCommit k sts cts) (mk e last)
  = (mk (publish e k v sts cts) (Z.max cts last), apply_success None).
Proof.
  intros Hi Hk Hc He Hp. pose proof He as [Hv _]%entry_valid.
  unfold apply_op. rewrite dispatch_op. unfold _apply_commit.
  rewrite (lift_run (PBytes k)), (lift_run (PInt sts)), (lift_run (PInt cts)), (lift_run k),
    (lift_run sts) by done.
  erewrite on_run; last first.
  { rewrite get_lock_entry by done. cbn [_storage]. rewrite He. by apply decode_lock_payload. }
  cbn [lk_status lk_value]. rewrite decide_False by naive_solver.
  rewrite (lift_run cts), (lift_run v) by done.
  erewrite write_run by (by apply set_Ok).
  erewrite write_run by (by apply write_write_record_Ok).
  erewrite write_run by (by apply remove_lock_Ok).
  unfold with_storage. cbn [_storage _last_applied_timestamp]. by rewrite bump_run.
Qed.

Lemma no_lock_run now o k sts e last :
  store_inv e → no_sep k → valid_ts sts → entry e x04 k sts = None →
  (o = ORollback k sts ∨ ∃ cts, o = OCommit k sts cts) →
  apply_op now o (mk e last) = (mk e last,
    if bool_decide (get_newest_lock e k = Ok None)
    then match o with OCommit _ _ _ => apply_failure 201 | _ => apply_success None end
    else apply_failure 202).
Proof.
  intros Hi Hk Hs He Ho. unfold apply_op. rewrite dispatch_op.
  assert (Hg : get_lock e k sts = Ok None) by (by rewrite get_lock_entry, He).
  assert (∃ l, get_newest_lock e k = Ok l) as [l Hl].
  { destruct (store_inv_newest_lock e k Hi Hk) as [[_ ->]|(?&?&?&?&_&_&_&->)]; eauto. }
  destruct Ho as [->|[cts ->]]; unfold _apply_rollback, _apply_commit;
    rewrite (lift_run (PBytes k)), (lift_run (PInt sts)) by done;
    rewrite ?(lift_run (PInt cts)) by done;
    rewrite (lift_run k), (lift_run sts) by done;
    erewrite on_run by exact Hg; cbn iota; erewrite on_run by exact Hl; rewrite Hl; by destruct l.
Qed.

Lemma apply_rollback_run now k sts raw e last :
  store_inv e → no_sep k → entry e x04 k sts = Some raw →
  apply_op now (ORollback k sts) (mk e last)
  = (mk (e_delete e (row_key x04 k sts)) last, apply_success None).
Proof.
  intros Hi Hk He. destruct (lock_held _ _ _ _ Hi Hk He) as (Hv&pk&lt&v&_&Hg).
  unfold apply_op. rewrite dispatch_op. unfold _apply_rollback.
  rewrite (lift_run (PBytes k)), (lift_run (PInt sts)), (lift_run k), (lift_run sts) by done.
  erewrite on_run by exact Hg. cbn iota. by erewrite write_run by (by apply remove_lock_Ok).
Qed.

(** ** Theorems about transactions on one machine *)

(** C22: Admission of a PREWRITE.  On storage that satisfies the invariant, a PREWRITE of a
    legal key is accepted exactly when the key holds no lock and has no version newer than
    the transaction's start timestamp; then the lock, with its value and its primary key,
    is the key's only lock, and no other key's locks and no version of any key change.
    Otherwise nothing changes and the refusal is [ERR_LOCKED] if the key holds a lock, and
    [ERR_WRITE_CONFLICT] if it holds none and has a newer version. *)
Theorem prewrite_admission now k v sts pk e last :
  store_inv e → no_sep k → valid_ts sts →
  packable (lock_payload LockStatus.LOCKED pk now v) = true →
  let '(s', r) := apply_op now (OPrewrite k v sts pk) (mk e last) in
  (ar_success r = true ↔ (∀ ts, entry e x04 k ts = None) ∧ ∀ ts, sts < ts → hist e k ts = None) ∧
  (ar_success r = true →
     get_newest_lock (_storage s') k = Ok (Some {| lk_status := PBytes LockStatus.LOCKED;
       lk_primary_key := PBytes pk; lk_lock_time := PFloat now; lk_value := PBytes v;
       lk_key := k; lk_start_ts := sts |}) ∧
     (∀ ts, ts ≠ sts → entry (_storage s') x04 k ts = None) ∧
     (∀ k' ts, no_sep k' → k' ≠ k → entry (_storage s') x04 k' ts = entry e x04 k' ts) ∧
     ∀ k' ts, no_sep k' → hist (_storage s') k' ts = hist e k' ts) ∧
  (ar_success r = false → s' = mk e last ∧
     (((∃ ts, is_Some (entry e x04 k ts)) ∧ ar_error_code r = Some ErrorCode.ERR_LOCKED) ∨
      ((∀ ts, entry e x04 k ts = None) ∧ (∃ ts, sts < ts ∧ hist e k ts ≠ None) ∧
       ar_error_code r = Some ErrorCode.ERR_WRITE_CONFLICT))).
Proof.
  intros Hi Hk Hs Hp%packb_packable.
  destruct (apply_prewrite_run now k v sts pk e last Hi Hk Hs Hp)
    as [[[ts [??]] ->]|[(Hn&(ts&Hlt&[raw He])&->)|(Hn&Hv&p&Hp'&->)]]; split_and!; try done; try (by auto).
  - split; [done|]. intros [Hno _]. by rewrite Hno in *.
  - intros _. split; [done|]. left. split; [by exists ts|done].
  - split; [done|]. intros [_ Hno]. specialize (Hno ts Hlt). apply hist_None in Hno. congruence.
  - intros _. split; [done|]. right. split_and!; [done| |done]. exists ts. split; [done|].
    intros Hno%hist_None. congruence.
  - split; [|done]. intros _. split; [done|]. intros ts Hlt. by apply hist_None, Hv.
  - intros _. cbn [_storage]. split_and!.
    + rewrite (get_newest_lock_newest _ _ (Some (sts, p))); [by apply decode_lock_payload| |done|].
      * apply wf_put; [by apply inv_wf|unfold ns_ok; auto|done..].
      * split; rewrite ?row_key_put by done; [by rewrite decide_True|].
        intros ts' Hlt. rewrite row_key_put by done. rewrite decide_False by naive_solver lia. done.
    + intros ts Hne. rewrite row_key_put by done. by rewrite decide_False by naive_solver.
    + intros k' ts Hk' Hne. rewrite row_key_put by done. by rewrite decide_False by naive_solver.
    + intros k' ts Hk'. unfold hist. rewrite row_key_put by done. by rewrite decide_False by naive_solver.
Qed.

(** C23: A COMMIT publishes exactly what was prewritten.  When the key holds this
    transaction's lock, the commit succeeds, the lock's value becomes the version at the
    commit timestamp, no other version of any key changes, the lock is gone, and the write
    record at the commit timestamp names the transaction.  Without that lock nothing
    changes and the refusal tells "no lock" (201) from "somebody else's lock" (202). *)
Theorem commit_publishes now k sts cts e last :
  store_inv e → no_sep k → valid_ts sts → valid_ts cts →
  let '(s', r) := apply_op now (OCommit k sts cts) (mk e last) in
  match get_lock e k sts with
  | Ok (Some lock) =>
      r = apply_success None ∧ _last_applied_timestamp s' = Z.max cts last ∧
      (∃ v, lk_value lock = PBytes v ∧ ∀ k' ts, no_sep k' →
         hist (_storage s') k' ts = if decide (k = k' ∧ cts = ts) then Some (Some v) else hist e k' ts) ∧
      get_newest_lock (_storage s') k = Ok None ∧
      entry (_storage s') x03 k cts = Some (be_bytes 8 sts)
  | _ => s' = mk e last ∧ ar_success r = false ∧
         ar_error_code r = Some (if bool_decide (get_newest_lock e k = Ok None)
                                 then ErrorCode.ERR_NO_LOCK else ErrorCode.ERR_TIMESTAMP_MISMATCH)
  end.
Proof.
  intros Hi Hk Hs Hc. destruct (entry e x04 k sts) as [raw|] eqn:He.
  - destruct (lock_held _ _ _ _ Hi Hk He) as (_&pk&lt&v&Hp&Hg). rewrite Hg.
    rewrite (apply_commit_run _ _ _ _ _ _ _ _ _ _ Hi Hk Hc He Hp).
    cbn [_storage _last_applied_timestamp lk_value]. unfold publish. split_and!; try done.
    + exists v. split; [done|]. intros k' ts Hk'. unfold hist.
      rewrite row_key_delete, !row_key_put by done. repeat case_decide; naive_solver.
    + assert (Hi' : store_inv (publish e k v sts cts)).
      { pose proof (apply_op_step now (OCommit k sts cts) (mk e last)) as Hst.
        rewrite (apply_commit_run _ _ _ _ _ _ _ _ _ _ Hi Hk Hc He Hp) in Hst.
        by apply sm_step_inv in Hst. }
      rewrite (get_newest_lock_newest _ _ None); [done|by apply inv_wf|done|].
      intros ts. rewrite row_key_delete, !row_key_put by done.
      destruct (decide (ts = sts)) as [->|Hne]; [by rewrite decide_True|].
      rewrite !decide_False by naive_solver. destruct (entry e x04 k ts) eqn:He'; [|done].
      destruct Hne. eapply (inv_one _ Hi k); [done|by eexists..].
    + rewrite row_key_delete, !row_key_put by done.
      rewrite decide_False by naive_solver. by rewrite decide_True.
  - rewrite (no_lock_run now (OCommit k sts cts) k sts) by eauto.
    rewrite get_lock_entry, He by done. cbn. by case_bool_decide.
Qed.

End client.
