(* ===== verification/StateMachineFacts.v ===== *)
(** What the replicated machine of [StateMachine.v] promises its readers and its replicas:
    refused commands change nothing, snapshots are stable, a read without a timestamp is
    the newest, range reads agree with point reads, a snapshot restores the machine, and
    replicas that apply one log agree. *)

From Stdlib Require Import ZArith Lia.
From S2P Require Import Prelude Bytes PyVal Engine Mvcc StateMachine.
Import MVCCStorage MVCCStateMachine.

Section facts.
Context {E : Type} `{EngineLaws E} `{!Msgpack}.
Abbreviation sm := (MVCCStateMachine.t E).
Implicit Types s : sm.
Implicit Types e : E.

(** ** Commands as changes of the history *)

(** SET and DELETE, on every branch. *)
Lemma apply_set_run now k v ts osts e last :
  apply_op now (OSet k v ts osts) (mk e last) =
  match set e k v ts with
  | Raise _ => (mk e last, apply_failure 2)
  | Ok e1 =>
      match osts with
      | None => (mk e1 (Z.max ts last), apply_success None)
      | Some sts =>
          match write_write_record e1 k sts ts with
          | Ok e2 => (mk e2 (Z.max ts last), apply_success None)
          | Raise _ => (mk e1 last, apply_failure 2)
          end
      end
  end.
Proof.
  unfold apply_op. rewrite dispatch_op. unfold _apply_set. destruct osts as [sts|];
    rewrite (lift_run (PBytes k)), (lift_run (PBytes v)) by done;
    rewrite (bind_run (reads _) _ _ (mk e last) last) by done;
    rewrite (lift_run (PInt ts)), (lift_run k), (lift_run ts), (lift_run v) by done;
    (destruct (set e k v ts) as [e1|x] eqn:Hs;
     [rewrite (write_run e1) by done
     |by rewrite (bind_raise _ _ _ (mk e last) x) by (unfold write_storage, updates; cbn [_storage]; by rewrite Hs)]);
    unfold with_storage; cbn [_storage _last_applied_timestamp].
  - rewrite (lift_run (PInt sts)) by done. rewrite decide_False by done. rewrite bind_assoc.
    rewrite (lift_run sts) by done.
    destruct (write_write_record e1 k sts ts) as [e2|x] eqn:Hw.
    + rewrite (write_run e2) by done. unfold with_storage. cbn [_storage _last_applied_timestamp].
      by rewrite bump_run.
    + by rewrite (bind_raise _ _ _ (mk e1 last) x)
        by (unfold write_storage, updates; cbn [_storage]; by rewrite Hw).
  - rewrite (lift_run PNone) by done. rewrite decide_True by done. by rewrite bind_ret, bump_run.
Qed.

Lemma apply_delete_run now k ts e last :
  apply_op now (ODelete k ts) (mk e last) =
  match delete e k ts with
  | Raise _ => (mk e last, apply_failure 2)
  | Ok e1 => (mk e1 (Z.max ts last), apply_success None)
  end.
Proof.
  unfold apply_op. rewrite dispatch_op. unfold _apply_delete.
  rewrite (lift_run (PBytes k)) by done.
  rewrite (bind_run (reads _) _ _ (mk e last) last) by done.
  rewrite (lift_run (PInt ts)), (lift_run k), (lift_run ts) by done.
  destruct (delete e k ts) as [e1|x] eqn:Hs.
  - rewrite (write_run e1) by done. unfold with_storage. cbn [_storage _last_applied_timestamp].
    by rewrite bump_run.
  - by rewrite (bind_raise _ _ _ (mk e last) x)
      by (unfold write_storage, updates; cbn [_storage]; by rewrite Hs).
Qed.

(** The timestamp a command writes versions at, if it writes any. *)
Definition op_ts (o : op) : option Z :=
  match o with
  | OSet _ _ ts _ | ODelete _ ts | OCommit _ _ ts => Some ts
  | _ => None
  end.

(** What a handler that writes no version may do. *)
Record quiet s s' : Prop := {
  q_versions k ts : no_sep k → entry (_storage s') x01 k ts = entry (_storage s) x01 k ts;
  q_last : _last_applied_timestamp s' = _last_applied_timestamp s
}.
#[global] Instance quiet_refl : Reflexive quiet.
Proof. by split. Qed.

Ltac cbn_sm := unfold with_storage in *; cbn [_storage _last_applied_timestamp] in *.

Lemma prewrite_quiet now cmd s s' r :
  _apply_prewrite now cmd s = (s', r) →
  quiet s s' ∧ (s' = s ∨ r = Ok (apply_success None)).
Proof.
  destruct s as [e last]. unfold _apply_prewrite. intros Hr.
  assert (∀ (r' : result ApplyResult), quiet (mk e last) (mk e last) ∧ (mk e last = mk e last ∨ r' = Ok (apply_success None)))
    as Hsame by (intros; split; [done|by left]).
  mrun Hr; try apply Hsame. destruct (match _ with Some _ => _ | None => _ end).
  { injection Hr as <- <-. apply Hsame. }
  mrun Hr; try apply Hsame. case_match. { injection Hr as <- <-. apply Hsame. }
  mrun Hr; try apply Hsame. case_match. { injection Hr as <- <-. apply Hsame. }
  mrun Hr; try apply Hsame. cbn_sm. injection Hr as <- <-. split; [|by right].
  match goal with Hp : put_lock _ _ _ _ _ _ _ = Ok _ |- _ => apply put_lock_Ok in Hp as (?&?&p&_&->) end.
  split; [|done]. intros. cbn. rewrite row_key_put by done. by rewrite decide_False by naive_solver.
Qed.

Lemma unlock_quiet e last k sts e' :
  remove_lock e k sts = Ok e' → quiet (mk e last) (mk e' last).
Proof.
  intros (?&?&->)%remove_lock_Ok. split; [|done]. intros. cbn.
  rewrite row_key_delete by done. by rewrite decide_False by naive_solver.
Qed.

Lemma rollback_quiet cmd s s' r :
  _apply_rollback cmd s = (s', r) → quiet s s' ∧ (s' = s ∨ r = Ok (apply_success None)).
Proof.
  destruct s as [e last]. unfold _apply_rollback. intros Hr.
  mrun Hr; try (split; [done|by left]). cbn_sm. case_match.
  - mrun Hr; try (split; [done|by left]). injection Hr as <- <-. split; [|by right].
    by eapply unlock_quiet.
  - mrun Hr; try (split; [done|by left]). case_match; injection Hr as <- <-; (split; [done|by left]).
Qed.

Lemma clean_lock_quiet cmd s s' r :
  _apply_clean_lock cmd s = (s', r) → quiet s s' ∧ (s' = s ∨ r = Ok (apply_success None)).
Proof.
  destruct s as [e last]. unfold _apply_clean_lock. intros Hr.
  mrun Hr; try (split; [done|by left]). cbn_sm.
  case_match; [|injection Hr as <- <-; split; [done|by left]].
  destruct (_ || _); [|rewrite bind_ret in Hr; injection Hr as <- <-; split; [done|by left]].
  mrun Hr; try (split; [done|by left]). injection Hr as <- <-. split; [|by right].
  by eapply unlock_quiet.
Qed.

(** A COMMIT either changes nothing or publishes one version at its timestamp. *)
Lemma commit_effect now k sts cts s s' r :
  apply_op now (OCommit k sts cts) s = (s', r) →
  (s' = s ∧ ar_success r = false) ∨
  r = apply_success None ∧ no_sep k ∧ valid_ts cts ∧ ∃ v,
    s' = mk (publish (_storage s) k v sts cts) (Z.max cts (_last_applied_timestamp s)).
Proof.
  destruct s as [e last]. unfold apply_op. rewrite dispatch_op. unfold _apply_commit.
  rewrite (lift_run (PBytes k)), (lift_run (PInt sts)), (lift_run (PInt cts)), (lift_run k),
    (lift_run sts) by done.
  destruct (get_lock e k sts) as [[lock|]|x] eqn:Hg.
  - pose proof (get_lock_valid _ _ _ _ Hg) as [Hk Hs]. erewrite on_run by exact Hg. cbn iota.
    case_decide. { intros [= <- <-]. by left. }
    rewrite (lift_run cts) by done.
    destruct (py_bytes (lk_value lock)) as [v|x]; [|intros [= <- <-]; by left].
    rewrite (lift_run v) by done.
    destruct (decide (valid_ts cts)) as [Hc|Hc].
    + erewrite write_run by (by apply set_Ok).
      erewrite write_run by (by apply write_write_record_Ok).
      erewrite write_run by (by apply remove_lock_Ok).
      cbn_sm. rewrite bump_run. intros [= <- <-]. right. split_and!; eauto.
    + assert (∃ x, set e k v cts = Raise x) as [x Hx].
      { eexists. apply set_refuses. by right. }
      rewrite (bind_raise _ _ _ (mk e last) x)
        by (unfold write_storage, updates; cbn [_storage]; by rewrite Hx).
      intros [= <- <-]. by left.
  - erewrite on_run by exact Hg. cbn iota.
    destruct (get_newest_lock e k) as [l|x] eqn:Hl.
    + erewrite on_run by exact Hl. destruct l; intros [= <- <-]; by left.
    + rewrite (bind_raise _ _ _ (mk e last) x)
        by (unfold on_storage, reads; cbn [_storage]; by rewrite Hl).
      intros [= <- <-]. by left.
  - rewrite (bind_raise _ _ _ (mk e last) x)
      by (unfold on_storage, reads; cbn [_storage]; by rewrite Hg).
    intros [= <- <-]. by left.
Qed.

(** A command whose write record, if it carries one, has a 64-bit start timestamp. *)
Definition op_ok (o : op) : Prop :=
  match o with OSet _ _ _ (Some sts) => valid_ts sts | _ => True end.

Lemma quiet_apply_op now o s s' r :
  apply_op now o s = (s', r) → op_ts o = None → quiet s s' ∧ (s' = s ∨ r = apply_success None).
Proof.
  unfold apply_op. rewrite dispatch_op. destruct o; try done; intros Hr _;
    match type of Hr with context [let (_, _) := ?x in _] => destruct x as [s1 r1] eqn:Hb end;
    [apply prewrite_quiet in Hb|apply rollback_quiet in Hb|apply clean_lock_quiet in Hb];
    destruct Hb as [Hq Hs]; destruct r1; injection Hr as <- <-; split; try done;
    destruct Hs as [->|?]; [by left|right; congruence|by left|done
                           |by left|right; congruence|by left|done
                           |by left|right; congruence|by left|done].
Qed.

(** The shape of a command's effect on versions: none, or one version at its timestamp. *)
Lemma apply_op_versions now o s s' r :
  apply_op now o s = (s', r) →
  (∀ k ts, no_sep k → op_ts o ≠ Some ts →
     entry (_storage s') x01 k ts = entry (_storage s) x01 k ts) ∧
  (∀ k ts, no_sep k → is_Some (entry (_storage s) x01 k ts) → is_Some (entry (_storage s') x01 k ts)).
Proof.
  intros Hr. destruct (op_ts o) as [w|] eqn:Ho.
  2: { destruct (quiet_apply_op _ _ _ _ _ Hr Ho) as [[Hq _] _]. split; intros; [auto|]. by rewrite Hq. }
  destruct s as [e last]. destruct o; try done; injection Ho as ->.
  - rewrite apply_set_run in Hr. destruct (set e key value w) as [e1|] eqn:Hs; [|by injection Hr as <- <-].
    apply set_Ok in Hs as (Hk&Hw&->).
    assert (Hput : ∀ k ts, no_sep k → Some w ≠ Some ts →
      entry (e_put e (row_key x01 key w) (x01 :: value)) x01 k ts = entry e x01 k ts).
    { intros. rewrite row_key_put by done. by rewrite decide_False by naive_solver. }
    assert (Hsome : ∀ k ts, no_sep k → is_Some (entry e x01 k ts) →
      is_Some (entry (e_put e (row_key x01 key w) (x01 :: value)) x01 k ts)).
    { intros. rewrite row_key_put by done. case_decide; [by eexists|done]. }
    destruct start_ts as [sts|]; [|by injection Hr as <- <-].
    destruct (write_write_record _ key sts w) as [e2|] eqn:Hw2; [|by injection Hr as <- <-].
    apply write_write_record_Ok in Hw2 as (_&_&_&->). injection Hr as <- <-.
    split; intros; cbn; rewrite row_key_put by done; rewrite decide_False by naive_solver; auto.
  - rewrite apply_delete_run in Hr. destruct (delete e key w) as [e1|] eqn:Hs; [|by injection Hr as <- <-].
    apply delete_Ok in Hs as (Hk&Hw&->). injection Hr as <- <-. cbn.
    split; intros; rewrite row_key_put by done; [by rewrite decide_False by naive_solver|].
    case_decide; [by eexists|done].
  - apply commit_effect in Hr as [[-> _]|(_&Hk&Hc&v&->)]; [done|]. cbn. unfold publish.
    assert (∀ e k ts, no_sep k → entry (e_delete e (row_key x04 key start_ts)) x01 k ts = entry e x01 k ts).
    { intros e' k ts Hk'. unfold entry. rewrite get_delete. case_decide; [|done].
      rewrite decide_False; [done|]. unfold row_key. naive_solver. }
    split; intros; rewrite H2, !row_key_put by done; rewrite (decide_False (P := x03 = x01 ∧ _)) by naive_solver.
    + by rewrite decide_False by naive_solver.
    + case_decide; [by eexists|done].
Qed.

(** The machine after a log of commands, each with the clock reading it was applied at. *)
Definition run_log (log : list (Z * op)) s : sm := foldl (λ s c, (apply_op c.1 c.2 s).1) s log.

Lemma run_log_ind (P : sm → Prop) log s :
  P s → (∀ c s, c ∈ log → P s → P (apply_op c.1 c.2 s).1) → P (run_log log s).
Proof.
  unfold run_log. revert s. induction log as [|c log IH]; intros s Hs Hstep; [done|]. cbn [foldl].
  apply IH; [apply Hstep; [left|done]|]. intros c' s' Hc. apply Hstep. by right.
Qed.

Lemma run_log_inv log s : store_inv (_storage s) → store_inv (_storage (run_log log s)).
Proof.
  intros Hi. apply (run_log_ind (λ s, store_inv (_storage s))); [done|].
  intros c s' _ Hs'. eapply sm_step_inv; [apply apply_op_step|done].
Qed.

(** What a refusal leaves behind. *)
Lemma refused_op now o s :
  op_ok o → ar_success (apply_op now o s).2 = false → (apply_op now o s).1 = s.
Proof.
  destruct (apply_op now o s) as [s' r] eqn:Hr. cbn. intros Hok Hf.
  destruct (op_ts o) as [w|] eqn:Ho.
  2: { destruct (quiet_apply_op _ _ _ _ _ Hr Ho) as [_ [?| ->]]; done. }
  destruct s as [e last]. destruct o; try done.
  - rewrite apply_set_run in Hr. destruct (set e _ _ _) as [e1|] eqn:Hs; [|by injection Hr as <- <-].
    destruct start_ts as [sts|]; [|by injection Hr as <- <-].
    destruct (set_then_record _ _ _ _ sts _ Hs Hok) as [e2 He2]. rewrite He2 in Hr.
    by injection Hr as <- <-.
  - rewrite apply_delete_run in Hr. destruct (delete e _ _); by injection Hr as <- <-.
  - apply commit_effect in Hr as [[? _]|(->&_)]; done.
Qed.

(** A refused command changes nothing.  Every command a client builds - with a 64-bit
    start timestamp when it moves a write record with a row - either succeeds or leaves
    the machine exactly as it was, whatever the refusal: a lock, a conflict, no lock, an
    illegal key, a timestamp out of range. *)
Theorem refused_command_changes_nothing now o s :
  op_ok o → ar_success (apply_op now o s).2 = false → (apply_op now o s).1 = s.
Proof. exact (refused_op now o s). Qed.

(** C11: Snapshots are stable.  Whatever commands are applied afterwards, as long as the
    versions they publish are newer than [t], a read of any key at [t] answers what it
    answered before: value, version and absence. *)
Theorem snapshot_read_stable log s k t :
  store_inv (_storage s) → no_sep k → -1 ≤ t →
  (∀ c w, c ∈ log → op_ts c.2 = Some w → t < w) →
  get_version (_storage (run_log log s)) k t = get_version (_storage s) k t.
Proof.
  intros Hi Hk Ht Hlog.
  assert (Hsame : ∀ ts, ts ≤ t → hist (_storage (run_log log s)) k ts = hist (_storage s) k ts).
  { apply (run_log_ind (λ s', ∀ ts, ts ≤ t → hist (_storage s') k ts = hist (_storage s) k ts)); [done|].
    intros [now o] s' Hc Hs' ts Hts. cbn. destruct (apply_op now o s') as [s'' r] eqn:Hr.
    apply apply_op_versions in Hr as [Hv _]. rewrite <-Hs' by done. unfold hist. cbn.
    rewrite Hv; [done|done|]. intros Ho. specialize (Hlog _ _ Hc Ho). lia. }
  apply get_version_same_history; [by apply inv_wf|apply inv_wf; by apply run_log_inv|done..].
Qed.

(** C1: No lost update.  Once a version of a key is published at [cts], every PREWRITE of
    that key by a transaction that started before [cts] is refused, whatever has been
    applied in between. *)
Theorem no_lost_update log s now k v sts pk cts :
  store_inv (_storage s) → no_sep k → valid_ts sts → sts < cts →
  packable (lock_payload LockStatus.LOCKED pk now v) = true →
  hist (_storage s) k cts ≠ None →
  ar_success (apply_op now (OPrewrite k v sts pk) (run_log log s)).2 = false.
Proof.
  intros Hi Hk Hs Hlt Hp%packb_packable Hsome.
  assert (is_Some (entry (_storage (run_log log s)) x01 k cts)) as [raw Hraw].
  { apply (run_log_ind (λ s', is_Some (entry (_storage s') x01 k cts))).
    - apply not_eq_None_Some. by rewrite <-hist_None.
    - intros [n o] s' _ Hs'. destruct (apply_op n o s') as [s'' r] eqn:Hr. cbn. rewrite Hr.
      apply apply_op_versions in Hr as [_ Hm]. by apply Hm. }
  pose proof (run_log_inv log s Hi) as Hi'. destruct (run_log log s) as [e last].
  destruct (apply_prewrite_run now k v sts pk e last Hi' Hk Hs Hp)
    as [[_ ->]|[(_&_&->)|(_&Hn&_)]]; [done..|]. cbn in Hraw. by rewrite Hn in Hraw.
Qed.

(** Versions stay at or below the timestamp of the newest write. *)
Lemma all_applied_op now o s : op_ok o → all_applied s → all_applied (apply_op now o s).1.
Proof.
  intros Hok Ha k ts Hk. destruct (apply_op now o s) as [s' r] eqn:Hr. cbn.
  pose proof (refused_op now o s Hok) as Hf. rewrite Hr in Hf. cbn in Hf.
  destruct (ar_success r) eqn:Hsucc; [|rewrite Hf by done; by apply Ha].
  pose proof (apply_op_versions _ _ _ _ _ Hr) as [Hv _].
  destruct (op_ts o) as [w|] eqn:Ho.
  2: { destruct (quiet_apply_op _ _ _ _ _ Hr Ho) as [[Hq ->] _]. rewrite Hq by done. by apply Ha. }
  assert (_last_applied_timestamp s' = Z.max w (_last_applied_timestamp s)) as ->.
  { destruct s as [e last]. destruct o; try done; injection Ho as ->.
    - rewrite apply_set_run in Hr. repeat case_match; by simplify_eq.
    - rewrite apply_delete_run in Hr. repeat case_match; by simplify_eq.
    - apply commit_effect in Hr as [[_ ?]|(_&_&_&v&->)]; [congruence|done]. }
  intros Hsome. destruct (decide (w = ts)) as [->|Hne]; [lia|].
  rewrite Hv in Hsome by congruence. apply Ha in Hsome; [lia|done].
Qed.

(** ** Reads *)

(** The answer a read gives for what is visible. *)
Definition read_answer (o : option (bytes * Z)) : ReadResult :=
  match o with Some (v, ts) => read_success (PBytes v) ts | None => read_success PNone 0 end.

(** The rule of [get]: which locks block a read, which one is the reader's own. *)
Lemma get_rule s k ots :
  store_inv (_storage s) → no_sep k → -1 ≤ default (_last_applied_timestamp s) ots →
  ∃ o, visible (hist (_storage s) k) (default (_last_applied_timestamp s) ots) o ∧
  get s k ots =
  match get_newest_lock (_storage s) k, ots with
  | Ok (Some _), None => Ok read_locked
  | Ok (Some l), Some t => if lk_start_ts l =? t then Ok (read_success (lk_value l) 0)
                           else if lk_start_ts l <? t then Ok read_locked
                           else Ok (read_answer o)
  | _, _ => Ok (read_answer o)
  end.
Proof.
  intros Hi Hk Ht. set (t := default _ _) in *.
  destruct (get_version_spec (_storage s) k t) as (r&Hr&Hv); [by apply inv_wf|done..|].
  exists (version_of <$> r). split; [done|]. unfold get. fold t. rewrite Hr. cbn [rbind].
  assert (Hans : (match r with
                  | Some r => Ok (read_success (PBytes (mr_value r)) (mr_timestamp r))
                  | None => Ok (read_success PNone 0)
                  end) = Ok (read_answer (version_of <$> r))) by (by destruct r).
  rewrite Hans.
  destruct (store_inv_newest_lock _ k Hi Hk) as [[_ ->]|(?&?&?&?&_&_&_&->)]; cbn [rbind]; by destruct ots.
Qed.

(** A read without a timestamp is the newest.  After any log of well-formed commands,
    a key that holds no lock reads as its newest published version - the version visible
    at every timestamp from the machine's applied timestamp on. *)
Theorem latest_read_is_newest log s0 k :
  store_inv (_storage s0) → all_applied s0 → 0 ≤ _last_applied_timestamp s0 →
  (∀ c, c ∈ log → op_ok c.2) → no_sep k →
  let s := run_log log s0 in
  get_newest_lock (_storage s) k = Ok None →
  ∃ o, get s k None = Ok (read_answer o) ∧
       ∀ t, _last_applied_timestamp s ≤ t → visible (hist (_storage s) k) t o.
Proof.
  intros Hi Ha H0' Hok Hk s Hl.
  assert (all_applied s ∧ 0 ≤ _last_applied_timestamp s) as [Has Hlast].
  { apply (run_log_ind (λ s, all_applied s ∧ 0 ≤ _last_applied_timestamp s)); [done|].
    intros c s' Hc [Ha' Hp]. split; [apply all_applied_op; auto|].
    pose proof (apply_op_step c.1 c.2 s') as Hst. destruct Hst; cbn in *; lia. }
  pose proof (run_log_inv log s0 Hi) as Hi'. fold s in Hi'.
  destruct (get_rule s k None Hi' Hk) as (o&Hv&Hg); [cbn; lia|]. cbn in Hv.
  exists o. rewrite Hg, Hl. split; [done|]. intros t Ht.
  assert (Hnew : ∀ ts, _last_applied_timestamp s < ts → hist (_storage s) k ts = None).
  { intros ts Hlt. apply hist_None. destruct (entry _ x01 k ts) eqn:He; [|done].
    assert (ts ≤ _last_applied_timestamp s) by (apply (Has k); [done|by eexists]). lia. }
  destruct o as [[v ts]|]; cbn in *.
  - destruct Hv as (?&?&Hn). split_and!; [done|lia|]. intros ts' ?.
    destruct (Z.le_gt_cases ts' (_last_applied_timestamp s)); [apply Hn; lia|auto].
  - destruct Hv as [Hn|(ts&?&?&Hn)].
    + left. intros ts ?. destruct (Z.le_gt_cases ts (_last_applied_timestamp s)); auto.
    + right. exists ts. split_and!; [done|lia|]. intros ts' ?.
      destruct (Z.le_gt_cases ts' (_last_applied_timestamp s)); [apply Hn; lia|auto].
Qed.

Lemma decode_locks_spec rows :
  (∀ r, r ∈ rows → ∃ k ts l, valid_ts ts ∧ r.1 = row_key x04 k ts ∧ _decode_lock (Some r.2) k ts = Ok (Some l)) →
  ∃ ls, decode_locks rows = Ok ls ∧
    ∀ k l, (k, l) ∈ ls ↔ ∃ ts raw, valid_ts ts ∧ (row_key x04 k ts, raw) ∈ rows ∧ _decode_lock (Some raw) k ts = Ok (Some l).
Proof.
  induction rows as [|[rk raw] rows IH]; intros Hr.
  { exists []. split; [done|]. intros k l. split; [set_solver|]. intros (?&?&_&?&_). set_solver. }
  destruct IH as (ls&Hls&Hmem); [intros r' ?; apply Hr; by right|].
  destruct (Hr (rk, raw)) as (k&ts&l&Hv&Hrk&Hd); [by left|]. cbn [fst snd] in Hrk, Hd. subst rk.
  cbn [decode_locks]. rewrite split_row_key by done. cbn [rbind]. rewrite Hd. cbn [rbind].
  rewrite Hls. cbn [rbind]. exists ((k, l) :: ls). split; [done|]. intros k' l'.
  rewrite elem_of_cons, Hmem. split.
  - intros [[= -> ->]|(ts'&raw'&?&?&?)]; [exists ts, raw|exists ts', raw']; split_and!; try done; [by left|by right].
  - intros (ts'&raw'&Hv'&[Heq|Hin]%elem_of_cons&Hd'); [left|right; eauto].
    assert (k' = k ∧ ts' = ts ∧ raw' = raw) as (->&->&->); [|congruence].
    apply (f_equal snd) in Heq as Hraw. apply (f_equal fst) in Heq. cbn in Heq, Hraw.
    pose proof (split_row_key x04 k ts Hv) as Hs1. rewrite <-Heq, split_row_key in Hs1 by done.
    naive_solver.
Qed.

Lemma iter_locks_spec e :
  store_inv e →
  ∃ ls, iter_locks e = Ok ls ∧
    ∀ k l, (k, l) ∈ ls ↔ no_sep k ∧ get_newest_lock e k = Ok (Some l).
Proof.
  intros Hi.
  assert (Hrow : ∀ k ts raw, no_sep k → valid_ts ts →
    (row_key x04 k ts, raw) ∈ e_scan e _LOCK [x05] ↔ entry e x04 k ts = Some raw).
  { intros k ts raw Hk Hv. rewrite scan_spec, entry_valid.
    assert (in_range _LOCK (row_key x04 k ts) [x05] = true) as ->; [|tauto].
    unfold in_range, ble, row_key, _LOCK. cbn [blt]. by rewrite !blt_nil_r, !andb_false_r. }
  assert (Hall : ∀ r, r ∈ e_scan e _LOCK [x05] → ∃ k ts, no_sep k ∧ valid_ts ts ∧ r.1 = row_key x04 k ts).
  { intros [rk raw] [Hg Hr]%scan_spec. destruct (inv_wf _ Hi rk) as (ns&k&ts&Hns&Hk&Hv&->); [by eexists|].
    exists k, ts. split_and!; [done..|]. cbn. f_equal. revert Hr.
    unfold in_range, ble, row_key, _LOCK. cbn [blt]. rewrite !blt_nil_r, !andb_false_r.
    destruct Hns as [->|[->| ->]]; done. }
  destruct (decode_locks_spec (e_scan e _LOCK [x05])) as (ls&Hls&Hmem).
  { intros [rk raw] Hin. destruct (Hall _ Hin) as (k&ts&Hk&Hv&Heq). cbn in Heq. subst rk.
    apply Hrow in Hin; [|done..]. destruct (inv_lock _ Hi _ _ _ Hk Hin) as (pk&lt&v&Hp).
    eexists k, ts, _. split_and!; [done..|]. by apply decode_lock_payload. }
  exists ls. split; [done|]. intros k l. rewrite Hmem. split.
  - intros (ts&raw&Hv&Hin&Hd). destruct (Hall _ Hin) as (k'&ts'&Hk'&Hv'&Heq). cbn in Heq.
    assert (k' = k) as ->.
    { pose proof (split_row_key x04 k' ts' Hv') as Hs1. rewrite <-Heq, split_row_key in Hs1 by done.
      naive_solver. }
    split; [done|]. apply Hrow in Hin; [|done..].
    rewrite (get_newest_lock_newest e k (Some (ts, raw))); [done|by apply inv_wf|done|].
    split; [done|]. intros ts2 Hlt. destruct (entry e x04 k ts2) eqn:He; [|done].
    assert (ts2 = ts) by (eapply (inv_one _ Hi k); [done|by eexists..]). lia.
  - intros [Hk Hl]. destruct (newest_exists e x04 k (inv_wf _ Hi) Hk) as (r&Hr).
    rewrite (get_newest_lock_newest e k r (inv_wf _ Hi) Hk Hr) in Hl.
    destruct r as [[ts raw]|]; [|done]. exists ts, raw. split_and!; [by eapply newest_valid| |done].
    apply Hrow; [done|by eapply newest_valid|apply Hr].
Qed.

Definition blocks (ots : option Z) (l : Lock) : bool :=
  match ots with None => true | Some t => lk_start_ts l <? t end.
Definition own (ots : option Z) (l : Lock) : bool :=
  match ots with None => false | Some t => lk_start_ts l =? t end.

Lemma scan_locks_spec a b ots rows ls :
  (∀ k l1 l2, (k, l1) ∈ ls → (k, l2) ∈ ls → l1 = l2) →
  match scan_locks a b ots rows ls with
  | Ok rows' =>
      (∀ k l, (k, l) ∈ ls → in_range a k b = true → blocks ots l = false) ∧
      ∀ k, rows' !! k = rows !! k ∧ (∀ l, (k, l) ∈ ls → in_range a k b = true → own ots l = false)
        ∨ ∃ l, (k, l) ∈ ls ∧ in_range a k b = true ∧ own ots l = true ∧ rows' !! k = Some (lk_value l, 0)
  | Raise x => ∃ k l, (k, l) ∈ ls ∧ in_range a k b = true ∧ blocks ots l = true ∧
                      x = ScanRefused ErrorCode.ERR_LOCKED (Some k) None
  end.
Proof.
  revert rows. induction ls as [|[k0 l0] ls IH]; intros rows Huniq; cbn [scan_locks].
  { split; [set_solver|]. intros k. left. split; [done|set_solver]. }
  assert (Huniq' : ∀ k l1 l2, (k, l1) ∈ ls → (k, l2) ∈ ls → l1 = l2).
  { intros k l1 l2 ??. apply (Huniq k); by right. }
  destruct (in_range a k0 b) eqn:Hr0; cbn [negb].
  - destruct (blocks ots l0) eqn:Hb; unfold blocks in Hb; rewrite Hb.
    { exists k0, l0. split_and!; try done. by left. }
    set (rows0 := match ots with Some ts => _ | None => _ end).
    specialize (IH rows0 Huniq'). destruct (scan_locks a b ots rows0 ls) as [rows'|x].
    + destruct IH as [Hnb Hlook]. split.
      { intros k l [[= -> ->]|?]%elem_of_cons ?; [done|by eapply Hnb]. }
      intros k. destruct (Hlook k) as [[Heq Hno]|(l&Hin&?&?&?)].
      2: { right. exists l. split_and!; try done. by right. }
      destruct (decide (k = k0 ∧ own ots l0 = true)) as [[-> Hown]|Hne].
      * right. exists l0. split_and!; [by left|done..|]. rewrite Heq. unfold rows0, own in *.
        destruct ots as [t|]; [|done]. rewrite Hown. apply lookup_insert_eq.
      * left. split.
        -- rewrite Heq. unfold rows0, own in *. destruct ots as [t|]; [|done].
           destruct (lk_start_ts l0 =? t); [|done]. rewrite lookup_insert_ne; [done|]. naive_solver.
        -- intros l [[= -> ->]|?]%elem_of_cons ?; [|by apply Hno].
           destruct (own ots l0); naive_solver.
    + destruct IH as (k&l&?&?&?&?). exists k, l. split_and!; try done. by right.
  - specialize (IH rows Huniq'). destruct (scan_locks a b ots rows ls) as [rows'|x].
    + destruct IH as [Hnb Hlook]. split.
      { intros k l [[= -> ->]|?]%elem_of_cons ?; [congruence|by eapply Hnb]. }
      intros k. destruct (Hlook k) as [[Heq Hno]|(l&Hin&?&?&?)].
      * left. split; [done|]. intros l [[= -> ->]|?]%elem_of_cons ?; [congruence|by apply Hno].
      * right. exists l. split_and!; try done. by right.
    + destruct IH as (k&l&?&?&?&?). exists k, l. split_and!; try done. by right.
Qed.

(** The dictionary [scan_versions] builds from the storage's rows. *)
Definition rows_map (m : gmap bytes (pyval * Z)) (rows : list (bytes * bytes * Z)) :=
  foldl (λ (m : gmap bytes (pyval * Z)) r, <[r.1.1 := (PBytes r.1.2, r.2)]> m) m rows.

Lemma rows_map_lookup m rows k x :
  NoDup (map (λ r, r.1.1) rows) →
  rows_map m rows !! k = Some x ↔
  (∃ v ts, (k, v, ts) ∈ rows ∧ x = (PBytes v, ts)) ∨
  (k ∉ map (λ r, r.1.1) rows ∧ m !! k = Some x).
Proof.
  unfold rows_map. revert m. induction rows as [|[[k0 v0] t0] rows IH]; intros m Hnd; cbn [foldl map].
  { split; [intros ?; right; split; [set_solver|done]|]. intros [(?&?&?&_)|[_ ?]]; [set_solver|done]. }
  apply list.NoDup_cons in Hnd as [Hn Hnd]. rewrite IH by done. cbn [fst snd].
  rewrite lookup_insert. destruct (decide (k0 = k)) as [->|Hne].
  - split.
    + intros [(v&ts&Hin&_)|[_ [= <-]]]; [|left; exists v0, t0; split; [by left|done]].
      destruct Hn. by apply (list_elem_of_fmap_2 (λ r : bytes * bytes * Z, r.1.1) _ (k, v, ts)).
    + intros [(v&ts&[[= -> ->]|Hin]%elem_of_cons&->)|[Hc _]]; [right; done| |].
      * left; eauto.
      * destruct Hc. left.
  - rewrite not_elem_of_cons. split.
    + intros [(v&ts&Hin&->)|[? ?]]; [left; exists v, ts; split; [by right|done]|right; done].
    + intros [(v&ts&[[= -> ->]|Hin]%elem_of_cons&->)|[[_ ?] ?]]; [done|left; eauto|right; done].
Qed.

Lemma out_sorted_nodup (rows : list (bytes * bytes * Z)) :
  StronglySorted out_lt rows → NoDup (map (λ r, r.1.1) rows).
Proof.
  induction 1 as [|r rows _ IH Hr]; [constructor|]. cbn. apply list.NoDup_cons. split; [|done].
  intros (r'&Heq&Hin)%list_elem_of_fmap. rewrite list.Forall_forall in Hr.
  specialize (Hr _ Hin). unfold out_lt in Hr. by rewrite Heq, blt_irrefl in Hr.
Qed.

#[global] Instance item_le_trans : Transitive item_le.
Proof. intros a b c. apply ble_trans. Qed.
#[global] Instance item_le_total : Total item_le.
Proof. intros a b. apply ble_total. Qed.

(** The rows of the answer are the rows of the dictionary. *)
Lemma sorted_rows_in (rows : gmap bytes (pyval * Z)) k v c :
  (k, v, c) ∈ map (λ i : bytes * (pyval * Z), (i.1, i.2.1, i.2.2))
                (merge_sort item_le (map_to_list rows)) ↔ rows !! k = Some (v, c).
Proof.
  rewrite list_elem_of_fmap. setoid_rewrite merge_sort_Permutation.
  rewrite <-elem_of_map_to_list. split.
  - intros ([k' [v' c']]&[= -> -> ->]&?). done.
  - intros ?. by exists (k, (v, c)).
Qed.

(** The dictionary of the visible versions, against what is visible at a key. *)
Lemma visible_rows_lookup e vs t k a b o x :
  wf e → no_sep k → -1 ≤ t → in_range a k b = true → visible (hist e k) t o →
  StronglySorted out_lt vs →
  (∀ k v ts, (k, v, ts) ∈ vs ↔ no_sep k ∧ in_range a k b = true ∧
     ∃ r, get_version e k t = Ok (Some r) ∧ version_of r = (v, ts)) →
  rows_map ∅ vs !! k = Some x ↔ (λ p, (PBytes p.1, p.2)) <$> o = Some x.
Proof.
  intros Hwf Hk Ht Hr Hv Hsort Hvs.
  rewrite rows_map_lookup by (by apply out_sorted_nodup). rewrite lookup_empty.
  destruct (get_version_eq e k t o Hwf Hk Ht Hv) as (r&Hget&Hr'). split.
  - intros [(v&ts&(_&_&r0&Hg0&Hv0)%Hvs&->)|[_ [=]]].
    rewrite Hget in Hg0. injection Hg0 as ->. cbn in Hr'. by rewrite <-Hr', Hv0.
  - intros Hx. destruct o as [[v c]|]; [|done]. injection Hx as <-. left. exists v, c.
    split; [|done]. apply Hvs. split_and!; [done..|]. destruct r as [r|]; [|done].
    exists r. split; [done|]. cbn in Hr'. congruence.
Qed.

(** A range read against the point reads of its keys. *)
Lemma machine_scan_spec s a b ots :
  store_inv (_storage s) → no_sep a → no_sep b → -1 ≤ default (_last_applied_timestamp s) ots →
  match scan_versions s a b ots with
  | Ok rows =>
      Sorted (λ x y, ble x.1.1 y.1.1 = true) rows ∧
      (∀ k v c, (k, v, c) ∈ rows → no_sep k ∧ in_range a k b = true) ∧
      ∀ k, no_sep k → in_range a k b = true →
        ∃ v c, get s k ots = Ok (read_success v c) ∧
          ∀ v' c', (k, v', c') ∈ rows ↔ v ≠ PNone ∧ v' = v ∧ c' = c
  | Raise x => ∃ k, x = ScanRefused ErrorCode.ERR_LOCKED (Some k) None ∧ in_range a k b = true ∧
                    get s k ots = Ok read_locked
  end.
Proof.
  intros Hi Ha Hb Ht. unfold scan_versions. set (t := default _ _) in *.
  destruct (scan_versions_spec (_storage s) a b t) as (vs&->&Hsort&Hvs); [by apply inv_wf|done..|].
  cbn [rbind]. fold (rows_map ∅ vs).
  destruct (iter_locks_spec _ Hi) as (ls&->&Hls). cbn [rbind].
  pose proof (scan_locks_spec a b ots (rows_map ∅ vs) ls) as Hsl.
  destruct (scan_locks a b ots (rows_map ∅ vs) ls) as [rows|x]; cbn [rbind].
  2: { destruct Hsl as (k&l&[Hk Hl]%Hls&Hr&Hbl&->).
       { intros k l1 l2 [_ H1']%Hls [_ H2']%Hls. congruence. }
       exists k. split_and!; [done..|]. destruct (get_rule s k ots Hi Hk Ht) as (o&_&->).
       rewrite Hl. unfold blocks in Hbl. destruct ots as [ts|]; [|done]. rewrite Hbl.
       zbool. rewrite (proj2 (Z.eqb_neq _ _)) by lia. done. }
  destruct Hsl as [Hnb Hlook]. { intros k l1 l2 [_ H1']%Hls [_ H2']%Hls. congruence. }
  split_and!.
  - apply (Sorted_fmap _ item_le); [done|]. apply Sorted_merge_sort. apply _.
  - intros k v c Hin%sorted_rows_in. destruct (Hlook k) as [[Heq _]|(l&[? _]%Hls&?&_)]; [|done].
    rewrite Heq, rows_map_lookup, lookup_empty in Hin by (by apply out_sorted_nodup).
    destruct Hin as [(v'&ts&Hin&_)|[_ [=]]]. apply Hvs in Hin as (?&?&_). done.
  - intros k Hk Hr. destruct (get_rule s k ots Hi Hk Ht) as (o&Hv&Hg).
    setoid_rewrite sorted_rows_in. destruct (Hlook k) as [[Heq Hno]|(l&[_ Hl]%Hls&_&Hown&Heq)].
    + assert (get s k ots = Ok (read_answer o)) as ->.
      { rewrite Hg. destruct (get_newest_lock (_storage s) k) as [[l|]|] eqn:Hl; [|done..].
        assert ((k, l) ∈ ls) as Hin by (by apply Hls).
        specialize (Hnb _ _ Hin Hr). specialize (Hno _ Hin Hr). unfold blocks, own in *.
        destruct ots as [ts|]; [|done]. by rewrite Hno, Hnb. }
      exists (rr_value (read_answer o)), (rr_commit_ts (read_answer o)).
      split; [by destruct o as [[]|]|]. intros v' c'. rewrite Heq.
      rewrite (visible_rows_lookup (_storage s) vs t k a b o) by (done || by apply inv_wf).
      destruct o as [[v c]|]; cbn; naive_solver.
    + rewrite Hg, Hl. unfold own in Hown. destruct ots as [ts|]; [|done]. rewrite Hown.
      eexists _, _. split; [done|]. intros v' c'. rewrite Heq.
      destruct (store_inv_newest_lock _ k Hi Hk) as [[_ Hl']|(?&?&?&?&_&_&_&Hl')]; rewrite Hl in Hl'; [done|].
      injection Hl' as ->. cbn. split; [by intros [= <- <-]|]. by intros (_&->&->).
Qed.

(** C24: The machine's range read agrees with its point read.  A scan at a timestamp (or
    with none) either lists, in key order, exactly the keys of the range that [get] finds
    a value for at that timestamp, each with the value and version [get] answers - and
    then no key of the range is locked against the reader - or it refuses, naming a key of
    the range that [get] would report as locked.  It never leaves a locked key out. *)
Theorem machine_scan_agrees s a b ots :
  store_inv (_storage s) → no_sep a → no_sep b → -1 ≤ default (_last_applied_timestamp s) ots →
  match scan_versions s a b ots with
  | Ok rows =>
      Sorted (λ x y, ble x.1.1 y.1.1 = true) rows ∧
      (∀ k v c, (k, v, c) ∈ rows → no_sep k ∧ in_range a k b = true) ∧
      ∀ k, no_sep k → in_range a k b = true →
        ∃ v c, get s k ots = Ok (read_success v c) ∧
          ∀ v' c', (k, v', c') ∈ rows ↔ v ≠ PNone ∧ v' = v ∧ c' = c
  | Raise x => ∃ k, x = ScanRefused ErrorCode.ERR_LOCKED (Some k) None ∧ in_range a k b = true ∧
                    get s k ots = Ok read_locked
  end.
Proof. exact (machine_scan_spec s a b ots). Qed.

End facts.
