(* ===== verification/Replicas.v ===== *)
(** Replicas of one shard apply one log and agree.

    A PREWRITE records the clock of the replica that applies it ([state_machine.py],
    [_apply_prewrite]), so two replicas of a shard do not hold equal states: their lock
    records differ in their lock times.  [sim] is equality up to those times; every
    handler respects it, and every answer of [apply] and every read of a version, a write
    record or a key is the same on both sides. *)

From Stdlib Require Import ZArith Lia.
From S2P Require Import Prelude Bytes PyVal Engine Mvcc StateMachine StateMachineFacts.
Import MVCCStorage MVCCStateMachine.

Section replicas.
Context {E : Type} `{EngineLaws E} `{!Msgpack}.
Abbreviation sm := (MVCCStateMachine.t E).
Implicit Types e : E.

(** Two lock rows that differ in the lock time at most. *)
Definition lock_rel (r1 r2 : option bytes) : Prop :=
  match r1, r2 with
  | None, None => True
  | Some p1, Some p2 => ∃ st pk v t1 t2,
      packb (lock_payload st pk t1 v) = Ok p1 ∧ packb (lock_payload st pk t2 v) = Ok p2
  | _, _ => False
  end.

Record sim (s1 s2 : sm) : Prop := {
  sim_wf1 : wf (_storage s1);
  sim_wf2 : wf (_storage s2);
  sim_last : _last_applied_timestamp s1 = _last_applied_timestamp s2;
  sim_rows ns k ts : no_sep k → ns ≠ x04 →
    entry (_storage s1) ns k ts = entry (_storage s2) ns k ts;
  sim_locks k ts : no_sep k →
    lock_rel (entry (_storage s1) x04 k ts) (entry (_storage s2) x04 k ts)
}.

(** Related results: both raise, or both return related values. *)
Definition rrel {A} (R : A → A → Prop) (r1 r2 : result A) : Prop :=
  match r1, r2 with
  | Ok a1, Ok a2 => R a1 a2
  | Raise _, Raise _ => True
  | _, _ => False
  end.

Definition msim {A} (R : A → A → Prop) (m1 m2 : M sm A) : Prop := ∀ s1 s2,
  sim s1 s2 → sim (m1 s1).1 (m2 s2).1 ∧ rrel R (m1 s1).2 (m2 s2).2.

Lemma msim_bind {A B} (R : A → A → Prop) (Q : B → B → Prop) m1 m2 k1 k2 :
  msim R m1 m2 → (∀ a1 a2, R a1 a2 → msim Q (k1 a1) (k2 a2)) →
  msim Q (bind m1 k1) (bind m2 k2).
Proof.
  intros Hm Hk s1 s2 Hs. specialize (Hm s1 s2 Hs). unfold bind.
  destruct (m1 s1) as [s1' [a1|x1]], (m2 s2) as [s2' [a2|x2]]; cbn in *; try (by destruct Hm).
  destruct Hm as [Hs' Ha]. by apply Hk.
Qed.

Lemma msim_ret {A} (R : A → A → Prop) a1 a2 : R a1 a2 → msim R (ret a1) (ret a2).
Proof. intros Ha s1 s2 Hs. done. Qed.

Lemma msim_lift {A} (R : A → A → Prop) r1 r2 : rrel R r1 r2 → msim R (lift r1) (lift r2).
Proof. intros Ha s1 s2 Hs. done. Qed.

Lemma msim_lift_eq {A} (r : result A) : msim eq (lift r) (lift r).
Proof. apply msim_lift. by destruct r. Qed.

Lemma msim_last : msim eq (reads (λ s : sm, Ok (_last_applied_timestamp s)))
                          (reads (λ s : sm, Ok (_last_applied_timestamp s))).
Proof. intros s1 s2 Hs. split; [done|]. apply (sim_last _ _ Hs). Qed.

Lemma msim_bump ts : msim eq (bump ts) (bump ts).
Proof.
  intros s1 s2 [H1' H2' Hl Hr Hk]. unfold bump. rewrite <-Hl. cbn. split; [|done].
  destruct (_ >? _); by split.
Qed.

(** A bad key or a bad timestamp is refused by both replicas alike, so a write is a
    write of one row of the same key on both. *)
Lemma sim_put s1 s2 ns k ts v1 v2 :
  sim s1 s2 → ns_ok ns → no_sep k → valid_ts ts →
  (if decide (ns = x04) then lock_rel (Some v1) (Some v2) else v1 = v2) →
  sim (with_storage s1 (e_put (_storage s1) (row_key ns k ts) v1))
      (with_storage s2 (e_put (_storage s2) (row_key ns k ts) v2)).
Proof.
  intros [H1' H2' Hl Hr Hk] Hns Hk0 Hts Hv. unfold with_storage. split; cbn.
  - by apply wf_put.
  - by apply wf_put.
  - done.
  - intros ns' k' ts' Hk' Hne. rewrite !row_key_put by done.
    destruct (decide (ns = _ ∧ k = k' ∧ ts = ts')) as [Hc|]; [|by apply Hr].
    destruct Hc as (->&_&_). rewrite decide_False in Hv by done. by subst.
  - intros k' ts' Hk'. rewrite !row_key_put by done.
    destruct (decide (ns = _ ∧ k = k' ∧ ts = ts')) as [Hc|]; [|by apply Hk].
    destruct Hc as (->&_&_). by rewrite decide_True in Hv.
Qed.

Lemma sim_delete s1 s2 k ts :
  sim s1 s2 → no_sep k → valid_ts ts →
  sim (with_storage s1 (e_delete (_storage s1) (row_key x04 k ts)))
      (with_storage s2 (e_delete (_storage s2) (row_key x04 k ts))).
Proof.
  intros [H1' H2' Hl Hr Hk] Hk0 Hts. unfold with_storage. split; cbn.
  - by apply wf_delete.
  - by apply wf_delete.
  - done.
  - intros ns' k' ts' Hk' Hne. rewrite !row_key_delete by done. case_decide; [done|by apply Hr].
  - intros k' ts' Hk'. rewrite !row_key_delete by done. case_decide; [done|by apply Hk].
Qed.

(** A write that both replicas admit or refuse alike. *)
Lemma msim_write (f : E → result E) (g : E → result E) (P : Prop) `{!Decision P} ns k ts v1 v2 :
  (∀ e e', f e = Ok e' ↔ P ∧ e' = e_put e (row_key ns k ts) v1) →
  (∀ e e', g e = Ok e' ↔ P ∧ e' = e_put e (row_key ns k ts) v2) →
  (P → ns_ok ns ∧ no_sep k ∧ valid_ts ts ∧
       if decide (ns = x04) then lock_rel (Some v1) (Some v2) else v1 = v2) →
  msim eq (write_storage f) (write_storage g).
Proof.
  intros Hf Hg HP s1 s2 Hs. unfold write_storage, updates.
  destruct (decide P) as [Hp|Hp].
  - rewrite (proj2 (Hf _ _) (conj Hp eq_refl)), (proj2 (Hg _ _) (conj Hp eq_refl)). cbn.
    split; [|done]. destruct (HP Hp) as (?&?&?&?). by apply sim_put.
  - destruct (f _) as [e1|] eqn:E1; [apply Hf in E1 as [? _]; done|].
    destruct (g _) as [e2|] eqn:E2; [apply Hg in E2 as [? _]; done|]. done.
Qed.

#[local] Instance valid_ts_dec ts : Decision (valid_ts ts).
Proof. unfold valid_ts. apply _. Defined.

Lemma msim_set k v ts : msim eq (write_storage (λ e, set e k v ts)) (write_storage (λ e, set e k v ts)).
Proof.
  apply (msim_write _ _ (no_sep k ∧ valid_ts ts) x01 k ts (x01 :: v) (x01 :: v)).
  - intros e e'. rewrite set_Ok. tauto.
  - intros e e'. rewrite set_Ok. tauto.
  - intros [??]. split_and!; try done. unfold ns_ok; auto.
Qed.

Lemma msim_delete k ts : msim eq (write_storage (λ e, delete e k ts)) (write_storage (λ e, delete e k ts)).
Proof.
  apply (msim_write _ _ (no_sep k ∧ valid_ts ts) x01 k ts [x00] [x00]).
  - intros e e'. rewrite delete_Ok. tauto.
  - intros e e'. rewrite delete_Ok. tauto.
  - intros [??]. split_and!; try done. unfold ns_ok; auto.
Qed.

Lemma msim_record k sts cts :
  msim eq (write_storage (λ e, write_write_record e k sts cts))
          (write_storage (λ e, write_write_record e k sts cts)).
Proof.
  apply (msim_write _ _ (no_sep k ∧ valid_ts sts ∧ valid_ts cts) x03 k cts (be_bytes 8 sts) (be_bytes 8 sts)).
  - intros e e'. rewrite write_write_record_Ok. tauto.
  - intros e e'. rewrite write_write_record_Ok. tauto.
  - intros (?&?&?). split_and!; try done. unfold ns_ok; auto.
Qed.

(** Whether a lock can be packed does not depend on its time. *)
Lemma lock_payload_time st pk t1 t2 v :
  is_Ok (packb (lock_payload st pk t1 v)) ↔ is_Ok (packb (lock_payload st pk t2 v)).
Proof. by rewrite <-!packb_packable. Qed.

Lemma msim_put_lock k sts st pk t1 t2 v :
  msim eq (write_storage (λ e, put_lock e k sts st pk t1 v))
          (write_storage (λ e, put_lock e k sts st pk t2 v)).
Proof.
  destruct (packb (lock_payload st pk t1 v)) as [p1|x1] eqn:E1.
  - destruct (proj1 (lock_payload_time st pk t1 t2 v)) as [p2 E2]; [by eexists|].
    apply (msim_write _ _ (no_sep k ∧ valid_ts sts) x04 k sts p1 p2).
    + intros e e'. rewrite put_lock_Ok, E1. split; [by intros (?&?&?&[= ->]&->)|].
      intros [[??] ->]. eauto.
    + intros e e'. rewrite put_lock_Ok, E2. split; [by intros (?&?&?&[= ->]&->)|].
      intros [[??] ->]. eauto.
    + intros [??]. split_and!; try done; [unfold ns_ok; auto|].
      rewrite decide_True by done. exists st, pk, v, t1, t2. done.
  - apply (msim_write _ _ False x04 k sts [] []); [| |done].
    + intros e e'. rewrite put_lock_Ok. split; [|tauto]. intros (?&?&p&?&?). congruence.
    + intros e e'. rewrite put_lock_Ok. split; [|tauto]. intros (?&?&p&Hp&?).
      destruct (proj2 (lock_payload_time st pk t1 t2 v)) as [p1 ?]; [by eexists|]. congruence.
Qed.

Lemma msim_remove k sts :
  msim eq (write_storage (λ e, remove_lock e k sts)) (write_storage (λ e, remove_lock e k sts)).
Proof.
  intros s1 s2 Hs. unfold write_storage, updates.
  destruct (remove_lock (_storage s1) k sts) as [e1|] eqn:E1.
  - apply remove_lock_Ok in E1 as (Hk&Ht&->). rewrite remove_lock_total by done. cbn.
    split; [by apply sim_delete|done].
  - destruct (remove_lock (_storage s2) k sts) as [e2|] eqn:E2; [|done].
    apply remove_lock_Ok in E2 as (Hk&Ht&->). by rewrite remove_lock_total in E1.
Qed.

(** *** Reads *)

(** The same lock, up to its time. *)
Definition same_lock (l1 l2 : Lock) : Prop :=
  lk_status l1 = lk_status l2 ∧ lk_primary_key l1 = lk_primary_key l2 ∧
  lk_value l1 = lk_value l2 ∧ lk_key l1 = lk_key l2 ∧ lk_start_ts l1 = lk_start_ts l2.

Definition same_lock_opt (o1 o2 : option Lock) : Prop :=
  match o1, o2 with
  | Some l1, Some l2 => same_lock l1 l2
  | None, None => True
  | _, _ => False
  end.

Lemma newest_same_ts e1 e2 ns k r1 r2 :
  (∀ ts, entry e1 ns k ts = None ↔ entry e2 ns k ts = None) →
  newest e1 ns k r1 → newest e2 ns k r2 → fst <$> r1 = fst <$> r2.
Proof.
  intros Hd Hr1 Hr2. destruct r1 as [[t1 w1]|], r2 as [[t2 w2]|]; cbn in *; [| | |done].
  - f_equal. destruct Hr1 as [H1' N1], Hr2 as [H2' N2].
    destruct (Z.lt_trichotomy t1 t2) as [Hlt|[|Hlt]]; [|done|].
    + pose proof (proj1 (Hd t2) (N1 _ Hlt)). congruence.
    + pose proof (proj2 (Hd t1) (N2 _ Hlt)). congruence.
  - destruct Hr1 as [H1' _]. pose proof (proj2 (Hd t1) (Hr2 t1)). congruence.
  - destruct Hr2 as [H2' _]. pose proof (proj1 (Hd t2) (Hr1 t2)). congruence.
Qed.

Lemma decode_lock_rel p1 p2 k ts :
  lock_rel p1 p2 → rrel same_lock_opt (_decode_lock p1 k ts) (_decode_lock p2 k ts).
Proof.
  destruct p1 as [p1|], p2 as [p2|]; try done. intros (st&pk&v&t1&t2&H1'&H2').
  rewrite (decode_lock_payload _ _ _ _ _ _ _ H1'), (decode_lock_payload _ _ _ _ _ _ _ H2'). done.
Qed.

Lemma lock_rel_None s1 s2 k ts :
  sim s1 s2 → no_sep k → entry (_storage s1) x04 k ts = None ↔ entry (_storage s2) x04 k ts = None.
Proof.
  intros Hs Hk. pose proof (sim_locks _ _ Hs k ts Hk) as Hl. unfold lock_rel in Hl.
  by destruct (entry (_storage s1) x04 k ts), (entry (_storage s2) x04 k ts).
Qed.

(** Reads of rows of one namespace, on both replicas. *)
Lemma sim_newest s1 s2 ns k :
  sim s1 s2 → no_sep k →
  ∃ r1 r2, newest (_storage s1) ns k r1 ∧ newest (_storage s2) ns k r2 ∧ fst <$> r1 = fst <$> r2 ∧
    (ns ≠ x04 → r1 = r2) ∧ (ns = x04 → lock_rel (snd <$> r1) (snd <$> r2)).
Proof.
  intros Hs Hk.
  destruct (newest_exists _ ns k (sim_wf1 _ _ Hs) Hk) as (r1&H1').
  destruct (newest_exists _ ns k (sim_wf2 _ _ Hs) Hk) as (r2&H2'). exists r1, r2.
  assert (fst <$> r1 = fst <$> r2) as Hf.
  { eapply newest_same_ts; [|done..]. intros ts. destruct (decide (ns = x04)) as [->|Hne];
      [by apply lock_rel_None|]. by rewrite (sim_rows _ _ Hs ns k ts Hk Hne). }
  split_and!; [done..| |].
  - intros Hne. destruct r1 as [[t1 w1]|], r2 as [[t2 w2]|]; try done.
    injection Hf as ->. destruct H1' as [E1 _], H2' as [E2 _].
    rewrite (sim_rows _ _ Hs ns k t2 Hk Hne) in E1. congruence.
  - intros ->. destruct r1 as [[t1 w1]|], r2 as [[t2 w2]|]; try done.
    injection Hf as ->. destruct H1' as [E1 _], H2' as [E2 _].
    pose proof (sim_locks _ _ Hs k t2 Hk) as Hl. by rewrite E1, E2 in Hl.
Qed.

Lemma bad_key_raises k : ¬ no_sep k → _check_user_key k = Raise ValueError.
Proof. intros Hk. unfold _check_user_key. case_decide; [done|]. by destruct Hk. Qed.

Lemma msim_newest_lock k :
  msim same_lock_opt (on_storage (λ e, get_newest_lock e k)) (on_storage (λ e, get_newest_lock e k)).
Proof.
  intros s1 s2 Hs. split; [done|]. cbn. destruct (decide (no_sep k)) as [Hk|Hk].
  - destruct (sim_newest s1 s2 x04 k Hs Hk) as (r1&r2&H1'&H2'&Hf&_&Hl).
    rewrite (get_newest_lock_newest _ k r1), (get_newest_lock_newest _ k r2) by (done || apply Hs).
    destruct r1 as [[t1 w1]|], r2 as [[t2 w2]|]; try done. injection Hf as ->.
    by apply decode_lock_rel, (Hl eq_refl).
  - unfold get_newest_lock. by rewrite bad_key_raises.
Qed.

Lemma msim_latest_write k :
  msim eq (on_storage (λ e, get_latest_write e k)) (on_storage (λ e, get_latest_write e k)).
Proof.
  intros s1 s2 Hs. split; [done|]. cbn. destruct (decide (no_sep k)) as [Hk|Hk].
  - destruct (sim_newest s1 s2 x03 k Hs Hk) as (r1&r2&H1'&H2'&_&Heq&_).
    rewrite (get_latest_write_newest _ k r1), (get_latest_write_newest _ k r2) by (done || apply Hs).
    by rewrite Heq.
  - unfold get_latest_write. by rewrite bad_key_raises.
Qed.

Lemma msim_latest_version k :
  msim eq (on_storage (λ e, get_latest_version e k)) (on_storage (λ e, get_latest_version e k)).
Proof.
  intros s1 s2 Hs. split; [done|]. cbn. destruct (decide (no_sep k)) as [Hk|Hk].
  - destruct (sim_newest s1 s2 x01 k Hs Hk) as (r1&r2&H1'&H2'&_&Heq&_).
    rewrite (get_latest_version_newest _ k r1), (get_latest_version_newest _ k r2) by (done || apply Hs).
    by rewrite Heq.
  - unfold get_latest_version. by rewrite bad_key_raises.
Qed.

Lemma msim_get_lock k sts :
  msim same_lock_opt (on_storage (λ e, get_lock e k sts)) (on_storage (λ e, get_lock e k sts)).
Proof.
  intros s1 s2 Hs. split; [done|]. cbn. destruct (decide (no_sep k)) as [Hk|Hk].
  2: { unfold get_lock. by rewrite bad_key_raises. }
  destruct (decide (valid_ts sts)) as [Hv|Hv].
  - rewrite !get_lock_entry by done. by apply decode_lock_rel, sim_locks.
  - unfold get_lock. rewrite check_key_valid by done. cbn [rbind].
    destruct (_ts_bytes sts) as [b|] eqn:Hb; [|done]. by apply ts_bytes_Ok in Hb as [? _].
Qed.

(** *** Handlers *)

Ltac msim_step :=
  lazymatch goal with
  | |- msim _ (bind (lift _) _) (bind (lift _) _) => eapply msim_bind; [apply msim_lift_eq|intros ? ? <-]
  | |- msim _ (bind (reads _) _) (bind (reads _) _) => eapply msim_bind; [apply msim_last|intros ? ? <-]
  | |- msim _ (bind (bump _) _) (bind (bump _) _) => eapply msim_bind; [apply msim_bump|intros ? ? <-]
  | |- msim _ (bind (write_storage _) _) (bind (write_storage _) _) =>
      eapply msim_bind; [first [apply msim_set | apply msim_delete | apply msim_record
                               | apply msim_put_lock | apply msim_remove]|intros ? ? <-]
  | |- msim _ (bind (on_storage _) _) (bind (on_storage _) _) =>
      first [ eapply msim_bind; [first [apply msim_latest_write | apply msim_latest_version]|intros ? ? <-]
            | eapply msim_bind; [first [apply msim_newest_lock | apply msim_get_lock]|
                let o1 := fresh in let o2 := fresh in let Hl := fresh in
                intros o1 o2 Hl; destruct o1, o2; try done; try destruct Hl as (Hst&_&Hval&_&Hts)]]
  | |- msim _ (ret _) (ret _) => by apply msim_ret
  end.

Lemma msim_apply_set cmd : msim eq (_apply_set cmd) (_apply_set cmd).
Proof.
  unfold _apply_set. repeat msim_step. eapply (msim_bind eq).
  - case_decide; [by apply msim_ret|]. msim_step. apply msim_record.
  - intros ? ? <-. repeat msim_step.
Qed.

Lemma msim_apply_delete cmd : msim eq (_apply_delete cmd) (_apply_delete cmd).
Proof. unfold _apply_delete. repeat msim_step. Qed.

Lemma msim_apply_prewrite t1 t2 cmd : msim eq (_apply_prewrite t1 cmd) (_apply_prewrite t2 cmd).
Proof.
  unfold _apply_prewrite. repeat msim_step; [rewrite Hst; case_match|]; repeat msim_step;
    case_match; repeat msim_step; case_match; repeat msim_step.
Qed.

Lemma msim_apply_commit cmd : msim eq (_apply_commit cmd) (_apply_commit cmd).
Proof.
  unfold _apply_commit. repeat msim_step. rewrite <-Hst, <-Hval.
  case_decide; repeat msim_step.
Qed.

Lemma msim_apply_rollback cmd : msim eq (_apply_rollback cmd) (_apply_rollback cmd).
Proof. unfold _apply_rollback. repeat msim_step. Qed.

Lemma msim_apply_clean_lock cmd : msim eq (_apply_clean_lock cmd) (_apply_clean_lock cmd).
Proof.
  unfold _apply_clean_lock. repeat msim_step. rewrite <-Hts. eapply (msim_bind eq).
  - destruct (_ || _); [apply msim_remove|msim_step].
  - intros ? ? <-. msim_step.
Qed.

Lemma msim_dispatch t1 t2 cmd : msim eq (dispatch t1 cmd) (dispatch t2 cmd).
Proof.
  unfold dispatch. msim_step. repeat case_decide; auto using msim_apply_set, msim_apply_delete,
    msim_apply_prewrite, msim_apply_commit, msim_apply_rollback, msim_apply_clean_lock.
  msim_step.
Qed.

Lemma sim_apply t1 t2 command s1 s2 :
  sim s1 s2 →
  sim (apply t1 command s1).1 (apply t2 command s2).1 ∧
  (apply t1 command s1).2 = (apply t2 command s2).2.
Proof.
  intros Hs. unfold apply.
  assert (msim eq (bind (lift (unpackb command)) (dispatch t1)) (bind (lift (unpackb command)) (dispatch t2)))
    as Hm by (eapply msim_bind; [apply msim_lift_eq|intros ? ? <-; apply msim_dispatch]).
  destruct (Hm _ _ Hs) as [Hs' Hr].
  destruct (bind _ _ s1) as [s1' [a1|]], (bind _ _ s2) as [s2' [a2|]]; cbn in *; done || (by subst).
Qed.

(** What the answers of a replica to a log are. *)
Fixpoint answers (log : list (Z * bytes)) (s : sm) : list ApplyResult :=
  match log with
  | [] => []
  | (t, c) :: log => (apply t c s).2 :: answers log (apply t c s).1
  end.

Definition after (log : list (Z * bytes)) (s : sm) : sm :=
  foldl (λ s c, (apply c.1 c.2 s).1) s log.

Lemma sim_log cmds : ∀ clock1 clock2 s1 s2,
  length clock1 = length cmds → length clock2 = length cmds → sim s1 s2 →
  answers (zip clock1 cmds) s1 = answers (zip clock2 cmds) s2 ∧
  sim (after (zip clock1 cmds) s1) (after (zip clock2 cmds) s2).
Proof.
  induction cmds as [|c cmds IH]; intros [|t1 c1] [|t2 c2] s1 s2; try done.
  intros [= Hl1] [= Hl2] Hs. destruct (sim_apply t1 t2 c s1 s2 Hs) as [Hs' Hr].
  destruct (IH c1 c2 _ _ Hl1 Hl2 Hs') as [Ha Hsim]. cbn. by rewrite Hr, Ha.
Qed.

(** C12: Replicas agree.  Two replicas that apply the same commands, each by its own
    clock, give the same answer to every command, and end in states that differ in the
    times of their locks at most: the same applied timestamp, the same versions and write
    records, and the same locks by key, transaction, primary key and value. *)
Theorem replicas_agree (cmds : list bytes) (clock1 clock2 : list Z) s1 s2 :
  length clock1 = length cmds → length clock2 = length cmds → sim s1 s2 →
  let log1 := zip clock1 cmds in let log2 := zip clock2 cmds in
  answers log1 s1 = answers log2 s2 ∧ sim (after log1 s1) (after log2 s2) ∧
  ∀ k t, no_sep k → -1 ≤ t →
    get_version (_storage (after log1 s1)) k t = get_version (_storage (after log2 s2)) k t ∧
    get_latest_write (_storage (after log1 s1)) k = get_latest_write (_storage (after log2 s2)) k.
Proof.
  intros Hl1 Hl2 Hs log1 log2.
  assert (answers log1 s1 = answers log2 s2 ∧ sim (after log1 s1) (after log2 s2)) as [Ha Hsim]
    by (by apply sim_log).
  split_and!; [done..|]. intros k t Hk Ht. split.
  - destruct (get_version_spec _ k t (sim_wf1 _ _ Hsim) Hk Ht) as (r1&H1'&V1).
    destruct (get_version_spec _ k t (sim_wf2 _ _ Hsim) Hk Ht) as (r2&H2'&V2).
    assert (version_of <$> r1 = version_of <$> r2) as Heq.
    { eapply visible_unique; [done|]. unfold hist in *.
      destruct (version_of <$> r2) as [[v ts]|]; cbn in *.
      - setoid_rewrite (sim_rows _ _ Hsim x01 k); done.
      - setoid_rewrite (sim_rows _ _ Hsim x01 k); done. }
    rewrite H1', H2'. f_equal. destruct r1 as [[]|], r2 as [[]|]; cbn in Heq; try done.
    apply get_version_not_deleted in H1', H2'. unfold version_of in Heq. naive_solver.
  - pose proof (msim_latest_write k _ _ Hsim) as [_ Hw]. cbn in Hw. unfold rrel in Hw.
    destruct (sim_newest _ _ x03 k Hsim Hk) as (w1&w2&N1&N2&_&Heq&_).
    rewrite (get_latest_write_newest _ k w1), (get_latest_write_newest _ k w2) by (done || apply Hsim).
    by rewrite Heq.
Qed.

(** *** A replica restored from a snapshot *)

Lemma entry_same_rows e1 e2 ns k ts : same_rows e1 e2 → entry e1 ns k ts = entry e2 ns k ts.
Proof. intros Hs. unfold entry. by rewrite Hs. Qed.

Lemma sim_restored s1 s2 :
  store_inv (_storage s2) → same_rows (_storage s1) (_storage s2) →
  _last_applied_timestamp s1 = _last_applied_timestamp s2 → sim s1 s2.
Proof.
  intros Hi Hs Hl. split; [|by apply inv_wf|done|intros; by apply entry_same_rows|].
  - apply (wf_proper (_storage s2)); [done|by apply inv_wf].
  - intros k ts Hk. rewrite (entry_same_rows _ _ _ _ _ Hs). unfold lock_rel.
    destruct (entry (_storage s2) x04 k ts) as [raw|] eqn:He; [|done].
    destruct (inv_lock _ Hi k ts raw Hk He) as (pk&lt&v&Hp). by eexists _, _, _, _, _.
Qed.

Lemma restore_snapshot s1 s2 data :
  wf (_storage s1) → wf (_storage s2) → snapshot s1 = Ok data →
  ∃ s', restore data s2 = (s', Ok tt) ∧ same_rows (_storage s') (_storage s1) ∧
        _last_applied_timestamp s' = _last_applied_timestamp s1.
Proof.
  intros Hw1 Hw2 (blob&Hd&Hp)%rbind_Ok.
  destruct (load_dump _ _ _ Hw1 Hw2 Hd) as (e'&Hload&_&Hs).
  pose proof (packb_not_empty _ _ Hp) as Hne. unfold restore.
  destruct data as [|b data]; [done|]. clear Hne. rewrite (unpackb_packb _ _ Hp).
  do 3 (erewrite lift_run by done). unfold bind, load_storage at 1. rewrite Hload. by eexists.
Qed.

(** C18: A snapshot stands for the log it replaces.  Restoring, on any replica, what
    [snapshot] produced succeeds; every point read, range read, lock query and write-record
    query then answers as on the replica the snapshot was taken from; and every later
    command gets the same answer on both, whatever the clocks. *)
Theorem snapshot_stands_for_log s1 s2 data :
  store_inv (_storage s1) → wf (_storage s2) → snapshot s1 = Ok data →
  ∃ s', restore data s2 = (s', Ok tt) ∧
    (∀ k ts, get s' k ts = get s1 k ts) ∧
    (∀ a b ts, MVCCStateMachine.scan_versions s' a b ts = MVCCStateMachine.scan_versions s1 a b ts) ∧
    (∀ k, get_lock_status s' k = get_lock_status s1 k ∧ get_write_record s' k = get_write_record s1 k) ∧
    ∀ cmds clock1 clock2, length clock1 = length cmds → length clock2 = length cmds →
      answers (zip clock1 cmds) s' = answers (zip clock2 cmds) s1.
Proof.
  intros Hi Hw Hsnap. destruct (restore_snapshot s1 s2 data (inv_wf _ Hi) Hw Hsnap) as (s'&Hr&Hs&Hl).
  exists s'. split_and!; [done| | | |].
  - intros k ts. unfold get. rewrite Hl, (get_newest_lock_proper _ _ Hs k k eq_refl). by rewrite (get_version_proper _ _ Hs k k eq_refl _ _ eq_refl).
  - intros a b ts. unfold MVCCStateMachine.scan_versions. rewrite Hl.
    rewrite (scan_versions_proper _ _ Hs a a eq_refl b b eq_refl _ _ eq_refl). by rewrite (iter_locks_proper _ _ Hs).
  - intros k. unfold get_lock_status, get_write_record. 
    by rewrite (get_newest_lock_proper _ _ Hs k k eq_refl), (get_latest_write_proper _ _ Hs k k eq_refl).
  - intros cmds c1 c2 H1' H2'. apply (sim_log cmds c1 c2 s' s1 H1' H2'). by apply sim_restored.
Qed.

End replicas.
