(* ===== verification/Groups.v ===== *)
(** A Raft group as its clients see it, and the wire codes of [groups.py].

    [Group] is what the timestamp client, the metadata client and the servicers use of a
    Raft node: whether it leads, and [propose].  [GroupLaws] is what a node promises them:
    the committed commands form one log that only grows, and a successful answer is the
    state machine's answer to the command at the position it was committed at.
    [LocalGroup] is a group of one that keeps the promise. *)

From S2P Require Import Prelude Bytes PyVal StateMachine.

(** The error codes of [proto/groups.proto]. *)
Module groups_pb2.
Definition OK : Z := 0.
Definition NOT_LEADER : Z := 1.
Definition LOCKED : Z := 2.
Definition REFUSED : Z := 3.
Definition TIMEOUT : Z := 4.
End groups_pb2.

Definition wire_code (error_code : option Z) : Z :=
  if match error_code with None => true | Some c => c =? ErrorCode.SUCCESS end then groups_pb2.OK
  else if is_not_leader error_code then groups_pb2.NOT_LEADER
  else if match error_code with None => false | Some c => c =? ErrorCode.ERR_TIMEOUT end
  then groups_pb2.TIMEOUT
  else groups_pb2.REFUSED.

Definition local_code (error_code : option Z) : Z :=
  match error_code with
  | Some c => if c =? groups_pb2.NOT_LEADER then ErrorCode.ERR_NOT_LEADER
              else if c =? groups_pb2.LOCKED then ErrorCode.ERR_LOCKED
              else if c =? groups_pb2.TIMEOUT then ErrorCode.ERR_TIMEOUT
              else ErrorCode.ERR_APPLY_ERROR
  | None => ErrorCode.ERR_APPLY_ERROR
  end.

(** The arguments of a refusal, less the message, which is prose. *)
Record Refusal := { rf_error_code : Z; rf_leader_address : option string }.

(** [leader_address] is [None] for a servicer that was given no callable, and otherwise what
    the callable answers now. *)
Definition refusal (error_code : option Z) (leader_address : option (option string)) : Refusal :=
  let code := wire_code error_code in
  {| rf_error_code := code;
     rf_leader_address :=
       if code =? groups_pb2.NOT_LEADER then
         match leader_address with
         | Some (Some address) => if decide (address = EmptyString) then None else Some address
         | _ => None
         end
       else None |}.

(** ** The interface *)

Class Group (N : Type) := {
  g_is_leader : N → bool;
  g_propose : bytes → N → N * ApplyResult
}.

(** The commands committed so far, oldest first, and the machine they are applied to. *)
Class GroupLaws (N S : Type) `{Group N} (sm_apply : bytes → S → S * ApplyResult) (s0 : S) := {
  g_log : N → list bytes;
  g_propose_spec c n n' r : g_propose c n = (n', r) →
    ∃ before after, g_log n' = g_log n ++ before ++ after ∧
      (ar_success r = true → ∃ rest, after = c :: rest ∧
         let answer := (sm_apply c (foldl (λ s c, (sm_apply c s).1) s0 (g_log n ++ before))).2 in
         ar_success answer = true ∧ ar_data r = ar_data answer)
}.
Arguments g_log {N S _ sm_apply s0 _} _.

(** A group of one: every proposal commits at once. *)
Module LocalGroup.
Section local.
Context {S : Type} (sm_apply : bytes → S → S * ApplyResult) (s0 : S).

Record t := { log : list bytes; machine : S }.
Definition init : t := {| log := []; machine := s0 |}.
Definition propose (c : bytes) (n : t) : t * ApplyResult :=
  let '(s, r) := sm_apply c (machine n) in ({| log := log n ++ [c]; machine := s |}, r).

End local.
Arguments t : clear implicits.

(** The nodes reached from [init]: the machine is where the log leads. *)
Definition node {S} (sm_apply : bytes → S → S * ApplyResult) (s0 : S) : Type :=
  { n : t S | machine n = foldl (λ s c, (sm_apply c s).1) s0 (log n) }.

Lemma propose_machine {S} (sm_apply : bytes → S → S * ApplyResult) s0 c (n : t S) :
  machine n = foldl (λ s c, (sm_apply c s).1) s0 (log n) →
  machine (propose sm_apply c n).1
  = foldl (λ s c, (sm_apply c s).1) s0 (log (propose sm_apply c n).1).
Proof.
  intros Hm. unfold propose. destruct (sm_apply c (machine n)) as [s r] eqn:Ha. cbn.
  rewrite foldl_app, <-Hm. cbn. by rewrite Ha.
Qed.

#[global] Instance group {S} (sm_apply : bytes → S → S * ApplyResult) s0
    : Group (node sm_apply s0) := {|
  g_is_leader _ := true;
  g_propose c n := (exist _ (propose sm_apply c (proj1_sig n)).1
                      (propose_machine sm_apply s0 c (proj1_sig n) (proj2_sig n)),
                    (propose sm_apply c (proj1_sig n)).2) |}.

#[global] Instance laws {S} (sm_apply : bytes → S → S * ApplyResult) s0
    : GroupLaws (node sm_apply s0) S sm_apply s0.
Proof.
  refine {| g_log n := log (proj1_sig n) |}.
  intros c [n Hn] n' r [= <- <-]. cbn. exists [], [c].
  rewrite app_nil_r, <-Hn. unfold propose.
  destruct (sm_apply c (machine n)) as [s r] eqn:Ha. cbn. split; [done|].
  intros Hr. by exists [].
Defined.

Definition start {S} (sm_apply : bytes → S → S * ApplyResult) (s0 : S) : node sm_apply s0 :=
  exist _ (init s0) eq_refl.
End LocalGroup.

(** ** Wire codes *)

(** A refusal survives the wire.  A caller that reads back a code it was sent takes the
    same decision the group's own code asked for: "not the leader" stays "not the leader",
    a timeout stays a timeout, every other refusal becomes one that is not worth repeating,
    and only success is sent as OK.  An address is sent with exactly the first. *)
Theorem wire_code_roundtrip c leader :
  let r := refusal c leader in
  let back := local_code (Some (rf_error_code r)) in
  (rf_error_code r = groups_pb2.OK ↔ c = None ∨ c = Some ErrorCode.SUCCESS) ∧
  (is_not_leader (Some back) = is_not_leader c) ∧
  (back = ErrorCode.ERR_TIMEOUT ↔ c = Some ErrorCode.ERR_TIMEOUT) ∧
  (is_Some (rf_leader_address r) → is_not_leader c = true) ∧
  rf_error_code r ≠ groups_pb2.LOCKED.
Proof.
  unfold refusal, wire_code, local_code, is_not_leader. cbn.
  destruct c as [c|]; cbn; [|split_and!; naive_solver].
  unfold ErrorCode.SUCCESS, ErrorCode.ERR_NOT_LEADER, ErrorCode.ERR_LEADERSHIP_LOST,
    ErrorCode.ERR_TIMEOUT.
  destruct (Z.eqb_spec c 0) as [->|H0]; [split_and!; naive_solver|].
  destruct (Z.eqb_spec c 301) as [->|H1]; cbn; [split_and!; naive_solver|].
  destruct (Z.eqb_spec c 302) as [->|H2]; cbn; [split_and!; naive_solver|].
  destruct (Z.eqb_spec c 303) as [->|H3]; cbn; split_and!; naive_solver.
Qed.
