(* ===== verification/Tso.v ===== *)
(** The clocks: the timestamp group of [tso/tso.py] - its state machine, its client and its
    servicer - and the process-local allocator of [storage/timestamp.py].

    The commands carry integers: a batch size that is not one is refused. *)

From Stdlib Require Import ZArith Lia.
From S2P Require Import Prelude Bytes PyVal StateMachine Groups.

Definition ALLOCATE : bytes := b_ "allocate".
Definition DEFAULT_BATCH_SIZE : Z := 1000.

Module TSOSMStateMachine.
Section machine.
Context `{Msgpack}.

Record t := { _current_ts : Z }.
Definition init : t := {| _current_ts := 0 |}.

Definition range_payload (start_ts end_ts : Z) : pyval :=
  PDict [("start_ts"%string, PInt start_ts); ("end_ts"%string, PInt end_ts)].

(** The counter moves before the answer is packed: an answer that does not fit 64 bits is
    refused with the counter moved. *)
Definition _apply_allocate (batch_size : pyval) : M t ApplyResult :=
  let* n := reads (λ _, as_int batch_size) in
  let* start_ts := reads (λ s, Ok (_current_ts s + 1)) in
  let* end_ts := reads (λ s, Ok (_current_ts s + n)) in
  updates (λ _, Ok {| _current_ts := end_ts |});;;
  let* data := reads (λ _, packb (range_payload start_ts end_ts)) in
  ret (apply_success (Some data)).

Definition apply (command : bytes) (s : t) : t * ApplyResult :=
  match (let* cmd := reads (λ _, unpackb command) in
         let* cmd_type := reads (λ _, py_get cmd "type") in
         if decide (cmd_type = PBytes ALLOCATE) then
           let* batch_size := reads (λ _, py_get_or cmd "batch_size" (PInt 1000)) in
           _apply_allocate batch_size
         else ret (apply_success None)) s with
  | (s', Ok r) => (s', r)
  | (s', Raise _) => (s', apply_failure 1)
  end.

Definition get_current_ts (s : t) : Z := _current_ts s.

Definition serialize_command (cmd_type : bytes) (kwargs : list (string * pyval)) : result bytes :=
  packb (PDict (("type"%string, PBytes cmd_type) :: kwargs)).

Definition snapshot (s : t) : result bytes :=
  packb (PDict [("current_ts"%string, PInt (_current_ts s))]).

Definition restore (data : bytes) : M t unit :=
  match data with
  | [] => updates (λ _, Ok {| _current_ts := 0 |})
  | _ => updates (λ _, let? record := unpackb data in
                       let? v := py_index record "current_ts" in
                       let? z := as_int v in
                       Ok {| _current_ts := z |})
  end.

End machine.
End TSOSMStateMachine.
Import TSOSMStateMachine.

(** [result_data.get(name, 0)], used as a number. *)
Definition get_int (data : pyval) (name : string) : result Z :=
  let? v := py_get_or data name (PInt 0) in as_int v.

(** [msgpack.unpackb(result.data) if result.data else {}]. *)
Definition unpack_data `{Msgpack} (data : option bytes) : result pyval :=
  match data with
  | None | Some [] => Ok (PDict [])
  | Some d => unpackb d
  end.

Module TSOClient.
Section client.
Context `{Msgpack} {N : Type} `{Group N}.

Record t := { _batch_size : Z; _local_start : Z; _local_end : Z }.
Definition init (batch_size : Z) : t :=
  {| _batch_size := batch_size; _local_start := 0; _local_end := 0 |}.

(** The run a client keeps of an answer; an answer it cannot read leaves it with none. *)
Definition keep_run (c : t) (data : option bytes) : t :=
  match (let? result_data := unpack_data data in
         let? s := get_int result_data "start_ts" in
         let? e := get_int result_data "end_ts" in
         Ok (s, e + 1)) with
  | Ok (s, e) => {| _batch_size := _batch_size c; _local_start := s; _local_end := e |}
  | Raise _ => {| _batch_size := _batch_size c; _local_start := 0; _local_end := 0 |}
  end.

Definition _fetch_batch : M (N * t) unit := λ '(n, c),
  if negb (g_is_leader n) then ((n, c), Raise RuntimeError)
  else match serialize_command ALLOCATE [("batch_size"%string, PInt (_batch_size c))] with
  | Raise x => ((n, c), Raise x)
  | Ok command =>
      let '(n', r) := g_propose command n in
      if negb (ar_success r) then ((n', c), Raise RuntimeError)
      else ((n', keep_run c (ar_data r)), Ok tt)
  end.

Definition get_timestamp : M (N * t) Z :=
  (λ '(n, c), if _local_start c >=? _local_end c then _fetch_batch (n, c) else ((n, c), Ok tt));;;
  (λ '(n, c), ((n, {| _batch_size := _batch_size c; _local_start := _local_start c + 1;
                      _local_end := _local_end c |}), Ok (_local_start c))).

(** [for _ in range(count)]: a count below one asks for nothing. *)
Fixpoint batch_loop (count : nat) : M (N * t) (list Z) :=
  match count with
  | O => ret []
  | S count => let* ts := get_timestamp in
               let* rest := batch_loop count in
               ret (ts :: rest)
  end.
Definition batch_get_timestamps (count : Z) : M (N * t) (list Z) := batch_loop (Z.to_nat count).

End client.
End TSOClient.

Module TSOServicer.
Section servicer.
Context `{Msgpack} {N : Type} `{Group N}.

(** A response of the service: an error code, the leader's address with a refusal, and the
    fields of the answer.  An [int64] field takes no other integer. *)
Record response (A : Type) := { rs_code : Z; rs_leader : option string; rs_answer : option A }.
Arguments rs_code {A} _.
Arguments rs_leader {A} _.
Arguments rs_answer {A} _.

Definition refused {A} (f : Refusal) : response A :=
  {| rs_code := rf_error_code f; rs_leader := rf_leader_address f; rs_answer := None |}.
Definition answered {A} (a : A) : response A :=
  {| rs_code := groups_pb2.OK; rs_leader := None; rs_answer := Some a |}.

Definition int64 (z : Z) : result Z :=
  if (- 2 ^ 63 <=? z) && (z <? 2 ^ 63) then Ok z else Raise ValueError.

Definition _allocate (leader_address : option (option string)) (count : Z)
    : M N (pyval + Refusal) := λ n,
  match serialize_command ALLOCATE [("batch_size"%string, PInt count)] with
  | Raise x => (n, Raise x)
  | Ok command =>
      let '(n', r) := g_propose command n in
      if negb (ar_success r) then (n', Ok (inr (refusal (ar_error_code r) leader_address)))
      else (n', let? data := unpack_data (ar_data r) in Ok (inl data))
  end.

Definition GetTimestamp (leader_address : option (option string)) : M N (response Z) :=
  let* r := _allocate leader_address 1 in
  match r with
  | inr f => ret (refused f)
  | inl data => let* ts := reads (λ _, let? z := get_int data "start_ts" in int64 z) in
                ret (answered ts)
  end.

Definition GetTimestampBatch (leader_address : option (option string)) (count : Z)
    : M N (response (Z * Z)) :=
  if count <? 1 then ret (refused (refusal (Some ErrorCode.ERR_UNKNOWN) None))
  else
  let* r := _allocate leader_address count in
  match r with
  | inr f => ret (refused f)
  | inl data => let* s := reads (λ _, let? z := get_int data "start_ts" in int64 z) in
                let* e := reads (λ _, let? z := get_int data "end_ts" in int64 z) in
                ret (answered (s, e))
  end.

End servicer.
Arguments rs_code {A} _.
Arguments rs_leader {A} _.
Arguments rs_answer {A} _.
End TSOServicer.

Module TimestampAllocator.
Record t := { _last_timestamp : Z }.
(** The clock is read once when the allocator is made and once per call. *)
Definition init (now : Z) : t := {| _last_timestamp := now |}.
Definition allocate (now : Z) (a : t) : t * Z :=
  let last := if now >? _last_timestamp a then now else _last_timestamp a + 1 in
  ({| _last_timestamp := last |}, last).
Definition get_current (a : t) : Z := _last_timestamp a.

(** What a sequence of calls hands out, one clock reading per call. *)
Fixpoint allocate_all (clock : list Z) (a : t) : list Z :=
  match clock with
  | [] => []
  | now :: clock => (allocate now a).2 :: allocate_all clock (allocate now a).1
  end.

(** The local allocator never repeats and never goes back, whatever the clock does:
    every timestamp it hands out is greater than every one before it and than the time it
    was started at, and is not behind the clock reading of its call. *)
Theorem allocator_strictly_increasing clock a :
  StronglySorted Z.lt (_last_timestamp a :: allocate_all clock a) ∧
  Forall2 Z.le clock (allocate_all clock a).
Proof.
  revert a. induction clock as [|now clock IH]; intros a; cbn; [repeat constructor|].
  destruct (IH (allocate now a).1) as [Hs Hc].
  assert (_last_timestamp a < (allocate now a).2 ∧ now ≤ (allocate now a).2) as [H1 H2].
  { cbn. destruct (Z.gtb_spec now (_last_timestamp a)); lia. }
  cbn in *. split; [|by constructor]. constructor; [done|]. constructor; [done|].
  apply StronglySorted_inv in Hs as [_ Hs].
  eapply list.Forall_impl; [exact Hs|]. intros. cbn in *. lia.
Qed.
End TimestampAllocator.

(** ** Runs *)

Section runs.
Context `{!Msgpack}.
Implicit Types s : TSOSMStateMachine.t.

(** A command that does not move the counter back. *)
Definition forward (command : bytes) : Prop :=
  ∀ cmd v z, unpackb command = Ok cmd → py_get_or cmd "batch_size" (PInt 1000) = Ok v →
    as_int v = Ok z → 0 ≤ z.

(** The run an answer carries, both ends inclusive. *)
Definition answered_run (r : ApplyResult) : option (Z * Z) :=
  match ar_data r with
  | None => None
  | Some data =>
      match (let? d := unpack_data (Some data) in
             let? a := get_int d "start_ts" in let? b := get_int d "end_ts" in Ok (a, b)) with
      | Ok run => Some run
      | Raise _ => None
      end
  end.

Lemma unpack_packed v data : packb v = Ok data → unpack_data (Some data) = Ok v.
Proof.
  intros Hp. pose proof (packb_not_empty _ _ Hp). destruct data; [done|]. by apply unpackb_packb.
Qed.

(** Every command leaves the counter alone and hands nothing out, or moves it by the size
    of a run and hands out that run or nothing. *)
Lemma apply_cases command s :
  (apply command s).1 = s ∧ ar_data (apply command s).2 = None ∨
  ∃ n, (forward command → 0 ≤ n) ∧
    _current_ts (apply command s).1 = _current_ts s + n ∧
    (apply command s).2 = match packb (range_payload (_current_ts s + 1) (_current_ts s + n)) with
                          | Ok data => apply_success (Some data)
                          | Raise _ => apply_failure 1
                          end.
Proof.
  unfold apply, _apply_allocate, bind, reads, updates, forward.
  destruct (unpackb command) as [cmd|]; [|by left]. cbn.
  destruct (py_get cmd "type") as [ty|]; [|by left]. cbn. case_decide; [|by left].
  destruct (py_get_or cmd "batch_size" _) as [v|] eqn:Hb; [|by left]. cbn.
  destruct (as_int v) as [n|] eqn:Hn; [|by left]. cbn.
  right. exists n. split; [eauto|]. by destruct (packb _).
Qed.

Lemma apply_run command s data :
  (apply command s).2 = apply_success (Some data) →
  ∃ n, (forward command → 0 ≤ n) ∧ _current_ts (apply command s).1 = _current_ts s + n ∧
       unpack_data (Some data) = Ok (range_payload (_current_ts s + 1) (_current_ts s + n)).
Proof.
  intros Hr. destruct (apply_cases command s) as [[_ Hn]|(n&Hf&Hc&Hp)]; [by rewrite Hr in Hn|].
  exists n. split_and!; [done..|]. rewrite Hr in Hp. destruct (packb _) eqn:Hd; [|done].
  injection Hp as ->. by apply unpack_packed.
Qed.

Lemma apply_counter command s : forward command → _current_ts s ≤ _current_ts (apply command s).1.
Proof. intros Hf. destruct (apply_cases command s) as [[-> _]|(n&Hn&->&_)]; [lia|]. specialize (Hn Hf). lia. Qed.

Definition after (log : list bytes) s : TSOSMStateMachine.t := foldl (λ s c, (apply c s).1) s log.

Lemma after_counter log s : Forall forward log → _current_ts s ≤ _current_ts (after log s).
Proof.
  revert s. induction log as [|c log IH]; intros s; cbn; [lia|].
  intros [Hc Hl]%Forall_cons. pose proof (apply_counter c s Hc). specialize (IH (apply c s).1 Hl).
  unfold after in *. lia.
Qed.

Lemma after_app log1 log2 s : after (log1 ++ log2) s = after log2 (after log1 s).
Proof. apply foldl_app. Qed.

(** The runs a log hands out, in order. *)
Fixpoint runs (log : list bytes) s : list (Z * Z) :=
  match log with
  | [] => []
  | c :: log => option_list (answered_run (apply c s).2) ++ runs log (apply c s).1
  end.

Lemma answered_run_bounds c s a b :
  forward c → answered_run (apply c s).2 = Some (a, b) →
  _current_ts s < a ∧ b = _current_ts (apply c s).1.
Proof.
  intros Hf. unfold answered_run.
  destruct (apply_cases c s) as [[_ ->]|(n&Hn&->&->)]; [done|].
  destruct (packb _) as [data|] eqn:Hp; [|done]. cbn [ar_data apply_success].
  rewrite (unpack_packed _ _ Hp). cbn. intros [= <- <-]. lia.
Qed.

Lemma runs_above log s : Forall forward log → Forall (λ r, _current_ts s < r.1) (runs log s).
Proof.
  revert s. induction log as [|c log IH]; intros s; cbn; [done|].
  intros [Hc Hl]%Forall_cons. apply Forall_app. split.
  - destruct (answered_run _) as [[a b]|] eqn:Hr; [|done]. apply answered_run_bounds in Hr; [|done].
    constructor; [|done]. cbn. lia.
  - eapply list.Forall_impl; [by apply IH|]. cbn. intros r Hr. pose proof (apply_counter c s Hc). lia.
Qed.

Lemma runs_app log1 log2 s : runs (log1 ++ log2) s = runs log1 s ++ runs log2 (after log1 s).
Proof. revert s. induction log1 as [|c l IH]; intros s; cbn; [done|]. by rewrite IH, app_assoc. Qed.

Lemma runs_sorted log s : Forall forward log → StronglySorted (λ r1 r2, r1.2 < r2.1) (runs log s).
Proof.
  revert s. induction log as [|c log IH]; intros s; cbn; [constructor|].
  intros [Hc Hl]%Forall_cons. destruct (answered_run _) as [[a b]|] eqn:Hr; cbn; [|auto].
  apply answered_run_bounds in Hr as [_ ->]; [|done]. constructor; [auto|].
  eapply list.Forall_impl; [by apply runs_above|]. done.
Qed.

Lemma restore_counter s s' data : snapshot s = Ok data → restore data s' = (s, Ok tt).
Proof.
  intros Hp. pose proof (packb_not_empty _ _ Hp). unfold restore. destruct data; [done|].
  unfold updates. rewrite (unpackb_packb _ _ Hp). cbn. by destruct s.
Qed.

(** The timestamp group never hands a timestamp out twice.  The runs a log of forward
    commands hands out come in increasing order and never overlap - also across a snapshot:
    a replica that restored the snapshot hands out only runs above all of them. *)
Theorem tso_runs_never_overlap log1 log2 s other data :
  Forall forward log1 → Forall forward log2 → snapshot (after log1 s) = Ok data →
  ∃ s', restore data other = (s', Ok tt) ∧
    StronglySorted (λ r1 r2, r1.2 < r2.1) (runs log1 s ++ runs log2 s').
Proof.
  intros H1 H2 Hs. exists (after log1 s). split; [by apply restore_counter|].
  rewrite <-runs_app. apply runs_sorted, Forall_app; done.
Qed.

(** An allocation answers exactly the run that was asked for.  The run has as many
    timestamps as the batch, starts right after the last one handed out, and the counter
    ends at its end; it is answered exactly when its ends fit the codec's 64 bits. *)
Theorem allocate_answers_run n s c :
  serialize_command ALLOCATE [("batch_size"%string, PInt n)] = Ok c →
  _current_ts (apply c s).1 = _current_ts s + n ∧
  if packable (range_payload (_current_ts s + 1) (_current_ts s + n))
  then ar_success (apply c s).2 = true ∧
       answered_run (apply c s).2 = Some (_current_ts s + 1, _current_ts s + n)
  else (apply c s).2 = apply_failure 1.
Proof.
  intros Hc. unfold apply, bind, reads. rewrite (unpackb_packb _ _ Hc).
  cbn -[packable range_payload ALLOCATE]. decides. cbn -[packable range_payload].
  destruct (packable _) eqn:Hp.
  - destruct (proj1 (packb_packable _) Hp) as [data Hd]. rewrite Hd. split_and!; [done..|].
    unfold answered_run, ret. cbn [ar_data apply_success snd]. by rewrite (unpack_packed _ _ Hd).
  - destruct (packb _) as [data|] eqn:Hd; [|done].
    assert (is_Ok (packb (range_payload (_current_ts s + 1) (_current_ts s + n)))) as Ho by (by eexists).
    apply packb_packable in Ho. by rewrite Hp in Ho.
Qed.

End runs.

(** ** Clients of one timestamp group *)

Section clients.
Context `{!Msgpack} {N : Type} `{!Group N}.
Context `{!GroupLaws N TSOSMStateMachine.t apply TSOSMStateMachine.init}.
Import TSOClient.
Implicit Types (n : N) (c : TSOClient.t) (cs : list TSOClient.t).

(** The counter where the group's log leads. *)
Definition counter n : Z := _current_ts (after (g_log n) TSOSMStateMachine.init).

(** A timestamp the client still holds. *)
Definition live c (x : Z) : Prop := _local_start c ≤ x < _local_end c.

(** Client [i] asks for one timestamp; [None]: the call raised. *)
Definition call (i : nat) (st : N * list TSOClient.t) : (N * list TSOClient.t) * option Z :=
  match st.2 !! i with
  | None => (st, None)
  | Some c =>
      match get_timestamp (st.1, c) with
      | ((n', c'), Ok ts) => ((n', <[i := c']> st.2), Some ts)
      | ((n', c'), Raise _) => ((n', <[i := c']> st.2), None)
      end
  end.

(** A sequence of calls by any clients, and what each client was given. *)
Fixpoint calls (who : list nat) (st : N * list TSOClient.t)
    : (N * list TSOClient.t) * list (nat * Z) :=
  match who with
  | [] => (st, [])
  | i :: who =>
      let '(st', r) := call i st in
      let '(st'', out) := calls who st' in
      (st'', option_list (pair i <$> r) ++ out)
  end.

Lemma propose_counter cmd n n' r :
  g_propose cmd n = (n', r) → Forall forward (g_log n') →
  Forall forward (g_log n) ∧ counter n ≤ counter n' ∧
  (ar_success r = true → ∃ s, counter n ≤ _current_ts s ∧ _current_ts (apply cmd s).1 ≤ counter n' ∧
     ar_data r = ar_data (apply cmd s).2 ∧ ar_success (apply cmd s).2 = true).
Proof.
  intros (before&rest&Hl&Hr)%g_propose_spec Hf. unfold counter. rewrite Hl in *.
  apply Forall_app in Hf as [Hf1 [Hf2 Hf3]%Forall_app]. split_and!; [done| |].
  - rewrite after_app. apply after_counter, Forall_app; done.
  - intros Hs. destruct (Hr Hs) as (tl&->&Ha&Hd). apply Forall_cons in Hf3 as [Hc Htl].
    exists (after (g_log n ++ before) TSOSMStateMachine.init). split_and!; [| |done..].
    + rewrite after_app. by apply after_counter.
    + rewrite (app_assoc (g_log n)), (after_app (_ ++ before)). exact (after_counter tl (apply cmd _).1 Htl).
Qed.

Lemma fetch_batch_spec n c n' c' :
  1 ≤ _batch_size c → _fetch_batch (n, c) = ((n', c'), Ok tt) → Forall forward (g_log n') →
  Forall forward (g_log n) ∧ counter n ≤ counter n' ∧ counter n < _local_start c' ∧
  _local_start c' < _local_end c' ≤ counter n' + 1 ∧ _batch_size c' = _batch_size c.
Proof.
  intros Hb Hf Hlog. unfold _fetch_batch in Hf. destruct (g_is_leader n); [|done]. cbn in Hf.
  destruct (serialize_command _ _) as [cmd|] eqn:Hc; [|done].
  destruct (g_propose cmd n) as [n1 r] eqn:Hp. destruct (ar_success r) eqn:Hs; [|done]. cbn in Hf.
  injection Hf as <- <-. destruct (propose_counter _ _ _ _ Hp Hlog) as (Hl&Hle&Hrun).
  destruct (Hrun Hs) as (s&H1&H2&Hd&Hok). split_and!; [done..| | | |].
  all: rewrite Hd; revert H2 Hok; unfold apply, bind, reads; rewrite (unpackb_packb _ _ Hc);
    cbn -[range_payload ALLOCATE]; decides; cbn -[range_payload keep_run].
  all: destruct (packb _) as [data|] eqn:Hpk; cbn -[range_payload keep_run]; [|done]; intros H2 _;
    unfold keep_run; rewrite (unpack_packed _ _ Hpk); cbn; decides; cbn; lia || done.
Qed.

Lemma fetch_batch_raise n c n' c' x :
  _fetch_batch (n, c) = ((n', c'), Raise x) → Forall forward (g_log n') →
  c' = c ∧ Forall forward (g_log n) ∧ counter n ≤ counter n'.
Proof.
  unfold _fetch_batch. destruct (g_is_leader n); cbn; [|naive_solver].
  destruct (serialize_command _ _) as [cmd|]; [|naive_solver].
  destruct (g_propose cmd n) as [n1 r] eqn:Hp. destruct (ar_success r); [done|]. cbn.
  intros [= <- <- <-] Hlog. destruct (propose_counter _ _ _ _ Hp Hlog) as (?&?&_). done.
Qed.

(** A client has taken one timestamp that was live or is newly allocated, or none. *)
Definition took n c n' c' (r : option Z) : Prop :=
  counter n ≤ counter n' ∧ _batch_size c' = _batch_size c ∧
  (∀ x, live c' x → live c x ∨ counter n < x ≤ counter n') ∧
  match r with
  | Some ts => (live c ts ∨ counter n < ts ≤ counter n') ∧ ¬ live c' ts ∧
               (∀ x, live c' x → ts < x) ∧ (live c ts → ∀ x, live c' x → live c x)
  | None => c' = c
  end.

(** What [r] hands out. *)
Definition given_of (r : result Z) : option Z := match r with Ok ts => Some ts | Raise _ => None end.

Lemma get_timestamp_spec n c n' c' r :
  1 ≤ _batch_size c → get_timestamp (n, c) = ((n', c'), r) → Forall forward (g_log n') →
  Forall forward (g_log n) ∧ took n c n' c' (given_of r).
Proof.
  intros Hb Hg Hlog. unfold took. unfold get_timestamp, bind in Hg.
  destruct (Z.geb_spec (_local_start c) (_local_end c)) as [Hge|Hlt].
  - destruct (_fetch_batch (n, c)) as [[n1 c1] [[]|x]] eqn:Hf.
    + injection Hg as <- <- <-.
      destruct (fetch_batch_spec _ _ _ _ Hb Hf Hlog) as (?&?&?&?&?).
      unfold live. cbn. split_and!; try done; intros; lia.
    + injection Hg as <- <- <-. destruct (fetch_batch_raise _ _ _ _ _ Hf Hlog) as (->&?&?).
      split_and!; try done. auto.
  - injection Hg as <- <- <-. unfold live. cbn. split_and!; try done; intros; lia.
Qed.

(** What keeps the clients apart. *)
Record apart (n : N) (cs : list TSOClient.t) (given : list (nat * Z)) : Prop := {
  ap_batch i c : cs !! i = Some c → 1 ≤ _batch_size c;
  ap_live i c x : cs !! i = Some c → live c x → x ≤ counter n;
  ap_disjoint i j c d x : cs !! i = Some c → cs !! j = Some d → live c x → live d x → i = j;
  ap_given i c j x : cs !! i = Some c → (j, x) ∈ given → x ≤ counter n ∧ ¬ live c x;
  ap_own i c x y : cs !! i = Some c → (i, x) ∈ given → live c y → x < y
}.

Lemma apart_step i n cs given c n' c' r :
  apart n cs given → cs !! i = Some c → took n c n' c' r →
  apart n' (<[i := c']> cs) (given ++ option_list (pair i <$> r)) ∧
  match r with
  | Some ts => Forall (λ p, p.2 ≠ ts ∧ (p.1 = i → p.2 < ts)) given
  | None => True
  end.
Proof.
  intros [A1 A2 A3 A4 A5] Hi (Hle&Hbs&Hl&Hr). pose proof (A1 _ _ Hi) as Hb.
  assert (Hlook : ∀ j d, <[i := c']> cs !! j = Some d → j = i ∧ d = c' ∨ j ≠ i ∧ cs !! j = Some d).
  { intros j d Hj. destruct (decide (j = i)) as [->|Hne].
    - rewrite list_lookup_insert_eq in Hj by (by eapply lookup_lt_Some). naive_solver.
    - rewrite list_lookup_insert_ne in Hj by done. auto. }
  assert (Hnew : ∀ j x, (j, x) ∈ option_list (pair i <$> r) → j = i ∧ r = Some x).
  { intros j x. destruct r; cbn; rewrite ?list_elem_of_singleton; [naive_solver|]. by intros ?%elem_of_nil. }
  split; [split|].
  - intros j d [[-> ->]|[_ ?]]%Hlook; [lia|eauto].
  - intros j d x [[-> ->]|[_ Hd]]%Hlook Hx; [|specialize (A2 _ _ _ Hd Hx); lia].
    destruct (Hl _ Hx) as [Hx'|]; [|lia]. specialize (A2 _ _ _ Hi Hx'). lia.
  - intros j k d e x [[-> ->]|[Hj Hd]]%Hlook [[-> ->]|[Hk He]]%Hlook Hx Hy; [done| | |by eapply A3].
    + destruct (Hl _ Hx) as [?|?]; [by eapply A3|]. specialize (A2 _ _ _ He Hy). lia.
    + destruct (Hl _ Hy) as [?|?]; [by eapply A3|]. specialize (A2 _ _ _ Hd Hx). lia.
  - intros j d k x Hj%Hlook [Hin|[-> ->]%Hnew]%elem_of_app.
    + destruct (A4 _ _ _ _ Hi Hin) as [Hx Hnl]. split; [lia|].
      destruct Hj as [[-> ->]|[_ Hd]]; [|by apply (A4 _ _ _ _ Hd Hin)].
      intros [?|?]%Hl; [done|lia].
    + destruct Hr as (Hts&Hnl&_&_). split.
      * destruct Hts as [Hx|?]; [specialize (A2 _ _ _ Hi Hx); lia|lia].
      * destruct Hj as [[-> ->]|[Hne Hd]]; [done|]. intros Hx. destruct Hts as [?|?].
        -- by destruct Hne; eapply A3.
        -- specialize (A2 _ _ _ Hd Hx). lia.
  - intros j d x y [[-> ->]|[Hne Hd]]%Hlook [Hin|[Heq ->]%Hnew]%elem_of_app Hy; [| | |done].
    + destruct (Hl _ Hy) as [?|?]; [by eapply A5|]. destruct (A4 _ _ _ _ Hi Hin). lia.
    + by apply Hr.
    + by eapply A5.
  - destruct r as [ts|]; [|done]. apply list.Forall_forall. intros [j x] Hin. cbn.
    destruct (A4 _ _ _ _ Hi Hin) as [Hx Hnl]. destruct Hr as ([Hts|Hts]&_).
    + split; [by intros ->|]. intros ->. by eapply A5.
    + split; lia.
Qed.

Lemma apart_call i n cs given n' cs' r :
  apart n cs given → call i (n, cs) = ((n', cs'), r) → Forall forward (g_log n') →
  Forall forward (g_log n) ∧ apart n' cs' (given ++ option_list (pair i <$> r)) ∧
  match r with
  | Some ts => Forall (λ p, p.2 ≠ ts ∧ (p.1 = i → p.2 < ts)) given
  | None => True
  end.
Proof.
  intros Ha Hcall Hlog. unfold call in Hcall. cbn in Hcall. destruct (cs !! i) as [c|] eqn:Hi.
  2:{ injection Hcall as <- <- <-. cbn. rewrite app_nil_r. by split_and!. }
  destruct (get_timestamp (n, c)) as [[n1 c1] r1] eqn:Hg.
  assert (n1 = n' ∧ cs' = <[i := c1]> cs ∧ r = given_of r1) as (->&->&->) by (destruct r1; naive_solver).
  destruct (get_timestamp_spec _ _ _ _ _ (ap_batch _ _ _ Ha _ _ Hi) Hg Hlog) as [Hf Ht].
  split; [done|]. by apply (apart_step i n cs given c).
Qed.

(** The group's log only grows. *)
Lemma call_log i st : g_log st.1 `prefix_of` g_log (call i st).1.1.
Proof.
  destruct st as [n cs]. unfold call, get_timestamp, _fetch_batch, bind. cbn.
  destruct (cs !! i) as [c|]; [|done]. destruct (_ >=? _); [|done].
  destruct (g_is_leader n); [|done]. cbn.
  destruct (serialize_command _ _) as [cmd|]; [|done].
  destruct (g_propose cmd n) as [n1 r] eqn:Hp. pose proof Hp as (b&a&Hl&_)%g_propose_spec.
  destruct (ar_success r); cbn; rewrite Hl; by eexists.
Qed.

Lemma calls_log who : ∀ st, g_log st.1 `prefix_of` g_log (calls who st).1.1.
Proof.
  induction who as [|i who IH]; intros st; cbn; [done|]. pose proof (call_log i st) as H1.
  destruct (call i st) as [st' r]. specialize (IH st'). destruct (calls who st') as [st'' out].
  cbn in *. by etrans.
Qed.

Definition given_lt (p q : nat * Z) : Prop := p.2 ≠ q.2 ∧ (p.1 = q.1 → p.2 < q.2).

Lemma calls_apart who : ∀ n cs given,
  apart n cs given → Forall forward (g_log (calls who (n, cs)).1.1) →
  StronglySorted given_lt given → StronglySorted given_lt (given ++ (calls who (n, cs)).2).
Proof.
  induction who as [|i who IH]; intros n cs given Ha Hlog Hs; cbn in *; [by rewrite app_nil_r|].
  destruct (call i (n, cs)) as [[n1 cs1] r] eqn:Hc.
  pose proof (calls_log who (n1, cs1)) as [tail Hp]. specialize (IH n1 cs1).
  destruct (calls who (n1, cs1)) as [[n2 cs2] out]. cbn in *.
  assert (Forall forward (g_log n1)) as Hf by (rewrite Hp in Hlog; by apply Forall_app in Hlog as [? _]).
  destruct (apart_call _ _ _ _ _ _ _ Ha Hc Hf) as (_&Ha'&Hnew).
  rewrite app_assoc. apply IH; [done..|]. destruct r as [ts|]; cbn; [|by rewrite app_nil_r].
  apply StronglySorted_app. split_and!; [|done|by repeat constructor].
  intros p q Hp' ->%list_elem_of_singleton. rewrite list.Forall_forall in Hnew. by apply Hnew.
Qed.

(** No two transactions get one timestamp.  Any number of clients of one timestamp
    group, each with its own run, calling in any order while others propose to the group as
    well: all the timestamps they are given are different, and each client's own come in
    increasing order. *)
Theorem tso_clients_never_collide who n sizes :
  Forall (λ z, 1 ≤ z) sizes →
  let '((n', _), given) := calls who (n, TSOClient.init <$> sizes) in
  Forall forward (g_log n') →
  StronglySorted (λ p q, p.2 ≠ q.2 ∧ (p.1 = q.1 → p.2 < q.2)) given.
Proof.
  intros Hsz. pose proof (calls_apart who n (TSOClient.init <$> sizes) []) as Hc.
  destruct (calls who _) as [[n' cs'] given]. cbn in Hc. intros Hlog. apply Hc; [|done|constructor].
  assert (Hi : ∀ i c, (TSOClient.init <$> sizes) !! i = Some c →
            1 ≤ _batch_size c ∧ ∀ x, ¬ live c x).
  { intros i c Hl. apply list_lookup_fmap_Some in Hl as (z&->&Hz).
    rewrite Forall_lookup in Hsz. split; [by apply (Hsz i)|]. unfold live. cbn. lia. }
  split.
  - intros i c Hl. by apply (Hi i).
  - intros i c x Hl Hx. by destruct (proj2 (Hi _ _ Hl) x).
  - intros i j c d x Hl _ Hx. by destruct (proj2 (Hi _ _ Hl) x).
  - by intros ? ? ? ? ? ?%elem_of_nil.
  - by intros ? ? ? ? ? ?%elem_of_nil.
Qed.
End clients.
