(* ===== verification/Dict.v ===== *)
(** Python dictionaries whose order matters: association lists with one entry per key, in
    insertion order.  [d_set] is [d[k] = v]: an entry that is there keeps its place. *)

From S2P Require Import Prelude.

Section dict.
Context {K V : Type} `{EqDecision K}.
Implicit Types d : list (K * V).

Fixpoint d_get d (k : K) : option V :=
  match d with
  | [] => None
  | (k', v) :: d => if decide (k' = k) then Some v else d_get d k
  end.

Fixpoint d_set d (k : K) (v : V) : list (K * V) :=
  match d with
  | [] => [(k, v)]
  | (k', v') :: d => if decide (k' = k) then (k', v) :: d else (k', v') :: d_set d k v
  end.

(** [d.pop(k, None)] and [del d[k]] of a key that is there. *)
Fixpoint d_pop d (k : K) : list (K * V) :=
  match d with
  | [] => []
  | (k', v) :: d => if decide (k' = k) then d else (k', v) :: d_pop d k
  end.

(** [{k: v for k, v in pairs}]. *)
Definition d_of (pairs : list (K * V)) : list (K * V) :=
  foldl (λ d e, d_set d e.1 e.2) [] pairs.

Lemma d_get_set d k v k' :
  d_get (d_set d k v) k' = if decide (k = k') then Some v else d_get d k'.
Proof.
  induction d as [|[k0 v0] d IH]; cbn; [done|].
  destruct (decide (k0 = k)) as [->|Hne]; cbn.
  - by repeat case_decide.
  - rewrite IH. repeat case_decide; congruence.
Qed.

Lemma d_get_Some_in d k v : d_get d k = Some v → (k, v) ∈ d.
Proof.
  induction d as [|[k0 v0] d IH]; cbn; [done|]. case_decide as Heq.
  - intros [= ->]. subst. by left.
  - intros. right. auto.
Qed.

Lemma d_get_None d k : d_get d k = None ↔ k ∉ d.*1.
Proof.
  induction d as [|[k0 v0] d IH]; cbn.
  - split; [|done]. intros _ ?%elem_of_nil. done.
  - rewrite not_elem_of_cons. case_decide; [naive_solver|]. rewrite IH. naive_solver.
Qed.

Lemma d_get_in d k v : NoDup d.*1 → (k, v) ∈ d → d_get d k = Some v.
Proof.
  induction d as [|[k0 v0] d IH]; cbn; [by intros _ ?%elem_of_nil|].
  intros [Hn Hd]%list.NoDup_cons [Heq|Hin]%elem_of_cons.
  - injection Heq as -> ->. by rewrite decide_True.
  - rewrite decide_False; [auto|]. intros ->. destruct Hn. apply list_elem_of_fmap. by exists (k, v).
Qed.

Lemma d_set_keys d k v : (d_set d k v).*1 = if decide (k ∈ d.*1) then d.*1 else d.*1 ++ [k].
Proof.
  induction d as [|[k0 v0] d IH]; cbn; [done|].
  destruct (decide (k0 = k)) as [->|Hne]; cbn.
  - rewrite decide_True; [done|]. by left.
  - rewrite IH. destruct (decide (k ∈ d.*1)).
    + rewrite decide_True; [done|]. by right.
    + rewrite decide_False; [done|]. by rewrite not_elem_of_cons.
Qed.

Lemma d_set_nodup d k v : NoDup d.*1 → NoDup (d_set d k v).*1.
Proof.
  intros Hd. rewrite d_set_keys. case_decide; [done|].
  apply NoDup_app. split_and!; [done| |apply NoDup_singleton].
  by intros x Hx ->%list_elem_of_singleton.
Qed.

Lemma d_set_app d1 d2 k v :
  k ∉ d1.*1 → d_set (d1 ++ d2) k v = d1 ++ d_set d2 k v.
Proof.
  induction d1 as [|[k0 v0] d1 IH]; cbn; [done|]. rewrite not_elem_of_cons. intros [Hne Hn].
  rewrite decide_False by done. by rewrite IH.
Qed.

Lemma d_set_in d k v k' v' :
  NoDup d.*1 → (k', v') ∈ d_set d k v ↔ (k' = k ∧ v' = v) ∨ (k' ≠ k ∧ (k', v') ∈ d).
Proof.
  intros Hd. pose proof (d_set_nodup d k v Hd) as Hs. split.
  - intros Hin%(d_get_in _ _ _ Hs). rewrite d_get_set in Hin. case_decide.
    + left. naive_solver.
    + right. split; [done|]. by apply d_get_Some_in.
  - intros [[-> ->]|[Hne Hin]]; apply d_get_Some_in; rewrite d_get_set; [by rewrite decide_True|].
    rewrite decide_False by done. by apply d_get_in.
Qed.

(** Building a dictionary from pairs with distinct keys keeps them as they are. *)
Lemma d_of_nodup (pairs : list (K * V)) : NoDup pairs.*1 → d_of pairs = pairs.
Proof.
  unfold d_of. intros Hd. change pairs with ([] ++ pairs) in Hd at 1. change pairs with ([] ++ pairs) at 2.
  revert Hd. generalize (@nil (K * V)) as acc. induction pairs as [|[k v] l IH]; intros acc Hd; cbn.
  - by rewrite app_nil_r.
  - assert (d_set acc k v = acc ++ [(k, v)]) as ->.
    { rewrite <-(app_nil_r acc) at 1. rewrite d_set_app; [done|].
      rewrite fmap_app in Hd. apply NoDup_app in Hd as (_&Hx&_). intros Hin. apply (Hx _ Hin). by left. }
    rewrite IH; rewrite <-app_assoc; done.
Qed.

Lemma d_of_keys_nodup (pairs : list (K * V)) : NoDup (d_of pairs).*1.
Proof.
  unfold d_of. assert (NoDup (@nil (K * V)).*1) as Hd by constructor. revert Hd.
  generalize (@nil (K * V)). induction pairs as [|[k v] l IH]; intros acc Hd; cbn; [done|].
  by apply IH, d_set_nodup.
Qed.

Lemma d_get_pop d k k' :
  NoDup d.*1 → d_get (d_pop d k) k' = if decide (k = k') then None else d_get d k'.
Proof.
  induction d as [|[k0 v0] d IH]; cbn; [by case_decide|]. intros [Hn Hd]%list.NoDup_cons.
  destruct (decide (k0 = k)) as [->|Hne]; cbn.
  - case_decide; [|done]. subst. by apply d_get_None.
  - rewrite IH by done. repeat case_decide; congruence.
Qed.

Lemma d_pop_keys d k k' : k' ∈ (d_pop d k).*1 → k' ∈ d.*1.
Proof.
  induction d as [|[k0 v0] d IH]; cbn; [done|]. case_decide; [by right|]. cbn.
  intros [->|?]%elem_of_cons; [by left|right; auto].
Qed.
Lemma d_pop_nodup d k : NoDup d.*1 → NoDup (d_pop d k).*1.
Proof.
  induction d as [|[k0 v0] d IH]; cbn; [done|]. intros [Hn Hd]%list.NoDup_cons.
  case_decide; [done|]. constructor; [|auto]. intros ?%d_pop_keys. done.
Qed.

(** A new key goes to the end, and is what [d_pop] takes from there. *)
Lemma d_set_fresh d k v : k ∉ d.*1 → d_set d k v = d ++ [(k, v)].
Proof. intros Hk. rewrite <-(app_nil_r d) at 1. by rewrite d_set_app. Qed.

Lemma d_pop_last d k v : k ∉ d.*1 → d_pop (d ++ [(k, v)]) k = d.
Proof.
  induction d as [|[k0 v0] d IH]; cbn; [by rewrite decide_True|].
  intros [Hne Hni]%not_elem_of_cons. rewrite decide_False by done. by rewrite IH.
Qed.
End dict.
