(* ===== verification/Local.v ===== *)
(** The embedded database: [transaction/local.py] and [database.py].

    Transactions are objects the caller holds while the storage under them changes, so they
    live in one store beside the storage and the timestamp allocator, and every operation
    names the transaction by its handle. *)

From Stdlib Require Import ZArith Lia.
From S2P Require Import Prelude Bytes PyVal Engine Mvcc Dict Tso.
Import MVCCStorage.

Module TransactionState.
Inductive t := PENDING | COMMITTED | ABORTED.
#[global] Instance t_eq_dec : EqDecision t.
Proof. solve_decision. Defined.
End TransactionState.

Record Transaction := {
  _txn_id : Z;
  _start_timestamp : Z;
  _commit_timestamp : option Z;
  _state : TransactionState.t;
  _writes : list (bytes * bytes);
  _deletes : gset bytes
}.

Definition with_writes (ws : list (bytes * bytes)) (ds : gset bytes) (x : Transaction) : Transaction :=
  {| _txn_id := _txn_id x; _start_timestamp := _start_timestamp x;
     _commit_timestamp := _commit_timestamp x; _state := _state x; _writes := ws; _deletes := ds |}.
Definition with_state (st : TransactionState.t) (x : Transaction) : Transaction :=
  {| _txn_id := _txn_id x; _start_timestamp := _start_timestamp x;
     _commit_timestamp := _commit_timestamp x; _state := st; _writes := _writes x; _deletes := _deletes x |}.
Definition with_commit_timestamp (ts : Z) (x : Transaction) : Transaction :=
  {| _txn_id := _txn_id x; _start_timestamp := _start_timestamp x;
     _commit_timestamp := Some ts; _state := _state x; _writes := _writes x; _deletes := _deletes x |}.

Module Database.
Section database.
Context {E : Type} `{Engine E} `{Msgpack}.

Record t := {
  _storage : E;
  _txn_counter : Z;
  allocator : TimestampAllocator.t;
  objects : gmap Z Transaction
}.

Definition init (now : Z) (engine : E) : t :=
  {| _storage := engine; _txn_counter := 0; allocator := TimestampAllocator.init now; objects := ∅ |}.

Definition with_storage (e : E) (d : t) : t :=
  {| _storage := e; _txn_counter := _txn_counter d; allocator := allocator d; objects := objects d |}.
Definition with_object (id : Z) (x : Transaction) (d : t) : t :=
  {| _storage := _storage d; _txn_counter := _txn_counter d; allocator := allocator d;
     objects := <[id := x]> (objects d) |}.

(** [get_timestamp()], the clock reading [now]. *)
Definition get_timestamp (now : Z) : M t Z := λ d,
  let '(a, ts) := TimestampAllocator.allocate now (allocator d) in
  ({| _storage := _storage d; _txn_counter := _txn_counter d; allocator := a; objects := objects d |}, Ok ts).

(** A handle that was handed out; [AttributeError] stands for one that was not. *)
Definition object (id : Z) : M t Transaction := λ d,
  match objects d !! id with Some x => (d, Ok x) | None => (d, Raise AttributeError) end.
Definition put (id : Z) (x : Transaction) : M t unit := λ d, (with_object id x d, Ok tt).

(** A transaction that is over takes no more calls. *)
Definition pending (id : Z) : M t Transaction :=
  let* x := object id in
  if decide (_state x ≠ TransactionState.PENDING) then raise ValueError else ret x.

(** [TransactionManager.begin] and [Transaction.__init__]. *)
Definition begin (now : Z) : M t Z := λ d,
  (let* ts := get_timestamp now in
   put (_txn_counter d + 1)
     {| _txn_id := _txn_counter d + 1; _start_timestamp := ts; _commit_timestamp := None;
        _state := TransactionState.PENDING; _writes := []; _deletes := ∅ |};;;
   ret (_txn_counter d + 1))
    {| _storage := _storage d; _txn_counter := _txn_counter d + 1; allocator := allocator d; objects := objects d |}.

Definition txn_get (id : Z) (key : bytes) : M t (option bytes) :=
  let* x := pending id in
  match d_get (_writes x) key with
  | Some v => ret (Some v)
  | None => if decide (key ∈ _deletes x) then ret None
            else reads (λ d, MVCCStorage.get (_storage d) key (_start_timestamp x))
  end.

Definition txn_set (id : Z) (key value : bytes) : M t unit :=
  let* x := pending id in put id (with_writes (d_set (_writes x) key value) (_deletes x ∖ {[key]}) x).

Definition txn_delete (id : Z) (key : bytes) : M t unit :=
  let* x := pending id in put id (with_writes (d_pop (_writes x) key) ({[key]} ∪ _deletes x) x).

(** The two loops of [commit], inside its [try]. *)
Fixpoint write_all (ws : list (bytes * bytes)) (ts : Z) : M t unit :=
  match ws with
  | [] => ret tt
  | (k, v) :: ws =>
      updates (λ d, let? e := MVCCStorage.set (_storage d) k v ts in Ok (with_storage e d));;;
      write_all ws ts
  end.
Fixpoint delete_all (ks : list bytes) (ts : Z) : M t unit :=
  match ks with
  | [] => ret tt
  | k :: ks =>
      updates (λ d, let? e := MVCCStorage.delete (_storage d) k ts in Ok (with_storage e d));;;
      delete_all ks ts
  end.

(** The [try] of [commit]: an exception ends the walk, and what was written stays.  The set
    of deletions is walked in an order of its own. *)
Definition try_writes (id ts : Z) (x : Transaction) : M t bool := λ d,
  match (write_all (_writes x) ts;;; delete_all (elements (_deletes x)) ts) d with
  | (d', Ok _) => (with_object id (with_state TransactionState.COMMITTED x) d', Ok true)
  | (d', Raise _) => (with_object id (with_state TransactionState.ABORTED x) d', Ok false)
  end.

Definition txn_commit (now : Z) (id : Z) : M t bool :=
  let* x := pending id in
  let* ts := get_timestamp now in
  put id (with_commit_timestamp ts x);;;
  try_writes id ts (with_commit_timestamp ts x).

(** Allowed in any state. *)
Definition txn_rollback (id : Z) : M t unit :=
  let* x := object id in
  put id (with_writes [] ∅ (with_state TransactionState.ABORTED x)).

(** ** The database's own calls *)

Definition get (key : bytes) (txn : option Z) : M t (option bytes) :=
  match txn with
  | Some id => txn_get id key
  | None => reads (λ d, MVCCStorage.get (_storage d) key (TimestampAllocator.get_current (allocator d)))
  end.

(** Two clock readings: one for [begin], one for [commit]. *)
Definition set (now1 now2 : Z) (key value : bytes) (txn : option Z) : M t unit :=
  match txn with
  | Some id => txn_set id key value
  | None => let* id := begin now1 in txn_set id key value;;; txn_commit now2 id;;; ret tt
  end.

Definition delete (now1 now2 : Z) (key : bytes) (txn : option Z) : M t unit :=
  match txn with
  | Some id => txn_delete id key
  | None => let* id := begin now1 in txn_delete id key;;; txn_commit now2 id;;; ret tt
  end.

Definition scan (start_key end_key : bytes) (txn : option Z) : M t (list (bytes * bytes)) :=
  let* ts := match txn with
             | Some id => let* x := object id in ret (_start_timestamp x)
             | None => reads (λ d, Ok (TimestampAllocator.get_current (allocator d)))
             end in
  reads (λ d, MVCCStorage.scan (_storage d) start_key end_key ts).

Definition clear : M t unit := λ d, (with_storage (MVCCStorage.clear (_storage d)) d, Ok tt).
End database.
Arguments t : clear implicits.
End Database.
