(* ===== verification/LocalSpec.v ===== *)
(** What the embedded database promises, and that it keeps the promise.

    In the specification a transaction owns a copy of the committed data, made when it
    begins, and a set of changes that lies over it; [commit] writes the changes into the
    committed data.  A [get] in a transaction reads the changes over the copy; a [scan] in a
    transaction reads the copy alone, without the changes, as [Database.scan] of the code
    does; [clear] empties the committed data and the copies of all transactions and leaves
    their changes.  There are no versions, no timestamps and no storage.  The database of
    [Local] answers every sequence of calls as the specification does, as long as the keys
    are legal and the clock is below the last timestamp a row can hold. *)

From Stdlib Require Import ZArith Lia.
From S2P Require Import Prelude Bytes PyVal Engine Mvcc Dict Tso Local.
Import MVCCStorage.

Module SnapshotSpec.
Record txn := {
  s_state : TransactionState.t;
  s_base : gmap bytes bytes;
  s_changes : gmap bytes (option bytes)
}.
Record t := { s_committed : gmap bytes bytes; s_counter : Z; s_txns : gmap Z txn }.

Definition init : t := {| s_committed := ∅; s_counter := 0; s_txns := ∅ |}.

Definition with_txn (id : Z) (y : txn) (s : t) : t :=
  {| s_committed := s_committed s; s_counter := s_counter s; s_txns := <[id := y]> (s_txns s) |}.

(** Changes over data: a value, or [None] for a key that was deleted. *)
Definition overlay (changes : gmap bytes (option bytes)) (m : gmap bytes bytes) : gmap bytes bytes :=
  merge (λ c v, match c with Some o => o | None => v end) changes m.
Definition view (y : txn) : gmap bytes bytes := overlay (s_changes y) (s_base y).

Definition object (id : Z) : M t txn := λ s,
  match s_txns s !! id with Some y => (s, Ok y) | None => (s, Raise AttributeError) end.
Definition pending (id : Z) : M t txn :=
  let* y := object id in
  if decide (s_state y ≠ TransactionState.PENDING) then raise ValueError else ret y.
Definition put (id : Z) (y : txn) : M t unit := λ s, (with_txn id y s, Ok tt).
Definition change (key : bytes) (o : option bytes) (y : txn) : txn :=
  {| s_state := s_state y; s_base := s_base y; s_changes := <[key := o]> (s_changes y) |}.

Definition begin : M t Z := λ s,
  let id := s_counter s + 1 in
  (with_txn id {| s_state := TransactionState.PENDING; s_base := s_committed s; s_changes := ∅ |}
     {| s_committed := s_committed s; s_counter := id; s_txns := s_txns s |}, Ok id).

Definition txn_get (id : Z) (key : bytes) : M t (option bytes) :=
  let* y := pending id in ret (view y !! key).
Definition txn_set (id : Z) (key value : bytes) : M t unit :=
  let* y := pending id in put id (change key (Some value) y).
Definition txn_delete (id : Z) (key : bytes) : M t unit :=
  let* y := pending id in put id (change key None y).
Definition txn_commit (id : Z) : M t bool :=
  let* y := pending id in
  λ s, (with_txn id {| s_state := TransactionState.COMMITTED; s_base := s_base y; s_changes := s_changes y |}
          {| s_committed := overlay (s_changes y) (s_committed s); s_counter := s_counter s;
             s_txns := s_txns s |}, Ok true).
Definition txn_rollback (id : Z) : M t unit :=
  let* y := object id in
  put id {| s_state := TransactionState.ABORTED; s_base := s_base y; s_changes := ∅ |}.

Definition get (key : bytes) (txn : option Z) : M t (option bytes) :=
  match txn with Some id => txn_get id key | None => reads (λ s, Ok (s_committed s !! key)) end.
Definition set (key value : bytes) (txn : option Z) : M t unit :=
  match txn with
  | Some id => txn_set id key value
  | None => let* id := begin in txn_set id key value;;; txn_commit id;;; ret tt
  end.
Definition delete (key : bytes) (txn : option Z) : M t unit :=
  match txn with
  | Some id => txn_delete id key
  | None => let* id := begin in txn_delete id key;;; txn_commit id;;; ret tt
  end.

(** The rows of a range, in key order.  A transaction's own changes are not among them. *)
Definition rows (m : gmap bytes bytes) (start_key end_key : bytes) : list (bytes * bytes) :=
  merge_sort row_le (filter (λ kv, in_range start_key kv.1 end_key = true) (map_to_list m)).
Definition scan (start_key end_key : bytes) (txn : option Z) : M t (list (bytes * bytes)) :=
  let* m := match txn with
            | Some id => let* y := object id in ret (s_base y)
            | None => reads (λ s, Ok (s_committed s))
            end in
  ret (rows m start_key end_key).

(** Nothing is left, in the copies of the running transactions neither. *)
Definition clear : M t unit := λ s,
  ({| s_committed := ∅; s_counter := s_counter s;
      s_txns := (λ y, {| s_state := s_state y; s_base := ∅; s_changes := s_changes y |}) <$> s_txns s |},
   Ok tt).
End SnapshotSpec.

(** ** The calls a caller makes *)

Inductive call :=
  | CBegin (now : Z)
  | CGet (key : bytes) (txn : option Z)
  | CSet (now1 now2 : Z) (key value : bytes) (txn : option Z)
  | CDelete (now1 now2 : Z) (key : bytes) (txn : option Z)
  | CCommit (now : Z) (id : Z)
  | CRollback (id : Z)
  | CScan (start_key end_key : bytes) (txn : option Z)
  | CClear.

Inductive answer :=
  | AUnit | AHandle (id : Z) | ABool (b : bool) | AValue (v : option bytes) | ARows (l : list (bytes * bytes)).

Definition legal_call (c : call) : Prop :=
  match c with
  | CGet k _ | CSet _ _ k _ _ | CDelete _ _ k _ => no_sep k
  | CScan a b _ => no_sep a ∧ no_sep b
  | _ => True
  end.

Definition fmapM {S A B} (f : A → B) (m : M S A) : M S B := let* a := m in ret (f a).
Definition do_call {E} `{Engine E} (c : call) : M (Database.t E) answer :=
  match c with
  | CBegin now => fmapM AHandle (Database.begin now)
  | CGet k txn => fmapM AValue (Database.get k txn)
  | CSet n1 n2 k v txn => fmapM (λ _, AUnit) (Database.set n1 n2 k v txn)
  | CDelete n1 n2 k txn => fmapM (λ _, AUnit) (Database.delete n1 n2 k txn)
  | CCommit now id => fmapM ABool (Database.txn_commit now id)
  | CRollback id => fmapM (λ _, AUnit) (Database.txn_rollback id)
  | CScan a b txn => fmapM ARows (Database.scan a b txn)
  | CClear => fmapM (λ _, AUnit) Database.clear
  end.
Definition spec_call (c : call) : M SnapshotSpec.t answer :=
  match c with
  | CBegin _ => fmapM AHandle SnapshotSpec.begin
  | CGet k txn => fmapM AValue (SnapshotSpec.get k txn)
  | CSet _ _ k v txn => fmapM (λ _, AUnit) (SnapshotSpec.set k v txn)
  | CDelete _ _ k txn => fmapM (λ _, AUnit) (SnapshotSpec.delete k txn)
  | CCommit _ id => fmapM ABool (SnapshotSpec.txn_commit id)
  | CRollback id => fmapM (λ _, AUnit) (SnapshotSpec.txn_rollback id)
  | CScan a b txn => fmapM ARows (SnapshotSpec.scan a b txn)
  | CClear => fmapM (λ _, AUnit) SnapshotSpec.clear
  end.

(** What a sequence of calls leaves and what each of them answered or raised. *)
Fixpoint play {S} (f : call → M S answer) (cs : list call) (s : S) : S * list (result answer) :=
  match cs with
  | [] => (s, [])
  | c :: cs => let '(s', r) := f c s in let '(s'', rs) := play f cs s' in (s'', r :: rs)
  end.

(** ** The rows of a range *)

Import SnapshotSpec.
Lemma rows_in m a b k v : (k, v) ∈ rows m a b ↔ in_range a k b = true ∧ m !! k = Some v.
Proof.
  unfold rows. rewrite merge_sort_Permutation, list_elem_of_filter. cbn. by rewrite elem_of_map_to_list.
Qed.

(** They are the one list in key order that has them. *)
Lemma rows_unique m a b l :
  StronglySorted row_le l → NoDup l → (∀ k v, (k, v) ∈ l ↔ (k, v) ∈ rows m a b) → l = rows m a b.
Proof.
  intros Hs Hn Hsame.
  apply (StronglySorted_unique_strong row_le); [|done|apply (StronglySorted_merge_sort row_le)|].
  - intros [k v] [k' v'] Hl Hr Hle1 Hle2. pose proof (ble_antisym _ _ Hle1 Hle2) as Heq. cbn in Heq. subst k'.
    apply Hsame, rows_in in Hl as [_ Hl]. apply rows_in in Hr as [_ Hr]. congruence.
  - apply NoDup_Permutation; [done| |].
    + unfold rows. rewrite merge_sort_Permutation. apply NoDup_filter, NoDup_map_to_list.
    + intros [k v]. apply Hsame.
Qed.
Lemma rows_sorted m a b : StronglySorted row_le (rows m a b) ∧ NoDup (rows m a b).
Proof.
  split; [apply (StronglySorted_merge_sort row_le)|].
  unfold rows. rewrite merge_sort_Permutation. apply NoDup_filter, NoDup_map_to_list.
Qed.

(** ** The database and its specification in step *)

Section refinement.
Context {E : Type} `{EngineLaws E} `{!Msgpack}.
Abbreviation db := (Database.t E).
Implicit Types (d : db) (s : SnapshotSpec.t) (e : E).

Lemma get_visible e k t o :
  wf e → no_sep k → -1 ≤ t → visible (hist e k) t o → MVCCStorage.get e k t = Ok (fst <$> o).
Proof.
  intros Hw Hk Ht Hv. destruct (get_version_eq e k t o Hw Hk Ht Hv) as (r&Hr&<-).
  unfold MVCCStorage.get. rewrite Hr. cbn. by destruct r.
Qed.

(** A read sees what the history says up to its time, *)
Lemma get_same_history e e' k t :
  wf e → wf e' → no_sep k → -1 ≤ t →
  (∀ ts, ts ≤ t → hist e' k ts = hist e k ts) → MVCCStorage.get e' k t = MVCCStorage.get e k t.
Proof. intros. unfold MVCCStorage.get. by rewrite (get_version_same_history e e' k t). Qed.

(** the same at a later time when nothing came in between, *)
Lemma get_later e k t t' :
  wf e → no_sep k → -1 ≤ t ≤ t' → (∀ ts, t < ts ≤ t' → hist e k ts = None) →
  MVCCStorage.get e k t' = MVCCStorage.get e k t.
Proof.
  intros Hw Hk Ht Hn. destruct (get_version_spec e k t Hw Hk ltac:(lia)) as (r&Hr&Hv).
  rewrite (get_visible e k t _ Hw Hk ltac:(lia) Hv). apply get_visible; [done..|lia|].
  destruct (version_of <$> r) as [[v ts]|]; cbn in *.
  - destruct Hv as (?&?&Hq). split_and!; [done|lia|]. intros ts' Hts. destruct (decide (ts' ≤ t)); [apply Hq|apply Hn]; lia.
  - destruct Hv as [Hv|(ts&?&?&Hq)]; [left|right].
    + intros ts Hts. destruct (decide (ts ≤ t)); [apply Hv|apply Hn]; lia.
    + exists ts. split_and!; [done|lia|]. intros ts' Hts. destruct (decide (ts' ≤ t)); [apply Hq|apply Hn]; lia.
Qed.

(** and the write of that very time when there is one. *)
Lemma get_written e k t o :
  wf e → no_sep k → -1 ≤ t → hist e k t = Some o → MVCCStorage.get e k t = Ok o.
Proof.
  intros Hw Hk Ht Hh.
  replace o with (fst <$> ((λ v, (v, t)) <$> o)) by (by destruct o).
  apply get_visible; [done..|]. destruct o as [v|]; cbn.
  - split_and!; [done|lia|]. intros; lia.
  - right. exists t. split_and!; [done|lia|]. intros; lia.
Qed.

Definition last d : Z := TimestampAllocator._last_timestamp (Database.allocator d).

(** The changes of a transaction, as the specification keeps them. *)
Definition changes_of (x : Transaction) (k : bytes) : option (option bytes) :=
  match d_get (_writes x) k with
  | Some v => Some (Some v)
  | None => if decide (k ∈ _deletes x) then Some None else None
  end.

Record txn_rel e (now : Z) (x : Transaction) (y : txn) : Prop := {
  tr_state : _state x = s_state y;
  tr_start : 0 ≤ _start_timestamp x ≤ now;
  tr_base k : no_sep k → MVCCStorage.get e k (_start_timestamp x) = Ok (s_base y !! k);
  tr_base_legal k : is_Some (s_base y !! k) → no_sep k;
  tr_changes k : s_changes y !! k = changes_of x k;
  tr_nodup : NoDup (_writes x).*1;
  tr_disjoint k : k ∈ _deletes x → k ∉ (_writes x).*1;
  tr_legal k : is_Some (s_changes y !! k) → no_sep k
}.

Record rel d s : Prop := {
  r_wf : wf (Database._storage d);
  r_last : 0 ≤ last d;
  r_hist k ts : no_sep k → is_Some (hist (Database._storage d) k ts) → ts ≤ last d;
  r_counter : Database._txn_counter d = s_counter s;
  r_committed k : no_sep k → MVCCStorage.get (Database._storage d) k (last d) = Ok (s_committed s !! k);
  r_committed_legal k : is_Some (s_committed s !! k) → no_sep k;
  r_txns id : match Database.objects d !! id, s_txns s !! id with
              | Some x, Some y => txn_rel (Database._storage d) (last d) x y
              | None, None => True
              | _, _ => False
              end
}.

(** A call refines its specification: it moves the clock forward only, and while the clock
    stays in range it keeps the states related and answers the same. *)
Definition refines {A} (m : M db A) (a : M SnapshotSpec.t A) : Prop :=
  (∀ d, last d ≤ last (m d).1) ∧
  ∀ d s, rel d s → last (m d).1 ≤ _MAX_TS → rel (m d).1 (a s).1 ∧ (m d).2 = (a s).2.

Lemma refines_ret {A} (a : A) : refines (ret a) (ret a).
Proof. by split. Qed.

Lemma refines_bind {A B} (m : M db A) a (f : A → M db B) g :
  refines m a → (∀ x, refines (f x) (g x)) → refines (bind m f) (bind a g).
Proof.
  intros [Hm Hr] Hf. split.
  - intros d. specialize (Hm d). unfold bind. destruct (m d) as [d1 [x|ex]]; cbn in *; [|done].
    etrans; [exact Hm|]. apply (Hf x).
  - intros d s Hrel. specialize (Hr d s Hrel). unfold bind. destruct (m d) as [d1 r1], (a s) as [s1 r1'].
    cbn in *. destruct r1 as [x|ex].
    + intros Hl. destruct Hr as [Hr <-]; [etrans; [apply (Hf x)|exact Hl]|]. by apply (Hf x).
    + intros Hl. destruct (Hr Hl) as [? <-]. done.
Qed.

Lemma refines_fmap {A B} (f : A → B) (m : M db A) a : refines m a → refines (fmapM f m) (fmapM f a).
Proof. intros. apply refines_bind; [done|]. intros. apply refines_ret. Qed.

(** *** A call on a transaction *)

Lemma refines_object {A} id (f : Transaction → M db A) g :
  (∀ x d, last d ≤ last (f x d).1) →
  (∀ x y d s, rel d s → txn_rel (Database._storage d) (last d) x y →
     Database.objects d !! id = Some x → s_txns s !! id = Some y →
     last (f x d).1 ≤ _MAX_TS → rel (f x d).1 (g y s).1 ∧ (f x d).2 = (g y s).2) →
  refines (bind (Database.object id) f) (bind (object id) g).
Proof.
  intros Hm Hf. split.
  - intros d. unfold bind, Database.object. destruct (Database.objects d !! id); [apply Hm|done].
  - intros d s Hr. pose proof (r_txns _ _ Hr id) as Ht. unfold bind, Database.object, object.
    destruct (Database.objects d !! id) eqn:Hd, (s_txns s !! id) eqn:Hs; [|done..]. by apply Hf.
Qed.

Lemma refines_pending {A} id (f : Transaction → M db A) g :
  (∀ x d, last d ≤ last (f x d).1) →
  (∀ x y d s, rel d s → txn_rel (Database._storage d) (last d) x y →
     Database.objects d !! id = Some x → s_txns s !! id = Some y →
     last (f x d).1 ≤ _MAX_TS → rel (f x d).1 (g y s).1 ∧ (f x d).2 = (g y s).2) →
  refines (bind (Database.pending id) f) (bind (pending id) g).
Proof.
  intros Hm Hf.
  assert (refines (bind (Database.object id) (λ x, bind (if decide (_state x ≠ TransactionState.PENDING) then raise ValueError else ret x) f))
    (bind (object id) (λ y, bind (if decide (s_state y ≠ TransactionState.PENDING) then raise ValueError else ret y) g))) as [Hmono Hstep].
  { apply refines_object.
    - intros x d. case_decide; [done|]. apply Hm.
    - intros x y d s Hr Ht Hd Hs. rewrite (tr_state _ _ _ _ Ht). case_decide; [done|]. by apply Hf. }
  split; unfold Database.pending, pending.
  - intros d. rewrite bind_assoc. apply Hmono.
  - intros d s Hr. rewrite !bind_assoc. by apply Hstep.
Qed.

Lemma rel_with_txn id x y d s :
  rel d s → txn_rel (Database._storage d) (last d) x y → rel (Database.with_object id x d) (with_txn id y s).
Proof.
  intros [] Ht. split; try done. intros i. cbn.
  destruct (decide (id = i)) as [->|Hne]; [by rewrite !lookup_insert_eq|rewrite !lookup_insert_ne by done; apply r_txns0].
Qed.

Lemma overlay_lookup c m k : overlay c m !! k = match c !! k with Some o => o | None => m !! k end.
Proof. unfold overlay. rewrite lookup_merge. by destruct (c !! k), (m !! k). Qed.

Lemma refines_txn_get id k : no_sep k → refines (Database.txn_get id k) (txn_get id k).
Proof.
  intros Hk. apply refines_pending.
  - intros x d. destruct (d_get (_writes x) k); [done|]. by case_decide.
  - intros x y d s Hr Ht _ _ _. unfold view, ret, reads. rewrite overlay_lookup, (tr_changes _ _ _ _ Ht).
    unfold changes_of. destruct (d_get (_writes x) k); [done|]. case_decide; [done|]. cbn.
    by rewrite (tr_base _ _ _ _ Ht).
Qed.

Lemma refines_txn_set id k v : no_sep k → refines (Database.txn_set id k v) (txn_set id k v).
Proof.
  intros Hk. apply refines_pending; [done|]. intros x y d s Hr [] _ _ _. split; [|done].
  apply rel_with_txn; [done|]. split; try done.
  - intros k'. cbn. unfold changes_of. cbn. rewrite d_get_set. destruct (decide (k = k')) as [->|Hne].
    + by rewrite lookup_insert_eq.
    + rewrite lookup_insert_ne, tr_changes0 by done. unfold changes_of. destruct (d_get _ _); [done|].
      repeat case_decide; set_solver.
  - cbn. by apply d_set_nodup.
  - cbn. intros k'. rewrite d_set_keys. specialize (tr_disjoint0 k'). case_decide; set_solver.
  - intros k'. cbn. destruct (decide (k = k')) as [->|Hne]; [done|]. rewrite lookup_insert_ne by done. apply tr_legal0.
Qed.

Lemma refines_txn_delete id k : no_sep k → refines (Database.txn_delete id k) (txn_delete id k).
Proof.
  intros Hk. apply refines_pending; [done|]. intros x y d s Hr [] _ _ _. split; [|done].
  apply rel_with_txn; [done|]. split; try done.
  - intros k'. cbn. unfold changes_of. cbn. rewrite d_get_pop by done. destruct (decide (k = k')) as [->|Hne].
    + rewrite lookup_insert_eq. case_decide; set_solver.
    + rewrite lookup_insert_ne, tr_changes0 by done. unfold changes_of. destruct (d_get _ _); [done|].
      repeat case_decide; set_solver.
  - cbn. by apply d_pop_nodup.
  - cbn. intros k' Hk' Hin. assert (k ≠ k') as Hne.
    { intros ->. assert (d_get (d_pop (_writes x) k') k' = None) as Hn by (by rewrite d_get_pop, decide_True).
      by apply d_get_None in Hn. }
    apply (tr_disjoint0 k'); [set_solver|]. by eapply d_pop_keys.
  - intros k'. cbn. destruct (decide (k = k')) as [->|Hne]; [done|]. rewrite lookup_insert_ne by done. apply tr_legal0.
Qed.

Lemma refines_txn_rollback id : refines (Database.txn_rollback id) (txn_rollback id).
Proof.
  apply refines_object; [done|]. intros x y d s Hr [] _ _ _. split; [|done].
  apply rel_with_txn; [done|]. split; try done.
  - cbn. constructor.
  - intros k'. cbn. rewrite lookup_empty. by intros [? ?].
Qed.

(** *** The clock *)

Definition at_time (a : TimestampAllocator.t) d : db :=
  {| Database._storage := Database._storage d; Database._txn_counter := Database._txn_counter d;
     Database.allocator := a; Database.objects := Database.objects d |}.

Lemma get_timestamp_run now d : ∃ a, Database.get_timestamp now d = (at_time a d, Ok (last (at_time a d))) ∧
  last d < last (at_time a d).
Proof.
  exists (TimestampAllocator.allocate now (Database.allocator d)).1. split; [done|]. unfold last. cbn.
  destruct (Z.gtb_spec now (TimestampAllocator._last_timestamp (Database.allocator d))); lia.
Qed.

Lemma txn_rel_later e now now' x y : now ≤ now' → txn_rel e now x y → txn_rel e now' x y.
Proof. intros Hle []. split; try done. lia. Qed.

Lemma rel_at_time a d s : last d ≤ last (at_time a d) → rel d s → rel (at_time a d) s.
Proof.
  intros Hle [Hwf Hla Hhi Hco Hcm Hcl Htx]. split; try done.
  - lia.
  - intros k ts Hk Hs. etrans; [by eapply Hhi|done].
  - intros k Hk. rewrite <-Hcm by done. apply (get_later (Database._storage d)); [done..|lia|].
    intros ts Hts. destruct (hist _ k ts) eqn:Hh; [|done]. specialize (Hhi k ts Hk ltac:(by eexists)). lia.
  - intros id. specialize (Htx id). cbn. destruct (Database.objects d !! id), (s_txns s !! id); try done.
    by eapply txn_rel_later.
Qed.

Lemma refines_begin now : refines (Database.begin now) begin.
Proof.
  split.
  - intros d. unfold Database.begin. cbv beta zeta. set (d1 := {| Database._storage := _ |}).
    destruct (get_timestamp_run now d1) as (a&Hg&Hlt). rewrite (bind_run _ _ _ _ _ Hg). cbn.
    change (last d1 ≤ last (at_time a d1)). lia.
  - intros d s Hr. unfold Database.begin. cbv beta zeta. set (d1 := {| Database._storage := _ |}).
    destruct (get_timestamp_run now d1) as (a&Hg&Hlt). rewrite (bind_run _ _ _ _ _ Hg). cbn -[last]. intros Hmax.
    set (s1 := {| s_committed := s_committed s; s_counter := s_counter s + 1; s_txns := s_txns s |}).
    assert (rel d1 s1) as Hr1.
    { destruct Hr. split; try done. cbn. by rewrite r_counter0. }
    pose proof (rel_at_time a d1 s1 ltac:(lia) Hr1) as Hr2.
    rewrite (r_counter _ _ Hr). split; [|done]. apply (rel_with_txn _ _ _ (at_time a d1) s1); [done|].
    split; cbn -[last]; try done.
    + pose proof (r_last _ _ Hr2). lia.
    + apply Hr2.
    + apply (r_committed_legal _ _ Hr2).
    + constructor.
    + intros k. rewrite lookup_empty. by intros [? ?].
Qed.

(** *** Commit *)

Lemma write_all_run ws ts : ∀ d, wf (Database._storage d) → valid_ts ts →
  (∀ k, k ∈ ws.*1 → no_sep k) → NoDup ws.*1 →
  ∃ e, Database.write_all ws ts d = (Database.with_storage e d, Ok tt) ∧ wf e ∧
    ∀ k ts', no_sep k → hist e k ts' =
      if decide (ts' = ts ∧ is_Some (d_get ws k)) then Some (d_get ws k) else hist (Database._storage d) k ts'.
Proof.
  induction ws as [|[k v] ws IH]; intros d Hw Ht Hk Hd; cbn [Database.write_all].
  { exists (Database._storage d). split_and!; [by destruct d|done|]. intros k ts' _. case_decide as Hc; [|done].
    destruct Hc as [_ [? ?]]. done. }
  apply list.NoDup_cons in Hd as [Hn Hd].
  assert (no_sep k) as Hk0 by (apply Hk; by left).
  set (e1 := e_put (Database._storage d) (row_key x01 k ts) (x01 :: v)).
  assert (MVCCStorage.set (Database._storage d) k v ts = Ok e1) as Hset by (by apply set_Ok).
  destruct (IH (Database.with_storage e1 d)) as (e&He&Hwe&Hh); [apply wf_put; [done|by left|done..]|done| |done|].
  { intros k' ?. apply Hk. by right. }
  exists e. unfold bind, updates. rewrite Hset. cbn [rbind]. split_and!; [exact He|done|].
  intros k' ts' Hk'. rewrite (Hh k' ts' Hk'). unfold hist at 1. cbn [Database._storage Database.with_storage].
  unfold e1. rewrite row_key_put by done. cbn [d_get]. fold (hist (Database._storage d) k' ts').
  destruct (decide (k = k')) as [<-|Hne].
  - rewrite (proj2 (d_get_None ws k)), (decide_False (P := _ ∧ is_Some None)) by (done || by intros [_ [? ?]]).
    destruct (decide (ts' = ts)) as [->|Ht']; [|by rewrite !decide_False by naive_solver].
    rewrite !decide_True by (split_and!; done || by eexists). done.
  - by rewrite (decide_False (P := _ ∧ k = k' ∧ _)) by naive_solver.
Qed.

Lemma delete_all_run ks ts : ∀ d, wf (Database._storage d) → valid_ts ts → (∀ k, k ∈ ks → no_sep k) →
  ∃ e, Database.delete_all ks ts d = (Database.with_storage e d, Ok tt) ∧ wf e ∧
    ∀ k ts', no_sep k → hist e k ts' =
      if decide (ts' = ts ∧ k ∈ ks) then Some None else hist (Database._storage d) k ts'.
Proof.
  induction ks as [|k ks IH]; intros d Hw Ht Hk; cbn [Database.delete_all].
  { exists (Database._storage d). split_and!; [by destruct d|done|]. intros k ts' _. case_decide as Hc; [|done].
    destruct Hc as [_ Hc%elem_of_nil]. done. }
  assert (no_sep k) as Hk0 by (apply Hk; by left).
  set (e1 := e_put (Database._storage d) (row_key x01 k ts) [x00]).
  assert (MVCCStorage.delete (Database._storage d) k ts = Ok e1) as Hset by (by apply delete_Ok).
  destruct (IH (Database.with_storage e1 d)) as (e&He&Hwe&Hh); [apply wf_put; [done|by left|done..]|done| |].
  { intros k' ?. apply Hk. by right. }
  exists e. unfold bind, updates. rewrite Hset. cbn [rbind]. split_and!; [exact He|done|].
  intros k' ts' Hk'. rewrite (Hh k' ts' Hk'). unfold hist at 1. cbn [Database._storage Database.with_storage].
  unfold e1. rewrite row_key_put by done. fold (hist (Database._storage d) k' ts').
  destruct (decide (k = k')) as [<-|Hne].
  - destruct (decide (ts' = ts)) as [->|Ht']; [|by rewrite !decide_False by naive_solver].
    rewrite (decide_True (P := ts = ts ∧ k ∈ k :: ks)) by (split; [done|by left]).
    rewrite (decide_True (P := x01 = x01 ∧ _)) by done. by case_decide.
  - rewrite (decide_False (P := _ ∧ k = k' ∧ _)) by naive_solver.
    apply decide_ext. set_solver.
Qed.

(** Changes published at a new time: what the running transactions see does not change. *)
Lemma rel_publish (a : TimestampAllocator.t) d s e (c : gmap bytes (option bytes)) :
  rel d s → last d < last (at_time a d) → wf e → (∀ k, is_Some (c !! k) → no_sep k) →
  (∀ k ts, no_sep k → hist e k ts =
     if decide (ts = last (at_time a d) ∧ is_Some (c !! k)) then c !! k else hist (Database._storage d) k ts) →
  rel (Database.with_storage e (at_time a d))
      {| s_committed := overlay c (s_committed s); s_counter := s_counter s; s_txns := s_txns s |}.
Proof.
  intros [Hwf Hla Hhi Hco Hcm Hcl Htx] Hlt Hwe Hc Hh.
  assert (∀ k t, no_sep k → -1 ≤ t < last (at_time a d) →
            MVCCStorage.get e k t = MVCCStorage.get (Database._storage d) k t) as Hold.
  { intros k t Hk Ht. apply get_same_history; [done..|lia|]. intros ts Hts. rewrite Hh, decide_False by (done || lia). done. }
  split; cbn [Database._storage Database.with_storage s_committed s_counter s_txns at_time]; try done.
  - change (last (Database.with_storage e (at_time a d))) with (last (at_time a d)). lia.
  - intros k ts Hk. change (last (Database.with_storage e (at_time a d))) with (last (at_time a d)).
    rewrite Hh by done. case_decide as Hd; [intros _; lia|]. intros Hs. specialize (Hhi k ts Hk Hs). lia.
  - intros k Hk. change (last (Database.with_storage e (at_time a d))) with (last (at_time a d)).
    rewrite overlay_lookup. destruct (c !! k) as [o|] eqn:Hck.
    + apply get_written; [done..|lia|]. rewrite Hh, Hck, decide_True by (done || by split; [|eexists]). done.
    + rewrite <-Hcm, <-(Hold k (last d)) by (done || lia). apply get_later; [done..|lia|]. intros ts Hts.
      rewrite Hh, Hck, decide_False by (done || by intros [_ [? ?]]).
      destruct (hist _ k ts) eqn:He; [|done]. specialize (Hhi k ts Hk ltac:(by eexists)). lia.
  - intros k. rewrite overlay_lookup. destruct (c !! k) eqn:Hck; [|apply Hcl]. intros _. apply Hc. by eexists.
  - intros i. specialize (Htx i). cbn [Database.objects Database.with_storage at_time]. destruct (Database.objects d !! i), (s_txns s !! i); try done.
    destruct Htx. split; try done.
    + change (last (Database.with_storage e (at_time a d))) with (last (at_time a d)). lia.
    + intros k Hk. rewrite Hold by (done || lia). auto.
Qed.

Lemma write_all_clock ws ts : ∀ d, Database.allocator (Database.write_all ws ts d).1 = Database.allocator d.
Proof.
  induction ws as [|[k v] ws IH]; intros d; cbn [Database.write_all]; [done|].
  unfold bind, updates. destruct (MVCCStorage.set _ k v ts); [|done]. cbn [rbind]. by rewrite IH.
Qed.
Lemma delete_all_clock ks ts : ∀ d, Database.allocator (Database.delete_all ks ts d).1 = Database.allocator d.
Proof.
  induction ks as [|k ks IH]; intros d; cbn [Database.delete_all]; [done|].
  unfold bind, updates. destruct (MVCCStorage.delete _ k ts); [|done]. cbn [rbind]. by rewrite IH.
Qed.

Lemma try_writes_clock id ts x d : last (Database.try_writes id ts x d).1 = last d.
Proof.
  unfold Database.try_writes, bind, last. pose proof (write_all_clock (_writes x) ts d) as Hw.
  destruct (Database.write_all _ _ d) as [d2 [[]|]]; cbn in Hw; [|cbn; by rewrite Hw].
  pose proof (delete_all_clock (elements (_deletes x)) ts d2) as Hd.
  destruct (Database.delete_all _ _ d2) as [d3 [[]|]]; cbn in *; by rewrite Hd, Hw.
Qed.

(** With legal keys nothing is raised, and the history gains exactly the changes. *)
Lemma try_writes_run id ts x d :
  wf (Database._storage d) → valid_ts ts → (∀ k, is_Some (changes_of x k) → no_sep k) → NoDup (_writes x).*1 →
  (∀ k, k ∈ _deletes x → k ∉ (_writes x).*1) →
  ∃ e, Database.try_writes id ts x d =
    (Database.with_object id (with_state TransactionState.COMMITTED x) (Database.with_storage e d), Ok true) ∧ wf e ∧
    ∀ k ts', no_sep k → hist e k ts' =
      if decide (ts' = ts ∧ is_Some (changes_of x k)) then changes_of x k else hist (Database._storage d) k ts'.
Proof.
  intros Hw Ht Hl Hn Hdj.
  destruct (write_all_run (_writes x) ts d Hw Ht) as (e1&He1&Hw1&Hh1); [|done|].
  { intros k Hk. apply Hl. unfold changes_of. destruct (d_get _ k) eqn:Hg; [by eexists|]. by apply d_get_None in Hg. }
  destruct (delete_all_run (elements (_deletes x)) ts (Database.with_storage e1 d) Hw1 Ht) as (e2&He2&Hw2&Hh2).
  { intros k Hk%elem_of_elements. apply Hl. unfold changes_of. destruct (d_get _ k); [by eexists|].
    rewrite decide_True by done. by eexists. }
  exists e2. unfold Database.try_writes, bind. rewrite He1, He2. split_and!; [done..|].
  intros k ts' Hk. rewrite (Hh2 k ts' Hk). cbn [Database._storage Database.with_storage]. rewrite (Hh1 k ts' Hk).
  unfold changes_of. destruct (decide (ts' = ts)) as [->|Hne]; [|by rewrite !decide_False by naive_solver].
  destruct (decide (k ∈ _deletes x)) as [Hin|Hin].
  - rewrite decide_True by (split; [done|by apply elem_of_elements]).
    rewrite (proj2 (d_get_None (_writes x) k)) by auto. by rewrite decide_True by (split; [done|by eexists]).
  - rewrite decide_False by (intros [_ ?%elem_of_elements]; done).
    destruct (d_get (_writes x) k) as [v|].
    + by rewrite !decide_True by (split; [done|by eexists]).
    + by rewrite !decide_False by (intros [_ [? ?]]; done).
Qed.

Lemma put_run {A} id x (m : M db A) d : (Database.put id x;;; m) d = m (Database.with_object id x d).
Proof. done. Qed.

Lemma refines_txn_commit now id : refines (Database.txn_commit now id) (txn_commit id).
Proof.
  apply refines_pending.
  { intros x d. destruct (get_timestamp_run now d) as (a&Hg&Hlt). rewrite (bind_run _ _ _ _ _ Hg).
    rewrite put_run, try_writes_clock. change (last d ≤ last (at_time a d)). lia. }
  intros x y d s Hr Ht Hx Hy. destruct (get_timestamp_run now d) as (a&Hg&Hlt). rewrite (bind_run _ _ _ _ _ Hg).
  rewrite put_run, try_writes_clock. set (ts := last (at_time a d)) in *.
  set (x1 := with_commit_timestamp ts x). intros Hmax. change (ts ≤ _MAX_TS) in Hmax.
  assert (∀ k, changes_of x1 k = s_changes y !! k) as Hch by (intros k; by rewrite (tr_changes _ _ _ _ Ht)).
  destruct (try_writes_run id ts x1 (Database.with_object id x1 (at_time a d))) as (e&He&Hwe&Hh).
  - apply Hr.
  - pose proof (r_last _ _ Hr). unfold valid_ts. lia.
  - intros k. rewrite Hch. apply Ht.
  - apply Ht.
  - apply Ht.
  - rewrite He. split; [|done]. cbn [fst].
    assert (rel (Database.with_storage e (at_time a d))
      {| s_committed := overlay (s_changes y) (s_committed s); s_counter := s_counter s; s_txns := s_txns s |}) as Hp.
    { apply rel_publish; [done|done|done|apply Ht|]. intros k ts' Hk. rewrite (Hh k ts' Hk). by rewrite Hch. }
    pose proof (r_txns _ _ Hp id) as Htx. cbn in Htx. rewrite Hx, Hy in Htx.
    replace (Database.with_object id (with_state TransactionState.COMMITTED x1) _) with
      (Database.with_object id (with_state TransactionState.COMMITTED x1) (Database.with_storage e (at_time a d))).
    2:{ unfold Database.with_object. cbn. by rewrite insert_insert_eq. }
    apply rel_with_txn; [done|]. destruct Htx. by split.
Qed.

(** *** Range reads *)

Lemma out_lt_rows l : StronglySorted out_lt l → StronglySorted row_le (map fst l) ∧ NoDup (map fst l).
Proof.
  induction 1 as [|[[k v] t] l Hs [IH1 IH2] Hf]; cbn; [by repeat constructor|].
  rewrite list.Forall_forall in Hf. split; constructor; try done.
  - apply list.Forall_forall. intros kv [[[k' v'] t'] [-> Hin]]%list_elem_of_fmap.
    apply Hf in Hin. unfold row_le, out_lt in *. cbn in *. apply ble_lt. by right.
  - intros [[[k' v'] t'] [[= <- <-] Hin]]%list_elem_of_fmap. apply Hf in Hin. unfold out_lt in Hin. cbn in Hin.
    by rewrite blt_irrefl in Hin.
Qed.

Lemma scan_rows e m t a b :
  wf e → no_sep a → no_sep b → -1 ≤ t → (∀ k, no_sep k → MVCCStorage.get e k t = Ok (m !! k)) →
  (∀ k, is_Some (m !! k) → no_sep k) → MVCCStorage.scan e a b t = Ok (rows m a b).
Proof.
  intros Hw Ha Hb Ht Hg Hl. destruct (scan_versions_spec e a b t Hw Ha Hb Ht) as (l&Hscan&Hs&Hin).
  unfold MVCCStorage.scan. rewrite Hscan. cbn [rbind]. f_equal. apply out_lt_rows in Hs as [Hs Hnd].
  assert (∀ k v, (k, v) ∈ map fst l ↔ (k, v) ∈ rows m a b) as Hsame.
  { intros k v. rewrite rows_in, list_elem_of_fmap. split.
    - intros ([[k' v'] ts]&[= <- <-]&(Hk&Hr&r&Hget&Hv)%Hin). split; [done|].
      specialize (Hg k Hk). unfold MVCCStorage.get in Hg. rewrite Hget in Hg. cbn in Hg.
      unfold version_of in Hv. congruence.
    - intros [Hr Hm]. assert (no_sep k) as Hk by (apply Hl; by eexists).
      specialize (Hg k Hk). unfold MVCCStorage.get in Hg. apply rbind_Ok in Hg as ([r|]&Hget&[= Hv]); [|congruence].
      exists (k, v, mr_timestamp r). split; [done|]. apply Hin. split_and!; [done..|]. exists r.
      unfold version_of. split; [done|]. congruence. }
  by apply rows_unique.
Qed.

Lemma refines_scan a b txn : no_sep a → no_sep b → refines (Database.scan a b txn) (scan a b txn).
Proof.
  intros Ha Hb. destruct txn as [id|].
  - assert (refines (bind (Database.object id) (λ x, reads (λ d, MVCCStorage.scan (Database._storage d) a b (_start_timestamp x))))
      (bind (object id) (λ y, ret (rows (s_base y) a b)))) as [Hmono Hstep].
    { apply refines_object; [done|]. intros x y d s Hr Ht _ _ _. split; [done|]. cbn.
      apply scan_rows; [apply Hr|done..|destruct Ht; lia|apply Ht|apply Ht]. }
    split; unfold Database.scan, scan.
    + intros d. rewrite bind_assoc. apply Hmono.
    + intros d s Hr. rewrite !bind_assoc. by apply Hstep.
  - split; [done|]. intros d s Hr _. split; [done|]. cbn.
    apply scan_rows; [apply Hr|done..|pose proof (r_last _ _ Hr); unfold TimestampAllocator.get_current, last in *; lia|apply Hr|apply Hr].
Qed.

Lemma refines_get k txn : no_sep k → refines (Database.get k txn) (get k txn).
Proof.
  intros Hk. destruct txn as [id|]; [by apply refines_txn_get|].
  split; [done|]. intros d s Hr _. split; [done|]. cbn. by apply Hr.
Qed.

Lemma clear_hist e k ts : wf e → hist (MVCCStorage.clear e) k ts = None.
Proof.
  intros Hw. unfold hist, entry. case_decide; [|done]. unfold MVCCStorage.clear. rewrite get_delete_range.
  destruct (in_range _ _ _) eqn:Hr; [done|]. by rewrite (wf_in_all e).
Qed.

Lemma refines_clear : refines Database.clear clear.
Proof.
  split; [done|]. intros d s [Hwf Hla Hhi Hco Hcm Hcl Htx] _. split; [|done].
  assert (wf (MVCCStorage.clear (Database._storage d))) as Hw by (by apply wf_delete_range).
  assert (∀ k t, no_sep k → -1 ≤ t → MVCCStorage.get (MVCCStorage.clear (Database._storage d)) k t = Ok None) as Hn.
  { intros k t Hk Ht. apply (get_visible _ k t None); [done..|]. left. intros. by apply clear_hist. }
  split; cbn [Database.clear fst Database._storage Database.with_storage clear s_committed s_counter s_txns]; try done.
  - intros k ts Hk. rewrite clear_hist by done. by intros [? ?].
  - intros k Hk. rewrite lookup_empty. apply Hn; [done|]. pose proof Hla. unfold last in *. cbn in *. lia.
  - intros k. rewrite lookup_empty. by intros [? ?].
  - intros id. rewrite lookup_fmap. specialize (Htx id). cbn [Database.objects Database.with_storage].
    destruct (Database.objects d !! id), (s_txns s !! id); try done. cbn. destruct Htx. split; cbn; try done.
    + intros k Hk. rewrite lookup_empty. apply Hn; [done|lia].
    + intros k. rewrite lookup_empty. by intros [? ?].
Qed.

(** *** Every call *)

Lemma do_call_refines c : legal_call c → refines (do_call c) (spec_call c).
Proof.
  intros Hl. destruct c as [now|k [id|]|n1 n2 k v [id|]|n1 n2 k [id|]|now id|id|a b txn|]; cbn in Hl; apply refines_fmap.
  - apply refines_begin.
  - by apply (refines_get k (Some id)).
  - by apply (refines_get k None).
  - by apply refines_txn_set.
  - apply refines_bind; [apply refines_begin|]. intros id.
    apply refines_bind; [by apply refines_txn_set|]. intros _.
    apply refines_bind; [apply refines_txn_commit|]. intros _. apply refines_ret.
  - by apply refines_txn_delete.
  - apply refines_bind; [apply refines_begin|]. intros id.
    apply refines_bind; [by apply refines_txn_delete|]. intros _.
    apply refines_bind; [apply refines_txn_commit|]. intros _. apply refines_ret.
  - apply refines_txn_commit.
  - apply refines_txn_rollback.
  - apply refines_scan; apply Hl.
  - apply refines_clear.
Qed.

Lemma play_clock cs : ∀ d, Forall legal_call cs → last d ≤ last (play do_call cs d).1.
Proof.
  induction cs as [|c cs IH]; intros d Hl; cbn; [done|]. apply Forall_cons in Hl as [Hc Hl].
  pose proof (proj1 (do_call_refines c Hc) d) as Hm. destruct (do_call c d) as [d1 r].
  specialize (IH d1 Hl). destruct (play do_call cs d1). cbn in *. lia.
Qed.

Lemma play_refines cs : ∀ d s, rel d s → Forall legal_call cs → last (play do_call cs d).1 ≤ _MAX_TS →
  rel (play do_call cs d).1 (play spec_call cs s).1 ∧ (play do_call cs d).2 = (play spec_call cs s).2.
Proof.
  induction cs as [|c cs IH]; intros d s Hr Hl; cbn; [done|]. apply Forall_cons in Hl as [Hc Hl].
  destruct (do_call_refines c Hc) as [_ Hs]. specialize (Hs d s Hr).
  destruct (do_call c d) as [d1 r1], (spec_call c s) as [s1 r1']. cbn in Hs.
  pose proof (play_clock cs d1 Hl) as Hm. specialize (IH d1 s1).
  destruct (play do_call cs d1) as [d2 rs], (play spec_call cs s1) as [s2 rs']. cbn in *. intros Hmax.
  destruct Hs as [Hr1 ->]; [lia|]. destruct (IH Hr1 Hl Hmax) as [Hr2 ->]. done.
Qed.

(** The states that a fresh database starts in. *)
Lemma rel_init now e : 0 ≤ now → (∀ k, e_get e k = None) → rel (Database.init now e) SnapshotSpec.init.
Proof.
  intros Hn He. assert (wf e) as Hw by (intros k [v Hv]; by rewrite He in Hv).
  assert (∀ k ts, hist e k ts = None) as Hh by (intros; unfold hist, entry; case_decide; [by rewrite He|done]).
  split; cbn; try done.
  - intros k ts _. rewrite Hh. by intros [? ?].
  - intros k Hk. rewrite lookup_empty. apply (get_visible e k now None); [done..|lia|]. left. intros. apply Hh.
  - intros k. rewrite lookup_empty. by intros [? ?].
Qed.

(** C8: The embedded database keeps snapshots.  Any sequence of calls with legal keys on a
    fresh database - transactions interleaved in any way, committed, rolled back or left
    open, reads and range reads inside and outside of them, [clear] - gets the answers, and
    the exceptions, of a database in which [begin] copies the committed data; a transaction
    collects changes, which its own [get] sees over that copy and its own [scan] does not
    see; [commit] writes the changes into the committed data, [rollback] drops them; and
    [clear] empties the committed data and every copy, and leaves the changes.  This holds as
    long as the allocator has not passed the last timestamp a row can hold. *)
Theorem database_keeps_snapshots now (e : E) cs :
  0 ≤ now → (∀ k, e_get e k = None) → Forall legal_call cs →
  last (play do_call cs (Database.init now e)).1 ≤ _MAX_TS →
  (play do_call cs (Database.init now e)).2 = (play spec_call cs SnapshotSpec.init).2.
Proof. intros Hn He Hl Hm. apply play_refines; [by apply rel_init|done..]. Qed.
End refinement.

(** ** A key that is not legal *)

Module IllegalKey.
#[local] Existing Instances MemoryEngine.engine MemoryEngine.laws.

Definition a : bytes := b_ "a".
Definition bad : bytes := [x00].
Definition one : bytes := b_ "1".

(** One transaction writes a legal key and then an illegal one. *)
Definition calls : list call :=
  [CBegin 10; CSet 0 0 a one (Some 1); CSet 0 0 bad one (Some 1); CCommit 20 1; CGet a None].
Definition d0 : Database.t MemoryEngine.t := Database.init 1 MemoryEngine.init.

(** A refused commit leaves writes behind.  The writes of a transaction are put into the
    storage one by one; when a key is refused half way, [commit] answers no and the
    transaction is aborted, and the writes before that key are visible to everybody. *)
Theorem aborted_commit_stays_visible :
  (play do_call calls d0).2 =
    [Ok (AHandle 1); Ok AUnit; Ok AUnit; Ok (ABool false); Ok (AValue (Some one))] ∧
  (_state <$> Database.objects (play do_call calls d0).1 !! 1) = Some TransactionState.ABORTED.
Proof. vm_compute. done. Qed.
End IllegalKey.

(** ** Two transactions that overlap *)

#[local] Existing Instances reference_codec MemoryEngine.engine MemoryEngine.laws.

Definition w_x : bytes := b_ "x".
Definition w_old : bytes := b_ "old".
Definition w_new : bytes := b_ "new".

(** The second transaction commits between two reads of the first. *)
Definition w_calls : list call :=
  [CSet 5 5 w_x w_old None; CBegin 10; CGet w_x (Some 2); CBegin 11; CSet 0 0 w_x w_new (Some 3);
   CCommit 12 3; CGet w_x (Some 2); CGet w_x None; CScan w_x (b_ "y") (Some 2)].
Definition w_answers : list (result answer) :=
  [Ok AUnit; Ok (AHandle 2); Ok (AValue (Some w_old)); Ok (AHandle 3); Ok AUnit; Ok (ABool true);
   Ok (AValue (Some w_old)); Ok (AValue (Some w_new)); Ok (ARows [(w_x, w_old)])].

Lemma w_calls_legal : Forall legal_call w_calls.
Proof.
  assert (no_sep w_x ∧ no_sep (b_ "y")) as [Hx Hy] by (split; vm_compute; intros [?|?%elem_of_nil]%elem_of_cons; done).
  repeat constructor; done.
Qed.

Lemma database_keeps_snapshots_witness :
  (play do_call w_calls (Database.init 1 MemoryEngine.init)).2 = w_answers.
Proof.
  rewrite (database_keeps_snapshots 1 MemoryEngine.init w_calls).
  - vm_compute. reflexivity.
  - lia.
  - intros k. reflexivity.
  - exact w_calls_legal.
  - vm_compute. discriminate.
Defined.
