(* ===== verification/Router.v ===== *)
(** The routing rule of [shard/router.py]: the default split of the keyspace, [locate], and
    the router that keeps a map of its own. *)

From Stdlib Require Import ZArith Lia.
From S2P Require Import Prelude Bytes Dict.

(** Shard ids and their half-open ranges, in the dictionary's order. *)
Abbreviation RangeMap := (list (Z * (bytes * bytes))).

(** The ranges of the shards [i], [i + 1], ..., [n] of them. *)
Fixpoint range_loop (num_shards chunk : Z) (i : Z) (n : nat) : RangeMap :=
  match n with
  | O => []
  | S n =>
      let start := [byte_of_Z (i * chunk)] in
      let end_ := if i <? num_shards - 1 then [byte_of_Z ((i + 1) * chunk)] else [xff] in
      (i, (start, end_)) :: range_loop num_shards chunk (i + 1) n
  end.

Definition default_range_map (num_shards : Z) : RangeMap :=
  if num_shards <=? 1 then [(0, ([], [xff]))]
  else range_loop num_shards (256 / num_shards) 0 (Z.to_nat num_shards).

Fixpoint locate (range_map : RangeMap) (key : bytes) : Z :=
  match range_map with
  | [] => 0
  | (shard_id, (start, end_)) :: range_map =>
      if in_range start key end_ then shard_id else locate range_map key
  end.

Record ShardInfo := { si_shard_id : Z; si_nodes : list Z; si_leader_id : option Z }.

Module ShardRouter.
Record t := {
  _num_shards : Z;
  _range_map : RangeMap;
  _shard_map : list (Z * ShardInfo);
  _node_address_map : list (Z * string)
}.

Definition init (num_shards : Z) (range_map : option RangeMap) : t :=
  {| _num_shards := num_shards;
     _range_map := match range_map with Some m => m | None => default_range_map num_shards end;
     _shard_map := []; _node_address_map := [] |}.

Definition set_range_map (range_map : RangeMap) (r : t) : t :=
  {| _num_shards := _num_shards r; _range_map := range_map; _shard_map := _shard_map r;
     _node_address_map := _node_address_map r |}.
Definition get_range_map (r : t) : RangeMap := _range_map r.

Definition set_shards (m : list (Z * ShardInfo)) (r : t) : t :=
  {| _num_shards := _num_shards r; _range_map := _range_map r; _shard_map := m;
     _node_address_map := _node_address_map r |}.

Definition add_shard (shard_id : Z) (nodes : list Z) (leader_id : option Z) (r : t) : t :=
  set_shards (d_set (_shard_map r) shard_id
                {| si_shard_id := shard_id; si_nodes := nodes; si_leader_id := leader_id |}) r.

Definition add_node_address (node_id : Z) (address : string) (r : t) : t :=
  {| _num_shards := _num_shards r; _range_map := _range_map r; _shard_map := _shard_map r;
     _node_address_map := d_set (_node_address_map r) node_id address |}.

Definition get_node_address (node_id : Z) (r : t) : option string :=
  d_get (_node_address_map r) node_id.

Definition get_shard_id (key : bytes) (r : t) : Z := locate (_range_map r) key.

Definition get_shard_info (shard_id : Z) (r : t) : option ShardInfo := d_get (_shard_map r) shard_id.

Definition get_leader_for_key (key : bytes) (r : t) : option Z :=
  match get_shard_info (get_shard_id key r) r with
  | Some info => si_leader_id info
  | None => None
  end.

(** [if leader_id:] is false for 0 as well; nodes are numbered from 1. *)
Definition get_leader_address_for_key (key : bytes) (r : t) : option string :=
  match get_leader_for_key key r with
  | Some leader_id => if leader_id =? 0 then None else get_node_address leader_id r
  | None => None
  end.

Definition update_shard_leader (shard_id leader_id : Z) (r : t) : t :=
  match d_get (_shard_map r) shard_id with
  | Some info =>
      set_shards (d_set (_shard_map r) shard_id
                    {| si_shard_id := si_shard_id info; si_nodes := si_nodes info;
                       si_leader_id := Some leader_id |}) r
  | None => r
  end.

Definition get_all_shards (r : t) : list ShardInfo := (_shard_map r).*2.
End ShardRouter.

(** ** Ranges that do not overlap *)

(** A key lies in at most one range of the map. *)
Definition disjoint_ranges (m : RangeMap) : Prop :=
  ∀ s1 s2 r1 r2 k, (s1, r1) ∈ m → (s2, r2) ∈ m →
    in_range r1.1 k r1.2 = true → in_range r2.1 k r2.2 = true → s1 = s2.

(** Some range of the map holds the key. *)
Definition covered (m : RangeMap) (k : bytes) : Prop :=
  ∃ s r, (s, r) ∈ m ∧ in_range r.1 k r.2 = true.

Lemma covered_Exists m k :
  Exists (λ e : Z * (bytes * bytes), in_range e.2.1 k e.2.2 = true) m ↔ covered m k.
Proof.
  rewrite Exists_exists. split; [intros ([s r]&?&?); by exists s, r|intros (s&r&?&?); by exists (s, r)].
Qed.
#[global] Instance covered_dec m k : Decision (covered m k).
Proof.
  refine (cast_if (decide (Exists (λ e : Z * (bytes * bytes), in_range e.2.1 k e.2.2 = true) m)));
    by rewrite <-covered_Exists.
Defined.

Lemma locate_in m k : covered m k → ∃ r, (locate m k, r) ∈ m ∧ in_range r.1 k r.2 = true.
Proof.
  induction m as [|[s [a b]] m IH]; intros (s'&r'&Hin&Hr); [by apply elem_of_nil in Hin|]. cbn.
  destruct (in_range a k b) eqn:Hk; [exists (a, b); split; [by left|done]|].
  apply elem_of_cons in Hin as [[= -> ->]|Hin]; [cbn in Hr; congruence|].
  destruct IH as (r&?&?); [by eexists _, _|]. exists r. split; [by right|done].
Qed.

Lemma locate_out m k : ¬ covered m k → locate m k = 0.
Proof.
  induction m as [|[s [a b]] m IH]; intros Hn; cbn; [done|].
  destruct (in_range a k b) eqn:Hk; [destruct Hn; exists s, (a, b); split; [by left|done]|].
  apply IH. intros (s'&r'&?&?). apply Hn. exists s', r'. split; [by right|done].
Qed.

Lemma locate_owner m s r k :
  disjoint_ranges m → (s, r) ∈ m → in_range r.1 k r.2 = true → locate m k = s.
Proof.
  intros Hd Hin Hk. destruct (locate_in m k) as (r'&Hin'&Hk'); [by eexists _, _|]. by eapply Hd.
Qed.

(** [locate] depends on the ranges, not on the order they are listed in. *)
Lemma locate_perm m1 m2 k : disjoint_ranges m1 → m1 ≡ₚ m2 → locate m1 k = locate m2 k.
Proof.
  intros Hd Hp. assert (disjoint_ranges m2) as Hd2.
  { intros s1 s2 r1 r2 x H1 H2. rewrite <-Hp in H1, H2. by eapply Hd. }
  destruct (decide (covered m1 k)) as [Hc|Hc].
  - destruct (locate_in m1 k Hc) as (r&Hin&Hk). symmetry. apply (locate_owner m2 _ r); [done| |done].
    by rewrite <-Hp.
  - rewrite !locate_out; [done| |done]. intros (s&r&Hin&Hk). apply Hc. exists s, r. by rewrite Hp.
Qed.

(** ** The default map *)

Lemma in_range_byte x y b rest :
  in_range [x] (b :: rest) [y] = ((byteZ x <=? byteZ b) && (byteZ b <? byteZ y)).
Proof.
  unfold in_range, ble. cbn. rewrite !blt_nil_r. rewrite !andb_false_r, !orb_false_r.
  by rewrite Z.leb_antisym.
Qed.

Lemma in_range_empty_key x y : in_range [x] [] y = false.
Proof. done. Qed.

(** The range of shard [j], as an interval of first bytes. *)
Definition byte_end (n j : Z) : Z := if j <? n - 1 then (j + 1) * (256 / n) else 255.

Lemma range_loop_in n chunk s r m : ∀ i,
  (s, r) ∈ range_loop n chunk i m ↔
  i ≤ s < i + Z.of_nat m ∧
  r = ([byte_of_Z (s * chunk)], if s <? n - 1 then [byte_of_Z ((s + 1) * chunk)] else [xff]).
Proof.
  induction m as [|m IH]; intros i; cbn [range_loop].
  - split; [by intros ?%elem_of_nil|]. intros [? _]. lia.
  - rewrite elem_of_cons, IH. split.
    + intros [[= -> ->]|[? ->]]; split; done || lia.
    + intros [Hs ->]. destruct (decide (s = i)) as [->|]; [by left|]. right. split; [lia|done].
Qed.

Lemma default_range_in n s r b rest :
  2 ≤ n → (s, r) ∈ default_range_map n →
  0 ≤ s < n ∧
  (in_range r.1 (b :: rest) r.2 = true ↔ s * (256 / n) ≤ byteZ b < byte_end n s).
Proof.
  intros Hn. unfold default_range_map. rewrite (proj2 (Z.leb_gt _ _)) by lia.
  rewrite range_loop_in. intros [Hs ->]. split; [lia|]. cbn [fst snd].
  pose proof (Z.mul_div_le 256 n). assert (0 ≤ 256 / n) by (apply Z.div_pos; lia).
  assert (s * (256 / n) < 256) by (destruct (decide (256 / n = 0)) as [->|]; nia).
  unfold byte_end. destruct (Z.ltb_spec s (n - 1)).
  - assert ((s + 1) * (256 / n) < 256) by (destruct (decide (256 / n = 0)) as [->|]; nia).
    rewrite in_range_byte, !byteZ_of_Z by nia. rewrite andb_true_iff, Z.leb_le, Z.ltb_lt. done.
  - rewrite in_range_byte, byteZ_of_Z by nia. change (byteZ xff) with 255.
    rewrite andb_true_iff, Z.leb_le, Z.ltb_lt. done.
Qed.

Lemma default_range_mem n s :
  2 ≤ n → 0 ≤ s < n → ∃ r, (s, r) ∈ default_range_map n.
Proof.
  intros Hn Hs. unfold default_range_map. rewrite (proj2 (Z.leb_gt _ _)) by lia.
  eexists. apply range_loop_in. split; [lia|done].
Qed.

Lemma default_range_disjoint n : disjoint_ranges (default_range_map n).
Proof.
  destruct (Z.le_gt_cases n 1) as [Hn|Hn].
  - unfold default_range_map. rewrite (proj2 (Z.leb_le _ _)) by done.
    intros s1 s2 r1 r2 k [= -> ->]%list_elem_of_singleton [= -> ->]%list_elem_of_singleton. done.
  - intros s1 s2 r1 r2 [|b rest] H1 H2.
    + unfold default_range_map in H1. rewrite (proj2 (Z.leb_gt _ _)) in H1 by lia.
      apply range_loop_in in H1 as [_ ->]. done.
    + destruct (default_range_in n s1 r1 b rest ltac:(lia) H1) as [Hs1 ->].
      destruct (default_range_in n s2 r2 b rest ltac:(lia) H2) as [Hs2 ->].
      unfold byte_end. assert (0 ≤ 256 / n) by (apply Z.div_pos; lia).
      destruct (Z.ltb_spec s1 (n - 1)), (Z.ltb_spec s2 (n - 1)); intros; nia.
Qed.

(** The default map splits the keyspace.  For up to 256 shards the ranges never
    overlap, and a key goes to the shard of its first byte - the byte divided by the width
    of a range, the last shard taking what is left over; only the empty key and the keys
    that start with 0xff lie outside every range, and they go to shard 0. *)
Theorem default_map_routes n k :
  2 ≤ n ≤ 256 →
  disjoint_ranges (default_range_map n) ∧
  locate (default_range_map n) k =
    match k with
    | [] => 0
    | b :: _ => if byteZ b =? 255 then 0 else Z.min (byteZ b / (256 / n)) (n - 1)
    end.
Proof.
  intros Hn. split; [apply default_range_disjoint|].
  destruct k as [|b rest].
  { apply locate_out. intros (s&r&Hin&Hk). unfold default_range_map in Hin.
    rewrite (proj2 (Z.leb_gt _ _)) in Hin by lia. by apply range_loop_in in Hin as [_ ->]. }
  assert (Hc : 1 ≤ 256 / n) by (apply Z.div_le_lower_bound; lia).
  assert (Hm : n * (256 / n) ≤ 256) by (apply Z.mul_div_le; lia).
  pose proof (byteZ_range b) as Hb. destruct (Z.eqb_spec (byteZ b) 255) as [He|He].
  - apply locate_out. intros (s&r&Hin&Hk).
    destruct (default_range_in n s r b rest ltac:(lia) Hin) as [Hs Hi]. apply Hi in Hk.
    unfold byte_end in Hk. destruct (Z.ltb_spec s (n - 1)); nia.
  - set (q := byteZ b / (256 / n)). assert (0 ≤ q) by (apply Z.div_pos; lia).
    destruct (default_range_mem n (Z.min q (n - 1))) as [r Hin]; [lia..|].
    eapply locate_owner; [apply default_range_disjoint|exact Hin|].
    apply (default_range_in n (Z.min q (n - 1)) r b rest); [lia|done|].
    pose proof (Z.mul_div_le (byteZ b) (256 / n)) as H1.
    pose proof (Z.mul_succ_div_gt (byteZ b) (256 / n)) as H2. fold q in H1, H2.
    unfold byte_end. destruct (Z.min_spec q (n - 1)) as [[Hlt ->]|[Hge ->]].
    + rewrite (proj2 (Z.ltb_lt _ _)) by done. nia.
    + rewrite (proj2 (Z.ltb_ge _ _)) by lia. nia.
Qed.
