(* ===== verification/Metadata.v ===== *)
(** The routing table's group, [metadata/service.py]: the table and its wire form, the
    state machine that changes it, and the record a servicer sends.

    The machine's dictionary of shards and a placement's dictionary of addresses are finite
    maps: nothing observes their order, because [_table_payload] sorts both.  A
    [RoutingTable] keeps the order it was parsed in, which [locate] goes by. *)

From Stdlib Require Import ZArith Lia.
From S2P Require Import Prelude Bytes PyVal PyOps StateMachine Groups Dict Router.

Definition TABLE_KEY : bytes := b_ "routing_table".

Module MetadataCommandType.
Definition INIT_ROUTES : bytes := b_ "init_routes".
Definition SET_SHARD_NODES : bytes := b_ "set_shard_nodes".
Definition REPORT_LEADER : bytes := b_ "report_leader".
Definition SPLIT : bytes := b_ "split".
Definition MOVE_SHARD : bytes := b_ "move_shard".
End MetadataCommandType.

Record ShardPlacement := {
  sp_shard_id : Z;
  sp_start : bytes;
  sp_end : bytes;
  sp_nodes : list Z;
  sp_addresses : gmap Z string;
  sp_leader_id : option Z;
  sp_leader_term : Z
}.

#[global] Instance ShardPlacement_eq_dec : EqDecision ShardPlacement.
Proof. solve_decision. Defined.

Definition leader_address (p : ShardPlacement) : option string :=
  match sp_leader_id p with
  | None => None
  | Some leader_id => sp_addresses p !! leader_id
  end.

Definition fresh_placement (shard_id : Z) (start end_ : bytes) (nodes : list Z)
    (addresses : gmap Z string) : ShardPlacement :=
  {| sp_shard_id := shard_id; sp_start := start; sp_end := end_; sp_nodes := nodes;
     sp_addresses := addresses; sp_leader_id := None; sp_leader_term := 0 |}.

Record RoutingTable := { rt_version : Z; rt_shards : list (Z * ShardPlacement) }.

Definition routes (t : RoutingTable) : RangeMap :=
  map (λ e, (e.1, (sp_start e.2, sp_end e.2))) (rt_shards t).
Definition route_for (t : RoutingTable) (key : bytes) : Z := locate (routes t) key.
Definition shard (t : RoutingTable) (shard_id : Z) : option ShardPlacement :=
  d_get (rt_shards t) shard_id.
Definition shard_for (t : RoutingTable) (key : bytes) : option ShardPlacement :=
  shard t (route_for t key).

(** [sorted(d.items())] of a dictionary keyed by integers. *)
Definition key_le {A} (x y : Z * A) : Prop := x.1 ≤ y.1.
#[global] Instance key_le_dec {A} : RelDecision (@key_le A).
Proof. intros x y. unfold key_le. apply _. Defined.
Definition sorted_items {A} (m : gmap Z A) : list (Z * A) := merge_sort key_le (map_to_list m).

(** [{k: v for k, v in pairs}]: a later pair wins. *)
Definition dict_of {A} (pairs : list (Z * A)) : gmap Z A :=
  foldl (λ m e, <[e.1 := e.2]> m) ∅ pairs.

Definition addresses_payload (addresses : gmap Z string) : pyval :=
  PList (map (λ e, PList [PInt e.1; PStr e.2]) (sorted_items addresses)).

Definition placement_payload (p : ShardPlacement) : pyval :=
  PDict [("shard_id"%string, PInt (sp_shard_id p));
         ("start"%string, PBytes (sp_start p));
         ("end"%string, PBytes (sp_end p));
         ("nodes"%string, PList (map PInt (sp_nodes p)));
         ("addresses"%string, addresses_payload (sp_addresses p));
         ("leader_id"%string, match sp_leader_id p with Some z => PInt z | None => PNone end);
         ("leader_term"%string, PInt (sp_leader_term p))].

Definition _table_payload (version : Z) (shards : gmap Z ShardPlacement) : pyval :=
  PDict [("version"%string, PInt version);
         ("shards"%string, PList (map (λ e, placement_payload e.2) (sorted_items shards)))].

Section parse.
Context `{PyRepr}.

(** [[int(node_id) for node_id in v]]. *)
Definition int_list (v : pyval) : result (list Z) :=
  let? l := py_iter v in traverse py_int l.

(** [{int(node_id): str(address) for node_id, address in v}]. *)
Definition address_pairs (v : pyval) : result (gmap Z string) :=
  let? l := py_iter v in
  let? pairs := traverse (λ e, let? (a, b) := py_pair e in
                               let? k := py_int a in Ok (k, py_str b)) l in
  Ok (dict_of pairs).

(** [{int(entry[0]): str(entry[1]) for entry in v}]. *)
Definition address_entries (v : pyval) : result (gmap Z string) :=
  let? l := py_iter v in
  let? pairs := traverse (λ e, let? a := py_item e 0 in let? k := py_int a in
                               let? b := py_item e 1 in Ok (k, py_str b)) l in
  Ok (dict_of pairs).

Definition parse_placement (entry : pyval) : result ShardPlacement :=
  let? v := py_index entry "shard_id" in
  let? shard_id := py_int v in
  let? v := py_index entry "start" in
  let? start := py_bytes v in
  let? v := py_index entry "end" in
  let? end_ := py_bytes v in
  let? v := py_get_or entry "nodes" (PList []) in
  let? nodes := int_list v in
  let? v := py_get_or entry "addresses" (PList []) in
  let? addresses := address_pairs v in
  let? leader := py_get entry "leader_id" in
  let? leader_id := (if decide (leader = PNone) then Ok None
                     else let? z := py_int leader in Ok (Some z)) in
  let? v := py_get_or entry "leader_term" (PInt 0) in
  let? leader_term := py_int v in
  Ok {| sp_shard_id := shard_id; sp_start := start; sp_end := end_; sp_nodes := nodes;
        sp_addresses := addresses; sp_leader_id := leader_id; sp_leader_term := leader_term |}.

Definition _parse_table (payload : pyval) : result RoutingTable :=
  let? v := py_get_or payload "shards" (PList []) in
  let? entries := py_iter v in
  let? placements := traverse parse_placement entries in
  let? v := py_get_or payload "version" (PInt 0) in
  let? version := py_int v in
  Ok {| rt_version := version;
        rt_shards := d_of (map (λ p, (sp_shard_id p, p)) placements) |}.
End parse.

Module MetadataStateMachine.
Section machine.
Context `{PyRepr} `{Msgpack}.

Record t := { _shards : gmap Z ShardPlacement; _version : Z }.
Definition init : t := {| _shards := ∅; _version := 0 |}.

(** The table with one shard's placement replaced, one version on. *)
Definition put (shard_id : Z) (p : ShardPlacement) (s : t) : t :=
  {| _shards := <[shard_id := p]> (_shards s); _version := _version s + 1 |}.

Definition serialize_metadata_command (cmd_type : bytes) (kwargs : list (string * pyval))
    : result bytes :=
  packb (PDict (("type"%string, PBytes cmd_type) :: kwargs)).

(** The commands as the client builds them ([MetadataClient]). *)
Definition init_routes_command (ranges : RangeMap) : result bytes :=
  serialize_metadata_command MetadataCommandType.INIT_ROUTES
    [("ranges"%string, PList (map (λ e, PList [PInt e.1; PBytes e.2.1; PBytes e.2.2])
                                  (merge_sort key_le ranges)))].

Definition set_shard_nodes_command (shard_id : Z) (nodes : list Z) (addresses : gmap Z string)
    : result bytes :=
  serialize_metadata_command MetadataCommandType.SET_SHARD_NODES
    [("shard_id"%string, PInt shard_id); ("nodes"%string, PList (map PInt nodes));
     ("addresses"%string, addresses_payload addresses)].

Definition split_shard_command (shard_id : Z) (split_key : bytes) (new_shard_id : Z)
    (nodes : list Z) (addresses : gmap Z string) : result bytes :=
  serialize_metadata_command MetadataCommandType.SPLIT
    [("shard_id"%string, PInt shard_id); ("split_key"%string, PBytes split_key);
     ("new_shard_id"%string, PInt new_shard_id); ("nodes"%string, PList (map PInt nodes));
     ("addresses"%string, addresses_payload addresses)].

Definition report_leader_command (shard_id node_id term : Z) : result bytes :=
  serialize_metadata_command MetadataCommandType.REPORT_LEADER
    [("shard_id"%string, PInt shard_id); ("node_id"%string, PInt node_id);
     ("term"%string, PInt term)].

Definition move_shard_command (shard_id : Z) (from_nodes nodes : list Z)
    (addresses : gmap Z string) : result bytes :=
  serialize_metadata_command MetadataCommandType.MOVE_SHARD
    [("shard_id"%string, PInt shard_id); ("from_nodes"%string, PList (map PInt from_nodes));
     ("nodes"%string, PList (map PInt nodes)); ("addresses"%string, addresses_payload addresses)].

(** Every handler parses its whole command before it looks at the table, and changes the
    table in one step at the end: what it returns is the new state and the answer, and a
    command that cannot be parsed raises before anything is changed. *)
Definition _apply_init_routes (cmd : pyval) (s : t) : result (t * ApplyResult) :=
  let? v := py_index cmd "ranges" in
  let? l := py_iter v in
  let? ranges := traverse (λ e, let? a := py_item e 0 in let? k := py_int a in
                                let? b := py_item e 1 in let? start := py_bytes b in
                                let? c := py_item e 2 in let? end_ := py_bytes c in
                                Ok (k, (start, end_))) l in
  if decide (_shards s ≠ ∅) then Ok (s, apply_failure 3)
  else Ok ({| _shards := (map_imap (λ k r, Some (fresh_placement k r.1 r.2 [] ∅)) (dict_of ranges));
              _version := _version s + 1 |}, apply_success None).

Definition _apply_set_shard_nodes (cmd : pyval) (s : t) : result (t * ApplyResult) :=
  let? v := py_index cmd "shard_id" in
  let? shard_id := py_int v in
  let? v := py_index cmd "nodes" in
  let? nodes := int_list v in
  let? v := py_index cmd "addresses" in
  let? addresses := address_entries v in
  match _shards s !! shard_id with
  | None => Ok (s, apply_failure 4)
  | Some p =>
      let stranger := match sp_leader_id p with
                      | Some l => negb (bool_decide (l ∈ nodes))
                      | None => false
                      end in
      Ok (put shard_id {| sp_shard_id := sp_shard_id p; sp_start := sp_start p;
            sp_end := sp_end p; sp_nodes := nodes; sp_addresses := addresses;
            sp_leader_id := if stranger then None else sp_leader_id p;
            sp_leader_term := if stranger then 0 else sp_leader_term p |} s,
          apply_success None)
  end.

Definition _apply_report_leader (cmd : pyval) (s : t) : result (t * ApplyResult) :=
  let? v := py_index cmd "shard_id" in
  let? shard_id := py_int v in
  let? v := py_index cmd "node_id" in
  let? node_id := py_int v in
  let? v := py_index cmd "term" in
  let? term := py_int v in
  match _shards s !! shard_id with
  | None => Ok (s, apply_failure 4)
  | Some p =>
      if decide (sp_nodes p ≠ [] ∧ node_id ∉ sp_nodes p) then Ok (s, apply_failure 5)
      else if decide (sp_leader_id p ≠ None ∧ term ≤ sp_leader_term p) then Ok (s, apply_failure 6)
      else Ok (put shard_id {| sp_shard_id := sp_shard_id p; sp_start := sp_start p;
                 sp_end := sp_end p; sp_nodes := sp_nodes p; sp_addresses := sp_addresses p;
                 sp_leader_id := Some node_id; sp_leader_term := term |} s,
               apply_success None)
  end.

Definition _split_again (shard_id new_shard_id : Z) (split_key : bytes) (nodes : list Z)
    (s : t) : result ApplyResult :=
  match _shards s !! new_shard_id with
  | None => Raise KeyError
  | Some right_half =>
  match _shards s !! shard_id with
  | Some left_half =>
      if decide (sp_end left_half = split_key ∧ sp_start right_half = split_key) then
        if decide (sp_nodes right_half = nodes) then Ok (apply_success None)
        else Ok (apply_failure 10)
      else Ok (apply_failure 9)
  | None => Ok (apply_failure 9)
  end end.

(** [other.start < half.end and half.start < other.end]. *)
Definition overlaps (other half : ShardPlacement) : bool :=
  blt (sp_start other) (sp_end half) && blt (sp_start half) (sp_end other).

Definition _apply_split (cmd : pyval) (s : t) : result (t * ApplyResult) :=
  let? v := py_index cmd "shard_id" in
  let? shard_id := py_int v in
  let? v := py_index cmd "new_shard_id" in
  let? new_shard_id := py_int v in
  let? v := py_index cmd "split_key" in
  let? split_key := py_bytes v in
  let? v := py_index cmd "nodes" in
  let? nodes := int_list v in
  let? v := py_index cmd "addresses" in
  let? addresses := address_entries v in
  if decide (is_Some (_shards s !! new_shard_id)) then
    let? r := _split_again shard_id new_shard_id split_key nodes s in Ok (s, r)
  else
  match _shards s !! shard_id with
  | None => Ok (s, apply_failure 7)
  | Some p =>
      if negb (blt (sp_start p) split_key && blt split_key (sp_end p))
      then Ok (s, apply_failure 8)
      else
      let left_half := {| sp_shard_id := shard_id; sp_start := sp_start p; sp_end := split_key;
                     sp_nodes := sp_nodes p; sp_addresses := sp_addresses p;
                     sp_leader_id := sp_leader_id p; sp_leader_term := sp_leader_term p |} in
      let right_half := fresh_placement new_shard_id split_key (sp_end p) nodes addresses in
      if existsb (λ e, negb (e.1 =? shard_id) && (overlaps e.2 left_half || overlaps e.2 right_half))
           (map_to_list (_shards s))
      then Ok (s, apply_failure 11)
      else Ok ({| _shards := <[new_shard_id := right_half]> (<[shard_id := left_half]> (_shards s));
                  _version := _version s + 1 |}, apply_success None)
  end.

Definition _apply_move_shard (cmd : pyval) (s : t) : result (t * ApplyResult) :=
  let? v := py_index cmd "shard_id" in
  let? shard_id := py_int v in
  let? v := py_index cmd "from_nodes" in
  let? from_nodes := int_list v in
  let? v := py_index cmd "nodes" in
  let? nodes := int_list v in
  let? v := py_index cmd "addresses" in
  let? addresses := address_entries v in
  match _shards s !! shard_id with
  | None => Ok (s, apply_failure 12)
  | Some p =>
      if decide (nodes = [] ∨ ¬ NoDup nodes ∨ Exists (λ n, addresses !! n = None) nodes)
      then Ok (s, apply_failure 13)
      else if decide (sp_nodes p = nodes) then
        if decide (sp_addresses p = addresses) then Ok (s, apply_success None)
        else Ok (s, apply_failure 16)
      else if decide (sp_nodes p ≠ from_nodes) then Ok (s, apply_failure 14)
      else if decide (Exists (λ n, n ∈ from_nodes) nodes) then Ok (s, apply_failure 15)
      else Ok (put shard_id {| sp_shard_id := sp_shard_id p; sp_start := sp_start p;
                 sp_end := sp_end p; sp_nodes := nodes; sp_addresses := addresses;
                 sp_leader_id := None; sp_leader_term := 0 |} s, apply_success None)
  end.

Definition dispatch (cmd : pyval) (s : t) : result (t * ApplyResult) :=
  let? cmd_type := py_get cmd "type" in
  if decide (cmd_type = PBytes MetadataCommandType.INIT_ROUTES) then _apply_init_routes cmd s
  else if decide (cmd_type = PBytes MetadataCommandType.SET_SHARD_NODES)
  then _apply_set_shard_nodes cmd s
  else if decide (cmd_type = PBytes MetadataCommandType.REPORT_LEADER)
  then _apply_report_leader cmd s
  else if decide (cmd_type = PBytes MetadataCommandType.SPLIT) then _apply_split cmd s
  else if decide (cmd_type = PBytes MetadataCommandType.MOVE_SHARD) then _apply_move_shard cmd s
  else Ok (s, apply_failure 1).

Definition apply (command : bytes) (s : t) : t * ApplyResult :=
  match (let? cmd := unpackb command in dispatch cmd s) with
  | Ok r => r
  | Raise _ => (s, apply_failure 2)
  end.

(** *** Reads and snapshots *)

Definition encode (s : t) : result bytes := packb (_table_payload (_version s) (_shards s)).

Definition get (key : bytes) (s : t) : result ReadResult :=
  if decide (key ≠ TABLE_KEY) then Ok (read_failure ErrorCode.ERR_UNKNOWN)
  else let? b := encode s in Ok (read_success (PBytes b) 0).

Definition table (s : t) : result RoutingTable := _parse_table (_table_payload (_version s) (_shards s)).

Definition snapshot (s : t) : result bytes := encode s.

Definition restore (data : bytes) : M t unit :=
  match data with
  | [] => updates (λ _, Ok init)
  | _ => updates (λ _, let? payload := unpackb data in
                       let? table := _parse_table payload in
                       Ok {| _shards := dict_of (rt_shards table); _version := rt_version table |})
  end.
End machine.
End MetadataStateMachine.

(** One placement as the wire names it. *)
Record ShardRecord := {
  sr_shard_id : Z; sr_start_key : bytes; sr_end_key : bytes; sr_nodes : list Z;
  sr_addresses : gmap Z string; sr_leader_id : option Z; sr_leader_term : Z;
  sr_leader_address : option string
}.

Definition shard_record (p : ShardPlacement) : ShardRecord :=
  {| sr_shard_id := sp_shard_id p; sr_start_key := sp_start p; sr_end_key := sp_end p;
     sr_nodes := sp_nodes p;
     sr_addresses := foldl (λ m e, <[e.1 := e.2]> m) ∅ (sorted_items (sp_addresses p));
     sr_leader_id := sp_leader_id p; sr_leader_term := sp_leader_term p;
     sr_leader_address := match leader_address p with
                          | Some a => if decide (a = EmptyString) then None else Some a
                          | None => None
                          end |}.
