(* ===== verification/MetadataFacts.v ===== *)
(** What holds of the routing table: its invariant under every command, what a split and a
    move change, leader reports, and the round trip of the table through its wire form. *)

From Stdlib Require Import ZArith Lia.
From S2P Require Import Prelude Bytes PyVal PyOps StateMachine Groups Dict Router Metadata.
Import MetadataStateMachine.

(** ** Dictionaries keyed by integers *)

Section maps.
Context {A : Type}.
Implicit Types m : gmap Z A.

Lemma dict_of_lookup (pairs : list (Z * A)) k v :
  NoDup pairs.*1 → dict_of pairs !! k = Some v ↔ (k, v) ∈ pairs.
Proof.
  intros Hd. unfold dict_of.
  assert (∀ acc : gmap Z A, (∀ x, x ∈ pairs.*1 → acc !! x = None) →
    foldl (λ m e, <[e.1 := e.2]> m) acc pairs !! k = Some v ↔ acc !! k = Some v ∨ (k, v) ∈ pairs) as Hg.
  { induction pairs as [|[k0 v0] l IH]; intros acc Hacc; cbn.
    - rewrite elem_of_nil. tauto.
    - apply list.NoDup_cons in Hd as [Hn Hd]. rewrite IH; [|done|].
      + rewrite elem_of_cons. destruct (decide (k0 = k)) as [->|Hne].
        * rewrite lookup_insert_eq. rewrite (Hacc k) by (by left). split; [|naive_solver].
          intros [[= ->]|Hin]; [by right; left|by right; right].
        * rewrite lookup_insert_ne by done. split; naive_solver.
      + intros x Hx. rewrite lookup_insert_ne; [|by intros ->]. apply Hacc. by right. }
  rewrite Hg; [|intros; apply lookup_empty]. rewrite lookup_empty. naive_solver.
Qed.

Lemma sorted_items_perm m : sorted_items m ≡ₚ map_to_list m.
Proof. apply merge_sort_Permutation. Qed.

Lemma sorted_items_nodup m : NoDup (sorted_items m).*1.
Proof. rewrite sorted_items_perm. apply NoDup_fst_map_to_list. Qed.

Lemma sorted_items_in m k v : (k, v) ∈ sorted_items m ↔ m !! k = Some v.
Proof. rewrite sorted_items_perm. by rewrite elem_of_map_to_list. Qed.

Lemma dict_of_sorted m : dict_of (sorted_items m) = m.
Proof.
  apply map_eq. intros k. apply option_eq. intros v.
  rewrite dict_of_lookup by apply sorted_items_nodup. apply sorted_items_in.
Qed.
End maps.

Section parse.
Context `{PyRepr}.

Lemma int_list_ints l : int_list (PList (map PInt l)) = Ok l.
Proof.
  unfold int_list. cbn [py_iter rbind]. rewrite (traverse_map _ _ (λ z, z)) by done.
  by rewrite map_id.
Qed.

Lemma address_pairs_payload m : address_pairs (addresses_payload m) = Ok m.
Proof.
  unfold address_pairs, addresses_payload. cbn [py_iter rbind].
  rewrite (traverse_map _ _ (λ e, e)) by (by intros []). cbn [rbind]. by rewrite map_id, dict_of_sorted.
Qed.

Lemma address_entries_payload m : address_entries (addresses_payload m) = Ok m.
Proof.
  unfold address_entries, addresses_payload. cbn [py_iter rbind].
  rewrite (traverse_map _ _ (λ e, e)) by (by intros []). cbn [rbind]. by rewrite map_id, dict_of_sorted.
Qed.

Lemma parse_placement_payload p : parse_placement (placement_payload p) = Ok p.
Proof.
  unfold parse_placement, placement_payload. cbn -[int_list address_pairs addresses_payload].
  repeat (decides; cbn -[int_list address_pairs addresses_payload]).
  rewrite int_list_ints. cbn -[address_pairs addresses_payload].
  rewrite address_pairs_payload. cbn. destruct p as [? ? ? ? ? [z|] ?]; cbn; decides; done.
Qed.

Lemma parse_table_payload v (m : gmap Z ShardPlacement) :
  (∀ i p, m !! i = Some p → sp_shard_id p = i) →
  _parse_table (_table_payload v m) = Ok {| rt_version := v; rt_shards := sorted_items m |}.
Proof.
  intros Hid. unfold _parse_table, _table_payload.
  cbn -[sorted_items traverse d_of placement_payload]. decides. cbn -[sorted_items traverse d_of placement_payload].
  rewrite (traverse_map _ _ snd) by (intros; apply parse_placement_payload). cbn -[sorted_items d_of].
  assert (map (λ p, (sp_shard_id p, p)) (map snd (sorted_items m)) = sorted_items m) as ->.
  { rewrite map_map. rewrite <-(map_id (sorted_items m)) at 2. apply map_ext_in.
    intros [k p] Hin%list_elem_of_In%sorted_items_in. cbn. f_equal. by apply Hid. }
  decides. cbn -[sorted_items d_of]. by rewrite d_of_nodup by apply sorted_items_nodup.
Qed.
End parse.

(** ** Changes of the table *)

Section steps.
Context `{PyRepr} `{!Msgpack}.
Implicit Types (s : MetadataStateMachine.t) (p : ShardPlacement).

Definition same_range p p' : Prop :=
  sp_shard_id p' = sp_shard_id p ∧ sp_start p' = sp_start p ∧ sp_end p' = sp_end p.

(** A recorded leader is one of the shard's nodes, if the table lists any. *)
Definition leader_ok p : Prop :=
  match sp_leader_id p with Some l => sp_nodes p = [] ∨ l ∈ sp_nodes p | None => True end.

Definition left_half shard_id k p : ShardPlacement :=
  {| sp_shard_id := shard_id; sp_start := sp_start p; sp_end := k; sp_nodes := sp_nodes p;
     sp_addresses := sp_addresses p; sp_leader_id := sp_leader_id p;
     sp_leader_term := sp_leader_term p |}.

Inductive meta_step : MetadataStateMachine.t → MetadataStateMachine.t → ApplyResult → Prop :=
  | ms_same s r : meta_step s s r
  | ms_init s ranges :
      _shards s = ∅ →
      meta_step s {| _shards := map_imap (λ k r, Some (fresh_placement k r.1 r.2 [] ∅)) ranges;
                     _version := _version s + 1 |} (apply_success None)
  | ms_put s i p p' :
      _shards s !! i = Some p → same_range p p' → (leader_ok p → leader_ok p') →
      meta_step s (put i p' s) (apply_success None)
  | ms_split s i j k p nodes addresses :
      _shards s !! j = None → _shards s !! i = Some p →
      blt (sp_start p) k = true → blt k (sp_end p) = true →
      meta_step s {| _shards := <[j := fresh_placement j k (sp_end p) nodes addresses]>
                                  (<[i := left_half i k p]> (_shards s));
                     _version := _version s + 1 |} (apply_success None).

(** Go through the parsing of a command: a part that cannot be read raises. *)
Ltac parse_cmd :=
  repeat match goal with
  | |- context [rbind ?m _] => destruct m eqn:?; cbn [rbind]; [|first [exact I | done]]
  end.

Lemma meta_dispatch_step cmd s :
  match dispatch cmd s with Ok (s', r) => meta_step s s' r | Raise _ => True end.
Proof.
  unfold dispatch. destruct (py_get cmd "type") as [ty|]; [|exact I]. cbn [rbind].
  repeat case_decide; [| | | | |constructor].
  - unfold _apply_init_routes. parse_cmd. case_decide; [constructor|].
    apply ms_init. done.
  - unfold _apply_set_shard_nodes. parse_cmd. destruct (_shards s !! _) as [p|] eqn:Hp; [|constructor].
    eapply ms_put; [done|done|]. unfold leader_ok. cbn. destruct (sp_leader_id p) as [l|]; [|done].
    case_bool_decide; cbn; [by right|done].
  - unfold _apply_report_leader. parse_cmd. destruct (_shards s !! _) as [p|] eqn:Hp; [|constructor].
    case_decide as Hnode; [constructor|]. case_decide; [constructor|]. eapply ms_put; [done|done|].
    intros _. unfold leader_ok. cbn. destruct (decide (sp_nodes p = [])); [by left|right].
    apply dec_stable. tauto.
  - unfold _apply_split. parse_cmd. case_decide as Hj; [parse_cmd; constructor|].
    destruct (_shards s !! a0) as [p|] eqn:Hp; [|constructor].
    destruct (blt (sp_start p) _ && _) eqn:Hb; cbn [negb]; [|constructor].
    destruct (existsb _ _); [constructor|]. zbool. apply ms_split; try done.
    by apply eq_None_not_Some.
  - unfold _apply_move_shard. parse_cmd. destruct (_shards s !! _) as [p|] eqn:Hp; [|constructor].
    repeat case_decide; try constructor. eapply ms_put; done.
Qed.

Lemma meta_apply_step c s : meta_step s (apply c s).1 (apply c s).2.
Proof.
  unfold apply. destruct (unpackb c) as [cmd|]; cbn [rbind]; [|constructor].
  pose proof (meta_dispatch_step cmd s) as Hd. destruct (dispatch cmd s) as [[s' r]|]; [done|constructor].
Qed.

(** ** The invariant *)

(** [k] lies in the range of shard [i]. *)
Definition owns s (i : Z) (k : bytes) : Prop :=
  ∃ p, _shards s !! i = Some p ∧ in_range (sp_start p) k (sp_end p) = true.

Record meta_inv s : Prop := {
  mi_id i p : _shards s !! i = Some p → sp_shard_id p = i;
  mi_disjoint i j k : owns s i k → owns s j k → i = j;
  mi_leader i p : _shards s !! i = Some p → leader_ok p
}.

Lemma put_owns s i p p' j k :
  _shards s !! i = Some p → same_range p p' → owns (put i p' s) j k ↔ owns s j k.
Proof.
  intros Hp (_&Hs&He). unfold owns, put. cbn. destruct (decide (i = j)) as [<-|Hne].
  - rewrite lookup_insert_eq, Hp. split; intros (q&[= <-]&Hr); eexists; (split; [done|]); congruence.
  - by rewrite lookup_insert_ne.
Qed.

(** Who owns what after a split: the new shard takes the upper part of the old one. *)
Lemma split_owns s i j cut p nodes addresses l k :
  _shards s !! j = None → _shards s !! i = Some p →
  blt (sp_start p) cut = true → blt cut (sp_end p) = true →
  owns {| _shards := <[j := fresh_placement j cut (sp_end p) nodes addresses]>
                       (<[i := left_half i cut p]> (_shards s));
          _version := _version s + 1 |} l k
  ↔ if decide (l = j) then owns s i k ∧ ble cut k = true
    else if decide (l = i) then owns s i k ∧ blt k cut = true else owns s l k.
Proof.
  intros Hj Hi Ha Hb. unfold owns. cbn. assert (i ≠ j) as Hij by congruence.
  destruct (decide (l = j)) as [->|Hlj]; [|rewrite lookup_insert_ne by done;
    destruct (decide (l = i)) as [->|Hli]; [|by rewrite lookup_insert_ne]].
  - rewrite lookup_insert_eq. split.
    + intros (q&[= <-]&Hr). cbn in Hr. apply in_range_iff in Hr as [H1 H2]. split; [|done].
      exists p. split; [done|]. apply in_range_iff. split; [|done].
      eapply ble_trans; [|exact H1]. apply ble_lt. by right.
    + intros [(q&Hq&Hr) Hc]. rewrite Hi in Hq. injection Hq as <-. eexists. split; [done|]. cbn.
      apply in_range_iff in Hr as [_ ?]. by apply in_range_iff.
  - rewrite lookup_insert_eq. split.
    + intros (q&[= <-]&Hr). cbn in Hr. apply in_range_iff in Hr as [H1 H2]. split; [|done].
      exists p. split; [done|]. apply in_range_iff. split; [done|]. by eapply blt_trans.
    + intros [(q&Hq&Hr) Hc]. rewrite Hi in Hq. injection Hq as <-. eexists. split; [done|]. cbn.
      apply in_range_iff in Hr as [? _]. by apply in_range_iff.
Qed.

Lemma init_lookup (ranges : gmap Z (bytes * bytes)) i p :
  map_imap (λ k r, Some (fresh_placement k r.1 r.2 [] ∅)) ranges !! i = Some p ↔
  ∃ r, ranges !! i = Some r ∧ p = fresh_placement i r.1 r.2 [] ∅.
Proof. rewrite map_lookup_imap. destruct (ranges !! i); cbn; naive_solver. Qed.

(** Once it has a shard, the table keeps its invariant and the keys it covers. *)
Lemma meta_step_inv s s' r :
  meta_step s s' r → _shards s ≠ ∅ → meta_inv s →
  _shards s' ≠ ∅ ∧ meta_inv s' ∧ (∀ k, (∃ i, owns s' i k) ↔ ∃ i, owns s i k).
Proof.
  intros [s0 r0|s0 ranges He|s0 i p p' Hp Hr Hl|s0 i j cut p nodes addresses Hj Hi Ha Hb] Hne Hinv.
  - done.
  - done.
  - split_and!; [by apply insert_non_empty|split|].
    + intros l q. unfold put. cbn. destruct (decide (i = l)) as [<-|?].
      * rewrite lookup_insert_eq. intros [= <-]. destruct Hr as (->&_). by apply Hinv.
      * rewrite lookup_insert_ne by done. apply Hinv.
    + intros l m k. rewrite !(put_owns _ _ _ _ _ _ Hp Hr). apply Hinv.
    + intros l q. unfold put. cbn. destruct (decide (i = l)) as [<-|?].
      * rewrite lookup_insert_eq. intros [= <-]. by eapply Hl, Hinv.
      * rewrite lookup_insert_ne by done. apply Hinv.
    + intros k. by setoid_rewrite (put_owns _ _ _ _ _ _ Hp Hr).
  - assert (i ≠ j) as Hij by congruence. split_and!; [by apply insert_non_empty|split|].
    + intros l q. cbn. destruct (decide (j = l)) as [<-|?]; [rewrite lookup_insert_eq; by intros [= <-]|].
      rewrite lookup_insert_ne by done.
      destruct (decide (i = l)) as [<-|?]; [rewrite lookup_insert_eq; by intros [= <-]|].
      rewrite lookup_insert_ne by done. apply Hinv.
    + assert (Hsub : ∀ l k, owns {| _shards := <[j := fresh_placement j cut (sp_end p) nodes addresses]>
          (<[i := left_half i cut p]> (_shards s0)); _version := _version s0 + 1 |} l k →
        owns s0 (if decide (l = j) then i else l) k ∧ (l = j → blt k cut = false) ∧
        (l = i → blt k cut = true)).
      { intros l k. rewrite split_owns by done.
        repeat case_decide; unfold ble; rewrite ?negb_true_iff; naive_solver. }
      intros l m k (O1&L1&R1)%Hsub (O2&L2&R2)%Hsub.
      pose proof (mi_disjoint _ Hinv _ _ _ O1 O2) as Heq. repeat case_decide; subst; try done.
      * rewrite L1 in R2 by done. by discriminate R2.
      * rewrite L2 in R1 by done. by discriminate R1.
    + intros l q. cbn. destruct (decide (j = l)) as [<-|?]; [rewrite lookup_insert_eq; by intros [= <-]|].
      rewrite lookup_insert_ne by done. destruct (decide (i = l)) as [<-|?].
      * rewrite lookup_insert_eq. intros [= <-]. apply (mi_leader _ Hinv _ _ Hi).
      * rewrite lookup_insert_ne by done. apply Hinv.
    + intros k. split.
      * intros [l Ho]. rewrite split_owns in Ho by done. repeat case_decide; naive_solver.
      * intros [l Ho]. destruct (decide (l = i)) as [->|Hli].
        -- destruct (blt k cut) eqn:Hk.
           ++ exists i. rewrite split_owns by done. by rewrite decide_False, decide_True.
           ++ exists j. rewrite split_owns by done. rewrite decide_True by done. unfold ble. by rewrite Hk.
        -- exists l. rewrite split_owns by done. rewrite !decide_False; [done..|].
           intros ->. destruct Ho as (q&?&_). congruence.
Qed.

Definition run (log : list bytes) s : MetadataStateMachine.t := foldl (λ s c, (apply c s).1) s log.

Lemma run_inv log : ∀ s, _shards s ≠ ∅ → meta_inv s →
  _shards (run log s) ≠ ∅ ∧ meta_inv (run log s) ∧ (∀ k, (∃ i, owns (run log s) i k) ↔ ∃ i, owns s i k).
Proof.
  induction log as [|c log IH]; intros s Hne Hi; [done|].
  destruct (meta_step_inv _ _ _ (meta_apply_step c s) Hne Hi) as (Hne'&Hi'&Hk).
  destruct (IH _ Hne' Hi') as (?&?&Hk'). split_and!; [done..|]. intros k. cbn. by rewrite Hk'.
Qed.

(** ** The bootstrap *)

Lemma sort_nodup (ranges : RangeMap) : NoDup ranges.*1 → NoDup (merge_sort key_le ranges).*1.
Proof. intros Hd. by rewrite merge_sort_Permutation. Qed.

Lemma init_routes_run ranges c s :
  init_routes_command ranges = Ok c →
  apply c s =
    if decide (_shards s ≠ ∅) then (s, apply_failure 3)
    else ({| _shards := map_imap (λ k r, Some (fresh_placement k r.1 r.2 [] ∅))
                          (dict_of (merge_sort key_le ranges));
             _version := _version s + 1 |}, apply_success None).
Proof.
  intros Hc. unfold apply. rewrite (unpackb_packb _ _ Hc). cbn [rbind].
  unfold dispatch. cbn [py_get dict_get]. decides. cbn [default rbind]. decides.
  unfold _apply_init_routes. cbn [py_index dict_get]. decides. cbn [rbind py_iter].
  rewrite (traverse_map _ _ (λ e, e)) by (by intros [? [? ?]]). cbn [rbind]. rewrite map_id.
  by case_decide.
Qed.

Lemma range_loop_keys n chunk m : ∀ i, (range_loop n chunk i m).*1 = seqZ i (Z.of_nat m).
Proof.
  induction m as [|m IH]; intros i; cbn [range_loop]; [done|].
  rewrite fmap_cons, IH. rewrite (seqZ_cons i (Z.of_nat (S m))) by lia.
  cbn [fst]. f_equal. f_equal; lia.
Qed.

Lemma default_map_nodup n : NoDup (default_range_map n).*1.
Proof.
  unfold default_range_map. destruct (n <=? 1); [apply NoDup_singleton|].
  rewrite range_loop_keys. apply NoDup_seqZ.
Qed.

Lemma default_map_nonempty n : default_range_map n ≠ [].
Proof.
  unfold default_range_map. destruct (Z.leb_spec n 1); [done|].
  destruct (Z.to_nat n) eqn:Hn; [lia|done].
Qed.

Lemma bootstrap_owns ranges v i k :
  NoDup ranges.*1 →
  owns {| _shards := map_imap (λ k r, Some (fresh_placement k r.1 r.2 [] ∅))
                       (dict_of (merge_sort key_le ranges)); _version := v |} i k
  ↔ ∃ r, (i, r) ∈ ranges ∧ in_range r.1 k r.2 = true.
Proof.
  intros Hd. unfold owns. cbn. setoid_rewrite init_lookup.
  setoid_rewrite dict_of_lookup; [|by apply sort_nodup]. setoid_rewrite merge_sort_Permutation.
  split; [intros (p&(r&Hr&->)&Hk); by exists r|intros (r&Hr&Hk); eexists; split; [by exists r|done]].
Qed.

Lemma bootstrap_inv ranges c :
  init_routes_command ranges = Ok c → NoDup ranges.*1 → disjoint_ranges ranges → ranges ≠ [] →
  ar_success (apply c init).2 = true ∧ _shards (apply c init).1 ≠ ∅ ∧ meta_inv (apply c init).1 ∧
  ∀ k, (∃ i, owns (apply c init).1 i k) ↔ covered ranges k.
Proof.
  intros Hc Hd Hdis Hne. rewrite (init_routes_run _ _ _ Hc). rewrite decide_False by (by intros []).
  cbn [fst snd]. split_and!; [done| |split|].
  - destruct ranges as [|[i r] l]; [done|]. intros He.
    assert ((map_imap (λ k r, Some (fresh_placement k r.1 r.2 [] ∅))
              (dict_of (merge_sort key_le ((i, r) :: l))) : gmap Z ShardPlacement) !! i
            = Some (fresh_placement i r.1 r.2 [] ∅)) as Hl.
    { apply init_lookup. exists r. split; [|done]. apply dict_of_lookup; [by apply sort_nodup|].
      rewrite merge_sort_Permutation. by left. }
    cbn [_shards] in He. rewrite He in Hl. done.
  - intros i p. cbn. rewrite init_lookup. by intros (?&_&->).
  - intros i j k. rewrite !bootstrap_owns by done. intros (r1&?&?) (r2&?&?). by eapply Hdis.
  - intros i p. cbn. rewrite init_lookup. by intros (?&_&->).
  - intros k. setoid_rewrite bootstrap_owns; [|done]. unfold covered. naive_solver.
Qed.

(** C30: The routing table never overlaps and never loses a range.  After a bootstrap with any
    map of ranges that do not overlap, the default map for one, and any log of commands -
    splits, moves, reports, retries, garbage - no key lies in the ranges of two shards, the
    keys that lie in a range are exactly those of the map it was bootstrapped with, every
    entry is filed under its own id, and a recorded leader is one of its shard's nodes
    whenever the table lists any for the shard.  (A report for a shard without nodes is taken
    from anybody.) *)
Theorem metadata_table_never_overlaps ranges c log :
  NoDup ranges.*1 → disjoint_ranges ranges → ranges ≠ [] →
  init_routes_command ranges = Ok c →
  let s := run log (apply c init).1 in
  meta_inv s ∧ (∀ k, (∃ i, owns s i k) ↔ covered ranges k).
Proof.
  intros Hd Hdis Hl Hc s. destruct (bootstrap_inv _ _ Hc Hd Hdis Hl) as (_&Hne&Hi&Hk).
  destruct (run_inv log _ Hne Hi) as (_&Hi'&Hk'). split; [done|]. intros k. subst s. by rewrite Hk', Hk.
Qed.

(** A refused metadata command changes nothing, and the version counts the changes.
    Whatever the bytes, a command that is refused leaves the table as it was, and one that
    is accepted leaves it as it was (a retry) or one version on. *)
Theorem metadata_command_all_or_nothing c s :
  let '(s', r) := apply c s in
  (ar_success r = false → s' = s) ∧
  (s' = s ∨ ar_success r = true ∧ _version s' = _version s + 1).
Proof.
  pose proof (meta_apply_step c s) as Hs. destruct (apply c s) as [s' r]. cbn in Hs.
  destruct Hs; (split; [done|]); auto.
Qed.

(** ** The table a reader gets *)

Lemma table_run s : meta_inv s →
  table s = Ok {| rt_version := _version s; rt_shards := sorted_items (_shards s) |}.
Proof. intros Hi. apply parse_table_payload, Hi. Qed.

Lemma routes_in s i r :
  (i, r) ∈ routes {| rt_version := _version s; rt_shards := sorted_items (_shards s) |} ↔
  ∃ p, _shards s !! i = Some p ∧ r = (sp_start p, sp_end p).
Proof.
  unfold routes. cbn. rewrite list_elem_of_fmap. split.
  - intros ([j p]&[= -> ->]&Hin%sorted_items_in). by exists p.
  - intros (p&Hp&->). exists (i, p). split; [done|]. by apply sorted_items_in.
Qed.

Lemma routes_disjoint s : meta_inv s →
  disjoint_ranges (routes {| rt_version := _version s; rt_shards := sorted_items (_shards s) |}).
Proof.
  intros Hi i j r1 r2 k (p&Hp&->)%routes_in (q&Hq&->)%routes_in H1 H2.
  apply (mi_disjoint _ Hi i j k); by eexists.
Qed.

(** A table read whole routes a key to the shard that owns it. *)
Lemma route_for_owner s t k i : meta_inv s → table s = Ok t → owns s i k → route_for t k = i.
Proof.
  intros Hi Ht (p&Hp&Hk). rewrite table_run in Ht by done. injection Ht as <-.
  apply (locate_owner _ i (sp_start p, sp_end p)); [by apply routes_disjoint| |done].
  apply routes_in. by exists p.
Qed.

Lemma route_for_nobody s t k :
  meta_inv s → table s = Ok t → (¬ ∃ i, owns s i k) → route_for t k = 0.
Proof.
  intros Hi Ht Hn. rewrite table_run in Ht by done. injection Ht as <-.
  apply locate_out. intros (i&r&Hin&Hk). apply routes_in in Hin as (p&Hp&->).
  apply Hn. by exists i, p.
Qed.

(** A snapshot of the table restores it, and so does a read.  Restoring a snapshot into
    any replica gives the very same table; a read of the table's key, unpacked and parsed,
    is the table the replica holds; and no other key has an answer. *)
Theorem metadata_snapshot_restores s s2 data :
  meta_inv s → snapshot s = Ok data →
  restore data s2 = (s, Ok tt) ∧
  get TABLE_KEY s = Ok (read_success (PBytes data) 0) ∧
  (let? payload := unpackb data in _parse_table payload) = table s ∧
  ∀ k, k ≠ TABLE_KEY → get k s = Ok (read_failure ErrorCode.ERR_UNKNOWN).
Proof.
  intros Hi Hs. unfold snapshot in Hs. pose proof (packb_not_empty _ _ Hs) as Hne. split_and!.
  - unfold restore. destruct data; [done|]. unfold updates. rewrite (unpackb_packb _ _ Hs). cbn [rbind].
    rewrite (parse_table_payload _ _ (mi_id _ Hi)). cbn [rbind rt_shards rt_version].
    rewrite dict_of_sorted. by destruct s.
  - unfold get. rewrite decide_False by (by intros []). by rewrite Hs.
  - by rewrite (unpackb_packb _ _ Hs).
  - intros k Hk. unfold get. by rewrite decide_True.
Qed.


(** ** Splits, moves and leader reports, as the client builds them *)

(** Parse a command the client built. *)
Ltac client_cmd Hc :=
  unfold apply; rewrite (unpackb_packb _ _ Hc); cbn [rbind]; unfold dispatch;
  cbn [py_get dict_get]; decides; cbn [default rbind]; decides.
Ltac client_field :=
  cbn [py_index dict_get]; decides; cbn [rbind py_int py_bytes].

Lemma split_run i cut j nodes addresses c s :
  split_shard_command i cut j nodes addresses = Ok c →
  apply c s =
    match _shards s !! j with
    | Some rhs =>
        (s, match _shards s !! i with
            | Some lhs => if decide (sp_end lhs = cut ∧ sp_start rhs = cut)
                          then if decide (sp_nodes rhs = nodes) then apply_success None
                               else apply_failure 10
                          else apply_failure 9
            | None => apply_failure 9
            end)
    | None =>
    match _shards s !! i with
    | None => (s, apply_failure 7)
    | Some p =>
        if negb (blt (sp_start p) cut && blt cut (sp_end p)) then (s, apply_failure 8)
        else if existsb (λ e, negb (e.1 =? i) &&
                  (overlaps e.2 (left_half i cut p)
                   || overlaps e.2 (fresh_placement j cut (sp_end p) nodes addresses)))
                (map_to_list (_shards s)) then (s, apply_failure 11)
        else ({| _shards := <[j := fresh_placement j cut (sp_end p) nodes addresses]>
                              (<[i := left_half i cut p]> (_shards s));
                 _version := _version s + 1 |}, apply_success None)
    end end.
Proof.
  intros Hc. client_cmd Hc. unfold _apply_split. repeat client_field.
  rewrite int_list_ints. cbn [rbind]. client_field. rewrite address_entries_payload. cbn [rbind].
  unfold _split_again. destruct (_shards s !! j) as [rhs|].
  - rewrite decide_True by done. destruct (_shards s !! i) as [lhs|]; [|done]. by repeat case_decide.
  - rewrite decide_False by (by intros []). destruct (_shards s !! i) as [p|]; [|done].
    destruct (negb _); [done|]. by destruct (existsb _ _).
Qed.

(** Two ranges of different shards cannot overlap where neither is empty. *)
Lemma split_no_overlap s i cut p j nodes addresses :
  meta_inv s → _shards s !! i = Some p → blt (sp_start p) cut = true → blt cut (sp_end p) = true →
  existsb (λ e, negb (e.1 =? i) &&
             (overlaps e.2 (left_half i cut p)
              || overlaps e.2 (fresh_placement j cut (sp_end p) nodes addresses)))
          (map_to_list (_shards s)) = false
  ∨ ∃ l q, _shards s !! l = Some q ∧ ble (sp_end q) (sp_start q) = true.
Proof.
  intros Hi Hp Ha Hb. destruct (existsb _ _) eqn:He; [right|by left].
  apply existsb_exists in He as ([l q]&Hin&Hov). apply list_elem_of_In, elem_of_map_to_list in Hin.
  cbn in Hov. apply andb_true_iff in Hov as [Hli Hov]. apply negb_true_iff, Z.eqb_neq in Hli.
  exists l, q. split; [done|].
  destruct (blt (sp_start q) (sp_end q)) eqn:Hq; [exfalso|unfold ble; by rewrite Hq].
  assert (Hcom : ∀ a b, blt a b = true → ble (sp_start p) a = true → ble b (sp_end p) = true →
    blt (sp_start q) b && blt a (sp_end q) = true → False).
  { intros a b Hab Hpa Hbp [H1 H2]%andb_true_iff.
    set (k := if blt a (sp_start q) then sp_start q else a).
    assert (owns s l k ∧ owns s i k) as [O1 O2].
    { subst k. destruct (blt a (sp_start q)) eqn:Haq.
      - split; eexists; (split; [done|]); apply in_range_iff; split; try done.
        + apply ble_refl.
        + eapply ble_trans; [exact Hpa|]. apply ble_lt. by right.
        + exact (blt_ble_trans _ _ _ H1 Hbp).
      - split; eexists; (split; [done|]); apply in_range_iff; split; try done.
        + unfold ble. by rewrite Haq.
        + exact (blt_ble_trans _ _ _ Hab Hbp). }
    pose proof (mi_disjoint _ Hi _ _ _ O1 O2). done. }
  unfold overlaps in Hov. cbn in Hov. zbool.
  - apply (Hcom (sp_start p) cut); [done|apply ble_refl|apply ble_lt; by right|by apply andb_true_iff].
  - apply (Hcom cut (sp_end p)); [done|apply ble_lt; by right|apply ble_refl|by apply andb_true_iff].
Qed.

(** How a split changes the routes. *)
Lemma split_routes s i j cut p nodes addresses t t' k :
  let s' := {| _shards := <[j := fresh_placement j cut (sp_end p) nodes addresses]>
                            (<[i := left_half i cut p]> (_shards s));
               _version := _version s + 1 |} in
  meta_inv s → meta_inv s' → table s = Ok t → table s' = Ok t' →
  _shards s !! j = None → _shards s !! i = Some p →
  blt (sp_start p) cut = true → blt cut (sp_end p) = true →
  route_for t' k = if in_range cut k (sp_end p) then j else route_for t k.
Proof.
  intros s' Hi Hi' Ht Ht' Hj Hp Ha Hb. destruct (in_range cut k (sp_end p)) eqn:Hk.
  - apply in_range_iff in Hk as [Hk1 Hk2].
    eapply route_for_owner; [exact Hi'|exact Ht'|]. apply split_owns; [done..|].
    rewrite decide_True by done. split; [|done]. exists p. split; [done|]. apply in_range_iff.
    split; [|done]. eapply ble_trans; [|exact Hk1]. apply ble_lt. by right.
  - destruct (decide (covered (routes {| rt_version := _version s; rt_shards := sorted_items (_shards s) |}) k))
      as [(l&r&(q&Hq&->)%routes_in&Hlk)|Hcov].
    + assert (owns s l k) as Ho by (by exists q). rewrite (route_for_owner s t k l) by done.
      eapply route_for_owner; [exact Hi'|exact Ht'|]. apply split_owns; [done..|].
      rewrite decide_False by congruence. case_decide; [subst|done]. split; [done|].
      rewrite Hp in Hq. injection Hq as <-. unfold in_range in Hk. cbn in Hlk.
      apply in_range_iff in Hlk as [_ Hlt]. rewrite Hlt, andb_true_r in Hk.
      unfold ble in Hk. by apply negb_false_iff in Hk.
    + assert (Hno : ¬ ∃ l, owns s l k).
      { intros (l&q&Hq&Hlk). apply Hcov. exists l, (sp_start q, sp_end q). split; [|done].
        apply routes_in. by exists q. }
      rewrite (route_for_nobody s t k) by done.
      eapply route_for_nobody; [exact Hi'|exact Ht'|]. intros [l Ho].
      apply split_owns in Ho; [|done..]. apply Hno. repeat case_decide; naive_solver.
Qed.

(** C31: A split hands the upper part of one range to a new shard and moves nothing else.
    On a table that satisfies the invariant and whose ranges are not empty, a split with a
    fresh id is accepted exactly when the shard is there and the split point is strictly
    inside its range.  Then the new shard routes exactly the old shard's keys from the split
    point on, every other key is routed as before, the old shard keeps its replica set and
    its leader, the new one has the replica set it was given and no leader - and the same
    split proposed again is answered with success and changes nothing. *)
Theorem split_moves_upper_range i cut j nodes addresses c s t t' :
  split_shard_command i cut j nodes addresses = Ok c →
  meta_inv s → (∀ l q, _shards s !! l = Some q → blt (sp_start q) (sp_end q) = true) →
  _shards s !! j = None → table s = Ok t → table (apply c s).1 = Ok t' →
  (ar_success (apply c s).2 = true ↔
     ∃ p, _shards s !! i = Some p ∧ blt (sp_start p) cut = true ∧ blt cut (sp_end p) = true) ∧
  (ar_success (apply c s).2 = true → ∃ p, _shards s !! i = Some p ∧
     (∀ k, route_for t' k = if in_range cut k (sp_end p) then j else route_for t k) ∧
     (∃ l, shard t' i = Some l ∧ sp_nodes l = sp_nodes p ∧ sp_leader_id l = sp_leader_id p) ∧
     (∃ r, shard t' j = Some r ∧ sp_nodes r = nodes ∧ sp_leader_id r = None) ∧
     apply c (apply c s).1 = ((apply c s).1, apply_success None)).
Proof.
  intros Hc Hi Hne Hj Ht Ht'.
  assert (Hne0 : ∀ p, _shards s !! i = Some p → _shards s ≠ ∅) by (intros p Hp He; by rewrite He in Hp).
  pose proof (meta_step_inv _ _ _ (meta_apply_step c s)) as Hinv'.
  pose proof (split_run _ _ _ _ _ _ s Hc) as Hr. rewrite Hj in Hr.
  destruct (_shards s !! i) as [p|] eqn:Hp.
  2:{ rewrite Hr. cbn. split; [|done]. split; [done|]. by intros (?&?&_). }
  destruct (blt (sp_start p) cut && blt cut (sp_end p)) eqn:Hb; cbn [negb] in Hr.
  2:{ rewrite Hr. cbn. split; [|done]. split; [done|]. intros (p'&[= <-]&H1&H2). by rewrite H1, H2 in Hb. }
  apply andb_true_iff in Hb as [Ha Hb].
  destruct (split_no_overlap s i cut p j nodes addresses Hi Hp Ha Hb) as [Hov|(l&q&Hq&Hempty)].
  2:{ specialize (Hne _ _ Hq). unfold ble in Hempty. by rewrite Hne in Hempty. }
  rewrite Hov in Hr. destruct (Hinv' (Hne0 _ eq_refl) Hi) as (_&Hi'&_). clear Hinv' Hov.
  assert (i ≠ j) as Hij by congruence.
  split; [rewrite Hr; split; [by exists p|done]|]. intros _. exists p. split; [done|].
  rewrite table_run in Ht' by done. injection Ht' as <-. split_and!.
  - intros k. rewrite Hr in Hi' |- *. cbn [fst] in *.
    apply (split_routes s i j cut p nodes addresses t _ k); try done. by apply table_run.
  - exists (left_half i cut p). split; [|done]. unfold shard. cbn [rt_shards].
    apply d_get_in; [apply sorted_items_nodup|]. apply sorted_items_in. rewrite Hr. cbn.
    rewrite lookup_insert_ne by done. apply lookup_insert_eq.
  - exists (fresh_placement j cut (sp_end p) nodes addresses). split; [|done]. unfold shard. cbn [rt_shards].
    apply d_get_in; [apply sorted_items_nodup|]. apply sorted_items_in. rewrite Hr. cbn.
    apply lookup_insert_eq.
  - rewrite (split_run _ _ _ _ _ _ _ Hc). rewrite Hr. cbn [fst _shards]. rewrite lookup_insert_eq.
    rewrite lookup_insert_ne, lookup_insert_eq by done. cbn. by decides.
Qed.


Lemma move_run i from_nodes nodes addresses c s :
  move_shard_command i from_nodes nodes addresses = Ok c →
  apply c s =
    match _shards s !! i with
    | None => (s, apply_failure 12)
    | Some p =>
        if decide (nodes = [] ∨ ¬ NoDup nodes ∨ Exists (λ n, addresses !! n = None) nodes)
        then (s, apply_failure 13)
        else if decide (sp_nodes p = nodes) then
          if decide (sp_addresses p = addresses) then (s, apply_success None)
          else (s, apply_failure 16)
        else if decide (sp_nodes p ≠ from_nodes) then (s, apply_failure 14)
        else if decide (Exists (λ n, n ∈ from_nodes) nodes) then (s, apply_failure 15)
        else (put i {| sp_shard_id := sp_shard_id p; sp_start := sp_start p;
                 sp_end := sp_end p; sp_nodes := nodes; sp_addresses := addresses;
                 sp_leader_id := None; sp_leader_term := 0 |} s, apply_success None)
    end.
Proof.
  intros Hc. client_cmd Hc. unfold _apply_move_shard. repeat client_field.
  do 2 (rewrite int_list_ints; cbn [rbind]; client_field).
  rewrite address_entries_payload. cbn [rbind].
  destruct (_shards s !! i) as [p|]; [|done]. by repeat case_decide.
Qed.

(** A move replaces one replica set by another, once.  A move that names new nodes is
    accepted exactly when the shard is there, the new set is a non-empty set of nodes
    with an address each, the shard is still served by the nodes the caller expects, and no
    node is in both sets.  Then the shard is served by the new nodes at the new addresses
    with no leader, its range and every other shard are as before, the same move proposed
    again succeeds without changing anything, and any other move that expected the old
    nodes is refused. *)
Theorem move_replaces_replica_set i from_nodes nodes addresses c s p :
  move_shard_command i from_nodes nodes addresses = Ok c →
  _shards s !! i = Some p → sp_nodes p ≠ nodes →
  (ar_success (apply c s).2 = true ↔
     nodes ≠ [] ∧ NoDup nodes ∧ (∀ n, n ∈ nodes → is_Some (addresses !! n)) ∧
     sp_nodes p = from_nodes ∧ ∀ n, n ∈ nodes → n ∉ from_nodes) ∧
  (ar_success (apply c s).2 = true →
     let s' := (apply c s).1 in
     (∃ p', _shards s' !! i = Some p' ∧ same_range p p' ∧ sp_nodes p' = nodes ∧
            sp_addresses p' = addresses ∧ sp_leader_id p' = None) ∧
     (∀ j, j ≠ i → _shards s' !! j = _shards s !! j) ∧
     apply c s' = (s', apply_success None) ∧
     ∀ nodes2 addresses2 c2, move_shard_command i from_nodes nodes2 addresses2 = Ok c2 →
       nodes2 ≠ nodes → ar_success (apply c2 s').2 = false).
Proof.
  intros Hc Hp Hne. pose proof (move_run _ _ _ _ _ s Hc) as Hr. rewrite Hp in Hr.
  destruct (decide (nodes = [] ∨ _)) as [Hbad|Hok].
  { rewrite Hr. cbn. split; [|done]. split; [done|]. intros (H1&H2&H3&_).
    destruct Hbad as [?|[?|(n&Hin&Hn)%Exists_exists]]; [done..|].
    destruct (H3 n Hin) as [? Hs]. by rewrite Hn in Hs. }
  assert (Hsrv : nodes ≠ [] ∧ NoDup nodes ∧ ∀ n, n ∈ nodes → is_Some (addresses !! n)).
  { split_and!; [tauto|apply dec_stable; tauto|]. intros n Hin.
    destruct (addresses !! n) eqn:Hn; [done|]. destruct Hok. right. right. apply Exists_exists. eauto. }
  rewrite decide_False in Hr by done.
  case_decide as Hfrom; [rewrite Hr; cbn; split; [split; [done|tauto]|done]|].
  case_decide as Hov.
  { rewrite Hr. cbn. split; [|done]. split; [done|]. intros (_&_&_&_&Hdis).
    apply Exists_exists in Hov as (n&Hin&Hf). by destruct (Hdis n Hin). }
  split.
  { rewrite Hr. split; [|done]. intros _. destruct Hsrv as (?&?&?). split_and!; [done..|].
    intros n Hin Hf. apply Hov, Exists_exists. eauto. }
  intros _ s'. assert (_shards s' !! i = Some {| sp_shard_id := sp_shard_id p; sp_start := sp_start p;
                 sp_end := sp_end p; sp_nodes := nodes; sp_addresses := addresses;
                 sp_leader_id := None; sp_leader_term := 0 |}) as Hs'.
  { subst s'. rewrite Hr. apply lookup_insert_eq. }
  split_and!.
  - by eexists.
  - intros j Hj. subst s'. rewrite Hr. cbn. by apply lookup_insert_ne.
  - rewrite (move_run _ _ _ _ _ s' Hc), Hs'. cbn. rewrite decide_False by exact Hok. by decides.
  - intros nodes2 addresses2 c2 Hc2 Hn2. rewrite (move_run _ _ _ _ _ s' Hc2), Hs'. cbn.
    case_decide; [done|]. rewrite decide_False by done. rewrite decide_True; [done|]. congruence.
Qed.

(** *** Leader reports *)

Lemma report_run i n t c s :
  report_leader_command i n t = Ok c →
  apply c s =
    match _shards s !! i with
    | None => (s, apply_failure 4)
    | Some p =>
        if decide (sp_nodes p ≠ [] ∧ n ∉ sp_nodes p) then (s, apply_failure 5)
        else if decide (sp_leader_id p ≠ None ∧ t ≤ sp_leader_term p) then (s, apply_failure 6)
        else (put i {| sp_shard_id := sp_shard_id p; sp_start := sp_start p;
                 sp_end := sp_end p; sp_nodes := sp_nodes p; sp_addresses := sp_addresses p;
                 sp_leader_id := Some n; sp_leader_term := t |} s, apply_success None)
    end.
Proof.
  intros Hc. client_cmd Hc. unfold _apply_report_leader. repeat client_field.
  destruct (_shards s !! i) as [p|]; [|done]. by repeat case_decide.
Qed.

Lemma set_nodes_run i nodes addresses c s :
  set_shard_nodes_command i nodes addresses = Ok c →
  apply c s =
    match _shards s !! i with
    | None => (s, apply_failure 4)
    | Some p =>
        let stranger := match sp_leader_id p with
                        | Some l => negb (bool_decide (l ∈ nodes))
                        | None => false
                        end in
        (put i {| sp_shard_id := sp_shard_id p; sp_start := sp_start p;
            sp_end := sp_end p; sp_nodes := nodes; sp_addresses := addresses;
            sp_leader_id := if stranger then None else sp_leader_id p;
            sp_leader_term := if stranger then 0 else sp_leader_term p |} s, apply_success None)
    end.
Proof.
  intros Hc. client_cmd Hc. unfold _apply_set_shard_nodes. repeat client_field.
  rewrite int_list_ints. cbn [rbind]. repeat client_field. rewrite address_entries_payload. cbn [rbind].
  by destruct (_shards s !! i).
Qed.

(** A command that does not replace a replica set. *)
Definition keeps_replicas (c : bytes) : Prop :=
  ∀ cmd ty, unpackb c = Ok cmd → py_get cmd "type" = Ok ty →
    ty ≠ PBytes MetadataCommandType.SET_SHARD_NODES ∧ ty ≠ PBytes MetadataCommandType.MOVE_SHARD.

(** What the table says of the leader of shard [i] only moves forward. *)
Definition led_from (i t : Z) s : Prop :=
  ∃ p, _shards s !! i = Some p ∧ sp_leader_id p ≠ None ∧ t ≤ sp_leader_term p.

Lemma led_from_apply i t c s : keeps_replicas c → led_from i t s → led_from i t (apply c s).1.
Proof.
  intros Hk (p&Hp&Hl&Ht). unfold apply, dispatch.
  destruct (unpackb c) as [cmd|] eqn:Hu; [|by exists p]. cbn [rbind].
  destruct (py_get cmd "type") as [ty|] eqn:Hty; [|by exists p]. cbn [rbind].
  destruct (Hk _ _ Hu Hty) as [H1 H2].
  assert (Hsame : led_from i t s) by (by exists p).
  repeat case_decide; try done.
  - unfold _apply_init_routes. parse_cmd. case_decide as He; [done|]. by rewrite He in Hp.
  - unfold _apply_report_leader. parse_cmd. destruct (_shards s !! a0) as [q|] eqn:Hq; [|done]. case_decide; [done|]. case_decide as Hterm; [done|].
    cbn. unfold led_from, put. cbn. destruct (decide (a0 = i)) as [->|Hne].
    + rewrite lookup_insert_eq. rewrite Hp in Hq. injection Hq as <-. eexists. split; [done|]. cbn.
      split; [done|]. destruct (Z.le_gt_cases t a4); [done|]. exfalso. apply Hterm. split; [done|lia].
    + rewrite lookup_insert_ne by done. by exists p.
  - unfold _apply_split. parse_cmd. case_decide as Hj; [by destruct (_split_again _ _ _ _ _)|].
    destruct (_shards s !! a0) as [q|] eqn:Hq; [|done].
    destruct (negb _); [done|]. destruct (existsb _ _); [done|]. cbn. unfold led_from. cbn.
    rewrite lookup_insert_ne by (intros ->; apply Hj; by rewrite Hp).
    destruct (decide (a0 = i)) as [->|Hne].
    + rewrite lookup_insert_eq. rewrite Hp in Hq. injection Hq as <-. by eexists.
    + rewrite lookup_insert_ne by done. by exists p.
Qed.

(** A deposed leader stays out.  Once the table names a leader at some term, then
    whatever commands follow that leave the replica set alone - splits of the shard among
    them - a later report for that shard at that term or an older one is refused and
    changes nothing; the recorded term never goes back. *)
Theorem deposed_leader_stays_out i t log s n t' c :
  led_from i t s → Forall keeps_replicas log → t' ≤ t →
  report_leader_command i n t' = Ok c →
  led_from i t (run log s) ∧
  (apply c (run log s)).1 = run log s ∧ ar_success (apply c (run log s)).2 = false.
Proof.
  intros Hl Hk Ht Hc.
  assert (led_from i t (run log s)) as Hl'.
  { clear Hc. revert s Hl. induction Hk as [|c0 log Hc0 _ IH]; intros s Hl; [done|].
    by apply IH, led_from_apply. }
  split; [done|]. destruct Hl' as (p&Hp&Hld&Htm). rewrite (report_run _ _ _ _ _ Hc), Hp.
  case_decide; [done|]. rewrite decide_True; [done|]. split; [done|lia].
Qed.

End steps.
