(* ===== verification/MetadataClient.v ===== *)
(** The client of the routing table ([MetadataClient] of [metadata/service.py]) with its
    cache and its retries, and the servicer that answers for the table.

    [MetaGroup] is what the client uses of the group's nodes; [MetaGroupLaws] is what they
    promise it: committed commands form one log that only grows, a successful proposal is in
    it, and a successful read of the table answers with the machine of a log at least as long
    as the one the read found. *)

From Stdlib Require Import ZArith Lia.
From S2P Require Import Prelude Bytes PyVal PyOps StateMachine Groups Dict Router Metadata MetadataFacts.

(** A world [W] with nodes [N]: [mg_leader] is the callable the client was given. *)
Class MetaGroup (W N : Type) := {
  mg_leader : W → W * option N;
  mg_get : N → bytes → W → W * ReadResult;
  mg_propose : N → bytes → W → W * ApplyResult
}.

Definition PROPOSE_ATTEMPTS : nat := 3.

Module MetadataClient.
Section client.
Context `{PyRepr} `{Msgpack} {W N : Type} `{MetaGroup W N}.

(** The client's one field, [_table], beside the world its nodes live in. *)
Abbreviation st := (W * option RoutingTable)%type.

Definition call {A} (f : W → W * A) : M st A := λ '(w, c), let '(w', a) := f w in ((w', c), Ok a).
Definition set_table (c : option RoutingTable) : M st unit := λ '(w, _), ((w, c), Ok tt).
Definition lift {A} (r : result A) : M st A := reads (λ _, r).

(** [msgpack.unpackb(result.value)]: only bytes can be unpacked. *)
Definition parse_value (v : pyval) : result RoutingTable :=
  let? b := as_bytes v in let? payload := unpackb b in _parse_table payload.

(** The loop of [refresh]; the sleep between attempts is no step of the model. *)
Fixpoint refresh_loop (attempts : nat) : M st RoutingTable :=
  match attempts with
  | O => raise RuntimeError
  | S attempts =>
      let* node := call mg_leader in
      match node with
      | None => refresh_loop attempts
      | Some n =>
          let* r := call (mg_get n TABLE_KEY) in
          if rr_success r then
            let* table := lift (parse_value (rr_value r)) in
            set_table (Some table);;;
            ret table
          else if decide (rr_error_code r ≠ Some ErrorCode.ERR_NOT_LEADER) then raise RuntimeError
          else refresh_loop attempts
      end
  end.
Definition refresh : M st RoutingTable := refresh_loop PROPOSE_ATTEMPTS.

Definition table (fresh : bool) : M st RoutingTable :=
  let* cached := (λ s : st, (s, Ok s.2)) in
  match cached with
  | Some t => if fresh then refresh else ret t
  | None => refresh
  end.

Definition get_shard_for (key : bytes) : M st Z :=
  let* t := table false in ret (route_for t key).
Definition get_shard_leader (shard_id : Z) : M st (option Z) :=
  let* t := table false in
  ret (match shard t shard_id with None => None | Some p => sp_leader_id p end).
Definition get_leader_for_key (key : bytes) : M st (option Z) :=
  let* t := table false in
  ret (match shard_for t key with None => None | Some p => sp_leader_id p end).
Definition list_shards : M st (list ShardPlacement) :=
  let* t := table false in ret (rt_shards t).*2.

(** The loop of [_propose]; the command is packed afresh by each attempt. *)
Fixpoint propose_loop (attempts : nat) (command : result bytes) : M st ApplyResult :=
  match attempts with
  | O => ret (apply_failure ErrorCode.ERR_NOT_LEADER)
  | S attempts =>
      let* node := call mg_leader in
      match node with
      | None => propose_loop attempts command
      | Some n =>
          let* c := lift command in
          let* r := call (mg_propose n c) in
          if ar_success r then set_table None;;; ret r
          else if decide (ar_error_code r ≠ Some ErrorCode.ERR_NOT_LEADER ∧
                          ar_error_code r ≠ Some ErrorCode.ERR_LEADERSHIP_LOST) then ret r
          else propose_loop attempts command
      end
  end.
Definition _propose (command : result bytes) : M st ApplyResult :=
  propose_loop PROPOSE_ATTEMPTS command.

Definition init_routes (ranges : RangeMap) : M st ApplyResult :=
  _propose (MetadataStateMachine.init_routes_command ranges).
Definition set_shard_nodes (shard_id : Z) (nodes : list Z) (addresses : gmap Z string)
    : M st ApplyResult :=
  _propose (MetadataStateMachine.set_shard_nodes_command shard_id nodes addresses).
Definition split_shard (shard_id : Z) (split_key : bytes) (new_shard_id : Z) (nodes : list Z)
    (addresses : gmap Z string) : M st ApplyResult :=
  _propose (MetadataStateMachine.split_shard_command shard_id split_key new_shard_id nodes addresses).
Definition report_leader (shard_id node_id term : Z) : M st ApplyResult :=
  _propose (MetadataStateMachine.report_leader_command shard_id node_id term).
Definition move_shard (shard_id : Z) (from_nodes nodes : list Z) (addresses : gmap Z string)
    : M st ApplyResult :=
  _propose (MetadataStateMachine.move_shard_command shard_id from_nodes nodes addresses).
End client.
End MetadataClient.
Import MetadataClient.

(** The servicer of one node: a refusal, or the version and the records of the table. *)
Definition ListShards `{PyRepr} `{Msgpack} {W N} `{MetaGroup W N} (n : N)
    (leader_address : option (option string)) (w : W)
    : W * result (Refusal + Z * list ShardRecord) :=
  let '(w', r) := mg_get n TABLE_KEY w in
  if negb (rr_success r) then (w', Ok (inl (refusal (rr_error_code r) leader_address)))
  else (w', let? t := parse_value (rr_value r) in
            Ok (inr (rt_version t, map (λ e, shard_record e.2) (rt_shards t)))).

(** ** What the group promises *)

Class MetaGroupLaws `{PyRepr} `{Msgpack} (W N : Type) `{MetaGroup W N} := {
  mg_log : W → list bytes;
  mg_leader_log w : mg_log w `prefix_of` mg_log (mg_leader w).1;
  mg_get_spec n k w w' r : mg_get n k w = (w', r) →
    mg_log w `prefix_of` mg_log w' ∧
    (rr_success r = true → ∃ log, mg_log w `prefix_of` log ∧ log `prefix_of` mg_log w' ∧
       ∃ ans, MetadataStateMachine.get k (run log MetadataStateMachine.init) = Ok ans ∧
              rr_success ans = true ∧ rr_value r = rr_value ans);
  mg_propose_spec n c w w' r : mg_propose n c w = (w', r) →
    mg_log w `prefix_of` mg_log w' ∧
    (ar_success r = true → ∃ log, mg_log w `prefix_of` log ∧ (log ++ [c]) `prefix_of` mg_log w' ∧
       ar_success (MetadataStateMachine.apply c (run log MetadataStateMachine.init)).2 = true)
}.

(** A group of one. *)
Module LocalMeta.
Section local.
Context `{PyRepr} `{!Msgpack}.

#[global] Instance group : MetaGroup (list bytes) unit := {|
  mg_leader w := (w, Some tt);
  mg_get _ k w := (w, match MetadataStateMachine.get k (run w MetadataStateMachine.init) with
                      | Ok r => r
                      | Raise _ => read_failure ErrorCode.ERR_UNKNOWN
                      end);
  mg_propose _ c w := (w ++ [c], (MetadataStateMachine.apply c (run w MetadataStateMachine.init)).2)
|}.

#[global] Instance laws : MetaGroupLaws (list bytes) unit.
Proof.
  refine {| mg_log w := w |}.
  - done.
  - intros n k w w' r [= <- <-]. split; [done|]. intros Hr. exists w. split_and!; [done..|].
    destruct (MetadataStateMachine.get _ _) as [a|]; [by exists a|done].
  - intros n c w w' r [= <- <-]. split; [by exists [c]|]. intros Hr. by exists w.
Defined.
End local.
End LocalMeta.

(** ** The client's promises *)

Section facts.
Context `{PyRepr} `{!Msgpack} {W N : Type} `{!MetaGroup W N} `{!MetaGroupLaws W N}.
Abbreviation start := MetadataStateMachine.init.

(** The version a log leads to. *)
Definition version_at (log : list bytes) : Z := MetadataStateMachine._version (run log start).

Lemma run_app log1 log2 s : run (log1 ++ log2) s = run log2 (run log1 s).
Proof. apply foldl_app. Qed.

Lemma version_step c s :
  MetadataStateMachine._version s ≤ MetadataStateMachine._version (MetadataStateMachine.apply c s).1.
Proof. destruct (meta_apply_step c s); cbn; lia. Qed.

Lemma version_prefix log1 log2 : log1 `prefix_of` log2 → version_at log1 ≤ version_at log2.
Proof.
  intros [tail ->]. unfold version_at. rewrite run_app. generalize (run log1 start) as s.
  induction tail as [|c tail IH]; intros s; [cbn; lia|]. etrans; [apply (version_step c)|].
  exact (IH (MetadataStateMachine.apply c s).1).
Qed.

Lemma parse_version v m t : _parse_table (_table_payload v m) = Ok t → rt_version t = v.
Proof.
  unfold _parse_table, _table_payload. cbn -[traverse sorted_items d_of]. decides.
  cbn -[traverse sorted_items d_of]. destruct (traverse _ _) as [l|]; cbn -[d_of]; [|done].
  decides. cbn -[d_of]. by intros [= <-].
Qed.

(** A table read from the group is the table of some log it had reached. *)
Lemma read_version log ans t :
  MetadataStateMachine.get TABLE_KEY (run log start) = Ok ans → rr_success ans = true →
  parse_value (rr_value ans) = Ok t → rt_version t = version_at log.
Proof.
  unfold MetadataStateMachine.get. rewrite decide_False by (by intros []).
  intros (b&Hb&[= <-])%rbind_Ok _. unfold parse_value. cbn [as_bytes rr_value read_success rbind].
  rewrite (unpackb_packb _ _ Hb). cbn [rbind]. apply parse_version.
Qed.

Lemma refresh_spec attempts : ∀ w c w' c' t,
  refresh_loop attempts (w, c) = ((w', c'), Ok t) →
  c' = Some t ∧ ∃ log, mg_log w `prefix_of` log ∧ log `prefix_of` mg_log w' ∧
    rt_version t = version_at log.
Proof.
  induction attempts as [|n IH]; intros w c w' c' t; [done|]. cbn [refresh_loop].
  unfold bind at 1, call at 1. pose proof (mg_leader_log w) as Hl.
  destruct (mg_leader w) as [w1 [nd|]]; cbn in Hl.
  - unfold bind at 1, call at 1. destruct (mg_get nd TABLE_KEY w1) as [w2 r] eqn:Hg.
    pose proof Hg as [Hp Hr]%mg_get_spec. destruct (rr_success r) eqn:Hs.
    + unfold bind, lift, reads, set_table, ret. destruct (parse_value _) as [t0|] eqn:Ht; [|done].
      intros [= <- <- <-]. split; [done|]. destruct (Hr eq_refl) as (log&Q1&Q2&ans&Hans&Hok&Hv).
      exists log. split_and!; [by etrans|done|]. rewrite Hv in Ht. by eapply read_version.
    + case_decide; [done|]. intros (->&log&Q1&Q2&Hv)%IH. split; [done|]. exists log.
      split_and!; [|done..]. etrans; [exact Hl|]. by etrans.
  - intros (->&log&Q1&Q2&Hv)%IH. split; [done|]. exists log. split_and!; [by etrans|done..].
Qed.

Lemma propose_spec attempts command : ∀ w c w' c' r,
  propose_loop attempts command (w, c) = ((w', c'), Ok r) → ar_success r = true →
  c' = None ∧ ∃ cmd log, command = Ok cmd ∧ mg_log w `prefix_of` log ∧
    (log ++ [cmd]) `prefix_of` mg_log w' ∧
    ar_success (MetadataStateMachine.apply cmd (run log start)).2 = true.
Proof.
  induction attempts as [|n IH]; intros w c w' c' r; [by intros [= <- <- <-]|]. cbn [propose_loop].
  unfold bind at 1, call at 1. pose proof (mg_leader_log w) as Hl.
  destruct (mg_leader w) as [w1 [nd|]]; cbn in Hl.
  - unfold bind at 1, lift, reads. destruct command as [cmd|]; [|done].
    unfold bind at 1, call at 1. destruct (mg_propose nd cmd w1) as [w2 r0] eqn:Hg.
    pose proof Hg as [Hp Hr]%mg_propose_spec. destruct (ar_success r0) eqn:Hs.
    + unfold bind, set_table, ret. intros [= <- <- <-] _. split; [done|].
      destruct (Hr eq_refl) as (log&Q1&Q2&Ha). exists cmd, log. split_and!; [done|by etrans|done..].
    + case_decide; [intros [= <- <- <-]; by rewrite Hs|]. intros Hrun Hok.
      destruct (IH _ _ _ _ _ Hrun Hok) as (->&cmd'&log&Heq&Q1&Q2&Ha). split; [done|].
      exists cmd', log. split_and!; [done| |done..]. etrans; [exact Hl|]. by etrans.
  - intros Hrun Hok. destruct (IH _ _ _ _ _ Hrun Hok) as (->&cmd&log&Heq&Q1&Q2&Ha). split; [done|].
    exists cmd, log. split_and!; [done|by etrans|done..].
Qed.

(** A client of the routing table reads its own writes.  When a write succeeded - on
    whichever of its attempts - the command was accepted by the machine at a place in the
    group's log, and any table the client reads afterwards is the table of a log that
    contains the command there: the cache from before the write is never served. *)
Theorem metadata_client_reads_its_writes command w c w1 c1 r w2 w3 c3 t fresh :
  _propose command (w, c) = ((w1, c1), Ok r) → ar_success r = true →
  mg_log w1 `prefix_of` mg_log w2 →
  table fresh (w2, c1) = ((w3, c3), Ok t) →
  ∃ cmd before after, command = Ok cmd ∧
    ar_success (MetadataStateMachine.apply cmd (run before start)).2 = true ∧
    mg_log w `prefix_of` before ∧
    (before ++ cmd :: after) `prefix_of` mg_log w3 ∧
    rt_version t = version_at (before ++ cmd :: after) ∧
    version_at (before ++ [cmd]) ≤ rt_version t.
Proof.
  intros Hp Hok H12 Ht. destruct (propose_spec _ _ _ _ _ _ _ Hp Hok) as (->&cmd&before&->&Q1&Q2&Ha).
  assert (refresh (w2, None) = ((w3, c3), Ok t)) as Hr by exact Ht.
  apply refresh_spec in Hr as (_&log&H3&H4&Hv).
  assert ((before ++ [cmd]) `prefix_of` log) as [after Hlog] by (etrans; [exact Q2|]; by etrans).
  exists cmd, before, after. rewrite <-(app_assoc before [cmd] after) in Hlog. cbn in Hlog.
  rewrite <-Hlog. split_and!; try done. rewrite Hv. apply version_prefix. rewrite Hlog.
  exists after. by rewrite <-app_assoc.
Qed.
End facts.
