(* ===== verification/RaftStorage.v ===== *)
(** The durable state of a Raft node, [raft/storage.py].

    [RaftStorage] is the abstract class; [RaftStorageLaws] is what a node relies on: a
    storage holds one [durable] state, the loads read it back and every save changes it the
    way its name says.  [EngineRaftStorage] keeps the laws over any byte-ordered engine;
    [JSONFileStorage] is modelled beside it, and does not (see
    [json_save_meta_forgets_snapshot]). *)

From Stdlib Require Import ZArith Lia.
From S2P Require Import Prelude Bytes PyVal PyOps Engine Mvcc.

Record LogEntry := { le_term : Z; le_index : Z; le_command : bytes }.

#[global] Instance LogEntry_eq_dec : EqDecision LogEntry.
Proof. solve_decision. Defined.

Class RaftStorage (R : Type) := {
  save_meta : Z → option Z → R → result R;
  load_meta : R → result (Z * option Z);
  append_log_entry : LogEntry → R → result R;
  truncate_log : Z → R → result R;
  compact_log : Z → R → result R;
  load_log : R → result (list LogEntry);
  save_snapshot : Z → Z → bytes → R → result R;
  load_snapshot : R → result (option (Z * Z * bytes));
  save_commit_index : Z → R → result R;
  load_commit_index : R → result Z;
  save_admin : string → bytes → R → result R;
  load_admin : string → R → result (option bytes);
  delete_admin : string → R → result R;
  clear : R → R
}.

(** [entries.sort(key=lambda e: e.index)]. *)
Definition index_le (a b : LogEntry) : Prop := le_index a ≤ le_index b.
#[global] Instance index_le_dec : RelDecision index_le.
Proof. intros a b. unfold index_le. apply _. Defined.
Definition sort_entries (l : list LogEntry) : list LogEntry := merge_sort index_le l.

(** ** EngineRaftStorage *)

Module EngineRaftStorage.
Section storage.
Context {E : Type} `{Engine E} `{Msgpack}.
Implicit Types e : E.

Definition _LOG : bytes := [x01].
Definition _META : bytes := [x02].
Definition _COMMIT : bytes := [x03].
Definition _SNAPSHOT : bytes := [x04].
Definition _ADMIN : bytes := [x05].

(** [index.to_bytes(8, 'big')]. *)
Definition to_bytes8 (index : Z) : result bytes :=
  if (0 <=? index) && (index <=? _MAX_TS) then Ok (be_bytes 8 index) else Raise OverflowError.

Definition _log_key (index : Z) : result bytes := let? b := to_bytes8 index in Ok (_LOG ++ b).

Definition meta_payload (current_term : Z) (voted_for : option Z) : pyval :=
  PDict [("current_term"%string, PInt current_term);
         ("voted_for"%string, match voted_for with Some v => PInt v | None => PNone end)].

Definition save_meta (current_term : Z) (voted_for : option Z) e : result E :=
  let? b := packb (meta_payload current_term voted_for) in Ok (e_put e _META b).

(** An optional number. *)
Definition as_opt_int (v : pyval) : result (option Z) :=
  match v with PNone => Ok None | _ => let? z := as_int v in Ok (Some z) end.

Definition load_meta e : result (Z * option Z) :=
  match e_get e _META with
  | None => Ok (0, None)
  | Some raw =>
      let? data := unpackb raw in
      let? t := py_get_or data "current_term" (PInt 0) in
      let? v := py_get data "voted_for" in
      let? current_term := as_int t in
      let? voted_for := as_opt_int v in
      Ok (current_term, voted_for)
  end.

Definition entry_payload (entry : LogEntry) : pyval :=
  PDict [("term"%string, PInt (le_term entry)); ("command"%string, PBytes (le_command entry))].

Definition append_log_entry (entry : LogEntry) e : result E :=
  let? k := _log_key (le_index entry) in
  let? b := packb (entry_payload entry) in
  Ok (e_put e k b).

Definition truncate_log (from_index : Z) e : result E :=
  let? k := _log_key from_index in Ok (e_delete_range e k [x02]).

Definition compact_log (last_included_index : Z) e : result E :=
  let? k0 := _log_key 0 in
  let? k1 := _log_key (last_included_index + 1) in
  Ok (e_delete_range e k0 k1).

Definition decode_entry (r : row) : result LogEntry :=
  let? data := unpackb r.2 in
  let? t := py_index data "term" in
  let? term := as_int t in
  let? c := py_index data "command" in
  let? command := as_bytes c in
  Ok {| le_term := term; le_index := be_int (take 8 (drop 1 r.1)); le_command := command |}.

Definition load_log e : result (list LogEntry) :=
  let? entries := traverse decode_entry (e_scan e _LOG [x02]) in
  Ok (sort_entries entries).

Definition save_commit_index (commit_index : Z) e : result E :=
  let? b := to_bytes8 commit_index in Ok (e_put e _COMMIT b).

Definition load_commit_index e : result Z :=
  match e_get e _COMMIT with None => Ok 0 | Some raw => Ok (be_int raw) end.

Definition snapshot_payload (index term : Z) (data : bytes) : pyval :=
  PDict [("index"%string, PInt index); ("term"%string, PInt term); ("data"%string, PBytes data)].

Definition save_snapshot (last_included_index last_included_term : Z) (data : bytes) e : result E :=
  let? b := packb (snapshot_payload last_included_index last_included_term data) in
  Ok (e_put e _SNAPSHOT b).

Definition load_snapshot e : result (option (Z * Z * bytes)) :=
  match e_get e _SNAPSHOT with
  | None => Ok None
  | Some raw =>
      let? record := unpackb raw in
      let? i := py_index record "index" in
      let? t := py_index record "term" in
      let? d := py_index record "data" in
      let? index := as_int i in
      let? term := as_int t in
      let? data := as_bytes d in
      Ok (Some (index, term, data))
  end.

Definition save_admin (key : string) (value : bytes) e : result E :=
  Ok (e_put e (_ADMIN ++ b_ key) value).
Definition load_admin (key : string) e : result (option bytes) := Ok (e_get e (_ADMIN ++ b_ key)).
Definition delete_admin (key : string) e : result E := Ok (e_delete e (_ADMIN ++ b_ key)).

Definition clear e : E := e_delete_range e [x01] [x06].

#[global] Instance storage : RaftStorage E := {|
  RaftStorage.save_meta := save_meta; RaftStorage.load_meta := load_meta;
  RaftStorage.append_log_entry := append_log_entry; RaftStorage.truncate_log := truncate_log;
  RaftStorage.compact_log := compact_log; RaftStorage.load_log := load_log;
  RaftStorage.save_snapshot := save_snapshot; RaftStorage.load_snapshot := load_snapshot;
  RaftStorage.save_commit_index := save_commit_index;
  RaftStorage.load_commit_index := load_commit_index;
  RaftStorage.save_admin := save_admin; RaftStorage.load_admin := load_admin;
  RaftStorage.delete_admin := delete_admin; RaftStorage.clear := clear |}.
End storage.
End EngineRaftStorage.

(** ** JSONFileStorage *)

Module JSONFileStorage.

(** The keys of [raft_meta.json] that are there. *)
Record meta := {
  jm_current_term : option Z;
  jm_voted_for : option (option Z);
  jm_commit_index : option Z;
  jm_snapshot_index : option Z;
  jm_snapshot_term : option Z
}.

(** The four files; [None] is a file that does not exist.  Text encodings that are undone on
    reading (latin-1, base64) are left out. *)
Record t := {
  meta_file : option meta;
  log_file : option (list LogEntry);
  snapshot_file : option bytes;
  admin_file : option (gmap string bytes)
}.
Definition init : t :=
  {| meta_file := None; log_file := None; snapshot_file := None; admin_file := None |}.

Definition write_meta (m : meta) (r : t) : t :=
  {| meta_file := Some m; log_file := log_file r; snapshot_file := snapshot_file r;
     admin_file := admin_file r |}.
Definition _read_log (r : t) : list LogEntry := default [] (log_file r).
Definition _write_log (entries : list LogEntry) (r : t) : t :=
  {| meta_file := meta_file r; log_file := Some entries; snapshot_file := snapshot_file r;
     admin_file := admin_file r |}.
Definition _read_admin (r : t) : gmap string bytes := default ∅ (admin_file r).
Definition write_admin (a : gmap string bytes) (r : t) : t :=
  {| meta_file := meta_file r; log_file := log_file r; snapshot_file := snapshot_file r;
     admin_file := Some a |}.

(** The dictionary is built anew: of the old file only the commit index is carried over. *)
Definition save_meta (current_term : Z) (voted_for : option Z) (r : t) : result t :=
  Ok (write_meta {| jm_current_term := Some current_term; jm_voted_for := Some voted_for;
                    jm_commit_index := (λ m, default 0 (jm_commit_index m)) <$> meta_file r;
                    jm_snapshot_index := None; jm_snapshot_term := None |} r).

Definition load_meta (r : t) : result (Z * option Z) :=
  match meta_file r with
  | None => Ok (0, None)
  | Some m => Ok (default 0 (jm_current_term m), default None (jm_voted_for m))
  end.

Definition append_log_entry (entry : LogEntry) (r : t) : result t :=
  Ok (_write_log (filter (λ e, le_index e < le_index entry) (_read_log r) ++ [entry]) r).
Definition truncate_log (from_index : Z) (r : t) : result t :=
  Ok (_write_log (filter (λ e, le_index e < from_index) (_read_log r)) r).
Definition compact_log (last_included_index : Z) (r : t) : result t :=
  Ok (_write_log (filter (λ e, last_included_index < le_index e) (_read_log r)) r).
Definition load_log (r : t) : result (list LogEntry) := Ok (sort_entries (_read_log r)).

Definition no_meta : meta :=
  {| jm_current_term := None; jm_voted_for := None; jm_commit_index := None;
     jm_snapshot_index := None; jm_snapshot_term := None |}.

Definition save_snapshot (last_included_index last_included_term : Z) (data : bytes) (r : t)
    : result t :=
  let r := {| meta_file := meta_file r; log_file := log_file r; snapshot_file := Some data;
              admin_file := admin_file r |} in
  let m := default no_meta (meta_file r) in
  Ok (write_meta {| jm_current_term := jm_current_term m; jm_voted_for := jm_voted_for m;
                    jm_commit_index := jm_commit_index m;
                    jm_snapshot_index := Some last_included_index;
                    jm_snapshot_term := Some last_included_term |} r).

Definition load_snapshot (r : t) : result (option (Z * Z * bytes)) :=
  match snapshot_file r, meta_file r with
  | Some data, Some m =>
      match jm_snapshot_index m with
      | None => Ok None
      | Some index => Ok (Some (index, default 0 (jm_snapshot_term m), data))
      end
  | _, _ => Ok None
  end.

Definition save_commit_index (commit_index : Z) (r : t) : result t :=
  Ok (write_meta
        match meta_file r with
        | None => {| jm_current_term := Some 0; jm_voted_for := Some None;
                     jm_commit_index := Some commit_index;
                     jm_snapshot_index := None; jm_snapshot_term := None |}
        | Some m => {| jm_current_term := Some (default 0 (jm_current_term m));
                       jm_voted_for := Some (default None (jm_voted_for m));
                       jm_commit_index := Some commit_index;
                       jm_snapshot_index := jm_snapshot_index m;
                       jm_snapshot_term := jm_snapshot_term m |}
        end r).

Definition load_commit_index (r : t) : result Z :=
  match meta_file r with
  | None => Ok 0
  | Some m => Ok (default 0 (jm_commit_index m))
  end.

Definition save_admin (key : string) (value : bytes) (r : t) : result t :=
  Ok (write_admin (<[key := value]> (_read_admin r)) r).
Definition load_admin (key : string) (r : t) : result (option bytes) := Ok (_read_admin r !! key).
Definition delete_admin (key : string) (r : t) : result t :=
  if decide (is_Some (_read_admin r !! key)) then Ok (write_admin (delete key (_read_admin r)) r)
  else Ok r.

Definition clear (r : t) : t := init.

#[global] Instance storage : RaftStorage t := {|
  RaftStorage.save_meta := save_meta; RaftStorage.load_meta := load_meta;
  RaftStorage.append_log_entry := append_log_entry; RaftStorage.truncate_log := truncate_log;
  RaftStorage.compact_log := compact_log; RaftStorage.load_log := load_log;
  RaftStorage.save_snapshot := save_snapshot; RaftStorage.load_snapshot := load_snapshot;
  RaftStorage.save_commit_index := save_commit_index;
  RaftStorage.load_commit_index := load_commit_index;
  RaftStorage.save_admin := save_admin; RaftStorage.load_admin := load_admin;
  RaftStorage.delete_admin := delete_admin; RaftStorage.clear := clear |}.
End JSONFileStorage.

(** ** What a node relies on *)

Record durable := {
  d_term : Z;
  d_voted : option Z;
  d_log : list LogEntry;
  d_commit : Z;
  d_snapshot : option (Z * Z * bytes)
}.

Definition set_meta (t : Z) (v : option Z) (d : durable) : durable :=
  {| d_term := t; d_voted := v; d_log := d_log d; d_commit := d_commit d;
     d_snapshot := d_snapshot d |}.
Definition set_log (l : list LogEntry) (d : durable) : durable :=
  {| d_term := d_term d; d_voted := d_voted d; d_log := l; d_commit := d_commit d;
     d_snapshot := d_snapshot d |}.
Definition set_commit (c : Z) (d : durable) : durable :=
  {| d_term := d_term d; d_voted := d_voted d; d_log := d_log d; d_commit := c;
     d_snapshot := d_snapshot d |}.
Definition set_snapshot (s : Z * Z * bytes) (d : durable) : durable :=
  {| d_term := d_term d; d_voted := d_voted d; d_log := d_log d; d_commit := d_commit d;
     d_snapshot := Some s |}.

Class RaftStorageLaws (R : Type) `{RaftStorage R} := {
  holds : R → durable → Prop;
  holds_meta r d : holds r d → load_meta r = Ok (d_term d, d_voted d);
  holds_log r d : holds r d → load_log r = Ok (d_log d);
  holds_commit r d : holds r d → load_commit_index r = Ok (d_commit d);
  holds_snapshot r d : holds r d → load_snapshot r = Ok (d_snapshot d);
  save_meta_holds r d t v r' : holds r d → save_meta t v r = Ok r' → holds r' (set_meta t v d);
  append_holds r d en r' :
    holds r d → Forall (λ e, le_index e < le_index en) (d_log d) →
    append_log_entry en r = Ok r' → holds r' (set_log (d_log d ++ [en]) d);
  truncate_holds r d i r' :
    holds r d → truncate_log i r = Ok r' →
    holds r' (set_log (filter (λ e, le_index e < i) (d_log d)) d);
  compact_holds r d i r' :
    holds r d → compact_log i r = Ok r' →
    holds r' (set_log (filter (λ e, i < le_index e) (d_log d)) d);
  save_snapshot_holds r d i t data r' :
    holds r d → save_snapshot i t data r = Ok r' → holds r' (set_snapshot (i, t, data) d);
  save_commit_holds r d c r' :
    holds r d → save_commit_index c r = Ok r' → holds r' (set_commit c d)
}.

(** ** The engine keeps the laws *)

Section engine_storage.
Context {E : Type} `{EngineLaws E} `{!Msgpack}.
Import EngineRaftStorage.
Implicit Types (e : E) (d : durable) (en : LogEntry).

Abbreviation log_row i := (x01 :: be_bytes 8 i).

Lemma to_bytes8_Ok i b : to_bytes8 i = Ok b ↔ valid_ts i ∧ b = be_bytes 8 i.
Proof.
  unfold to_bytes8, valid_ts. destruct (_ && _) eqn:Hb; zbool; split; try done.
  - by intros [= <-].
  - intros [_ ->]. done.
  - intros [? _]. lia.
  - intros [? _]. lia.
Qed.

Lemma log_key_Ok i k : _log_key i = Ok k ↔ valid_ts i ∧ k = log_row i.
Proof.
  unfold _log_key. rewrite rbind_Ok. setoid_rewrite to_bytes8_Ok. naive_solver.
Qed.

Lemma log_row_lt i j : valid_ts i → valid_ts j → blt (log_row i) (log_row j) = (i <? j).
Proof. intros. rewrite blt_cons, blt_be_bytes; [done|by apply valid_ts_256..]. Qed.

Lemma log_row_inj i j : valid_ts i → valid_ts j → log_row i = log_row j → i = j.
Proof.
  intros Hi Hj Heq. apply (f_equal tail) in Heq. cbn [tail] in Heq.
  apply be_bytes_inj in Heq; [done|by apply valid_ts_256..].
Qed.

Lemma log_row_in i : in_range [x01] (log_row i) [x02] = true.
Proof. by apply in_range_iff. Qed.

Record engine_holds e d : Prop := {
  eh_meta : (e_get e _META = None ∧ d_term d = 0 ∧ d_voted d = None) ∨
            ∃ b, packb (meta_payload (d_term d) (d_voted d)) = Ok b ∧ e_get e _META = Some b;
  eh_commit : (e_get e _COMMIT = None ∧ d_commit d = 0) ∨
              (valid_ts (d_commit d) ∧ e_get e _COMMIT = Some (be_bytes 8 (d_commit d)));
  eh_snapshot : match d_snapshot d with
                | None => e_get e _SNAPSHOT = None
                | Some (i, t, data) => ∃ b, packb (snapshot_payload i t data) = Ok b ∧
                                            e_get e _SNAPSHOT = Some b
                end;
  eh_log k v : in_range [x01] k [x02] = true →
    e_get e k = Some v ↔ ∃ en, en ∈ d_log d ∧ k = log_row (le_index en) ∧
                               packb (entry_payload en) = Ok v;
  eh_packed en : en ∈ d_log d → valid_ts (le_index en) ∧ is_Ok (packb (entry_payload en));
  eh_sorted : StronglySorted (λ a b, le_index a < le_index b) (d_log d)
}.

(** The row of an entry. *)
Definition entry_row en : row :=
  (log_row (le_index en), match packb (entry_payload en) with Ok b => b | Raise _ => [] end).

Lemma decode_entry_row en :
  valid_ts (le_index en) → is_Ok (packb (entry_payload en)) → decode_entry (entry_row en) = Ok en.
Proof.
  intros Hv [b Hb]. unfold decode_entry, entry_row. rewrite Hb. cbn [snd fst].
  rewrite (unpackb_packb _ _ Hb). cbn [rbind py_index entry_payload dict_get]. decides.
  cbn [rbind as_int as_bytes]. rewrite skipn_cons, drop_0.
  rewrite take_ge by (by rewrite length_be_bytes).
  rewrite be_int_bytes by (by apply valid_ts_256). by destruct en.
Qed.

Lemma scan_log e d : engine_holds e d → e_scan e _LOG [x02] = map entry_row (d_log d).
Proof.
  intros [_ _ _ Hlog Hpk Hs]. apply sorted_ext.
  - apply scan_sorted.
  - revert Hpk. clear Hlog. induction Hs as [|en l Hs IH Hen]; intros Hpk; cbn [map]; [constructor|].
    constructor; [apply IH; intros; apply Hpk; by right|].
    apply Forall_fmap. rewrite list.Forall_forall in Hen |- *. intros en' Hin.
    unfold row_lt, compose, entry_row. cbn [fst]. specialize (Hen _ Hin).
    rewrite log_row_lt; [by apply Z.ltb_lt|apply Hpk; by left|apply Hpk; by right].
  - intros [k v]. rewrite scan_spec, list_elem_of_fmap. split.
    + intros [Hg Hr]. apply (Hlog _ _ Hr) in Hg as (en&Hin&->&Hp). exists en. unfold entry_row.
      by rewrite Hp.
    + intros (en&Hrow&Hin). destruct (Hpk _ Hin) as [Hv [b Hb]]. unfold entry_row in Hrow.
      rewrite Hb in Hrow. assert (k = log_row (le_index en) ∧ v = b) as [-> ->].
      { by apply pair_equal_spec in Hrow. }
      pose proof (log_row_in (le_index en)). split; [|done]. apply Hlog; [done|]. by exists en.
Qed.

Lemma sort_sorted (l : list LogEntry) :
  StronglySorted (λ a b, le_index a < le_index b) l → sort_entries l = l.
Proof.
  intros Hs. symmetry. apply (sorted_by_key_unique le_index); [done| |].
  - apply Sorted_merge_sort. intros a b. unfold index_le. lia.
  - symmetry. apply merge_sort_Permutation.
Qed.

Lemma engine_load_log e d : engine_holds e d → load_log e = Ok (d_log d).
Proof.
  intros Hh. unfold load_log. rewrite (scan_log e d Hh).
  rewrite (traverse_map _ _ (λ en, en)).
  - cbn [rbind]. rewrite map_id, sort_sorted; [done|apply Hh].
  - intros en Hin. destruct (eh_packed _ _ Hh _ Hin). by apply decode_entry_row.
Qed.

(** A write outside the log's rows. *)
Lemma log_put_other e d k b :
  engine_holds e d → in_range [x01] k [x02] = false → ∀ k' v,
  in_range [x01] k' [x02] = true →
  e_get (e_put e k b) k' = Some v ↔ ∃ en, en ∈ d_log d ∧ k' = log_row (le_index en) ∧
                                          packb (entry_payload en) = Ok v.
Proof.
  intros Hh Hk k' v Hk'. rewrite get_put, decide_False by (intros ->; congruence). by apply Hh.
Qed.

Ltac other_row := rewrite get_put, decide_False by done.

Lemma engine_save_meta e d t v e' :
  engine_holds e d → save_meta t v e = Ok e' → engine_holds e' (set_meta t v d).
Proof.
  intros Hh (b&Hb&[= <-])%rbind_Ok. destruct Hh as [K1 K2 K3 K4 K5 K6]. split; cbn; try done.
  - right. exists b. by rewrite get_put, decide_True.
  - by other_row.
  - by destruct (d_snapshot d) as [[[]]|]; other_row.
  - by apply (log_put_other e d).
Qed.

Lemma engine_save_commit e d c e' :
  engine_holds e d → save_commit_index c e = Ok e' → engine_holds e' (set_commit c d).
Proof.
  intros Hh (b&[Hc ->]%to_bytes8_Ok&[= <-])%rbind_Ok. destruct Hh as [K1 K2 K3 K4 K5 K6].
  split; cbn; try done.
  - by other_row.
  - right. by rewrite get_put, decide_True.
  - by destruct (d_snapshot d) as [[[]]|]; other_row.
  - by apply (log_put_other e d).
Qed.

Lemma engine_save_snapshot e d i t data e' :
  engine_holds e d → save_snapshot i t data e = Ok e' → engine_holds e' (set_snapshot (i, t, data) d).
Proof.
  intros Hh (b&Hb&[= <-])%rbind_Ok. destruct Hh as [K1 K2 K3 K4 K5 K6]. split; cbn; try done.
  - by other_row.
  - by other_row.
  - exists b. by rewrite get_put, decide_True.
  - by apply (log_put_other e d).
Qed.

Lemma engine_append e d en e' :
  engine_holds e d → Forall (λ x, le_index x < le_index en) (d_log d) →
  append_log_entry en e = Ok e' → engine_holds e' (set_log (d_log d ++ [en]) d).
Proof.
  intros Hh Hlt (k&[Hv ->]%log_key_Ok&(b&Hb&[= <-])%rbind_Ok)%rbind_Ok.
  destruct Hh as [K1 K2 K3 K4 K5 K6]. rewrite list.Forall_forall in Hlt. split; cbn.
  - by other_row.
  - by other_row.
  - by destruct (d_snapshot d) as [[[]]|]; other_row.
  - intros k v Hr. rewrite get_put. case_decide as Hk.
    + subst. split.
      * intros [= <-]. exists en. split_and!; [|done..]. apply elem_of_app. right. by left.
      * intros (en'&[Hin|Hin]%elem_of_app&Hk&Hp).
        -- specialize (Hlt _ Hin). apply log_row_inj in Hk; [lia|done|by apply K5].
        -- apply list_elem_of_singleton in Hin as ->. congruence.
    + rewrite (K4 k v Hr). split.
      * intros (en'&Hin&?&?). exists en'. split_and!; [|done..]. apply elem_of_app. by left.
      * intros (en'&[Hin|Hin]%elem_of_app&Hk'&Hp); [by exists en'|].
        apply list_elem_of_singleton in Hin as ->. by subst.
  - intros en' [Hin|Hin]%elem_of_app; [by apply K5|]. apply list_elem_of_singleton in Hin as ->.
    split; [done|by exists b].
  - apply StronglySorted_app. split_and!; [|done|by repeat constructor].
    intros x y Hx ->%list_elem_of_singleton. by apply Hlt.
Qed.

(** Dropping a range of the log's rows keeps the entries outside it. *)
Lemma engine_delete_log e d k0 k1 (P : LogEntry → Prop) `{!∀ x, Decision (P x)} :
  engine_holds e d →
  in_range k0 _META k1 = false → in_range k0 _COMMIT k1 = false → in_range k0 _SNAPSHOT k1 = false →
  (∀ en, en ∈ d_log d → in_range k0 (log_row (le_index en)) k1 = false ↔ P en) →
  engine_holds (e_delete_range e k0 k1) (set_log (filter P (d_log d)) d).
Proof.
  intros [K1 K2 K3 K4 K5 K6] Hm Hc Hs HP. split; cbn.
  - by rewrite get_delete_range, Hm.
  - by rewrite get_delete_range, Hc.
  - destruct (d_snapshot d) as [[[]]|]; by rewrite get_delete_range, Hs.
  - intros k v Hr. rewrite get_delete_range. setoid_rewrite list_elem_of_filter.
    destruct (in_range k0 k k1) eqn:Hk.
    + split; [done|]. intros (en&[HPen Hin]&->&_). apply HP in HPen; [congruence|done].
    + rewrite (K4 k v Hr). split.
      * intros (en&Hin&->&Hp). exists en. split_and!; [by apply HP|done..].
      * intros (en&[_ Hin]&->&Hp). by exists en.
  - intros en [_ Hin]%list_elem_of_filter. by apply K5.
  - clear -K6. induction K6 as [|x l Hs IH Hx]; [constructor|]. rewrite filter_cons. case_decide; [|done].
    constructor; [done|]. rewrite list.Forall_forall in Hx |- *. intros y [_ Hy]%list_elem_of_filter. auto.
Qed.

Lemma engine_truncate e d i e' :
  engine_holds e d → truncate_log i e = Ok e' →
  engine_holds e' (set_log (filter (λ x, le_index x < i) (d_log d)) d).
Proof.
  intros Hh (k&[Hv ->]%log_key_Ok&[= <-])%rbind_Ok. apply engine_delete_log; try done.
  intros en Hin. destruct (eh_packed _ _ Hh _ Hin) as [Hen _].
    unfold in_range, ble. pose proof (log_row_lt (le_index en) i Hen Hv) as ->.
    change (blt (log_row (le_index en)) [x02]) with true. rewrite andb_true_r, negb_false_iff.
    apply Z.ltb_lt.
Qed.

Lemma engine_compact e d i e' :
  engine_holds e d → compact_log i e = Ok e' →
  engine_holds e' (set_log (filter (λ x, i < le_index x) (d_log d)) d).
Proof.
  intros Hh (k&[Hv ->]%log_key_Ok&(k1&[Hv1 ->]%log_key_Ok&[= <-])%rbind_Ok)%rbind_Ok.
  apply engine_delete_log; try done.
  intros en Hin. destruct (eh_packed _ _ Hh _ Hin) as [Hen _].
    unfold in_range, ble. rewrite (log_row_lt (le_index en) 0 Hen Hv), (log_row_lt (le_index en) (i + 1) Hen Hv1).
    unfold valid_ts in Hen. rewrite (proj2 (Z.ltb_ge _ _)) by lia. cbn [negb andb].
    rewrite Z.ltb_ge. lia.
Qed.

#[global] Instance engine_storage_laws : RaftStorageLaws E.
Proof.
  refine {| holds := engine_holds |}.
  - intros e d Hh. cbn. unfold load_meta. destruct (eh_meta _ _ Hh) as [(->&->&->)|(b&Hb&->)]; [done|].
    rewrite (unpackb_packb _ _ Hb). cbn. decides. cbn. decides. cbn.
    by destruct (d_voted d).
  - apply engine_load_log.
  - intros e d Hh. cbn. unfold load_commit_index.
    destruct (eh_commit _ _ Hh) as [(->&->)|(Hv&->)]; [done|]. by rewrite be_int_bytes by (by apply valid_ts_256).
  - intros e d Hh. cbn. unfold load_snapshot. pose proof (eh_snapshot _ _ Hh) as Hs.
    destruct (d_snapshot d) as [[[i t] data]|]; [|by rewrite Hs].
    destruct Hs as (b&Hb&->). rewrite (unpackb_packb _ _ Hb). cbn. decides. cbn. decides. cbn.
    decides. done.
  - apply engine_save_meta.
  - apply engine_append.
  - apply engine_truncate.
  - apply engine_compact.
  - intros r d i t data r'. apply engine_save_snapshot.
  - apply engine_save_commit.
Defined.
End engine_storage.

(** ** Sequences of saves *)

Inductive save_op :=
  | SMeta (t : Z) (v : option Z)
  | SAppend (en : LogEntry)
  | STruncate (i : Z)
  | SCompact (i : Z)
  | SSnapshot (i t : Z) (data : bytes)
  | SCommit (c : Z).

Definition run_save {R} `{RaftStorage R} (o : save_op) (r : R) : result R :=
  match o with
  | SMeta t v => save_meta t v r
  | SAppend en => append_log_entry en r
  | STruncate i => truncate_log i r
  | SCompact i => compact_log i r
  | SSnapshot i t data => save_snapshot i t data r
  | SCommit c => save_commit_index c r
  end.

(** What the save means for the durable state. *)
Definition save_spec (o : save_op) (d : durable) : durable :=
  match o with
  | SMeta t v => set_meta t v d
  | SAppend en => set_log (d_log d ++ [en]) d
  | STruncate i => set_log (filter (λ e, le_index e < i) (d_log d)) d
  | SCompact i => set_log (filter (λ e, i < le_index e) (d_log d)) d
  | SSnapshot i t data => set_snapshot (i, t, data) d
  | SCommit c => set_commit c d
  end.

(** A node appends behind the entries it has. *)
Definition save_ok (o : save_op) (d : durable) : Prop :=
  match o with SAppend en => Forall (λ e, le_index e < le_index en) (d_log d) | _ => True end.

Fixpoint run_saves {R} `{RaftStorage R} (ops : list save_op) (r : R) : result R :=
  match ops with
  | [] => Ok r
  | o :: ops => let? r := run_save o r in run_saves ops r
  end.
Fixpoint saves_ok (ops : list save_op) (d : durable) : Prop :=
  match ops with
  | [] => True
  | o :: ops => save_ok o d ∧ saves_ok ops (save_spec o d)
  end.

Definition nothing : durable :=
  {| d_term := 0; d_voted := None; d_log := []; d_commit := 0; d_snapshot := None |}.

Section saves.
Context {R : Type} `{RaftStorageLaws R}.

Lemma run_save_holds o (r : R) d r' :
  holds r d → save_ok o d → run_save o r = Ok r' → holds r' (save_spec o d).
Proof.
  intros Hh Hok. destruct o; cbn in *; intros Hr.
  - by eapply save_meta_holds.
  - by eapply append_holds.
  - by eapply truncate_holds.
  - by eapply compact_holds.
  - by eapply save_snapshot_holds.
  - by eapply save_commit_holds.
Qed.

Lemma run_saves_holds ops : ∀ (r : R) d r',
  holds r d → saves_ok ops d → run_saves ops r = Ok r' →
  holds r' (foldl (λ d o, save_spec o d) d ops).
Proof.
  induction ops as [|o ops IH]; intros r d r' Hh; cbn.
  - by intros _ [= <-].
  - intros [Ho Hops] (r1&H1&H2)%rbind_Ok. eapply IH; [|done..]. by eapply run_save_holds.
Qed.
End saves.

Section engine_saves.
Context {E : Type} `{EngineLaws E} `{!Msgpack}.

Lemma engine_holds_nothing (e : E) : (∀ k, e_get e k = None) → engine_holds e nothing.
Proof.
  intros He. split; cbn; try (rewrite He; auto); try done.
  - intros k v _. rewrite He. split; [done|]. by intros (en&?%elem_of_nil&_).
  - by intros en ?%elem_of_nil.
  - constructor.
Qed.

(** What a node saved is what it loads.  Any sequence of saves on a fresh engine that is
    not refused - terms and votes, entries appended in order, suffixes cut off, prefixes
    compacted away, snapshots, commit indices - leaves a storage whose five loads read back
    exactly the state those saves describe: the last vote, the log with the cut entries
    gone and in index order, the last snapshot and the last commit index. *)
Theorem engine_storage_loads_what_was_saved (e e' : E) ops :
  (∀ k, e_get e k = None) → saves_ok ops nothing → run_saves ops e = Ok e' →
  let d := foldl (λ d o, save_spec o d) nothing ops in
  load_meta e' = Ok (d_term d, d_voted d) ∧ load_log e' = Ok (d_log d) ∧
  load_commit_index e' = Ok (d_commit d) ∧ load_snapshot e' = Ok (d_snapshot d).
Proof.
  intros He Hok Hr d. assert (holds e' d) as Hh.
  { eapply run_saves_holds; [by apply engine_holds_nothing|done..]. }
  split_and!; [by apply holds_meta|by apply holds_log|by apply holds_commit|by apply holds_snapshot].
Qed.
End engine_saves.

(** The JSON storage forgets its snapshot.  Once a snapshot is saved it is loaded back -
    until the next vote or term change: [save_meta] rewrites the metadata file without the
    snapshot's index, and from then on no snapshot is loaded, although the log was compacted
    on the strength of it. *)
Theorem json_save_meta_forgets_snapshot (r : JSONFileStorage.t) i t data term voted :
  ∃ r1 r2, save_snapshot i t data r = Ok r1 ∧ load_snapshot r1 = Ok (Some (i, t, data)) ∧
    save_meta term voted r1 = Ok r2 ∧ load_snapshot r2 = Ok None.
Proof. eexists _, _. split_and!; reflexivity. Qed.
