(* ===== verification/RaftNode.v ===== *)
(** The Raft node of [raft/node.py].

    One node's state is a record; what the code does under the node's lock is one function
    of it.  An RPC a node makes is two functions, because the lock is not held while the
    message is under way: one that reads the request off the state, one that takes the
    response in whatever state the node is by then.  A proposal and a read are cut the same
    way at the points where they wait.  Any of these functions may run at any time; the
    deadlines and the threads that say when they do are in [RaftTimers].

    The state machine and the storage are interfaces ([StateMachine], [RaftStorage]). *)

From Stdlib Require Import ZArith Lia.
From S2P Require Import Prelude Bytes PyVal StateMachine Dict RaftStorage.

Inductive NodeState := FOLLOWER | CANDIDATE | LEADER.
#[global] Instance NodeState_eq_dec : EqDecision NodeState.
Proof. solve_decision. Defined.

Definition NOOP_COMMAND : bytes := [].

Definition FREEZE_SPLIT : string := "split".
Definition FREEZE_MIGRATION : string := "migration".
(** The code [propose] takes from the dictionary of this name, with its default. *)
Definition FREEZE_REFUSALS (reason : string) : Z :=
  if decide (reason = FREEZE_SPLIT) then ErrorCode.ERR_SPLIT_IN_PROGRESS
  else if decide (reason = FREEZE_MIGRATION) then ErrorCode.ERR_MIGRATING
  else ErrorCode.ERR_SPLIT_IN_PROGRESS.

Record RequestVoteRequest := {
  rv_term : Z; rv_candidate_id : Z; rv_last_log_index : Z; rv_last_log_term : Z }.
Record RequestVoteResponse := { rvr_term : Z; rvr_vote_granted : bool }.
Record AppendEntriesRequest := {
  ae_term : Z; ae_leader_id : Z; ae_prev_log_index : Z; ae_prev_log_term : Z;
  ae_entries : list LogEntry; ae_leader_commit : Z }.
Record AppendEntriesResponse := { aer_term : Z; aer_success : bool; aer_match_index : Z }.
Record InstallSnapshotRequest := {
  is_term : Z; is_leader_id : Z; is_last_included_index : Z; is_last_included_term : Z;
  is_data : bytes }.
Record InstallSnapshotResponse := { isr_term : Z; isr_success : bool }.

Definition _entry_in (log : list LogEntry) (log_base index : Z) : option LogEntry :=
  let offset := index - log_base - 1 in
  if (0 <=? offset) && (offset <? Z.of_nat (length log)) then log !! Z.to_nat offset else None.

(** What the node uses of its state machine. *)
Class StateMachine (S : Type) := {
  sm_apply : bytes → S → S * ApplyResult;
  sm_snapshot : S → result bytes;
  sm_restore : bytes → M S unit;
  sm_get : bytes → option Z → S → result ReadResult;
  sm_scan_versions : bytes → bytes → option Z → S → result (list (bytes * pyval * Z))
}.

Module MemoryRaftNode.
Section node.
Context {S R : Type} `{StateMachine S} `{RaftStorage R} `{Msgpack}.

Record t := {
  _node_id : Z;
  _peers : list Z;
  _state : NodeState;
  _current_term : Z;
  _voted_for : option Z;
  _leader_id : option Z;
  _log : list LogEntry;
  _commit_index : Z;
  _last_applied : Z;
  _last_included_index : Z;
  _last_included_term : Z;
  _snapshot_interval : Z;
  _next_index : gmap Z Z;
  _match_index : gmap Z Z;
  _votes_received : gset Z;
  _writes_frozen : bool;
  _freeze_reason : string;
  _proposes : Z;
  _shutdown_flag : bool;
  _apply_results : list (Z * ApplyResult);
  _results_capacity : nat;
  _state_machine : S;
  _storage : option R
}.

Definition with_state (v : NodeState) (n : t) : t :=
  {| _node_id := _node_id n; _peers := _peers n; _state := v; _current_term := _current_term
     n; _voted_for := _voted_for n; _leader_id := _leader_id n; _log := _log n;
     _commit_index := _commit_index n; _last_applied := _last_applied n;
     _last_included_index := _last_included_index n; _last_included_term :=
     _last_included_term n; _snapshot_interval := _snapshot_interval n; _next_index :=
     _next_index n; _match_index := _match_index n; _votes_received := _votes_received n;
     _writes_frozen := _writes_frozen n; _freeze_reason := _freeze_reason n; _proposes :=
     _proposes n; _shutdown_flag := _shutdown_flag n; _apply_results := _apply_results n;
     _results_capacity := _results_capacity n; _state_machine := _state_machine n; _storage
     := _storage n |}.
Definition with_current_term (v : Z) (n : t) : t :=
  {| _node_id := _node_id n; _peers := _peers n; _state := _state n; _current_term := v;
     _voted_for := _voted_for n; _leader_id := _leader_id n; _log := _log n; _commit_index
     := _commit_index n; _last_applied := _last_applied n; _last_included_index :=
     _last_included_index n; _last_included_term := _last_included_term n;
     _snapshot_interval := _snapshot_interval n; _next_index := _next_index n; _match_index
     := _match_index n; _votes_received := _votes_received n; _writes_frozen :=
     _writes_frozen n; _freeze_reason := _freeze_reason n; _proposes := _proposes n;
     _shutdown_flag := _shutdown_flag n; _apply_results := _apply_results n;
     _results_capacity := _results_capacity n; _state_machine := _state_machine n; _storage
     := _storage n |}.
Definition with_voted_for (v : option Z) (n : t) : t :=
  {| _node_id := _node_id n; _peers := _peers n; _state := _state n; _current_term :=
     _current_term n; _voted_for := v; _leader_id := _leader_id n; _log := _log n;
     _commit_index := _commit_index n; _last_applied := _last_applied n;
     _last_included_index := _last_included_index n; _last_included_term :=
     _last_included_term n; _snapshot_interval := _snapshot_interval n; _next_index :=
     _next_index n; _match_index := _match_index n; _votes_received := _votes_received n;
     _writes_frozen := _writes_frozen n; _freeze_reason := _freeze_reason n; _proposes :=
     _proposes n; _shutdown_flag := _shutdown_flag n; _apply_results := _apply_results n;
     _results_capacity := _results_capacity n; _state_machine := _state_machine n; _storage
     := _storage n |}.
Definition with_leader_id (v : option Z) (n : t) : t :=
  {| _node_id := _node_id n; _peers := _peers n; _state := _state n; _current_term :=
     _current_term n; _voted_for := _voted_for n; _leader_id := v; _log := _log n;
     _commit_index := _commit_index n; _last_applied := _last_applied n;
     _last_included_index := _last_included_index n; _last_included_term :=
     _last_included_term n; _snapshot_interval := _snapshot_interval n; _next_index :=
     _next_index n; _match_index := _match_index n; _votes_received := _votes_received n;
     _writes_frozen := _writes_frozen n; _freeze_reason := _freeze_reason n; _proposes :=
     _proposes n; _shutdown_flag := _shutdown_flag n; _apply_results := _apply_results n;
     _results_capacity := _results_capacity n; _state_machine := _state_machine n; _storage
     := _storage n |}.
Definition with_log (v : list LogEntry) (n : t) : t :=
  {| _node_id := _node_id n; _peers := _peers n; _state := _state n; _current_term :=
     _current_term n; _voted_for := _voted_for n; _leader_id := _leader_id n; _log := v;
     _commit_index := _commit_index n; _last_applied := _last_applied n;
     _last_included_index := _last_included_index n; _last_included_term :=
     _last_included_term n; _snapshot_interval := _snapshot_interval n; _next_index :=
     _next_index n; _match_index := _match_index n; _votes_received := _votes_received n;
     _writes_frozen := _writes_frozen n; _freeze_reason := _freeze_reason n; _proposes :=
     _proposes n; _shutdown_flag := _shutdown_flag n; _apply_results := _apply_results n;
     _results_capacity := _results_capacity n; _state_machine := _state_machine n; _storage
     := _storage n |}.
Definition with_commit_index (v : Z) (n : t) : t :=
  {| _node_id := _node_id n; _peers := _peers n; _state := _state n; _current_term :=
     _current_term n; _voted_for := _voted_for n; _leader_id := _leader_id n; _log := _log
     n; _commit_index := v; _last_applied := _last_applied n; _last_included_index :=
     _last_included_index n; _last_included_term := _last_included_term n;
     _snapshot_interval := _snapshot_interval n; _next_index := _next_index n; _match_index
     := _match_index n; _votes_received := _votes_received n; _writes_frozen :=
     _writes_frozen n; _freeze_reason := _freeze_reason n; _proposes := _proposes n;
     _shutdown_flag := _shutdown_flag n; _apply_results := _apply_results n;
     _results_capacity := _results_capacity n; _state_machine := _state_machine n; _storage
     := _storage n |}.
Definition with_last_applied (v : Z) (n : t) : t :=
  {| _node_id := _node_id n; _peers := _peers n; _state := _state n; _current_term :=
     _current_term n; _voted_for := _voted_for n; _leader_id := _leader_id n; _log := _log
     n; _commit_index := _commit_index n; _last_applied := v; _last_included_index :=
     _last_included_index n; _last_included_term := _last_included_term n;
     _snapshot_interval := _snapshot_interval n; _next_index := _next_index n; _match_index
     := _match_index n; _votes_received := _votes_received n; _writes_frozen :=
     _writes_frozen n; _freeze_reason := _freeze_reason n; _proposes := _proposes n;
     _shutdown_flag := _shutdown_flag n; _apply_results := _apply_results n;
     _results_capacity := _results_capacity n; _state_machine := _state_machine n; _storage
     := _storage n |}.
Definition with_snapshot_interval (v : Z) (n : t) : t :=
  {| _node_id := _node_id n; _peers := _peers n; _state := _state n; _current_term :=
     _current_term n; _voted_for := _voted_for n; _leader_id := _leader_id n; _log := _log
     n; _commit_index := _commit_index n; _last_applied := _last_applied n;
     _last_included_index := _last_included_index n; _last_included_term :=
     _last_included_term n; _snapshot_interval := v; _next_index := _next_index n;
     _match_index := _match_index n; _votes_received := _votes_received n; _writes_frozen :=
     _writes_frozen n; _freeze_reason := _freeze_reason n; _proposes := _proposes n;
     _shutdown_flag := _shutdown_flag n; _apply_results := _apply_results n;
     _results_capacity := _results_capacity n; _state_machine := _state_machine n; _storage
     := _storage n |}.
Definition with_next_index (v : gmap Z Z) (n : t) : t :=
  {| _node_id := _node_id n; _peers := _peers n; _state := _state n; _current_term :=
     _current_term n; _voted_for := _voted_for n; _leader_id := _leader_id n; _log := _log
     n; _commit_index := _commit_index n; _last_applied := _last_applied n;
     _last_included_index := _last_included_index n; _last_included_term :=
     _last_included_term n; _snapshot_interval := _snapshot_interval n; _next_index := v;
     _match_index := _match_index n; _votes_received := _votes_received n; _writes_frozen :=
     _writes_frozen n; _freeze_reason := _freeze_reason n; _proposes := _proposes n;
     _shutdown_flag := _shutdown_flag n; _apply_results := _apply_results n;
     _results_capacity := _results_capacity n; _state_machine := _state_machine n; _storage
     := _storage n |}.
Definition with_match_index (v : gmap Z Z) (n : t) : t :=
  {| _node_id := _node_id n; _peers := _peers n; _state := _state n; _current_term :=
     _current_term n; _voted_for := _voted_for n; _leader_id := _leader_id n; _log := _log
     n; _commit_index := _commit_index n; _last_applied := _last_applied n;
     _last_included_index := _last_included_index n; _last_included_term :=
     _last_included_term n; _snapshot_interval := _snapshot_interval n; _next_index :=
     _next_index n; _match_index := v; _votes_received := _votes_received n; _writes_frozen
     := _writes_frozen n; _freeze_reason := _freeze_reason n; _proposes := _proposes n;
     _shutdown_flag := _shutdown_flag n; _apply_results := _apply_results n;
     _results_capacity := _results_capacity n; _state_machine := _state_machine n; _storage
     := _storage n |}.
Definition with_votes_received (v : gset Z) (n : t) : t :=
  {| _node_id := _node_id n; _peers := _peers n; _state := _state n; _current_term :=
     _current_term n; _voted_for := _voted_for n; _leader_id := _leader_id n; _log := _log
     n; _commit_index := _commit_index n; _last_applied := _last_applied n;
     _last_included_index := _last_included_index n; _last_included_term :=
     _last_included_term n; _snapshot_interval := _snapshot_interval n; _next_index :=
     _next_index n; _match_index := _match_index n; _votes_received := v; _writes_frozen :=
     _writes_frozen n; _freeze_reason := _freeze_reason n; _proposes := _proposes n;
     _shutdown_flag := _shutdown_flag n; _apply_results := _apply_results n;
     _results_capacity := _results_capacity n; _state_machine := _state_machine n; _storage
     := _storage n |}.
Definition with_proposes (v : Z) (n : t) : t :=
  {| _node_id := _node_id n; _peers := _peers n; _state := _state n; _current_term :=
     _current_term n; _voted_for := _voted_for n; _leader_id := _leader_id n; _log := _log
     n; _commit_index := _commit_index n; _last_applied := _last_applied n;
     _last_included_index := _last_included_index n; _last_included_term :=
     _last_included_term n; _snapshot_interval := _snapshot_interval n; _next_index :=
     _next_index n; _match_index := _match_index n; _votes_received := _votes_received n;
     _writes_frozen := _writes_frozen n; _freeze_reason := _freeze_reason n; _proposes := v;
     _shutdown_flag := _shutdown_flag n; _apply_results := _apply_results n;
     _results_capacity := _results_capacity n; _state_machine := _state_machine n; _storage
     := _storage n |}.
Definition with_shutdown_flag (v : bool) (n : t) : t :=
  {| _node_id := _node_id n; _peers := _peers n; _state := _state n; _current_term :=
     _current_term n; _voted_for := _voted_for n; _leader_id := _leader_id n; _log := _log
     n; _commit_index := _commit_index n; _last_applied := _last_applied n;
     _last_included_index := _last_included_index n; _last_included_term :=
     _last_included_term n; _snapshot_interval := _snapshot_interval n; _next_index :=
     _next_index n; _match_index := _match_index n; _votes_received := _votes_received n;
     _writes_frozen := _writes_frozen n; _freeze_reason := _freeze_reason n; _proposes :=
     _proposes n; _shutdown_flag := v; _apply_results := _apply_results n; _results_capacity
     := _results_capacity n; _state_machine := _state_machine n; _storage := _storage n |}.
Definition with_apply_results (v : list (Z * ApplyResult)) (n : t) : t :=
  {| _node_id := _node_id n; _peers := _peers n; _state := _state n; _current_term :=
     _current_term n; _voted_for := _voted_for n; _leader_id := _leader_id n; _log := _log
     n; _commit_index := _commit_index n; _last_applied := _last_applied n;
     _last_included_index := _last_included_index n; _last_included_term :=
     _last_included_term n; _snapshot_interval := _snapshot_interval n; _next_index :=
     _next_index n; _match_index := _match_index n; _votes_received := _votes_received n;
     _writes_frozen := _writes_frozen n; _freeze_reason := _freeze_reason n; _proposes :=
     _proposes n; _shutdown_flag := _shutdown_flag n; _apply_results := v; _results_capacity
     := _results_capacity n; _state_machine := _state_machine n; _storage := _storage n |}.
Definition with_state_machine (v : S) (n : t) : t :=
  {| _node_id := _node_id n; _peers := _peers n; _state := _state n; _current_term :=
     _current_term n; _voted_for := _voted_for n; _leader_id := _leader_id n; _log := _log
     n; _commit_index := _commit_index n; _last_applied := _last_applied n;
     _last_included_index := _last_included_index n; _last_included_term :=
     _last_included_term n; _snapshot_interval := _snapshot_interval n; _next_index :=
     _next_index n; _match_index := _match_index n; _votes_received := _votes_received n;
     _writes_frozen := _writes_frozen n; _freeze_reason := _freeze_reason n; _proposes :=
     _proposes n; _shutdown_flag := _shutdown_flag n; _apply_results := _apply_results n;
     _results_capacity := _results_capacity n; _state_machine := v; _storage := _storage n |}.
Definition with_storage (v : option R) (n : t) : t :=
  {| _node_id := _node_id n; _peers := _peers n; _state := _state n; _current_term :=
     _current_term n; _voted_for := _voted_for n; _leader_id := _leader_id n; _log := _log
     n; _commit_index := _commit_index n; _last_applied := _last_applied n;
     _last_included_index := _last_included_index n; _last_included_term :=
     _last_included_term n; _snapshot_interval := _snapshot_interval n; _next_index :=
     _next_index n; _match_index := _match_index n; _votes_received := _votes_received n;
     _writes_frozen := _writes_frozen n; _freeze_reason := _freeze_reason n; _proposes :=
     _proposes n; _shutdown_flag := _shutdown_flag n; _apply_results := _apply_results n;
     _results_capacity := _results_capacity n; _state_machine := _state_machine n; _storage
     := v |}.
Definition with_included (index term : Z) (n : t) : t :=
  {| _node_id := _node_id n; _peers := _peers n; _state := _state n; _current_term :=
     _current_term n; _voted_for := _voted_for n; _leader_id := _leader_id n; _log := _log
     n; _commit_index := _commit_index n; _last_applied := _last_applied n;
     _last_included_index := index; _last_included_term := term; _snapshot_interval :=
     _snapshot_interval n; _next_index := _next_index n; _match_index := _match_index n;
     _votes_received := _votes_received n; _writes_frozen := _writes_frozen n;
     _freeze_reason := _freeze_reason n; _proposes := _proposes n; _shutdown_flag :=
     _shutdown_flag n; _apply_results := _apply_results n; _results_capacity :=
     _results_capacity n; _state_machine := _state_machine n; _storage := _storage n |}.
Definition with_freeze (frozen : bool) (reason : string) (n : t) : t :=
  {| _node_id := _node_id n; _peers := _peers n; _state := _state n; _current_term :=
     _current_term n; _voted_for := _voted_for n; _leader_id := _leader_id n; _log := _log
     n; _commit_index := _commit_index n; _last_applied := _last_applied n;
     _last_included_index := _last_included_index n; _last_included_term :=
     _last_included_term n; _snapshot_interval := _snapshot_interval n; _next_index :=
     _next_index n; _match_index := _match_index n; _votes_received := _votes_received n;
     _writes_frozen := frozen; _freeze_reason := reason; _proposes := _proposes n;
     _shutdown_flag := _shutdown_flag n; _apply_results := _apply_results n;
     _results_capacity := _results_capacity n; _state_machine := _state_machine n; _storage
     := _storage n |}.

(** [max(1, apply_results_window)]. *)
Definition init (node_id : Z) (peers : list Z) (state_machine : S) (storage : option R)
    (snapshot_interval apply_results_window : Z) : t :=
  {| _node_id := node_id; _peers := peers; _state := FOLLOWER; _current_term := 0;
     _voted_for := None; _leader_id := None; _log := []; _commit_index := 0; _last_applied := 0;
     _last_included_index := 0; _last_included_term := 0;
     _snapshot_interval := snapshot_interval; _next_index := ∅; _match_index := ∅;
     _votes_received := ∅; _writes_frozen := false; _freeze_reason := FREEZE_SPLIT;
     _proposes := 0; _shutdown_flag := false; _apply_results := [];
     _results_capacity := Z.to_nat (Z.max 1 apply_results_window);
     _state_machine := state_machine; _storage := storage |}.

Definition modify (f : t → t) : M t unit := λ n, (f n, Ok tt).
Definition read {A} (f : t → A) : M t A := λ n, (n, Ok (f n)).

(** A save, if there is a storage to save to. *)
Definition on_storage (f : t → R → result R) : M t unit := λ n,
  match _storage n with
  | None => (n, Ok tt)
  | Some r => match f n r with
              | Ok r' => (with_storage (Some r') n, Ok tt)
              | Raise x => (n, Raise x)
              end
  end.

Definition _last_log_index (n : t) : Z :=
  match last (_log n) with Some e => le_index e | None => _last_included_index n end.
Definition _last_log_term (n : t) : Z :=
  match last (_log n) with Some e => le_term e | None => _last_included_term n end.
Definition _entry_at (index : Z) (n : t) : option LogEntry :=
  _entry_in (_log n) (_last_included_index n) index.

Definition _save_meta : M t unit := on_storage (λ n, save_meta (_current_term n) (_voted_for n)).
Definition _save_log_entry (e : LogEntry) : M t unit := on_storage (λ _, append_log_entry e).
Definition _save_log_truncate (from_index : Z) : M t unit := on_storage (λ _, truncate_log from_index).
Definition _save_commit_index : M t unit := on_storage (λ n, save_commit_index (_commit_index n)).

Definition _forget_leader : M t unit := modify (with_leader_id None).

(** [_ApplyResults.record]: the oldest entries are evicted past the capacity. *)
Definition record_result (index : Z) (r : ApplyResult) (n : t) : t :=
  let l := d_set (_apply_results n) index r in
  with_apply_results (drop (length l - _results_capacity n) l) n.

(** ** Applying *)

(** One round of the loop of [_apply_committed_entries]. *)
Definition apply_next (n : t) : t :=
  let n := with_last_applied (_last_applied n + 1) n in
  match _entry_at (_last_applied n) n with
  | None => n
  | Some e =>
      if decide (le_command e = NOOP_COMMAND)
      then record_result (_last_applied n) (apply_success None) n
      else let '(s, r) := sm_apply (le_command e) (_state_machine n) in
           record_result (_last_applied n) r (with_state_machine s n)
  end.

(** [while self._last_applied < self._commit_index]: as many rounds as they are apart. *)
Fixpoint apply_rounds (rounds : nat) (n : t) : t :=
  match rounds with O => n | Datatypes.S rounds => apply_rounds rounds (apply_next n) end.
Definition apply_loop (n : t) : t :=
  apply_rounds (Z.to_nat (_commit_index n - _last_applied n)) n.

Definition drop_prefix (index : Z) (log : list LogEntry) : list LogEntry :=
  filter (λ e, index < le_index e) log.

(** The flag [_snapshot_in_progress] is only ever seen set by the call that set it. *)
Definition _maybe_snapshot (n : t) : t :=
  match _storage n with
  | None => n
  | Some r =>
      if (_snapshot_interval n <=? 0)
         || (_last_applied n - _last_included_index n <? _snapshot_interval n) then n
      else
      match _entry_at (_last_applied n) n with
      | None => n
      | Some e =>
          match sm_snapshot (_state_machine n) with
          | Raise NotImplementedError => with_snapshot_interval 0 n
          | Raise _ => n
          | Ok data =>
              match save_snapshot (_last_applied n) (le_term e) data r with
              | Raise _ => n
              | Ok r1 =>
                  match compact_log (_last_applied n) r1 with
                  | Raise _ => with_storage (Some r1) n
                  | Ok r2 =>
                      with_included (_last_applied n) (le_term e)
                        (with_log (drop_prefix (_last_applied n) (_log n))
                           (with_storage (Some r2) n))
                  end
              end
          end
      end
  end.

Definition _apply_committed_entries : M t unit := modify (λ n, _maybe_snapshot (apply_loop n)).

(** ** Committing *)

Definition majority (n : t) : Z := (Z.of_nat (length (_peers n)) + 1) / 2 + 1.

Definition z_le (a b : Z) : Prop := a ≤ b.
#[global] Instance z_le_dec : RelDecision z_le.
Proof. intros a b. unfold z_le. apply _. Defined.

Definition match_indices (n : t) : list Z :=
  merge_sort z_le (map_to_list (_match_index n)).*2 ++ [_last_log_index n].

(** [match_indices[-majority]], when there are that many. *)
Definition quorum_index (n : t) : option Z :=
  let l := match_indices n in
  if Z.of_nat (length l) <? majority n then None else l !! (length l - Z.to_nat (majority n))%nat.

Definition _update_commit_index : M t unit :=
  let* new := read quorum_index in
  let* n := read (λ n, n) in
  match new with
  | None => ret tt
  | Some new_commit_index =>
      if new_commit_index >? _commit_index n then
        match _entry_at new_commit_index n with
        | Some e =>
            if le_term e =? _current_term n then
              modify (with_commit_index new_commit_index);;;
              _save_commit_index;;;
              _apply_committed_entries
            else ret tt
        | None => ret tt
        end
      else ret tt
  end.

(** ** Elections *)

Definition append_own (command : bytes) : M t LogEntry :=
  let* e := read (λ n, {| le_term := _current_term n; le_index := _last_log_index n + 1;
                          le_command := command |}) in
  modify (λ n, with_log (_log n ++ [e]) n);;;
  _save_log_entry e;;;
  _update_commit_index;;;
  ret e.

Definition _append_noop_entry : M t unit := append_own NOOP_COMMAND;;; ret tt.

(** [for peer_id in self._peers: next = last + 1; match = 0]. *)
Definition reset_progress (n : t) : t :=
  with_next_index (foldl (λ m p, <[p := _last_log_index n + 1]> m) (_next_index n) (_peers n))
    (with_match_index (foldl (λ m p, <[p := 0]> m) (_match_index n) (_peers n)) n).

Definition _check_vote_count : M t unit :=
  let* n := read (λ n, n) in
  if decide (_state n ≠ CANDIDATE) then ret tt
  else if Z.of_nat (size (_votes_received n)) >=? majority n then
    modify (with_state LEADER);;;
    modify (with_leader_id (Some (_node_id n)));;;
    modify (with_votes_received ∅);;;
    modify reset_progress;;;
    _append_noop_entry
  else ret tt.

Definition _start_election : M t unit :=
  let* n := read (λ n, n) in
  if _shutdown_flag n then ret tt
  else if decide (_state n = LEADER) then ret tt
  else
    modify (with_state CANDIDATE);;;
    _forget_leader;;;
    modify (with_current_term (_current_term n + 1));;;
    modify (with_voted_for (Some (_node_id n)));;;
    modify (with_votes_received {[_node_id n]});;;
    _save_meta;;;
    _check_vote_count.

(** [_request_vote], up to the message. *)
Definition vote_request (n : t) : option RequestVoteRequest :=
  if _shutdown_flag n then None
  else if decide (_state n ≠ CANDIDATE) then None
  else Some {| rv_term := _current_term n; rv_candidate_id := _node_id n;
               rv_last_log_index := _last_log_index n; rv_last_log_term := _last_log_term n |}.

(** A response from a later term: step down.  The term is not saved here. *)
Definition step_down (term : Z) : M t unit :=
  modify (with_current_term term);;;
  modify (with_state FOLLOWER);;;
  _forget_leader;;;
  modify (with_voted_for None).

(** [_request_vote], from the response on. *)
Definition vote_response (peer_id : Z) (response : RequestVoteResponse) : M t unit :=
  let* n := read (λ n, n) in
  if rvr_term response >? _current_term n then
    step_down (rvr_term response);;;
    modify (with_votes_received ∅)
  else if decide (_state n ≠ CANDIDATE) then ret tt
  else if rvr_vote_granted response then
    modify (λ n, with_votes_received ({[peer_id]} ∪ _votes_received n) n);;;
    _check_vote_count
  else ret tt.

Definition request_vote (request : RequestVoteRequest) : M t RequestVoteResponse :=
  let* last_log_index := read _last_log_index in
  let* last_log_term := read _last_log_term in
  let* n := read (λ n, n) in
  (if rv_term request >? _current_term n then
     step_down (rv_term request);;;
     modify (with_votes_received ∅);;;
     _save_meta
   else ret tt);;;
  let* n := read (λ n, n) in
  let answer granted := {| rvr_term := _current_term n; rvr_vote_granted := granted |} in
  if rv_term request <? _current_term n then ret (answer false)
  else
  let can_vote := match _voted_for n with
                  | None => true
                  | Some v => v =? rv_candidate_id request
                  end in
  let log_ok := (rv_last_log_term request >? last_log_term)
                || ((rv_last_log_term request =? last_log_term)
                    && (rv_last_log_index request >=? last_log_index)) in
  if can_vote && log_ok then
    modify (with_voted_for (Some (rv_candidate_id request)));;;
    _save_meta;;;
    ret (answer true)
  else ret (answer false).

(** ** Replication, leader's side *)

(** What is copied under the lock for one round of messages. *)
Record round := {
  rd_term : Z; rd_next_index : option Z; rd_log : list LogEntry; rd_leader_commit : Z;
  rd_log_base : Z; rd_last_log_index : Z; rd_log_base_term : Z
}.

Definition replication_round (peer_id : Z) (n : t) : round :=
  {| rd_term := _current_term n; rd_next_index := _next_index n !! peer_id; rd_log := _log n;
     rd_leader_commit := _commit_index n; rd_log_base := _last_included_index n;
     rd_last_log_index := _last_log_index n; rd_log_base_term := _last_included_term n |}.

Definition _send_heartbeats (n : t) : list (Z * round) :=
  if _shutdown_flag n then []
  else if decide (_state n ≠ LEADER) then []
  else map (λ p, (p, replication_round p n)) (_peers n).

(** [_replicate]: whether the peer needs the snapshot. *)
Definition needs_snapshot (r : round) : bool :=
  (rd_log_base r >? 0)
  && match rd_next_index r with None => true | Some i => i <=? rd_log_base r end.

(** [_append_entries], up to the message. *)
Definition append_request (node_id : Z) (r : round) : option AppendEntriesRequest :=
  let next_index := default (rd_last_log_index r + 1) (rd_next_index r) in
  if next_index <=? rd_log_base r then None
  else
  let prev_log_index := next_index - 1 in
  let prev_log_term := match _entry_in (rd_log r) (rd_log_base r) prev_log_index with
                       | Some e => le_term e
                       | None => if prev_log_index =? rd_log_base r then rd_log_base_term r else 0
                       end in
  let entries := if prev_log_index <? rd_last_log_index r
                 then filter (λ e, prev_log_index < le_index e) (rd_log r) else [] in
  Some {| ae_term := rd_term r; ae_leader_id := node_id; ae_prev_log_index := prev_log_index;
          ae_prev_log_term := prev_log_term; ae_entries := entries;
          ae_leader_commit := rd_leader_commit r |}.

(** A peer that took what it was sent, up to [index]. *)
Definition acknowledged (peer_id index : Z) : M t unit :=
  modify (λ n, with_next_index (<[peer_id := index + 1]> (_next_index n)) n);;;
  modify (λ n, with_match_index (<[peer_id := index]> (_match_index n)) n);;;
  _update_commit_index.

(** A peer that refused: try one entry earlier. *)
Definition backed_off (peer_id : Z) : M t unit :=
  modify (λ n, with_next_index
    (<[peer_id := Z.max 1 (default 1 (_next_index n !! peer_id) - 1)]> (_next_index n)) n).

(** [_append_entries], from the response on; [None] is no answer for the caller. *)
Definition append_response (peer_id : Z) (response : AppendEntriesResponse)
    : M t (option AppendEntriesResponse) :=
  let* n := read (λ n, n) in
  if aer_term response >? _current_term n then step_down (aer_term response);;; ret None
  else if decide (_state n ≠ LEADER) then ret None
  else
    (if aer_success response then acknowledged peer_id (aer_match_index response)
     else backed_off peer_id);;;
    ret (Some response).

(** [_install_snapshot], up to the message. *)
Definition snapshot_request (term : Z) (n : t) : result (option InstallSnapshotRequest) :=
  if _shutdown_flag n then Ok None
  else match _storage n with
  | None => Ok None
  | Some r =>
      let? snapshot := load_snapshot r in
      match snapshot with
      | None => Ok None
      | Some (index, snapshot_term, data) =>
          Ok (Some {| is_term := term; is_leader_id := _node_id n;
                      is_last_included_index := index; is_last_included_term := snapshot_term;
                      is_data := data |})
      end
  end.

(** [_install_snapshot], from the response on, for a snapshot up to [index]. *)
Definition snapshot_response (peer_id index : Z) (response : InstallSnapshotResponse)
    : M t (option InstallSnapshotResponse) :=
  let* n := read (λ n, n) in
  if isr_term response >? _current_term n then step_down (isr_term response);;; ret None
  else if decide (_state n ≠ LEADER) then ret None
  else
    (if isr_success response then acknowledged peer_id index else backed_off peer_id);;;
    ret (Some response).

(** ** Replication, follower's side *)

(** The opening of both handlers: a later term is adopted, and saved only further down. *)
Definition adopt_term (term : Z) : M t bool :=
  let* n := read (λ n, n) in
  if term >? _current_term n then
    modify (with_current_term term);;;
    modify (with_state FOLLOWER);;;
    modify (with_voted_for None);;;
    modify (with_votes_received ∅);;;
    ret true
  else ret false.

Definition save_if (term_changed : bool) : M t unit := if term_changed then _save_meta else ret tt.

(** A message of this term's leader. *)
Definition follow (leader_id : Z) : M t unit :=
  let* n := read (λ n, n) in
  (if decide (_state n ≠ FOLLOWER) then
     modify (with_state FOLLOWER);;; modify (with_votes_received ∅)
   else ret tt);;;
  modify (with_leader_id (Some leader_id)).

Definition take_entry (entry : LogEntry) : M t unit :=
  let* n := read (λ n, n) in
  if le_index entry <=? _last_included_index n then ret tt
  else match _entry_at (le_index entry) n with
  | Some existing =>
      if le_term existing =? le_term entry then ret tt
      else
        modify (with_log (take (Z.to_nat (le_index entry - _last_included_index n - 1)) (_log n)));;;
        _save_log_truncate (le_index entry);;;
        modify (λ n, with_commit_index (Z.min (_commit_index n) (_last_log_index n)) n);;;
        modify (λ n, with_last_applied (Z.min (_last_applied n) (_commit_index n)) n);;;
        modify (λ n, with_log (_log n ++ [entry]) n);;;
        _save_log_entry entry
  | None =>
      modify (λ n, with_log (_log n ++ [entry]) n);;;
      _save_log_entry entry
  end.

Fixpoint take_entries (entries : list LogEntry) : M t unit :=
  match entries with
  | [] => ret tt
  | e :: entries => take_entry e;;; take_entries entries
  end.

(** Whether the entry before the new ones is the one the leader has there. *)
Definition prev_ok (request : AppendEntriesRequest) (n : t) : bool :=
  (ae_prev_log_index request <=? _last_log_index n)
  && match _entry_at (ae_prev_log_index request) n with
     | None => negb ((ae_prev_log_index request =? _last_included_index n)
                     && negb (ae_prev_log_term request =? _last_included_term n))
     | Some e => le_term e =? ae_prev_log_term request
     end.

Definition append_entries (request : AppendEntriesRequest) : M t AppendEntriesResponse :=
  let* term_changed := adopt_term (ae_term request) in
  let* n := read (λ n, n) in
  let refuse := {| aer_term := _current_term n; aer_success := false; aer_match_index := 0 |} in
  if ae_term request <? _current_term n then save_if term_changed;;; ret refuse
  else
    follow (ae_leader_id request);;;
    let* ok := read (prev_ok request) in
    if negb ok then save_if term_changed;;; ret refuse
    else
      take_entries (ae_entries request);;;
      save_if term_changed;;;
      let* match_index := read _last_log_index in
      let* n := read (λ n, n) in
      (if ae_leader_commit request >? _commit_index n then
         modify (λ n, with_commit_index (Z.min (ae_leader_commit request) (_last_log_index n)) n);;;
         _save_commit_index;;;
         _apply_committed_entries
       else ret tt);;;
      let* term := read _current_term in
      ret {| aer_term := term; aer_success := true; aer_match_index := match_index |}.

Definition restore_machine (data : bytes) : M t unit := λ n,
  let '(s, r) := sm_restore data (_state_machine n) in (with_state_machine s n, r).

Definition install_snapshot (request : InstallSnapshotRequest) : M t InstallSnapshotResponse :=
  let* term_changed := adopt_term (is_term request) in
  let* n := read (λ n, n) in
  let answer ok := {| isr_term := _current_term n; isr_success := ok |} in
  if is_term request <? _current_term n then save_if term_changed;;; ret (answer false)
  else
    follow (is_leader_id request);;;
    save_if term_changed;;;
    let* n := read (λ n, n) in
    if is_last_included_index request <=? _last_applied n then ret (answer true)
    else
      restore_machine (is_data request);;;
      modify (λ n, with_log (drop_prefix (is_last_included_index request) (_log n)) n);;;
      on_storage (λ _, save_snapshot (is_last_included_index request)
                         (is_last_included_term request) (is_data request));;;
      on_storage (λ _, compact_log (is_last_included_index request));;;
      modify (with_included (is_last_included_index request) (is_last_included_term request));;;
      modify (with_last_applied (is_last_included_index request));;;
      modify (λ n, with_commit_index (Z.max (_commit_index n) (_last_applied n)) n);;;
      _save_commit_index;;;
      ret (answer true).

(** ** Starting from storage *)

Definition _load_from_storage : M t unit := λ n,
  match _storage n with
  | None => (n, Ok tt)
  | Some r =>
      (let* meta := reads (λ _, load_meta r) in
       modify (with_current_term meta.1);;;
       modify (with_voted_for meta.2);;;
       let* log := reads (λ _, load_log r) in
       modify (with_log log);;;
       let* snapshot := reads (λ _, load_snapshot r) in
       match snapshot with
       | Some (index, term, data) =>
           restore_machine data;;;
           modify (with_included index term);;;
           modify (with_last_applied index);;;
           modify (λ n, with_log (drop_prefix index (_log n)) n)
       | None => ret tt
       end;;;
       let* commit := reads (λ _, load_commit_index r) in
       modify (λ n, with_commit_index
                 (Z.max (Z.min commit (_last_log_index n)) (_last_applied n)) n);;;
       _apply_committed_entries) n
  end.

(** ** Proposals *)

(** Admission; the proposal counts as under way from here on. *)
Definition propose_admit (command : bytes) : M t (option ApplyResult) :=
  let* n := read (λ n, n) in
  if decide (_state n ≠ LEADER) then ret (Some (apply_failure ErrorCode.ERR_NOT_LEADER))
  else
  let* adds := reads (λ _, if _writes_frozen n then writes_new_data command else Ok false) in
  if (adds : bool) then ret (Some (apply_failure (FREEZE_REFUSALS (_freeze_reason n))))
  else
    modify (with_proposes (_proposes n + 1));;;
    ret None.

(** [_propose_command], up to the wait: the term and the index to wait for. *)
Definition propose_append (command : bytes) : M t (ApplyResult + Z * Z) :=
  let* n := read (λ n, n) in
  if decide (_state n ≠ LEADER) then ret (inl (apply_failure ErrorCode.ERR_NOT_LEADER))
  else
    let* e := append_own command in
    ret (inr (_current_term n, le_index e)).

Definition with_index (r : ApplyResult) (index : Z) : ApplyResult :=
  {| ar_success := ar_success r; ar_error_code := ar_error_code r; ar_data := ar_data r;
     ar_index := Some index |}.

(** What a proposal that wakes up answers; [None]: it goes on waiting. *)
Definition propose_poll (entry_term entry_index : Z) (timed_out : bool) (n : t)
    : option ApplyResult :=
  if _commit_index n <? entry_index then
    if bool_decide (_state n ≠ LEADER) || negb (_current_term n =? entry_term)
    then Some (apply_failure ErrorCode.ERR_LEADERSHIP_LOST)
    else if timed_out then Some (apply_failure ErrorCode.ERR_TIMEOUT)
    else None
  else
  if match _entry_at entry_index n with
     | Some e => negb (le_term e =? entry_term)
     | None => false
     end
  then Some (apply_failure ErrorCode.ERR_ENTRY_OVERWRITTEN)
  else match d_get (_apply_results n) entry_index with
       | Some r => Some (with_index r entry_index)
       | None => Some (with_index (apply_success None) entry_index)
       end.

Definition propose_done : M t unit := modify (λ n, with_proposes (_proposes n - 1) n).

Definition has_committed_in_its_own_term (n : t) : bool :=
  bool_decide (_state n = LEADER)
  && match _entry_at (_commit_index n) n with
     | Some e => le_term e =? _current_term n
     | None => false
     end.

Definition freeze_writes (reason : string) : M t unit := modify (with_freeze true reason).
Definition resume_writes : M t unit := modify (λ n, with_freeze false (_freeze_reason n) n).
(** [wait_for_writes_to_drain], when it wakes up. *)
Definition writes_drained (n : t) : bool := _proposes n =? 0.

(** ** Reads *)

(** The acknowledgements of a round: [rpc] is [_replicate] to a peer, with whatever else
    happened to this node while it was under way. *)
Fixpoint collect_acks (rpc : Z → t → t * option (bool * Z)) (current_term : Z) (peers : list Z)
    (acks : Z) : M t Z :=
  match peers with
  | [] => ret acks
  | p :: peers => λ n,
      let '(n', response) := rpc p n in
      let acks := match response with
                  | Some (success, term) =>
                      if success && (term =? current_term) then acks + 1 else acks
                  | None => acks
                  end in
      collect_acks rpc current_term peers acks n'
  end.

(** [None]: the read is refused as "not the leader". *)
Definition _read_index (rpc : Z → t → t * option (bool * Z)) : M t (option Z) :=
  let* n := read (λ n, n) in
  if decide (_state n ≠ LEADER) then ret None
  else
  let current_term := _current_term n in
  match _peers n with
  | [] => ret (Some (_commit_index n))
  | peers =>
      let* acks := collect_acks rpc current_term peers 1 in
      let* n := read (λ n, n) in
      if bool_decide (_state n ≠ LEADER) || negb (_current_term n =? current_term) then ret None
      else if acks <? majority n then ret None
      else _update_commit_index;;; let* n := read (λ n, n) in ret (Some (_commit_index n))
  end.

(** [get], after the wait for [read_index] to be applied came to its end. *)
Definition get_finish (own_handshake : bool) (read_index : Z) (key : bytes)
    (timestamp : option Z) (n : t) : result ReadResult :=
  if _last_applied n <? read_index then Ok (read_failure ErrorCode.ERR_TIMEOUT)
  else if own_handshake && bool_decide (_state n ≠ LEADER)
  then Ok (read_failure ErrorCode.ERR_NOT_LEADER)
  else
    let? r := sm_get key timestamp (_state_machine n) in
    Ok {| rr_success := rr_success r; rr_value := rr_value r; rr_commit_ts := rr_commit_ts r;
          rr_error_code := rr_error_code r; rr_read_index := Some read_index |}.

(** [get]: [wait] is what happens to this node until it has applied the index or the time is
    up. *)
Definition get (rpc : Z → t → t * option (bool * Z)) (wait : t → t) (key : bytes)
    (timestamp read_index : option Z) : M t ReadResult :=
  let* index := match read_index with
                | Some i => ret (Some i)
                | None => _read_index rpc
                end in
  match index with
  | None => ret (read_failure ErrorCode.ERR_NOT_LEADER)
  | Some i =>
      modify wait;;;
      reads (get_finish (bool_decide (read_index = None)) i key timestamp)
  end.

Definition scan_versions (rpc : Z → t → t * option (bool * Z)) (wait : t → t)
    (start_key end_key : bytes) (timestamp read_index : option Z)
    : M t (list (bytes * pyval * Z)) :=
  let* index := match read_index with
                | Some i => ret (Some i)
                | None => _read_index rpc
                end in
  match index with
  | None => raise (ScanRefused ErrorCode.ERR_NOT_LEADER None None)
  | Some i =>
      modify wait;;;
      let* n := read (λ n, n) in
      if _last_applied n <? i then raise (ScanRefused ErrorCode.ERR_TIMEOUT None None)
      else if bool_decide (read_index = None) && bool_decide (_state n ≠ LEADER)
      then raise (ScanRefused ErrorCode.ERR_NOT_LEADER None None)
      else reads (λ n, sm_scan_versions start_key end_key timestamp (_state_machine n))
  end.

Definition scan (rpc : Z → t → t * option (bool * Z)) (wait : t → t)
    (start_key end_key : bytes) (timestamp read_index : option Z)
    : M t (list (bytes * pyval)) :=
  let* rows := scan_versions rpc wait start_key end_key timestamp read_index in
  ret (map fst rows).

Definition shutdown : M t unit :=
  modify (with_state FOLLOWER);;; modify (with_shutdown_flag true).

End node.
Arguments t : clear implicits.
End MemoryRaftNode.
