(* ===== verification/RaftNodeFacts.v ===== *)
(** One Raft node over any sequence of events: the log and its durable copy stay in step,
    a vote is never taken back within a term, not by a restart either, applying follows the
    log, and only a quorum of the current term moves the commit index. *)

From Stdlib Require Import ZArith Lia.
From S2P Require Import Prelude Bytes PyVal StateMachine Dict RaftStorage RaftNode.
Import MemoryRaftNode.

(** The plain steps of a run that returned. *)
Ltac mpure :=
  repeat match goal with
  | H : modify _ _ = (_, Ok _) |- _ => injection H as <- <-
  | H : read _ _ = (_, Ok _) |- _ => injection H as <- <-
  | H : ret _ _ = (_, Ok _) |- _ => injection H as <- <-
  | H : _forget_leader _ = (_, Ok _) |- _ => injection H as <- <-
  | H : reads (λ _, Ok _) _ = (_, Ok _) |- _ => injection H as <- <-
  end.
Ltac mrun_in H := repeat (mstep H; mpure); mpure.

(** Read a field of an updated state; the states themselves are left folded. *)
Ltac px1 f w v n :=
  lazymatch type of n with
  | MemoryRaftNode.t _ _ => first [change (f (w v n)) with (f n) | change (f (w v n)) with v]
  end.
Ltac px1_in f w v n H :=
  lazymatch type of n with
  | MemoryRaftNode.t _ _ => first [change (f (w v n)) with (f n) in H | change (f (w v n)) with v in H]
  end.
Ltac px :=
  repeat match goal with
  | |- context [?f (with_included ?i ?j ?n)] => 
      first [change (f (with_included i j n)) with (f n) | change (f (with_included i j n)) with i
            | change (f (with_included i j n)) with j]
  | |- context [?f (?w ?v ?n)] => px1 f w v n
  end.
Ltac px_in H :=
  repeat match type of H with
  | context [?f (with_included ?i ?j ?n)] => 
      first [change (f (with_included i j n)) with (f n) in H | change (f (with_included i j n)) with i in H
            | change (f (with_included i j n)) with j in H]
  | context [?f (?w ?v ?n)] => px1_in f w v n H
  end.

(** Facts on the fields of an updated state. *)
Ltac nstate := first [done | by repeat split | px; lia].

Section node.
Context {S R : Type} `{!RaftNode.StateMachine S} `{RaftStorageLaws R} `{!Msgpack}.
Abbreviation node := (MemoryRaftNode.t S R).
Implicit Types (n : node) (d : durable).

(** ** The invariant *)

(** The entries are numbered from the base on, one by one. *)
Definition contiguous (base : Z) (log : list LogEntry) : Prop :=
  ∀ i e, log !! i = Some e → le_index e = base + 1 + Z.of_nat i.

(** The memory of a node against what its storage holds: a vote in memory is on disk, the
    log in memory is the one on disk behind the snapshot. *)
Record node_inv n d : Prop := {
  ni_store : ∃ r, _storage n = Some r ∧ holds r d;
  ni_ballot : (d_term d < _current_term n ∧ _voted_for n = None) ∨
              (d_term d = _current_term n ∧ d_voted d = _voted_for n);
  ni_log : _log n = drop_prefix (_last_included_index n) (d_log d);
  ni_contig : contiguous (_last_included_index n) (_log n);
  ni_disk : Forall (λ e, le_index e ≤ _last_log_index n) (d_log d);
  ni_snap : match d_snapshot d with
            | None => _last_included_index n = 0 ∧ _last_included_term n = 0 ∧ d_log d = _log n
            | Some (i, _, _) => _last_included_index n ≤ i
            end;
  ni_bounds : 0 ≤ _last_included_index n ≤ _last_applied n ∧
              _last_applied n ≤ _commit_index n ≤ _last_log_index n
}.

Lemma contiguous_last base log :
  contiguous base log →
  match last log with Some e => le_index e = base + Z.of_nat (length log) | None => log = [] end.
Proof.
  intros Hc. destruct (last log) as [e|] eqn:Hl; [|by apply last_None].
  rewrite last_lookup in Hl. specialize (Hc _ _ Hl). destruct log; [done|]. cbn [length pred] in *. lia.
Qed.

Lemma last_index n :
  contiguous (_last_included_index n) (_log n) →
  _last_log_index n = _last_included_index n + Z.of_nat (length (_log n)).
Proof.
  intros Hc. unfold _last_log_index. pose proof (contiguous_last _ _ Hc) as Hl.
  destruct (last (_log n)); [done|]. rewrite Hl. cbn. lia.
Qed.

Lemma contiguous_app base log e :
  contiguous base log → le_index e = base + 1 + Z.of_nat (length log) → contiguous base (log ++ [e]).
Proof.
  intros Hc He i x Hx. apply lookup_app_Some in Hx as [Hx|[Hi Hx]]; [by apply Hc|].
  destruct (i - length log)%nat eqn:Hd; [|done]. injection Hx as <-. rewrite He. lia.
Qed.

Lemma contiguous_take base log k : contiguous base log → contiguous base (take k log).
Proof. intros Hc i e He. apply lookup_take_Some in He as [He _]. by apply Hc. Qed.

Lemma filter_all {A} (P : A → Prop) `{!∀ x, Decision (P x)} l : Forall P l → filter P l = l.
Proof. induction 1 as [|x l Hx _ IH]; [done|]. rewrite filter_cons, decide_True by done. by f_equal. Qed.

Lemma filter_no {A} (P : A → Prop) `{!∀ x, Decision (P x)} l : Forall (λ x, ¬ P x) l → filter P l = [].
Proof. induction 1 as [|x l Hx _ IH]; [done|]. by rewrite filter_cons, decide_False by done. Qed.

Lemma Forall_filter_keep {A} (P Q : A → Prop) `{!∀ x, Decision (P x)} l : Forall Q l → Forall Q (filter P l).
Proof. induction 1; [constructor|]. rewrite filter_cons. case_decide; [by constructor|done]. Qed.

Lemma filter_swap {A} (P Q : A → Prop) `{!∀ x, Decision (P x)} `{!∀ x, Decision (Q x)} (l : list A) :
  filter P (filter Q l) = filter Q (filter P l).
Proof. rewrite !list_filter_filter. apply list_filter_iff. tauto. Qed.

(** Dropping by index is dropping a prefix. *)
Lemma drop_prefix_drop log : ∀ base i,
  contiguous base log → base ≤ i → drop_prefix i log = drop (Z.to_nat (i - base)) log.
Proof.
  induction log as [|e log IH]; intros base i Hc Hi; [by rewrite drop_nil|].
  destruct (decide (i = base)) as [->|Hne].
  - rewrite Z.sub_diag. cbn [Z.to_nat drop]. apply filter_all, Forall_lookup.
    intros j x Hx. rewrite (Hc _ _ Hx). lia.
  - assert (le_index e = base + 1) as He by (rewrite (Hc 0%nat e eq_refl); lia).
    unfold drop_prefix in *. rewrite filter_cons, decide_False by lia.
    replace (Z.to_nat (i - base)) with (Datatypes.S (Z.to_nat (i - (base + 1)))) by lia.
    cbn [drop]. apply IH; [|lia]. intros j x Hx. rewrite (Hc (Datatypes.S j) x Hx). lia.
Qed.

Lemma contiguous_drop_prefix base log i :
  contiguous base log → base ≤ i → contiguous i (drop_prefix i log).
Proof.
  intros Hc Hi j e He. rewrite (drop_prefix_drop log base i Hc Hi), lookup_drop in He.
  rewrite (Hc _ _ He). lia.
Qed.

Lemma drop_prefix_twice i j log : j ≤ i → drop_prefix i (drop_prefix j log) = drop_prefix i log.
Proof.
  intros Hij. unfold drop_prefix. rewrite list_filter_filter. apply list_filter_iff.
  intros e. lia.
Qed.

(** The last index after a snapshot up to [i]. *)
Lemma last_index_drop n n' i :
  contiguous (_last_included_index n) (_log n) → _last_included_index n ≤ i →
  _log n' = drop_prefix i (_log n) → _last_included_index n' = i →
  _last_log_index n' = Z.max i (_last_log_index n).
Proof.
  intros Hc Hi Hl Hb. rewrite (last_index n Hc), (last_index n').
  - rewrite Hl, Hb, (drop_prefix_drop _ (_last_included_index n)), length_drop by done. lia.
  - rewrite Hl, Hb. by apply (contiguous_drop_prefix (_last_included_index n)).
Qed.

(** Cutting the log at an index is keeping the entries below it. *)
Lemma filter_take log : ∀ base i,
  contiguous base log → base < i →
  filter (λ e, le_index e < i) log = take (Z.to_nat (i - base - 1)) log.
Proof.
  induction log as [|e log IH]; intros base i Hc Hi; [by rewrite take_nil|].
  assert (le_index e = base + 1) as He by (rewrite (Hc 0%nat e eq_refl); lia).
  assert (contiguous (base + 1) log) as Hc' by (intros j x Hx; rewrite (Hc (Datatypes.S j) x Hx); lia).
  rewrite filter_cons. destruct (decide (i = base + 1)) as [->|Hne].
  - rewrite decide_False by lia. replace (Z.to_nat _) with 0%nat by lia. cbn [take].
    apply filter_no, Forall_lookup. intros j x Hx. rewrite (Hc' _ _ Hx). lia.
  - rewrite decide_True by lia.
    replace (Z.to_nat (i - base - 1)) with (Datatypes.S (Z.to_nat (i - (base + 1) - 1))) by lia.
    cbn [take]. f_equal. apply IH; [done|lia].
Qed.

Lemma entry_in_Some log base i e :
  contiguous base log →
  _entry_in log base i = Some e ↔ base < i ∧ log !! Z.to_nat (i - base - 1) = Some e.
Proof.
  intros Hc. unfold _entry_in. destruct (_ && _) eqn:Hb; zbool.
  - split; [intros He; split; [lia|done]|tauto].
  - split; [done|]. intros [? _]. lia.
  - split; [done|]. intros [? He%lookup_lt_Some]. lia.
Qed.

Lemma entry_in_index log base i e :
  contiguous base log → _entry_in log base i = Some e → le_index e = i.
Proof. intros Hc [Hi He]%entry_in_Some; [|done]. rewrite (Hc _ _ He). lia. Qed.

Lemma entry_in_None log base i :
  contiguous base log → _entry_in log base i = None ↔ i ≤ base ∨ base + Z.of_nat (length log) < i.
Proof.
  intros Hc. unfold _entry_in. destruct (_ && _) eqn:Hb; zbool; [|split; [lia|done]..].
  split; [|lia]. intros He%lookup_ge_None. lia.
Qed.

(** *** Events that leave the log, the storage and the bounds alone *)

(** The parts of the state the invariant is about. *)
Definition same_core n n' : Prop :=
  _storage n' = _storage n ∧ _log n' = _log n ∧ _last_included_index n' = _last_included_index n ∧
  _last_included_term n' = _last_included_term n ∧ _last_applied n' = _last_applied n ∧
  _commit_index n' = _commit_index n.

Lemma core_last_index n n' : same_core n n' → _last_log_index n' = _last_log_index n.
Proof. intros (_&Hl&Hi&_). unfold _last_log_index. by rewrite Hl, Hi. Qed.

Lemma inv_core n n' d :
  node_inv n d → same_core n n' →
  (d_term d < _current_term n' ∧ _voted_for n' = None) ∨
  (d_term d = _current_term n' ∧ d_voted d = _voted_for n') → node_inv n' d.
Proof.
  intros [Hs Ht Hl Hc Hd Hsn Hb] Hcore Ht'. pose proof (core_last_index _ _ Hcore) as Hli.
  destruct Hcore as (E1&E2&E3&E4&E5&E6). split; rewrite ?E1, ?E2, ?E3, ?E4, ?E5, ?E6, ?Hli; done.
Qed.

(** What a step may do to the vote on disk: a later term, or the first vote of this one. *)
Definition ballot_le d d' : Prop :=
  d_term d < d_term d' ∨
  (d_term d = d_term d' ∧ (d_voted d = None ∨ d_voted d = d_voted d')).

Lemma ballot_le_refl d : ballot_le d d.
Proof. right. auto. Qed.
Lemma ballot_le_trans d1 d2 d3 : ballot_le d1 d2 → ballot_le d2 d3 → ballot_le d1 d3.
Proof.
  intros [?|[? H12]] [?|[? H23]]; [left; lia..|]. right. split; [congruence|].
  destruct H12, H23; [auto|auto| |]; [left|right]; congruence.
Qed.

(** A step that is not about votes. *)
Definition no_ballot n d n' d' : Prop :=
  _current_term n' = _current_term n ∧ _voted_for n' = _voted_for n ∧
  d_term d' = d_term d ∧ d_voted d' = d_voted d ∧
  _node_id n' = _node_id n ∧ _peers n' = _peers n ∧
  _votes_received n' = _votes_received n ∧ _state n' = _state n.

Lemma no_ballot_refl n d : no_ballot n d n d.
Proof. repeat split. Qed.
Lemma no_ballot_trans n1 d1 n2 d2 n3 d3 :
  no_ballot n1 d1 n2 d2 → no_ballot n2 d2 n3 d3 → no_ballot n1 d1 n3 d3.
Proof. intros (?&?&?&?&?&?&?&?) (?&?&?&?&?&?&?&?). split_and!; congruence. Qed.

(** A block of a handler that keeps the invariant and the ballot. *)
Definition quiet {A} (m : M node A) : Prop := ∀ n d n' a,
  node_inv n d → m n = (n', Ok a) → ∃ d', node_inv n' d' ∧ no_ballot n d n' d'.

Lemma quiet_bind {A B} (m : M node A) (k : A → M node B) :
  quiet m → (∀ a, quiet (k a)) → quiet (bind m k).
Proof.
  intros Hm Hk n d n' b Hi Hr. mstep Hr. destruct (Hm _ _ _ _ Hi Hm0) as (d1&Hi1&Hb1).
  destruct (Hk _ _ _ _ _ Hi1 Hr) as (d2&Hi2&Hb2). exists d2. split; [done|]. by eapply no_ballot_trans.
Qed.

Lemma quiet_ret {A} (a : A) : quiet (ret a).
Proof. intros n d n' b Hi [= <- <-]. exists d. split; [done|apply no_ballot_refl]. Qed.
Lemma quiet_read {A} (f : node → A) : quiet (read f).
Proof. intros n d n' b Hi [= <- <-]. exists d. split; [done|apply no_ballot_refl]. Qed.

(** The rounds of applying only move the machine, its results and the applied index. *)
Definition applied_frame (k : Z) n n' : Prop := ∃ rs s,
  n' = with_apply_results rs (with_state_machine s (with_last_applied (_last_applied n + k) n)).

Lemma apply_next_frame n : applied_frame 1 n (apply_next n).
Proof.
  unfold apply_next, applied_frame, record_result. set (n1 := with_last_applied _ _).
  assert (Hn1 : ∀ rs s, with_apply_results rs (with_state_machine s n1)
            = with_apply_results rs (with_state_machine s (with_last_applied (_last_applied n + 1) n))) by done.
  destruct (_entry_at _ _) as [e|]; [|exists (_apply_results n), (_state_machine n); by destruct n].
  case_decide; [exists (_apply_results (record_result (_last_applied n1) (apply_success None) n1)),
                 (_state_machine n); by destruct n|].
  destruct (sm_apply _ _) as [s r].
  exists (_apply_results (record_result (_last_applied n1) r n1)), s. by destruct n.
Qed.

Lemma apply_rounds_frame k : ∀ n, applied_frame (Z.of_nat k) n (apply_rounds k n).
Proof.
  induction k as [|k IH]; intros n; cbn [apply_rounds].
  - exists (_apply_results n), (_state_machine n). rewrite Z.add_0_r. by destruct n.
  - destruct (apply_next_frame n) as (rs1&s1&E1). destruct (IH (apply_next n)) as (rs&s&->).
    exists rs, s. rewrite E1. px.
    replace (_last_applied n + 1 + Z.of_nat k) with (_last_applied n + Z.of_nat (Datatypes.S k)) by lia.
    by destruct n.
Qed.

Lemma apply_loop_frame n :
  _last_applied n ≤ _commit_index n →
  ∃ rs s, apply_loop n = with_apply_results rs (with_state_machine s (with_last_applied (_commit_index n) n)).
Proof.
  intros Hle. unfold apply_loop. destruct (apply_rounds_frame (Z.to_nat (_commit_index n - _last_applied n)) n)
    as (rs&s&->). exists rs, s. do 2 f_equal. f_equal. lia.
Qed.

(** A state of the node with the applied index moved up to the commit index. *)
Lemma apply_loop_inv n d : node_inv n d → node_inv (apply_loop n) d ∧ no_ballot n d (apply_loop n) d.
Proof.
  intros [Hs Ht Hl Hc Hd Hsn Hb]. destruct (apply_loop_frame n) as (rs&s&->); [lia|].
  split; [|repeat split]. split; try done. unfold _last_log_index in *. cbn in *. lia.
Qed.

Lemma maybe_snapshot_inv n d :
  node_inv n d → ∃ d', node_inv (_maybe_snapshot n) d' ∧ no_ballot n d (_maybe_snapshot n) d'.
Proof.
  intros Hi. assert (Hsame : ∃ d', node_inv n d' ∧ no_ballot n d n d') by (exists d; split; [done|apply no_ballot_refl]).
  pose proof Hi as [(r&Hs&Hh) Ht Hl Hc Hd Hsn Hb]. unfold _maybe_snapshot. rewrite Hs.
  destruct (_ || _); [done|]. destruct (_entry_at (_last_applied n) n) as [e|] eqn:He; [|done].
  destruct (sm_snapshot _) as [data|x].
  2:{ destruct x; try done. exists d. split; [|repeat split]. by apply (inv_core n). }
  destruct (save_snapshot _ _ _ _) as [r1|] eqn:Hr1; [|done].
  pose proof (save_snapshot_holds _ _ _ _ _ _ Hh Hr1) as Hh1.
  destruct (compact_log _ _) as [r2|] eqn:Hr2.
  2:{ exists (set_snapshot (_last_applied n, le_term e, data) d). split; [|repeat split].
      split; try done; [by exists r1|]. cbn. lia. }
  pose proof (compact_holds _ _ _ _ Hh1 Hr2) as Hh2.
  set (n' := with_included _ _ _). assert (_last_log_index n' = _last_log_index n) as Hlast.
  { rewrite (last_index_drop n n' (_last_applied n)) by (done || lia). lia. }
  eexists. split; [split|].
  - exists r2. split; [done|exact Hh2].
  - done.
  - subst n'. px. change (d_log _) with (drop_prefix (_last_applied n) (d_log d)).
    rewrite Hl, !drop_prefix_twice by lia. done.

  - apply (contiguous_drop_prefix (_last_included_index n)); [done|lia].
  - rewrite Hlast. cbn. by apply Forall_filter_keep.
  - cbn. lia.
  - rewrite Hlast. subst n'. px. lia.
  - repeat split.
Qed.

Lemma quiet_apply : quiet _apply_committed_entries.
Proof.
  intros n d n' a Hi [= <- <-]. destruct (apply_loop_inv n d Hi) as [Hi1 Hb1].
  destruct (maybe_snapshot_inv _ _ Hi1) as (d'&Hi2&Hb2). exists d'. split; [done|]. by eapply no_ballot_trans.
Qed.

(** *** Saving *)

Lemma node_storage_inv n f n' u :
  on_storage f n = (n', Ok u) → ∀ d, node_inv n d →
  ∃ r r', _storage n = Some r ∧ holds r d ∧ f n r = Ok r' ∧ n' = with_storage (Some r') n.
Proof.
  unfold on_storage. intros Hr d [(r&Hs&Hh) _ _ _ _ _ _]. rewrite Hs in Hr.
  destruct (f n r) as [r'|] eqn:Hf; [|done]. injection Hr as <- <-. by exists r, r'.
Qed.

(** The term and vote in memory go to disk, whatever they are. *)
Lemma save_meta_inv n0 n d n' u :
  node_inv n0 d → same_core n0 n → _save_meta n = (n', Ok u) →
  ∃ r', n' = with_storage (Some r') n ∧ node_inv n' (set_meta (_current_term n) (_voted_for n) d).
Proof.
  intros [(r&Hs&Hh) _ Hl Hc Hd Hsn Hb] Hcore Hr. pose proof (core_last_index _ _ Hcore) as Hli.
  destruct Hcore as (E1&E2&E3&E4&E5&E6). unfold _save_meta, on_storage in Hr.
  rewrite E1, Hs in Hr. destruct (save_meta _ _ r) as [r'|] eqn:Hf; [|done]. injection Hr as <- <-.
  exists r'. split; [done|]. pose proof (save_meta_holds _ _ _ _ _ Hh Hf) as Hh'.
  split; px; cbn; rewrite ?E2, ?E3, ?E4, ?E5, ?E6, ?Hli; try done; [by exists r'|by right].
Qed.

Lemma quiet_save_commit : quiet _save_commit_index.
Proof.
  intros n d n' u Hi Hr. destruct (node_storage_inv _ _ _ _ Hr d Hi) as (r&r'&Hs&Hh&Hf&->).
  pose proof (save_commit_holds _ _ _ _ Hh Hf) as Hh'. exists (set_commit (_commit_index n) d).
  split; [|repeat split].
  destruct Hi as [_ Ht Hl Hc Hd Hsn Hb]. split; try done. by exists r'.
Qed.

(** A step of the commit index that stays within the log. *)
Lemma commit_inv n d c :
  node_inv n d → _commit_index n ≤ c ≤ _last_log_index n → node_inv (with_commit_index c n) d.
Proof. intros [Hs Ht Hl Hc Hd Hsn Hb] Hcc. split; try done. unfold _last_log_index in *. cbn. lia. Qed.

Lemma entry_at_bounds n i e :
  contiguous (_last_included_index n) (_log n) → _entry_at i n = Some e →
  le_index e = i ∧ _last_included_index n < i ≤ _last_log_index n.
Proof.
  intros Hc He. split; [by eapply entry_in_index|]. rewrite last_index by done.
  apply entry_in_Some in He as [? Hl]; [|done]. apply lookup_lt_Some in Hl. lia.
Qed.

Lemma quiet_update_commit : quiet _update_commit_index.
Proof.
  intros n d n' u Hi Hr. unfold _update_commit_index in Hr. mrun_in Hr.
  destruct (quorum_index n) as [c|]; [|by apply (quiet_ret tt n d _ _ Hi Hr)].
  destruct (c >? _commit_index n) eqn:Hc; [|by apply (quiet_ret tt n d _ _ Hi Hr)].
  destruct (_entry_at c n) as [e|] eqn:He; [|by apply (quiet_ret tt n d _ _ Hi Hr)].
  destruct (_ =? _); [|by apply (quiet_ret tt n d _ _ Hi Hr)].
  mrun_in Hr. pose proof (entry_at_bounds _ _ _ (ni_contig _ _ Hi) He) as [_ Hb].
  assert (node_inv (with_commit_index c n) d) as Hi1 by (apply commit_inv; [done|]; apply Z.gtb_lt in Hc; lia).
  destruct (quiet_save_commit _ _ _ _ Hi1 Hm) as (d1&Hi2&Hb1).
  destruct (quiet_apply _ _ _ _ Hi2 Hr) as (d2&Hi3&Hb2). exists d2. split; [done|].
  eapply no_ballot_trans; [|exact Hb2]. eapply no_ballot_trans; [|exact Hb1]. repeat split.
Qed.

(** Appending behind the log. *)
Lemma append_inv n d e n' u :
  node_inv n d → le_index e = _last_log_index n + 1 →
  _save_log_entry e (with_log (_log n ++ [e]) n) = (n', Ok u) →
  ∃ d', node_inv n' d' ∧ no_ballot n d n' d' ∧ _last_log_index n' = le_index e ∧
        _last_included_index n' = _last_included_index n ∧ _log n' = _log n ++ [e].
Proof.
  intros Hi He Hr. pose proof Hi as [(r&Hs&Hh) Ht Hl Hc Hd Hsn Hb].
  unfold _save_log_entry, on_storage in Hr. cbn in Hr. rewrite Hs in Hr.
  destruct (append_log_entry e r) as [r'|] eqn:Hf; [|done]. injection Hr as <- <-.
  assert (Forall (λ x, le_index x < le_index e) (d_log d)) as Hlt.
  { eapply Forall_impl; [exact Hd|]. cbn. intros. lia. }
  pose proof (append_holds _ _ _ _ Hh Hlt Hf) as Hh'.
  assert (_last_log_index (with_log (_log n ++ [e]) n) = le_index e) as Hlast.
  { unfold _last_log_index. px. by rewrite last_snoc. }
  exists (set_log (d_log d ++ [e]) d). split_and!; [|repeat split|exact Hlast|done|done].
  split; px; try done.
  - by exists r'.
  - cbn. unfold drop_prefix in *. rewrite filter_app, Hl, filter_cons, decide_True by lia. done.
  - apply contiguous_app; [done|]. rewrite He, last_index by done. lia.
  - cbn. rewrite Hlast. apply Forall_app. split; [|by repeat constructor].
    eapply Forall_impl; [exact Hlt|]. cbn. intros. lia.
  - cbn. destruct (d_snapshot d) as [[[]]|]; [done|]. destruct Hsn as (?&?&->). done.
  - rewrite Hlast. lia.
Qed.

Lemma quiet_append_own c : quiet (append_own c).
Proof.
  intros n d n' e Hi Hr. unfold append_own in Hr. mrun_in Hr.
  apply (append_inv n d) in Hm as (d1&Hi1&Hb1&_); [|done..].
  destruct (quiet_update_commit _ _ _ _ Hi1 Hm0) as (d2&Hi2&Hb2).
  exists d2. split; [done|]. by eapply no_ballot_trans.
Qed.

(** ** What an event does to the ballot and to the node's role *)

(** [G v t]: node [v] gave its vote of term [t] to this node.  A candidate counts such votes
    only, a leader had a majority of them. *)
Definition backed (G : Z → Z → Prop) n : Prop :=
  let voter v := G v (_current_term n) in
  match _state n with
  | FOLLOWER => True
  | CANDIDATE => ∀ v, v ∈ _votes_received n → voter v
  | LEADER => ∃ Q : gset Z, (∀ v, v ∈ Q → voter v) ∧ majority n ≤ Z.of_nat (size Q)
  end.

(** After an event that gave the votes [grants], each a term and a candidate. *)
Record post (G : Z → Z → Prop) n d (grants : list (Z * Z)) n' d' : Prop := {
  po_inv : node_inv n' d';
  po_ballot : ballot_le d d';
  po_grants : Forall (λ g, d_term d' = g.1 ∧ d_voted d' = Some g.2) grants;
  po_id : _node_id n' = _node_id n ∧ _peers n' = _peers n;
  po_backed : backed G n →
    backed (λ v t, G v t ∨ (v = _node_id n ∧ (t, _node_id n) ∈ grants)) n'
}.

Lemma backed_weaken (G G' : Z → Z → Prop) n : (∀ v t, G v t → G' v t) → backed G n → backed G' n.
Proof.
  unfold backed. intros HG. destruct (_state n); [done| |].
  - intros Hv v Hin. auto.
  - intros (Q&HQ&Hm). exists Q. split; [|done]. intros v Hin. auto.
Qed.

(** The parts [backed] reads. *)
Lemma backed_same G n n' :
  _current_term n' = _current_term n → _node_id n' = _node_id n → _peers n' = _peers n →
  _votes_received n' = _votes_received n → _state n' = _state n → backed G n → backed G n'.
Proof. intros E1 E2 E3 E4 E5. unfold backed, majority. by rewrite E1, E3, E4, E5. Qed.

Lemma backed_no_ballot G n d n' d' : no_ballot n d n' d' → backed G n → backed G n'.
Proof. intros (?&?&?&?&?&?&?&?). by apply backed_same. Qed.

Lemma backed_follower G n : _state n = FOLLOWER → backed G n.
Proof. unfold backed. by intros ->. Qed.

(** No vote given. *)
Lemma post_intro G n d n' d' :
  node_inv n' d' → ballot_le d d' → _node_id n' = _node_id n → _peers n' = _peers n →
  (backed G n → backed G n') → post G n d [] n' d'.
Proof.
  intros Hi Hb Hn Hp HG. split; [done..|]. intros Hk. eapply backed_weaken; [|by apply HG]. auto.
Qed.

Lemma post_quiet {A} (m : M node A) G n d n' a :
  quiet m → node_inv n d → m n = (n', Ok a) → ∃ d', post G n d [] n' d'.
Proof.
  intros Hm Hi Hr. destruct (Hm _ _ _ _ Hi Hr) as (d'&Hi'&Hb). exists d'.
  pose proof (backed_no_ballot G _ _ _ _ Hb) as HG. destruct Hb as (?&?&Ht&Hv&?&?&?&?).
  apply post_intro; try done. right. rewrite Ht, Hv. auto.
Qed.

(** A later term without a vote, in memory only. *)
Lemma later_term_inv n d n' :
  node_inv n d → same_core n n' → _current_term n < _current_term n' → _voted_for n' = None →
  node_inv n' d.
Proof.
  intros Hi Hc Ht Hv. apply (inv_core n); [done..|]. left. split; [|done].
  destruct (ni_ballot _ _ Hi) as [[]|[]]; lia.
Qed.

(** Taking the leadership: the no-op is appended, the vote stays. *)
Lemma take_lead_inv n d n' u :
  node_inv n d →
  (modify (with_state LEADER);;; modify (with_leader_id (Some (_node_id n)));;;
   modify (with_votes_received ∅);;; modify reset_progress;;; _append_noop_entry) n = (n', Ok u) →
  ∃ d', node_inv n' d' ∧ _current_term n' = _current_term n ∧ _voted_for n' = _voted_for n ∧
        d_term d' = d_term d ∧ d_voted d' = d_voted d ∧
        _node_id n' = _node_id n ∧ _peers n' = _peers n ∧ _state n' = LEADER.
Proof.
  intros Hi Hr. unfold _append_noop_entry in Hr. mrun_in Hr.
  apply (quiet_append_own _ _ d) in Hm as (d'&Hi'&Hb).
  - exists d'. split; [done|]. destruct Hb as (?&?&?&?&?&?&?&?). done.
  - apply (inv_core n); [done|by repeat split|]. exact (ni_ballot _ _ Hi).
Qed.

Lemma check_vote_count_inv G n d n' u :
  node_inv n d → _check_vote_count n = (n', Ok u) →
  ∃ d', node_inv n' d' ∧ _current_term n' = _current_term n ∧ _voted_for n' = _voted_for n ∧
        d_term d' = d_term d ∧ d_voted d' = d_voted d ∧
        _node_id n' = _node_id n ∧ _peers n' = _peers n ∧ (backed G n → backed G n').
Proof.
  intros Hi Hr. unfold _check_vote_count in Hr. mstep Hr. mpure.
  case_decide as Hs; [injection Hr as <- <-; by exists d|].
  destruct (_ >=? _) eqn:Hm; [|injection Hr as <- <-; by exists d].
  apply (take_lead_inv n d) in Hr as (d'&Hi'&Ht&Hv&Hd1&Hd2&Hid&Hp&Hs'); [|done].
  exists d'. split_and!; [done..|]. unfold backed, majority.
  rewrite Hs, Hs', Hp, Ht. intros HQ. exists (_votes_received n). split; [done|].
  unfold majority in Hm. lia.
Qed.

(** The vote a campaign gives: the node's own, for the term it opens. *)
Definition own_vote n n' : list (Z * Z) :=
  if decide (_current_term n' = _current_term n) then [] else [(_current_term n', _node_id n)].

Lemma start_election_post G n d n' u :
  node_inv n d → _start_election n = (n', Ok u) → ∃ d', post G n d (own_vote n n') n' d'.
Proof.
  intros Hi Hr. unfold _start_election in Hr. mstep Hr. mpure.
  assert ((n, Ok tt) = (n', Ok u) → ∃ d', post G n d (own_vote n n') n' d') as Hsame.
  { intros [= <- <-]. exists d. unfold own_vote. rewrite decide_True by done.
    apply post_intro; try done. apply ballot_le_refl. }
  destruct (_shutdown_flag n); [by apply Hsame|]. case_decide; [by apply Hsame|]. clear Hsame.
  mrun_in Hr. set (n1 := with_votes_received _ _) in Hm.
  apply (save_meta_inv n n1 d) in Hm as (r&->&Hi1); [|done|by repeat split].
  set (G' := λ v t, G v t ∨ (v = _node_id n ∧ t = _current_term n + 1)).
  destruct (check_vote_count_inv G' _ _ _ _ Hi1 Hr) as (d'&Hi'&Ht&Hv&Hdt&Hdv&Hid&Hp&HG).
  change (_current_term n' = _current_term n + 1) in Ht. cbn in Hdt, Hdv. exists d'.
  unfold own_vote. rewrite decide_False, Ht by lia. split; [done| | |done|].
  - left. rewrite Hdt. destruct (ni_ballot _ _ Hi) as [[]|[]]; lia.
  - repeat constructor; cbn; congruence.
  - intros _. eapply backed_weaken; [|apply HG].
    + intros v t [?|[-> ->]]; [by left|]. right. split; [done|]. by left.
    + intros v Hv'. assert (v = _node_id n) as -> by set_solver. by right.
Qed.

Lemma vote_response_post G n d p r n' u :
  node_inv n d → (rvr_vote_granted r = true → G p (_current_term n)) →
  vote_response p r n = (n', Ok u) → ∃ d', post G n d [] n' d'.
Proof.
  intros Hi Hg Hr. unfold vote_response in Hr. mstep Hr. mpure.
  destruct (_ >? _) eqn:Ht.
  { unfold step_down in Hr. mrun_in Hr. mrun_in Hm. exists d. apply post_intro; try done.
    - apply (later_term_inv n); [done|by repeat split|px; lia|done].
    - apply ballot_le_refl. }
  case_decide as Hs.
  { injection Hr as <- <-. exists d. apply post_intro; try done. apply ballot_le_refl. }
  destruct (rvr_vote_granted r).
  2:{ injection Hr as <- <-. exists d. apply post_intro; try done. apply ballot_le_refl. }
  mrun_in Hr. set (n1 := with_votes_received _ _) in Hr.
  assert (node_inv n1 d) as Hi1 by (apply (inv_core n); [done|by repeat split|apply Hi]).
  apply (check_vote_count_inv G _ _ _ _ Hi1) in Hr as (d'&Hi'&_&_&Hdt&Hdv&Hid&Hp&HG).
  exists d'. apply post_intro; try done.
  - right. rewrite Hdt, Hdv. auto.
  - intros Hbk. apply HG. specialize (Hg eq_refl). unfold backed in Hbk |- *.
    change (_state n1) with (_state n). rewrite Hs in Hbk |- *. intros v Hv.
    change (v ∈ {[p]} ∪ _votes_received n) in Hv. apply elem_of_union in Hv as [->%elem_of_singleton|Hv]; [done|by apply Hbk].
Qed.

Lemma post_refl G n d : node_inv n d → post G n d [] n d.
Proof. intros. apply post_intro; try done. apply ballot_le_refl. Qed.

(** One event after another, the first of which gave no vote. *)
Lemma post_trans G n1 d1 n2 d2 grants n3 d3 :
  post G n1 d1 [] n2 d2 → post G n2 d2 grants n3 d3 → post G n1 d1 grants n3 d3.
Proof.
  intros [Hi1 Hb1 _ [Hn1 Hp1] HG1] [Hi2 Hb2 Hg [Hn2 Hp2] HG2]. split; [done| |done| |].
  - by eapply ballot_le_trans.
  - split; congruence.
  - intros Hbk. rewrite <-Hn1. apply HG2. eapply backed_weaken; [|by apply HG1].
    intros v t [?|[_ []%elem_of_nil]]; done.
Qed.

(** A later term is adopted, the vote of it is free, and this goes to disk. *)
Lemma save_later_term_post G n n1 d n' u :
  node_inv n d → same_core n n1 → _current_term n < _current_term n1 → _voted_for n1 = None →
  _state n1 = FOLLOWER → _node_id n1 = _node_id n → _peers n1 = _peers n →
  _save_meta n1 = (n', Ok u) → ∃ d', post G n d [] n' d' ∧ _current_term n' = _current_term n1.
Proof.
  intros Hi Hc Ht Hv Hs Hid Hp Hr. apply (save_meta_inv n n1 d) in Hr as (r&->&Hi1); [|done..].
  eexists. split; [|done]. apply post_intro; [done| |done|done|].
  - left. cbn. destruct (ni_ballot _ _ Hi) as [[]|[]]; lia.
  - intros _. by apply backed_follower.
Qed.

(** The vote of the current term is given, to disk before it is answered. *)
Lemma give_vote_post G n d c n' u :
  node_inv n d → _voted_for n = None ∨ _voted_for n = Some c →
  (modify (with_voted_for (Some c));;; _save_meta) n = (n', Ok u) →
  ∃ d', post G n d [(_current_term n, c)] n' d'.
Proof.
  intros Hi Hv Hr. mrun_in Hr. apply (save_meta_inv n _ d) in Hr as (r&->&Hi1); [|done|by repeat split].
  exists (set_meta (_current_term n) (Some c) d). split; [done| | |done|].
  - destruct (ni_ballot _ _ Hi) as [[]|[Ht Hd]]; [by left|]. right. cbn. rewrite Hd. auto.
  - by repeat constructor.
  - intros Hbk. eapply backed_weaken; [|exact Hbk]. auto.
Qed.

Definition granted_vote (request : RequestVoteRequest) (r : RequestVoteResponse) : list (Z * Z) :=
  if rvr_vote_granted r then [(rv_term request, rv_candidate_id request)] else [].

Lemma request_vote_post G n d req n' r :
  node_inv n d → request_vote req n = (n', Ok r) →
  ∃ d', post G n d (granted_vote req r) n' d' ∧ (rvr_vote_granted r = true → rvr_term r = rv_term req).
Proof.
  intros Hi Hr. unfold request_vote in Hr. do 3 (mstep Hr; mpure). mstep Hr.
  assert (∃ d1, post G n d [] n0 d1 ∧ rv_term req ≤ _current_term n0) as (d1&Hp1&Hle).
  { destruct (_ >? _) eqn:Ht.
    - unfold step_down in Hm. mrun_in Hm. mrun_in Hm0.
      apply (save_later_term_post G n _ d) in Hm as (d'&Hp&Hcur); [|nstate..].
      exists d'. split; [done|]. px_in Hcur. lia.
    - injection Hm as <- <-. exists d. split; [by apply post_refl|lia]. }
  mstep Hr. mpure. destruct (_ <? _) eqn:Hlt; [injection Hr as <- <-; exists d1; by split|].
  assert (rv_term req = _current_term n0) as Heq by (zbool; lia).
  destruct (_ && _) eqn:Hok; [|injection Hr as <- <-; exists d1; by split].
  apply andb_true_iff in Hok as [Hok _]. rewrite <-(bind_assoc _ (λ _, _save_meta)) in Hr.
  mstep Hr. injection Hr as <- <-.
  destruct (give_vote_post G n0 d1 (rv_candidate_id req) n1 a0) as (d2&Hp2); [apply Hp1| |done|].
  { destruct (_voted_for n0); [|by left]. right. zbool. congruence. }
  exists d2. split; [|done]. eapply post_trans; [done|]. unfold granted_vote. cbn. by rewrite Heq.
Qed.

(** *** Replication *)

(** An update of the fields neither the invariant nor [backed] reads. *)
Lemma post_idle G n d n' :
  node_inv n d → same_core n n' → _current_term n' = _current_term n → _voted_for n' = _voted_for n →
  _node_id n' = _node_id n → _peers n' = _peers n → _votes_received n' = _votes_received n →
  _state n' = _state n → post G n d [] n' d.
Proof.
  intros Hi Hc Ht Hv Hid Hp Hvs Hs. apply post_intro; [|apply ballot_le_refl|done|done|].
  - apply (inv_core n); [done..|]. rewrite Ht, Hv. apply Hi.
  - by apply backed_same.
Qed.

(** Stepping down to a follower of this or a later term. *)
Lemma post_follower G n d n' :
  node_inv n d → same_core n n' → _node_id n' = _node_id n → _peers n' = _peers n → _state n' = FOLLOWER →
  (_current_term n' = _current_term n ∧ _voted_for n' = _voted_for n) ∨
  (_current_term n < _current_term n' ∧ _voted_for n' = None) → post G n d [] n' d.
Proof.
  intros Hi Hc Hid Hp Hs Hb. apply post_intro; [|apply ballot_le_refl|done|done|].
  - destruct Hb as [[Ht Hv]|[Ht Hv]]; [|by apply (later_term_inv n)].
    apply (inv_core n); [done..|]. rewrite Ht, Hv. apply Hi.
  - intros _. by apply backed_follower.
Qed.

Lemma post_save_meta G n d n' u :
  node_inv n d → _save_meta n = (n', Ok u) → ∃ d', post G n d [] n' d'.
Proof.
  intros Hi Hr. apply (save_meta_inv n n d) in Hr as (r&->&Hi1); [|nstate..].
  eexists. apply post_intro; try done.
  destruct (ni_ballot _ _ Hi) as [[]|[]]; [by left|]. right. cbn. auto.
Qed.

Lemma save_if_post G b n d n' u : node_inv n d → save_if b n = (n', Ok u) → ∃ d', post G n d [] n' d'.
Proof.
  intros Hi Hr. destruct b; [by eapply post_save_meta|]. injection Hr as <- <-. exists d. by apply post_refl.
Qed.

Lemma step_down_post G n d t n' u :
  node_inv n d → t > _current_term n → step_down t n = (n', Ok u) → post G n d [] n' d.
Proof.
  intros Hi Ht Hr. unfold step_down in Hr. mrun_in Hr. apply post_follower; try nstate.
  right. split; nstate.
Qed.

Lemma acknowledged_post G p i n d n' u :
  node_inv n d → acknowledged p i n = (n', Ok u) → ∃ d', post G n d [] n' d'.
Proof.
  intros Hi Hr. unfold acknowledged in Hr. mrun_in Hr. set (n1 := with_match_index _ _) in Hr.
  assert (post G n d [] n1 d) as Hp by (apply post_idle; nstate).
  destruct (post_quiet _ G _ _ _ _ quiet_update_commit (po_inv _ _ _ _ _ _ Hp) Hr) as (d'&Hp').
  exists d'. by eapply post_trans.
Qed.

Lemma peer_answer_post G p i (ok : bool) n d n' u :
  node_inv n d → (if ok then acknowledged p i else backed_off p) n = (n', Ok u) →
  ∃ d', post G n d [] n' d'.
Proof.
  intros Hi Hr. destruct ok; [by eapply acknowledged_post|]. injection Hr as <- <-.
  exists d. apply post_idle; nstate.
Qed.

Lemma append_response_post G p r n d n' o :
  node_inv n d → append_response p r n = (n', Ok o) → ∃ d', post G n d [] n' d'.
Proof.
  intros Hi Hr. unfold append_response in Hr. mstep Hr. mpure. destruct (_ >? _) eqn:Ht.
  { mstep Hr. injection Hr as <- <-. exists d. eapply step_down_post; [done| |done]. lia. }
  case_decide; [injection Hr as <- <-; exists d; by apply post_refl|].
  mstep Hr. injection Hr as <- <-. by eapply peer_answer_post.
Qed.

Lemma snapshot_response_post G p i r n d n' o :
  node_inv n d → snapshot_response p i r n = (n', Ok o) → ∃ d', post G n d [] n' d'.
Proof.
  intros Hi Hr. unfold snapshot_response in Hr. mstep Hr. mpure. destruct (_ >? _) eqn:Ht.
  { mstep Hr. injection Hr as <- <-. exists d. eapply step_down_post; [done| |done]. lia. }
  case_decide; [injection Hr as <- <-; exists d; by apply post_refl|].
  mstep Hr. injection Hr as <- <-. by eapply peer_answer_post.
Qed.

Lemma adopt_term_post G t n d n' b :
  node_inv n d → adopt_term t n = (n', Ok b) → post G n d [] n' d.
Proof.
  intros Hi Hr. unfold adopt_term in Hr. mstep Hr. mpure. destruct (_ >? _) eqn:Ht.
  - mrun_in Hr. apply post_follower; try nstate. right. split; nstate.
  - injection Hr as <- <-. by apply post_refl.
Qed.

Lemma follow_post G l n d n' u : node_inv n d → follow l n = (n', Ok u) → post G n d [] n' d.
Proof.
  intros Hi Hr. unfold follow in Hr. mstep Hr. mpure. mstep Hr. mpure. case_decide.
  - mrun_in Hm. apply post_follower; try nstate. by left.
  - injection Hm as <- <-. apply post_idle; nstate.
Qed.

(** Cutting the log at an entry in conflict, and at what was committed of it. *)
Lemma cut_inv n d i n1 u :
  node_inv n d → _last_included_index n < i ≤ _last_log_index n →
  _save_log_truncate i (with_log (take (Z.to_nat (i - _last_included_index n - 1)) (_log n)) n) = (n1, Ok u) →
  let n2 := with_commit_index (Z.min (_commit_index n1) (_last_log_index n1)) n1 in
  let n' := with_last_applied (Z.min (_last_applied n2) (_commit_index n2)) n2 in
  ∃ d', node_inv n' d' ∧ no_ballot n d n' d' ∧ _last_log_index n' = i - 1.
Proof.
  intros [(r&Hs&Hh) Ht Hl Hc Hd Hsn Hb] [Hi Hile] Hm.
  set (n0 := with_log _ _) in Hm. unfold _save_log_truncate, on_storage in Hm.
  change (_storage n0) with (_storage n) in Hm. rewrite Hs in Hm.
  destruct (truncate_log i r) as [r'|] eqn:Hf; [|done]. injection Hm as <- <-.
  pose proof (truncate_holds _ _ _ _ Hh Hf) as Hh'.
  assert (contiguous (_last_included_index n) (_log n0)) as Hc1 by (by apply contiguous_take).
  assert (_last_log_index n0 = i - 1) as Hlast.
  { rewrite (last_index n0) by done. subst n0. px. rewrite length_take.
    rewrite last_index in Hile by done. lia. }
  intros n2 n'. subst n' n2. eexists. split_and!; [| |exact Hlast]; [split; px|].
  - by exists r'.
  - done.
  - subst n0. px. cbn. unfold drop_prefix in *. rewrite filter_swap, <-Hl.
    symmetry. by apply filter_take.
  - done.
  - change (_last_log_index (with_last_applied _ _)) with (_last_log_index n0). rewrite Hlast. cbn.
    apply list.Forall_forall. intros e [? _]%list_elem_of_filter. lia.
  - subst n0. px. cbn. destruct (d_snapshot d) as [[[]]|]; [done|]. destruct Hsn as (?&?&->).
    split_and!; [done|done|]. by apply filter_take.
  - change (_last_log_index (with_last_applied _ _)) with (_last_log_index n0).
    change (_last_log_index (with_storage _ _)) with (_last_log_index n0). rewrite Hlast.
    subst n0. px. lia.
  - repeat split.
Qed.

Lemma take_entry_inv e n d n' u :
  node_inv n d → le_index e ≤ _last_log_index n + 1 → take_entry e n = (n', Ok u) →
  ∃ d', node_inv n' d' ∧ no_ballot n d n' d' ∧ le_index e ≤ _last_log_index n'.
Proof.
  intros Hi Hle Hr. pose proof (ni_bounds _ _ Hi) as Hb. pose proof (ni_contig _ _ Hi) as Hc.
  assert (le_index e ≤ _last_log_index n → (n, Ok tt) = (n', Ok u) →
    ∃ d', node_inv n' d' ∧ no_ballot n d n' d' ∧ le_index e ≤ _last_log_index n') as Hsame.
  { intros ? [= <- <-]. exists d. split_and!; [done|apply no_ballot_refl|done]. }
  unfold take_entry in Hr. mstep Hr. mpure. destruct (_ <=? _) eqn:Hin; zbool.
  { apply Hsame; [lia|done]. }
  destruct (_entry_at _ n) as [x|] eqn:Hx.
  - destruct (entry_at_bounds _ _ _ Hc Hx) as [Hxi ?].
    destruct (_ =? _); [apply Hsame; [lia|done]|].
    mrun_in Hr. apply (cut_inv n d) in Hm as (d1&Hi1&Hb1&Hl1); [|done|lia].
    destruct (append_inv _ d1 e n' u Hi1) as (d2&Hi2&Hb2&Hl2&_); [lia|exact Hr|].
    exists d2. split_and!; [done|by eapply no_ballot_trans|lia].
  - mrun_in Hr. apply entry_in_None in Hx; [|done]. rewrite <-last_index in Hx by done.
    apply (append_inv _ d) in Hr as (d2&Hi2&Hb2&Hl2&_); [|done|lia].
    exists d2. split_and!; [done|done|lia].
Qed.

Lemma take_entries_inv es : ∀ b n d n' u,
  node_inv n d → contiguous b es → b ≤ _last_log_index n → take_entries es n = (n', Ok u) →
  ∃ d', node_inv n' d' ∧ no_ballot n d n' d'.
Proof.
  induction es as [|e es IH]; intros b n d n' u Hi Hc Hb Hr; cbn [take_entries] in Hr.
  - injection Hr as <- <-. exists d. split; [done|apply no_ballot_refl].
  - mstep Hr. pose proof (Hc 0%nat e eq_refl) as He.
    apply (take_entry_inv _ _ d) in Hm as (d1&Hi1&Hb1&Hl1); [|done|lia].
    apply (IH (b + 1) _ d1) in Hr as (d2&Hi2&Hb2); [|done| |lia].
    + exists d2. split; [done|]. by eapply no_ballot_trans.
    + intros i x Hx. rewrite (Hc (Datatypes.S i) x Hx). lia.
Qed.

(** The commit index follows the leader's. *)
Lemma follow_commit_post G c n d n' u :
  node_inv n d →
  (if c >? _commit_index n then
     modify (λ n, with_commit_index (Z.min c (_last_log_index n)) n);;;
     _save_commit_index;;; _apply_committed_entries
   else ret tt) n = (n', Ok u) → ∃ d', post G n d [] n' d'.
Proof.
  intros Hi Hr. destruct (_ >? _) eqn:Hc; [|injection Hr as <- <-; exists d; by apply post_refl].
  mstep Hr. mpure. set (n1 := with_commit_index _ _) in Hr.
  assert (node_inv n1 d) as Hi1 by (apply commit_inv; [done|]; pose proof (ni_bounds _ _ Hi); lia).
  destruct (post_quiet _ G _ _ _ _ (quiet_bind _ _ quiet_save_commit (λ _, quiet_apply)) Hi1 Hr) as (d'&Hp).
  exists d'. eapply post_trans; [|done]. apply post_intro; try done. apply ballot_le_refl.
Qed.

Lemma append_entries_post G req n d n' r :
  node_inv n d → contiguous (ae_prev_log_index req) (ae_entries req) →
  append_entries req n = (n', Ok r) → ∃ d', post G n d [] n' d'.
Proof.
  intros Hi Hreq Hr. unfold append_entries in Hr. mstep Hr.
  apply (adopt_term_post G _ _ d) in Hm as Hp1; [|done].
  mstep Hr. mpure. destruct (_ <? _).
  { mstep Hr. injection Hr as <- <-. destruct (save_if_post G _ _ _ _ _ (po_inv _ _ _ _ _ _ Hp1) Hm0) as (d'&Hp2).
    exists d'. by eapply post_trans. }
  mstep Hr. apply (follow_post G _ _ d) in Hm0 as Hp2; [|apply Hp1].
  pose proof (post_trans _ _ _ _ _ _ _ _ Hp1 Hp2) as Hp. pose proof (po_inv _ _ _ _ _ _ Hp) as Hi2.
  mstep Hr. mpure. destruct (negb _) eqn:Hok.
  { mstep Hr. injection Hr as <- <-. destruct (save_if_post G _ _ _ _ _ Hi2 Hm1) as (d'&Hp3).
    exists d'. by eapply post_trans. }
  unfold prev_ok in Hok. zbool. mstep Hr.
  apply (take_entries_inv _ (ae_prev_log_index req) _ d) in Hm1 as (d3&Hi3&Hb3); [|done..].
  mstep Hr. destruct (save_if_post G _ _ _ _ _ Hi3 Hm1) as (d4&Hp4).
  do 2 (mstep Hr; mpure). mstep Hr.
  destruct (follow_commit_post G _ _ _ _ _ (po_inv _ _ _ _ _ _ Hp4) Hm2) as (d5&Hp5).
  mstep Hr. mpure. exists d5. eapply post_trans; [done|]. eapply post_trans; [|done].
  eapply post_trans; [|done]. pose proof (backed_no_ballot G _ _ _ _ Hb3).
  destruct Hb3 as (?&?&Ht&Hv&?&?&?&?). apply post_intro; try done. right. rewrite Ht, Hv. auto.
Qed.

(** A snapshot up to [i], beyond what was applied, takes the place of the log up to there. *)
Lemma jump_inv n d n' r i t data c :
  node_inv n d → _last_applied n < i →
  holds r (set_commit c (set_log (drop_prefix i (d_log d)) (set_snapshot (i, t, data) d))) →
  _storage n' = Some r → _log n' = drop_prefix i (_log n) → _last_included_index n' = i →
  _last_applied n' = i → _commit_index n' = Z.max (_commit_index n) i →
  _current_term n' = _current_term n → _voted_for n' = _voted_for n →
  node_inv n' (set_commit c (set_log (drop_prefix i (d_log d)) (set_snapshot (i, t, data) d))).
Proof.
  intros [_ Ht Hl Hc Hd Hsn Hb] Hi Hh Hs Elog Einc Eapp Ecom Eterm Evote.
  assert (_last_log_index n' = Z.max i (_last_log_index n)) as Hlast
    by (apply last_index_drop; (done || lia)).
  split; rewrite ?Elog, ?Einc, ?Eapp, ?Ecom, ?Eterm, ?Evote, ?Hlast; cbn; try done.
  - by exists r.
  - change (filter _ (drop_prefix i (d_log d))) with (drop_prefix i (drop_prefix i (d_log d))).
    rewrite Hl, !drop_prefix_twice by lia. done.
  - apply (contiguous_drop_prefix (_last_included_index n)); [done|lia].
  - apply Forall_filter_keep. eapply Forall_impl; [exact Hd|]. cbn. intros. lia.
  - lia.
Qed.

(** One save of a run. *)
Lemma on_storage_Ok n f n' u r :
  on_storage f n = (n', Ok u) → _storage n = Some r → ∃ r', f n r = Ok r' ∧ n' = with_storage (Some r') n.
Proof.
  unfold on_storage. intros Hr Hs. rewrite Hs in Hr. destruct (f n r) as [r'|]; [|done].
  injection Hr as <- <-. by exists r'.
Qed.

Lemma restore_machine_Ok data n n' u :
  restore_machine data n = (n', Ok u) →
  ∃ s, sm_restore data (_state_machine n) = (s, Ok u) ∧ n' = with_state_machine s n.
Proof. unfold restore_machine. destruct (sm_restore _ _) as [s x]. intros [= <- ->]. eauto. Qed.

Lemma install_snapshot_post G req n d n' r :
  node_inv n d → install_snapshot req n = (n', Ok r) → ∃ d', post G n d [] n' d'.
Proof.
  intros Hi Hr. unfold install_snapshot in Hr. mstep Hr.
  apply (adopt_term_post G _ _ d) in Hm as Hp1; [|done].
  mstep Hr. mpure. destruct (_ <? _).
  { mstep Hr. injection Hr as <- <-. destruct (save_if_post G _ _ _ _ _ (po_inv _ _ _ _ _ _ Hp1) Hm0) as (d'&Hp2).
    exists d'. by eapply post_trans. }
  mstep Hr. apply (follow_post G _ _ d) in Hm0 as Hp2; [|apply Hp1].
  mstep Hr. destruct (save_if_post G _ _ _ _ _ (po_inv _ _ _ _ _ _ Hp2) Hm1) as (d3&Hp3).
  pose proof (post_trans _ _ _ _ _ _ _ _ Hp1 (post_trans _ _ _ _ _ _ _ _ Hp2 Hp3)) as Hp.
  pose proof (po_inv _ _ _ _ _ _ Hp) as Hi3. clear Hp1 Hp2 Hp3 Hm Hm0 Hm1.
  mstep Hr. mpure. destruct (_ <=? _) eqn:Hle; [injection Hr as <- <-; by exists d3|].
  zbool. mstep Hr. apply restore_machine_Ok in Hm as (s&_&->). mrun_in Hr.
  destruct (ni_store _ _ Hi3) as (r0&Hs&Hh).
  apply (on_storage_Ok _ _ _ _ r0) in Hm as (r1&Hr1&->); [|done].
  apply (on_storage_Ok _ _ _ _ r1) in Hm0 as (r2&Hr2&->); [|done].
  apply (on_storage_Ok _ _ _ _ r2) in Hm1 as (r3&Hr3&->); [|done].
  pose proof (save_snapshot_holds _ _ _ _ _ _ Hh Hr1) as Hh1.
  pose proof (compact_holds _ _ _ _ Hh1 Hr2) as Hh2.
  pose proof (save_commit_holds _ _ _ _ Hh2 Hr3) as Hh3.
  set (n4 := with_commit_index _ _) in *. eexists. eapply post_trans; [exact Hp|].
  eapply post_intro; try done.
  - eapply (jump_inv n2 d3 _ r3 (is_last_included_index req)); [done|done|exact Hh3|done..].
  - right. cbn. auto.
Qed.

(** *** Starting again *)

(** A node as a new process builds it on the storage it finds. *)
Definition restart (sm : S) (interval window : Z) n : node :=
  init (_node_id n) (_peers n) sm (_storage n) interval window.

(** The log and the bounds, as they are before the committed entries are applied again. *)
Lemma loaded_inv n0 d n' :
  node_inv n0 d → _storage n' = _storage n0 →
  _current_term n' = d_term d → _voted_for n' = d_voted d →
  _last_included_index n' = match d_snapshot d with Some (i, _, _) => i | None => 0 end →
  (d_snapshot d = None → _last_included_term n' = 0) →
  _log n' = drop_prefix (_last_included_index n') (d_log d) →
  _last_applied n' = _last_included_index n' →
  _commit_index n' = Z.max (Z.min (d_commit d) (_last_log_index n')) (_last_applied n') →
  node_inv n' d ∧ _last_included_index n0 ≤ _last_included_index n' ∧
  Z.min (d_commit d) (_last_log_index n0) ≤ _commit_index n'.
Proof.
  intros [(r&Hs&Hh) Ht Hl Hc Hd Hsn Hb] Es Et Ev Ei Eit El Ea Ec.
  assert (_last_included_index n0 ≤ _last_included_index n') as Hle.
  { rewrite Ei. destruct (d_snapshot d) as [[[i t] data]|]; [done|]. lia. }
  assert (_log n' = drop_prefix (_last_included_index n') (_log n0)) as El'
    by (by rewrite El, Hl, drop_prefix_twice by lia).
  pose proof (last_index_drop n0 n' _ Hc Hle El' eq_refl) as Hlast.
  split_and!; [split; try done|done|lia].
  - exists r. by rewrite Es.
  - right. by rewrite Et, Ev.
  - rewrite El'. by eapply contiguous_drop_prefix.
  - rewrite Hlast. eapply Forall_impl; [exact Hd|]. cbn. intros. lia.
  - destruct (d_snapshot d) as [[[i t] data]|]; [lia|]. split_and!; [done|by apply Eit|].
    destruct Hsn as (Ei0&_&Hd0). rewrite El', Ei, <-Ei0, Hl, drop_prefix_twice by done. congruence.
  - rewrite Ec, Ea. lia.
Qed.

(** Applying keeps the log but for a prefix it takes a snapshot of. *)
Lemma maybe_snapshot_log n :
  _last_included_index n ≤ _last_applied n →
  contiguous (_last_included_index n) (_log n) →
  let n' := _maybe_snapshot n in
  _last_included_index n ≤ _last_included_index n' ≤ _last_applied n ∧
  _log n' = drop_prefix (_last_included_index n') (_log n) ∧
  _commit_index n' = _commit_index n ∧ _last_applied n' = _last_applied n.
Proof.
  intros Hb Hc n'. assert (_log n = drop_prefix (_last_included_index n) (_log n)) as Hl.
  { by rewrite (drop_prefix_drop _ (_last_included_index n)), Z.sub_diag by (done || lia). }
  subst n'. unfold _maybe_snapshot. destruct (_storage n) as [r|]; [|by split_and!].
  destruct (_ || _); [by split_and!|]. destruct (_entry_at _ n) as [e|]; [|by split_and!].
  destruct (sm_snapshot _) as [data|[]]; try by split_and!.
  destruct (save_snapshot _ _ _ _) as [r1|]; [|by split_and!].
  destruct (compact_log _ _) as [r2|]; [|by split_and!]. px. split_and!; try done; lia.
Qed.

(** What a restarted node knows: the vote and the term that were saved, the log it had,
    behind the snapshot, and everything committed is applied. *)
Record recovered n0 d n' d' : Prop := {
  re_disk : d_term d' = d_term d ∧ d_voted d' = d_voted d;
  re_ballot : _current_term n' = d_term d ∧ _voted_for n' = d_voted d;
  re_role : _state n' = FOLLOWER ∧ _node_id n' = _node_id n0 ∧ _peers n' = _peers n0;
  re_included : _last_included_index n0 ≤ _last_included_index n';
  re_log : _log n' = drop_prefix (_last_included_index n') (_log n0);
  re_commit : Z.min (d_commit d) (_last_log_index n0) ≤ _commit_index n';
  re_applied : _last_applied n' = _commit_index n'
}.

Lemma apply_recovered n0 d n1 n' u :
  node_inv n0 d → node_inv n1 d → _apply_committed_entries n1 = (n', Ok u) →
  _current_term n1 = d_term d → _voted_for n1 = d_voted d → _state n1 = FOLLOWER →
  _node_id n1 = _node_id n0 → _peers n1 = _peers n0 →
  _last_included_index n0 ≤ _last_included_index n1 →
  Z.min (d_commit d) (_last_log_index n0) ≤ _commit_index n1 →
  ∃ d', node_inv n' d' ∧ recovered n0 d n' d'.
Proof.
  intros Hi0 Hi1 Hr Et Ev Est Eid Ep Hle Hcm.
  destruct (quiet_apply _ _ _ _ Hi1 Hr) as (d'&Hi'&(?&?&?&?&?&?&?&?)).
  exists d'. split; [done|]. injection Hr as <- <-.
  destruct (apply_loop_frame n1) as (rs&sm&E); [apply Hi1|]. rewrite E in *.
  edestruct (maybe_snapshot_log (with_apply_results rs (with_state_machine sm (with_last_applied (_commit_index n1) n1))))
    as (Hb&Hl&Hc&Ha); [px; pose proof (ni_bounds _ _ Hi1); lia|px; apply Hi1|].
  px_in Hb. px_in Hl. px_in Hc. px_in Ha.
  split; try (split_and!; congruence); [lia| |lia|lia].
  rewrite Hl, (ni_log _ _ Hi1), (ni_log _ _ Hi0), !drop_prefix_twice by lia. done.
Qed.

Lemma restart_inv n d sm interval window n' u :
  node_inv n d → _load_from_storage (restart sm interval window n) = (n', Ok u) →
  ∃ d', node_inv n' d' ∧ recovered n d n' d'.
Proof.
  intros Hi Hr. pose proof Hi as [(r&Hs&Hh) _ _ _ _ Hsn _]. set (n0 := restart _ _ _ _) in Hr.
  unfold _load_from_storage in Hr. change (_storage n0) with (_storage n) in Hr. rewrite Hs in Hr.
  rewrite (holds_meta _ _ Hh), (holds_log _ _ Hh), (holds_commit _ _ Hh), (holds_snapshot _ _ Hh) in Hr.
  mrun_in Hr. set (n2 := with_commit_index _ n1) in Hr.
  assert (Hn1 : _storage n1 = _storage n ∧ _current_term n1 = d_term d ∧ _voted_for n1 = d_voted d ∧
    _last_included_index n1 = match d_snapshot d with Some (i, _, _) => i | None => 0 end ∧
    (d_snapshot d = None → _last_included_term n1 = 0) ∧
    _log n1 = drop_prefix (_last_included_index n1) (d_log d) ∧
    _last_applied n1 = _last_included_index n1 ∧
    _state n1 = FOLLOWER ∧ _node_id n1 = _node_id n ∧ _peers n1 = _peers n).
  { destruct (d_snapshot d) as [[[i t] data]|] eqn:Hd.
    - mstep Hm. apply restore_machine_Ok in Hm0 as (s&_&->). mrun_in Hm. by split_and!.
    - injection Hm as <- <-. split_and!; try done. px. change (_last_included_index n0) with 0.
      destruct Hsn as (E&_&E'). rewrite E' at 1. rewrite (ni_log _ _ Hi), E. done. }
  destruct Hn1 as (E1&E2&E3&E4&E5&E6&E7&E8&E9&E10).
  assert (node_inv n2 d ∧ _last_included_index n ≤ _last_included_index n2 ∧
          Z.min (d_commit d) (_last_log_index n) ≤ _commit_index n2) as (?&?&?) by (by apply loaded_inv).
  by apply (apply_recovered n d n2 n' u).
Qed.
End node.
