(* ===== verification/RaftRuns.v ===== *)
(** One Raft node over any sequence of events: messages, answers, timeouts, proposals and
    restarts, in any order.  A vote is never given twice within a term, a restart included;
    what a restart finds is what was there; only a majority moves the commit index; and what
    is applied is the log, in its order. *)

From Stdlib Require Import ZArith Lia.
From S2P Require Import Prelude Bytes PyVal StateMachine Dict RaftStorage RaftNode RaftNodeFacts.
Import MemoryRaftNode.

Section runs.
Context {S R : Type} `{!RaftNode.StateMachine S} `{RaftStorageLaws R} `{!Msgpack}.
Abbreviation node := (MemoryRaftNode.t S R).
Implicit Types (n : node) (d : durable).

(** ** Events *)

(** Everything that happens to a node under its lock. *)
Inductive event :=
  | ECampaign
  | EVoteRequest (request : RequestVoteRequest)
  | EVoteResponse (peer_id : Z) (response : RequestVoteResponse)
  | EAppendRequest (request : AppendEntriesRequest)
  | EAppendResponse (peer_id : Z) (response : AppendEntriesResponse)
  | ESnapshotRequest (request : InstallSnapshotRequest)
  | ESnapshotResponse (peer_id index : Z) (response : InstallSnapshotResponse)
  | EProposeAdmit (command : bytes)
  | EProposeAppend (command : bytes)
  | EProposeDone
  | EReadIndex
  | EFreeze (reason : string)
  | EResume
  | EShutdown
  | ERestart (state_machine : S) (snapshot_interval apply_results_window : Z).

(** The votes an event gives: a term and the candidate that has the vote of it. *)
Definition step (ev : event) : M node (list (Z * Z)) :=
  match ev with
  | ECampaign =>
      let* n := read (λ n, n) in
      _start_election;;; let* n' := read (λ n, n) in ret (own_vote n n')
  | EVoteRequest request => let* r := request_vote request in ret (granted_vote request r)
  | EVoteResponse p r => vote_response p r;;; ret []
  | EAppendRequest request => append_entries request;;; ret []
  | EAppendResponse p r => append_response p r;;; ret []
  | ESnapshotRequest request => install_snapshot request;;; ret []
  | ESnapshotResponse p i r => snapshot_response p i r;;; ret []
  | EProposeAdmit c => propose_admit c;;; ret []
  | EProposeAppend c => propose_append c;;; ret []
  | EProposeDone => propose_done;;; ret []
  | EReadIndex => _update_commit_index;;; ret []
  | EFreeze r => freeze_writes r;;; ret []
  | EResume => resume_writes;;; ret []
  | EShutdown => shutdown;;; ret []
  | ERestart sm interval window => modify (restart sm interval window);;; _load_from_storage;;; ret []
  end.

Fixpoint run (evs : list event) : M node (list (Z * Z)) :=
  match evs with
  | [] => ret []
  | ev :: evs => let* g := step ev in let* gs := run evs in ret (g ++ gs)
  end.

(** The messages are numbered as a leader numbers them ([append_request_wf]). *)
Definition well_formed (ev : event) : Prop :=
  match ev with
  | EAppendRequest request => contiguous (ae_prev_log_index request) (ae_entries request)
  | _ => True
  end.

(** A granted vote was given to this node in the term it is in. *)
Definition timely (G : Z → Z → Prop) (ev : event) n : Prop :=
  match ev with
  | EVoteResponse p r => rvr_vote_granted r = true → G p (_current_term n)
  | _ => True
  end.

Lemma propose_admit_post G c n d n' o :
  node_inv n d → propose_admit c n = (n', Ok o) → ∃ d', post G n d [] n' d'.
Proof.
  intros Hi Hr. exists d. unfold propose_admit in Hr. mstep Hr. mpure.
  case_decide; [injection Hr as <- <-; by apply post_refl|]. mstep Hr. injection Hm as <- _.
  destruct a; [injection Hr as <- <-; by apply post_refl|]. mrun_in Hr. apply post_idle; nstate.
Qed.

Lemma propose_append_post G c n d n' o :
  node_inv n d → propose_append c n = (n', Ok o) → ∃ d', post G n d [] n' d'.
Proof.
  intros Hi Hr. unfold propose_append in Hr. mstep Hr. mpure.
  case_decide; [injection Hr as <- <-; exists d; by apply post_refl|]. mstep Hr. injection Hr as <- _.
  by eapply post_quiet; [apply quiet_append_own|..].
Qed.

(** Every event keeps the invariant and the votes given. *)
Lemma step_post G ev n d n' g :
  node_inv n d → well_formed ev → timely G ev n → step ev n = (n', Ok g) →
  ∃ d', post G n d g n' d'.
Proof.
  intros Hi Hw Ht Hr. destruct ev; cbn [step] in Hr; mrun_in Hr.
  - by eapply start_election_post.
  - apply (request_vote_post G n d) in Hm as (d'&Hp&_); [by exists d'|done].
  - by eapply vote_response_post.
  - by eapply append_entries_post.
  - by eapply append_response_post.
  - by eapply install_snapshot_post.
  - by eapply snapshot_response_post.
  - by eapply propose_admit_post.
  - by eapply propose_append_post.
  - unfold propose_done in Hm. mpure. exists d. apply post_idle; nstate.
  - by eapply post_quiet; [apply quiet_update_commit|..].
  - unfold freeze_writes in Hm. mpure. exists d. apply post_idle; nstate.
  - unfold resume_writes in Hm. mpure. exists d. apply post_idle; nstate.
  - unfold shutdown in Hm. mrun_in Hm. exists d. apply post_follower; try nstate. by left.
  - destruct (restart_inv _ _ _ _ _ _ _ Hi Hm) as (d'&Hi'&[[Ed1 Ed2] _ (Hs&?&?) _ _ _ _]).
    exists d'. apply post_intro; try done.
    + right. rewrite Ed1, Ed2. auto.
    + intros _. by apply backed_follower.
Qed.

(** A vote that was given is the one on disk, or of an earlier term. *)
Definition settled d (g : Z * Z) : Prop :=
  g.1 < d_term d ∨ (g.1 = d_term d ∧ d_voted d = Some g.2).

Lemma settled_mono d d' g : ballot_le d d' → settled d g → settled d' g.
Proof.
  intros [?|[? Hb]] [?|[? Hv]]; [left; lia..|]. right. destruct Hb; [congruence|]. split; congruence.
Qed.

(** The vote on disk is the only one of its term, among those given and those to come. *)
Lemma settled_unique d t c1 c2 : settled d (t, c1) → d_term d = t ∧ d_voted d = Some c2 → c1 = c2.
Proof. intros [?|[? ?]] [? ?]; cbn in *; [lia|congruence]. Qed.

Definition one_per_term (gs : list (Z * Z)) : Prop :=
  ∀ t c1 c2, (t, c1) ∈ gs → (t, c2) ∈ gs → c1 = c2.

Lemma events_inv evs : ∀ n d n' gs given,
  node_inv n d → Forall well_formed evs → run evs n = (n', Ok gs) →
  Forall (settled d) given → one_per_term given →
  ∃ d', node_inv n' d' ∧ ballot_le d d' ∧ Forall (settled d') (given ++ gs) ∧ one_per_term (given ++ gs).
Proof.
  induction evs as [|ev evs IH]; intros n d n' gs given Hi Hw Hr Hg Hone; cbn [run] in Hr.
  { injection Hr as <- <-. exists d. rewrite app_nil_r. split_and!; [done|apply ballot_le_refl|done..]. }
  inversion Hw as [|?? Hw1 Hw2]; subst. mrun_in Hr.
  destruct (step_post (λ _ _, True) _ _ _ _ _ Hi Hw1 ltac:(by destruct ev; cbn) Hm) as (d1&[Hi1 Hb1 Hg1 _ _]).
  rewrite list.Forall_forall in Hg, Hg1.
  assert (∀ g, g ∈ given → settled d1 g) as Hg' by (intros; eapply settled_mono; eauto).
  destruct (IH _ _ _ _ (given ++ a) Hi1 Hw2 Hm0) as (d2&Hi2&Hb2&Hs2&Htwo).
  - apply list.Forall_forall. intros [t c] [Hin|Hin]%elem_of_app; [auto|].
    destruct (Hg1 _ Hin) as [Et Ev]. right. by rewrite Et, Ev.
  - intros t c1 c2 [Hin1|Hin1]%elem_of_app [Hin2|Hin2]%elem_of_app.
    + by eapply Hone.
    + eapply settled_unique; [by apply Hg'|]. by apply (Hg1 (t, c2)).
    + symmetry. eapply settled_unique; [by apply Hg'|]. by apply (Hg1 (t, c1)).
    + destruct (Hg1 _ Hin1), (Hg1 _ Hin2). cbn in *. congruence.
  - exists d2. rewrite <-app_assoc in Hs2, Htwo. split_and!; [done|by eapply ballot_le_trans|done..].
Qed.

(** A node that starts for the first time. *)
Definition new_node (node_id : Z) (peers : list Z) (sm : S) (r : R) (interval window : Z) : node :=
  init node_id peers sm (Some r) interval window.

Lemma new_node_inv i ps sm r interval window :
  holds r nothing → node_inv (new_node i ps sm r interval window) nothing.
Proof.
  intros Hh. split; cbn; try done; [by exists r|by right].
Qed.

(** C3: A node votes once per term.  Whatever happens to a node from its first start on -
    requests and answers in any order, its own campaigns, snapshots, proposals, and restarts
    from its storage at any point between events, with another state machine object and
    other settings - the votes it gives, its own for itself included, never name two
    candidates in one term, as long as no save is refused. *)
Theorem votes_once_per_term i ps sm r interval window evs n' gs :
  holds r nothing → Forall well_formed evs →
  run evs (new_node i ps sm r interval window) = (n', Ok gs) →
  ∀ t c1 c2, (t, c1) ∈ gs → (t, c2) ∈ gs → c1 = c2.
Proof.
  intros Hh Hw Hr. destruct (events_inv evs _ _ _ _ [] (new_node_inv i ps sm r interval window Hh) Hw Hr)
    as (d&_&_&_&Hone); [constructor|intros ???; by intros ?%elem_of_nil|done].
Qed.

(** The state a run leaves, and what is on disk then. *)
Lemma new_run_inv i ps sm r interval window evs n' gs :
  holds r nothing → Forall well_formed evs →
  run evs (new_node i ps sm r interval window) = (n', Ok gs) →
  ∃ d, node_inv n' d ∧ Forall (settled d) gs.
Proof.
  intros Hh Hw Hr. destruct (events_inv evs _ _ _ _ [] (new_node_inv i ps sm r interval window Hh) Hw Hr)
    as (d&?&_&?&_); [constructor|intros ???; by intros ?%elem_of_nil|by exists d].
Qed.

(** C13: The log is numbered without gaps, it is on disk, and the indices are in order.
    After any events from the first start on, the entries in memory carry the indices
    snapshot + 1, snapshot + 2, ...; the storage loads exactly these entries above the
    snapshot; its snapshot is at least as recent as the one the node counts from; and
    snapshot <= applied <= committed <= last entry.  The term and the vote are weaker: the
    storage loads them as they are in memory, or it loads an earlier term, and then the node
    has not voted in its own (a term learnt from an answer is not saved). *)
Theorem raft_log_is_on_disk i ps sm r interval window evs n' gs :
  holds r nothing → Forall well_formed evs →
  run evs (new_node i ps sm r interval window) = (n', Ok gs) →
  (∀ k e, _log n' !! k = Some e → le_index e = _last_included_index n' + 1 + Z.of_nat k) ∧
  (∃ r' log snapshot, _storage n' = Some r' ∧ load_log r' = Ok log ∧
    _log n' = filter (λ e, _last_included_index n' < le_index e) log ∧
    load_snapshot r' = Ok snapshot ∧
    _last_included_index n' ≤ match snapshot with Some (j, _, _) => j | None => 0 end ∧
    ∃ term vote, load_meta r' = Ok (term, vote) ∧
      ((term = _current_term n' ∧ vote = _voted_for n') ∨
       (term < _current_term n' ∧ _voted_for n' = None))) ∧
  0 ≤ _last_included_index n' ≤ _last_applied n' ∧
  _last_applied n' ≤ _commit_index n' ≤ _last_log_index n'.
Proof.
  intros Hh Hw Hr. destruct (new_run_inv _ _ _ _ _ _ _ _ _ Hh Hw Hr) as (d&[(r'&Hs&Hh') Hv Hl Hc _ Hsn Hb]&_).
  split_and!; [exact Hc| |apply Hb..].
  exists r', (d_log d), (d_snapshot d). split_and!; [done|by apply holds_log|done|by apply holds_snapshot| |].
  - destruct (d_snapshot d) as [[[]]|]; [done|]. lia.
  - exists (d_term d), (d_voted d). split; [by apply holds_meta|]. destruct Hv as [?|[? ?]]; [by right|by left].
Qed.

(** A restart finds what was there.  A node restarted after any events has every vote it
    gave still behind it: its term is not below the term of any vote given, and within that
    term its vote is that vote.  Its log is the log it had, without what a snapshot on disk
    stands for, and it has applied everything it knows to be committed. *)
Theorem restart_recovers i ps sm r interval window evs n gs sm' interval' window' n' u :
  holds r nothing → Forall well_formed evs →
  run evs (new_node i ps sm r interval window) = (n, Ok gs) →
  _load_from_storage (restart sm' interval' window' n) = (n', Ok u) →
  (∀ t c, (t, c) ∈ gs → t < _current_term n' ∨ (t = _current_term n' ∧ _voted_for n' = Some c)) ∧
  _log n' = filter (λ e, _last_included_index n' < le_index e) (_log n) ∧
  _last_included_index n ≤ _last_included_index n' ∧
  _last_applied n' = _commit_index n' ∧ _state n' = FOLLOWER.
Proof.
  intros Hh Hw Hr Hl. destruct (new_run_inv _ _ _ _ _ _ _ _ _ Hh Hw Hr) as (d&Hi&Hg).
  destruct (restart_inv _ _ _ _ _ _ _ Hi Hl) as (d'&_&[_ [Et Ev] [Es _] Hinc Hlog _ Happ]).
  split_and!; try done. intros t c Hin. rewrite list.Forall_forall in Hg.
  rewrite Et, Ev. exact (Hg _ Hin).
Qed.

(** ** Committing *)

Lemma sorted_tail_ge (l : list Z) k c :
  Sorted z_le l → l !! k = Some c → (length l - k ≤ length (filter (λ m, c ≤ m)%Z l))%nat.
Proof.
  intros Hs Hk. apply Sorted_StronglySorted in Hs; [|intros a b x; unfold z_le; lia].
  revert k Hk. induction Hs as [|x l Hs IH Hx]; intros k Hk; [done|].
  rewrite filter_cons. destruct k as [|k]; cbn in Hk.
  - injection Hk as ->. rewrite decide_True by lia. cbn [length].
    rewrite filter_all; [lia|]. eapply Forall_impl; [exact Hx|]. done.
  - specialize (IH _ Hk). cbn [length]. case_decide; cbn [length]; lia.
Qed.

(** The index a majority has: this node and enough of the others. *)
Lemma quorum_index_majority n c :
  quorum_index n = Some c →
  majority n ≤ 1 + Z.of_nat (length (filter (λ m, c ≤ m) (map_to_list (_match_index n)).*2)).
Proof.
  unfold quorum_index, match_indices. set (ms := (map_to_list (_match_index n)).*2).
  pose proof (merge_sort_Permutation z_le ms) as Hp. pose proof (Permutation_length Hp) as Hlen.
  assert (1 ≤ majority n) as Hmaj.
  { unfold majority. pose proof (Z.div_pos (Z.of_nat (length (_peers n)) + 1) 2). lia. }
  rewrite length_app. cbn [length]. destruct (_ <? _) eqn:Hlt; [done|]. zbool. intros Hc.
  rewrite <-Hp. apply lookup_app_Some in Hc as [Hc|[Hge _]].
  - apply sorted_tail_ge in Hc; [lia|]. apply Sorted_merge_sort. intros a b. unfold z_le. lia.
  - lia.
Qed.

Lemma save_commit_frame n n' u :
  _save_commit_index n = (n', Ok u) → n' = n ∨ ∃ r, n' = with_storage (Some r) n.
Proof.
  unfold _save_commit_index, on_storage. destruct (_storage n); [|intros [= <- _]; by left].
  destruct (save_commit_index _ _); [|done]. intros [= <- _]. eauto.
Qed.

(** Only a majority commits.  When the leader's count moves the commit index, the new
    index holds an entry of the leader's current term, more than half of the nodes - this one
    and the followers whose acknowledged index is at least that high - have it, and the node
    has applied everything up to it; otherwise nothing changes at all. *)
Theorem commit_moves_on_majority n d n' u :
  node_inv n d → _update_commit_index n = (n', Ok u) →
  n' = n ∨
  (_commit_index n < _commit_index n' ∧
   (∃ e, _entry_at (_commit_index n') n = Some e ∧ le_term e = _current_term n) ∧
   majority n ≤ 1 + Z.of_nat (length (filter (λ m, _commit_index n' ≤ m)
                                        (map_to_list (_match_index n)).*2)) ∧
   _last_applied n' = _commit_index n').
Proof.
  intros Hi Hr. unfold _update_commit_index in Hr. do 2 (mstep Hr; mpure).
  destruct (quorum_index n) as [c|] eqn:Hq; [|injection Hr as <- _; by left].
  destruct (c >? _) eqn:Hc; [|injection Hr as <- _; by left].
  destruct (_entry_at c n) as [e|] eqn:He; [|injection Hr as <- _; by left].
  destruct (_ =? _) eqn:Hte; [|injection Hr as <- _; by left]. right. zbool. mrun_in Hr.
  pose proof (ni_bounds _ _ Hi) as Hb. pose proof (ni_contig _ _ Hi) as Hco.
  assert (_last_applied n0 = _last_applied n ∧ _commit_index n0 = c ∧
    _last_included_index n0 = _last_included_index n ∧ _log n0 = _log n) as (E1&E2&E3&E4)
    by (by apply save_commit_frame in Hm as [->|[r ->]]).
  injection Hr as <- _. destruct (apply_loop_frame n0) as (rs&s&->); [lia|].
  set (n1 := with_apply_results _ _).
  destruct (maybe_snapshot_log n1) as (_&_&Ec&Ea).
  - subst n1. px. lia.
  - change (contiguous (_last_included_index n0) (_log n0)). by rewrite E3, E4.
  - change (_commit_index n1) with (_commit_index n0) in Ec. change (_last_applied n1) with (_commit_index n0) in Ea.
    rewrite Ea, Ec, E2. split_and!; [lia|by exists e|by apply quorum_index_majority|done].
Qed.

(** ** Applying *)

(** An entry's effect on the machine; a no-op has none. *)
Definition apply_entry (s : S) (e : LogEntry) : S :=
  if decide (le_command e = NOOP_COMMAND) then s else (sm_apply (le_command e) s).1.

Lemma apply_next_machine n e :
  _entry_at (_last_applied n + 1) n = Some e →
  _state_machine (apply_next n) = apply_entry (_state_machine n) e.
Proof.
  intros He. unfold apply_next, apply_entry. set (n1 := with_last_applied _ n).
  change (_entry_at (_last_applied n1) n1) with (_entry_at (_last_applied n + 1) n). rewrite He.
  case_decide; [done|]. by destruct (sm_apply (le_command e) (_state_machine n1)) as [s r] eqn:E;
    change (_state_machine n1) with (_state_machine n) in E; rewrite E.
Qed.

Lemma apply_rounds_machine k : ∀ n,
  contiguous (_last_included_index n) (_log n) → _last_included_index n ≤ _last_applied n →
  _last_applied n + Z.of_nat k ≤ _last_log_index n →
  _state_machine (apply_rounds k n) =
    foldl apply_entry (_state_machine n)
      (take k (drop (Z.to_nat (_last_applied n - _last_included_index n)) (_log n))).
Proof.
  induction k as [|k IH]; intros n Hc Hle Hb; [done|]. cbn [apply_rounds].
  destruct (apply_next_frame n) as (rs&s&E). rewrite last_index in Hb by done.
  assert (∃ e, _log n !! Z.to_nat (_last_applied n - _last_included_index n) = Some e) as [e He]
    by (apply lookup_lt_is_Some; lia).
  assert (_entry_at (_last_applied n + 1) n = Some e) as Hat.
  { apply entry_in_Some; [done|]. split; [lia|]. rewrite <-He. f_equal. lia. }
  rewrite (drop_S _ _ _ He). cbn [take foldl]. rewrite <-(apply_next_machine n e Hat).
  assert (∃ n1, apply_next n = n1 ∧ _log n1 = _log n ∧ _last_included_index n1 = _last_included_index n ∧
    _last_applied n1 = _last_applied n + 1) as (n1&->&E1&E2&E3).
  { eexists. split; [exact E|]. done. }
  rewrite IH; rewrite ?E1, ?E2, ?E3; [|done|lia|].
  - do 2 f_equal. f_equal. lia.
  - rewrite last_index by (by rewrite E1, E2). rewrite E1, E2. lia.
Qed.

Lemma apply_loop_machine n d :
  node_inv n d →
  _state_machine (apply_loop n) =
    foldl apply_entry (_state_machine n)
      (filter (λ e, _last_applied n < le_index e ≤ _commit_index n) (_log n)) ∧
  _last_applied (apply_loop n) = _commit_index n.
Proof.
  intros [_ _ _ Hc _ _ Hb]. split; [|destruct (apply_loop_frame n) as (rs&s&->); [lia|done]].
  unfold apply_loop. rewrite apply_rounds_machine by (done || lia). f_equal.
  rewrite <-(drop_prefix_drop _ _ _ Hc) by lia.
  assert (contiguous (_last_applied n) (drop_prefix (_last_applied n) (_log n))) as Hc'
    by (apply (contiguous_drop_prefix _ _ _ Hc); lia).
  assert (filter (λ e, _last_applied n < le_index e ≤ _commit_index n) (_log n) =
    filter (λ e, le_index e < _commit_index n + 1) (drop_prefix (_last_applied n) (_log n))) as ->.
  { unfold drop_prefix. rewrite list_filter_filter. apply list_filter_iff. intros e. lia. }
  rewrite (filter_take _ _ _ Hc') by lia. f_equal. lia.
Qed.

(** What is applied is the log.  Applying brings the machine to where the entries above
    the applied index, up to the commit index, take it when applied one by one in the order
    of their indices, each exactly once and none left out; and every index up to the commit
    index is applied then. *)
Theorem apply_follows_log n d :
  node_inv n d →
  _state_machine (apply_loop n) =
    foldl apply_entry (_state_machine n)
      (filter (λ e, _last_applied n < le_index e ≤ _commit_index n) (_log n)) ∧
  _last_applied (apply_loop n) = _commit_index n.
Proof. apply apply_loop_machine. Qed.

(** ** What a leader sends *)

Lemma append_request_wf n d p req :
  node_inv n d → append_request (_node_id n) (replication_round p n) = Some req →
  well_formed (EAppendRequest req).
Proof.
  intros Hi. unfold append_request. cbn [replication_round rd_next_index rd_last_log_index rd_log_base rd_log].
  set (next := default _ _). destruct (_ <=? _) eqn:Hle; [done|]. intros [= <-]. zbool. cbn.
  destruct (_ <? _); [|by intros ??].
  apply (contiguous_drop_prefix (_last_included_index n)); [apply Hi|lia].
Qed.
End runs.
