(* ===== verification/RaftElection.v ===== *)
(** Elections over a group of Raft nodes: each node runs any events, and the votes given are
    messages that may be delayed, lost or doubled.  If the answer to a vote request is taken
    in the term it was asked in, no term has two leaders.  The code does not check the term
    of an answer, and then it has. *)

From Stdlib Require Import ZArith Lia.
From S2P Require Import Prelude Bytes PyVal StateMachine Dict RaftStorage RaftNode RaftNodeFacts RaftRuns.
Import MemoryRaftNode.

Section election.
Context {S R : Type} `{!RaftNode.StateMachine S} `{RaftStorageLaws R} `{!Msgpack}.
Abbreviation node := (MemoryRaftNode.t S R).
Implicit Types (n : node) (d : durable).

(** The nodes by id, and every vote ever given: voter, term, candidate. *)
Record cluster := { nodes : gmap Z node; votes : list (Z * Z * Z) }.

Definition peers_of (members : list Z) (i : Z) : list Z := filter (λ j, j ≠ i) members.

(** A group at its first start: every member with its own empty storage. *)
Definition fresh_cluster (members : list Z) (c : cluster) : Prop :=
  NoDup members ∧ votes c = [] ∧
  (∀ i n, nodes c !! i = Some n → i ∈ members ∧ ∃ sm r interval window,
    holds r nothing ∧ n = new_node i (peers_of members i) sm r interval window).

(** The votes given to node [i], as the answers it may take. *)
Definition given_to (c : cluster) (i v t : Z) : Prop := (v, t, i) ∈ votes c.

(** One event at one node.  Requests may be anything; an answer that grants a vote is one
    that was given, [asked] says how the term of it relates to the node's. *)
Inductive cstep (asked : cluster → Z → event (S:=S) → node → Prop) (c c' : cluster) : Prop :=
  | cstep_intro i n ev n' gs :
      nodes c !! i = Some n → well_formed ev → asked c i ev n →
      step ev n = (n', Ok gs) →
      c' = {| nodes := <[i := n']> (nodes c); votes := votes c ++ map (λ g, (i, g.1, g.2)) gs |} →
      cstep asked c c'.

(** An answer is taken in the term of its request. *)
Definition asked_now (c : cluster) (i : Z) (ev : event (S:=S)) n : Prop := timely (given_to c i) ev n.

(** What the code allows: the answer to a request of any term the node was in. *)
Definition asked_once (c : cluster) (i : Z) (ev : event (S:=S)) n : Prop :=
  match ev with
  | EVoteResponse p r =>
      rvr_vote_granted r = true → given_to c i p (rvr_term r) ∧ rvr_term r ≤ _current_term n
  | _ => True
  end.

(** ** At most one leader per term *)

Record node_ok (members : list Z) (vs : list (Z * Z * Z)) (i : Z) n : Prop := {
  no_member : i ∈ members;
  no_id : _node_id n = i;
  no_peers : _peers n = peers_of members i;
  no_backed : backed (λ v t, (v, t, i) ∈ vs) n;
  no_disk : ∃ d, node_inv n d ∧ ∀ t j, (i, t, j) ∈ vs → settled d (t, j)
}.

Record cluster_ok (members : list Z) (c : cluster) : Prop := {
  co_nodup : NoDup members;
  co_nodes i n : nodes c !! i = Some n → node_ok members (votes c) i n;
  co_voters v t j : (v, t, j) ∈ votes c → v ∈ members;
  co_votes v t j1 j2 : (v, t, j1) ∈ votes c → (v, t, j2) ∈ votes c → j1 = j2
}.

Lemma fresh_ok members c : fresh_cluster members c → cluster_ok members c.
Proof.
  intros (Hnd&Hv&Hn). split; [done| |rewrite Hv..].
  - intros i n Hi. destruct (Hn i n Hi) as (Hm&sm&r&interval&window&Hh&->). rewrite Hv.
    split; [done..| |exists nothing; split; [by apply new_node_inv|]].
    + by apply backed_follower.
    + by intros ?? ?%elem_of_nil.
  - by intros ??? ?%elem_of_nil.
  - by intros ???? ?%elem_of_nil.
Qed.

(** The votes an event adds. *)
Lemma elem_of_votes (vs : list (Z * Z * Z)) (i : Z) (gs : list (Z * Z)) (v t j : Z) :
  (v, t, j) ∈ vs ++ map (λ g, (i, g.1, g.2)) gs ↔ (v, t, j) ∈ vs ∨ (v = i ∧ (t, j) ∈ gs).
Proof.
  rewrite elem_of_app, list_elem_of_fmap. split; (intros [?|Hx]; [by left|right]).
  - destruct Hx as ([t' j']&[= -> -> ->]&?). done.
  - destruct Hx as [-> ?]. by exists (t, j).
Qed.

Lemma cstep_ok members c c' : cluster_ok members c → cstep asked_now c c' → cluster_ok members c'.
Proof.
  intros [Hnd Hn Hvo Hvs] [i n ev n' gs Hi Hw Ha Hr ->].
  destruct (Hn i n Hi) as [Hm Hid Hp Hb (d&Hinv&Hset)].
  destruct (step_post (given_to c i) _ _ _ _ _ Hinv Hw Ha Hr) as (d'&[Hi' Hbl Hg [Hid' Hp'] Hb']).
  rewrite list.Forall_forall in Hg.
  assert (∀ t j, (i, t, j) ∈ votes c → settled d' (t, j)) as Hset'
    by (intros; eapply settled_mono; eauto).
  split; cbn; [done| | |].
  - intros k m. destruct (decide (k = i)) as [->|Hk].
    + rewrite lookup_insert_eq. intros [= <-]. split; [done|congruence|congruence| |].
      * eapply backed_weaken; [|by apply Hb']. intros v t. rewrite elem_of_votes, Hid. done.
      * exists d'. split; [done|]. intros t j [?|[_ Hin]]%elem_of_votes; [by apply Hset'|].
        destruct (Hg _ Hin) as [Et Ev]. right. by rewrite Et, Ev.
    + rewrite lookup_insert_ne by done. intros Hkm. destruct (Hn k m Hkm) as [? ? ? Hbk (dk&?&Hk')].
      split; [done..| |].
      * eapply backed_weaken; [|exact Hbk]. intros v t ?. apply elem_of_votes. by left.
      * exists dk. split; [done|]. intros t j [?|[-> _]]%elem_of_votes; [by apply Hk'|done].
  - intros v t j [?|[-> _]]%elem_of_votes; [by eapply Hvo|done].
  - intros v t j1 j2 [Hin1|[-> Hin1]]%elem_of_votes [Hin2|[E Hin2]]%elem_of_votes; subst.
    + by eapply Hvs.
    + eapply settled_unique; [by apply Hset'|]. by apply (Hg (t, j2)).
    + symmetry. eapply settled_unique; [by apply Hset'|]. by apply (Hg (t, j1)).
    + destruct (Hg _ Hin1), (Hg _ Hin2). cbn in *. congruence.
Qed.

(** Two majorities of the members have one in common. *)
Lemma majorities_meet (members : list Z) (Q1 Q2 : gset Z) :
  NoDup members → (∀ v, v ∈ Q1 → v ∈ members) → (∀ v, v ∈ Q2 → v ∈ members) →
  Z.of_nat (length members) / 2 + 1 ≤ Z.of_nat (size Q1) →
  Z.of_nat (length members) / 2 + 1 ≤ Z.of_nat (size Q2) → ∃ v, v ∈ Q1 ∧ v ∈ Q2.
Proof.
  intros Hnd Hin1 Hin2 Hs1 Hs2. destruct (decide (Q1 ## Q2)) as [Hd|Hd].
  - pose proof (size_union _ _ Hd) as Hsz.
    assert (Q1 ∪ Q2 ⊆ list_to_set members) as Hsub%subseteq_size by set_solver.
    rewrite size_list_to_set in Hsub by done. pose proof (Z.mul_succ_div_gt (Z.of_nat (length members)) 2). lia.
  - destruct (set_choose_or_empty (Q1 ∩ Q2)) as [[v Hv]|He]; [exists v; set_solver|]. set_solver.
Qed.

Lemma peers_of_length members i :
  NoDup members → i ∈ members → (length (peers_of members i) + 1)%nat = length members.
Proof.
  unfold peers_of. induction 1 as [|x l Hx Hnd IH]; [by intros ?%elem_of_nil|].
  rewrite elem_of_cons, filter_cons. intros [->|Hin].
  - rewrite decide_False by tauto. rewrite filter_all; [cbn; lia|].
    apply list.Forall_forall. by intros y Hy ->.
  - rewrite decide_True by (by intros ->). cbn [length]. specialize (IH Hin). lia.
Qed.

Lemma leader_votes members c i n :
  cluster_ok members c → nodes c !! i = Some n → _state n = LEADER →
  ∃ Q : gset Z, (∀ v, v ∈ Q → (v, _current_term n, i) ∈ votes c) ∧
    Z.of_nat (length members) / 2 + 1 ≤ Z.of_nat (size Q).
Proof.
  intros Hok Hi Hs. destruct (co_nodes _ _ Hok i n Hi) as [Hm Hid Hp Hb _].
  unfold backed in Hb. rewrite Hs in Hb. destruct Hb as (Q&HQ&Hmaj). exists Q. split; [done|].
  unfold majority in Hmaj. rewrite Hp in Hmaj.
  rewrite <-(peers_of_length members i (co_nodup _ _ Hok) Hm).
  by replace (Z.of_nat _ + 1) with (Z.of_nat (length (peers_of members i) + 1)) in Hmaj by lia.
Qed.

(** C5: No term has two leaders.  In every state a group of nodes reaches from its first
    start - by campaigns, requests and answers delayed, lost or doubled in any way, messages
    of any content to the other handlers, proposals, snapshots and restarts - two nodes that
    lead in the same term are the same node, provided that a node takes the answer to a vote
    request only in the term it asked in. *)
Theorem election_safety members c0 c i j n m :
  fresh_cluster members c0 → rtc (cstep asked_now) c0 c →
  nodes c !! i = Some n → nodes c !! j = Some m → _state n = LEADER → _state m = LEADER →
  _current_term n = _current_term m → i = j.
Proof.
  intros Hf Hreach Hi Hj Hn Hm Ht.
  assert (cluster_ok members c) as Hok.
  { apply fresh_ok in Hf. induction Hreach; [done|]. by eauto using cstep_ok. }
  destruct (leader_votes _ _ _ _ Hok Hi Hn) as (Q1&HQ1&Hs1).
  destruct (leader_votes _ _ _ _ Hok Hj Hm) as (Q2&HQ2&Hs2).
  destruct (majorities_meet members Q1 Q2) as (v&Hv1&Hv2); [apply Hok| | |done|done|].
  - intros v Hv. eapply (co_voters _ _ Hok), HQ1, Hv.
  - intros v Hv. eapply (co_voters _ _ Hok), HQ2, Hv.
  - eapply (co_votes _ _ Hok v (_current_term n)); [by apply HQ1|]. rewrite Ht. by apply HQ2.
Qed.
End election.
