(* ===== verification/RaftMachines.v ===== *)
(** The shard's state machine as the machine of a Raft node, and what follows for its
    replicas; and an execution of three nodes in which two of them lead in one term. *)

From Stdlib Require Import ZArith Lia.
From S2P Require Import Prelude Bytes PyVal Engine Mvcc StateMachine StateMachineFacts Replicas Dict RaftStorage RaftNode RaftNodeFacts RaftRuns RaftElection.

(** The machine with the readings its replica's clock is going to give, one per command. *)
#[global] Instance mvcc_machine {E} `{Engine E} `{Msgpack} : RaftNode.StateMachine (MVCCStateMachine.t E * list Z) := {|
  sm_apply c p :=
    let '(s, r) := MVCCStateMachine.apply (default 0 (head p.2)) c p.1 in ((s, tail p.2), r);
  sm_snapshot p := MVCCStateMachine.snapshot p.1;
  sm_restore data := λ p, let '(s, r) := MVCCStateMachine.restore data p.1 in ((s, p.2), r);
  sm_get key timestamp p := MVCCStateMachine.get p.1 key timestamp;
  sm_scan_versions start_key end_key timestamp p :=
    MVCCStateMachine.scan_versions p.1 start_key end_key timestamp
|}.

Section replicas.
Context {E R : Type} `{EngineLaws E} `{RaftStorageLaws R} `{!Msgpack}.
Abbreviation node := (MemoryRaftNode.t (MVCCStateMachine.t E * list Z) R).
Implicit Types n : node.
Import MemoryRaftNode.

Lemma sim_apply_entries es : ∀ p1 p2 : MVCCStateMachine.t E * list Z,
  sim p1.1 p2.1 → sim (foldl apply_entry p1 es).1 (foldl apply_entry p2 es).1.
Proof.
  induction es as [|e es IH]; intros p1 p2 Hs; cbn [foldl]; [done|]. apply IH.
  unfold apply_entry. case_decide; [done|]. cbn.
  destruct (sim_apply (default 0 (head p1.2)) (default 0 (head p2.2)) (le_command e) _ _ Hs) as [Hs' _].
  by destruct (MVCCStateMachine.apply _ _ p1.1), (MVCCStateMachine.apply _ _ p2.1).
Qed.

(** Nodes with one log hold one state.  Two nodes of a group, each with its own clock,
    whose machines agree up to some index and whose logs hold the same entries from there to
    the commit index: applying brings them to machines that agree again - the same versions,
    write records, locks and applied timestamp, the times of the locks apart. *)
Theorem nodes_with_one_log_agree n1 d1 n2 d2 :
  node_inv n1 d1 → node_inv n2 d2 →
  sim (_state_machine n1).1 (_state_machine n2).1 →
  filter (λ e, _last_applied n1 < le_index e ≤ _commit_index n1) (_log n1) =
  filter (λ e, _last_applied n2 < le_index e ≤ _commit_index n2) (_log n2) →
  sim (_state_machine (apply_loop n1)).1 (_state_machine (apply_loop n2)).1.
Proof.
  intros Hi1 Hi2 Hs Hlog. rewrite (proj1 (apply_loop_machine _ _ Hi1)), (proj1 (apply_loop_machine _ _ Hi2)), Hlog.
  by apply sim_apply_entries.
Qed.
End replicas.

(** ** An answer that comes late *)

Module StaleAnswer.
Import MemoryRaftNode.
#[local] Existing Instances reference_codec MemoryEngine.engine MemoryEngine.laws.

Abbreviation machine := (MVCCStateMachine.t MemoryEngine.t * list Z)%type.
Abbreviation node := (MemoryRaftNode.t machine MemoryEngine.t).
Abbreviation group := (cluster (S:=machine) (R:=MemoryEngine.t)).
Abbreviation event := (event (S:=machine)).

Definition members : list Z := [1; 2; 3].
Definition start (i : Z) : node :=
  new_node i (peers_of members i)
    ({| MVCCStateMachine._storage := MemoryEngine.init; MVCCStateMachine._last_applied_timestamp := 0 |}, [])
    MemoryEngine.init 0 100.
Definition c0 : group :=
  {| nodes := <[1 := start 1]> (<[2 := start 2]> (<[3 := start 3]> ∅)); votes := [] |}.

Definition vote_for (t i : Z) : RequestVoteRequest :=
  {| rv_term := t; rv_candidate_id := i; rv_last_log_index := 0; rv_last_log_term := 0 |}.
Definition yes (t : Z) : RequestVoteResponse := {| rvr_term := t; rvr_vote_granted := true |}.

(** Node 1 runs in term 1 and is given node 2's vote, but the answer is slow: node 1 runs
    again, in term 2.  Node 3 runs in terms 1 and 2, node 2 votes for it in term 2, and it
    leads.  Then the answer of term 1 arrives at node 1. *)
Definition events : list (Z * event) :=
  [(1, ECampaign); (2, EVoteRequest (vote_for 1 1)); (1, ECampaign);
   (3, ECampaign); (3, ECampaign); (2, EVoteRequest (vote_for 2 3)); (3, EVoteResponse 2 (yes 2));
   (1, EVoteResponse 2 (yes 1))].

(** Which answers a node takes: those of the term it is in only, or of any it was in. *)
Definition asked (now : bool) : group → Z → event → node → Prop :=
  if now then asked_now else asked_once.

(** A granted vote that is taken was given. *)
Definition was_given (now : bool) (c : group) (e : Z * event) (n : node) : bool :=
  match e.2 with
  | EVoteResponse p r =>
      bool_decide ((p, rvr_term r, e.1) ∈ votes c) &&
      (if now then rvr_term r =? _current_term n else rvr_term r <=? _current_term n)
  | EAppendRequest _ => false
  | _ => true
  end.

(** The group after an event at a node; [None] if it cannot happen. *)
Definition play1 (now : bool) (c : group) (e : Z * event) : option group :=
  match nodes c !! e.1 with
  | None => None
  | Some n =>
      if was_given now c e n then
        match step e.2 n with
        | (n', Ok gs) =>
            Some {| nodes := <[e.1 := n']> (nodes c); votes := votes c ++ map (λ g, (e.1, g.1, g.2)) gs |}
        | (_, Raise _) => None
        end
      else None
  end.
Fixpoint play (now : bool) (es : list (Z * event)) (c : group) : option group :=
  match es with
  | [] => Some c
  | e :: es => match play1 now c e with Some c' => play now es c' | None => None end
  end.

Lemma play1_cstep now c e c' : play1 now c e = Some c' → cstep (asked now) c c'.
Proof.
  unfold play1. destruct e as [i ev]. cbn [fst snd]. destruct (nodes c !! i) as [n|] eqn:Hn; [|done].
  destruct (was_given now c (i, ev) n) eqn:Hw; [|done]. destruct (step ev n) as [n' [gs|]] eqn:Hs; [|done].
  intros [= <-]. econstructor; [exact Hn| | |exact Hs|done]; destruct ev; try done; destruct now; try done;
    unfold was_given in Hw; cbn in Hw |- *; apply andb_true_iff in Hw as [Hw Hle];
    apply bool_decide_eq_true in Hw; zbool; intros _; [|done].
  unfold given_to. by rewrite <-Hle.
Qed.

Lemma play_rtc now es : ∀ c c', play now es c = Some c' → rtc (cstep (asked now)) c c'.
Proof.
  induction es as [|e es IH]; intros c c'; cbn [play]; [intros [= <-]; done|].
  destruct (play1 now c e) as [c1|] eqn:Hc; [|done]. intros Hp. eapply rtc_l; [by eapply play1_cstep|auto].
Qed.

Lemma c0_fresh : fresh_cluster members c0.
Proof.
  split_and!; [apply (bool_decide_unpack _); vm_compute; reflexivity|done|].
  intros i n Hi. assert (i ∈ members ∧ n = start i) as [Hm ->].
  { unfold c0 in Hi. cbn [nodes] in Hi.
    repeat (apply lookup_insert_Some in Hi as [[<- <-]|[_ Hi]]; [split; [set_solver|done]|]).
    by rewrite lookup_empty in Hi. }
  split; [done|]. eexists _, _, _, _. split; [|reflexivity]. by apply engine_holds_nothing.
Qed.

(** The term a node leads in. *)
Definition leads (c : group) (i : Z) : option Z :=
  match nodes c !! i with
  | Some n => if decide (_state n = LEADER) then Some (_current_term n) else None
  | None => None
  end.

Lemma trace_leads : (λ c, (leads c 1, leads c 3)) <$> play false events c0 = Some (Some 2, Some 2).
Proof. vm_compute. reflexivity. Qed.

(** C38: A late answer elects a second leader.  The code takes an answer to a vote request
    whatever term it was asked in.  Three nodes at their first start reach, by eight events
    in which every answer taken was really given, a state in which nodes 1 and 3 both lead
    in term 2: node 1 counted the vote node 2 had given it for term 1. *)
Theorem late_vote_elects_two_leaders :
  ∃ c n m, fresh_cluster members c0 ∧ rtc (cstep asked_once) c0 c ∧
    nodes c !! 1 = Some n ∧ nodes c !! 3 = Some m ∧
    _state n = LEADER ∧ _state m = LEADER ∧ _current_term n = 2 ∧ _current_term m = 2.
Proof.
  pose proof trace_leads as Ht. destruct (play false events c0) as [c|] eqn:Hp; [|done].
  cbn in Ht. injection Ht as H1 H3. unfold leads in H1, H3.
  destruct (nodes c !! 1) as [n|] eqn:Hn; [|done]. destruct (nodes c !! 3) as [m|] eqn:Hm; [|done].
  case_decide; [|done]. case_decide; [|done]. injection H1 as ?. injection H3 as ?.
  exists c, n, m. split_and!; try done; [apply c0_fresh|by eapply (play_rtc false)].
Qed.
End StaleAnswer.
