(* ===== verification/RaftTree.v ===== *)
(** The entries ever made in a Raft group, as a tree, and what quorums make of it.

    An entry is known by its index and its term; under it is the entry it was appended
    behind.  A log is a path of the tree, and a node is where its log ends.  The first part
    of the file has the argument of Raft for this picture: terms, votes, acknowledgements and
    the ends of the logs, without messages or handlers.  The second part says what the
    handlers of a node without snapshots do to its path. *)

From Stdlib Require Import ZArith Lia.
From S2P Require Import Prelude Bytes PyVal StateMachine Dict RaftStorage RaftNode RaftNodeFacts RaftRuns RaftElection.

(** ** Positions and paths *)

(** An index and a term. *)
Abbreviation pos := (Z * Z)%type.
(** The term of the entry before, and the command. *)
Abbreviation tree := (gmap pos (Z * bytes)).

Section entries.
Implicit Types (p q : pos) (h : tree).

(** [p] is on the path that ends in [q]. *)
Inductive anc h p : pos → Prop :=
  | anc_refl : anc h p p
  | anc_step i t pt c : h !! (i, t) = Some (pt, c) → anc h p (i - 1, pt) → anc h p (i, t).

(** The end of the empty log, or an entry. *)
Definition known h p : Prop := p = (0, 0) ∨ is_Some (h !! p).

Record tree_ok h : Prop := {
  tr_bounds i t pt c : h !! (i, t) = Some (pt, c) → 1 ≤ i ∧ 0 ≤ pt ≤ t ∧ 1 ≤ t;
  tr_parent i t pt c : h !! (i, t) = Some (pt, c) → known h (i - 1, pt);
  (** The entries of a term are on one path. *)
  tr_line i j t : is_Some (h !! (i, t)) → is_Some (h !! (j, t)) → i ≤ j → anc h (i, t) (j, t)
}.

Lemma empty_tree_ok : tree_ok ∅.
Proof. split; intros *; rewrite ?lookup_empty; (done || by intros []). Qed.

Lemma anc_trans h p q r : anc h p q → anc h q r → anc h p r.
Proof. intros Hp. induction 1; [done|]. by econstructor. Qed.

Lemma anc_insert h p q r x : h !! r = None → anc h p q → anc (<[r := x]> h) p q.
Proof.
  intros Hr. induction 1 as [|i t pt c Hi _ IH]; [constructor|].
  econstructor; [|exact IH]. rewrite lookup_insert_ne; [done|]. intros ->. congruence.
Qed.

Lemma known_insert h p r x : known h p → known (<[r := x]> h) p.
Proof.
  intros [?|[y Hy]]; [by left|right]. destruct (decide (r = p)) as [->|Hne].
  - rewrite lookup_insert_eq. eauto.
  - rewrite lookup_insert_ne by done. eauto.
Qed.

Section paths.
Context h (Hok : tree_ok h).

Lemma anc_le p q : anc h p q → p.1 ≤ q.1 ∧ p.2 ≤ q.2.
Proof.
  induction 1 as [|i t pt c Hi _ IH]; [lia|]. destruct (tr_bounds _ Hok _ _ _ _ Hi) as (?&?&?).
  cbn in *. lia.
Qed.

Lemma anc_same_index p q : anc h p q → p.1 = q.1 → p = q.
Proof.
  destruct 1 as [|i t pt c Hi Hp]; [done|]. intros E. apply anc_le in Hp. cbn in *. lia.
Qed.

Lemma anc_known p q : anc h p q → known h q → known h p.
Proof.
  induction 1 as [|i t pt c Hi _ IH]; [done|]. intros _. by eapply IH, (tr_parent _ Hok).
Qed.

(** Two positions on one path are on a path with each other. *)
Lemma anc_between p p' q : anc h p q → anc h p' q → p.1 ≤ p'.1 → anc h p p'.
Proof.
  induction 1 as [|i t pt c Hi Hp IH]; intros Hp' Hle.
  - rewrite (anc_same_index p' p); [constructor|done|]. apply anc_le in Hp'. lia.
  - inversion Hp' as [|i' t' pt' c' Hi' Hp'' ]; simplify_eq; [by econstructor|]. by apply IH.
Qed.

Lemma anc_unique p p' q : anc h p q → anc h p' q → p.1 = p'.1 → p = p'.
Proof. intros Hp Hp' E. apply (anc_same_index p p'); [|done]. eapply anc_between; eauto. lia. Qed.

Lemma known_bounds p : known h p → 0 ≤ p.1 ∧ 0 ≤ p.2.
Proof.
  intros [->|[[pt c] Hp]]; [done|]. destruct p as [i t].
  destruct (tr_bounds _ Hok _ _ _ _ Hp) as (?&?&?). cbn. lia.
Qed.

(** The path has a position for every index up to its end. *)
Lemma anc_at (k : nat) q : known h q → Z.of_nat k ≤ q.1 → ∃ p, p.1 = Z.of_nat k ∧ anc h p q.
Proof.
  intros Hq Hk. destruct (Z.to_nat (q.1 - Z.of_nat k)) as [|n] eqn:Hn.
  { exists q. split; [lia|constructor]. }
  revert q Hq Hk Hn. induction n as [|n IH]; intros q Hq Hk Hn;
    (destruct Hq as [->|[[pt c] Hq]]; [cbn in *; lia|]; destruct q as [i t]; cbn in *).
  - exists (i - 1, pt). split; [cbn; lia|]. econstructor; [done|constructor].
  - destruct (IH (i - 1, pt)) as (p&Hp&Ha); [by eapply (tr_parent _ Hok)|cbn; lia|cbn; lia|].
    exists p. split; [done|]. by econstructor.
Qed.
End paths.

(** A new entry: the first of its term, or behind the last of its term. *)
Lemma insert_tree_ok h k u pt c :
  tree_ok h → known h (k - 1, pt) → 1 ≤ k → pt ≤ u → 1 ≤ u →
  (∀ i, is_Some (h !! (i, u)) → i < k ∧ pt = u) → tree_ok (<[(k, u) := (pt, c)]> h).
Proof.
  intros Hok Hp Hk Hpt Hu Hlast.
  assert (h !! (k, u) = None) as Hnew.
  { apply eq_None_not_Some. intros [? _]%Hlast. lia. }
  pose proof (known_bounds _ Hok _ Hp) as Hb. cbn in Hb. split.
  - intros i t pt' c'. rewrite lookup_insert_Some. intros [[[= -> ->] [= -> ->]]|[_ Hi]]; [lia|].
    by eapply (tr_bounds _ Hok).
  - intros i t pt' c'. rewrite lookup_insert_Some. intros [[[= -> ->] [= -> ->]]|[_ Hi]];
      apply known_insert; [done|]. by eapply (tr_parent _ Hok).
  - intros i j t. destruct (decide ((k, u) = (j, t))) as [[= <- <-]|Hj].
    + intros Hi _ Hle. destruct (decide (i = k)) as [->|Hne]; [constructor|].
      rewrite lookup_insert_ne in Hi by congruence. destruct (Hlast i Hi) as [Hlt ->].
      econstructor; [by rewrite lookup_insert_eq|]. apply anc_insert; [done|].
      destruct Hp as [[= ? ->]|Hp]; [lia|]. apply (tr_line _ Hok); [done..|lia].
    + rewrite (lookup_insert_ne _ _ (j, t)) by done. intros Hi Hj' Hle.
      destruct (decide ((k, u) = (i, t))) as [[= <- <-]|Hi'].
      * destruct (Hlast j Hj') as [? _]. lia.
      * rewrite lookup_insert_ne in Hi by done. apply anc_insert; [done|]. by apply (tr_line _ Hok).
Qed.

(** ** Terms, votes and acknowledgements *)

(** What has happened in a group: the entries made; where the log of a candidate ended when
    it ran ([s_bids], by candidate and term); who voted in which term for whom; who has taken
    the log of a term's leader up to which index; the term each node is in, and where its log
    ends. *)
Record history := {
  s_tree : tree;
  s_bids : gmap (Z * Z) pos;
  s_votes : Z → Z → Z → Prop;
  s_acks : Z → Z → Z → Prop;
  s_term : Z → Z;
  s_tip : Z → pos
}.

Definition upd {A} (f : Z → A) (v : Z) (x : A) : Z → A := λ w, if decide (w = v) then x else f w.

Lemma upd_eq {A} (f : Z → A) v x : upd f v x v = x.
Proof. unfold upd. by rewrite decide_True. Qed.
Lemma upd_ne {A} (f : Z → A) v x w : w ≠ v → upd f v x w = f w.
Proof. intros. unfold upd. by rewrite decide_False. Qed.

Section quorums.
Context (members : list Z) (Hnd : NoDup members).
Implicit Types (s : history) (Q : gset Z).

Definition quorum Q : Prop :=
  (∀ v, v ∈ Q → v ∈ members) ∧ Z.of_nat (length members) / 2 + 1 ≤ Z.of_nat (size Q).

Lemma quorums_meet Q1 Q2 : quorum Q1 → quorum Q2 → ∃ v, v ∈ Q1 ∧ v ∈ Q2.
Proof using Hnd. intros [? ?] [? ?]. by eapply (majorities_meet members). Qed.

Definition elected s (c u : Z) : Prop := ∃ Q, quorum Q ∧ ∀ v, v ∈ Q → s_votes s v u c.

(** Node [v] has taken the log of term [t] up to [i] at least. *)
Definition took s (v t i : Z) : Prop := ∃ j, i ≤ j ∧ s_acks s v t j.

(** A quorum has taken it: the entry is committed for good. *)
Definition chosen s (t i : Z) : Prop :=
  is_Some (s_tree s !! (i, t)) ∧ ∃ Q, quorum Q ∧ ∀ v, v ∈ Q → took s v t i.

(** A quorum has taken it or still may. *)
Definition possible s (t i : Z) : Prop :=
  ∃ Q, quorum Q ∧ ∀ v, v ∈ Q → s_term s v ≤ t ∨ took s v t i.

Record history_ok s : Prop := {
  ok_tree : tree_ok (s_tree s);
  ok_tip v : known (s_tree s) (s_tip s v);
  ok_tip_term v : (s_tip s v).2 ≤ s_term s v;
  ok_vote v u c : s_votes s v u c → u ≤ s_term s v ∧ is_Some (s_bids s !! (c, u));
  ok_one_vote v u c c' : s_votes s v u c → s_votes s v u c' → c = c';
  ok_bid c u p : s_bids s !! (c, u) = Some p → u ≤ s_term s c ∧ known (s_tree s) p ∧ p.2 < u;
  ok_ack v t i : s_acks s v t i → t ≤ s_term s v ∧ is_Some (s_tree s !! (i, t));
  ok_made i u : is_Some (s_tree s !! (i, u)) → ∃ c, elected s c u;
  (** What may be committed is under every entry of a later term, *)
  ok_later i t j u :
    is_Some (s_tree s !! (i, t)) → is_Some (s_tree s !! (j, u)) → t < u → possible s t i →
    anc (s_tree s) (i, t) (j, u);
  (** is in the log of a node that took it, *)
  ok_kept v t i :
    is_Some (s_tree s !! (i, t)) → took s v t i → possible s t i → anc (s_tree s) (i, t) (s_tip s v);
  (** and in the log of a candidate that such a node voted for. *)
  ok_voted v u c b t i :
    s_votes s v u c → s_bids s !! (c, u) = Some b → t < u → is_Some (s_tree s !! (i, t)) →
    took s v t i → possible s t i → anc (s_tree s) (i, t) b
}.

Lemma chosen_possible s t i : chosen s t i → possible s t i.
Proof using. intros (_&Q&HQ&Ht). exists Q. split; [done|]. auto. Qed.

Lemma elected_unique s c c' u : history_ok s → elected s c u → elected s c' u → c = c'.
Proof using Hnd.
  intros Hok (Q&HQ&Hv) (Q'&HQ'&Hv'). destruct (quorums_meet _ _ HQ HQ') as (v&?&?).
  eapply (ok_one_vote _ Hok v u); auto.
Qed.

(** A step may only take possibilities away. *)
Lemma possible_back s s' t i :
  (∀ v, s_term s v ≤ s_term s' v) →
  (∀ v, took s' v t i → took s v t i ∨ s_term s v ≤ t) → possible s' t i → possible s t i.
Proof using.
  intros Hle Ht (Q&HQ&Hv). exists Q. split; [done|]. intros v Hin.
  destruct (Hv v Hin) as [?|[?|?]%Ht]; [left; specialize (Hle v); lia|by right|by left].
Qed.

(** A node moves to a later term. *)
Lemma raise_ok s v u :
  history_ok s → s_term s v ≤ u →
  history_ok {| s_tree := s_tree s; s_bids := s_bids s; s_votes := s_votes s; s_acks := s_acks s;
                s_term := upd (s_term s) v u; s_tip := s_tip s |}.
Proof using.
  intros Hok Hu. set (s' := {| s_tree := _ |}).
  assert (∀ w, s_term s w ≤ s_term s' w) as Hle.
  { intros w. cbn. unfold upd. case_decide; subst; lia. }
  assert (∀ t i, possible s' t i → possible s t i) as Hp.
  { intros t i. apply possible_back; [done|]. by left. }
  split; cbn.
  - apply Hok.
  - apply Hok.
  - intros w. specialize (Hle w). pose proof (ok_tip_term _ Hok w). cbn in Hle. lia.
  - intros w x c Hv. destruct (ok_vote _ Hok _ _ _ Hv). specialize (Hle w). cbn in Hle. split; [lia|done].
  - apply Hok.
  - intros c x p Hb. destruct (ok_bid _ Hok _ _ _ Hb) as (?&?&?). specialize (Hle c). cbn in Hle.
    split_and!; [lia|done..].
  - intros w t i Ha. destruct (ok_ack _ Hok _ _ _ Ha). specialize (Hle w). cbn in Hle. split; [lia|done].
  - apply Hok.
  - intros i t j x ? ? ? ?%Hp. by apply (ok_later _ Hok).
  - intros w t i ? ? ?%Hp. by apply (ok_kept _ Hok).
  - intros w x c b t i ? ? ? ? ? ?%Hp. by eapply (ok_voted _ Hok).
Qed.

(** A node runs in a new term and votes for itself. *)
Definition campaigned c u s : history :=
  {| s_tree := s_tree s; s_bids := <[(c, u) := s_tip s c]> (s_bids s);
     s_votes := λ v t d, s_votes s v t d ∨ (v = c ∧ t = u ∧ d = c); s_acks := s_acks s;
     s_term := upd (s_term s) c u; s_tip := s_tip s |}.

Lemma campaigned_ok s c u : history_ok s → s_term s c < u → history_ok (campaigned c u s).
Proof using.
  intros Hok Hu. pose proof (raise_ok s c u Hok ltac:(lia)) as Hr.
  assert (∀ v d, s_votes s v u d → v ≠ c) as Hnov.
  { intros v d Hv ->. apply (ok_vote _ Hok) in Hv as [? _]. lia. }
  assert (∀ d t b, <[(c, u) := s_tip s c]> (s_bids s) !! (d, t) = Some b →
    (d = c ∧ t = u ∧ b = s_tip s c) ∨ s_bids s !! (d, t) = Some b) as Hbid.
  { intros d t b [[[= -> ->] ->]|[_ ?]]%lookup_insert_Some; [by left|by right]. }
  split; cbn.
  - apply Hr.
  - apply Hr.
  - apply Hr.
  - intros v t d [Hv|(->&->&->)].
    + destruct (ok_vote _ Hr _ _ _ Hv) as [? Hb]. cbn in *. split; [done|].
      destruct (decide ((c, u) = (d, t))) as [->|]; [rewrite lookup_insert_eq; eauto|].
      by rewrite lookup_insert_ne.
    + rewrite upd_eq, lookup_insert_eq. split; [lia|eauto].
  - intros v t d d' [Hv|(E1&E2&E3)] [Hv'|(E1'&E2'&E3')]; subst; [by eapply (ok_one_vote _ Hok)| | |done].
    + exfalso. by eapply Hnov.
    + exfalso. by eapply Hnov.
  - intros d t p [(->&->&->)|Hb]%Hbid; [|by apply (ok_bid _ Hr)].
    rewrite upd_eq. pose proof (ok_tip_term _ Hok c). split_and!; [lia|apply Hok|lia].
  - apply Hr.
  - intros i t Hi. destruct (ok_made _ Hok _ _ Hi) as (d&Q&HQ&Hv). exists d, Q. split; [done|]. intros; left; auto.
  - apply Hr.
  - apply Hr.
  - intros v t d b t' i Hv Hb Ht Hi Htk Hp. apply Hbid in Hb as [(->&->&->)|Hb].
    + destruct Hv as [Hv|(->&_)].
      * destruct (ok_vote _ Hok _ _ _ Hv) as [_ [b Hb]]. destruct (ok_bid _ Hok _ _ _ Hb). lia.
      * by apply (ok_kept _ Hr).
    + destruct Hv as [Hv|(->&->&->)]; [by eapply (ok_voted _ Hr)|].
      destruct (ok_bid _ Hok _ _ _ Hb). lia.
Qed.

(** [p] is at least as good a log end as [q], as voters see it. *)
Definition up_to_date p q : Prop := q.2 < p.2 ∨ (q.2 = p.2 ∧ q.1 ≤ p.1).

(** A node votes for a candidate whose log is up to date. *)
Definition voted v u c s : history :=
  {| s_tree := s_tree s; s_bids := s_bids s;
     s_votes := λ w t d, s_votes s w t d ∨ (w = v ∧ t = u ∧ d = c); s_acks := s_acks s;
     s_term := upd (s_term s) v u; s_tip := s_tip s |}.

Lemma voted_ok s v u c b :
  history_ok s → s_term s v ≤ u → s_bids s !! (c, u) = Some b →
  (∀ d, s_votes s v u d → d = c) → up_to_date b (s_tip s v) → history_ok (voted v u c s).
Proof using.
  intros Hok Hu Hb Hone Hup. pose proof (raise_ok s v u Hok Hu) as Hr.
  split; cbn.
  - apply Hr.
  - apply Hr.
  - apply Hr.
  - intros w t d [Hv|(->&->&->)]; [by apply (ok_vote _ Hr)|]. rewrite upd_eq. split; [lia|eauto].
  - intros w t d d' [Hv|(E1&E2&E3)] [Hv'|(E1'&E2'&E3')]; subst;
      [by eapply (ok_one_vote _ Hok)|by apply Hone|by symmetry; apply Hone|done].
  - apply Hr.
  - apply Hr.
  - intros i t Hi. destruct (ok_made _ Hok _ _ Hi) as (d&Q&HQ&Hv). exists d, Q. split; [done|]. intros; left; auto.
  - apply Hr.
  - apply Hr.
  - intros w t d b' t' i [Hv|(->&->&->)] Hb' Ht Hi Htk Hp; [by eapply (ok_voted _ Hr)|].
    rewrite Hb in Hb'. injection Hb' as <-. assert (anc (s_tree s) (i, t') (s_tip s v)) as Ha by (by apply (ok_kept _ Hr)).
    pose proof (anc_le _ (ok_tree _ Hok) _ _ Ha) as [_ Hle]. cbn in Hle.
    pose proof (proj1 (proj2 (ok_bid _ Hok _ _ _ Hb))) as Hkb.
    destruct Hi as [[pt cm] Hi]. destruct (tr_bounds _ (ok_tree _ Hok) _ _ _ _ Hi) as (?&?&?).
    assert (is_Some (s_tree s !! b)) as Hb1.
    { destruct Hkb as [->|?]; [|done]. destruct Hup as [?|[? _]]; cbn in *; lia. }
    destruct b as [bi bt]. unfold up_to_date in Hup. cbn in Hup. destruct Hup as [Hlt|[E Hle']].
    + apply (ok_later _ Hr); cbn; [eauto|done|lia|done].
    + eapply anc_trans; [exact Ha|]. destruct (s_tip s v) as [ti tt] eqn:Etip. cbn in *. subst tt.
      apply (tr_line _ (ok_tree _ Hok)); [|done..].
      pose proof (ok_tip _ Hok v) as Hkt. rewrite Etip in Hkt. destruct Hkt as [[= -> ->]|?]; [lia|done].
Qed.

(** The leader of a term makes an entry: the first of the term, behind the log it ran with,
    or the next. *)
Definition appended c u k pt cmd s : history :=
  {| s_tree := <[(k, u) := (pt, cmd)]> (s_tree s); s_bids := s_bids s; s_votes := s_votes s;
     s_acks := λ v t i, s_acks s v t i ∨ (v = c ∧ t = u ∧ i = k);
     s_term := s_term s; s_tip := upd (s_tip s) c (k, u) |}.

(** What may be committed is in the log a new leader of a later term has, or the next entry
    of one. *)
Lemma under_the_leader s c u p t i :
  history_ok s → elected s c u → s_tip s c = p → (p.2 = u → is_Some (s_tree s !! p)) →
  (p.2 ≠ u → s_bids s !! (c, u) = Some p) →
  is_Some (s_tree s !! (i, t)) → t < u → possible s t i → anc (s_tree s) (i, t) p.
Proof using Hnd.
  intros Hok (Q&HQ&Hv) Htip Hsome Hbid Hi Htu Hp. destruct (decide (p.2 = u)) as [E|Hne].
  - destruct p as [k pt]. cbn in E. subst pt. apply (ok_later _ Hok); auto.
  - destruct Hp as (Q'&HQ'&Hv'). destruct (quorums_meet _ _ HQ HQ') as (v&Hin1&Hin2).
    destruct (ok_vote _ Hok _ _ _ (Hv v Hin1)) as [Hw _].
    destruct (Hv' v Hin2) as [?|Htk]; [lia|]. eapply (ok_voted _ Hok v u c); eauto. by exists Q'.
Qed.

Lemma appended_ok s c u k pt cmd :
  history_ok s → s_term s c = u → elected s c u → s_tip s c = (k - 1, pt) →
  (∀ i, is_Some (s_tree s !! (i, u)) → i < k ∧ pt = u) →
  (pt ≠ u → s_bids s !! (c, u) = Some (k - 1, pt)) → history_ok (appended c u k pt cmd s).
Proof using Hnd.
  intros Hok Hu Hel Htip Hlast Hbid. pose proof (ok_tree _ Hok) as Htr.
  assert (known (s_tree s) (k - 1, pt)) as Hkn by (rewrite <-Htip; apply Hok).
  assert (s_tree s !! (k, u) = None) as Hnew by (apply eq_None_not_Some; intros [? _]%Hlast; lia).
  pose proof (known_bounds _ Htr _ Hkn) as [Hb1 Hb2]. cbn in Hb1, Hb2.
  assert (pt ≤ u) as Hpu by (pose proof (ok_tip_term _ Hok c) as E; rewrite Htip in E; cbn in E; lia).
  assert (1 ≤ u) as Hu1.
  { destruct (decide (pt = u)) as [->|Hne].
    - destruct Hkn as [[= ? ->]|[[? ?] Hk]]; [|by apply (tr_bounds _ Htr) in Hk as (?&?&?)].
      destruct Hel as (Q&[_ Hs]&Hv). destruct (set_choose_or_empty Q) as [[v Hv']|HQ].
      + destruct (ok_vote _ Hok _ _ _ (Hv v Hv')) as [_ [b Hb]]. apply (ok_bid _ Hok) in Hb as (_&Hkb&?).
        apply (known_bounds _ Htr) in Hkb. lia.
      + exfalso. assert (size Q = 0%nat) by (by apply size_empty_iff). 
        assert (0 ≤ Z.of_nat (length members) / 2) by (apply Z.div_pos; lia). lia.
    - specialize (Hbid Hne). apply (ok_bid _ Hok) in Hbid as (_&_&?). cbn in *. lia. }
  set (s' := appended c u k pt cmd s).
  assert (tree_ok (s_tree s')) as Htr' by (apply insert_tree_ok; try done; lia).
  assert (∀ p q, anc (s_tree s) p q → anc (s_tree s') p q) as Hmono by (intros; by apply anc_insert).
  assert (∀ p, anc (s_tree s) p (k - 1, pt) → anc (s_tree s') p (k, u)) as Hnext.
  { intros p Hp. apply (anc_step _ _ k u pt cmd); [apply lookup_insert_eq|]. by apply Hmono. }
  assert (∀ v t i, took s' v t i → took s v t i ∨ (v = c ∧ t = u ∧ i ≤ k)) as Htook.
  { intros v t i (j&Hj&[Ha|(->&->&->)]); [left; by exists j|by right]. }
  assert (∀ t i, possible s' t i → possible s t i) as Hposs.
  { intros t i. apply possible_back; [done|]. intros v [?|(->&->&_)]%Htook; [by left|right; lia]. }
  assert (∀ v i, took s v u i → i < k) as Hold.
  { intros v i (j&Hj&Ha). apply (ok_ack _ Hok) in Ha as [_ Ha]. apply Hlast in Ha as [? _]. lia. }
  assert (∀ i t, is_Some (s_tree s' !! (i, t)) → (i = k ∧ t = u) ∨ is_Some (s_tree s !! (i, t))) as Hin.
  { intros i t. cbn. destruct (decide ((k, u) = (i, t))) as [[= -> ->]|]; [by left|].
    rewrite lookup_insert_ne by done. by right. }
  split; cbn.
  - done.
  - intros v. unfold upd. case_decide; [right; rewrite lookup_insert_eq; eauto|].
    apply known_insert, Hok.
  - intros v. unfold upd. case_decide as Hv; [subst v; cbn; lia|apply Hok].
  - apply Hok.
  - apply Hok.
  - intros d t p Hb. destruct (ok_bid _ Hok _ _ _ Hb) as (?&?&?). split_and!; [done|by apply known_insert|done].
  - intros v t i [Ha|(->&->&->)].
    + destruct (ok_ack _ Hok _ _ _ Ha) as [? Hi]. split; [done|].
      by destruct (known_insert _ (i, t) (k, u) (pt, cmd) (or_intror Hi)) as [[= -> ->]|?];
        [destruct Hi as [[? ?] Hi%(tr_bounds _ Htr)]; lia|].
    + rewrite lookup_insert_eq. split; [lia|eauto].
  - intros i t [[-> ->]|Hi]%Hin; [by exists c|]. destruct (ok_made _ Hok _ _ Hi) as (d&He). by exists d.
  - intros i t j w Hi Hj Htw Hp. apply Hin in Hj as [[-> ->]|Hj].
    + apply Hin in Hi as [[_ ->]|Hi]; [lia|]. apply Hnext.
      apply (under_the_leader s c u); cbn; auto. intros ->. destruct Hkn as [[= _ ->]|?]; [lia|done].
    + apply Hin in Hi as [[-> ->]|Hi]; [|by apply Hmono, (ok_later _ Hok); auto].
      exfalso. destruct (ok_made _ Hok _ _ Hj) as (d&Q&HQ&Hv). destruct Hp as (Q'&HQ'&Hv').
      destruct (quorums_meet _ _ HQ HQ') as (v&Hin1&Hin2).
      destruct (ok_vote _ Hok _ _ _ (Hv v Hin1)) as [Hw _].
      destruct (Hv' v Hin2) as [Hv2|[?%Hold|(->&_)]%Htook]; [|lia|congruence + lia]. cbn in Hv2. lia.
  - intros v t i Hi Htk Hp. apply Hin in Hi as [[-> ->]|Hi].
    + apply Htook in Htk as [?%Hold|(->&_)]; [lia|]. rewrite upd_eq. constructor.
    + apply Htook in Htk as [Htk|(->&->&Hle)].
      * assert (anc (s_tree s) (i, t) (s_tip s v)) as Ha by (apply (ok_kept _ Hok); auto).
        unfold upd. case_decide as Hvc; [|by apply Hmono]. subst v. rewrite Htip in Ha. by apply Hnext.
      * rewrite upd_eq. apply (tr_line _ Htr'); [|exists (pt, cmd); apply lookup_insert_eq|done].
        destruct Hi as [x Hi]. exists x. cbn. rewrite lookup_insert_ne; [done|]. intros [= ->]. congruence.
  - intros v w d b t i Hv Hb Htw Hi Htk Hp. destruct (ok_vote _ Hok _ _ _ Hv) as [Hw _].
    apply Htook in Htk as [Htk|(->&->&_)]; [|lia]. apply Hin in Hi as [[-> ->]|Hi]; [apply Hold in Htk; lia|].
    apply Hmono. eapply (ok_voted _ Hok); eauto.
Qed.

(** A node takes the log of the leader of its term, or of a later one, up to an entry [q] of
    that term.  Its log ends there, or goes on behind it. *)
Definition accepted v (q p' : pos) s : history :=
  {| s_tree := s_tree s; s_bids := s_bids s; s_votes := s_votes s;
     s_acks := λ w t i, s_acks s w t i ∨ (w = v ∧ t = q.2 ∧ i = p'.1);
     s_term := upd (s_term s) v q.2; s_tip := upd (s_tip s) v p' |}.

(** Where it ends then. *)
Definition accepts h p q p' : Prop := (anc h q p ∧ p' = p) ∨ (¬ anc h q p ∧ p' = q).

Lemma accepts_term s v q p' :
  history_ok s → s_term s v ≤ q.2 → accepts (s_tree s) (s_tip s v) q p' →
  anc (s_tree s) q p' ∧ p'.2 = q.2.
Proof using.
  intros Hok Hv [[Ha ->]|[_ ->]]; [|by split; [constructor|]]. split; [done|].
  pose proof (ok_tip_term _ Hok v). apply (anc_le _ (ok_tree _ Hok)) in Ha. lia.
Qed.

(** What a node had of the logs of earlier terms, and may be committed, it keeps. *)
Lemma accepts_keeps s v q p' p t i :
  history_ok s → s_term s v ≤ q.2 → is_Some (s_tree s !! q) → accepts (s_tree s) (s_tip s v) q p' →
  is_Some (s_tree s !! (i, t)) → t ≤ s_term s v → possible s t i →
  anc (s_tree s) p (i, t) → anc (s_tree s) p (s_tip s v) → anc (s_tree s) p p'.
Proof using.
  intros Hok Hv Hq [[_ ->]|[Hno ->]] Hi Ht Hp Hpi Hpv; [done|]. pose proof (ok_tree _ Hok) as Htr.
  destruct q as [j u]. cbn in *. destruct (decide (t = u)) as [->|Hne].
  - destruct (decide (i ≤ j)) as [Hle|Hgt].
    + eapply anc_trans; [exact Hpi|]. by apply (tr_line _ Htr).
    + assert (anc (s_tree s) (j, u) (i, u)) as Hji by (apply (tr_line _ Htr); [done..|lia]).
      destruct (decide (p.1 ≤ j)); [by apply (anc_between _ Htr p (j, u) (i, u))|]. destruct Hno.
      eapply anc_trans; [|exact Hpv]. apply (anc_between _ Htr (j, u) p (i, u)); [done..|cbn; lia].
  - eapply anc_trans; [exact Hpi|]. apply (ok_later _ Hok); [done..|lia|done].
Qed.

Lemma accepted_ok s v q p' :
  history_ok s → s_term s v ≤ q.2 → is_Some (s_tree s !! q) → accepts (s_tree s) (s_tip s v) q p' →
  history_ok (accepted v q p' s).
Proof using.
  intros Hok Hv Hq Hacc. pose proof (ok_tree _ Hok) as Htr.
  pose proof (raise_ok s v q.2 Hok Hv) as Hr.
  destruct (accepts_term _ _ _ _ Hok Hv Hacc) as [Hqp Hp2].
  assert (known (s_tree s) p') as Hkn by (destruct Hacc as [[_ ->]|[_ ->]]; [apply Hok|by right]).
  assert (is_Some (s_tree s !! p')) as Hp'.
  { destruct Hkn as [->|?]; [|done]. destruct q as [j u], Hq as [[? ?] Hq%(tr_bounds _ Htr)]. cbn in *. lia. }
  set (s' := accepted v q p' s).
  assert (∀ w t i, took s' w t i → took s w t i ∨ (w = v ∧ t = q.2 ∧ i ≤ p'.1)) as Htook.
  { intros w t i (j&Hj&[Ha|(->&->&->)]); [left; by exists j|by right]. }
  assert (∀ w, s_term s w ≤ s_term s' w) as Hle by (intros w; cbn; unfold upd; case_decide; subst; lia).
  assert (∀ t i, possible s' t i → possible s t i) as Hposs.
  { intros t i. apply possible_back; [done|]. intros w [?|(->&->&_)]%Htook; [by left|by right]. }
  split; cbn.
  - done.
  - intros w. unfold upd. case_decide; [done|apply Hok].
  - intros w. unfold upd. case_decide; [lia|apply Hok].
  - apply Hr.
  - apply Hok.
  - apply Hr.
  - intros w t i [Ha|(->&->&->)]; [by apply (ok_ack _ Hr)|]. rewrite upd_eq, <-Hp2. split; [lia|]. by destruct p'.
  - apply Hok.
  - intros i t j u ? ? ? ?%Hposs. by apply (ok_later _ Hok).
  - intros w t i Hi Htk Hp%Hposs. apply Htook in Htk as [Htk|(->&->&Hip)].
    + assert (anc (s_tree s) (i, t) (s_tip s w)) as Ha by (by apply (ok_kept _ Hok)).
      unfold upd. case_decide as Hw; [subst w|done].
      eapply (accepts_keeps s v q p' (i, t) t i); try done; [|constructor].
      destruct Htk as (j&_&[? _]%(ok_ack _ Hok)). done.
    + rewrite upd_eq. destruct p' as [k u]. cbn in *. subst u. by apply (tr_line _ Htr).
  - intros w u c b t i Hvo Hb Htu Hi Htk Hp%Hposs. apply Htook in Htk as [Htk|(->&->&_)];
      [by eapply (ok_voted _ Hok)|]. destruct (ok_vote _ Hok _ _ _ Hvo). lia.
Qed.

(** ** Commitment *)

(** A position that is under a chosen entry of a term up to [u]. *)
Definition safe s (u : Z) p : Prop :=
  p = (0, 0) ∨ ∃ t i, t ≤ u ∧ chosen s t i ∧ anc (s_tree s) p (i, t).

(** No two chosen entries are on different paths. *)
Lemma chosen_linear s t i u j :
  history_ok s → chosen s t i → chosen s u j →
  anc (s_tree s) (i, t) (j, u) ∨ anc (s_tree s) (j, u) (i, t).
Proof using.
  intros Hok Ht Hu. pose proof (proj1 Ht) as Hi. pose proof (proj1 Hu) as Hj.
  destruct (Z.lt_trichotomy t u) as [Hlt|[->|Hgt]].
  - left. apply (ok_later _ Hok); [done..|]. by apply chosen_possible.
  - destruct (decide (i ≤ j)); [left|right]; apply (tr_line _ (ok_tree _ Hok)); (done || lia).
  - right. apply (ok_later _ Hok); [done|done|lia|]. by apply chosen_possible.
Qed.

Lemma safe_unique s u u' p p' :
  history_ok s → safe s u p → safe s u' p' → p.1 = p'.1 → p = p'.
Proof using.
  intros Hok Hp Hp' E. pose proof (ok_tree _ Hok) as Htr.
  assert (∀ t i q, chosen s t i → anc (s_tree s) q (i, t) → q.1 = 0 → q = (0, 0)) as Hroot.
  { intros t i q Hc Ha Hq. assert (known (s_tree s) q) as Hk by (eapply (anc_known _ Htr); [done|by right; apply Hc]).
    destruct Hk as [?|[[? ?] Hk]]; [done|]. destruct q. apply (tr_bounds _ Htr) in Hk. cbn in *. lia. }
  destruct Hp as [->|(t&i&_&Hc&Ha)], Hp' as [->|(t'&i'&_&Hc'&Ha')]; [done| | |].
  - symmetry. by eapply Hroot.
  - by eapply Hroot.
  - destruct (chosen_linear _ _ _ _ _ Hok Hc Hc') as [Hl|Hl].
    + eapply (anc_unique _ Htr p p' (i', t')); [by eapply anc_trans|done..].
    + eapply (anc_unique _ Htr p p' (i, t)); [done|by eapply anc_trans|done].
Qed.

(** A later history: what was chosen stays chosen. *)
Record extends s s' : Prop := {
  ex_tree p x : s_tree s !! p = Some x → s_tree s' !! p = Some x;
  ex_acks v t i : s_acks s v t i → s_acks s' v t i;
  ex_votes v t c : s_votes s v t c → s_votes s' v t c;
  ex_bids k p : s_bids s !! k = Some p → s_bids s' !! k = Some p
}.

Lemma extends_refl s : extends s s.
Proof using. by split. Qed.
Lemma extends_trans s1 s2 s3 : extends s1 s2 → extends s2 s3 → extends s1 s3.
Proof using. intros [] []. split; eauto. Qed.

Lemma extends_took s s' v t i : extends s s' → took s v t i → took s' v t i.
Proof using. intros He (j&?&?). exists j. split; [done|by apply He]. Qed.

Lemma extends_elected s s' c u : extends s s' → elected s c u → elected s' c u.
Proof using. intros He (Q&HQ&Hv). exists Q. split; [done|]. intros v ?. by apply He, Hv. Qed.

Lemma extends_anc s s' p q : extends s s' → anc (s_tree s) p q → anc (s_tree s') p q.
Proof using. intros He. induction 1 as [|i t pt c Hi _ IH]; [constructor|]. econstructor; [by apply He|done]. Qed.

Lemma extends_chosen s s' t i : extends s s' → chosen s t i → chosen s' t i.
Proof using.
  intros He ([x Hi]&Q&HQ&Hv). split; [exists x; by apply He|]. exists Q. split; [done|].
  intros v Hin. destruct (Hv v Hin) as (j&?&?). exists j. split; [done|]. by apply He.
Qed.

Lemma extends_safe s s' u u' p : extends s s' → u ≤ u' → safe s u p → safe s' u' p.
Proof using.
  intros He Hu [->|(t&i&Ht&Hc&Ha)]; [by left|right]. exists t, i.
  split_and!; [lia|by eapply extends_chosen|by eapply extends_anc].
Qed.

(** A safe position of a node's log stays in it when the node takes a leader's log. *)
Lemma accepts_safe s v q p' p :
  history_ok s → s_term s v ≤ q.2 → is_Some (s_tree s !! q) → accepts (s_tree s) (s_tip s v) q p' →
  safe s (s_term s v) p → anc (s_tree s) p (s_tip s v) → anc (s_tree s) p p'.
Proof using.
  intros Hok Hv Hq Hacc [->|(t&i&Ht&Hc&Ha)] Hp.
  - destruct Hacc as [[_ ->]|[_ ->]]; [done|]. pose proof (ok_tree _ Hok) as Htr.
    assert (known (s_tree s) q) as Hk by (by right). pose proof (known_bounds _ Htr _ Hk) as [Hq1 _].
    destruct (anc_at _ Htr 0 q Hk) as (r&Hr&Hra); [done|].
    assert (known (s_tree s) r) as [->|[[? ?] Hkr]] by (by eapply (anc_known _ Htr)); [done|].
    destruct r. apply (tr_bounds _ Htr) in Hkr. cbn in *. lia.
  - eapply accepts_keeps; try done; [apply Hc|by apply chosen_possible].
Qed.
End quorums.
End entries.

(** * The log of a node as a path *)

Import MemoryRaftNode.

(** ** Lists of entries as paths *)

Definition at_ (e : LogEntry) : pos := (le_index e, le_term e).

(** Where a list of entries that follow position [p] ends. *)
Definition ends (p : pos) (l : list LogEntry) : pos :=
  match last l with Some e => at_ e | None => p end.

(** The entries follow each other in the tree, the first of them follows [p]. *)
Fixpoint chain (h : tree) (p : pos) (l : list LogEntry) : Prop :=
  match l with
  | [] => True
  | e :: l => le_index e = p.1 + 1 ∧ h !! at_ e = Some (p.2, le_command e) ∧ chain h (at_ e) l
  end.

Lemma ends_cons p e l : ends p (e :: l) = ends (at_ e) l.
Proof. unfold ends. rewrite last_cons. by destruct (last l). Qed.
Lemma ends_snoc p l e : ends p (l ++ [e]) = at_ e.
Proof. unfold ends. by rewrite last_snoc. Qed.
Lemma ends_app p l l' : ends p (l ++ l') = ends (ends p l) l'.
Proof. unfold ends. rewrite last_app. by destruct (last l'). Qed.

Lemma chain_app h l l' : ∀ p, chain h p (l ++ l') ↔ chain h p l ∧ chain h (ends p l) l'.
Proof.
  induction l as [|e l IH]; intros p; cbn [app chain]; [by split; [|intros [_ ?]]|].
  rewrite IH, ends_cons. tauto.
Qed.

Lemma chain_insert h p l q y : h !! q = None → chain h p l → chain (<[q := y]> h) p l.
Proof.
  intros Hq. revert p. induction l as [|e l IH]; intros p; cbn; [done|]. intros (?&He&?).
  split_and!; [done| |by apply IH]. rewrite lookup_insert_ne; [done|]. intros ->. congruence.
Qed.

Lemma chain_mono h h' p l :
  (∀ q y, h !! q = Some y → h' !! q = Some y) → chain h p l → chain h' p l.
Proof. intros Hh. revert p. induction l as [|e l IH]; intros p; cbn; [done|]. intros (?&?&?). auto. Qed.

Lemma chain_known h l : ∀ p, known h p → chain h p l → known h (ends p l).
Proof.
  induction l as [|e l IH]; intros p Hp; cbn [chain]; [done|]. intros (_&He&Hc). rewrite ends_cons.
  apply IH; [|done]. right. eauto.
Qed.

Lemma chain_lookup h l p k e : chain h p l → l !! k = Some e → ∃ pt, h !! at_ e = Some (pt, le_command e).
Proof.
  intros Hc Hk. apply list_elem_of_split_length in Hk as (l1&l2&->&_).
  apply chain_app in Hc as [_ (_&?&_)]. eauto.
Qed.

(** The entries are on the path to the end. *)
Lemma chain_anc h l : ∀ p, chain h p l → anc h p (ends p l).
Proof.
  induction l as [|e l IH]; intros p; cbn [chain]; [constructor|]. intros (Hi&He&Hc). rewrite ends_cons.
  eapply anc_trans; [|by apply IH]. unfold at_ in *. rewrite Hi in He |- *.
  eapply anc_step; [exact He|]. replace (p.1 + 1 - 1) with p.1 by lia. destruct p. constructor.
Qed.

Lemma chain_entry h l p k e : chain h p l → l !! k = Some e → anc h (at_ e) (ends p l).
Proof.
  intros Hc Hk. apply list_elem_of_split_length in Hk as (l1&l2&->&_).
  apply chain_app in Hc as [_ Hc]. cbn [chain] in Hc. destruct Hc as (_&_&Hc).
  rewrite ends_app, ends_cons. by apply chain_anc.
Qed.

Lemma chain_contiguous h l : ∀ p, chain h p l → contiguous p.1 l.
Proof.
  induction l as [|e l IH]; intros p; cbn [chain]; [done|]. intros (Hi&_&Hc) [|k] x; cbn.
  - intros [= <-]. lia.
  - intros Hx. rewrite (IH _ Hc k x Hx). cbn. lia.
Qed.

Lemma chain_ends_index h l p : chain h p l → (ends p l).1 = p.1 + Z.of_nat (length l).
Proof.
  intros Hc%chain_contiguous%contiguous_last. unfold ends. destruct (last l); [done|]. rewrite Hc. cbn. lia.
Qed.

(** A position on the path, above the beginning, is one of the entries. *)
Lemma chain_at h l p q :
  tree_ok h → chain h p l → anc h q (ends p l) → p.1 < q.1 →
  ∃ e, l !! Z.to_nat (q.1 - p.1 - 1) = Some e ∧ at_ e = q.
Proof.
  intros Hok Hc Hq Hlt. pose proof (chain_ends_index _ _ _ Hc) as He.
  pose proof (anc_le _ Hok _ _ Hq) as [Hle _].
  destruct (lookup_lt_is_Some_2 l (Z.to_nat (q.1 - p.1 - 1))) as [e Hl]; [lia|].
  exists e. split; [done|]. apply (anc_unique _ Hok _ _ (ends p l)); [by eapply chain_entry|done|].
  cbn. rewrite (chain_contiguous _ _ _ Hc _ _ Hl). lia.
Qed.

(** Two lists from one place to one end are the same. *)
Lemma chain_unique h l : ∀ p l',
  tree_ok h → chain h p l → chain h p l' → ends p l = ends p l' → l = l'.
Proof.
  intros p l' Hok Hc Hc' E. apply list_eq. intros k.
  assert (length l = length l') as Hlen.
  { pose proof (chain_ends_index _ _ _ Hc). pose proof (chain_ends_index _ _ _ Hc').
    rewrite E in *. lia. }
  destruct (l !! k) as [e|] eqn:Hk, (l' !! k) as [e'|] eqn:Hk'; [| | |done].
  - f_equal. assert (at_ e = at_ e') as Ee.
    { apply (anc_unique _ Hok _ _ (ends p l)); [by eapply chain_entry|rewrite E; by eapply chain_entry|].
      cbn. by rewrite (chain_contiguous _ _ _ Hc _ _ Hk), (chain_contiguous _ _ _ Hc' _ _ Hk'). }
    destruct (chain_lookup _ _ _ _ _ Hc Hk) as [pt H1], (chain_lookup _ _ _ _ _ Hc' Hk') as [pt' H2]. rewrite Ee, H2 in H1.
    destruct e, e'. unfold at_ in Ee. cbn in *. congruence.
  - apply lookup_lt_Some in Hk. apply lookup_ge_None in Hk'. lia.
  - apply lookup_lt_Some in Hk'. apply lookup_ge_None in Hk. lia.
Qed.

Lemma chain_take h l p k : chain h p l → chain h p (take k l).
Proof. intros Hc. rewrite <-(take_drop k l) in Hc. by apply chain_app in Hc as [? _]. Qed.

(** The path below an entry of a list. *)
Lemma ends_take h l p q :
  tree_ok h → chain h p l → anc h q (ends p l) → p.1 ≤ q.1 → ends p (take (Z.to_nat (q.1 - p.1)) l) = q.
Proof.
  intros Hok Hc Hq Hle. destruct (decide (p.1 = q.1)) as [E|Hne].
  - rewrite E, Z.sub_diag. cbn. apply (anc_unique _ Hok _ _ (ends p l)); [by apply chain_anc|done..].
  - destruct (chain_at _ _ _ _ Hok Hc Hq) as (e&Hl&He); [lia|].
    replace (Z.to_nat (q.1 - p.1)) with (Datatypes.S (Z.to_nat (q.1 - p.1 - 1))) by lia.
    rewrite (take_S_r _ _ _ Hl), ends_snoc. done.
Qed.

(** ** A node without snapshots *)

Section node.
Context {S R : Type} `{!RaftNode.StateMachine S} `{RaftStorageLaws R} `{!Msgpack}.
Abbreviation node := (MemoryRaftNode.t S R).
Implicit Types (n : node) (d : durable).

Definition disk n d : Prop := ∃ r, _storage n = Some r ∧ holds r d.

Lemma holds_unique r d d' : holds r d → holds r d' → d = d'.
Proof.
  intros Hd Hd'. pose proof (holds_meta _ _ Hd) as E1. rewrite (holds_meta _ _ Hd') in E1.
  pose proof (holds_log _ _ Hd) as E2. rewrite (holds_log _ _ Hd') in E2.
  pose proof (holds_commit _ _ Hd) as E3. rewrite (holds_commit _ _ Hd') in E3.
  pose proof (holds_snapshot _ _ Hd) as E4. rewrite (holds_snapshot _ _ Hd') in E4.
  destruct d, d'. cbn in *. congruence.
Qed.

Lemma disk_unique n d d' : disk n d → disk n d' → d = d'.
Proof. intros (r&Hr&Hd) (r'&Hr'&Hd'). simplify_eq. by eapply holds_unique. Qed.

(** The part of a node that is about its log, and how it stands with the disk. *)
Record plain n d : Prop := {
  pl_base : _last_included_index n = 0;
  pl_base_term : _last_included_term n = 0;
  pl_interval : _snapshot_interval n ≤ 0;
  pl_snapshot : d_snapshot d = None;
  pl_commit : d_commit d ≤ _commit_index n
}.

(** Where the log ends. *)
Definition tip n : pos := (_last_log_index n, _last_log_term n).

Lemma tip_ends n d : plain n d → tip n = ends (0, 0) (_log n).
Proof.
  intros [E1 E2 _ _ _]. unfold tip, ends, _last_log_index, _last_log_term. rewrite E1, E2.
  by destruct (last (_log n)).
Qed.

Lemma tip_log n n' d d' : plain n d → plain n' d' → _log n' = _log n → tip n' = tip n.
Proof. intros Hp Hp' E. by rewrite (tip_ends _ _ Hp), (tip_ends _ _ Hp'), E. Qed.

(** *** Handlers that leave the log alone *)

Definition core n : list LogEntry * Z * Z * Z * Z :=
  (_log n, _last_included_index n, _last_included_term n, _snapshot_interval n, _commit_index n).

Class Keeps {A} (m : M node A) : Prop :=
  keeps : ∀ n n' a, m n = (n', Ok a) →
    core n' = core n ∧
    ∀ d, disk n d → ∃ d', disk n' d' ∧ d_commit d' = d_commit d ∧ d_snapshot d' = d_snapshot d.

#[export] Instance keeps_ret {A} (a : A) : Keeps (ret a).
Proof. intros n n' b [= <- <-]. eauto. Qed.
#[export] Instance keeps_read {A} (f : node → A) : Keeps (read f).
Proof. intros n n' b [= <- <-]. eauto. Qed.
#[export] Instance keeps_reads {A} (f : node → result A) : Keeps (reads f).
Proof. intros n n' b [= <- _]. eauto. Qed.
#[export] Instance keeps_bind {A B} (m : M node A) (f : A → M node B) :
  Keeps m → (∀ a, Keeps (f a)) → Keeps (bind m f).
Proof.
  intros Hm Hf n n' b Hr. mstep Hr. destruct (Hm _ _ _ Hm0) as [E1 D1], (Hf _ _ _ _ Hr) as [E2 D2].
  split; [congruence|]. intros d Hd. destruct (D1 d Hd) as (d1&Hd1&?&?), (D2 d1 Hd1) as (d2&Hd2&?&?).
  exists d2. split_and!; [done|congruence..].
Qed.

Lemma keeps_modify (f : node → node) :
  (∀ n, core (f n) = core n) → (∀ n, _storage (f n) = _storage n) → Keeps (modify f).
Proof.
  intros Hc Hs n n' a [= <- <-]. split; [done|]. intros d (r&Hr&Hd). exists d. split; [|done].
  exists r. by rewrite Hs.
Qed.

Lemma save_meta_disk n n' u d :
  disk n d → _save_meta n = (n', Ok u) →
  ∃ r', n' = with_storage (Some r') n ∧ disk n' (set_meta (_current_term n) (_voted_for n) d).
Proof.
  intros (r&Hr&Hd) Hs. apply (on_storage_Ok _ _ _ _ r) in Hs as (r'&Hf&->); [|done].
  exists r'. split; [done|]. exists r'. split; [done|]. by eapply save_meta_holds.
Qed.

Lemma on_storage_core f n n' u : on_storage f n = (n', Ok u) → core n' = core n.
Proof.
  unfold on_storage. destruct (_storage n); [|by intros [= <- _]]. destruct (f n r); [|done]. by intros [= <- _].
Qed.

#[export] Instance keeps_save_meta : Keeps _save_meta.
Proof.
  intros n n' u Hs. split; [by eapply on_storage_core|]. intros d Hd.
  destruct (save_meta_disk _ _ _ _ Hd Hs) as (r'&->&Hd'). eauto.
Qed.

Lemma keeps_if {A} (b : bool) (m m' : M node A) : Keeps m → Keeps m' → Keeps (if b then m else m').
Proof. by destruct b. Qed.

Lemma keeps_plain {A} (m : M node A) n n' a d :
  Keeps m → m n = (n', Ok a) → disk n d → plain n d →
  ∃ d', disk n' d' ∧ plain n' d' ∧ _log n' = _log n ∧ _commit_index n' = _commit_index n ∧ tip n' = tip n.
Proof.
  intros Hk Hr Hd Hp. destruct (Hk _ _ _ Hr) as [[= E1 E2 E3 E4 E5] D]. destruct (D d Hd) as (d'&Hd'&Ec&Es).
  assert (plain n' d') as Hp'.
  { destruct Hp. split; rewrite ?E2, ?E3, ?E4, ?E5, ?Ec, ?Es; done. }
  exists d'. split_and!; try done. by eapply tip_log.
Qed.
End node.

(** Solve [Keeps] for a handler made of reads, small updates and saves of the term. *)
Ltac keeps :=
  repeat first
    [ apply keeps_modify; [by intros []|by intros []]
    | apply keeps_bind; [|intros ?]
    | apply _
    | case_match ].

Section handlers.
Context {S R : Type} `{!RaftNode.StateMachine S} `{RaftStorageLaws R} `{!Msgpack}.
Abbreviation node := (MemoryRaftNode.t S R).
Implicit Types (n : node) (d : durable).

#[export] Instance keeps_step_down t : Keeps (step_down t : M node _).
Proof. unfold step_down, _forget_leader. keeps. Qed.
#[export] Instance keeps_save_if b : Keeps (save_if b : M node _).
Proof. unfold save_if. keeps. Qed.
#[export] Instance keeps_adopt t : Keeps (adopt_term t : M node _).
Proof. unfold adopt_term. keeps. Qed.
#[export] Instance keeps_follow l : Keeps (follow l : M node _).
Proof. unfold follow. keeps. Qed.
#[export] Instance keeps_backed_off (p : Z) : Keeps (backed_off p : M node _).
Proof. unfold backed_off. keeps. Qed.
#[export] Instance keeps_request_vote req : Keeps (request_vote req : M node _).
Proof. unfold request_vote. keeps. Qed.
#[export] Instance keeps_propose_admit c : Keeps (propose_admit c : M node _).
Proof. unfold propose_admit. keeps. Qed.
#[export] Instance keeps_propose_done : Keeps (propose_done : M node _).
Proof. unfold propose_done. keeps. Qed.
#[export] Instance keeps_freeze r : Keeps (freeze_writes r : M node _).
Proof. unfold freeze_writes. keeps. Qed.
#[export] Instance keeps_resume : Keeps (resume_writes : M node _).
Proof. unfold resume_writes. keeps. Qed.
#[export] Instance keeps_shutdown : Keeps (shutdown : M node _).
Proof. unfold shutdown. keeps. Qed.

(** *** Roles *)

(** What stays of a node's role: the same, or it follows in a later term. *)
Record demoted n n' : Prop := {
  de_term : _current_term n ≤ _current_term n';
  de_match : _match_index n' = _match_index n;
  de_state : _state n' = FOLLOWER ∨ (_state n' = _state n ∧ _current_term n' = _current_term n)
}.

Lemma demoted_refl n : demoted n n.
Proof. split; [lia|done|by right]. Qed.

Lemma save_meta_frame n n' u : _save_meta n = (n', Ok u) → n' = n ∨ ∃ r, n' = with_storage (Some r) n.
Proof.
  unfold _save_meta, on_storage. destruct (_storage n); [|intros [= <- _]; by left].
  destruct (save_meta _ _ _); [|done]. intros [= <- _]. eauto.
Qed.

Lemma request_vote_role req n n' r :
  request_vote req n = (n', Ok r) →
  demoted n n' ∧
  (rvr_vote_granted r = true → rvr_term r = rv_term req ∧ rv_term req = _current_term n' ∧
     up_to_date (rv_last_log_index req, rv_last_log_term req) (tip n)).
Proof.
  intros Hr. unfold request_vote in Hr. do 3 (mstep Hr; mpure). mstep Hr. rename n0 into n1.
  assert (demoted n n1 ∧ (rv_term req ≤ _current_term n1)) as [Hd Hle].
  { destruct (_ >? _) eqn:Ht.
    - unfold step_down in Hm. mrun_in Hm. mrun_in Hm0. apply Z.gtb_lt in Ht.
      apply save_meta_frame in Hm as [->|[? ->]]; (split; [split; [px; lia|done|by left]|px; lia]).
    - injection Hm as <- <-. split; [apply demoted_refl|]. rewrite Z.gtb_ltb in Ht. zbool. lia. }
  clear Hm. mstep Hr. mpure. destruct (_ <? _) eqn:Hlt; [injection Hr as <- <-; done|]. zbool.
  destruct (_ && _) eqn:Hok; [|injection Hr as <- <-; done].
  apply andb_true_iff in Hok as [_ Hok].
  assert (up_to_date (rv_last_log_index req, rv_last_log_term req) (tip n)) as Hup.
  { unfold up_to_date, tip. cbn. rewrite Z.gtb_ltb, Z.geb_leb in Hok. zbool; lia. }
  mrun_in Hr. assert (rv_term req = _current_term n1) as E by lia.
  apply save_meta_frame in Hm as [->|[? ->]]; (split; [by destruct Hd; split|done]).
Qed.

(** *** Committing *)

(** The parts that committing leaves alone. *)
Definition rest n : Z * list Z * NodeState * Z * list LogEntry * Z * Z * Z * gmap Z Z :=
  (_node_id n, _peers n, _state n, _current_term n, _log n, _last_included_index n,
   _last_included_term n, _snapshot_interval n, _match_index n).

Lemma rest_log n n' : rest n' = rest n → _log n' = _log n.
Proof. by intros [=]. Qed.
Lemma rest_with_log l n n' : rest n' = rest n → rest (with_log l n') = rest (with_log l n).
Proof. intros [= E1 E2 E3 E4 E5 E6 E7 E8 E9]. unfold rest. px. by rewrite E1, E2, E3, E4, E6, E7, E8, E9. Qed.

(** The index to which the count of a leader moves its commit index. *)
Definition commit_rule n (c : Z) : Prop :=
  _commit_index n < c ∧ (∃ e, _entry_at c n = Some e ∧ le_term e = _current_term n) ∧
  majority n ≤ 1 + Z.of_nat (length (filter (λ m, c ≤ m) (map_to_list (_match_index n)).*2)).

Lemma rest_plain n n' d d' :
  plain n d → rest n' = rest n → d_snapshot d' = None → d_commit d' ≤ _commit_index n' → plain n' d'.
Proof. intros [] [= E1 E2 E3 E4 E5 E6 E7 E8 E9] Hs Hc. split; rewrite ?E6, ?E7, ?E8; done. Qed.

(** Without snapshots, applying moves the machine and its results only. *)
Lemma apply_effect n n' u :
  _snapshot_interval n ≤ 0 → _last_applied n ≤ _commit_index n →
  _apply_committed_entries n = (n', Ok u) →
  rest n' = rest n ∧ _commit_index n' = _commit_index n ∧ _storage n' = _storage n.
Proof.
  intros Hi Hle [= <- _]. destruct (apply_loop_frame n Hle) as (rs&sm&->). unfold _maybe_snapshot.
  set (n1 := with_apply_results _ _). change (_storage n1) with (_storage n).
  change (_snapshot_interval n1) with (_snapshot_interval n).
  destruct (_storage n) eqn:Hs; [|by split_and!]. assert (_snapshot_interval n <=? 0 = true) as -> by lia.
  by split_and!.
Qed.

(** A commit index that is set, saved and applied. *)
Lemma set_commit_effect n d c n' u :
  disk n d → plain n d → _last_applied n ≤ c →
  (modify (with_commit_index c);;; _save_commit_index;;; _apply_committed_entries) n = (n', Ok u) →
  rest n' = rest n ∧ _commit_index n' = c ∧ ∃ d', disk n' d' ∧ plain n' d'.
Proof.
  intros (r&Hr&Hd) Hp Hle Hrun. mrun_in Hrun. apply (on_storage_Ok _ _ _ _ r) in Hm as (r'&Hf&->); [|done].
  pose proof (save_commit_holds _ _ _ _ Hd Hf) as Hd'.
  apply apply_effect in Hrun as (E&Ec&Es); [|px; apply Hp|px; done].
  split; [exact E|]. split; [exact Ec|]. eexists. split; [exists r'; by rewrite Es|].
  eapply (rest_plain n); [done|exact E|apply Hp|]. cbn. rewrite Ec. px. lia.
Qed.

Lemma update_commit_effect n d n' u :
  node_inv n d → plain n d → _update_commit_index n = (n', Ok u) →
  rest n' = rest n ∧ (_commit_index n' = _commit_index n ∨ commit_rule n (_commit_index n')) ∧
  ∃ d', disk n' d' ∧ plain n' d'.
Proof.
  intros Hi Hp Hr. assert (disk n d) as Hd by apply Hi.
  assert ((n, Ok tt) = (n', Ok u) → rest n' = rest n ∧
    (_commit_index n' = _commit_index n ∨ commit_rule n (_commit_index n')) ∧ ∃ d', disk n' d' ∧ plain n' d') as Hsame.
  { intros [= <- _]. split_and!; [done|by left|by exists d]. }
  unfold _update_commit_index in Hr. do 2 (mstep Hr; mpure).
  destruct (quorum_index n) as [c|] eqn:Hq; [|by apply Hsame].
  destruct (c >? _) eqn:Hc; [|by apply Hsame]. apply Z.gtb_lt in Hc.
  destruct (_entry_at c n) as [e|] eqn:He; [|by apply Hsame].
  destruct (_ =? _) eqn:Hte; [|by apply Hsame]. zbool.
  apply (set_commit_effect n d) in Hr as (E&Ec&Hd'); [|done|done|pose proof (ni_bounds _ _ Hi); lia].
  split_and!; [done| |done]. right. rewrite Ec. split_and!; [lia|by exists e|by apply quorum_index_majority].
Qed.

(** *** Entries of a leader's own *)

Lemma save_entry_effect n d e n' u :
  node_inv n d → plain n d → le_index e = _last_log_index n + 1 →
  _save_log_entry e (with_log (_log n ++ [e]) n) = (n', Ok u) →
  (∃ r, n' = with_storage (Some r) (with_log (_log n ++ [e]) n)) ∧ ∃ d', node_inv n' d' ∧ plain n' d'.
Proof.
  intros Hi Hp He Hr. destruct (append_inv n d e n' u Hi He Hr) as (d'&Hi'&_). destruct (ni_store _ _ Hi) as (r&Hs&Hh).
  apply (on_storage_Ok _ _ _ _ r) in Hr as (r'&Hf&->); [|done].
  assert (holds r' (set_log (d_log d ++ [e]) d)) as Hh'.
  { eapply append_holds; [done| |done]. eapply Forall_impl; [apply (ni_disk _ _ Hi)|]. cbn. intros. lia. }
  split; [by exists r'|]. exists d'. split; [done|].
  assert (d' = set_log (d_log d ++ [e]) d) as ->.
  { eapply disk_unique; [apply Hi'|by exists r']. }
  destruct Hp. by split.
Qed.

Lemma append_own_effect c n d n' e :
  node_inv n d → plain n d → append_own c n = (n', Ok e) →
  let n1 := with_log (_log n ++ [e]) n in
  e = {| le_term := _current_term n; le_index := _last_log_index n + 1; le_command := c |} ∧
  rest n' = rest n1 ∧ (_commit_index n' = _commit_index n ∨ commit_rule n1 (_commit_index n')) ∧
  ∃ d', disk n' d' ∧ plain n' d'.
Proof.
  intros Hi Hp Hr n1. unfold append_own in Hr. mrun_in Hr. set (e0 := {| le_term := _ |}) in *.
  apply (save_entry_effect n d) in Hm as ((r&->)&d1&Hi1&Hp1); [|done..].
  destruct (update_commit_effect _ _ _ _ Hi1 Hp1 Hm0) as (E&Hc&Hd').
  split; [done|]. split_and!; [done|exact Hc|done].
Qed.

(** *** Elections *)

Lemma reset_matches n (p m : Z) :
  (∀ q k, _match_index n !! q = Some k → q ∈ _peers n) →
  _match_index (reset_progress n) !! p = Some m → p ∈ _peers n ∧ m = 0.
Proof.
  intros Hk. unfold reset_progress. cbn.
  assert (∀ ps (M0 : gmap Z Z), (∀ q k, M0 !! q = Some k → q ∈ _peers n ∧ (k = 0 ∨ q ∈ ps)) →
    (∀ q, q ∈ ps → q ∈ _peers n) → foldl (λ m p, <[p := 0]> m) M0 ps !! p = Some m → p ∈ _peers n ∧ m = 0) as Hf.
  { induction ps as [|q ps IH]; intros M0 HM Hps; cbn [foldl].
    - intros [? [?|?%not_elem_of_nil]]%HM; done.
    - apply IH; [|set_solver]. intros q' k [[-> <-]|[Hne Hq]]%lookup_insert_Some; [set_solver|].
      destruct (HM _ _ Hq) as [? [?|[->|?]%elem_of_cons]]; [auto|done|auto]. }
  apply Hf; [|done]. intros q k Hq. apply Hk in Hq. auto.
Qed.

(** A candidate that has a majority leads, with one more entry in its log. *)
Record leads_now n n' : Prop := {
  ln_state : _state n = CANDIDATE ∧ _state n' = LEADER;
  ln_log : _log n' = _log n ++ [{| le_term := _current_term n; le_index := _last_log_index n + 1;
                                   le_command := NOOP_COMMAND |}];
  ln_same : _current_term n' = _current_term n;
  ln_match (p m : Z) : _match_index n' !! p = Some m → p ∈ _peers n ∧ m = 0;
  ln_commit : _commit_index n' = _commit_index n ∨
    ∃ n1, rest n' = rest n1 ∧ _commit_index n1 = _commit_index n ∧ commit_rule n1 (_commit_index n')
}.

Lemma check_vote_effect n d n' u :
  node_inv n d → plain n d → (∀ q k, _match_index n !! q = Some k → q ∈ _peers n) →
  _check_vote_count n = (n', Ok u) →
  n' = n ∨ (leads_now n n' ∧ ∃ d', disk n' d' ∧ plain n' d').
Proof.
  intros Hi Hp Hk Hr. unfold _check_vote_count in Hr. mstep Hr. mpure.
  case_decide as Hs; [injection Hr as <- _; by left|].
  assert (_state n = CANDIDATE) as Hc by (by destruct (_state n); try (destruct Hs; discriminate)).
  destruct (_ >=? _); [|injection Hr as <- _; by left]. right.
  unfold _append_noop_entry in Hr. mrun_in Hr. set (n2 := reset_progress _) in Hm.
  assert (node_inv n2 d) as Hi0 by (apply (inv_core n); [done|by repeat split|apply Hi]).
  assert (plain n2 d) as Hp0 by (destruct Hp; by split).
  destruct (append_own_effect _ _ _ _ _ Hi0 Hp0 Hm) as (->&E&Hcm&Hd').
  pose proof E as E'. unfold rest in E'. injection E' as E1 E2 E3 E4 E5 E6 E7 E8 E9. split; [|done].
  split; [done| | | |].
  - rewrite E5. done.
  - rewrite E4. done.
  - intros p m. rewrite E9. intros Hm0.
    apply (reset_matches (with_votes_received ∅ (with_leader_id (Some (_node_id n)) (with_state LEADER n)))); done.
  - destruct Hcm as [->|Hcm]; [by left|right]. by eexists.
Qed.

(** *** Taking a leader's entries *)

Lemma plain_last n d d0 : node_inv n d0 → plain n d → _last_log_index n = Z.of_nat (length (_log n)).
Proof. intros Hi [E _ _ _ _]. rewrite last_index by apply Hi. rewrite E. lia. Qed.

Lemma cut_effect i n d n1 u :
  node_inv n d → plain n d → 0 < i ≤ _last_log_index n → _commit_index n < i →
  _save_log_truncate i (with_log (take (Z.to_nat (i - 1)) (_log n)) n) = (n1, Ok u) →
  let n2 := with_commit_index (Z.min (_commit_index n1) (_last_log_index n1)) n1 in
  let n' := with_last_applied (Z.min (_last_applied n2) (_commit_index n2)) n2 in
  rest n' = rest (with_log (take (Z.to_nat (i - 1)) (_log n)) n) ∧
  _commit_index n' = _commit_index n ∧ _last_log_index n' = i - 1 ∧ ∃ d', node_inv n' d' ∧ plain n' d'.
Proof.
  intros Hi Hp Hle Hcm Hm n2 n'. pose proof (pl_base _ _ Hp) as Eb.
  destruct (cut_inv n d i n1 u) as (d1&Hi1&_&Hl1); [done|lia| |].
  { rewrite Eb. by replace (i - 0 - 1) with (i - 1) by lia. }
  assert (_last_log_index n1 = i - 1) as Hl by exact Hl1. fold n2 in Hi1. fold n' in Hi1.
  destruct (ni_store _ _ Hi) as (r0&Hs&Hh).
  apply (on_storage_Ok _ _ _ _ r0) in Hm as (r1&Hf&E1); [|done].
  assert (_commit_index n1 = _commit_index n) as Ec by (by rewrite E1).
  assert (_commit_index n' = _commit_index n) as Ec'.
  { change (_commit_index n') with (Z.min (_commit_index n1) (_last_log_index n1)). lia. }
  assert (rest n' = rest n1) as Er by done.
  split_and!; [rewrite Er, E1; done|done|exact Hl1|]. exists d1. split; [done|].
  assert (d1 = set_log (filter (λ e0, le_index e0 < i) (d_log d)) d) as ->.
  { eapply disk_unique; [apply Hi1|]. exists r1. split; [change (_storage n1 = Some r1); by rewrite E1|].
    by eapply truncate_holds. }
  destruct Hp as [P1 P2 P3 P4 P5]. split; [..|done|by rewrite Ec'].
  - change (_last_included_index n1 = 0). by rewrite E1.
  - change (_last_included_term n1 = 0). by rewrite E1.
  - change (_snapshot_interval n1 ≤ 0). by rewrite E1.
Qed.

Lemma take_entry_effect e n d n' u :
  node_inv n d → plain n d → 0 < le_index e ≤ _last_log_index n + 1 →
  (∀ y, _entry_at (le_index e) n = Some y → le_term y ≠ le_term e → _commit_index n < le_index e) →
  take_entry e n = (n', Ok u) →
  (∃ y, _entry_at (le_index e) n = Some y ∧ le_term y = le_term e ∧ n' = n) ∨
  ((∀ y, _entry_at (le_index e) n = Some y → le_term y ≠ le_term e) ∧
   rest n' = rest (with_log (take (Z.to_nat (le_index e - 1)) (_log n) ++ [e]) n) ∧
   _commit_index n' = _commit_index n ∧ ∃ d', node_inv n' d' ∧ plain n' d').
Proof.
  intros Hi Hp He Hcm Hr. pose proof (ni_contig _ _ Hi) as Hc. pose proof (ni_bounds _ _ Hi) as Hb.
  pose proof (pl_base _ _ Hp) as Eb. unfold take_entry in Hr. mstep Hr. mpure. rewrite Eb in Hr.
  assert (le_index e <=? 0 = false) as Hle by lia. rewrite Hle in Hr.
  destruct (_entry_at _ n) as [y|] eqn:Hy.
  - destruct (_ =? _) eqn:Ht; zbool; [injection Hr as <- _; left; by exists y|]. right.
    specialize (Hcm y eq_refl Ht). mrun_in Hr. destruct (entry_at_bounds _ _ _ Hc Hy) as [_ Hyb].
    replace (le_index e - 0 - 1) with (le_index e - 1) in Hm by lia.
    edestruct (cut_effect (le_index e)) as (E1&Ec&El&d1&Hi1&Hp1); [exact Hi|exact Hp|lia|exact Hcm|exact Hm|].
    match type of Hi1 with node_inv ?m _ => set (n2 := m) in * end.
    apply (save_entry_effect n2 d1) in Hr as ((r2&->)&d2&Hi2&Hp2); [|done|done|lia].
    split_and!; [by intros y' [= <-]| |exact Ec|by exists d2].
    pose proof (rest_log _ _ E1) as El'. rewrite El'. px. 
    exact (rest_with_log (take (Z.to_nat (le_index e - 1)) (_log n) ++ [e]) _ _ E1).
  - right. mrun_in Hr. apply entry_in_None in Hy; [|done]. rewrite <-last_index in Hy by done.
    pose proof (plain_last _ _ _ Hi Hp) as Hlast.
    rewrite take_ge by lia.
    apply (save_entry_effect n d) in Hr as ((r2&->)&d2&Hi2&Hp2); [|done|done|lia].
    split_and!; [done|done|done|by exists d2].
Qed.

(** Entries that follow a position of the log: the log has them all, or it ends with them. *)
Lemma take_entries_effect h es : ∀ a n d n' u p,
  tree_ok h → node_inv n d → plain n d → chain h (0, 0) (_log n) → chain h a es → 0 ≤ a.1 →
  anc h a (tip n) → anc h p (tip n) → p.1 = _commit_index n →
  anc h (ends a es) (tip n) ∨ anc h p (ends a es) →
  take_entries es n = (n', Ok u) →
  ∃ d', node_inv n' d' ∧ plain n' d' ∧ rest n' = rest (with_log (_log n') n) ∧
    _commit_index n' = _commit_index n ∧
    ((anc h (ends a es) (tip n) ∧ n' = n) ∨
     (¬ anc h (ends a es) (tip n) ∧ chain h (0, 0) (_log n') ∧ tip n' = ends a es)).
Proof.
  induction es as [|e es IH]; intros a n d n' u p Hok Hi Hp Hlog Hes Ha0 Ha Hpt Hpc Hpq Hr; cbn [take_entries] in Hr.
  { injection Hr as <- _. exists d. split_and!; try done. by left. }
  cbn [chain] in Hes. destruct Hes as (Hie&Hhe&Hes). rewrite ends_cons in *. mstep Hr.
  pose proof (tip_ends n d Hp) as Et. rewrite Et in Ha, Hpt, Hpq |- *.
  pose proof (plain_last _ _ _ Hi Hp) as Hlast. pose proof (chain_ends_index _ _ _ Hlog) as Hend. cbn in Hend.
  pose proof (anc_le _ Hok _ _ Ha) as [Hale _]. pose proof (chain_anc _ _ _ Hes) as Hbq.
  assert (anc h a (at_ e)) as Hab.
  { unfold at_ in *. econstructor; [exact Hhe|]. rewrite Hie. replace (a.1 + 1 - 1) with a.1 by lia.
    destruct a. constructor. }
  assert (∀ y, _entry_at (le_index e) n = Some y → anc h (at_ e) (ends (0, 0) (_log n)) → le_term y = le_term e) as Hsame.
  { intros y Hy He. assert (at_ y = at_ e) as [= _ E]; [|done]. unfold _entry_at in Hy. rewrite (pl_base _ _ Hp) in Hy.
    pose proof (chain_contiguous _ _ _ Hlog) as Hcg. cbn in Hcg.
    apply (anc_unique _ Hok _ _ (ends (0, 0) (_log n))); [|done|].
    - apply entry_in_Some in Hy as [_ Hy]; [|done]. by eapply chain_entry.
    - cbn. by eapply entry_in_index. }
  assert (∀ y, _entry_at (le_index e) n = Some y → le_term y ≠ le_term e → _commit_index n < le_index e) as Hcm.
  { intros y Hy Hne. destruct (decide (_commit_index n < le_index e)) as [|Hge]; [done|]. destruct Hne.
    apply Hsame; [done|]. destruct Hpq as [Hq|Hq]; [by eapply anc_trans|].
    eapply anc_trans; [|exact Hpt]. apply (anc_between _ Hok _ _ (ends (at_ e) es)); [done..|cbn; lia]. }
  assert (_commit_index n ≤ a.1 ∨ ∃ y, _entry_at (le_index e) n = Some y ∧ le_term y = le_term e) as Hca.
  { destruct (_entry_at (le_index e) n) as [y|] eqn:Hy.
    - destruct (decide (le_term y = le_term e)) as [|Hne]; [right; eauto|]. left. specialize (Hcm y eq_refl Hne). lia.
    - left. apply entry_in_None in Hy; [|apply Hi]. rewrite (pl_base _ _ Hp) in Hy.
      pose proof (ni_bounds _ _ Hi). lia. }
  apply (take_entry_effect e n d) in Hm as [(y&Hy&Ht&->)|(Hno&E&Ec&d1&Hi1&Hp1)]; [| |done|done|lia|done].
  - assert (anc h (at_ e) (ends (0, 0) (_log n))) as He.
    { unfold _entry_at in Hy. rewrite (pl_base _ _ Hp) in Hy. pose proof (chain_contiguous _ _ _ Hlog) as Hcg. cbn in Hcg.
      assert (at_ y = at_ e) as <- by (unfold at_; rewrite Ht; f_equal; by eapply entry_in_index).
      apply entry_in_Some in Hy as [_ Hy]; [|done]. by eapply chain_entry. }
    rewrite <-Et in Ha, Hpt, Hpq, He |- *. apply (IH (at_ e) n d n' u p); try done. cbn. lia.
  - assert (_commit_index n ≤ a.1) as Hle by (destruct Hca as [?|(y&Hy&?)]; [done|by destruct (Hno y Hy)]).
    match type of Hi1 with node_inv ?m _ => set (n1 := m) in * end.
    assert (_log n1 = take (Z.to_nat (a.1 - (0, 0).1)) (_log n) ++ [e]) as El.
    { rewrite (rest_log _ _ E). px. do 2 f_equal. cbn. lia. }
    assert (chain h (0, 0) (_log n1)) as Hlog1.
    { rewrite El. apply chain_app. split; [by apply chain_take|]. rewrite (ends_take h) by (done || cbn; lia). by cbn. }
    assert (tip n1 = at_ e) as Et1 by (by rewrite (tip_ends _ _ Hp1), El, ends_snoc).
    assert (anc h p (at_ e)) as Hpe.
    { eapply anc_trans; [|exact Hab]. apply (anc_between _ Hok _ _ (ends (0, 0) (_log n))); [done..|lia]. }
    destruct (IH (at_ e) n1 d1 n' u p) as (d2&Hi2&Hp2&E2&Ec2&Hcase); try done; rewrite ?Et1; try done.
    { cbn. lia. }
    { constructor. }
    { congruence. }
    { right. by eapply anc_trans. }
    exists d2. split_and!; [done|done| |congruence|right].
    { rewrite E2. exact (rest_with_log (_log n') _ _ E). }
    split.
    + intros Hq. destruct (chain_at _ _ _ (at_ e) Hok Hlog) as (y&Hy&Hye); [by eapply anc_trans|cbn; lia|].
      injection Hye as _ Hterm. apply (Hno y); [|done]. unfold _entry_at. rewrite (pl_base _ _ Hp).
      apply entry_in_Some; [by apply (chain_contiguous _ _ _ Hlog)|]. split; [lia|]. exact Hy.
    + rewrite Et1 in Hcase. destruct Hcase as [[Hq ->]|(_&Hl&Ht)]; [|done]. split; [done|]. rewrite Et1.
      apply (anc_same_index _ Hok); [done|]. apply (anc_le _ Hok) in Hq, Hbq. lia.
Qed.

(** The opening of the handler of an append. *)
Lemma adopt_effect t n n' b :
  adopt_term t n = (n', Ok b) →
  demoted n n' ∧ t ≤ _current_term n' ∧ (_current_term n ≤ t → _current_term n' = t) ∧
  (_current_term n' = t ∨ _current_term n' = _current_term n).
Proof.
  intros Hr. unfold adopt_term in Hr. mstep Hr. mpure. destruct (_ >? _) eqn:Ht.
  - apply Z.gtb_lt in Ht. mrun_in Hr. split; [split; [px; lia|done|by left]|]. px. split_and!; [lia|lia|by left].
  - injection Hr as <- _. rewrite Z.gtb_ltb in Ht. zbool. split; [apply demoted_refl|]. split_and!; [lia|lia|by right].
Qed.

Lemma follow_effect l n n' u :
  follow l n = (n', Ok u) → _state n' = FOLLOWER ∧ _current_term n' = _current_term n ∧
    tip n' = tip n ∧ _match_index n' = _match_index n.
Proof.
  intros Hr. unfold follow in Hr. mstep Hr. mpure. mstep Hr. mpure. case_decide as Hs.
  - mrun_in Hm. done.
  - injection Hm as <- _. by split_and!.
Qed.

Lemma save_if_frame b n n' u :
  save_if b n = (n', Ok u) → n' = n ∨ ∃ r, n' = with_storage (Some r) n.
Proof. destruct b; [apply save_meta_frame|]. intros [= <- _]. by left. Qed.

(** What an append does: it is refused, or the log is the leader's up to where the message
    ends. *)
Inductive append_outcome (h : tree) (req : AppendEntriesRequest) n n' (r : AppendEntriesResponse) : Prop :=
  | append_refused :
      aer_success r = false → demoted n n' → tip n' = tip n → _log n' = _log n →
      _commit_index n' = _commit_index n → append_outcome h req n n' r
  | append_taken q :
      q = ends (ae_prev_log_index req, ae_prev_log_term req) (ae_entries req) →
      aer_success r = true → aer_term r = ae_term req → aer_match_index r = (tip n').1 →
      _state n' = FOLLOWER → _current_term n ≤ ae_term req → _current_term n' = ae_term req →
      _match_index n' = _match_index n → anc h (ae_prev_log_index req, ae_prev_log_term req) q →
      known h (ae_prev_log_index req, ae_prev_log_term req) →
      accepts h (tip n) q (tip n') → chain h (0, 0) (_log n') →
      (_commit_index n' = _commit_index n ∨
       (_commit_index n < ae_leader_commit req ∧
        _commit_index n' = Z.min (ae_leader_commit req) (tip n').1)) →
      append_outcome h req n n' r.

(** The entry before the new ones is in the log. *)
Lemma prev_ok_anc h req n d :
  tree_ok h → node_inv n d → plain n d → chain h (0, 0) (_log n) → 0 ≤ ae_prev_log_index req →
  prev_ok req n = true → anc h (ae_prev_log_index req, ae_prev_log_term req) (tip n).
Proof.
  intros Hok Hi Hp Hlog Hge0 Hpr. unfold prev_ok in Hpr. apply andb_true_iff in Hpr as [Hle Hpr]. zbool.
  rewrite (tip_ends _ _ Hp). unfold _entry_at in Hpr. rewrite (pl_base _ _ Hp), (pl_base_term _ _ Hp) in Hpr.
  pose proof (chain_contiguous _ _ _ Hlog) as Hcg. cbn in Hcg. pose proof (plain_last _ _ _ Hi Hp) as Hlast.
  destruct (_entry_in _ _ _) as [y|] eqn:Hy.
  - zbool. rewrite <-Hpr, <-(entry_in_index _ _ _ _ Hcg Hy).
    apply entry_in_Some in Hy as [_ Hy]; [|done]. by eapply (chain_entry h (_log n) (0, 0)).
  - apply entry_in_None in Hy; [|done]. assert (ae_prev_log_index req = 0) as E by lia. rewrite E in *.
    cbn in Hpr. rewrite negb_involutive in Hpr. zbool. rewrite Hpr. by apply chain_anc.
Qed.

Lemma append_entries_effect h req n d n' r p :
  tree_ok h → node_inv n d → plain n d → chain h (0, 0) (_log n) →
  0 ≤ ae_prev_log_index req →
  chain h (ae_prev_log_index req, ae_prev_log_term req) (ae_entries req) →
  anc h p (tip n) → p.1 = _commit_index n →
  (let q := ends (ae_prev_log_index req, ae_prev_log_term req) (ae_entries req) in
   _current_term n ≤ ae_term req → known h q → anc h q (tip n) ∨ anc h p q) →
  append_entries req n = (n', Ok r) →
  append_outcome h req n n' r ∧ ∃ d', disk n' d' ∧ plain n' d'.
Proof.
  intros Hok Hi Hp Hlog Hge0 Hes Hpt Hpc Hpq Hr. set (a := (ae_prev_log_index req, ae_prev_log_term req)) in *.
  unfold append_entries in Hr. mstep Hr. rename n0 into n1.
  destruct (adopt_effect _ _ _ _ Hm) as (Hd1&Hle1&Heq1&Hor1).
  pose proof (po_inv _ _ _ _ _ _ (adopt_term_post (λ _ _, True) _ _ d _ _ Hi Hm)) as Hi1.
  destruct (keeps_plain _ _ _ _ d _ Hm (ni_store _ _ Hi) Hp) as (d1&Hk1&Hp1&El1&Ec1&Et1).
  assert (d1 = d) as -> by (eapply disk_unique; [done|apply Hi1]). clear Hm.
  mstep Hr. mpure. destruct (ae_term req <? _) eqn:Hlt.
  { mstep Hr. injection Hr as <- <-.
    destruct (keeps_plain _ _ _ _ d _ Hm (ni_store _ _ Hi1) Hp1) as (d2&Hk2&Hp2&El2&Ec2&Et2).
    split; [|by exists d2]. apply append_refused; try congruence; [done|].
    apply save_if_frame in Hm as [->|[? ->]]; [done|]. by destruct Hd1; split. }
  zbool. mstep Hr. rename n0 into n2. destruct (follow_effect _ _ _ _ Hm) as (Hs2&Ht2&Etip2&Em2).
  pose proof (po_inv _ _ _ _ _ _ (follow_post (λ _ _, True) _ _ d _ _ Hi1 Hm)) as Hi2.
  destruct (keeps_plain _ _ _ _ d _ Hm (ni_store _ _ Hi1) Hp1) as (d2&Hk2&Hp2&El2&Ec2&Et2).
  assert (d2 = d) as -> by (eapply disk_unique; [done|apply Hi2]). clear Hm.
  mstep Hr. mpure. destruct (prev_ok req n2) eqn:Hpr; cbn [negb] in Hr.
  2:{ mstep Hr. injection Hr as <- <-.
    destruct (keeps_plain _ _ _ _ d _ Hm (ni_store _ _ Hi2) Hp2) as (d3&Hk3&Hp3&El3&Ec3&Et3).
    split; [|by exists d3]. apply append_refused; try congruence; [done|].
    destruct Hd1 as [Hd1 Hm1 _]. apply save_if_frame in Hm as [->|[? ->]]; (split; [px; lia|px; congruence|by left]). }
  assert (_current_term n1 = ae_term req ∧ _current_term n ≤ ae_term req) as [Ecur Hcur].
  { destruct Hd1 as [Hd1 _ _]. split; lia. }
  assert (chain h (0, 0) (_log n2)) as Hlog2 by (by rewrite El2, El1).
  pose proof (prev_ok_anc h req n2 d Hok Hi2 Hp2 Hlog2 Hge0 Hpr) as Hpa. fold a in Hpa.
  assert (tip n2 = tip n) as Etn by congruence. assert (_commit_index n2 = _commit_index n) as Ecn by congruence.
  assert (known h (tip n)) as Hkn.
  { rewrite (tip_ends _ _ Hp). apply chain_known; [by left|done]. }
  assert (known h a) as Hka by (eapply (anc_known _ Hok); [exact Hpa|by rewrite Etn]).
  pose proof (chain_known _ _ _ Hka Hes) as Hkq. specialize (Hpq Hcur Hkq).
  mstep Hr. rename n0 into n3.
  edestruct (take_entries_effect h _ a n2 d n3 a2 p Hok Hi2 Hp2 Hlog2 Hes) as (d3&Hi3&Hp3&E3&Ec3&Hcase);
    [done|done|by rewrite Etn|by rewrite Ecn|by rewrite Etn|exact Hm|]. clear Hm.
  mstep Hr. rename n0 into n4.
  destruct (keeps_plain _ _ _ _ d3 _ Hm (ni_store _ _ Hi3) Hp3) as (d4&Hk4&Hp4&El4&Ec4&Et4).
  destruct (save_if_post (λ _ _, True) _ _ _ _ _ Hi3 Hm) as (d4'&Hpost4).
  assert (d4' = d4) as -> by (eapply disk_unique; [apply (ni_store _ _ (po_inv _ _ _ _ _ _ Hpost4))|done]).
  pose proof (po_inv _ _ _ _ _ _ Hpost4) as Hi4.
  assert (_state n4 = FOLLOWER ∧ _current_term n4 = ae_term req ∧ _match_index n4 = _match_index n) as (Es4&Ect4&Em4).
  { pose proof (de_match _ _ Hd1) as Em1. injection E3 as _ _ F3 F4 _ _ _ F9.
    apply save_if_frame in Hm as [->|[? ->]]; px; split_and!; congruence. }
  clear Hm Hpost4. do 2 (mstep Hr; mpure). mstep Hr. rename n0 into n5. mstep Hr. mpure.
  assert (rest n5 = rest n4 ∧ (_commit_index n5 = _commit_index n4 ∨
     (_commit_index n4 < ae_leader_commit req ∧ _commit_index n5 = Z.min (ae_leader_commit req) (_last_log_index n4))) ∧
     ∃ d', disk n5 d' ∧ plain n5 d') as (E5&Hc5&d5&Hk5&Hp5).
  { destruct (_ >? _) eqn:Hgt.
    - apply Z.gtb_lt in Hgt. pose proof (ni_bounds _ _ Hi4).
      destruct (set_commit_effect n4 d4 (Z.min (ae_leader_commit req) (_last_log_index n4)) n5 a4) as (?&?&?);
        [done|done|lia|exact Hm|]. split_and!; [done|by right|done].
    - injection Hm as <- _. split_and!; [done|by left|by exists d4]. }
  split; [|by exists d5]. assert (tip n5 = tip n3) as Et5.
  { rewrite <-Et4. eapply tip_log; [done..|]. by apply rest_log. }
  assert (_last_log_index n5 = _last_log_index n4) as El5 by (change ((tip n5).1 = (tip n4).1); congruence).
  pose proof E5 as E5'. injection E5' as _ _ G3 G4 G5 _ _ _ G9.
  apply (append_taken _ _ _ _ _ (ends a (ae_entries req))); cbn; try done; try congruence.
  - by apply chain_anc.
  - rewrite Et5, <-Etn. destruct Hcase as [[? ->]|(?&_&?)]; [by left|by right].
  - rewrite G5, El4. destruct Hcase as [[? ->]|(_&?&_)]; done.
Qed.

(** *** Answers, campaigns and restarts *)

(** The log is left alone, and the role is the same or a follower's. *)
Definition untouched n n' : Prop :=
  demoted n n' ∧ _log n' = _log n ∧ _commit_index n' = _commit_index n ∧ tip n' = tip n ∧
  ∃ d', disk n' d' ∧ plain n' d'.

Lemma keeps_untouched {A} (m : M node A) n n' a d :
  Keeps m → m n = (n', Ok a) → disk n d → plain n d → demoted n n' → untouched n n'.
Proof.
  intros Hk Hr Hd Hp Hde. destruct (keeps_plain _ _ _ _ _ Hk Hr Hd Hp) as (d'&?&?&?&?&?).
  split_and!; try done. by exists d'.
Qed.

Lemma untouched_refl n d : disk n d → plain n d → untouched n n.
Proof. intros. split_and!; try done; [apply demoted_refl|by exists d]. Qed.

Lemma step_down_demoted t n n' u : t > _current_term n → step_down t n = (n', Ok u) → demoted n n'.
Proof. intros Ht Hr. unfold step_down in Hr. mrun_in Hr. split; [px; lia|done|by left]. Qed.

Definition with_answer (p m : Z) n : node :=
  with_match_index (<[p := m]> (_match_index n)) (with_next_index (<[p := m + 1]> (_next_index n)) n).

Lemma append_response_effect (p : Z) r n d n' o :
  node_inv n d → plain n d → append_response p r n = (n', Ok o) →
  untouched n n' ∨
  (_state n = LEADER ∧ aer_success r = true ∧
   let n1 := with_answer p (aer_match_index r) n in
   rest n' = rest n1 ∧ (_commit_index n' = _commit_index n ∨ commit_rule n1 (_commit_index n')) ∧
   ∃ d', disk n' d' ∧ plain n' d').
Proof.
  intros Hi Hp Hr. pose proof (ni_store _ _ Hi) as Hd. unfold append_response in Hr. mstep Hr. mpure.
  destruct (_ >? _) eqn:Ht.
  { left. mstep Hr. injection Hr as <- _. eapply (keeps_untouched (step_down _)); try done; [apply _|].
    eapply step_down_demoted; [|done]. apply Z.gtb_lt in Ht. lia. }
  case_decide as Hs; [injection Hr as <- _; left; by eapply untouched_refl|].
  mstep Hr. injection Hr as <- _. destruct (aer_success r).
  - right. split; [done|]. split; [done|]. unfold acknowledged in Hm. mrun_in Hm.
    fold (with_answer p (aer_match_index r) n) in Hm.
    assert (node_inv (with_answer p (aer_match_index r) n) d) as Hi1
      by (apply (inv_core n); [done|by repeat split|apply Hi]).
    assert (plain (with_answer p (aer_match_index r) n) d) as Hp1 by (destruct Hp; by split).
    by apply (update_commit_effect _ _ _ a Hi1 Hp1).
  - left. eapply (keeps_untouched (backed_off p)); try done; [apply _|].
    unfold backed_off in Hm. injection Hm as <- _. split; [px; lia|done|by right].
Qed.

Lemma vote_response_effect (p : Z) r n d n' u :
  node_inv n d → plain n d → (∀ q k, _match_index n !! q = Some k → q ∈ _peers n) →
  vote_response p r n = (n', Ok u) →
  untouched n n' ∨ (leads_now n n' ∧ ∃ d', disk n' d' ∧ plain n' d').
Proof.
  intros Hi Hp Hk Hr. pose proof (ni_store _ _ Hi) as Hd. unfold vote_response in Hr. mstep Hr. mpure.
  destruct (_ >? _) eqn:Ht.
  { left. mstep Hr. injection Hr as <- _. apply Z.gtb_lt in Ht.
    assert (untouched n n0) as (Hde&?&?&?&d'&(r0&?&?)&Hp').
    { eapply (keeps_untouched (step_down _)); try done; [apply _|]. eapply step_down_demoted; [|done]. lia. }
    split_and!; try done; [by destruct Hde; split|]. exists d'. split; [by exists r0|]. by destruct Hp'; split. }
  case_decide as Hs; [injection Hr as <- _; left; by eapply untouched_refl|].
  destruct (rvr_vote_granted r); [|injection Hr as <- _; left; by eapply untouched_refl].
  mrun_in Hr. set (n1 := with_votes_received _ n) in Hr.
  assert (node_inv n1 d) as Hi1 by (apply (inv_core n); [done|by repeat split|apply Hi]).
  assert (plain n1 d) as Hp1 by (destruct Hp; by split).
  destruct (check_vote_effect _ _ _ _ Hi1 Hp1 Hk Hr) as [->|[[A B C D E] Hd']]; [left|right].
  - split_and!; try done; [split; [done|done|by right]|]. exists d. done.
  - split; [|done]. by split.
Qed.

(** A node that opens a term. *)
Record runs_now n n' : Prop := {
  rn_state : _state n' = CANDIDATE;
  rn_term : _current_term n' = _current_term n + 1;
  rn_log : _log n' = _log n;
  rn_commit : _commit_index n' = _commit_index n;
  rn_match : _match_index n' = _match_index n;
  rn_peers : _peers n' = _peers n
}.

Lemma start_election_effect n d n' u :
  node_inv n d → plain n d → (∀ q k, _match_index n !! q = Some k → q ∈ _peers n) →
  _start_election n = (n', Ok u) →
  n' = n ∨ ∃ n1 d1, node_inv n1 d1 ∧ plain n1 d1 ∧ runs_now n n1 ∧
    (n' = n1 ∨ (leads_now n1 n' ∧ ∃ d', disk n' d' ∧ plain n' d')).
Proof.
  intros Hi Hp Hk Hr. unfold _start_election in Hr. mstep Hr. mpure.
  destruct (_shutdown_flag n); [injection Hr as <- _; by left|].
  case_decide; [injection Hr as <- _; by left|]. right. mrun_in Hr. set (nc := with_votes_received _ _) in Hm.
  apply (save_meta_inv n nc d) in Hm as (r&->&Hi1); [|done|by repeat split].
  assert (plain (with_storage (Some r) nc) (set_meta (_current_term nc) (_voted_for nc) d)) as Hp1
    by (destruct Hp; by split).
  exists (with_storage (Some r) nc), (set_meta (_current_term nc) (_voted_for nc) d).
  split_and!; [done|done|by split|]. by eapply check_vote_effect.
Qed.

Lemma restart_effect sm interval window n d n' u :
  node_inv n d → plain n d → interval ≤ 0 → d_term d = _current_term n →
  _load_from_storage (restart sm interval window n) = (n', Ok u) →
  _current_term n' = _current_term n ∧ _state n' = FOLLOWER ∧ _log n' = _log n ∧
  _match_index n' = ∅ ∧ 0 ≤ _commit_index n' ≤ _commit_index n ∧ ∃ d', disk n' d' ∧ plain n' d'.
Proof.
  intros Hi Hp Hint Hterm Hr. pose proof Hi as [(r&Hs&Hh) _ Hl _ _ Hsn Hb]. destruct Hp as [P1 P2 P3 P4 P5].
  rewrite P4 in Hsn. destruct Hsn as (_&_&Hdl).
  set (n0 := restart _ _ _ _) in Hr. unfold _load_from_storage in Hr.
  change (_storage n0) with (_storage n) in Hr. rewrite Hs in Hr.
  rewrite (holds_meta _ _ Hh), (holds_log _ _ Hh), (holds_commit _ _ Hh), (holds_snapshot _ _ Hh), P4 in Hr.
  mrun_in Hr. set (n2 := with_commit_index _ _) in Hr.
  assert (_commit_index n2 = Z.max (Z.min (d_commit d) (_last_log_index n2)) 0) as Ec2 by done.
  assert (_last_log_index n2 = _last_log_index n) as El2.
  { unfold _last_log_index. change (_log n2) with (d_log d). change (_last_included_index n2) with 0. by rewrite Hdl, P1. }
  apply apply_effect in Hr as (E&Ec&Es); [|done|rewrite Ec2; change (_last_applied n2) with 0; lia].
  injection E as E1 E2 E3 E4 E5 E6 E7 E8 E9. rewrite E4, E3, E5, E9.
  split_and!; [exact Hterm|done|exact Hdl|done|lia|lia|].
  exists d. split; [exists r; by rewrite Es|].
  split; [by rewrite E6|by rewrite E7|by rewrite E8|done|lia].
Qed.
End handlers.
