(* ===== verification/RaftNet.v ===== *)
(** A Raft group with its messages: every request and every positive answer that is delivered
    was sent before, and may come late, twice or not at all.  Three things the code does not
    check are switches of the model ([checks]); with one of them off there is an execution in
    which two nodes commit different entries at one index.  [RaftSafety] has the theorem for
    the groups in which all are on. *)

From Stdlib Require Import ZArith Lia.
From S2P Require Import Prelude Bytes PyVal Engine Mvcc StateMachine Dict RaftStorage RaftNode RaftNodeFacts RaftRuns RaftElection RaftMachines.
Import MemoryRaftNode.

#[global] Instance vote_request_eq_dec : EqDecision RequestVoteRequest.
Proof. solve_decision. Defined.
#[global] Instance append_request_eq_dec : EqDecision AppendEntriesRequest.
Proof. solve_decision. Defined.
#[global] Instance append_response_eq_dec : EqDecision AppendEntriesResponse.
Proof. solve_decision. Defined.

(** What a node checks: that an answer to a vote request, and to an append, is of the term it
    is in; and that its term is on disk before anything depends on it. *)
Record checks := { ck_vote : bool; ck_ack : bool; ck_disk : bool }.

Section network.
Context {S R : Type} `{!RaftNode.StateMachine S} `{!RaftStorage R} `{!Msgpack}.
Abbreviation node := (MemoryRaftNode.t S R).
Abbreviation group := (cluster (S:=S) (R:=R)).
Abbreviation event := (event (S:=S)).
Implicit Types n : node.

(** The nodes and the votes given, and all vote requests, appends and answers to appends that
    were ever sent; an answer with the node it is from. *)
Record network := {
  net_group : group;
  net_bids : list RequestVoteRequest;
  net_appends : list AppendEntriesRequest;
  net_answers : list (Z * AppendEntriesResponse)
}.

(** The round of messages a leader copies under its lock, with any next index. *)
Definition round_from (next : option Z) n : round :=
  {| rd_term := _current_term n; rd_next_index := next; rd_log := _log n;
     rd_leader_commit := _commit_index n; rd_log_base := _last_included_index n;
     rd_last_log_index := _last_log_index n; rd_log_base_term := _last_included_term n |}.

(** A restart finds the term the node was in. *)
Definition term_on_disk n : Prop :=
  match _storage n with
  | Some r => match load_meta r with Ok (t, _) => t = _current_term n | Raise _ => False end
  | None => False
  end.

(** An event that can happen at node [i] in state [n].  Groups with snapshots are left out. *)
Definition genuine (k : checks) (N : network) (i : Z) (ev : event) n : Prop :=
  match ev with
  | EVoteRequest request => request ∈ net_bids N
  | EVoteResponse p r =>
      rvr_vote_granted r = true →
      (p, rvr_term r, i) ∈ votes (net_group N) ∧ (ck_vote k = true → rvr_term r = _current_term n)
  | EAppendRequest request => request ∈ net_appends N
  | EAppendResponse p r =>
      p ∈ _peers n ∧
      (aer_success r = true →
      (p, r) ∈ net_answers N ∧ (ck_ack k = true → aer_term r = _current_term n))
  | ESnapshotRequest _ => False
  | ESnapshotResponse _ _ _ => False
  | EReadIndex => _state n = LEADER
  | ERestart _ interval _ => interval ≤ 0 ∧ (ck_disk k = true → term_on_disk n)
  | _ => True
  end.

#[global] Instance genuine_dec k N i ev n : Decision (genuine k N i ev n).
Proof.
  unfold genuine, term_on_disk. destruct ev; try apply _.
  apply and_dec; [apply _|]. apply impl_dec; [apply _|]. destruct (_storage n) as [r|]; [|apply _].
  destruct (load_meta r) as [[]|]; apply _.
Defined.

(** The answer an event sends. *)
Definition answer_of (i : Z) (ev : event) n : list (Z * AppendEntriesResponse) :=
  match ev with
  | EAppendRequest request =>
      match (append_entries request n).2 with Ok r => [(i, r)] | Raise _ => [] end
  | _ => []
  end.

Definition after_event (i : Z) (ev : event) n n' (gs : list (Z * Z)) (N : network) : network :=
  {| net_group := {| nodes := <[i := n']> (nodes (net_group N));
                     votes := votes (net_group N) ++ map (λ g, (i, g.1, g.2)) gs |};
     net_bids := net_bids N; net_appends := net_appends N;
     net_answers := net_answers N ++ answer_of i ev n |}.
Definition after_ask (request : RequestVoteRequest) (N : network) : network :=
  {| net_group := net_group N; net_bids := net_bids N ++ [request];
     net_appends := net_appends N; net_answers := net_answers N |}.
Definition after_send (request : AppendEntriesRequest) (N : network) : network :=
  {| net_group := net_group N; net_bids := net_bids N;
     net_appends := net_appends N ++ [request]; net_answers := net_answers N |}.

(** One event at one node, or one message sent. *)
Inductive net_step (k : checks) (N : network) : network → Prop :=
  | net_event i n ev n' gs :
      nodes (net_group N) !! i = Some n → genuine k N i ev n → step ev n = (n', Ok gs) →
      net_step k N (after_event i ev n n' gs N)
  | net_ask i n request :
      nodes (net_group N) !! i = Some n → vote_request n = Some request →
      net_step k N (after_ask request N)
  | net_send i n next request :
      nodes (net_group N) !! i = Some n → _state n = LEADER →
      append_request (_node_id n) (round_from next n) = Some request →
      net_step k N (after_send request N).

(** *** Executions *)

Inductive act := At (i : Z) (ev : event) | Ask (i : Z) | Send (i : Z) (next : Z).

Definition act1 (k : checks) (N : network) (a : act) : option network :=
  match a with
  | At i ev =>
      match nodes (net_group N) !! i with
      | None => None
      | Some n =>
          if decide (genuine k N i ev n) then
            match step ev n with (n', Ok gs) => Some (after_event i ev n n' gs N) | _ => None end
          else None
      end
  | Ask i =>
      match nodes (net_group N) !! i with
      | None => None
      | Some n => match vote_request n with Some r => Some (after_ask r N) | None => None end
      end
  | Send i next =>
      match nodes (net_group N) !! i with
      | None => None
      | Some n =>
          if decide (_state n = LEADER) then
            match append_request (_node_id n) (round_from (Some next) n) with
            | Some r => Some (after_send r N)
            | None => None
            end
          else None
      end
  end.
Fixpoint acts (k : checks) (l : list act) (N : network) : option network :=
  match l with
  | [] => Some N
  | a :: l => match act1 k N a with Some N' => acts k l N' | None => None end
  end.

Lemma act1_step k N a N' : act1 k N a = Some N' → net_step k N N'.
Proof.
  destruct a as [i ev|i|i next]; cbn [act1]; (destruct (nodes _ !! i) as [n|] eqn:Hn; [|done]).
  - case_decide as Hg; [|done]. destruct (step ev n) as [n' [gs|]] eqn:Hs; [|done].
    intros [= <-]. by econstructor.
  - destruct (vote_request n) eqn:Hv; [|done]. intros [= <-]. by econstructor.
  - case_decide; [|done]. destruct (append_request _ _) eqn:Ha; [|done].
    intros [= <-]. by econstructor.
Qed.

Lemma acts_steps k l : ∀ N N', acts k l N = Some N' → rtc (net_step k) N N'.
Proof.
  induction l as [|a l IH]; intros N N'; cbn [acts]; [intros [= <-]; done|].
  destruct (act1 k N a) as [N1|] eqn:Ha; [|done]. intros Hl. eapply rtc_l; [by eapply act1_step|auto].
Qed.

(** The entry at an index, once the node knows it to be committed. *)
Definition committed_at (N : network) (i index : Z) : option LogEntry :=
  match nodes (net_group N) !! i with
  | Some n => if index <=? _commit_index n then _entry_at index n else None
  | None => None
  end.
End network.
Arguments network : clear implicits.
Arguments act : clear implicits.

(** A group at its first start, without snapshots. *)
Definition fresh_network {S R} `{!RaftNode.StateMachine S} `{RaftStorageLaws R} `{!Msgpack}
    (members : list Z) (N : network S R) : Prop :=
  NoDup members ∧ votes (net_group N) = [] ∧ net_bids N = [] ∧ net_appends N = [] ∧ net_answers N = [] ∧
  ∀ i n, nodes (net_group N) !! i = Some n → i ∈ members ∧ ∃ sm r interval window,
    interval ≤ 0 ∧ holds r nothing ∧ n = new_node i (peers_of members i) sm r interval window.

(** ** Five nodes that disagree *)

Module Disagreement.
#[local] Existing Instances reference_codec MemoryEngine.engine MemoryEngine.laws.

Abbreviation machine := (MVCCStateMachine.t MemoryEngine.t * list Z)%type.
Abbreviation network := (network machine MemoryEngine.t).
Abbreviation act := (act machine).

Definition members : list Z := [1; 2; 3; 4; 5].
Definition machine0 : machine :=
  ({| MVCCStateMachine._storage := MemoryEngine.init; MVCCStateMachine._last_applied_timestamp := 0 |}, []).
Definition start (i : Z) : MemoryRaftNode.t machine MemoryEngine.t :=
  new_node i (peers_of members i) machine0 MemoryEngine.init 0 100.
Definition N0 : network :=
  {| net_group := {| nodes := list_to_map (map (λ i, (i, start i)) members); votes := [] |};
     net_bids := []; net_appends := []; net_answers := [] |}.

Lemma N0_fresh : fresh_network members N0.
Proof.
  split_and!; [apply (bool_decide_unpack _); vm_compute; reflexivity|done..|].
  intros i n Hi. assert (i ∈ members ∧ n = start i) as [Hm ->].
  { apply elem_of_list_to_map_2, list_elem_of_fmap in Hi as (j&[= -> ->]&Hj). done. }
  split; [done|]. eexists _, _, _, _. split_and!; [done| |reflexivity]. by apply engine_holds_nothing.
Qed.

Definition bid (c t i lt : Z) : RequestVoteRequest :=
  {| rv_term := t; rv_candidate_id := c; rv_last_log_index := i; rv_last_log_term := lt |}.
Definition en (i t : Z) (c : bytes) : LogEntry := {| le_term := t; le_index := i; le_command := c |}.
Definition noop (i t : Z) : LogEntry := en i t NOOP_COMMAND.
Definition msg (l t pi pt : Z) (es : list LogEntry) (c : Z) : AppendEntriesRequest :=
  {| ae_term := t; ae_leader_id := l; ae_prev_log_index := pi; ae_prev_log_term := pt;
     ae_entries := es; ae_leader_commit := c |}.
Definition yes (t : Z) : RequestVoteResponse := {| rvr_term := t; rvr_vote_granted := true |}.
Definition took (t i : Z) : AppendEntriesResponse :=
  {| aer_term := t; aer_success := true; aer_match_index := i |}.

(** Node [c] runs in term [t], with a log that ends at [i] in term [lt], and wins with the
    votes of [a] and [b]. *)
Definition wins (c t i lt a b : Z) : list act :=
  [At c ECampaign; Ask c; At a (EVoteRequest (bid c t i lt)); At b (EVoteRequest (bid c t i lt));
   At c (EVoteResponse a (yes t)); At c (EVoteResponse b (yes t))].

Definition a : bytes := [x61].
Definition x : bytes := [x78].
Definition y : bytes := [x79].

(** Node 1 leads in term 1 and gives three entries to node 2, whose answer is slow.  Node 4
    leads in term 2 and cuts node 1's log.  Node 1 leads in term 3 with a new log; now the
    answer of term 1 arrives and is counted, and with node 3 there seem to be three nodes that
    have what node 1 proposed.  Nodes 2, 4 and 5, which do not, elect node 4. *)
Definition late_answer : list act :=
  wins 1 1 0 0 2 3 ++
  [At 1 (EProposeAppend a); At 1 (EProposeAppend a); Send 1 1;
   At 2 (EAppendRequest (msg 1 1 0 0 [noop 1 1; en 2 1 a; en 3 1 a] 0))] ++
  [At 4 ECampaign] ++ wins 4 2 0 0 3 5 ++
  [Send 4 1; At 1 (EAppendRequest (msg 4 2 0 0 [noop 1 2] 0))] ++
  wins 1 3 1 2 3 5 ++
  [At 1 (EProposeAppend x); At 1 (EAppendResponse 2 (took 1 3)); Send 1 1;
   At 3 (EAppendRequest (msg 1 3 0 0 [noop 1 2; noop 2 3; en 3 3 x] 0));
   At 1 (EAppendResponse 3 (took 3 3))] ++
  [At 4 (EVoteRequest (bid 1 3 1 2))] ++ wins 4 4 1 2 2 5 ++
  [At 4 (EProposeAppend y); Send 4 1;
   At 2 (EAppendRequest (msg 4 4 0 0 [noop 1 2; noop 2 4; en 3 4 y] 0));
   At 5 (EAppendRequest (msg 4 4 0 0 [noop 1 2; noop 2 4; en 3 4 y] 0));
   At 4 (EAppendResponse 2 (took 4 3)); At 4 (EAppendResponse 5 (took 4 3))].

Definition both (N : network) : option LogEntry * option LogEntry := (committed_at N 1 3, committed_at N 4 3).

Lemma late_answer_trace :
  both <$> acts {| ck_vote := true; ck_ack := false; ck_disk := true |} late_answer N0
  = Some (Some (en 3 3 x), Some (en 3 4 y)).
Proof. vm_compute. reflexivity. Qed.

(** Node 1 runs in term 1 and hears of term 2 from an answer: the term is in its memory only.
    It takes the entries of the leader of term 2, node 2, which commits them with it; and
    starts again, in term 1.  Node 3, which still leads in term 1, cuts its log, and is elected
    by nodes 1 and 5. *)
Definition forgotten_term : list act :=
  [At 1 ECampaign; Ask 1] ++ wins 3 1 0 0 4 5 ++
  [At 2 ECampaign] ++ wins 2 2 0 0 4 5 ++
  [At 2 (EProposeAppend x); At 4 (EVoteRequest (bid 1 1 0 0));
   At 1 (EVoteResponse 4 {| rvr_term := 2; rvr_vote_granted := false |}); Send 2 1;
   At 1 (EAppendRequest (msg 2 2 0 0 [noop 1 2; en 2 2 x] 0));
   At 4 (EAppendRequest (msg 2 2 0 0 [noop 1 2; en 2 2 x] 0));
   At 2 (EAppendResponse 1 (took 2 2)); At 2 (EAppendResponse 4 (took 2 2));
   At 1 (ERestart machine0 0 100); Send 3 1;
   At 1 (EAppendRequest (msg 3 1 0 0 [noop 1 1] 0));
   At 3 (EVoteRequest (bid 2 2 0 0))] ++
  wins 3 3 1 1 1 5 ++
  [Send 3 1; At 1 (EAppendRequest (msg 3 3 0 0 [noop 1 1; noop 2 3] 0));
   At 5 (EAppendRequest (msg 3 3 0 0 [noop 1 1; noop 2 3] 0));
   At 3 (EAppendResponse 1 (took 3 2)); At 3 (EAppendResponse 5 (took 3 2))].

Lemma forgotten_term_trace :
  (λ N, (committed_at N 2 2, committed_at N 3 2)) <$>
    acts {| ck_vote := true; ck_ack := true; ck_disk := false |} forgotten_term N0
  = Some (Some (en 2 2 x), Some (noop 2 3)).
Proof. vm_compute. reflexivity. Qed.

(** An answer of an earlier term loses a write.  The code counts an answer to an append
    whatever term it was asked in ([_append_entries] does not compare the term of a positive
    answer with its own).  Five nodes reach from their first start, by messages that were
    really sent and votes counted in their term, a state in which node 1 has committed and
    applied a client's write at index 3 and node 4 another one at the same index. *)
Theorem late_answer_loses_a_write :
  ∃ N, fresh_network members N0 ∧
    rtc (net_step {| ck_vote := true; ck_ack := false; ck_disk := true |}) N0 N ∧
    committed_at N 1 3 = Some (en 3 3 x) ∧ committed_at N 4 3 = Some (en 3 4 y).
Proof.
  pose proof late_answer_trace as Ht.
  destruct (acts _ late_answer N0) as [N|] eqn:Ha; [|done]. injection Ht as H1 H2.
  exists N. split_and!; [apply N0_fresh|by eapply acts_steps|done..].
Qed.

(** A term that is not saved loses a write.  A node that learns of a later term from an
    answer does not save it, nor does it when an append of that term follows; after a restart
    it takes entries from the leader of an earlier term and drops the ones it had
    acknowledged.  Five nodes reach, by messages that were really sent and answers counted in
    their term, a state in which nodes 2 and 3 have committed different entries at index 2. *)
Theorem forgotten_term_loses_a_write :
  ∃ N, fresh_network members N0 ∧
    rtc (net_step {| ck_vote := true; ck_ack := true; ck_disk := false |}) N0 N ∧
    committed_at N 2 2 = Some (en 2 2 x) ∧ committed_at N 3 2 = Some (noop 2 3).
Proof.
  pose proof forgotten_term_trace as Ht.
  destruct (acts _ forgotten_term N0) as [N|] eqn:Ha; [|done]. injection Ht as H1 H2.
  exists N. split_and!; [apply N0_fresh|by eapply acts_steps|done..].
Qed.
End Disagreement.
