(* ===== verification/RaftSafety.v ===== *)
(** Committed entries are final: in a group without snapshots in which answers are taken in
    their term and a restart finds the term that was left, no two nodes ever commit different
    entries at one index, and a leader has every entry that was committed before.  The group
    moves in the tree of [RaftTree]; the invariant ties each node and each message to a
    history. *)

From Stdlib Require Import ZArith Lia.
From S2P Require Import Prelude Bytes PyVal Engine Mvcc StateMachine Dict RaftStorage RaftNode RaftNodeFacts RaftRuns RaftElection RaftMachines RaftTree RaftNet.
Import MemoryRaftNode.

Section safety.
Context {S R : Type} `{!RaftNode.StateMachine S} `{RaftStorageLaws R} `{!Msgpack}.
Context (members : list Z) (Hnd : NoDup members).
Abbreviation node := (MemoryRaftNode.t S R).
Abbreviation network := (network S R).
Abbreviation event := (event (S:=S)).
Implicit Types (n : node) (d : durable) (s : history) (N : network).
Abbreviation history_ok := (history_ok members).
Abbreviation elected := (elected members).
Abbreviation safe := (safe members).
Abbreviation chosen := (chosen members).

(** *** A node against a history *)

Record member_ok s (i : Z) n d : Prop := {
  mo_inv : node_inv n d;
  mo_plain : plain n d;
  mo_term : s_term s i = _current_term n;
  mo_tip : s_tip s i = tip n;
  mo_chain : chain (s_tree s) (0, 0) (_log n);
  mo_commit : ∃ p, p.1 = _commit_index n ∧ anc (s_tree s) p (tip n) ∧ safe s (_current_term n) p;
  mo_candidate : _state n = CANDIDATE →
    s_bids s !! (i, _current_term n) = Some (tip n) ∧
    ∀ k, is_Some (s_tree s !! (k, _current_term n)) → ¬ elected s i (_current_term n);
  mo_leader : _state n = LEADER →
    (tip n).2 = _current_term n ∧
    (∀ k, is_Some (s_tree s !! (k, _current_term n)) → k ≤ (tip n).1) ∧
    s_acks s i (_current_term n) (tip n).1 ∧
    ∀ p m, _match_index n !! p = Some m → m ≤ 0 ∨ took s p (_current_term n) m;
  mo_peers : _peers n = peers_of members i;
  mo_match p m : _match_index n !! p = Some m → p ∈ _peers n;
  mo_member : i ∈ members
}.

(** A step of the history at node [i]. *)
Record moves (i : Z) s s' : Prop := {
  mv_extends : extends s s';
  mv_term j : j ≠ i → s_term s' j = s_term s j;
  mv_tip j : j ≠ i → s_tip s' j = s_tip s j;
  mv_made k u : is_Some (s_tree s' !! (k, u)) → is_Some (s_tree s !! (k, u)) ∨ elected s' i u
}.

Lemma moves_trans i s1 s2 s3 : moves i s1 s2 → moves i s2 s3 → moves i s1 s3.
Proof using.
  intros [E1 T1 P1 M1] [E2 T2 P2 M2]. split; [by eapply extends_trans|..].
  - intros j Hj. by rewrite T2, T1.
  - intros j Hj. by rewrite P2, P1.
  - intros k u [Hk|Hk]%M2; [|by right]. destruct (M1 _ _ Hk); [by left|right].
    by eapply extends_elected.
Qed.

(** Entries of a term another candidate won stay another's. *)
Lemma not_elected_later s s' i t k :
  history_ok s → history_ok s' → extends s s' →
  is_Some (s_tree s !! (k, t)) → ¬ elected s i t → ¬ elected s' i t.
Proof using Hnd.
  intros Hok Hok' He Hk Hno Hel. destruct (ok_made _ _ Hok _ _ Hk) as (c&Hc).
  apply Hno. replace i with c; [done|].
  eapply (elected_unique members Hnd s'); [done| |done]. by eapply extends_elected.
Qed.

(** The other nodes do not notice. *)
Lemma member_frame i j s s' m d :
  history_ok s → history_ok s' → moves i s s' → j ≠ i →
  (_state m = LEADER → elected s' j (_current_term m)) →
  member_ok s j m d → member_ok s' j m d.
Proof using Hnd.
  intros Hok Hok' [He Ht Hp Hm] Hj Hl [A B C D E (p&Hp1&Hp2&Hp3) G I J K L].
  split; try done.
  - by rewrite Ht.
  - by rewrite Hp.
  - eapply chain_mono; [|done]. apply He.
  - exists p. split_and!; [done|by eapply extends_anc|eapply extends_safe; [done| |done]; lia].
  - intros Hs. destruct (G Hs) as [Hb Hno]. split; [by apply He|]. intros k Hk Hel.
    apply Hm in Hk as [Hk|Hk].
    + by eapply (not_elected_later s s'); eauto.
    + apply Hj. by eapply (elected_unique members Hnd s').
  - intros Hs. destruct (I Hs) as (I1&I2&I3&I4). split_and!; [done| |by apply He|].
    + intros k Hk. apply Hm in Hk as [Hk|Hk]; [by apply I2|]. destruct Hj.
      eapply (elected_unique members Hnd s'); eauto.
    + intros q x Hq. destruct (I4 q x Hq); [by left|right]. by eapply extends_took.
Qed.

(** *** Counting *)

Lemma length_filter_fmap {A B} (f : A → B) (P : B → Prop) `{!∀ b, Decision (P b)} (l : list A) :
  length (filter P (f <$> l)) = length (filter (λ a, P (f a)) l).
Proof using.
  induction l as [|a l IH]; [done|]. rewrite fmap_cons, !filter_cons. 
  destruct (decide (P (f a))); cbn; lia.
Qed.

(** The nodes a leader counts are a quorum that has taken its log. *)
Lemma count_chosen s i n t c :
  i ∈ members → _peers n = peers_of members i →
  (∀ p m, _match_index n !! p = Some m → p ∈ _peers n) →
  (∀ p m, _match_index n !! p = Some m → c ≤ m → took s p t c) →
  took s i t c → is_Some (s_tree s !! (c, t)) →
  majority n ≤ 1 + Z.of_nat (length (filter (λ m, c ≤ m) (map_to_list (_match_index n)).*2)) →
  chosen s t c.
Proof using Hnd.
  intros Hi Hp Hk Hm Hti Hc Hmaj. split; [done|].
  set (ps := (filter (λ kv : Z * Z, c ≤ kv.2) (map_to_list (_match_index n))).*1).
  assert (∀ p, p ∈ ps → ∃ m, _match_index n !! p = Some m ∧ c ≤ m) as Hps.
  { intros p ([q m]&->&[Hq Hin]%list_elem_of_filter)%list_elem_of_fmap.
    apply elem_of_map_to_list in Hin. by exists m. }
  assert (NoDup ps) as Hndp.
  { pose proof (NoDup_fst_map_to_list (_match_index n)) as Hn0.
    eapply sublist_NoDup; [exact Hn0|]. apply fmap_sublist, sublist_filter. }
  assert (i ∉ ps) as Hip.
  { intros (m&Him&_)%Hps. apply Hk in Him. rewrite Hp in Him. unfold peers_of in Him.
    by apply list_elem_of_filter in Him as [? _]. }
  exists (list_to_set (i :: ps)). split; [split|].
  - intros v [->|Hv]%elem_of_list_to_set%elem_of_cons; [done|]. apply Hps in Hv as (m&Hv&_).
    apply Hk in Hv. rewrite Hp in Hv. by apply list_elem_of_filter in Hv as [_ ?].
  - rewrite size_list_to_set by (by constructor). unfold majority in Hmaj. rewrite Hp in Hmaj.
    pose proof (peers_of_length members i Hnd Hi). cbn [length].
    assert (length ps = length (filter (λ m, c ≤ m) (map_to_list (_match_index n)).*2)) as ->.
    { subst ps. rewrite length_fmap. symmetry. apply length_filter_fmap. }
    replace (Z.of_nat (length (peers_of members i)) + 1) with (Z.of_nat (length members)) in Hmaj by lia. lia.
  - intros v [->|Hv]%elem_of_list_to_set%elem_of_cons; [done|]. apply Hps in Hv as (m&Hv&?). by eapply Hm.
Qed.

Lemma rule_safe s i n1 n d c :
  tree_ok (s_tree s) → plain n d → chain (s_tree s) (0, 0) (_log n) →
  i ∈ members → _peers n = peers_of members i →
  (∀ p m, _match_index n !! p = Some m → p ∈ _peers n ∧ (m ≤ 0 ∨ took s p (_current_term n) m)) →
  s_acks s i (_current_term n) (tip n).1 →
  rest n = rest n1 → 0 ≤ _commit_index n1 → commit_rule n1 c →
  ∃ p, p.1 = c ∧ anc (s_tree s) p (tip n) ∧ safe s (_current_term n) p.
Proof using Hnd.
  intros Htr Hp Hlog Hi Hps Hm Hown Hrest Hc0 (Hlt&(e&He&Hte)&Hmaj).
  injection Hrest as _ E2 _ E4 E5 E6 _ _ E9. unfold _entry_at in He. unfold majority in Hmaj.
  rewrite <-E5, <-E6 in He. rewrite <-E4 in Hte. rewrite <-E2, <-E9 in Hmaj. fold (majority n) in Hmaj.
  pose proof (chain_contiguous _ _ _ Hlog) as Hcg. cbn in Hcg. rewrite (pl_base _ _ Hp) in He.
  pose proof (entry_in_index _ _ _ _ Hcg He) as Hie. apply entry_in_Some in He as [_ He]; [|done].
  assert (at_ e = (c, _current_term n)) as Hat by (unfold at_; congruence).
  pose proof (chain_entry _ _ _ _ _ Hlog He) as Ha. rewrite <-(tip_ends _ _ Hp), Hat in Ha.
  assert (is_Some (s_tree s !! (c, _current_term n))) as Hsome.
  { rewrite <-Hat. destruct (chain_lookup _ _ _ _ _ Hlog He) as [pt ?]. eauto. }
  exists (c, _current_term n). split_and!; [done|done|right].
  exists (_current_term n), c. split_and!; [lia| |constructor].
  apply (count_chosen s i n); try done.
  - intros p m Hpm. by apply Hm in Hpm as [? _].
  - intros p m Hpm Hcm. apply Hm in Hpm as [_ [?|(j&?&?)]]; [lia|]. exists j. split; [lia|done].
  - exists (tip n).1. split; [|done]. by apply (anc_le _ Htr) in Ha as [Ha _].
Qed.

(** What is left to show of a node whose storage is known to keep up. *)
Lemma join_plain n d d' : node_inv n d → disk n d' → plain n d' → plain n d.
Proof using. intros Hi Hd Hp. by rewrite (disk_unique _ _ _ (ni_store _ _ Hi) Hd). Qed.

(** *** The leader of a term makes an entry *)

Lemma entry_made s i n d n' d' cmd :
  history_ok s → member_ok s i n d → elected s i (_current_term n) →
  _state n = CANDIDATE ∨ _state n = LEADER →
  node_inv n' d' → plain n' d' → _state n' = LEADER → _current_term n' = _current_term n →
  _peers n' = _peers n →
  _log n' = _log n ++ [{| le_term := _current_term n; le_index := _last_log_index n + 1; le_command := cmd |}] →
  (∀ p m, _match_index n' !! p = Some m → p ∈ _peers n ∧ (m ≤ 0 ∨ took s p (_current_term n) m)) →
  (_commit_index n' = _commit_index n ∨
   ∃ n1, rest n' = rest n1 ∧ _commit_index n1 = _commit_index n ∧ commit_rule n1 (_commit_index n')) →
  ∃ s', history_ok s' ∧ moves i s s' ∧ (∀ v t c, s_votes s' v t c ↔ s_votes s v t c) ∧ member_ok s' i n' d'.
Proof using Hnd.
  intros Hok [A B C D E (p&Hp1&Hp2&Hp3) G I J K L] Hel Hst Hi' Hpl' Hst' Ht' Hpe' Hlog' Hm' Hc'.
  set (u := _current_term n) in *. set (k := _last_log_index n + 1) in *.
  set (pt := _last_log_term n). assert (tip n = (k - 1, pt)) as Etip by (unfold tip; f_equal; lia).
  assert (∀ j, is_Some (s_tree s !! (j, u)) → j < k ∧ pt = u) as Hlast.
  { intros j Hj. destruct Hst as [Hs|Hs].
    - destruct (G Hs) as [_ Hno]. by destruct (Hno j Hj).
    - destruct (I Hs) as (I1&I2&_). rewrite Etip in I1, I2. cbn in *. apply I2 in Hj. split; [lia|done]. }
  assert (pt ≠ u → s_bids s !! (i, u) = Some (k - 1, pt)) as Hbid.
  { intros Hne. rewrite <-Etip. destruct Hst as [Hs|Hs]; [by apply (G Hs)|].
    destruct (I Hs) as (I1&_). rewrite Etip in I1. done. }
  assert (s_tree s !! (k, u) = None) as Hnew by (apply eq_None_not_Some; intros [? _]%Hlast; lia).
  set (s' := appended i u k pt cmd s).
  assert (history_ok s') as Hok'.
  { apply appended_ok; try done. by rewrite D, Etip. }
  assert (extends s s') as Hext.
  { split; cbn; auto. intros q y Hq. rewrite lookup_insert_ne; [done|]. intros <-. congruence. }
  assert (tip n' = (k, u)) as Etip'.
  { rewrite (tip_ends _ _ Hpl'), Hlog', ends_snoc. done. }
  assert (chain (s_tree s') (0, 0) (_log n')) as Hch'.
  { rewrite Hlog'. apply chain_app. split; [eapply chain_mono; [|done]; apply Hext|].
    rewrite <-(tip_ends _ _ B), Etip. cbn. split_and!; [lia| |done]. rewrite lookup_insert_eq. done. }
  exists s'. split; [done|]. split; [|split; [done|]].
  { split; [done|done| |].
    - intros j Hj. cbn. by rewrite upd_ne.
    - intros j t [y Hj]. destruct (decide ((k, u) = (j, t))) as [[= -> ->]|Hne]; [right|left].
      + by eapply extends_elected.
      + cbn in Hj. rewrite lookup_insert_ne in Hj by done. eauto. }
  assert (∀ q m, _match_index n' !! q = Some m → q ∈ _peers n' ∧ (m ≤ 0 ∨ took s' q (_current_term n') m)) as Hm1.
  { intros q m Hq. rewrite Hpe', Ht'. apply Hm' in Hq as [? [?|?]]; split; auto. right. by eapply extends_took. }
  assert (s_acks s' i (_current_term n') (tip n').1) as Hown by (rewrite Ht', Etip'; by right).
  split; try done.
  - by rewrite Ht'.
  - cbn. by rewrite upd_eq.
  - destruct Hc' as [->|(n1&Hr1&Hc1&Hru)].
    + exists p. split_and!; [done| |rewrite Ht'; eapply extends_safe; [done| |done]; lia].
      rewrite Etip'. apply (anc_step _ _ k u pt cmd); [apply lookup_insert_eq|]. rewrite <-Etip. by eapply extends_anc.
    + eapply (rule_safe s' i n1); try done; [apply Hok'|congruence|]. rewrite Hc1.
      pose proof (ni_bounds _ _ A). lia.
  - intros Hs. congruence.
  - intros _. rewrite Ht', Etip'. split_and!; [done| |by right|].
    + cbn. intros j [y Hj]. destruct (decide (k = j)) as [->|Hne]; [lia|].
      rewrite lookup_insert_ne in Hj by congruence. destruct (Hlast j); [eauto|lia].
    + intros q m Hq. apply Hm1 in Hq as [_ Hq]. by rewrite Ht' in Hq.
  - congruence.
  - intros q m Hq. by apply Hm1 in Hq as [? _].
Qed.
End safety.

Section final.
Context {S R : Type} `{!RaftNode.StateMachine S} `{RaftStorageLaws R} `{!Msgpack}.
Context (members : list Z) (Hnd : NoDup members).
Abbreviation node := (MemoryRaftNode.t S R).
Abbreviation network := (network S R).
Abbreviation event := (event (S:=S)).
Implicit Types (n : node) (d : durable) (s : history) (N : network).
Abbreviation history_ok := (history_ok members).
Abbreviation elected := (elected members).
Abbreviation safe := (safe members).
Abbreviation chosen := (chosen members).
Abbreviation member_ok := (member_ok members).

(** *** Positions of a log *)

Lemma anc_root h p : anc h p (0, 0) → tree_ok h → p = (0, 0).
Proof using.
  intros Ha Hok. inversion Ha as [|? ? ? ? Hi]; [done|]. apply (tr_bounds _ Hok) in Hi. lia.
Qed.
Lemma safe_below s u p q : tree_ok (s_tree s) → safe s u p → anc (s_tree s) q p → safe s u q.
Proof using.
  intros Hok [->|(t&i&Ht&Hc&Ha)] Hq; [left; by apply (anc_root (s_tree s))|right].
  exists t, i. split_and!; [done..|]. by eapply anc_trans.
Qed.

(** A path is decided by its end. *)
Lemma anc_dec h l q : tree_ok h → chain h (0, 0) l → 0 ≤ q.1 →
  {anc h q (ends (0, 0) l)} + {¬ anc h q (ends (0, 0) l)}.
Proof using.
  intros Hok Hc Hq. destruct (decide (ends (0, 0) (take (Z.to_nat (q.1 - 0)) l) = q)) as [E|Hne].
  - left. rewrite <-E. rewrite <-(take_drop (Z.to_nat (q.1 - 0)) l) at 2. rewrite ends_app.
    apply chain_anc. rewrite <-(take_drop (Z.to_nat (q.1 - 0)) l) in Hc. by apply chain_app in Hc as [_ ?].
  - right. intros Ha. destruct Hne. by apply (ends_take h l (0, 0) q).
Qed.

Lemma member_known s i n d : history_ok s → member_ok s i n d → known (s_tree s) (tip n).
Proof using. intros Hok Hm. rewrite <-(mo_tip _ _ _ _ _ Hm). apply Hok. Qed.

(** The entry a node has at an index is the one on its path. *)
Lemma entry_on_path s i n d k e :
  member_ok s i n d → _entry_at k n = Some e →
  le_index e = k ∧ anc (s_tree s) (at_ e) (tip n) ∧ ∃ pt, s_tree s !! at_ e = Some (pt, le_command e).
Proof using.
  intros Hm He. pose proof (mo_plain _ _ _ _ _ Hm) as Hp. pose proof (mo_chain _ _ _ _ _ Hm) as Hlog.
  pose proof (chain_contiguous _ _ _ Hlog) as Hcg. cbn in Hcg. unfold _entry_at in He. rewrite (pl_base _ _ Hp) in He.
  pose proof (entry_in_index _ _ _ _ Hcg He) as Hie. apply entry_in_Some in He as [_ He]; [|done].
  split; [done|]. rewrite (tip_ends _ _ Hp). split; [by eapply chain_entry|by eapply chain_lookup].
Qed.
Lemma path_entry s i n d q :
  tree_ok (s_tree s) → member_ok s i n d → anc (s_tree s) q (tip n) → 0 < q.1 → ∃ e, _entry_at q.1 n = Some e ∧ at_ e = q.
Proof using.
  intros Hok Hm Hq Hpos. pose proof (mo_plain _ _ _ _ _ Hm) as Hp. pose proof (mo_chain _ _ _ _ _ Hm) as Hlog.
  rewrite (tip_ends _ _ Hp) in Hq. destruct (chain_at _ _ _ _ Hok Hlog Hq) as (e&He&Ee); [done|].
  exists e. split; [|done]. unfold _entry_at. rewrite (pl_base _ _ Hp). pose proof (chain_contiguous _ _ _ Hlog) as Hcg.
  apply entry_in_Some; [exact Hcg|]. split; [done|]. exact He.
Qed.

(** *** A node that only learns, follows or waits *)

Record quieter n n' : Prop := {
  qu_log : _log n' = _log n;
  qu_commit : 0 ≤ _commit_index n' ≤ _commit_index n;
  qu_term : _current_term n ≤ _current_term n';
  qu_match p m : _match_index n' !! p = Some m → _match_index n !! p = Some m;
  qu_role : _state n' = FOLLOWER ∨ (_state n' = _state n ∧ _current_term n' = _current_term n);
  qu_peers : _peers n' = _peers n
}.

Lemma quieter_ok s s' i n d n' d' :
  history_ok s → history_ok s' → extends s s' → s_tree s' = s_tree s →
  s_term s' i = _current_term n' → s_tip s' i = s_tip s i →
  member_ok s i n d → quieter n n' → node_inv n' d' → plain n' d' → member_ok s' i n' d'.
Proof using Hnd.
  intros Hok Hok' He Htree Hterm Htip Hm [Q1 Q2 Q3 Q4 Q5 Q6] Hi' Hp'.
  pose proof (member_known _ _ _ _ Hok Hm) as Hkn.
  destruct Hm as [A B C D E (p&Hp1&Hp2&Hp3) G I J K L].
  assert (tip n' = tip n) as Etip by (by eapply tip_log).
  assert (∃ q, q.1 = _commit_index n' ∧ anc (s_tree s) q p) as (q&Hq1&Hq2).
  { destruct (anc_at _ (ok_tree _ _ Hok) (Z.to_nat (_commit_index n')) p) as (q&?&?); [|lia|exists q; split; [lia|done]].
    by eapply (anc_known _ (ok_tree _ _ Hok)); [|exact Hkn]. }
  split; try done.
  - by rewrite Htip, Etip.
  - by rewrite Htree, Q1.
  - exists q. rewrite Htree, Etip. split_and!; [done|by eapply anc_trans|].
    eapply extends_safe; [done|exact Q3|]. eapply safe_below; [apply Hok|done..].
  - intros Hs. destruct Q5 as [?|[Es Et]]; [congruence|]. rewrite Es in Hs. destruct (G Hs) as [Hb Hno].
    rewrite Et, Etip, Htree. split; [by apply He|]. intros k Hk. eapply (not_elected_later members Hnd s s'); eauto.
  - intros Hs. destruct Q5 as [?|[Es Et]]; [congruence|]. rewrite Es in Hs. destruct (I Hs) as (I1&I2&I3&I4).
    rewrite Et, Etip, Htree. split_and!; [done|done|by apply He|]. intros r m Hr.
    destruct (I4 r m (Q4 _ _ Hr)); [by left|right]. by eapply extends_took.
  - congruence.
  - intros r m Hr%Q4%K. congruence.
Qed.

Lemma untouched_quieter n n' d : node_inv n d → untouched n n' → _peers n' = _peers n → quieter n n'.
Proof using.
  intros Hi ([D1 D2 D3]&El&Ec&_&_) Hp. pose proof (ni_bounds _ _ Hi). split; try done; [lia|].
  intros p m. by rewrite D2.
Qed.

(** What an event does to the history, at the node it happens at. *)
Definition event_goal s (i : Z) n' d' (gs : list (Z * Z)) (answers : list (Z * AppendEntriesResponse)) : Prop :=
  ∃ s', history_ok s' ∧ moves members i s s' ∧
    (∀ v t c, s_votes s' v t c ↔ s_votes s v t c ∨ (v = i ∧ (t, c) ∈ gs)) ∧
    member_ok s' i n' d' ∧
    ∀ p r, (p, r) ∈ answers → aer_success r = true → s_acks s' p (aer_term r) (aer_match_index r).

Definition raised i u s : history :=
  {| s_tree := s_tree s; s_bids := s_bids s; s_votes := s_votes s; s_acks := s_acks s;
     s_term := upd (s_term s) i u; s_tip := s_tip s |}.
Lemma raised_moves i u s : moves members i s (raised i u s).
Proof using. split; [by split| |done|by left]. intros j Hj. cbn. by rewrite upd_ne. Qed.

Lemma quieter_goal s i n d n' d' answers :
  history_ok s → member_ok s i n d → quieter n n' → node_inv n' d' → plain n' d' →
  (∀ p r, (p, r) ∈ answers → aer_success r = false) → event_goal s i n' d' [] answers.
Proof using Hnd.
  intros Hok Hm Hq Hi' Hp' Hno. exists (raised i (_current_term n') s).
  assert (history_ok (raised i (_current_term n') s)) as Hok'.
  { apply (raise_ok members); [done|]. rewrite (mo_term _ _ _ _ _ Hm). apply Hq. }
  split_and!; [done|apply raised_moves| | |].
  - intros v t c. cbn. split; [by left|]. by intros [?|[_ ?%elem_of_nil]].
  - apply (quieter_ok s _ i n d); try done; cbn; by rewrite upd_eq.
  - intros p r Hin Hs. by rewrite (Hno p r Hin) in Hs.
Qed.

(** *** Elections *)

Lemma leads_goal s i n d n' d' :
  history_ok s → member_ok s i n d → leads_now n n' → node_inv n' d' → plain n' d' → _peers n' = _peers n →
  elected s i (_current_term n) →
  ∃ s', history_ok s' ∧ moves members i s s' ∧ (∀ v t c, s_votes s' v t c ↔ s_votes s v t c) ∧ member_ok s' i n' d'.
Proof using Hnd.
  intros Hok Hm [[A1 A2] B C D E] Hi' Hp' Hps Hel.
  eapply (entry_made members Hnd s i n d n' d' NOOP_COMMAND); try done; [by left|].
  intros p m [Hin ->]%D. split; [done|by left].
Qed.

Lemma vote_response_goal s i p r n d n' d' u :
  history_ok s → member_ok s i n d → vote_response p r n = (n', Ok u) →
  node_inv n' d' → _peers n' = _peers n → (_state n' = LEADER → elected s i (_current_term n')) →
  event_goal s i n' d' [] [].
Proof using Hnd.
  intros Hok Hm Hr Hi' Hps Hel. pose proof (mo_inv _ _ _ _ _ Hm) as Hi.
  destruct (vote_response_effect p r n d n' u Hi (mo_plain _ _ _ _ _ Hm) (mo_match _ _ _ _ _ Hm) Hr)
    as [Hu|(Hl&d2&Hd2&Hp2)].
  - pose proof Hu as (_&_&_&_&d2&Hd2&Hp2). apply (quieter_goal s i n d); try done.
    + by eapply untouched_quieter.
    + by eapply join_plain.
    + by intros ?? ?%elem_of_nil.
  - destruct (leads_goal s i n d n' d') as (s'&?&?&Hv&?); try done; [by eapply join_plain| |].
    + rewrite <-(ln_same _ _ Hl). apply Hel, (ln_state _ _ Hl).
    + exists s'. split_and!; try done; [|by intros ?? ?%elem_of_nil]. intros v t c. rewrite Hv.
      split; [by left|]. by intros [?|[_ ?%elem_of_nil]].
Qed.

Lemma campaigned_moves i u s : s_bids s !! (i, u) = None → moves members i s (campaigned i u s).
Proof using.
  intros Hb. split; [|intros j Hj; cbn; by rewrite ?upd_ne..|by left]. split; try done.
  - intros v t c ?. by left.
  - intros k p Hk. cbn. rewrite lookup_insert_ne; [done|]. intros <-. congruence.
Qed.

(** A node that opens a term. *)
Lemma runs_member s i n d n1 d1 :
  history_ok s → member_ok s i n d → runs_now n n1 → node_inv n1 d1 → plain n1 d1 →
  let s1 := campaigned i (_current_term n1) s in
  history_ok s1 ∧ moves members i s s1 ∧ member_ok s1 i n1 d1.
Proof using Hnd.
  intros Hok Hm [R1 R2 R3 R4 R5 R6] Hi1 Hp1 s1. pose proof (mo_term _ _ _ _ _ Hm) as Ht.
  assert (history_ok s1) as Hok1 by (apply campaigned_ok; [done|]; rewrite Ht, R2; lia).
  assert (∀ c p, s_bids s !! (c, _current_term n1) = Some p → c ≠ i) as Hnob.
  { intros c p Hb ->. apply (ok_bid _ _ Hok) in Hb as [? _]. rewrite Ht, R2 in *. lia. }
  assert (moves members i s s1) as Hmv.
  { apply campaigned_moves, eq_None_not_Some. intros [p Hp]. by eapply Hnob. }
  split_and!; [done|done|]. destruct Hm as [A B C D E (p&P1&P2&P3) G I J K L].
  assert (tip n1 = tip n) as Etip by (by eapply tip_log).
  split; try done.
  - cbn. by rewrite upd_eq.
  - by rewrite Etip.
  - by rewrite R3.
  - exists p. rewrite Etip. split_and!; [congruence|done|].
    eapply (extends_safe members s); [apply Hmv| |exact P3]. lia.
  - intros _. rewrite Etip. split; [cbn; by rewrite lookup_insert_eq, D|]. intros k Hk Hel.
    destruct (ok_made _ _ Hok _ _ Hk) as (c&Hc). assert (c = i) as ->.
    { eapply (elected_unique members Hnd s1); [done| |done]. eapply extends_elected; [apply Hmv|done]. }
    destruct Hc as (Q&[_ HQ]&Hv). destruct (set_choose_or_empty Q) as [[v Hin]|HQe].
    + destruct (ok_vote _ _ Hok _ _ _ (Hv v Hin)) as [_ [b Hb]]. by eapply Hnob.
    + assert (size Q = 0%nat) as E0 by (by apply size_empty_iff).
      pose proof (Z.div_pos (Z.of_nat (length members)) 2). lia.
  - congruence.
  - congruence.
  - rewrite R5, R6. exact K.
Qed.

Lemma campaign_goal s i n d n' d' u :
  history_ok s → member_ok s i n d → _node_id n = i → _start_election n = (n', Ok u) →
  node_inv n' d' → _peers n' = _peers n →
  (∀ s1, (∀ v t c, s_votes s1 v t c ↔ s_votes s v t c ∨ (v = i ∧ (t, c) ∈ own_vote n n')) →
     _state n' = LEADER → elected s1 i (_current_term n')) →
  event_goal s i n' d' (own_vote n n') [].
Proof using Hnd.
  intros Hok Hm Hid Hr Hi' Hps Hel. pose proof (mo_inv _ _ _ _ _ Hm) as Hi.
  destruct (start_election_effect n d n' u Hi (mo_plain _ _ _ _ _ Hm) (mo_match _ _ _ _ _ Hm) Hr)
    as [->|(n1&d1&Hi1&Hp1&Hrn&Hcase)].
  { unfold own_vote. rewrite decide_True by done. apply (quieter_goal s i n d); try done.
    - pose proof (ni_bounds _ _ Hi). split; try done; [lia|by right].
    - eapply join_plain; [done|apply Hi|apply Hm].
    - by intros ?? ?%elem_of_nil. }
  destruct (runs_member s i n d n1 d1 Hok Hm Hrn Hi1 Hp1) as (Hok1&Hmv1&Hm1).
  assert (_current_term n' = _current_term n1) as Eterm by (destruct Hcase as [->|[Hl _]]; [done|apply Hl]).
  assert (own_vote n n' = [(_current_term n1, i)]) as Eown.
  { unfold own_vote. rewrite Eterm, (rn_term _ _ Hrn), decide_False by lia. by rewrite Hid. }
  assert (∀ v t c, s_votes (campaigned i (_current_term n1) s) v t c ↔
    s_votes s v t c ∨ (v = i ∧ (t, c) ∈ own_vote n n')) as Hv1.
  { intros v t c. rewrite Eown, list_elem_of_singleton. cbn. naive_solver. }
  destruct Hcase as [->|(Hl&d2&Hd2&Hp2)].
  - eexists. split_and!; [exact Hok1|exact Hmv1|exact Hv1| |by intros ?? ?%elem_of_nil].
    assert (d' = d1) as -> by (eapply disk_unique; [apply Hi'|apply Hi1]). done.
  - destruct (leads_goal _ i n1 d1 n' d' Hok1 Hm1 Hl Hi') as (s'&?&?&Hv&?).
    + by eapply join_plain.
    + rewrite Hps. symmetry. apply Hrn.
    + pose proof (Hel _ Hv1 (proj2 (ln_state _ _ Hl))) as Hx. by rewrite Eterm in Hx.
    + exists s'. split_and!; [done|by eapply moves_trans| |done|by intros ?? ?%elem_of_nil].
      intros v t c. by rewrite Hv.
Qed.

Lemma voted_moves v u c s i : v = i → moves members i s (voted v u c s).
Proof using. intros ->. split; [split; try done; by left|intros j Hj; cbn; by rewrite ?upd_ne..|by left]. Qed.

Lemma vote_request_goal s i req n d n' d' r :
  history_ok s → member_ok s i n d → request_vote req n = (n', Ok r) →
  node_inv n' d' → _peers n' = _peers n →
  s_bids s !! (rv_candidate_id req, rv_term req) = Some (rv_last_log_index req, rv_last_log_term req) →
  (∀ c, s_votes s i (rv_term req) c → rvr_vote_granted r = true → c = rv_candidate_id req) →
  event_goal s i n' d' (granted_vote req r) [].
Proof using Hnd.
  intros Hok Hm Hr Hi' Hps Hb Hone. pose proof (mo_inv _ _ _ _ _ Hm) as Hi.
  destruct (request_vote_role req n n' r Hr) as [Hde Hgr].
  assert (untouched n n') as Hu.
  { eapply (keeps_untouched (request_vote req)); [apply _|done|apply Hi|apply Hm|done]. }
  assert (plain n' d') as Hp' by (destruct Hu as (_&_&_&_&d2&Hd2&Hp2); by eapply join_plain).
  pose proof (untouched_quieter _ _ _ Hi Hu Hps) as Hq.
  unfold granted_vote. destruct (rvr_vote_granted r) eqn:Hg.
  2:{ apply (quieter_goal s i n d); try done. by intros ?? ?%elem_of_nil. }
  destruct (Hgr eq_refl) as (_&Et&Hup). set (s1 := voted i (rv_term req) (rv_candidate_id req) s).
  assert (history_ok s1) as Hok1.
  { eapply (voted_ok members); [done| |exact Hb| |by rewrite (mo_tip _ _ _ _ _ Hm)].
    - rewrite (mo_term _ _ _ _ _ Hm), Et. apply Hq.
    - intros c Hc. by apply Hone. }
  assert (moves members i s s1) as Hmv by (by apply voted_moves).
  exists s1. split_and!; [done|done| | |by intros ?? ?%elem_of_nil].
  - intros v t c. cbn. rewrite list_elem_of_singleton. naive_solver.
  - apply (quieter_ok s _ i n d); try done; [apply Hmv|]. cbn. by rewrite upd_eq.
Qed.

(** *** Replication *)

(** A message to a follower: the entries follow each other in the tree, up to where the log of
    the term's leader ended, with a commit position of that leader below; or it carries no
    entries, and asks for one that nobody has. *)
Definition append_ok s (req : AppendEntriesRequest) : Prop :=
  let a := (ae_prev_log_index req, ae_prev_log_term req) in
  let q := ends a (ae_entries req) in
  0 ≤ ae_prev_log_index req ∧ chain (s_tree s) a (ae_entries req) ∧
  ((q.2 = ae_term req ∧ is_Some (s_tree s !! q) ∧
    ∃ p, p.1 = ae_leader_commit req ∧ anc (s_tree s) p q ∧ safe s (ae_term req) p) ∨
   (ae_entries req = [] ∧ ae_prev_log_term req = 0 ∧ 0 < ae_prev_log_index req)).

Lemma append_ok_mono s s' req : extends s s' → append_ok s req → append_ok s' req.
Proof using.
  intros He (A&B&C). split; [done|]. split; [eapply chain_mono; [apply He|done]|].
  destruct C as [(C1&[x C2]&p&C3&C4&C5)|C]; [left|by right]. split; [done|]. split; [exists x; by apply He|].
  exists p. split_and!; [done|by eapply extends_anc|by eapply extends_safe].
Qed.

Lemma leader_tip_made s i n d :
  history_ok s → member_ok s i n d → _state n = LEADER → is_Some (s_tree s !! tip n).
Proof using.
  intros Hok Hm Hs. destruct (mo_leader _ _ _ _ _ Hm Hs) as (H1'&_&Ha&_).
  apply (ok_ack _ _ Hok) in Ha as [_ Ha]. destruct (tip n) as [k t]. cbn in *. by subst t.
Qed.

(** The entries after [prev], and the position they follow. *)
Lemma drop_entries h l prev :
  chain h (0, 0) l → 0 ≤ prev ≤ Z.of_nat (length l) →
  let a := ends (0, 0) (take (Z.to_nat prev) l) in
  a.1 = prev ∧ filter (λ x, prev < le_index x) l = drop (Z.to_nat prev) l ∧
  ends a (drop (Z.to_nat prev) l) = ends (0, 0) l ∧ chain h a (drop (Z.to_nat prev) l).
Proof using.
  intros Hc Hp a. pose proof (chain_contiguous _ _ _ Hc) as Hcg. cbn in Hcg. split_and!.
  - unfold a. rewrite (chain_ends_index h); [|by apply chain_take]. rewrite length_take. cbn. lia.
  - pose proof (drop_prefix_drop l 0 prev Hcg) as Hd. unfold drop_prefix in Hd. rewrite Hd by lia. do 2 f_equal. lia.
  - unfold a. by rewrite <-ends_app, take_drop.
  - rewrite <-(take_drop (Z.to_nat prev) l) in Hc. by apply chain_app in Hc as [_ ?].
Qed.

Lemma prev_term_of h l prev :
  chain h (0, 0) l → 0 ≤ prev ≤ Z.of_nat (length l) →
  match _entry_in l 0 prev with
  | Some e => le_term e
  | None => if prev =? 0 then 0 else 0
  end = (ends (0, 0) (take (Z.to_nat prev) l)).2.
Proof using.
  intros Hc Hp. pose proof (chain_contiguous _ _ _ Hc) as Hcg. cbn in Hcg.
  destruct (_entry_in l 0 prev) as [e|] eqn:He.
  - apply entry_in_Some in He as [Hlt He]; [|done]. replace (prev - 0 - 1) with (prev - 1) in He by lia.
    replace (Z.to_nat prev) with (Datatypes.S (Z.to_nat (prev - 1))) by lia.
    by rewrite (take_S_r _ _ _ He), ends_snoc.
  - apply entry_in_None in He; [|done]. assert (prev = 0) as -> by lia. done.
Qed.

Lemma send_ok s i n d next req :
  history_ok s → member_ok s i n d → _state n = LEADER →
  append_request (_node_id n) (round_from next n) = Some req → append_ok s req.
Proof using.
  intros Hok Hm Hs Hr. pose proof (leader_tip_made _ _ _ _ Hok Hm Hs) as Hmade.
  destruct (mo_leader _ _ _ _ _ Hm Hs) as (Ht&_). pose proof (mo_commit _ _ _ _ _ Hm) as Hcom.
  pose proof (mo_chain _ _ _ _ _ Hm) as Hc. pose proof (mo_plain _ _ _ _ _ Hm) as Hp.
  pose proof (plain_last _ _ _ (mo_inv _ _ _ _ _ Hm) Hp) as Hlast.
  unfold append_request, round_from in Hr.
  cbn [rd_term rd_next_index rd_log rd_leader_commit rd_log_base rd_last_log_index rd_log_base_term] in Hr.
  rewrite (pl_base _ _ Hp), (pl_base_term _ _ Hp) in Hr. set (next' := default _ next) in Hr.
  destruct (next' <=? 0) eqn:Hn; [done|]. zbool. injection Hr as <-. unfold append_ok.
  cbn [ae_prev_log_index ae_prev_log_term ae_entries ae_term ae_leader_commit]. split; [lia|].
  destruct (decide (next' - 1 ≤ _last_log_index n)) as [Hle|Hgt].
  - destruct (drop_entries _ _ (next' - 1) Hc) as (Ha&Hf&He&Hch); [lia|].
    rewrite (prev_term_of _ _ _ Hc) by lia. set (a := ends (0, 0) (take _ _)) in *.
    assert ((next' - 1, a.2) = a) as -> by (destruct a; cbn in *; congruence).
    assert ((if next' - 1 <? _last_log_index n then filter (λ x, next' - 1 < le_index x) (_log n) else [])
      = drop (Z.to_nat (next' - 1)) (_log n)) as ->.
    { destruct (Z.ltb_spec (next' - 1) (_last_log_index n)); [done|]. rewrite drop_ge by lia. done. }
    rewrite He, <-(tip_ends _ _ Hp). split; [done|]. by left.
  - assert (next' - 1 <? _last_log_index n = false) as -> by lia. split; [done|]. right.
    split; [done|]. split; [|lia]. unfold _entry_in.
    pose proof (chain_contiguous _ _ _ Hc) as Hcg. cbn in Hcg.
    destruct (_entry_in (_log n) 0 (next' - 1)) as [e|] eqn:Hx; unfold _entry_in in Hx; rewrite Hx; [|by destruct (_ =? _)].
    fold (_entry_in (_log n) 0 (next' - 1)) in Hx. apply entry_in_Some in Hx as [_ Hx%lookup_lt_Some]; [lia|done].
Qed.

Lemma unknown_index h k : tree_ok h → 0 < k → ¬ known h (k, 0).
Proof using. intros Hok Hk [[= ->]|[[? ?] Hx]]; [lia|]. apply (tr_bounds _ Hok) in Hx. lia. Qed.

(** What a node gives up for a leader's log is not below its commit index. *)
Lemma append_keeps s i req n d p :
  history_ok s → member_ok s i n d → append_ok s req →
  anc (s_tree s) p (tip n) → safe s (_current_term n) p →
  let q := ends (ae_prev_log_index req, ae_prev_log_term req) (ae_entries req) in
  _current_term n ≤ ae_term req → known (s_tree s) q → anc (s_tree s) q (tip n) ∨ anc (s_tree s) p q.
Proof using.
  intros Hok Hm (Hge&Hch&Hcase) Hpt Hsafe q Hcur Hkq. pose proof (ok_tree _ _ Hok) as Htr.
  destruct Hcase as [(Hq2&Hq&_)|(He&Ht0&Hpos)].
  2:{ unfold q in Hkq. rewrite He, Ht0 in Hkq. by apply unknown_index in Hkq. }
  pose proof (mo_plain _ _ _ _ _ Hm) as Hp. pose proof (mo_tip _ _ _ _ _ Hm) as Et.
  destruct (anc_dec (s_tree s) (_log n) q Htr (mo_chain _ _ _ _ _ Hm)) as [Ha|Hna].
  { apply (known_bounds _ Htr _ Hkq). }
  - left. by rewrite (tip_ends _ _ Hp).
  - right. rewrite <-(tip_ends _ _ Hp), <-Et in Hna. apply (accepts_safe members s i q q p Hok).
    + rewrite (mo_term _ _ _ _ _ Hm). fold q in Hq2. lia.
    + exact Hq.
    + by right.
    + by rewrite (mo_term _ _ _ _ _ Hm).
    + by rewrite Et.
Qed.

Lemma accepted_moves i q p' s : moves members i s (accepted i q p' s).
Proof using.
  split; [split; try done; by left|intros j Hj; cbn; by rewrite ?upd_ne..|by left].
Qed.

Lemma append_request_goal s i req n d n' d' r :
  history_ok s → member_ok s i n d → append_ok s req → append_entries req n = (n', Ok r) →
  node_inv n' d' → _peers n' = _peers n → event_goal s i n' d' [] [(i, r)].
Proof using Hnd.
  intros Hok Hm Hreq Hr Hi' Hps. pose proof (ok_tree _ _ Hok) as Htr. pose proof (mo_inv _ _ _ _ _ Hm) as Hi.
  destruct (mo_commit _ _ _ _ _ Hm) as (p&Hp1&Hp2&Hp3).
  destruct (append_entries_effect (s_tree s) req n d n' r p) as [Hout (d2&Hd2&Hpl2)]; try done;
    [apply Hm|apply Hm|apply Hreq|apply Hreq|by eapply append_keeps|].
  assert (plain n' d') as Hpl' by (by eapply join_plain).
  destruct Hout as [Hf Hde Ht El Ec|q -> Hs Hrt Hrm Hst Hcur Hct Hmi Hpq Hkp Hacc Hlog Hcom].
  { apply (quieter_goal s i n d); try done.
    - apply (untouched_quieter _ _ d); [done| |done]. split_and!; try done. by exists d2.
    - by intros ?? [= -> ->]%list_elem_of_singleton. }
  set (q := ends _ _) in *. destruct Hreq as (Hge&Hch&[(Hq2&Hq&pl&L1&L2&L3)|(He&Ht0&Hpos)]).
  2:{ rewrite Ht0 in Hkp. by apply unknown_index in Hkp. }
  fold q in Hq2, Hq, L2. rewrite <-(mo_tip _ _ _ _ _ Hm) in Hacc.
  assert (s_term s i ≤ q.2) as Hle by (rewrite (mo_term _ _ _ _ _ Hm); lia).
  pose proof (accepted_ok members s i q (tip n') Hok Hle Hq Hacc) as Hok'.
  pose proof (accepted_moves i q (tip n') s) as Hmv. set (s' := accepted i q (tip n') s) in *.
  destruct (accepts_term members _ _ _ _ Hok Hle Hacc) as [Hqt _].
  exists s'. split_and!; [done|done| | |].
  - intros v t c. cbn. split; [by left|]. by intros [?|[_ ?%elem_of_nil]].
  - split; try done; try congruence.
    + cbn. rewrite upd_eq. congruence.
    + cbn. by rewrite upd_eq.
    + destruct Hcom as [->|[_ Hc]].
      * exists p. split_and!; [done| |eapply (extends_safe members s); [apply Hmv|rewrite Hct; exact Hcur|done]].
        apply (accepts_safe members s i q); try done; [by rewrite (mo_term _ _ _ _ _ Hm)|].
        by rewrite (mo_tip _ _ _ _ _ Hm).
      * exists pl. assert (anc (s_tree s) pl (tip n')) as Hpa by (by eapply anc_trans).
        pose proof (anc_le _ Htr _ _ Hpa) as [Hpi _]. split_and!; [rewrite Hc; lia|exact Hpa|].
        apply (extends_safe members s s' (ae_term req)); [apply Hmv|lia|exact L3].
    + rewrite Hps. apply Hm.
    + rewrite Hmi, Hps. apply Hm.
    + apply Hm.
  - intros j x [= -> ->]%list_elem_of_singleton _. right. rewrite Hrt, Hrm. done.
Qed.

(** *** Counting and proposing *)

Lemma counted_member s i n d n1 n' d' :
  history_ok s → member_ok s i n d → _state n = LEADER → rest n' = rest n1 → rest n1 = rest (with_match_index (_match_index n1) n) →
  _commit_index n1 = _commit_index n →
  (∀ p m, _match_index n1 !! p = Some m → p ∈ _peers n ∧ (m ≤ 0 ∨ took s p (_current_term n) m)) →
  (_commit_index n' = _commit_index n1 ∨ commit_rule n1 (_commit_index n')) →
  node_inv n' d' → plain n' d' → member_ok s i n' d'.
Proof using Hnd.
  intros Hok Hm Hs E E1 Ec Hmatch Hcom Hi' Hp'. assert (rest n' = rest (with_match_index (_match_index n1) n)) as E2 by congruence.
  unfold rest in E2. injection E2 as F1 F2 F3 F4 F5 F6 F7 F8 F9. px_in F2. px_in F3. px_in F4. px_in F5. px_in F9.
  destruct Hm as [A B C D EE (p&Hp1&Hp2&Hp3) G I J K L]. assert (tip n' = tip n) as Etip by (by eapply tip_log).
  destruct (I Hs) as (I1&I2&I3&I4). split; try done; rewrite ?Etip, ?F4, ?F5; try done.
  - destruct Hcom as [Hc|Hru]; [exists p; split_and!; [congruence|done..]|].
    rewrite <-Etip, <-F4. eapply (rule_safe members Hnd s i n1 n' d'); try done.
    + apply Hok.
    + by rewrite F5.
    + by rewrite F2.
    + intros q m. rewrite F9, F2, F4. apply Hmatch.
    + by rewrite F4, Etip.
    + rewrite Ec. pose proof (ni_bounds _ _ A). lia.
  - congruence.
  - intros _. split_and!; try done. intros q m. rewrite F9. intros Hq. by apply Hmatch in Hq as [_ ?].
  - by rewrite F2.
  - intros q m. rewrite F9, F2. intros Hq. by apply Hmatch in Hq as [? _].
Qed.
Lemma counted_goal s i n d n1 n' d' :
  history_ok s → member_ok s i n d → _state n = LEADER → rest n' = rest n1 → rest n1 = rest (with_match_index (_match_index n1) n) →
  _commit_index n1 = _commit_index n →
  (∀ p m, _match_index n1 !! p = Some m → p ∈ _peers n ∧ (m ≤ 0 ∨ took s p (_current_term n) m)) →
  (_commit_index n' = _commit_index n1 ∨ commit_rule n1 (_commit_index n')) →
  node_inv n' d' → plain n' d' → event_goal s i n' d' [] [].
Proof using Hnd.
  intros. exists s. split_and!; [done|split; [by split|done..|by left]| |by eapply counted_member|by intros ?? ?%elem_of_nil].
  intros v t c. split; [by left|]. by intros [?|[_ ?%elem_of_nil]].
Qed.

Lemma member_matches s i n d :
  member_ok s i n d → _state n = LEADER →
  ∀ p m, _match_index n !! p = Some m → p ∈ _peers n ∧ (m ≤ 0 ∨ took s p (_current_term n) m).
Proof using.
  intros Hm Hs p m Hp. split; [by eapply mo_match|]. by apply (mo_leader _ _ _ _ _ Hm Hs).
Qed.

Lemma append_response_goal s i p r n d n' d' o :
  history_ok s → member_ok s i n d → append_response p r n = (n', Ok o) → p ∈ _peers n →
  (aer_success r = true → s_acks s p (_current_term n) (aer_match_index r)) →
  node_inv n' d' → _peers n' = _peers n → event_goal s i n' d' [] [].
Proof using Hnd.
  intros Hok Hm Hr Hp Hack Hi' Hps. pose proof (mo_inv _ _ _ _ _ Hm) as Hi.
  destruct (append_response_effect p r n d n' o Hi (mo_plain _ _ _ _ _ Hm) Hr)
    as [Hu|(Hs&Hsucc&E&Hc&d2&Hd2&Hp2)].
  - pose proof Hu as (_&_&_&_&d2&Hd2&Hp2). apply (quieter_goal s i n d); try done;
      [by eapply untouched_quieter|by eapply join_plain|by intros ?? ?%elem_of_nil].
  - eapply (counted_goal s i n d (with_answer p (aer_match_index r) n)); try done; [|by eapply join_plain].
    intros q m. cbn. intros [[<- <-]|[_ Hq]]%lookup_insert_Some; [|by eapply member_matches].
    split; [done|right]. exists (aer_match_index r). split; [lia|]. by apply Hack.
Qed.

Lemma read_index_goal s i n d n' d' u :
  history_ok s → member_ok s i n d → _update_commit_index n = (n', Ok u) → _state n = LEADER →
  node_inv n' d' → event_goal s i n' d' [] [].
Proof using Hnd.
  intros Hok Hm Hr Hs Hi'. pose proof (mo_inv _ _ _ _ _ Hm) as Hi.
  destruct (update_commit_effect n d n' u Hi (mo_plain _ _ _ _ _ Hm) Hr) as (E&Hc&d2&Hd2&Hp2).
  eapply (counted_goal s i n d n); try done; [by eapply member_matches|by eapply join_plain].
Qed.

Lemma quiet_step_goal {A} (m : M node A) s i n d n' d' a :
  Keeps m → (∀ n n' a, m n = (n', Ok a) → demoted n n') →
  history_ok s → member_ok s i n d → m n = (n', Ok a) → node_inv n' d' → _peers n' = _peers n →
  event_goal s i n' d' [] [].
Proof using Hnd.
  intros Hk Hde Hok Hm Hr Hi' Hps. pose proof (mo_inv _ _ _ _ _ Hm) as Hi.
  assert (untouched n n') as Hu.
  { eapply (keeps_untouched m); [done|done|apply Hi|apply Hm|by eapply Hde]. }
  pose proof Hu as (_&_&_&_&d2&Hd2&Hp2).
  apply (quieter_goal s i n d); try done; [by eapply untouched_quieter|by eapply join_plain|by intros ?? ?%elem_of_nil].
Qed.

Lemma propose_goal s i c n d n' d' o :
  history_ok s → member_ok s i n d → propose_append c n = (n', Ok o) →
  (_state n = LEADER → elected s i (_current_term n)) →
  node_inv n' d' → _peers n' = _peers n → event_goal s i n' d' [] [].
Proof using Hnd.
  intros Hok Hm Hr Hel Hi' Hps. pose proof (mo_inv _ _ _ _ _ Hm) as Hi. unfold propose_append in Hr.
  mstep Hr. mpure. case_decide as Hs.
  { injection Hr as <- _. apply (quieter_goal s i n d); try done.
    - pose proof (ni_bounds _ _ Hi). split; try done; [lia|by right].
    - eapply join_plain; [done|apply Hi|apply Hm].
    - by intros ?? ?%elem_of_nil. }
  mstep Hr. injection Hr as -> _.
  destruct (append_own_effect c n d n' a Hi (mo_plain _ _ _ _ _ Hm) Hm0) as (Ea&E&Hc&d2&Hd2&Hp2).
  pose proof E as E'. unfold rest in E'. injection E' as F1 F2 F3 F4 F5 F6 F7 F8 F9.
  destruct (entry_made members Hnd s i n d n' d' c) as (s'&?&?&Hv&?); try done; try congruence; auto.
  - by eapply join_plain.
  - intros q m. rewrite F9. by eapply member_matches.
  - destruct Hc as [Hc|Hc]; [by left|right]. by eexists.
  - exists s'. split_and!; try done; [|by intros ?? ?%elem_of_nil]. intros v t c'. rewrite Hv.
    split; [by left|]. by intros [?|[_ ?%elem_of_nil]].
Qed.

Lemma restart_goal s i sm interval window n d n' d' u :
  history_ok s → member_ok s i n d → interval ≤ 0 → term_on_disk n →
  _load_from_storage (restart sm interval window n) = (n', Ok u) →
  node_inv n' d' → _peers n' = _peers n → event_goal s i n' d' [] [].
Proof using Hnd.
  intros Hok Hm Hint Hterm Hr Hi' Hps. pose proof (mo_inv _ _ _ _ _ Hm) as Hi.
  assert (d_term d = _current_term n) as Ht.
  { destruct (ni_store _ _ Hi) as (r&Hs&Hh). unfold term_on_disk in Hterm.
    by rewrite Hs, (holds_meta _ _ Hh) in Hterm. }
  destruct (restart_effect sm interval window n d n' u Hi (mo_plain _ _ _ _ _ Hm) Hint Ht Hr)
    as (E1&E2&E3&E4&E5&d2&Hd2&Hp2).
  apply (quieter_goal s i n d); try done.
  - split; try done; [lia|by intros p m; rewrite E4|by left].
  - by eapply join_plain.
  - by intros ?? ?%elem_of_nil.
Qed.

(** *** The group and its messages *)

Record net_ok s N : Prop := {
  nk_group : cluster_ok members (net_group N);
  nk_history : history_ok s;
  nk_votes v t c : s_votes s v t c ↔ (v, t, c) ∈ votes (net_group N);
  nk_nodes i n : nodes (net_group N) !! i = Some n → ∃ d, member_ok s i n d;
  nk_bids r : r ∈ net_bids N →
    s_bids s !! (rv_candidate_id r, rv_term r) = Some (rv_last_log_index r, rv_last_log_term r);
  nk_appends r : r ∈ net_appends N → append_ok s r;
  nk_answers p r : (p, r) ∈ net_answers N → aer_success r = true → s_acks s p (aer_term r) (aer_match_index r)
}.

Lemma leader_elected s (c : cluster (S:=S) (R:=R)) i n :
  cluster_ok members c → (∀ v t k, s_votes s v t k ↔ (v, t, k) ∈ votes c) →
  nodes c !! i = Some n → _state n = LEADER → elected s i (_current_term n).
Proof using.
  intros Hc Hv Hi Hs. destruct (leader_votes members c i n Hc Hi Hs) as (Q&HQ&Hsz).
  exists Q. split; [split; [|done]|].
  - intros v Hin. eapply (co_voters _ _ Hc), HQ, Hin.
  - intros v Hin. by apply Hv, HQ.
Qed.

Definition all_checks : checks := {| ck_vote := true; ck_ack := true; ck_disk := true |}.

(** An event, by the handler that runs. *)
Lemma event_ok s N i ev n d n' d' gs :
  net_ok s N → nodes (net_group N) !! i = Some n → genuine all_checks N i ev n → step ev n = (n', Ok gs) →
  member_ok s i n d → _node_id n = i → node_inv n' d' → _peers n' = _peers n →
  cluster_ok members (net_group (after_event i ev n n' gs N)) →
  event_goal s i n' d' gs (answer_of i ev n).
Proof using Hnd.
  intros [Hgr Hok Hv Hn Hb Ha Hans] Hi Hge Hr Hm Hid Hi' Hps Hgr'.
  assert (Hlead : ∀ s1, (∀ v t c, s_votes s1 v t c ↔ s_votes s v t c ∨ (v = i ∧ (t, c) ∈ gs)) →
    _state n' = LEADER → elected s1 i (_current_term n')).
  { intros s1 Hv1 Hs. eapply leader_elected; [exact Hgr'| |apply lookup_insert_eq|done].
    intros v t k. cbn. rewrite elem_of_votes, Hv1, Hv. done. }
  assert (gs = [] → _state n' = LEADER → elected s i (_current_term n')) as Hlead0.
  { intros ->. apply Hlead. intros v t c. split; [by left|]. by intros [?|[_ ?%elem_of_nil]]. }
  destruct ev; cbn [step genuine answer_of] in *; mrun_in Hr; try done.
  - by eapply campaign_goal.
  - eapply vote_request_goal; try done; [by apply Hb|]. intros c Hvc Hgt.
    eapply (co_votes _ _ Hgr' i (rv_term request)); cbn; apply elem_of_votes; [left; by apply Hv|right].
    split; [done|]. unfold granted_vote. rewrite Hgt. by left.
  - eapply vote_response_goal; try done. by apply Hlead0.
  - rewrite Hm0. by eapply append_request_goal; [..|apply Ha| | |].
  - destruct Hge as [Hp Hge]. eapply append_response_goal; try done. intros Hs. destruct (Hge Hs) as [Hin Ht].
    rewrite <-(Ht eq_refl). by apply Hans.
  - eapply (quiet_step_goal (propose_admit command)); try done; [apply _|]. clear.
    intros n n' a Hr. unfold propose_admit in Hr. mstep Hr. mpure.
    case_decide; [injection Hr as <- _; apply demoted_refl|]. mstep Hr. injection Hm as <- _.
    destruct a0; [injection Hr as <- _; apply demoted_refl|]. mrun_in Hr. split; [done|done|by right].
  - eapply propose_goal; try done. by apply (leader_elected s (net_group N) i n).
  - eapply (quiet_step_goal propose_done); try done; [apply _|]. clear. intros n n' a [= <- _]. split; [done|done|by right].
  - by eapply read_index_goal.
  - eapply (quiet_step_goal (freeze_writes reason)); try done; [apply _|]. clear.
    intros n n' a [= <- _]. split; [done|done|by right].
  - eapply (quiet_step_goal resume_writes); try done; [apply _|]. clear. intros n n' a [= <- _]. split; [done|done|by right].
  - eapply (quiet_step_goal shutdown); try done; [apply _|]. clear. intros n n' a Hr. unfold shutdown in Hr. mrun_in Hr.
    split; [done|done|by left].
  - destruct Hge as [Hint Hdisk]. by eapply restart_goal; [..|apply Hdisk| | |].
Qed.

Lemma net_step_cstep s N i ev n n' gs :
  net_ok s N → nodes (net_group N) !! i = Some n → genuine all_checks N i ev n → step ev n = (n', Ok gs) →
  well_formed ev ∧ timely (given_to (net_group N) i) ev n ∧ cluster_ok members (net_group (after_event i ev n n' gs N)).
Proof using.
  intros Hok Hi Hge Hr.
  assert (well_formed ev) as Hw.
  { destruct ev; try done. cbn in Hge. apply (nk_appends _ _ Hok) in Hge as (_&Hc&_). cbn.
    by apply chain_contiguous in Hc. }
  assert (timely (given_to (net_group N) i) ev n) as Ht.
  { destruct ev; try done. cbn in *. intros Hg. destruct (Hge Hg) as [Hin He]. unfold given_to. by rewrite <-He. }
  split_and!; [done..|]. eapply cstep_ok; [apply Hok|]. by eapply (cstep_intro _ _ _ i n ev n' gs).
Qed.

Lemma net_event_ok s N i ev n n' gs :
  net_ok s N → nodes (net_group N) !! i = Some n → genuine all_checks N i ev n → step ev n = (n', Ok gs) →
  ∃ s', net_ok s' (after_event i ev n n' gs N) ∧ extends s s'.
Proof using Hnd.
  intros Hok Hi Hge Hr. destruct (net_step_cstep _ _ _ _ _ _ _ Hok Hi Hge Hr) as (Hw&Ht&Hgr').
  destruct (nk_nodes _ _ Hok i n Hi) as [d Hm].
  destruct (step_post _ _ _ _ _ _ (mo_inv _ _ _ _ _ Hm) Hw Ht Hr) as (d'&[Hi' _ _ [_ Hps] _]).
  destruct (co_nodes _ _ (nk_group _ _ Hok) i n Hi) as [_ Hid _ _ _].
  destruct (event_ok s N i ev n d n' d' gs Hok Hi Hge Hr Hm Hid Hi' Hps Hgr') as (s'&Hok'&Hmv&Hv&Hm'&Ha).
  pose proof (mv_extends _ _ _ _ Hmv) as Hext.
  assert (∀ v t c, s_votes s' v t c ↔ (v, t, c) ∈ votes (net_group (after_event i ev n n' gs N))) as Hv'.
  { intros v t c. cbn. rewrite elem_of_votes, Hv, (nk_votes _ _ Hok). done. }
  exists s'. split; [split; cbn|done].
  - exact Hgr'.
  - done.
  - exact Hv'.
  - intros j m. destruct (decide (j = i)) as [->|Hne].
    + rewrite lookup_insert_eq. intros [= <-]. by exists d'.
    + rewrite lookup_insert_ne by done. intros Hj. destruct (nk_nodes _ _ Hok j m Hj) as [dj Hmj].
      exists dj. apply (member_frame members Hnd i j s s'); try done; [apply Hok|]. intros Hl.
      eapply leader_elected; [exact Hgr'|exact Hv'| |done]. cbn. by rewrite lookup_insert_ne.
  - intros r Hin. by apply Hext, (nk_bids _ _ Hok).
  - intros r Hin. eapply append_ok_mono; [done|]. by apply (nk_appends _ _ Hok).
  - intros p r [Hin|Hin]%elem_of_app Hs; [|by apply Ha]. by apply Hext, (nk_answers _ _ Hok).
Qed.

Lemma net_step_ok s N N' :
  net_ok s N → net_step all_checks N N' → ∃ s', net_ok s' N' ∧ extends s s'.
Proof using Hnd.
  intros Hok [i n ev n' gs Hi Hge Hr|i n r Hi Hr|i n next r Hi Hs Hr].
  - by apply net_event_ok.
  - exists s. split; [|by split]. destruct Hok as [A B C D E F G]. split; try done. cbn.
    intros r' [?|Hx%list_elem_of_singleton]%elem_of_app; [by apply E|subst r']. destruct (D i n Hi) as [d Hm].
    destruct (co_nodes _ _ A i n Hi) as [_ Hid _ _ _]. unfold vote_request in Hr.
    destruct (_shutdown_flag n); [done|]. case_decide as Hs; [done|]. injection Hr as <-. cbn. rewrite Hid.
    apply (mo_candidate _ _ _ _ _ Hm). by destruct (_state n); try (destruct Hs; discriminate).
  - exists s. split; [|by split]. destruct Hok as [A B C D E F G]. split; try done. cbn.
    intros r' [?|Hx%list_elem_of_singleton]%elem_of_app; [by apply F|subst r']. destruct (D i n Hi) as [d Hm].
    by eapply send_ok.
Qed.

Lemma net_steps_ok s N N' :
  net_ok s N → rtc (net_step all_checks) N N' → ∃ s', net_ok s' N' ∧ extends s s'.
Proof using Hnd.
  intros Hok Hr. revert s Hok. induction Hr as [N|N1 N2 N3 Hs _ IH]; intros s Hok; [by exists s; split|].
  destruct (net_step_ok _ _ _ Hok Hs) as (s2&Hok2&He2). destruct (IH s2 Hok2) as (s3&?&?).
  exists s3. split; [done|by eapply extends_trans].
Qed.

(** *** The first start *)

Definition no_history : history :=
  {| s_tree := ∅; s_bids := ∅; s_votes _ _ _ := False; s_acks _ _ _ := False; s_term _ := 0; s_tip _ := (0, 0) |}.
Lemma no_history_ok : history_ok no_history.
Proof using.
  split; cbn; try done; try (by intros *; rewrite ?lookup_empty; (done || by intros [])).
  - apply empty_tree_ok.
  - by left.
Qed.

Lemma fresh_net_ok N : fresh_network members N → net_ok no_history N.
Proof using.
  intros (Hn&Hv&Hb&Ha&Hans&Hnodes). split.
  - apply fresh_ok. split; [done|]. split; [done|]. intros i n Hi.
    destruct (Hnodes i n Hi) as (Hin&sm&r&interval&window&_&Hh&->). split; [done|]. by eexists _, _, _, _.
  - apply no_history_ok.
  - intros v t c. rewrite Hv. split; [done|]. by intros ?%elem_of_nil.
  - intros i n Hi. destruct (Hnodes i n Hi) as (Hin&sm&r&interval&window&Hint&Hh&->). exists nothing.
    split; try done; [by apply new_node_inv|]. exists (0, 0). split_and!; [done|constructor|by left].
  - intros r. rewrite Hb. by intros ?%elem_of_nil.
  - intros r. rewrite Ha. by intros ?%elem_of_nil.
  - intros p r. rewrite Hans. by intros ?%elem_of_nil.
Qed.

(** *** What is committed *)

Lemma committed_safe s N i k e :
  net_ok s N → committed_at N i k = Some e →
  ∃ n d, nodes (net_group N) !! i = Some n ∧ member_ok s i n d ∧ le_index e = k ∧
    safe s (_current_term n) (at_ e) ∧ ∃ pt, s_tree s !! at_ e = Some (pt, le_command e).
Proof using.
  intros Hok Hc. unfold committed_at in Hc. destruct (nodes (net_group N) !! i) as [n|] eqn:Hi; [|done].
  destruct (Z.leb_spec k (_commit_index n)) as [Hk|]; [|done]. destruct (nk_nodes _ _ Hok i n Hi) as [d Hm].
  exists n, d. destruct (entry_on_path s i n d k e Hm Hc) as (Hie&Ha&Ht). split_and!; try done.
  destruct (mo_commit _ _ _ _ _ Hm) as (p&Hp1&Hp2&Hp3). pose proof (ok_tree _ _ (nk_history _ _ Hok)) as Htr.
  eapply safe_below; [done|exact Hp3|]. apply (anc_between _ Htr _ _ (tip n)); [done..|]. cbn. lia.
Qed.

Lemma same_position s (e e' : LogEntry) pt pt' :
  at_ e = at_ e' → s_tree s !! at_ e = Some (pt, le_command e) → s_tree s !! at_ e' = Some (pt', le_command e') → e = e'.
Proof using.
  intros He H1' H2'. rewrite He, H2' in H1'. destruct e, e'. unfold at_ in He. cbn in *. congruence.
Qed.

(** C6: Committed entries are final.  Take a group of nodes from its first start, whose machines
    take no snapshots, over a network that delays, doubles, reorders and loses messages but
    makes none up: nodes campaign, answer vote requests and appends, count answers, propose,
    confirm reads, stop, and start again from their storage, in any order.  As long as a
    positive answer is counted in the term it was given in, and a node that starts again
    finds the term it had left on its disk, an entry that any node has committed at an index
    is the only one that any node ever commits there: at the same time, or later. *)
Theorem committed_entries_are_final N0 N N' i j k e e' :
  fresh_network members N0 → rtc (net_step all_checks) N0 N → rtc (net_step all_checks) N N' →
  committed_at N i k = Some e → committed_at N' j k = Some e' → e = e'.
Proof using Hnd.
  intros Hf Hr Hr' Hc Hc'. destruct (net_steps_ok _ _ _ (fresh_net_ok _ Hf) Hr) as (s&Hok&_).
  destruct (net_steps_ok _ _ _ Hok Hr') as (s'&Hok'&He).
  destruct (committed_safe s N i k e Hok Hc) as (n&d&_&_&Hk&Hs&pt&Ht).
  destruct (committed_safe s' N' j k e' Hok' Hc') as (n'&d'&_&_&Hk'&Hs'&pt'&Ht').
  apply (same_position s' e e' pt pt'); [|by apply He|done].
  eapply (safe_unique members s'); [apply Hok'| |exact Hs'|cbn; congruence].
  eapply (extends_safe members s); [done| |exact Hs]. reflexivity.
Qed.

(** C7: A leader has every committed entry.  In the same executions, when a node has committed an
    entry, every node that leads then or later, in that node's term or a later one, has this
    entry in its log at this index. *)
Theorem leader_has_committed N0 N N' i j k e m :
  fresh_network members N0 → rtc (net_step all_checks) N0 N → rtc (net_step all_checks) N N' →
  committed_at N i k = Some e →
  nodes (net_group N') !! j = Some m → _state m = LEADER →
  (∀ n, nodes (net_group N) !! i = Some n → _current_term n ≤ _current_term m) →
  _entry_at k m = Some e.
Proof using Hnd.
  intros Hf Hr Hr' Hc Hj Hl Hterm. destruct (net_steps_ok _ _ _ (fresh_net_ok _ Hf) Hr) as (s&Hok&_).
  destruct (net_steps_ok _ _ _ Hok Hr') as (s'&Hok'&He).
  destruct (committed_safe s N i k e Hok Hc) as (n&d&Hi&_&Hk&Hs&pt&Ht). specialize (Hterm n Hi).
  apply (extends_safe members s s' _ (_current_term m)) in Hs; [|done|done]. apply He in Ht.
  pose proof (nk_history _ _ Hok') as Hh. pose proof (ok_tree _ _ Hh) as Htr.
  destruct (nk_nodes _ _ Hok' j m Hj) as [d' Hm].
  assert (1 ≤ k) as Hk1 by (destruct (tr_bounds _ Htr _ _ _ _ Ht); lia).
  pose proof (leader_tip_made _ _ _ _ Hh Hm Hl) as Htip.
  destruct (mo_leader _ _ _ _ _ Hm Hl) as (Hmt&Hlast&_).
  assert (anc (s_tree s') (at_ e) (tip m)) as Ha.
  { destruct Hs as [Hs|(t&x&Htm&Hch&Hp)]; [injection Hs as ? ?; lia|]. eapply anc_trans; [exact Hp|].
    destruct (tip m) as [y u] eqn:Ey. cbn in Hmt, Hlast. subst u. destruct (decide (t = _current_term m)) as [->|Hne].
    - apply (tr_line _ Htr); [apply Hch|done|]. apply Hlast, Hch.
    - apply (ok_later _ _ Hh); [apply Hch|done|lia|by apply chosen_possible]. }
  destruct (path_entry s' j m d' (at_ e) Htr Hm Ha) as (e2&He2&Hat); [cbn; lia|]. cbn in He2. rewrite Hk in He2.
  rewrite He2. f_equal. destruct (entry_on_path s' j m d' k e2 Hm He2) as (_&_&pt2&Ht2).
  by apply (same_position s' e2 e pt2 pt).
Qed.
End final.

(** ** A group at work *)

Module AtWork.
Import Disagreement.
#[local] Existing Instances reference_codec MemoryEngine.engine MemoryEngine.laws.

(** Node 1 is elected in term 1 and commits a write with nodes 2 and 3; node 2 is elected in
    term 2 with the votes of nodes 3 and 4, which is given the log, and commits it again. *)
Definition committing : list act :=
  wins 1 1 0 0 2 3 ++
  [At 1 (EProposeAppend a); Send 1 1;
   At 2 (EAppendRequest (msg 1 1 0 0 [noop 1 1; en 2 1 a] 0));
   At 3 (EAppendRequest (msg 1 1 0 0 [noop 1 1; en 2 1 a] 0));
   At 1 (EAppendResponse 2 (took 1 2)); At 1 (EAppendResponse 3 (took 1 2))].
Definition taking_over : list act :=
  wins 2 2 2 1 3 4 ++
  [Send 2 3; Send 2 1; At 3 (EAppendRequest (msg 2 2 2 1 [noop 3 2] 0));
   At 4 (EAppendRequest (msg 2 2 0 0 [noop 1 1; en 2 1 a; noop 3 2] 0));
   At 2 (EAppendResponse 3 (took 2 3)); At 2 (EAppendResponse 4 (took 2 3))].

Definition node_at (i : Z) (N : network) : option (MemoryRaftNode.t machine MemoryEngine.t) := nodes (net_group N) !! i.
Definition standing (i : Z) (N : network) : option (NodeState * Z) :=
  (λ n, (_state n, _current_term n)) <$> node_at i N.

Lemma two_terms_run :
  (λ N, (committed_at N 1 2, standing 1 N,
    (λ N', (committed_at N' 2 2, standing 2 N')) <$> acts all_checks taking_over N)) <$>
    acts all_checks committing N0
  = Some (Some (en 2 1 a), Some (LEADER, 1), Some (Some (en 2 1 a), Some (LEADER, 2))).
Proof. vm_compute. reflexivity. Qed.

Lemma two_terms :
  ∃ N N', rtc (net_step all_checks) N0 N ∧ rtc (net_step all_checks) N N' ∧
    committed_at N 1 2 = Some (en 2 1 a) ∧ standing 1 N = Some (LEADER, 1) ∧
    committed_at N' 2 2 = Some (en 2 1 a) ∧ standing 2 N' = Some (LEADER, 2).
Proof.
  pose proof two_terms_run as H. destruct (acts _ committing N0) as [N|] eqn:E; [|done].
  cbn [fmap option_fmap option_map] in H. destruct (acts _ taking_over N) as [N'|] eqn:E'; [|done].
  cbn [fmap option_fmap option_map] in H. injection H as H1 H2 H3 H4.
  exists N, N'. split_and!; [by eapply acts_steps|by eapply acts_steps|done..].
Qed.

Lemma members_distinct : NoDup members.
Proof. apply (bool_decide_unpack _). vm_compute. done. Qed.

(** Both leaders have committed at index 2, and it is the same entry. *)
Lemma committed_entries_are_final_witness :
  ∃ N N' e e', rtc (net_step all_checks) N0 N ∧ rtc (net_step all_checks) N N' ∧
    committed_at N 1 2 = Some e ∧ committed_at N' 2 2 = Some e' ∧ standing 1 N = Some (LEADER, 1) ∧
    standing 2 N' = Some (LEADER, 2) ∧ e = e'.
Proof.
  destruct two_terms as (N&N'&Hr&Hr'&Hc&Hs&Hc'&Hs').
  exists N, N', (en 2 1 a), (en 2 1 a). split_and!; [done..|].
  exact (committed_entries_are_final members members_distinct N0 N N' 1 2 2 _ _ N0_fresh Hr Hr' Hc Hc').
Defined.

(** The leader of term 2 has the entry that was committed in term 1. *)
Lemma leader_has_committed_witness :
  ∃ N N' m, rtc (net_step all_checks) N0 N ∧ rtc (net_step all_checks) N N' ∧
    committed_at N 1 2 = Some (en 2 1 a) ∧ node_at 2 N' = Some m ∧ _state m = LEADER ∧ _current_term m = 2 ∧
    _entry_at 2 m = Some (en 2 1 a).
Proof.
  destruct two_terms as (N&N'&Hr&Hr'&Hc&Hs&_&Hs').
  unfold standing in Hs, Hs'. destruct (node_at 1 N) as [n|] eqn:En; [|done].
  destruct (node_at 2 N') as [m|] eqn:Em; [|done]. injection Hs as H1 H2. injection Hs' as H3 H4.
  exists N, N', m. split_and!; [done..|].
  refine (leader_has_committed members members_distinct N0 N N' 1 2 2 _ m N0_fresh Hr Hr' Hc Em H3 _).
  intros n' Hn'. unfold node_at in En. rewrite Hn' in En. injection En as ->. lia.
Defined.
End AtWork.
