(* ===== verification/RaftTimers.v ===== *)
(** The deadlines and the RPC pool of a Raft node ([raft/node.py]): the election timer, the
    heartbeat timer, the ticker thread that drives both, and the gate that keeps one
    heartbeat per peer in flight.

    [TimedNode] is the node of [RaftNode] beside its deadlines, with each handler as the code
    has it, timer calls included; erasing the deadlines gives the handlers of [RaftNode], so
    what is proved of a node over any events holds of it.  Times are milliseconds; a deadline
    of [float("inf")] is [None]; the time of a call and what [random.randint] draws are the
    call's [moment]. *)

From Stdlib Require Import ZArith Lia.
From S2P Require Import Prelude Bytes PyVal StateMachine Dict RaftStorage RaftNode RaftNodeFacts RaftRuns.

(** ** Deadlines *)

(** The settings of a node: [election_timeout_min], [election_timeout_max],
    [heartbeat_interval]. *)
Record Timeouts := {
  election_timeout_min : Z; election_timeout_max : Z; heartbeat_interval : Z }.

(** The defaults of [MemoryRaftNode.__init__]. *)
Definition default_timeouts : Timeouts :=
  {| election_timeout_min := 150; election_timeout_max := 300; heartbeat_interval := 50 |}.
Definition _tick_interval : Z := 50.

(** The exchanges with a peer: a vote request and a round of replication behind the gate,
    which run on the pool; and a round that a client waits for, in a thread of its own
    ([_propose_command]) or in the caller's ([_read_index]), which no gate holds up. *)
Inductive job :=
  | JRequestVote (peer_id : Z)
  | JGated (peer_id : Z) (r : MemoryRaftNode.round)
  | JReplicate (peer_id : Z) (r : MemoryRaftNode.round).

Record timers := {
  _election_deadline : option Z;
  _next_heartbeat : option Z;
  _rpc_inflight : gset Z;
  (** What was submitted and has not been taken up; [None] is a pool that was shut down. *)
  _rpc_pool : option (list job);
  (** What the threads of the pool and the clients' own are running. *)
  running : list job
}.

Definition with_deadline (d : option Z) (tm : timers) : timers :=
  {| _election_deadline := d; _next_heartbeat := _next_heartbeat tm;
     _rpc_inflight := _rpc_inflight tm; _rpc_pool := _rpc_pool tm; running := running tm |}.
Definition with_next_heartbeat (d : option Z) (tm : timers) : timers :=
  {| _election_deadline := _election_deadline tm; _next_heartbeat := d;
     _rpc_inflight := _rpc_inflight tm; _rpc_pool := _rpc_pool tm; running := running tm |}.
Definition with_inflight (g : gset Z) (tm : timers) : timers :=
  {| _election_deadline := _election_deadline tm; _next_heartbeat := _next_heartbeat tm;
     _rpc_inflight := g; _rpc_pool := _rpc_pool tm; running := running tm |}.
Definition with_pool (q : option (list job)) (tm : timers) : timers :=
  {| _election_deadline := _election_deadline tm; _next_heartbeat := _next_heartbeat tm;
     _rpc_inflight := _rpc_inflight tm; _rpc_pool := q; running := running tm |}.
Definition with_running (l : list job) (tm : timers) : timers :=
  {| _election_deadline := _election_deadline tm; _next_heartbeat := _next_heartbeat tm;
     _rpc_inflight := _rpc_inflight tm; _rpc_pool := _rpc_pool tm; running := l |}.

(** [now >= deadline]. *)
Definition reached (now : Z) (deadline : option Z) : bool :=
  match deadline with Some d => d <=? now | None => false end.

(** [time.sleep(min(max(sleep_for, 0.001), self._tick_interval))]. *)
Definition clamp (sleep_for : option Z) : Z :=
  match sleep_for with Some z => Z.min (Z.max z 1) _tick_interval | None => _tick_interval end.

(** When a call is made, and what [random.randint] draws in it. *)
Record moment := { now : Z; draw : Z }.

Module TimedNode.
Section node.
Import MemoryRaftNode.
Context {S R : Type} `{!RaftNode.StateMachine S} `{!RaftStorage R} `{!Msgpack}.
Context (config : Timeouts).
Abbreviation node := (MemoryRaftNode.t S R).
Abbreviation timed := (MemoryRaftNode.t S R * timers)%type.

Definition on_node {A} (m : M node A) : M timed A :=
  λ s, let '(n, r) := m s.1 in ((n, s.2), r).
Definition on_timers (f : timers → timers) : M timed unit := λ s, ((s.1, f s.2), Ok tt).

Definition _arm_election_deadline (m : moment) : M timed unit :=
  on_timers (with_deadline (Some (now m + draw m))).
Definition _reset_election_timer (m : moment) : M timed unit := _arm_election_deadline m.
Definition _start_election_timer (m : moment) : M timed unit := _arm_election_deadline m.
Definition _cancel_election_timer : M timed unit := on_timers (with_deadline None).
Definition _start_heartbeat (m : moment) : M timed unit :=
  on_timers (with_next_heartbeat (Some (now m + heartbeat_interval config))).
Definition _cancel_heartbeat : M timed unit := on_timers (with_next_heartbeat None).

(** ** The pool *)

(** [self._rpc_pool.submit(...)]: a pool that was shut down raises. *)
Definition submit (j : job) : M timed unit :=
  λ s, match _rpc_pool s.2 with
       | None => (s, Raise RuntimeError)
       | Some q => ((s.1, with_pool (Some (q ++ [j])) s.2), Ok tt)
       end.

Definition _submit_rpc (j : job) : M timed bool :=
  λ s, if _shutdown_flag s.1 then (s, Ok false)
       else match submit j s with
            | (s', Ok _) => (s', Ok true)
            | (s', Raise _) => (s', Ok false)
            end.

Definition discard (peer_id : Z) : M timed unit :=
  on_timers (λ tm, with_inflight (_rpc_inflight tm ∖ {[peer_id]}) tm).

Definition _dispatch_heartbeat (peer_id : Z) (r : round) : M timed unit :=
  λ s, if _shutdown_flag s.1 || bool_decide (peer_id ∈ _rpc_inflight s.2) then (s, Ok tt)
       else
         let s1 := (s.1, with_inflight ({[peer_id]} ∪ _rpc_inflight s.2) s.2) in
         match submit (JGated peer_id r) s1 with
         | (s', Ok _) => (s', Ok tt)
         | (s', Raise _) => discard peer_id s'
         end.

(** A thread of the pool takes up the oldest job. *)
Definition take_job : M timed (option job) :=
  λ s, match _rpc_pool s.2 with
       | Some (j :: q) => ((s.1, with_running (running s.2 ++ [j]) (with_pool (Some q) s.2)), Ok (Some j))
       | _ => (s, Ok None)
       end.

(** A thread beside the pool: [threading.Thread(target=self._replicate, ...).start()], or the
    call of [_replicate] in the thread of a read. *)
Definition start_thread (j : job) : M timed unit :=
  on_timers (λ tm, with_running (running tm ++ [j]) tm).

(** [_run_gated_rpc]: the gate opens again however the exchange ends. *)
Definition _run_gated_rpc {A} (peer_id : Z) (replicate : M timed A) : M timed A :=
  λ s, let '(s1, r) := replicate s in
       match discard peer_id s1 with
       | (s2, Ok _) => (s2, r)
       | (s2, Raise x) => (s2, Raise x)
       end.

(** ** The handlers, with their timers *)

Fixpoint dispatch_all (l : list (Z * round)) : M timed unit :=
  match l with
  | [] => ret tt
  | (p, r) :: l => _dispatch_heartbeat p r ;;; dispatch_all l
  end.

Definition _send_heartbeats : M timed unit :=
  let* l := on_node (read MemoryRaftNode._send_heartbeats) in dispatch_all l.

Definition _check_vote_count (m : moment) : M timed unit :=
  let* n := on_node (read (λ n, n)) in
  if decide (_state n ≠ CANDIDATE) then ret tt
  else if Z.of_nat (size (_votes_received n)) >=? majority n then
    on_node (modify (with_state LEADER)) ;;;
    on_node (modify (with_leader_id (Some (_node_id n)))) ;;;
    on_node (modify (with_votes_received ∅)) ;;;
    _cancel_election_timer ;;;
    on_node (modify reset_progress) ;;;
    on_node _append_noop_entry ;;;
    _send_heartbeats ;;;
    _start_heartbeat m
  else ret tt.

(** [_propose_command], up to the wait: what is copied under the lock is sent to every peer
    at once, each in a thread of its own. *)
Fixpoint start_rounds (l : list (Z * round)) : M timed unit :=
  match l with
  | [] => ret tt
  | (p, r) :: l => start_thread (JReplicate p r) ;;; start_rounds l
  end.

Definition propose_append (command : bytes) : M timed (ApplyResult + Z * Z) :=
  let* o := on_node (MemoryRaftNode.propose_append command) in
  match o with
  | inl _ => ret o
  | inr _ =>
      let* n := on_node (read (λ n, n)) in
      start_rounds (map (λ p, (p, replication_round p n)) (_peers n)) ;;;
      ret o
  end.

(** [_submit_rpc(self._request_vote, peer_id)] for each peer. *)
Fixpoint submit_votes (peers : list Z) : M timed unit :=
  match peers with
  | [] => ret tt
  | p :: peers => _submit_rpc (JRequestVote p) ;;; submit_votes peers
  end.

(** [_start_election]: under the lock, and the requests after it.  A node that is stopped or
    leads returns before both. *)
Definition _start_election (m : moment) : M timed unit :=
  let* n := on_node (read (λ n, n)) in
  if _shutdown_flag n then ret tt
  else if decide (_state n = LEADER) then ret tt
  else
    on_node (modify (with_state CANDIDATE)) ;;;
    on_node _forget_leader ;;;
    on_node (modify (with_current_term (_current_term n + 1))) ;;;
    on_node (modify (with_voted_for (Some (_node_id n)))) ;;;
    on_node (modify (with_votes_received {[_node_id n]})) ;;;
    on_node _save_meta ;;;
    _reset_election_timer m ;;;
    _check_vote_count m ;;;
    submit_votes (_peers n).

(** [_request_vote], from the response on. *)
Definition vote_response (m : moment) (peer_id : Z) (response : RequestVoteResponse) : M timed unit :=
  let* n := on_node (read (λ n, n)) in
  if rvr_term response >? _current_term n then
    on_node (step_down (rvr_term response)) ;;;
    on_node (modify (with_votes_received ∅)) ;;;
    _reset_election_timer m
  else if decide (_state n ≠ CANDIDATE) then ret tt
  else if rvr_vote_granted response then
    on_node (modify (λ n, with_votes_received ({[peer_id]} ∪ _votes_received n) n)) ;;;
    _check_vote_count m
  else ret tt.

(** A response from a later term to a leader. *)
Definition stop_leading (m : moment) (term : Z) : M timed unit :=
  on_node (step_down term) ;;; _cancel_heartbeat ;;; _reset_election_timer m.

(** [_append_entries] and [_install_snapshot], from the response on. *)
Definition append_response (m : moment) (peer_id : Z) (response : AppendEntriesResponse)
  : M timed (option AppendEntriesResponse) :=
  let* n := on_node (read (λ n, n)) in
  if aer_term response >? _current_term n then stop_leading m (aer_term response) ;;; ret None
  else on_node (MemoryRaftNode.append_response peer_id response).

Definition snapshot_response (m : moment) (peer_id index : Z) (response : InstallSnapshotResponse)
  : M timed (option InstallSnapshotResponse) :=
  let* n := on_node (read (λ n, n)) in
  if isr_term response >? _current_term n then stop_leading m (isr_term response) ;;; ret None
  else on_node (MemoryRaftNode.snapshot_response peer_id index response).

Definition request_vote (m : moment) (request : RequestVoteRequest) : M timed RequestVoteResponse :=
  let* last_log_index := on_node (read _last_log_index) in
  let* last_log_term := on_node (read _last_log_term) in
  let* n := on_node (read (λ n, n)) in
  (if rv_term request >? _current_term n then
     on_node (step_down (rv_term request)) ;;;
     on_node (modify (with_votes_received ∅)) ;;;
     on_node _save_meta ;;;
     _reset_election_timer m
   else ret tt) ;;;
  let* n := on_node (read (λ n, n)) in
  let answer granted := {| rvr_term := _current_term n; rvr_vote_granted := granted |} in
  if rv_term request <? _current_term n then ret (answer false)
  else
  let can_vote := match _voted_for n with
                  | None => true
                  | Some v => v =? rv_candidate_id request
                  end in
  let log_ok := (rv_last_log_term request >? last_log_term)
                || ((rv_last_log_term request =? last_log_term)
                    && (rv_last_log_index request >=? last_log_index)) in
  if can_vote && log_ok then
    on_node (modify (with_voted_for (Some (rv_candidate_id request)))) ;;;
    on_node _save_meta ;;;
    _reset_election_timer m ;;;
    ret (answer true)
  else ret (answer false).

(** A message of the leader of this term, or of a later one, resets the timer before
    anything that may raise; the rest of the handler does not look at it. *)
Definition append_entries (m : moment) (request : AppendEntriesRequest) : M timed AppendEntriesResponse :=
  let* n := on_node (read (λ n, n)) in
  (if ae_term request <? _current_term n then ret tt else _reset_election_timer m) ;;;
  on_node (MemoryRaftNode.append_entries request).

Definition install_snapshot (m : moment) (request : InstallSnapshotRequest)
  : M timed InstallSnapshotResponse :=
  let* n := on_node (read (λ n, n)) in
  (if is_term request <? _current_term n then ret tt else _reset_election_timer m) ;;;
  on_node (MemoryRaftNode.install_snapshot request).

(** [shutdown], of a node without a server of its own: queued jobs are dropped, running ones
    finish. *)
Definition shutdown : M timed unit :=
  _cancel_election_timer ;;;
  _cancel_heartbeat ;;;
  on_timers (with_pool None) ;;;
  on_node MemoryRaftNode.shutdown.

(** The end of [__init__]. *)
Definition fresh_timers : timers :=
  {| _election_deadline := None; _next_heartbeat := None; _rpc_inflight := ∅;
     _rpc_pool := Some []; running := [] |}.
Definition init (m : moment) (n : node) : M timed unit :=
  λ _, (on_node _load_from_storage ;;; _start_election_timer m) (n, fresh_timers).

(** ** The ticker *)

(** The body of the [try] of [_tick]: how long to sleep; [later] is the second reading of the
    clock. *)
Definition tick_body (m : moment) (later : Z) : M timed (option Z) :=
  let* s := (λ s, (s, Ok s)) in
  if decide (_state s.1 = LEADER) then
    (if reached (now m) (_next_heartbeat s.2) then
       on_timers (with_next_heartbeat (Some (now m + heartbeat_interval config))) ;;;
       _send_heartbeats
     else ret tt) ;;;
    let* s := (λ s, (s, Ok s)) in
    ret ((λ h, h - later) <$> _next_heartbeat s.2)
  else if reached (now m) (_election_deadline s.2) then
    on_timers (with_deadline None) ;;;
    _start_election m ;;;
    ret (Some _tick_interval)
  else ret ((λ d, d - now m) <$> _election_deadline s.2).

(** One turn of the loop of [_tick]: the new state, and how long it sleeps. *)
Definition tick_turn (m : moment) (later : Z) (s : timed) : timed * Z :=
  match tick_body m later s with
  | (s', Ok sleep_for) => (s', clamp sleep_for)
  | (s', Raise _) => (s', clamp (Some _tick_interval))
  end.

(** A turn of the ticker's thread: what it draws, how long it takes until the second reading
    of the clock, and how much later than asked for it is woken. *)
Record turn := { tr_draw : Z; tr_took : Z; tr_late : Z }.

(** [while not self._shutdown_flag], as long as there are turns: when each turn was made,
    and the state after it. *)
Fixpoint _tick (turns : list turn) (time : Z) (s : timed) : list (Z * timed) :=
  match turns with
  | [] => []
  | r :: turns =>
      if _shutdown_flag s.1 then []
      else
        let '(s', sleep) := tick_turn {| now := time; draw := tr_draw r |} (time + tr_took r) s in
        (time, s') :: _tick turns (time + sleep + tr_late r) s'
  end.

(** ** Waiting for the apply loop *)

(** [_wait_for_apply]: what the thread sees each time it holds the lock, and when; [None] is
    a wait that goes on after the last look. *)
Fixpoint _wait_for_apply (index deadline : Z) (looks : list (node * Z)) : option bool :=
  match looks with
  | [] => None
  | (n, time) :: looks =>
      if _last_applied n <? index then
        if deadline - time <=? 0 then Some false
        else _wait_for_apply index deadline looks
      else Some true
  end.

(** ** Everything that happens to a node and its timers *)

Inductive timed_event :=
  | TNode (ev : RaftRuns.event (S := S))
  | TTick (later : Z)
  | TTake
  | TFinish (i : nat)
  (** The thread of a read starts its round with a peer. *)
  | TReadRound (peer_id : Z) (r : round).

(** A job ends: a gated one has opened the gate. *)
Definition finish_job (i : nat) : M timed unit :=
  λ s, match running s.2 !! i with
       | None => (s, Ok tt)
       | Some j =>
           (match j with
            | JGated p _ => _run_gated_rpc p (ret tt)
            | JRequestVote _ | JReplicate _ _ => ret tt
            end ;;;
            on_timers (λ tm, with_running (delete i (running tm)) tm)) s
       end.

Definition node_event (m : moment) (ev : RaftRuns.event (S := S)) : M timed (list (Z * Z)) :=
  match ev with
  | ECampaign =>
      let* n := on_node (read (λ n, n)) in
      _start_election m ;;; let* n' := on_node (read (λ n, n)) in ret (own_vote n n')
  | EVoteRequest request => let* r := request_vote m request in ret (granted_vote request r)
  | EVoteResponse p r => vote_response m p r ;;; ret []
  | EAppendRequest request => append_entries m request ;;; ret []
  | EAppendResponse p r => append_response m p r ;;; ret []
  | ESnapshotRequest request => install_snapshot m request ;;; ret []
  | ESnapshotResponse p i r => snapshot_response m p i r ;;; ret []
  | EShutdown => shutdown ;;; ret []
  | ERestart sm interval window =>
      let* n := on_node (read (λ n, n)) in
      init m (restart sm interval window n) ;;; ret []
  | EProposeAppend command => propose_append command ;;; ret []
  | EProposeAdmit _ | EProposeDone | EReadIndex | EFreeze _ | EResume => on_node (step ev)
  end.

Definition timed_step (m : moment) (ev : timed_event) : M timed unit :=
  match ev with
  | TNode ev => node_event m ev ;;; ret tt
  | TTick later => λ s, ((tick_turn m later s).1, Ok tt)
  | TTake => take_job ;;; ret tt
  | TFinish i => finish_job i
  | TReadRound p r => start_thread (JReplicate p r)
  end.
End node.
End TimedNode.

Section facts.
Import MemoryRaftNode.
Context {S R : Type} `{!RaftNode.StateMachine S} `{RaftStorageLaws R} `{!Msgpack}.
Context (config : Timeouts).
Abbreviation timed := (MemoryRaftNode.t S R * timers)%type.
Abbreviation node := (MemoryRaftNode.t S R).
Implicit Types (s : timed) (tm : timers) (n : node).

(** ** Erasing the timers *)

(** Without its timers [m] is [m0]: the same node and the same answer. *)
Definition erases {A} (m : M timed A) (m0 : M node A) : Prop :=
  ∀ s, ((m s).1.1, (m s).2) = m0 s.1.

Lemma erases_on_node {A} (m : M node A) : erases (TimedNode.on_node m) m.
Proof. intros [n tm]. unfold TimedNode.on_node. cbn. by destruct (m n). Qed.

Lemma erases_ret {A} (a : A) : erases (ret a) (ret a).
Proof. by intros [n tm]. Qed.

Lemma erases_timers f : erases (TimedNode.on_timers f) (ret tt).
Proof. by intros [n tm]. Qed.

Lemma erases_bind {A B} (m : M timed A) m0 (k : A → M timed B) k0 :
  erases m m0 → (∀ a, erases (k a) (k0 a)) → erases (bind m k) (bind m0 k0).
Proof.
  intros Hm Hk s. unfold bind. rewrite <-Hm. destruct (m s) as [[n tm] [a|x]]; [|done]. apply Hk.
Qed.

(** Timer calls before and after the rest leave no trace. *)
Lemma erases_before {A B} (t : M timed B) (k : M timed A) (b : B) k0 :
  erases t (ret b) → erases k k0 → erases (t ;;; k) k0.
Proof. intros Ht Hk. apply (erases_bind t (ret b) (λ _, k) (λ _, k0) Ht). by intros _. Qed.

Lemma erases_after (m k : M timed unit) m0 :
  erases m m0 → erases k (ret tt) → erases (m ;;; k) m0.
Proof.
  intros Hm Hk s. rewrite (erases_bind m m0 _ (λ _, ret tt) Hm (λ _, Hk)).
  unfold bind. by destruct (m0 s.1) as [n [[]|x]].
Qed.

Lemma erases_if {A} (b : bool) (m k : M timed A) m0 k0 :
  erases m m0 → erases k k0 → erases (if b then m else k) (if b then m0 else k0).
Proof. by destruct b. Qed.

Lemma erases_decide {A} P `{!Decision P} (m k : M timed A) m0 k0 :
  erases m m0 → erases k k0 → erases (if decide P then m else k) (if decide P then m0 else k0).
Proof. by destruct (decide P). Qed.

Lemma erases_dispatch p r : erases (TimedNode._dispatch_heartbeat p r) (ret tt).
Proof.
  intros [n tm]. unfold TimedNode._dispatch_heartbeat, TimedNode.submit. cbn.
  destruct (_ || _); [done|]. cbn. by destruct (_rpc_pool tm).
Qed.

Lemma erases_dispatch_all l : erases (TimedNode.dispatch_all l) (ret tt).
Proof.
  induction l as [|[p r] l IH]; [apply erases_ret|]. cbn [TimedNode.dispatch_all].
  eapply erases_before; [apply erases_dispatch|done].
Qed.

Lemma erases_send : erases TimedNode._send_heartbeats (ret tt).
Proof.
  intros [n tm]. unfold TimedNode._send_heartbeats, TimedNode.on_node, bind, read. cbn.
  apply (erases_dispatch_all _ (n, tm)).
Qed.

Lemma erases_submit_votes peers : erases (TimedNode.submit_votes peers) (ret tt).
Proof.
  induction peers as [|p peers IH]; [apply erases_ret|]. cbn [TimedNode.submit_votes].
  intros [n tm]. unfold bind, TimedNode._submit_rpc, TimedNode.submit. cbn [fst snd].
  destruct (_shutdown_flag n); [apply (IH (n, tm))|].
  destruct (_rpc_pool tm); apply (IH (n, _)).
Qed.

Lemma erases_start_rounds l : erases (TimedNode.start_rounds l) (ret tt).
Proof.
  induction l as [|[p r] l IH]; [apply erases_ret|]. cbn [TimedNode.start_rounds].
  eapply erases_before; [apply erases_timers|done].
Qed.

Create HintDb erase discriminated.
#[local] Hint Resolve erases_on_node erases_ret erases_timers erases_dispatch_all erases_send
  erases_submit_votes erases_start_rounds erases_if erases_decide : erase.

(** Walk down a handler and its erasure together. *)
Ltac erase :=
  repeat first
    [ solve [eauto 2 with erase]
    | apply erases_bind; [solve [eauto 2 with erase]|intros ?]
    | apply erases_if | apply erases_decide
    | eapply erases_before; [solve [eauto 2 with erase]|] ].

Lemma erases_check m : erases (TimedNode._check_vote_count config m) _check_vote_count.
Proof.
  unfold TimedNode._check_vote_count, _check_vote_count. erase.
  eapply erases_after; [eauto with erase|].
  eapply erases_before; [eauto with erase|]. apply erases_timers.
Qed.
#[local] Hint Resolve erases_check : erase.

Lemma erases_campaign m : erases (TimedNode._start_election config m) _start_election.
Proof.
  unfold TimedNode._start_election, _start_election. erase.
  eapply erases_after; eauto with erase.
Qed.
#[local] Hint Resolve erases_campaign : erase.

Lemma erases_vote_response m p r :
  erases (TimedNode.vote_response config m p r) (vote_response p r).
Proof.
  unfold TimedNode.vote_response, vote_response. erase.
  eapply erases_after; eauto with erase.
Qed.

Lemma erases_stop_leading m term : erases (TimedNode.stop_leading m term) (step_down term).
Proof.
  unfold TimedNode.stop_leading. eapply erases_after; [apply erases_on_node|].
  eapply erases_before; apply erases_timers.
Qed.
#[local] Hint Resolve erases_vote_response erases_stop_leading : erase.

(** A handler that looks at the node first. *)
Lemma erases_read {A} (k : node → M timed A) (m0 : M node A) :
  (∀ s, ((k s.1 s).1.1, (k s.1 s).2) = m0 s.1) →
  erases (let* n := TimedNode.on_node (read (λ n, n)) in k n) m0.
Proof. intros Hk [n tm]. exact (Hk (n, tm)). Qed.

Lemma bind_read {A} (k : node → M node A) n : bind (read (λ n, n)) k n = k n n.
Proof. done. Qed.

(** The untimed handlers look at the term once more. *)
Lemma erases_append_response m p r :
  erases (TimedNode.append_response m p r) (append_response p r).
Proof.
  apply erases_read. intros [n tm]. cbn [fst]. destruct (aer_term r >? _current_term n) eqn:Ht.
  - rewrite (erases_bind _ _ _ _ (erases_stop_leading m (aer_term r)) (λ _, erases_ret None) (n, tm)).
    unfold append_response. by rewrite bind_read, Ht.
  - apply (erases_on_node (append_response p r) (n, tm)).
Qed.

Lemma erases_snapshot_response m p i r :
  erases (TimedNode.snapshot_response m p i r) (snapshot_response p i r).
Proof.
  apply erases_read. intros [n tm]. cbn [fst]. destruct (isr_term r >? _current_term n) eqn:Ht.
  - rewrite (erases_bind _ _ _ _ (erases_stop_leading m (isr_term r)) (λ _, erases_ret None) (n, tm)).
    unfold snapshot_response. by rewrite bind_read, Ht.
  - apply (erases_on_node (snapshot_response p i r) (n, tm)).
Qed.

Lemma erases_append_entries m r : erases (TimedNode.append_entries m r) (append_entries r).
Proof.
  apply erases_read. intros s. eapply erases_before; [|apply erases_on_node].
  destruct (_ <? _); [apply erases_ret|apply erases_timers].
Qed.

Lemma erases_install_snapshot m r : erases (TimedNode.install_snapshot m r) (install_snapshot r).
Proof.
  apply erases_read. intros s. eapply erases_before; [|apply erases_on_node].
  destruct (_ <? _); [apply erases_ret|apply erases_timers].
Qed.

Lemma erases_shutdown : erases TimedNode.shutdown shutdown.
Proof. unfold TimedNode.shutdown. do 3 (eapply erases_before; [apply erases_timers|]). apply erases_on_node. Qed.

Lemma erases_request_vote m r : erases (TimedNode.request_vote m r) (request_vote r).
Proof.
  unfold TimedNode.request_vote, request_vote. erase.
  apply erases_bind; [|intros ?; erase].
  apply erases_if; [|apply erases_ret]. erase. eapply erases_after; eauto with erase.
Qed.

Lemma erases_propose_append c : erases (TimedNode.propose_append c) (propose_append c).
Proof.
  intros [n tm]. unfold TimedNode.propose_append, bind, TimedNode.on_node. cbn [fst snd].
  destruct (propose_append c n) as [n1 [[a|a]|x]]; [done| |done]. cbn [fst snd read].
  pose proof (erases_start_rounds (map (λ p, (p, replication_round p n1)) (_peers n1)) (n1, tm)) as He.
  destruct (TimedNode.start_rounds _ (n1, tm)) as [[n2 tm2] r2]. cbn in *. by injection He as -> ->.
Qed.
#[local] Hint Resolve erases_propose_append : erase.
#[local] Hint Resolve erases_append_response erases_snapshot_response erases_append_entries
  erases_install_snapshot erases_shutdown erases_request_vote : erase.

Lemma erases_init m n s :
  ((TimedNode.init m n s).1.1, (TimedNode.init m n s).2) = _load_from_storage n.
Proof.
  apply (erases_after (TimedNode.on_node _load_from_storage) (TimedNode._start_election_timer m)
           _load_from_storage (erases_on_node _) (erases_timers _) (n, TimedNode.fresh_timers)).
Qed.

(** Every event of a node with timers is the event of the node. *)
Lemma erases_event m ev : erases (TimedNode.node_event config m ev) (step ev).
Proof.
  destruct ev; cbn [TimedNode.node_event step]; try solve [erase]; try apply erases_on_node.
  intros [n tm]. unfold bind, TimedNode.on_node, read, modify. cbn [fst snd].
  pose proof (erases_init m (restart state_machine snapshot_interval apply_results_window n) (n, tm)) as Hi.
  rewrite <-Hi. by destruct (TimedNode.init _ _ _) as [[? ?] [[]|?]].
Qed.

(** ** What the node's own steps leave alone *)

(** Role, term, stop flag and name of a node. *)
Definition role n : NodeState * Z * bool * list Z :=
  (_state n, _current_term n, _shutdown_flag n, _peers n).

(** A step that leaves them alone, whether it returns or raises. *)
Class Steady {A} (m : M node A) : Prop := steady : ∀ n, role (m n).1 = role n.

#[local] Instance steady_ret {A} (a : A) : Steady (ret a).
Proof. done. Qed.
#[local] Instance steady_read {A} (f : node → A) : Steady (read f).
Proof. done. Qed.
#[local] Instance steady_reads {A} (f : node → result A) : Steady (reads f).
Proof. done. Qed.
#[local] Instance steady_bind {A B} (m : M node A) (k : A → M node B) :
  Steady m → (∀ a, Steady (k a)) → Steady (bind m k).
Proof.
  intros Hm Hk n. unfold bind. specialize (Hm n). destruct (m n) as [n1 [a|x]]; [|done].
  etransitivity; [apply Hk|done].
Qed.
#[local] Instance steady_storage f : Steady (on_storage f).
Proof. intros n. unfold on_storage. destruct (_storage n) as [r|]; [|done]. by destruct (f n r). Qed.

Lemma steady_modify f : (∀ n, role (f n) = role n) → Steady (modify f).
Proof. done. Qed.
#[local] Hint Extern 1 (Steady (modify _)) => (apply steady_modify; intros ?; reflexivity) : typeclass_instances.
#[local] Hint Extern 1 (Steady (if ?b then _ else _)) => destruct b : typeclass_instances.
#[local] Hint Extern 1 (Steady (match ?b with _ => _ end)) => destruct b : typeclass_instances.

Lemma role_apply_rounds k : ∀ n, role (apply_rounds k n) = role n.
Proof.
  induction k as [|k IH]; intros n; [done|]. cbn [apply_rounds]. rewrite IH. unfold apply_next.
  destruct (_entry_at _ _) as [e|]; [|done]. case_decide; [done|]. by destruct (sm_apply _ _).
Qed.

Lemma role_maybe_snapshot n : role (_maybe_snapshot n) = role n.
Proof.
  unfold _maybe_snapshot. destruct (_storage n); [|done]. destruct (_ || _); [done|].
  destruct (_entry_at _ _) as [e|]; [|done].
  destruct (sm_snapshot _) as [data|x]; [|by destruct x].
  destruct (save_snapshot _ _ _ _) as [r1|]; [|done]. by destruct (compact_log _ _).
Qed.

#[local] Instance steady_apply : Steady _apply_committed_entries.
Proof. intros n. cbn. rewrite role_maybe_snapshot. apply role_apply_rounds. Qed.
#[local] Instance steady_commit : Steady _update_commit_index.
Proof. unfold _update_commit_index, _save_commit_index. apply _. Qed.
#[local] Instance steady_append_own c : Steady (append_own c).
Proof. unfold append_own, _save_log_entry. apply _. Qed.
#[local] Instance steady_acknowledged p i : Steady (acknowledged p i).
Proof. unfold acknowledged. apply _. Qed.

Lemma steady_take_entries l : Steady (take_entries l).
Proof.
  induction l as [|e l IH]; cbn [take_entries]; [apply _|].
  unfold take_entry, _save_log_truncate, _save_log_entry. apply _.
Qed.
#[local] Existing Instance steady_take_entries.

(** The proposals and the rest of what a node does between elections. *)
Lemma steady_plain ev :
  match ev with
  | EProposeAdmit _ | EProposeDone | EReadIndex | EFreeze _ | EResume => Steady (step ev)
  | _ => True
  end.
Proof.
  destruct ev; try done; cbn [step];
    unfold propose_admit, propose_done, freeze_writes, resume_writes; apply _.
Qed.

(** ** What touches the pool alone *)

Definition deadlines tm : option Z * option Z := (_election_deadline tm, _next_heartbeat tm).

Lemma dispatch_pool_only p r s :
  (TimedNode._dispatch_heartbeat p r s).1.1 = s.1 ∧
  deadlines (TimedNode._dispatch_heartbeat p r s).1.2 = deadlines s.2 ∧
  (TimedNode._dispatch_heartbeat p r s).2 = Ok tt.
Proof.
  destruct s as [n tm]. unfold TimedNode._dispatch_heartbeat, TimedNode.submit. cbn [fst snd].
  destruct (_ || _); [done|]. cbn. by destruct (_rpc_pool tm).
Qed.

Lemma dispatch_all_pool_only l : ∀ s,
  (TimedNode.dispatch_all l s).1.1 = s.1 ∧
  deadlines (TimedNode.dispatch_all l s).1.2 = deadlines s.2 ∧
  (TimedNode.dispatch_all l s).2 = Ok tt.
Proof.
  induction l as [|[p r] l IH]; intros s; [done|]. cbn [TimedNode.dispatch_all].
  destruct (dispatch_pool_only p r s) as (Hn & Hd & Hr). unfold bind.
  destruct (TimedNode._dispatch_heartbeat p r s) as [s1 x]. cbn in *. subst x.
  destruct (IH s1) as (Hn1 & Hd1 & Hr1). split_and!; congruence.
Qed.

Lemma send_pool_only s :
  (TimedNode._send_heartbeats s).1.1 = s.1 ∧
  deadlines (TimedNode._send_heartbeats s).1.2 = deadlines s.2 ∧
  (TimedNode._send_heartbeats s).2 = Ok tt.
Proof. destruct s as [n tm]. apply (dispatch_all_pool_only _ (n, tm)). Qed.

Lemma submit_votes_pool_only peers : ∀ s,
  (TimedNode.submit_votes peers s).1.1 = s.1 ∧
  deadlines (TimedNode.submit_votes peers s).1.2 = deadlines s.2 ∧
  (TimedNode.submit_votes peers s).2 = Ok tt.
Proof.
  induction peers as [|p peers IH]; intros [n tm]; [done|]. cbn [TimedNode.submit_votes].
  unfold bind, TimedNode._submit_rpc, TimedNode.submit. cbn [fst snd].
  destruct (_shutdown_flag n); [apply (IH (n, tm))|]. destruct (_rpc_pool tm) as [q|].
  - apply (IH (n, with_pool (Some (q ++ [JRequestVote p])) tm)).
  - apply (IH (n, tm)).
Qed.

Lemma start_rounds_pool_only l : ∀ s,
  (TimedNode.start_rounds l s).1.1 = s.1 ∧
  deadlines (TimedNode.start_rounds l s).1.2 = deadlines s.2 ∧
  (TimedNode.start_rounds l s).2 = Ok tt.
Proof.
  induction l as [|[p r] l IH]; intros [n tm]; [done|].
  apply (IH (n, with_running (running tm ++ [JReplicate p r]) tm)).
Qed.

(** ** Elections, with their timers *)

Lemma timed_read {A} (k : node → M timed A) n tm :
  bind (TimedNode.on_node (read (λ n, n))) k (n, tm) = k n (n, tm).
Proof. done. Qed.
Lemma timed_modify {A} f (k : unit → M timed A) n tm :
  bind (TimedNode.on_node (modify f)) k (n, tm) = k tt (f n, tm).
Proof. done. Qed.
Lemma timed_timers {A} f (k : unit → M timed A) n tm :
  bind (TimedNode.on_timers f) k (n, tm) = k tt (n, f tm).
Proof. done. Qed.

(** The count of the votes changes nothing, or this node leads and its heartbeats are due. *)
Lemma check_cases m s s' :
  TimedNode._check_vote_count config m s = (s', Ok tt) →
  s' = s ∨
  (_state s'.1 = LEADER ∧ _next_heartbeat s'.2 = Some (now m + heartbeat_interval config) ∧
   _current_term s'.1 = _current_term s.1 ∧ _shutdown_flag s'.1 = _shutdown_flag s.1).
Proof.
  destruct s as [n tm]. unfold TimedNode._check_vote_count. rewrite timed_read.
  case_decide; [intros [= <-]; by left|].
  destruct (_ >=? _); [|intros [= <-]; by left].
  unfold TimedNode._cancel_election_timer. rewrite !timed_modify, timed_timers, timed_modify.
  set (n1 := reset_progress _). set (tm1 := with_deadline None tm).
  unfold bind at 1, TimedNode.on_node. cbn [fst snd].
  assert (Steady _append_noop_entry) as Hs by (unfold _append_noop_entry; apply _).
  specialize (Hs n1). destruct (_append_noop_entry n1) as [n2 [[]|x]]; [|done].
  unfold bind. destruct (send_pool_only (n2, tm1)) as (Hn & Hd & Hr).
  destruct (TimedNode._send_heartbeats (n2, tm1)) as [[n3 tm3] x]. cbn in *. subst x n3.
  intros [= <-]. right. cbn. unfold role in Hs. by injection Hs as -> -> -> _.
Qed.

(** ** Timers stay armed *)

(** A node that has not been stopped has something to wake up for, and soon: the leader its
    next heartbeat, any other node its next campaign. *)
Definition armed (t : Z) s : Prop :=
  _shutdown_flag s.1 = false →
  (_state s.1 = LEADER → ∃ h, _next_heartbeat s.2 = Some h ∧ h ≤ t + heartbeat_interval config) ∧
  (_state s.1 ≠ LEADER → ∃ d, _election_deadline s.2 = Some d ∧ d ≤ t + election_timeout_max config).

Definition drawn m : Prop := election_timeout_min config ≤ draw m ≤ election_timeout_max config.

Lemma armed_mono t t' s : t ≤ t' → armed t s → armed t' s.
Proof.
  intros Hle Ha Hf. destruct (Ha Hf) as [Hl Hn]. split.
  - intros (h & ? & ?)%Hl. exists h. split; [done|lia].
  - intros (d & ? & ?)%Hn. exists d. split; [done|lia].
Qed.

(** Only the role and the deadlines count. *)
Lemma armed_same t s s' :
  _state s'.1 = _state s.1 → _shutdown_flag s'.1 = _shutdown_flag s.1 →
  deadlines s'.2 = deadlines s.2 → armed t s → armed t s'.
Proof. unfold armed, deadlines. by intros -> -> [= -> ->]. Qed.

(** A node that does not lead, just after a reset. *)
Lemma armed_reset m s :
  drawn m → _state s.1 ≠ LEADER → _election_deadline s.2 = Some (now m + draw m) → armed (now m) s.
Proof. intros [_ Hd] Hs He _. split; [done|]. intros _. exists (now m + draw m). split; [done|lia]. Qed.

Lemma check_armed m s s' :
  armed (now m) s → TimedNode._check_vote_count config m s = (s', Ok tt) → armed (now m) s'.
Proof.
  intros Ha [->|(Hs & Hh & _ & Hf)]%check_cases; [done|]. intros _. split; [|by rewrite Hs].
  intros _. eexists. split; [exact Hh|lia].
Qed.

Lemma on_node_Ok {A} (x : M node A) s s' (a : A) :
  TimedNode.on_node x s = (s', Ok a) → x s.1 = (s'.1, Ok a) ∧ s'.2 = s.2.
Proof. unfold TimedNode.on_node. destruct (x s.1) as [n r]. by intros [= <- ->]. Qed.

Lemma steady_armed {A} (x : M node A) `{!Steady x} t s s' a :
  armed t s → TimedNode.on_node x s = (s', Ok a) → armed t s'.
Proof.
  intros Ha [Hx Ht]%on_node_Ok. specialize (Steady0 s.1). rewrite Hx in Steady0.
  injection Steady0 as H1' _ H2' _. apply (armed_same t s); [done..|by rewrite Ht|done].
Qed.

Lemma campaign_armed m s s' :
  drawn m → (_shutdown_flag s.1 || bool_decide (_state s.1 = LEADER) = true → armed (now m) s) →
  TimedNode._start_election config m s = (s', Ok tt) → armed (now m) s'.
Proof.
  intros Hd Ha. destruct s as [n tm]. unfold TimedNode._start_election. rewrite timed_read.
  cbn [fst] in Ha. destruct (_shutdown_flag n) eqn:Hf; [intros [= <-]; by apply Ha|].
  destruct (decide (_state n = LEADER)) as [Hs|Hs].
  { intros [= <-]. apply Ha. by rewrite bool_decide_true by done. }
  unfold _forget_leader. rewrite !timed_modify. intros Hr.
  apply bind_Ok_inv in Hr as ([n1 tm1] & [] & Hsave & Hr).
  apply on_node_Ok in Hsave as [Hsave Ht]. cbn in Hsave, Ht. subst tm1.
  pose proof (steady_storage (λ n, save_meta (_current_term n) (_voted_for n))) as Hst.
  match type of Hsave with _save_meta ?x = _ => specialize (Hst x) end.
  unfold _save_meta in Hsave. rewrite Hsave in Hst. injection Hst as Hstate _ _ _. cbn in Hstate.
  unfold TimedNode._reset_election_timer, TimedNode._arm_election_deadline in Hr.
  rewrite timed_timers in Hr.
  apply bind_Ok_inv in Hr as (s2 & [] & Hc & Hr).
  apply check_armed in Hc; [|apply armed_reset; [done|by cbn; rewrite Hstate|done]].
  destruct (submit_votes_pool_only (_peers n) s2) as (Hn & Hdl & _). rewrite Hr in Hn, Hdl. cbn in Hn, Hdl.
  apply (armed_same _ s2); [by rewrite Hn..|done|done].
Qed.

(** ** The messages of a leader *)

Lemma adopt_run term n : ∃ n1 b,
  adopt_term term n = (n1, Ok b) ∧ _shutdown_flag n1 = _shutdown_flag n ∧
  _current_term n1 = Z.max term (_current_term n).
Proof.
  unfold adopt_term. rewrite bind_read. destruct (term >? _current_term n) eqn:Ht.
  - do 2 eexists. split; [done|]. cbn. split; [done|]. lia.
  - exists n, false. split_and!; [done..|lia].
Qed.

Lemma adopt_refused term n : (term <? _current_term n) = true → adopt_term term n = (n, Ok false).
Proof.
  intros Ht%Z.ltb_lt. unfold adopt_term. rewrite bind_read.
  by replace (term >? _current_term n) with false by lia.
Qed.

Lemma follow_run l n : ∃ n1,
  follow l n = (n1, Ok tt) ∧ _state n1 = FOLLOWER ∧ _shutdown_flag n1 = _shutdown_flag n.
Proof.
  unfold follow. rewrite bind_read. destruct (decide (_state n ≠ FOLLOWER)) as [Hs|Hs].
  - by eexists.
  - apply dec_stable in Hs. by eexists.
Qed.

(** Both handlers: a term is taken over, and unless the message is from an earlier one, the
    node follows its sender; nothing after that changes the role. *)
Lemma leader_message {A} term l (refuse rest : bool → node → M node A) n n' a :
  (∀ b n, Steady (rest b n)) →
  (let* b := adopt_term term in
   let* n := read (λ n, n) in
   if term <? _current_term n then refuse b n else follow l ;;; rest b n) n = (n', Ok a) →
  (term <? _current_term n) = false →
  _state n' = FOLLOWER ∧ _shutdown_flag n' = _shutdown_flag n.
Proof.
  intros Hrest Hr Ht. destruct (adopt_run term n) as (n1 & b & Hadopt & Hf1 & Ht1).
  rewrite (bind_run _ _ _ _ _ Hadopt), bind_read in Hr.
  replace (term <? _current_term n1) with false in Hr by (apply Z.ltb_ge in Ht; lia).
  destruct (follow_run l n1) as (n2 & Hfollow & Hs2 & Hf2).
  rewrite (bind_run _ _ _ _ _ Hfollow) in Hr.
  specialize (Hrest b n1 n2). rewrite Hr in Hrest. injection Hrest as Hs' _ Hf' _.
  split; congruence.
Qed.

Lemma append_entries_follows r n n' a :
  append_entries r n = (n', Ok a) → (ae_term r <? _current_term n) = false →
  _state n' = FOLLOWER ∧ _shutdown_flag n' = _shutdown_flag n.
Proof.
  intros Hr. eapply (leader_message _ _ (λ b n, save_if b ;;; ret _) (λ b n, _)); [|exact Hr].
  intros b n1. unfold save_if, _save_meta, _save_commit_index. apply _.
Qed.

#[local] Instance steady_restore data : Steady (restore_machine data).
Proof. intros n. unfold restore_machine. by destruct (sm_restore _ _). Qed.

Lemma install_snapshot_follows r n n' a :
  install_snapshot r n = (n', Ok a) → (is_term r <? _current_term n) = false →
  _state n' = FOLLOWER ∧ _shutdown_flag n' = _shutdown_flag n.
Proof.
  intros Hr. eapply (leader_message _ _ (λ b n, save_if b ;;; ret _) (λ b n, _)); [|exact Hr].
  intros b n1. unfold save_if, _save_meta, _save_commit_index. apply _.
Qed.

Lemma append_entries_refused r n :
  (ae_term r <? _current_term n) = true → (append_entries r n).1 = n.
Proof.
  intros Ht. unfold append_entries. rewrite (bind_run _ _ _ _ _ (adopt_refused _ _ Ht)), bind_read.
  by rewrite Ht.
Qed.

Lemma install_snapshot_refused r n :
  (is_term r <? _current_term n) = true → (install_snapshot r n).1 = n.
Proof.
  intros Ht. unfold install_snapshot. rewrite (bind_run _ _ _ _ _ (adopt_refused _ _ Ht)), bind_read.
  by rewrite Ht.
Qed.

(** ** Every event keeps the timers armed *)

Lemma append_entries_armed m r s s' a :
  drawn m → armed (now m) s → TimedNode.append_entries m r s = (s', Ok a) → armed (now m) s'.
Proof.
  destruct s as [n tm]. intros Hd Ha. unfold TimedNode.append_entries. rewrite timed_read.
  destruct (ae_term r <? _current_term n) eqn:Ht.
  - rewrite bind_ret. intros [Hr Htm]%on_node_Ok. cbn [fst snd] in Hr, Htm.
    pose proof (append_entries_refused r n Ht) as Hn. rewrite Hr in Hn. cbn in Hn.
    apply (armed_same _ (n, tm)); by rewrite ?Hn, ?Htm.
  - unfold TimedNode._reset_election_timer, TimedNode._arm_election_deadline. rewrite timed_timers.
    intros [Hr Htm]%on_node_Ok. cbn [fst snd] in Hr, Htm.
    destruct (append_entries_follows _ _ _ _ Hr Ht) as [Hs _].
    apply armed_reset; [done|by rewrite Hs|by rewrite Htm].
Qed.

Lemma install_snapshot_armed m r s s' a :
  drawn m → armed (now m) s → TimedNode.install_snapshot m r s = (s', Ok a) → armed (now m) s'.
Proof.
  destruct s as [n tm]. intros Hd Ha. unfold TimedNode.install_snapshot. rewrite timed_read.
  destruct (is_term r <? _current_term n) eqn:Ht.
  - rewrite bind_ret. intros [Hr Htm]%on_node_Ok. cbn [fst snd] in Hr, Htm.
    pose proof (install_snapshot_refused r n Ht) as Hn. rewrite Hr in Hn. cbn in Hn.
    apply (armed_same _ (n, tm)); by rewrite ?Hn, ?Htm.
  - unfold TimedNode._reset_election_timer, TimedNode._arm_election_deadline. rewrite timed_timers.
    intros [Hr Htm]%on_node_Ok. cbn [fst snd] in Hr, Htm.
    destruct (install_snapshot_follows _ _ _ _ Hr Ht) as [Hs _].
    apply armed_reset; [done|by rewrite Hs|by rewrite Htm].
Qed.

Lemma stop_leading_armed m term s s' :
  drawn m → TimedNode.stop_leading m term s = (s', Ok tt) → armed (now m) s'.
Proof. destruct s as [n tm]. intros Hd [= <-]. by apply armed_reset. Qed.

Lemma vote_response_armed m p r s s' :
  drawn m → armed (now m) s → TimedNode.vote_response config m p r s = (s', Ok tt) → armed (now m) s'.
Proof.
  destruct s as [n tm]. intros Hd Ha. unfold TimedNode.vote_response. rewrite timed_read.
  destruct (_ >? _); [intros [= <-]; by apply armed_reset|].
  destruct (decide (_state n ≠ CANDIDATE)); [by intros [= <-]|].
  destruct (rvr_vote_granted r); [|by intros [= <-]].
  rewrite timed_modify. apply check_armed. by apply (armed_same _ (n, tm)).
Qed.

Lemma append_response_armed m p r s s' a :
  drawn m → armed (now m) s → TimedNode.append_response m p r s = (s', Ok a) → armed (now m) s'.
Proof.
  destruct s as [n tm]. intros Hd Ha. unfold TimedNode.append_response. rewrite timed_read.
  destruct (_ >? _) eqn:Ht.
  - intros (s1 & [] & Hs & [= <- _])%bind_Ok_inv. by eapply stop_leading_armed.
  - intros [Hr Htm]%on_node_Ok. cbn [fst snd] in Hr, Htm. unfold append_response in Hr.
    rewrite bind_read, Ht in Hr.
    match type of Hr with ?x _ = _ => assert (Steady x) as Hst by (unfold backed_off; apply _) end.
    specialize (Hst n). rewrite Hr in Hst. injection Hst as Hs _ Hf _.
    apply (armed_same _ (n, tm)); by rewrite ?Hs, ?Hf, ?Htm.
Qed.

Lemma snapshot_response_armed m p i r s s' a :
  drawn m → armed (now m) s → TimedNode.snapshot_response m p i r s = (s', Ok a) → armed (now m) s'.
Proof.
  destruct s as [n tm]. intros Hd Ha. unfold TimedNode.snapshot_response. rewrite timed_read.
  destruct (_ >? _) eqn:Ht.
  - intros (s1 & [] & Hs & [= <- _])%bind_Ok_inv. by eapply stop_leading_armed.
  - intros [Hr Htm]%on_node_Ok. cbn [fst snd] in Hr, Htm. unfold snapshot_response in Hr.
    rewrite bind_read, Ht in Hr.
    match type of Hr with ?x _ = _ => assert (Steady x) as Hst by (unfold backed_off; apply _) end.
    specialize (Hst n). rewrite Hr in Hst. injection Hst as Hs _ Hf _.
    apply (armed_same _ (n, tm)); by rewrite ?Hs, ?Hf, ?Htm.
Qed.

(** A save leaves the role and the timers. *)
Lemma save_armed t s s' :
  armed t s → TimedNode.on_node _save_meta s = (s', Ok tt) → armed t s'.
Proof. apply steady_armed. unfold _save_meta. apply _. Qed.

(** The answer to a vote request after the term is settled. *)
Lemma vote_answer_armed m (c : bool) v (yes no : RequestVoteResponse) s s' a :
  drawn m → armed (now m) s →
  (if c then TimedNode.on_node (modify (with_voted_for v)) ;;;
             TimedNode.on_node _save_meta ;;; TimedNode._reset_election_timer m ;;; ret yes
   else ret no) s = (s', Ok a) → armed (now m) s'.
Proof.
  destruct s as [n tm]. intros Hd Ha. destruct c; [|by intros [= <- _]]. rewrite timed_modify.
  intros ([n1 tm1] & [] & Hsave & [= <- _])%bind_Ok_inv.
  apply (save_armed (now m)) in Hsave; [|by apply (armed_same _ (n, tm))].
  intros Hf. destruct (Hsave Hf) as [Hl _]. split; [exact Hl|]. intros _.
  exists (now m + draw m). split; [done|]. unfold drawn in Hd. lia.
Qed.

Lemma request_vote_armed m r s s' a :
  drawn m → armed (now m) s → TimedNode.request_vote m r s = (s', Ok a) → armed (now m) s'.
Proof.
  destruct s as [n tm]. intros Hd Ha. unfold TimedNode.request_vote.
  intros (s1 & ? & [= <- <-] & Hr)%bind_Ok_inv. apply bind_Ok_inv in Hr as (s1 & ? & [= <- <-] & Hr).
  rewrite timed_read in Hr. apply bind_Ok_inv in Hr as ([n1 tm1] & [] & Hm & Hr).
  assert (armed (now m) (n1, tm1)) as Ha1.
  { destruct (_ >? _); [|by injection Hm as <- <-].
    apply bind_Ok_inv in Hm as ([n2 tm2] & [] & [= <- <-] & Hm). rewrite timed_modify in Hm.
    apply bind_Ok_inv in Hm as ([n3 tm3] & [] & Hsave & [= <- <-]).
    apply on_node_Ok in Hsave as [Hsave _]. cbn [fst snd] in Hsave.
    pose proof (steady_storage (λ n, save_meta (_current_term n) (_voted_for n))) as Hst.
    match type of Hsave with _save_meta ?x = _ => specialize (Hst x) end.
    unfold _save_meta in Hsave. rewrite Hsave in Hst. injection Hst as Hs _ _ _.
    apply armed_reset; [done| |done]. cbn. by rewrite Hs. }
  rewrite timed_read in Hr. destruct (rv_term r <? _current_term n1); [by injection Hr as <- _|].
  revert Hr. by apply vote_answer_armed.
Qed.

(** A node that starts is a follower with its timer running. *)
Lemma load_keeps_state n n' :
  _load_from_storage n = (n', Ok tt) → _state n' = _state n.
Proof.
  unfold _load_from_storage. destruct (_storage n) as [r|]; [|by intros [= <-]]. intros Hr.
  mstep Hr. injection Hm as <- _. mstep Hr. injection Hm as <- _. mstep Hr. injection Hm as <- _.
  mstep Hr. injection Hm as <- _. mstep Hr. injection Hm as <- _. mstep Hr. injection Hm as <- _.
  mstep Hr.
  assert (_state n0 = _state n) as Hs.
  { destruct a4 as [[[i t] data]|]; [|by injection Hm as <- _].
    mstep Hm. pose proof (steady_restore data) as Hst.
    match type of Hm0 with restore_machine _ ?x = _ => specialize (Hst x) end.
    rewrite Hm0 in Hst. injection Hst as Hs _ _ _. mrun_in Hm. by cbn; rewrite Hs. }
  mstep Hr. injection Hm0 as <- _. mstep Hr. injection Hm0 as <- _.
  pose proof steady_apply as Hst. match type of Hr with _ ?x = _ => specialize (Hst x) end.
  rewrite Hr in Hst. injection Hst as Hs' _ _ _. rewrite Hs'. exact Hs.
Qed.

Lemma init_armed m n s s' :
  drawn m → _state n = FOLLOWER → TimedNode.init m n s = (s', Ok tt) → armed (now m) s'.
Proof.
  intros Hd Hs. unfold TimedNode.init.
  intros ([n1 tm1] & [] & [Hl _]%on_node_Ok & [= <-])%bind_Ok_inv. apply armed_reset; [done| |done].
  cbn in Hl |- *. apply load_keeps_state in Hl. by rewrite Hl, Hs.
Qed.

Lemma propose_armed t c s s' o :
  armed t s → TimedNode.propose_append c s = (s', Ok o) → armed t s'.
Proof.
  intros Ha Hr. unfold TimedNode.propose_append in Hr. apply bind_Ok_inv in Hr as (s1 & x & Hm & Hr).
  assert (Steady (propose_append (S:=S) (R:=R) c)) as Hst by (unfold propose_append; apply _).
  pose proof (steady_armed _ _ _ _ _ Ha Hm) as Ha1. destruct x as [a|a]; [by injection Hr as <- _|].
  destruct s1 as [n1 tm1]. rewrite timed_read in Hr. apply bind_Ok_inv in Hr as (s2 & [] & Hm2 & [= <- _]).
  destruct (start_rounds_pool_only (map (λ p, (p, replication_round p n1)) (_peers n1)) (n1, tm1)) as (Hn & Hd & _).
  rewrite Hm2 in Hn, Hd. cbn [fst snd] in Hn, Hd. by apply (armed_same _ (n1, tm1)); rewrite ?Hn.
Qed.

Lemma node_event_armed m ev s s' a :
  drawn m → armed (now m) s → TimedNode.node_event config m ev s = (s', Ok a) → armed (now m) s'.
Proof.
  destruct s as [n tm]. intros Hd Ha Hr. pose proof (steady_plain ev) as Hp.
  destruct ev; cbn [TimedNode.node_event] in Hr; try (by eapply steady_armed in Hr);
    try rewrite timed_read in Hr; apply bind_Ok_inv in Hr as (s1 & x & Hm & Hr);
    try injection Hr as <- _.
  - destruct x, s1 as [n1 tm1]. eapply campaign_armed; [done| |exact Hm]. by intros _.
  - by eapply request_vote_armed.
  - destruct x. by eapply vote_response_armed.
  - by eapply append_entries_armed.
  - by eapply append_response_armed.
  - by eapply install_snapshot_armed.
  - by eapply snapshot_response_armed.
  - by eapply propose_armed.
  - injection Hm as <- _. intros Hf. discriminate Hf.
  - destruct x. eapply init_armed; [done| |exact Hm]. done.
Qed.

Lemma tick_armed m later s s' a :
  drawn m → armed (now m) s → TimedNode.tick_body config m later s = (s', Ok a) → armed (now m) s'.
Proof.
  destruct s as [n tm]. intros Hd Ha. unfold TimedNode.tick_body. unfold bind at 1. cbn [fst snd].
  destruct (decide (_state n = LEADER)) as [Hs|Hs].
  - intros (s1 & [] & Hm & (s2 & ? & [= <- <-] & [= <- _])%bind_Ok_inv)%bind_Ok_inv.
    destruct (reached _ _); [|by injection Hm as <-]. rewrite timed_timers in Hm.
    match type of Hm with _ ?x = _ => destruct (send_pool_only x) as (Hn & Hdl & _) end.
    rewrite Hm in Hn, Hdl. cbn in Hn, Hdl. injection Hdl as _ Hh. intros _.
    split; [|by rewrite Hn]. intros _. eexists. split; [exact Hh|lia].
  - destruct (reached _ _); [|by intros [= <- _]]. rewrite timed_timers.
    intros (s1 & [] & Hm & [= <- _])%bind_Ok_inv. eapply campaign_armed; [done| |exact Hm].
    cbn. rewrite bool_decide_false by done. rewrite orb_false_r. by intros Hf ?%(eq_trans (eq_sym Hf)).
Qed.

(** ** Whole lives *)

(** An event in which nothing raised. *)
Definition clean m (ev : TimedNode.timed_event) s s' : Prop :=
  match ev with
  | TimedNode.TNode ev => ∃ v, TimedNode.node_event config m ev s = (s', Ok v)
  | TimedNode.TTick later => ∃ v, TimedNode.tick_body config m later s = (s', Ok v)
  | TimedNode.TTake => TimedNode.take_job s = (s', (TimedNode.take_job s).2)
  | TimedNode.TFinish i => TimedNode.finish_job i s = (s', Ok tt)
  | TimedNode.TReadRound p r => TimedNode.start_thread (JReplicate p r) s = (s', Ok tt)
  end.

(** From a state at a time to a later one, by any events at times that do not go back. *)
Inductive timed_run : Z → timed → Z → timed → Prop :=
  | run_here t s : timed_run t s t s
  | run_on t s m ev s1 t2 s2 :
      t ≤ now m → drawn m → clean m ev s s1 → timed_run (now m) s1 t2 s2 → timed_run t s t2 s2.

Lemma take_job_pool_only s :
  (TimedNode.take_job s).1.1 = s.1 ∧ deadlines (TimedNode.take_job s).1.2 = deadlines s.2.
Proof. destruct s as [n tm]. unfold TimedNode.take_job. cbn. by destruct (_rpc_pool tm) as [[|j q]|]. Qed.

Lemma finish_job_pool_only i s :
  (TimedNode.finish_job i s).1.1 = s.1 ∧ deadlines (TimedNode.finish_job i s).1.2 = deadlines s.2.
Proof.
  destruct s as [n tm]. unfold TimedNode.finish_job. cbn [snd].
  destruct (running tm !! i) as [[p|p r|p r]|]; by cbn.
Qed.

Lemma clean_armed m ev s s' :
  drawn m → armed (now m) s → clean m ev s s' → armed (now m) s'.
Proof.
  intros Hd Ha. destruct ev as [ev|later| |i|p r]; cbn [clean].
  - intros [v Hr]. by eapply node_event_armed.
  - intros [v Hr]. by eapply tick_armed.
  - intros Hr. destruct (take_job_pool_only s) as [Hn Hdl]. rewrite Hr in Hn, Hdl. cbn [fst snd] in Hn, Hdl.
    by apply (armed_same _ s); rewrite ?Hn.
  - intros Hr. destruct (finish_job_pool_only i s) as [Hn Hdl]. rewrite Hr in Hn, Hdl. cbn [fst snd] in Hn, Hdl.
    by apply (armed_same _ s); rewrite ?Hn.
  - intros [= <-]. by apply (armed_same _ s).
Qed.

Lemma run_armed t s t' s' : timed_run t s t' s' → armed t s → armed t' s'.
Proof.
  induction 1 as [t s|t s m ev s1 t2 s2 Hle Hd Hc Hr IH]; intros Ha; [done|].
  apply IH. eapply clean_armed; [done| |done]. by eapply armed_mono.
Qed.

(** ** The turns of the ticker *)

Lemma modify_run {A} f (k : unit → M node A) n : bind (modify f) k n = k tt (f n).
Proof. done. Qed.

Lemma campaign_term n :
  _shutdown_flag n = false → _state n ≠ LEADER →
  _current_term (_start_election n).1 = _current_term n + 1.
Proof.
  intros Hf Hs. unfold _start_election. rewrite bind_read, Hf, decide_False by done.
  set (n1 := with_votes_received {[_node_id n]} (with_voted_for (Some (_node_id n))
    (with_current_term (_current_term n + 1) (with_leader_id None (with_state CANDIDATE n))))).
  change (_current_term ((_save_meta ;;; _check_vote_count) n1).1 = _current_term n1).
  assert (Steady _save_meta) as Hsave by (unfold _save_meta; apply _).
  specialize (Hsave n1). apply (f_equal (λ r, r.1.1.2)) in Hsave. unfold bind.
  destruct (_save_meta n1) as [n2 [[]|x]]; [|exact Hsave].
  transitivity (_current_term n2); [clear Hsave|exact Hsave].
  unfold _check_vote_count. rewrite bind_read. destruct (decide (_state n2 ≠ CANDIDATE)); [done|].
  destruct (_ >=? _); [|done].
  assert (Steady _append_noop_entry) as Hn by (unfold _append_noop_entry; apply _).
  rewrite !modify_run. set (n3 := reset_progress _).
  specialize (Hn n3). apply (f_equal (λ r, r.1.1.2)) in Hn. cbn [role fst snd] in Hn.
  transitivity (_current_term n3); [exact Hn|reflexivity].
Qed.

Lemma tick_waits m later s d :
  _state s.1 ≠ LEADER → _election_deadline s.2 = Some d → now m < d →
  TimedNode.tick_turn config m later s = (s, Z.min (Z.max (d - now m) 1) _tick_interval).
Proof.
  intros Hs Hd Hlt. unfold TimedNode.tick_turn, TimedNode.tick_body, bind at 1.
  rewrite decide_False by done. rewrite Hd. cbn [reached].
  by replace (d <=? now m) with false by lia.
Qed.

(** The node after a turn that found the deadline past. *)
Lemma tick_campaigns m later s :
  _state s.1 ≠ LEADER → reached (now m) (_election_deadline s.2) = true →
  (TimedNode.tick_turn config m later s).1
  = (TimedNode._start_election config m (s.1, with_deadline None s.2)).1.
Proof.
  destruct s as [n tm]. intros Hs Hr. unfold TimedNode.tick_turn, TimedNode.tick_body.
  unfold bind at 1. cbn [fst snd] in *. rewrite decide_False by done. rewrite Hr, timed_timers.
  unfold bind. by destruct (TimedNode._start_election config m _) as [s' [[]|x]].
Qed.

Lemma tick_leads m later s :
  _state s.1 = LEADER → (TimedNode.tick_turn config m later s).1.1 = s.1.
Proof.
  destruct s as [n tm]. intros Hs. unfold TimedNode.tick_turn, TimedNode.tick_body.
  unfold bind at 1. cbn [fst snd] in *. rewrite decide_True by done.
  destruct (reached _ _); [|done]. unfold bind at 1. rewrite timed_timers.
  match goal with |- context [TimedNode._send_heartbeats ?x] =>
    destruct (send_pool_only x) as (Hn & _ & Hr); destruct (TimedNode._send_heartbeats x) as [s1 r] end.
  cbn in Hr. subst r. exact Hn.
Qed.

(** The timers only say when.  With its timers, each event does to a node what it does
    without them and answers the same; and a turn of the ticker does nothing to the node,
    or it is a campaign, of a node that does not lead and whose deadline is past.  So what
    is proved of a node over any sequence of events holds of a node with its ticker. *)
Theorem timers_only_say_when m ev later s :
  ((TimedNode.node_event config m ev s).1.1, (TimedNode.node_event config m ev s).2) = step ev s.1 ∧
  ((TimedNode.tick_turn config m later s).1.1 = s.1 ∨
   (_state s.1 ≠ LEADER ∧ reached (now m) (_election_deadline s.2) = true ∧
    (TimedNode.tick_turn config m later s).1.1 = (step ECampaign s.1).1)).
Proof.
  split; [apply erases_event|].
  destruct (decide (_state s.1 = LEADER)) as [Hs|Hs]; [left; by apply tick_leads|].
  destruct (reached (now m) (_election_deadline s.2)) eqn:Hr.
  - right. split_and!; [done..|]. rewrite tick_campaigns by done.
    pose proof (erases_campaign m (s.1, with_deadline None s.2)) as He. cbn [fst] in He.
    cbn [step]. rewrite bind_read. unfold bind. rewrite <-He.
    by destruct (TimedNode._start_election config m _) as [[n1 tm1] [[]|x]].
  - left. unfold TimedNode.tick_turn, TimedNode.tick_body, bind at 1.
    rewrite decide_False by done. by rewrite Hr.
Qed.

(** The ticker comes round to the deadline: each turn that is too early sleeps at least a
    millisecond and not past it. *)
Lemma ticker_campaigns turns late d : ∀ t s,
  _shutdown_flag s.1 = false → _state s.1 ≠ LEADER → _election_deadline s.2 = Some d →
  Forall (λ r, 0 ≤ TimedNode.tr_late r ≤ late) turns → turns ≠ [] → d - t < Z.of_nat (length turns) →
  ∃ time s', (time, s') ∈ TimedNode._tick config turns t s ∧
    _current_term s'.1 = _current_term s.1 + 1 ∧ t ≤ time ≤ Z.max t (d + late).
Proof.
  induction turns as [|r turns IH]; intros t s Hf Hs Hd Hl Hne Hlen; [done|].
  apply Forall_cons in Hl as [Hr Hl]. cbn [TimedNode._tick]. rewrite Hf.
  set (m := {| now := t; draw := TimedNode.tr_draw r |}).
  destruct (decide (d ≤ t)) as [Hle|Hgt].
  - destruct (TimedNode.tick_turn config m (t + TimedNode.tr_took r) s) as [s' z] eqn:Ht.
    exists t, s'. split; [left|]. split; [|lia].
    assert (reached (now m) (_election_deadline s.2) = true) as Hre by (rewrite Hd; cbn; lia).
    pose proof (tick_campaigns m (t + TimedNode.tr_took r) s Hs Hre) as Hc. rewrite Ht in Hc. cbn [fst] in Hc.
    rewrite Hc.
    pose proof (erases_campaign m (s.1, with_deadline None s.2)) as He.
    apply (f_equal fst) in He. cbn [fst] in He. rewrite He. by apply campaign_term.
  - rewrite (tick_waits m _ s d) by (done || (cbn; lia)). cbn [now m]. unfold _tick_interval.
    set (t' := t + _ + _). cbn [length] in Hlen.
    destruct (IH t' s) as (time & s' & Hin & Hterm & Htime); try done; try lia.
    { destruct turns; [cbn in Hlen; lia|done]. }
    exists time, s'. split; [by right|]. split; [done|]. lia.
Qed.

(** C15: A node that hears nothing campaigns.  Take a node that was started and then lived
    through any events, ticks and restarts in which nothing raised, and that does not lead:
    left alone, its ticker starts an election in the next term.  It does so at the latest
    [election_timeout_max] milliseconds later, plus what the thread is woken late, and
    within as many turns. *)
Theorem silent_node_campaigns m0 n0 sx s0 t s turns late :
  _state n0 = FOLLOWER → drawn m0 → TimedNode.init m0 n0 sx = (s0, Ok tt) →
  timed_run (now m0) s0 t s → _shutdown_flag s.1 = false → _state s.1 ≠ LEADER →
  0 ≤ election_timeout_max config < Z.of_nat (length turns) →
  Forall (λ r, 0 ≤ TimedNode.tr_late r ≤ late) turns → 0 ≤ late →
  ∃ time s', (time, s') ∈ TimedNode._tick config turns t s ∧
    _current_term s'.1 = _current_term s.1 + 1 ∧
    t ≤ time ≤ t + election_timeout_max config + late.
Proof.
  intros Hn0 Hm0 Hi Hrun Hf Hs Hlen Hl Hlate.
  pose proof (run_armed _ _ _ _ Hrun (init_armed _ _ _ _ Hm0 Hn0 Hi)) as Ha.
  destruct (Ha Hf) as [_ Hd]. destruct (Hd Hs) as (d & Hdl & Hle).
  destruct (ticker_campaigns turns late d t s) as (time & s' & Hin & Ht & Hb); try done; try lia.
  { destruct turns; [cbn in Hlen; lia|done]. }
  exists time, s'. split; [done|]. split; [done|lia].
Qed.

(** A wait says yes at a look at a node that has applied the index, and no at one past the
    deadline at a node that has not; it is over with the first look past the deadline. *)
Lemma wait_for_apply_answers index deadline looks :
  match TimedNode._wait_for_apply index deadline looks with
  | Some true => ∃ n time, (n, time) ∈ looks ∧ index ≤ _last_applied n
  | Some false => ∃ n time, (n, time) ∈ looks ∧ _last_applied n < index ∧ deadline ≤ time
  | None => ∀ n time, (n, time) ∈ looks → _last_applied n < index ∧ time < deadline
  end.
Proof.
  induction looks as [|[n time] looks IH]; cbn [TimedNode._wait_for_apply].
  { by intros n time ?%not_elem_of_nil. }
  destruct (_last_applied n <? index) eqn:Ha; zbool.
  2: { exists n, time. split; [left|done]. }
  destruct (deadline - time <=? 0) eqn:Hd; zbool.
  { exists n, time. split; [left|]. split; [done|lia]. }
  destruct (TimedNode._wait_for_apply index deadline looks) as [[]|].
  - destruct IH as (n' & t' & ? & ?). exists n', t'. split; [by right|done].
  - destruct IH as (n' & t' & ? & ?). exists n', t'. split; [by right|done].
  - intros n' t' [[= -> ->]|Hin]%elem_of_cons; [split; lia|by apply IH].
Qed.

(** ** A save that fails *)

Lemma broken_campaign m n tm r x :
  _shutdown_flag n = false → _state n ≠ LEADER → _storage n = Some r →
  save_meta (_current_term n + 1) (Some (_node_id n)) r = Raise x →
  TimedNode._start_election config m (n, tm)
  = ((with_votes_received {[_node_id n]} (with_voted_for (Some (_node_id n))
       (with_current_term (_current_term n + 1) (with_leader_id None (with_state CANDIDATE n)))), tm),
     Raise x).
Proof.
  intros Hf Hs Hr Hx. unfold TimedNode._start_election. rewrite timed_read, Hf, decide_False by done.
  unfold _forget_leader. rewrite !timed_modify. set (n1 := with_votes_received _ _).
  apply bind_raise. unfold TimedNode.on_node, _save_meta, on_storage. cbn [fst snd].
  change (_storage n1) with (_storage n). rewrite Hr.
  change (save_meta (_current_term n1) (_voted_for n1) r)
    with (save_meta (_current_term n + 1) (Some (_node_id n)) r). by rewrite Hx.
Qed.

Lemma disarmed_ticker turns : ∀ t s,
  _state s.1 ≠ LEADER → _election_deadline s.2 = None →
  ∀ time s', (time, s') ∈ TimedNode._tick config turns t s → s' = s.
Proof.
  induction turns as [|r turns IH]; intros t s Hs Hd time s'; cbn [TimedNode._tick].
  { by intros ?%not_elem_of_nil. }
  destruct (_shutdown_flag s.1); [by intros ?%not_elem_of_nil|].
  unfold TimedNode.tick_turn, TimedNode.tick_body, bind at 1. rewrite decide_False by done.
  rewrite Hd. cbn [reached fmap option_fmap option_map ret].
  intros [[= _ ->]|Hin]%elem_of_cons; [done|]. by eapply IH.
Qed.

(** C40: A save that fails once stops the elections of a node.  The ticker takes the deadline
    away before it calls [_start_election], which sets it again only after the new term was
    saved.  When that save raises, the turn ends with a candidate that has no deadline, and
    no later turn does anything, however often it is made: the node waits to be called. *)
Theorem failed_save_stops_elections m later s r x d :
  _shutdown_flag s.1 = false → _state s.1 ≠ LEADER → _election_deadline s.2 = Some d → d ≤ now m →
  _storage s.1 = Some r → save_meta (_current_term s.1 + 1) (Some (_node_id s.1)) r = Raise x →
  let s' := (TimedNode.tick_turn config m later s).1 in
  _state s'.1 = CANDIDATE ∧ _election_deadline s'.2 = None ∧
  ∀ turns t time s'', (time, s'') ∈ TimedNode._tick config turns t s' → s'' = s'.
Proof.
  destruct s as [n tm]. intros Hf Hs Hd Hle Hr Hx s'. cbn [fst snd] in *.
  assert (reached (now m) (_election_deadline tm) = true) as Hre by (rewrite Hd; cbn; lia).
  pose proof (tick_campaigns m later (n, tm) Hs Hre) as Ht. fold s' in Ht.
  rewrite (broken_campaign _ _ _ _ _ Hf Hs Hr Hx) in Ht. cbn [fst] in Ht.
  rewrite Ht. split_and!; [done..|]. intros turns t time s''. by apply disarmed_ticker.
Qed.

(** ** The gate of the heartbeats *)

(** The peers of the gated exchanges that are queued or under way. *)
Definition gated : list job → list Z :=
  omap (λ j, match j with JGated p _ => Some p | _ => None end).
Definition jobs tm : list job := default [] (_rpc_pool tm) ++ running tm.

Record gate_inv tm : Prop := {
  gi_nodup : NoDup (gated (jobs tm));
  gi_closed p : p ∈ gated (jobs tm) → p ∈ _rpc_inflight tm;
  gi_open p : is_Some (_rpc_pool tm) → p ∈ _rpc_inflight tm → p ∈ gated (jobs tm)
}.

(** A step that keeps the gate, whether it returns or raises. *)
Class Gates {A} (m : M timed A) : Prop := gates : ∀ s, gate_inv s.2 → gate_inv (m s).1.2.

#[local] Instance gates_ret {A} (a : A) : Gates (ret a).
Proof. by intros s. Qed.
#[local] Instance gates_node {A} (x : M node A) : Gates (TimedNode.on_node x).
Proof. intros s. unfold TimedNode.on_node. by destruct (x s.1). Qed.
#[local] Instance gates_bind {A B} (m : M timed A) (k : A → M timed B) :
  Gates m → (∀ a, Gates (k a)) → Gates (bind m k).
Proof.
  intros Hm Hk s Hs. specialize (Hm s Hs). unfold bind. destruct (m s) as [s1 [a|x]]; [|done].
  by apply Hk.
Qed.
#[local] Instance gates_deadline d : Gates (TimedNode.on_timers (with_deadline d)).
Proof. by intros s [H1' H2' H3']. Qed.
#[local] Instance gates_heartbeat d : Gates (TimedNode.on_timers (with_next_heartbeat d)).
Proof. by intros s [H1' H2' H3']. Qed.
#[local] Hint Extern 1 (Gates (if ?b then _ else _)) => destruct b : typeclass_instances.

Lemma gated_app l1 l2 : gated (l1 ++ l2) = gated l1 ++ gated l2.
Proof. apply omap_app. Qed.

#[local] Instance gated_perm : Proper ((≡ₚ) ==> (≡ₚ)) gated.
Proof.
  induction 1 as [|[p|p r|p r] l1 l2 _ IH|[p|p r|p r] [p'|p' r'|p' r'] l|l1 l2 l3 _ IH1 _ IH2]; cbn; try done.
  - by constructor.
  - constructor.
  - by etransitivity.
Qed.

(** The list of jobs matters only up to its order. *)
Lemma gate_inv_jobs tm tm' :
  gated (jobs tm') ≡ₚ gated (jobs tm) → _rpc_inflight tm' = _rpc_inflight tm →
  (is_Some (_rpc_pool tm') → is_Some (_rpc_pool tm)) → gate_inv tm → gate_inv tm'.
Proof.
  intros Hp Hi Ho [Hn Hc Hop]. split.
  - by rewrite Hp.
  - intros p. rewrite Hp, Hi. apply Hc.
  - intros p H1' H2'. rewrite Hp. apply Hop; [by apply Ho|by rewrite <-Hi].
Qed.

#[local] Instance gates_dispatch p r : Gates (TimedNode._dispatch_heartbeat p r).
Proof.
  intros [n tm] Hg. cbn [snd] in Hg. unfold TimedNode._dispatch_heartbeat, TimedNode.submit. cbn [fst snd].
  destruct (_shutdown_flag n); [done|]. cbn [orb].
  destruct (bool_decide (p ∈ _rpc_inflight tm)) eqn:Hb; [done|]. apply bool_decide_eq_false in Hb.
  cbn. destruct (_rpc_pool tm) as [q|] eqn:Hq; cbn; destruct Hg as [Hn Hc Ho];
    unfold jobs in *; rewrite ?Hq in *; cbn in *.
  - assert (gated ((q ++ [JGated p r]) ++ running tm) ≡ₚ p :: gated (q ++ running tm)) as Hp.
    { rewrite !gated_app. cbn. rewrite <-(assoc (++)). symmetry. apply Permutation_middle. }
    split; unfold jobs; cbn.
    + rewrite Hp. apply list.NoDup_cons. split; [|done]. by intros ?%Hc.
    + intros p'. rewrite Hp. set_solver.
    + intros p' _. rewrite Hp. intros [->%elem_of_singleton|Hin]%elem_of_union; [left|right].
      by apply Ho.
  - split; unfold jobs; cbn; rewrite ?Hq; cbn; [done| |by intros p' [? ?]].
    intros p' Hin. specialize (Hc _ Hin). set_solver.
Qed.

#[local] Instance gates_dispatch_all l : Gates (TimedNode.dispatch_all l).
Proof. induction l as [|[p r] l IH]; cbn [TimedNode.dispatch_all]; apply _. Qed.
#[local] Instance gates_send : Gates TimedNode._send_heartbeats.
Proof. unfold TimedNode._send_heartbeats. apply _. Qed.

#[local] Instance gates_submit p : Gates (TimedNode._submit_rpc (JRequestVote p)).
Proof.
  intros [n tm] Hg. unfold TimedNode._submit_rpc, TimedNode.submit. cbn [fst snd] in *.
  destruct (_shutdown_flag n); [done|]. destruct (_rpc_pool tm) as [q|] eqn:Hq; [|done].
  apply (gate_inv_jobs tm); [|done|by rewrite Hq|done]. unfold jobs. cbn. rewrite Hq. cbn.
  by rewrite !gated_app, app_nil_r.
Qed.
#[local] Instance gates_votes peers : Gates (TimedNode.submit_votes peers).
Proof. induction peers as [|p peers IH]; cbn [TimedNode.submit_votes]; apply _. Qed.

(** A thread of a client's own is not behind the gate. *)
#[local] Instance gates_thread p r : Gates (TimedNode.start_thread (JReplicate p r)).
Proof.
  intros [n tm] Hg. cbn [snd] in Hg. unfold TimedNode.start_thread, TimedNode.on_timers. cbn [fst snd].
  apply (gate_inv_jobs tm); [|done..]. unfold jobs. cbn. by rewrite !gated_app, app_nil_r.
Qed.
#[local] Instance gates_rounds l : Gates (TimedNode.start_rounds l).
Proof. induction l as [|[p r] l IH]; cbn [TimedNode.start_rounds]; apply _. Qed.
#[local] Instance gates_propose c : Gates (TimedNode.propose_append c).
Proof.
  unfold TimedNode.propose_append. apply gates_bind; [apply _|]. intros [a|a]; apply _.
Qed.

#[local] Instance gates_check m : Gates (TimedNode._check_vote_count config m).
Proof.
  unfold TimedNode._check_vote_count, TimedNode._cancel_election_timer, TimedNode._start_heartbeat. apply _.
Qed.
#[local] Instance gates_campaign m : Gates (TimedNode._start_election config m).
Proof.
  unfold TimedNode._start_election, TimedNode._reset_election_timer, TimedNode._arm_election_deadline. apply _.
Qed.

(** A pool that is shut down: what was queued is gone. *)
#[local] Instance gates_close : Gates (TimedNode.on_timers (with_pool None)).
Proof.
  intros [n tm] [Hn Hc Ho]. unfold jobs in *. rewrite gated_app in *. cbn in *.
  apply list.NoDup_app in Hn as (_ & _ & Hn). split; unfold jobs; cbn.
  - done.
  - intros p Hp. apply Hc, elem_of_app. by right.
  - by intros p [? ?].
Qed.

#[local] Instance gates_event m ev : Gates (TimedNode.node_event config m ev).
Proof.
  destruct ev; cbn [TimedNode.node_event];
    unfold TimedNode.request_vote, TimedNode.vote_response, TimedNode.append_entries,
      TimedNode.append_response, TimedNode.install_snapshot, TimedNode.snapshot_response,
      TimedNode.stop_leading, TimedNode.shutdown, TimedNode._reset_election_timer,
      TimedNode._arm_election_deadline, TimedNode._cancel_election_timer, TimedNode._cancel_heartbeat;
    try apply _.
  apply gates_bind; [apply _|]. intros n. apply gates_bind; [|apply _]. intros s _.
  unfold TimedNode.init, TimedNode._start_election_timer, TimedNode._arm_election_deadline.
  apply (gates_bind (TimedNode.on_node _load_from_storage)); [apply _|apply _|].
  split; cbn; [constructor|by intros p ?%not_elem_of_nil|set_solver].
Qed.

Lemma gates_tick m later s :
  gate_inv s.2 → gate_inv (TimedNode.tick_turn config m later s).1.2.
Proof.
  assert (Gates (TimedNode.tick_body config m later)) as Ht.
  { unfold TimedNode.tick_body. intros s' Hs'. unfold bind at 1.
    assert (Gates (λ s : timed, (s, Ok s))) by (by intros ?).
    match goal with |- gate_inv (?x s').1.2 => assert (Gates x) as Hx by apply _ end. by apply Hx. }
  intros Hs. specialize (Ht s Hs). unfold TimedNode.tick_turn.
  by destruct (TimedNode.tick_body config m later s) as [s' [z|x]].
Qed.

#[local] Instance gates_take : Gates TimedNode.take_job.
Proof.
  intros [n tm] Hg. unfold TimedNode.take_job. cbn [fst snd] in *.
  destruct (_rpc_pool tm) as [[|j q]|] eqn:Hq; [done| |done].
  apply (gate_inv_jobs tm); [|done|by rewrite Hq|done]. unfold jobs. rewrite Hq.
  change (gated (q ++ running tm ++ [j]) ≡ₚ gated ([j] ++ q ++ running tm)).
  rewrite !gated_app, (assoc (++)). apply (comm (++)).
Qed.

(** What ends takes its peer out of the gate with it. *)
#[local] Instance gates_finish i : Gates (TimedNode.finish_job i).
Proof.
  intros [n tm] Hg. unfold TimedNode.finish_job. cbn [snd] in *.
  destruct (running tm !! i) as [j|] eqn:Hj; [|done].
  assert (gated (jobs tm) ≡ₚ gated [j] ++ gated (default [] (_rpc_pool tm) ++ delete i (running tm))) as Hp.
  { rewrite <-gated_app. apply gated_perm. unfold jobs.
    etransitivity; [apply Permutation_app_head, (delete_Permutation _ _ _ Hj)|].
    symmetry. apply (Permutation_middle (default [] (_rpc_pool tm))). }
  destruct j as [p|p r|p r]; cbn [gated omap list_omap] in Hp; cbn.
  1, 3: apply (gate_inv_jobs tm); [by rewrite Hp|done..].
  - destruct Hg as [Hn Hc Ho]. rewrite Hp in Hn. cbn in Hn. apply list.NoDup_cons in Hn as [Hni Hn].
    split; unfold jobs; cbn.
    + done.
    + intros p' Hin. apply elem_of_difference. split; [apply Hc; rewrite Hp; by right|].
      intros ->%elem_of_singleton. done.
    + intros p' Hop [Hin Hne]%elem_of_difference. apply (Ho p' Hop) in Hin. rewrite Hp in Hin.
      apply elem_of_cons in Hin as [-> |Hin]; [set_solver|done].
Qed.

Lemma gates_step m ev s : gate_inv s.2 → gate_inv (TimedNode.timed_step config m ev s).1.2.
Proof.
  destruct ev as [ev|later| |i|p r]; cbn [TimedNode.timed_step].
  - assert (Gates (TimedNode.node_event config m ev ;;; ret tt)) as Hg by apply _. apply Hg.
  - apply gates_tick.
  - assert (Gates (TimedNode.take_job ;;; ret tt)) as Hg by apply _. apply Hg.
  - apply gates_finish.
  - apply gates_thread.
Qed.

(** Any events, whatever they raise. *)
Definition timed_steps (evs : list (moment * TimedNode.timed_event)) s : timed :=
  foldl (λ s e, (TimedNode.timed_step config e.1 e.2 s).1) s evs.

Lemma gates_steps evs : ∀ s, gate_inv s.2 → gate_inv (timed_steps evs s).2.
Proof.
  induction evs as [|e evs IH]; intros s Hs; [done|]. apply IH. by apply gates_step.
Qed.

Lemma start_rounds_run l : ∀ s,
  TimedNode.start_rounds l s
  = ((s.1, with_running (running s.2 ++ map (λ e, JReplicate e.1 e.2) l) s.2), Ok tt).
Proof.
  induction l as [|[p r] l IH]; intros [n tm]; cbn [TimedNode.start_rounds map].
  - rewrite app_nil_r. by destruct tm.
  - unfold bind, TimedNode.start_thread, TimedNode.on_timers. rewrite IH. cbn. by rewrite <-(assoc (++)).
Qed.

Lemma propose_starts c s s1 a :
  TimedNode.propose_append c s = (s1, Ok (inr a)) →
  running s1.2 = running s.2 ++ map (λ p, JReplicate p (replication_round p s1.1)) (_peers s1.1) ∧
  _rpc_inflight s1.2 = _rpc_inflight s.2 ∧ _rpc_pool s1.2 = _rpc_pool s.2.
Proof.
  unfold TimedNode.propose_append. intros (s2 & x & [_ Ht]%on_node_Ok & Hr)%bind_Ok_inv.
  destruct x as [x|x]; [done|]. destruct s2 as [n2 tm2]. rewrite timed_read in Hr.
  unfold bind in Hr. rewrite start_rounds_run in Hr. injection Hr as <- _. cbn in *. subst tm2.
  by rewrite map_map.
Qed.

(** C16: At most one heartbeat per peer is in flight, and the gate does not stay shut.  After
    any events of a node, its threads' starts and ends, the rounds of proposals and reads,
    ticks, stops and restarts, in any order and whatever they raise, no two heartbeats to one
    peer are queued or running; the next heartbeat to a peer of a running node is dropped if
    there is one, and queued if there is none; and a proposal the node appends starts a round
    of its own with every peer, beside a heartbeat or not.  Vote requests and the rounds of
    proposals and reads are not behind the gate, and are not limited by it. *)
Theorem one_heartbeat_in_flight m0 n0 sx evs p r q :
  let s := timed_steps evs (TimedNode.init m0 n0 sx).1 in
  let s' := (TimedNode._dispatch_heartbeat p r s).1 in
  NoDup (gated (jobs s.2)) ∧
  (_shutdown_flag s.1 = false → _rpc_pool s.2 = Some q →
   (p ∈ gated (jobs s.2) → s' = s) ∧
   (p ∉ gated (jobs s.2) → _rpc_pool s'.2 = Some (q ++ [JGated p r]))) ∧
  (∀ c s1 term index, TimedNode.propose_append c s = (s1, Ok (inr (term, index))) →
     running s1.2 = running s.2 ++ map (λ p, JReplicate p (replication_round p s1.1)) (_peers s1.1) ∧
     _rpc_inflight s1.2 = _rpc_inflight s.2 ∧ _rpc_pool s1.2 = _rpc_pool s.2).
Proof.
  intros s s'. assert (gate_inv s.2) as [Hn Hc Ho].
  { apply gates_steps.
    assert (Gates (TimedNode.on_node _load_from_storage ;;; TimedNode._start_election_timer m0)) as Hg.
    { unfold TimedNode._start_election_timer, TimedNode._arm_election_deadline. apply _. }
    apply (Hg (n0, TimedNode.fresh_timers)).
    split; cbn; [constructor|by intros x ?%not_elem_of_nil|set_solver]. }
  split; [done|]. split; [|intros c s1 term index; apply propose_starts].
  intros Hf Hq. subst s'. unfold TimedNode._dispatch_heartbeat, TimedNode.submit.
  rewrite Hf. cbn [orb]. split; intros Hp.
  - by rewrite bool_decide_true by (by apply Hc).
  - rewrite bool_decide_false; [cbn; by rewrite Hq|]. by intros ?%Ho.
Qed.
End facts.
