(* ===== verification/RaftDisk.v ===== *)
(** The storage of a Raft node on a disk ([raft/storage.py]): [EngineRaftStorage] over the
    SQLite engine ([create_raft_storage]) across a kill of the process, and the files of
    [JSONFileStorage] when a call fails half way or the process dies in it. *)

From Stdlib Require Import ZArith Lia.
From S2P Require Import Prelude Bytes PyVal PyOps Engine SqliteEngine Mvcc RaftStorage.

(** ** The storage in a SQLite file *)

(** [EngineRaftStorage.__init__]: an engine that is given is used as it is. *)
Definition init_storage (engine : option (MemoryEngine.t + SQLiteEngine.t)) (data_dir : option string)
  : M sqlite3.world (MemoryEngine.t + SQLiteEngine.t) :=
  match engine with
  | Some e => ret e
  | None => create_engine data_dir "raft"
  end.

Definition create_raft_storage (data_dir : option string)
    (engine : option (MemoryEngine.t + SQLiteEngine.t))
  : M sqlite3.world (MemoryEngine.t + SQLiteEngine.t) :=
  init_storage engine data_dir.

(** [EngineRaftStorage.close], of a storage on the disk. *)
Definition close_storage : M (sqlite3.world * SQLiteEngine.t) unit := SQLiteEngine.close.

Section sqlite_storage.
Context `{!Msgpack}.

(** What a storage holds is what its engine answers. *)
Lemma engine_holds_same {E1 E2} `{Engine E1} `{Engine E2} (e1 : E1) (e2 : E2) d :
  (∀ k, e_get e1 k = e_get e2 k) → engine_holds e1 d → engine_holds e2 d.
Proof.
  intros Hs [Hm Hc Hsn Hl Hp Hso]. split; [| | | |done|done].
  - by rewrite Hs in Hm.
  - by rewrite Hs in Hc.
  - by destruct (d_snapshot d) as [[[i t] data]|]; rewrite Hs in Hsn.
  - intros k v. rewrite <-Hs. apply Hl.
Qed.

(** A save leaves the engine at its file. *)
Lemma run_save_path o r r' : run_save o r = Ok r' → r_path r' = r_path r.
Proof.
  destruct o; cbn; unfold EngineRaftStorage.save_meta, EngineRaftStorage.append_log_entry,
    EngineRaftStorage.truncate_log, EngineRaftStorage.compact_log, EngineRaftStorage.save_snapshot,
    EngineRaftStorage.save_commit_index, rbind; intros Hr; by repeat case_match; simplify_eq.
Qed.

Lemma run_saves_path ops : ∀ r r', run_saves ops r = Ok r' → r_path r' = r_path r.
Proof.
  induction ops as [|o ops IH]; intros r r'; cbn; [by intros [= <-]|].
  intros (r1 & H1 & H2)%rbind_Ok. apply IH in H2. apply run_save_path in H1. congruence.
Qed.

(** C14: A node's durable state survives a kill.  Any saves of a node on a database file that
    had no rows, in which no statement failed, leave a file from which a process that is
    started again loads exactly the state the saves describe: the last term and vote, the
    log in order without what was cut off or compacted, the last snapshot and the last
    commit index. *)
Theorem raft_state_survives_kill fs data_dir ops r :
  let p := engine_path data_dir "raft" in
  rows_at fs p = ∅ → saves_ok ops nothing →
  run_saves ops {| r_files := fs; r_path := p |} = Ok r →
  ∃ fs', create_raft_storage (Some data_dir) None {| sqlite3.w_files := r_files r; sqlite3.w_outcomes := [] |}
         = ((ready fs' p).1, Ok (inr (ready fs' p).2)) ∧
    let d := foldl (λ d o, save_spec o d) nothing ops in
    let e := {| r_files := fs'; r_path := p |} in
    load_meta e = Ok (d_term d, d_voted d) ∧ load_log e = Ok (d_log d) ∧
    load_commit_index e = Ok (d_commit d) ∧ load_snapshot e = Ok (d_snapshot d).
Proof.
  intros p Hempty Hok Hr. pose proof (run_saves_path _ _ _ Hr) as Hp. cbn in Hp.
  destruct (init_finds_rows (r_files r) p) as (fs' & Hi & Hrows). exists fs'. split.
  { unfold create_raft_storage, init_storage, create_engine. by rewrite (bind_run _ _ _ _ _ Hi). }
  intros d e. assert (holds r d) as Hh.
  { eapply run_saves_holds; [|done..]. apply engine_holds_nothing. intros k.
    rewrite sqlite_get. cbn [r_files r_path]. by rewrite Hempty. }
  apply (engine_holds_same r e) in Hh; [|intros k; rewrite !sqlite_get; cbn; by rewrite Hp, Hrows].
  split_and!; [by apply holds_meta|by apply holds_log|by apply holds_commit|by apply holds_snapshot].
Qed.
End sqlite_storage.

(** ** The files of [JSONFileStorage] *)

Module FileSystem.
Section files.
Context {D : Type}.

(** A file as a reader finds it: what was written whole, or the beginning of something. *)
Inductive content := Whole (d : D) | Torn.

(** The files, and which of the next calls of the system succeed; past the end all do. *)
Record t := { f_files : gmap string content; f_calls : list bool }.

Definition set_files (f : gmap string content) (w : t) : t :=
  {| f_files := f; f_calls := f_calls w |}.

(** One call: [k] if it succeeds, [broken] is what it leaves behind if it does not. *)
Definition call (k broken : gmap string content → gmap string content) : M t unit :=
  λ w, let w' := {| f_files := f_files w; f_calls := tail (f_calls w) |} in
       if default true (head (f_calls w))
       then (set_files (k (f_files w)) w', Ok tt)
       else (set_files (broken (f_files w)) w', Raise OSError).

Definition exists_ (path : string) : M t bool := λ w, (w, Ok (bool_decide (is_Some (f_files w !! path)))).

(** [tempfile.mkstemp], which makes an empty file of a name nobody has. *)
Definition mkstemp (temp : string) : M t unit := call (λ f, <[temp := Torn]> f) (λ f, f).
(** Writing a file: a failure, or a death in the middle, leaves a part of it. *)
Definition write (path : string) (d : D) : M t unit :=
  call (λ f, <[path := Whole d]> f) (λ f, <[path := Torn]> f).
(** [os.replace], which is atomic. *)
Definition replace (source target : string) : M t unit :=
  call (λ f, match f !! source with
             | Some c => <[target := c]> (delete source f)
             | None => f
             end) (λ f, f).
Definition unlink (path : string) : M t unit := call (delete path) (λ f, f).

(** [JSONFileStorage._atomic_write]. *)
Definition _atomic_write (temp path : string) (data : D) : M t unit :=
  mkstemp temp ;;;
  (λ w, match (write temp data ;;; replace temp path) w with
        | (w', Ok _) => (w', Ok tt)
        | (w', Raise x) =>
            (let* there := exists_ temp in
             (if (there : bool) then unlink temp else ret tt) ;;; raise x) w'
        end).
End files.
Arguments content : clear implicits.
Arguments t : clear implicits.
End FileSystem.

Section atomic_write.
Import FileSystem.
Context {D : Type}.
Implicit Types (w : FileSystem.t D) (f : gmap string (content D)).

Lemma call_cases k broken w w' r :
  call k broken w = (w', r) →
  (r = Ok tt ∧ f_files w' = k (f_files w)) ∨ (r = Raise OSError ∧ f_files w' = broken (f_files w)).
Proof. unfold call. destruct (default true _); intros [= <- <-]; [by left|by right]. Qed.

(** The clean-up: the exception stays, and at most the temporary file is touched. *)
Lemma cleanup_cases temp (x : exn) w w' (r : result unit) :
  (let* there := exists_ temp in
   (if (there : bool) then unlink temp else ret tt) ;;; raise x) w = (w', r) →
  ((∃ y, r = Raise y) : Prop) ∧ ∀ q, q ≠ temp → f_files w' !! q = f_files w !! q.
Proof.
  unfold bind at 1, exists_. destruct (bool_decide _).
  - unfold bind. destruct (unlink temp w) as [w1 u] eqn:Hu. unfold unlink in Hu.
    apply call_cases in Hu as [[-> Hf]|[-> Hf]]; cbn; intros [= <- <-]; (split; [by eexists|]); intros q Hq.
    + rewrite Hf. by apply lookup_delete_ne.
    + by rewrite Hf.
  - intros [= <- <-]. split; [by eexists|done].
Qed.

(** A JSON file is replaced whole or not at all.  Whatever call of the system fails in
    [_atomic_write], every file but the temporary one is as it was, and the call raises; if
    it returns, the file is the new one, the others are as they were and the temporary one
    is gone.  So no reader, and no process that is started after this one was killed, finds
    a part of a file. *)
Theorem atomic_write_is_atomic temp path (data : D) w w' r :
  temp ≠ path → f_files w !! temp = None →
  _atomic_write temp path data w = (w', r) →
  match r with
  | Ok _ => f_files w' = <[path := Whole data]> (f_files w)
  | Raise _ => ∀ q, q ≠ temp → f_files w' !! q = f_files w !! q
  end.
Proof.
  intros Hne Hfree. unfold _atomic_write. unfold bind at 1.
  destruct (mkstemp temp w) as [w1 r1] eqn:H1. unfold mkstemp in H1.
  apply call_cases in H1 as [[-> H1]|[-> H1]].
  2: { intros [= <- <-] q _. by rewrite H1. }
  unfold bind at 1. destruct (write temp data w1) as [w2 r2] eqn:H2. unfold write in H2.
  apply call_cases in H2 as [[-> H2]|[-> H2]].
  - destruct (replace temp path w2) as [w3 r3] eqn:H3. unfold replace in H3.
    apply call_cases in H3 as [[-> H3]|[-> H3]].
    + intros [= <- <-]. rewrite H3, H2, H1, lookup_insert_eq. f_equal.
      rewrite insert_insert_eq, delete_insert_id by done. done.
    + intros [[y ->] Hq]%cleanup_cases q Hq'. rewrite (Hq q Hq'), H3, H2, H1.
      by rewrite !lookup_insert_ne by done.
  - intros [[y ->] Hq]%cleanup_cases q Hq'. rewrite (Hq q Hq'), H2, H1.
    by rewrite !lookup_insert_ne by done.
Qed.
End atomic_write.

(** ** A snapshot of [JSONFileStorage] on the disk *)

Module JSONSnapshot.
Import FileSystem.

(** The payloads of the two files a snapshot is in. *)
Inductive payload := PMeta (m : JSONFileStorage.meta) | PData (b : bytes).

Definition _meta_path : string := "raft_meta.json".
Definition _snapshot_path : string := "raft_snapshot.bin".

(** [json.load] of the metadata file; one that is torn does not parse. *)
Definition read_meta : M (FileSystem.t payload) (option JSONFileStorage.meta) :=
  λ w, (w, match f_files w !! _meta_path with
           | None => Ok None
           | Some (Whole (PMeta m)) => Ok (Some m)
           | Some _ => Raise ValueError
           end).

(** [save_snapshot]: the payload is written in place, the index after it. *)
Definition save_snapshot (temp : string) (index term : Z) (data : bytes) : M (FileSystem.t payload) unit :=
  write _snapshot_path (PData data) ;;;
  let* meta := read_meta in
  let m := default JSONFileStorage.no_meta meta in
  _atomic_write temp _meta_path
    (PMeta {| JSONFileStorage.jm_current_term := JSONFileStorage.jm_current_term m;
              JSONFileStorage.jm_voted_for := JSONFileStorage.jm_voted_for m;
              JSONFileStorage.jm_commit_index := JSONFileStorage.jm_commit_index m;
              JSONFileStorage.jm_snapshot_index := Some index;
              JSONFileStorage.jm_snapshot_term := Some term |}).

(** [load_snapshot]: a payload that is torn is read as far as it goes. *)
Definition load_snapshot : M (FileSystem.t payload) (option (Z * Z * content payload)) :=
  λ w, match f_files w !! _snapshot_path, f_files w !! _meta_path with
       | Some c, Some _ =>
           (let* meta := read_meta in
            let m := default JSONFileStorage.no_meta meta in
            ret (match JSONFileStorage.jm_snapshot_index m with
                 | None => None
                 | Some index => Some (index, default 0 (JSONFileStorage.jm_snapshot_term m), c)
                 end)) w
       | _, _ => (w, Ok None)
       end.

(** A process that dies, or whose disk is full, after it has written the payload of a new
    snapshot leaves it under the index of the old one: the state after [index] entries is
    loaded as the state after [index0], and the entries between are applied to it again. *)
Lemma new_payload_under_old_index f temp m index0 term0 old index term data :
  f !! _meta_path = Some (Whole (PMeta m)) → f !! _snapshot_path = Some (Whole (PData old)) →
  JSONFileStorage.jm_snapshot_index m = Some index0 → JSONFileStorage.jm_snapshot_term m = Some term0 →
  let w := (save_snapshot temp index term data {| f_files := f; f_calls := [true; false] |}).1 in
  (load_snapshot w).2 = Ok (Some (index0, term0, Whole (PData data))).
Proof.
  intros Hm Ho Hi Ht w.
  assert (f_files w = <[_snapshot_path := Whole (PData data)]> f) as Hf.
  { subst w. unfold save_snapshot.
    rewrite (bind_run _ _ _ {| f_files := <[_snapshot_path := Whole (PData data)]> f; f_calls := [false] |} tt)
      by done.
    rewrite (bind_run _ _ _ {| f_files := <[_snapshot_path := Whole (PData data)]> f; f_calls := [false] |} (Some m)).
    - done.
    - unfold read_meta. cbn [f_files]. by rewrite lookup_insert_ne, Hm by done. }
  unfold load_snapshot, read_meta, bind. rewrite Hf, lookup_insert_eq, lookup_insert_ne, Hm by done.
  cbn. by rewrite Hi, Ht.
Qed.
End JSONSnapshot.

(** ** Executions *)

Definition d_saves : list save_op :=
  [SMeta 2 (Some 1); SAppend {| le_term := 2; le_index := 1; le_command := [] |}; SCommit 1].
Definition d_start : ready_t := {| r_files := ∅; r_path := engine_path "/data" "raft" |}.

#[local] Existing Instance reference_codec.
Definition d_saved : ready_t := match run_saves d_saves d_start with Ok e => e | Raise _ => d_start end.

Lemma raft_state_survives_kill_witness :
  ∃ fs', (create_raft_storage (Some "/data"%string) None
            {| sqlite3.w_files := r_files d_saved; sqlite3.w_outcomes := [] |}).2
         = Ok (inr (ready fs' (engine_path "/data" "raft")).2) ∧
    load_meta {| r_files := fs'; r_path := engine_path "/data" "raft" |} = Ok (2, Some 1).
Proof.
  destruct (raft_state_survives_kill ∅ "/data" d_saves d_saved) as (fs' & Hc & Hm & _).
  - reflexivity.
  - by repeat constructor.
  - vm_compute. reflexivity.
  - exists fs'. split; [by rewrite Hc|exact Hm].
Defined.

(** The write of the temporary file fails. *)
Lemma atomic_write_is_atomic_witness :
  let w := {| FileSystem.f_files := {[ "a"%string := FileSystem.Whole 1 ]}; FileSystem.f_calls := [true; false] |} in
  FileSystem.f_files (FileSystem._atomic_write "t" "a" 2 w).1 !! "a"%string = Some (FileSystem.Whole 1).
Proof.
  intros w. etransitivity.
  - apply (atomic_write_is_atomic "t" "a" 2 w (FileSystem._atomic_write "t" "a" 2 w).1 (Raise OSError)).
    + discriminate.
    + vm_compute. reflexivity.
    + vm_compute. reflexivity.
    + discriminate.
  - vm_compute. reflexivity.
Defined.
