(* ===== verification/RaftCluster.v ===== *)
(** A Raft group in one process: [RaftCluster] of [raft/node.py], and the two clusters made of
    it, [TSOCluster] ([tso/tso.py]) and [MetadataCluster] ([metadata/service.py]).

    The nodes are in the cluster object and call each other through it ([_get_node]).  What
    the factories, the sockets and the channels do is the class [ClusterWorld]. *)

From Stdlib Require Import ZArith Lia.
From S2P Require Import Prelude Bytes PyVal StateMachine Dict RaftStorage RaftNode RaftNodeFacts RaftRuns RaftElection RaftTimers.

(** What a cluster is started with and uses of the system. *)
Class ClusterWorld (W S R : Type) := {
  (** [state_machine_factory()]. *)
  cw_machine : M W S;
  (** [storage_factory(node_id)], if there is one. *)
  cw_storage : option (Z → M W R);
  (** [RaftNetworkClient(peer_addrs)]. *)
  cw_connect : list (Z * string) → M W unit;
  (** [server.add_insecure_port(address)] and [server.start()]. *)
  cw_bind : string → M W unit;
  cw_serve : Z → M W unit;
  (** What a node's [shutdown] and [wait_for_shutdown] do to its server and channels. *)
  cw_stop : Z → M W unit;
  cw_wait : Z → M W unit
}.

Module RaftCluster.
Section cluster.
Context {W S R : Type} `{!ClusterWorld W S R} `{!RaftNode.StateMachine S} `{!RaftStorage R} `{!Msgpack}.
Abbreviation node := (MemoryRaftNode.t S R).

(** [_nodes] in the order they were put in, and the ids that have a server.  The machines and
    storages the object remembers are the nodes' own. *)
Record t := { _num_nodes : Z; _nodes : list (Z * node); _grpc_servers : list Z }.
Abbreviation st := (t * W)%type.

Definition init (num_nodes : Z) : t := {| _num_nodes := num_nodes; _nodes := []; _grpc_servers := [] |}.

Definition outside {A} (m : M W A) : M st A := λ s, let '(w, a) := m s.2 in ((s.1, w), a).
Definition put_node (i : Z) (n : node) : M st unit :=
  λ s, (({| _num_nodes := _num_nodes s.1; _nodes := d_set (_nodes s.1) i n;
            _grpc_servers := _grpc_servers s.1 |}, s.2), Ok tt).
Definition put_server (i : Z) : M st unit :=
  λ s, (({| _num_nodes := _num_nodes s.1; _nodes := _nodes s.1;
            _grpc_servers := _grpc_servers s.1 ++ [i] |}, s.2), Ok tt).

Definition members (num_nodes : Z) : list Z := seqZ 1 num_nodes.
Definition peers_of (num_nodes node_id : Z) : list Z := filter (λ i, i ≠ node_id) (members num_nodes).

(** [MemoryRaftNode(...)] with what the factories give. *)
Definition build (interval window num_nodes node_id : Z) (connect : M st unit) : M st node :=
  let* machine := outside cw_machine in
  let* storage := match cw_storage with
                  | Some f => let* r := outside (f node_id) in ret (Some r)
                  | None => ret None
                  end in
  connect ;;;
  λ s, match MemoryRaftNode._load_from_storage
               (MemoryRaftNode.init node_id (peers_of num_nodes node_id) machine storage interval window) with
       | (n, Ok _) => (s, Ok n)
       | (_, Raise x) => (s, Raise x)
       end.

Fixpoint start_nodes (interval window num_nodes : Z) (ids : list Z) : M st unit :=
  match ids with
  | [] => ret tt
  | node_id :: ids =>
      let* n := build interval window num_nodes node_id (ret tt) in
      put_node node_id n ;;;
      start_nodes interval window num_nodes ids
  end.

Definition start (interval window : Z) : M st unit :=
  λ s, start_nodes interval window (_num_nodes s.1) (members (_num_nodes s.1)) s.

(** [{pid: peer_addresses[pid] for pid in peers}]. *)
Fixpoint addresses_of (peer_addresses : list (Z * string)) (peers : list Z) : result (list (Z * string)) :=
  match peers with
  | [] => Ok []
  | p :: peers =>
      match d_get peer_addresses p with
      | None => Raise KeyError
      | Some a => let? rest := addresses_of peer_addresses peers in Ok ((p, a) :: rest)
      end
  end.

(** [try: add_insecure_port except RuntimeError: add_insecure_port], after a pause. *)
Definition bind_port (address : string) : M st unit :=
  λ s, match outside (cw_bind address) s with
       | (s', Raise RuntimeError) => outside (cw_bind address) s'
       | r => r
       end.

Fixpoint start_network_nodes (interval window num_nodes : Z) (peer_addresses : list (Z * string))
    (ids : list Z) : M st unit :=
  match ids with
  | [] => ret tt
  | node_id :: ids =>
      let connect :=
        let* peer_addrs := reads (λ _, addresses_of peer_addresses (peers_of num_nodes node_id)) in
        outside (cw_connect peer_addrs) in
      let* n := build interval window num_nodes node_id connect in
      put_node node_id n ;;;
      let* address := reads (λ _, match d_get peer_addresses node_id with
                                  | Some a => Ok a | None => Raise KeyError end) in
      bind_port address ;;;
      outside (cw_serve node_id) ;;;
      put_server node_id ;;;
      start_network_nodes interval window num_nodes peer_addresses ids
  end.

Definition start_network (interval window : Z) (peer_addresses : list (Z * string)) : M st unit :=
  λ s, start_network_nodes interval window (_num_nodes s.1) peer_addresses (members (_num_nodes s.1)) s.

Definition get_node (node_id : Z) (c : t) : option node := d_get (_nodes c) node_id.

(** The first node, in the order of the dictionary, that leads. *)
Fixpoint first_leader (l : list (Z * node)) : option Z :=
  match l with
  | [] => None
  | (i, n) :: l => if decide (MemoryRaftNode._state n = LEADER) then Some i else first_leader l
  end.
Definition get_leader (c : t) : option Z := first_leader (_nodes c).

(** Stop every node, then wait for each. *)
Fixpoint stop_nodes (ids : list Z) : M st unit :=
  match ids with
  | [] => ret tt
  | i :: ids =>
      outside (cw_stop i) ;;;
      (λ s, match get_node i s.1 with
            | Some n => put_node i (MemoryRaftNode.shutdown n).1 s
            | None => (s, Ok tt)
            end) ;;;
      stop_nodes ids
  end.
Fixpoint wait_nodes (ids : list Z) : M st unit :=
  match ids with [] => ret tt | i :: ids => outside (cw_wait i) ;;; wait_nodes ids end.
Definition shutdown : M st unit :=
  λ s, (stop_nodes (map fst (_nodes s.1)) ;;; wait_nodes (map fst (_nodes s.1))) s.

(** ** Calls between the nodes *)

(** Run a node's method. *)
Definition on_node {A} (i : Z) (m : M node A) : M st A :=
  λ s, match get_node i s.1 with
       | None => (s, Raise AttributeError)
       | Some n => let '(n', r) := m n in ((put_node i n' s).1, r)
       end.

(** [_request_vote(peer_id)] of node [i], the peer reached through [_get_node]; what raises
    is dropped. *)
Definition request_vote_of (i peer_id : Z) : M st unit :=
  λ s, match get_node i s.1 with
       | None => (s, Ok tt)
       | Some n =>
           match MemoryRaftNode.vote_request n, get_node peer_id s.1 with
           | Some request, Some _ =>
               match (let* response := on_node peer_id (MemoryRaftNode.request_vote request) in
                      on_node i (MemoryRaftNode.vote_response peer_id response)) s with
               | (s', _) => (s', Ok tt)
               end
           | _, _ => (s, Ok tt)
           end
       end.

Fixpoint ask_votes (i : Z) (peers : list Z) : M st unit :=
  match peers with
  | [] => ret tt
  | p :: peers => request_vote_of i p ;;; ask_votes i peers
  end.

(** [_start_election] of node [i] and the requests it submits to the pool: [answered] are the
    peers whose exchange takes place, in the order in which it does. *)
Definition campaign (answered : list Z) (i : Z) : M st unit :=
  on_node i MemoryRaftNode._start_election ;;; ask_votes i answered.
End cluster.
Arguments t : clear implicits.
End RaftCluster.

Section facts.
Import RaftCluster.
Context {W S R : Type} `{!ClusterWorld W S R} `{!RaftNode.StateMachine S} `{!RaftStorage R} `{!Msgpack}.
Abbreviation node := (MemoryRaftNode.t S R).
Abbreviation st := (RaftCluster.t S R * W)%type.
Implicit Types (s : st) (n : node).

(** ** Starting *)

(** A node of the group as it is built, without a storage. *)
Definition fresh (interval window num : Z) (i : Z) n : Prop :=
  ∃ machine, n = MemoryRaftNode.init i (peers_of num i) machine None interval window.

(** The group is in memory and the factory of its machines does not raise. *)
Class InMemory : Prop := {
  im_storage : cw_storage (W := W) (S := S) (R := R) = None;
  im_machine w : ∃ w' m, cw_machine (R := R) w = (w', Ok m)
}.

Context `{!InMemory}.

Lemma build_fresh interval window num i s : ∃ w' n,
  build interval window num i (ret tt) s = ((s.1, w'), Ok n) ∧ fresh interval window num i n.
Proof.
  destruct s as [c w]. destruct (im_machine w) as (w' & m & Hm). exists w'. eexists. split.
  - unfold build. rewrite (bind_run _ _ _ (c, w') m) by (unfold outside; cbn; by rewrite Hm).
    rewrite im_storage. reflexivity.
  - by exists m.
Qed.

Lemma d_set_new (l : list (Z * node)) i n : i ∉ l.*1 → d_set l i n = l ++ [(i, n)].
Proof.
  induction l as [|[j m] l IH]; cbn; [done|]. intros [Hne Hni]%not_elem_of_cons.
  rewrite decide_False by done. by rewrite IH.
Qed.

Lemma start_nodes_fresh interval window num ids : ∀ s,
  NoDup ids → (∀ i, i ∈ ids → i ∉ (_nodes s.1).*1) →
  ∃ w' l, start_nodes interval window num ids s
          = (({| _num_nodes := _num_nodes s.1; _nodes := _nodes s.1 ++ l;
                 _grpc_servers := _grpc_servers s.1 |}, w'), Ok tt) ∧
    l.*1 = ids ∧ Forall (λ e, fresh interval window num e.1 e.2) l.
Proof.
  induction ids as [|i ids IH]; intros [c w] Hnd Hfree.
  { exists w, []. rewrite app_nil_r. by destruct c. }
  apply list.NoDup_cons in Hnd as [Hi Hnd]. cbn [start_nodes].
  destruct (build_fresh interval window num i (c, w)) as (w1 & n & Hb & Hn).
  rewrite (bind_run _ _ _ _ _ Hb). unfold put_node, bind. cbn [fst snd].
  rewrite d_set_new by (apply Hfree; by left).
  edestruct (IH ({| _num_nodes := _num_nodes c; _nodes := _nodes c ++ [(i, n)];
                    _grpc_servers := _grpc_servers c |}, w1)) as (w2 & l & Hs & Hk & Hf); [done| |].
  { intros j Hj. cbn. rewrite fmap_app. intros [Hin|Hin]%elem_of_app.
    - eapply Hfree; [right; exact Hj|exact Hin].
    - apply list_elem_of_singleton in Hin. cbn in Hin. congruence. }
  exists w2, ((i, n) :: l). split; [|split; [cbn; by rewrite Hk|by constructor]].
  rewrite Hs. cbn. by rewrite <-(assoc (++)).
Qed.

Lemma members_nodup num : NoDup (members num).
Proof. apply NoDup_seqZ. Qed.

(** ** A first campaign *)

Import MemoryRaftNode.

Definition first_request (i : Z) : RequestVoteRequest :=
  {| rv_term := 1; rv_candidate_id := i; rv_last_log_index := 0; rv_last_log_term := 0 |}.
Definition first_answer : RequestVoteResponse := {| rvr_term := 1; rvr_vote_granted := true |}.

(** A candidate of the first term that has the votes of [asked] and its own, and not enough. *)
Record standing (num i : Z) (asked : gset Z) n : Prop := {
  sd_state : _state n = CANDIDATE;
  sd_term : _current_term n = 1;
  sd_id : _node_id n = i;
  sd_up : _shutdown_flag n = false;
  sd_log : _log n = [] ∧ _last_included_index n = 0 ∧ _last_included_term n = 0;
  sd_peers : _peers n = peers_of num i;
  sd_votes : _votes_received n = {[i]} ∪ asked;
  sd_few : Z.of_nat (size (_votes_received n)) < majority n
}.

(** The count after a vote: this node leads, or it has too few still. *)
Lemma count_cases n :
  _state n = CANDIDATE →
  _state (_check_vote_count n).1 = LEADER ∨
  ((_check_vote_count n).1 = n ∧ Z.of_nat (size (_votes_received n)) < majority n).
Proof.
  intros Hs. unfold _check_vote_count. rewrite bind_read, decide_False by (by intros []).
  destruct (_ >=? _) eqn:Hm; [left|right; split; [done|lia]].
  rewrite !modify_run. set (n3 := reset_progress _).
  pose proof (steady_append_own NOOP_COMMAND n3) as Hr. apply (f_equal (λ r, r.1.1.1)) in Hr.
  cbn [role fst] in Hr. transitivity (_state n3); [|done].
  unfold _append_noop_entry, bind. by destruct (append_own NOOP_COMMAND n3) as [n4 [e|x]].
Qed.

Lemma standing_asks num i asked n : standing num i asked n → vote_request n = Some (first_request i).
Proof.
  intros [Hs Ht Hid Hup (Hl & Hi & Hit) _ _ _]. unfold vote_request.
  rewrite Hup, decide_False by (by intros []). unfold _last_log_index, _last_log_term.
  rewrite Hl, Hi, Hit, Ht, Hid. done.
Qed.

(** A node that was just built gives its vote. *)
Lemma fresh_grants interval window num j i n :
  fresh interval window num j n →
  ∃ n', request_vote (first_request i) n = (n', Ok first_answer) ∧ _state n' = FOLLOWER.
Proof.
  intros [m ->]. exists (request_vote (first_request i) (MemoryRaftNode.init j (peers_of num j) m None interval window)).1.
  unfold request_vote, step_down, _forget_leader, _save_meta, on_storage, bind, read, modify. cbn. done.
Qed.

Lemma fresh_stands interval window num i n :
  fresh interval window num i n →
  _state (_start_election n).1 = LEADER ∨ standing num i ∅ (_start_election n).1.
Proof.
  intros [m ->]. set (n0 := MemoryRaftNode.init i (peers_of num i) m None interval window).
  set (n1 := with_votes_received {[i]} (with_voted_for (Some i) (with_current_term 1
    (with_leader_id None (with_state CANDIDATE n0))))).
  change (_start_election _) with (_check_vote_count n1).
  destruct (count_cases n1) as [Hl|[-> Hm]]; [done|by left|]. right. split; try done.
  apply leibniz_equiv. cbn. set_solver.
Qed.

(** Without a storage nothing in an election raises. *)
Lemma unsaved_append n c : _storage n = None → is_Ok (append_own c n).2.
Proof.
  intros Hs. unfold append_own, _save_log_entry, on_storage, bind, read, modify. cbn.
  rewrite Hs. unfold _update_commit_index, bind, read. cbn.
  destruct (quorum_index _) as [q|]; [|by eexists]. destruct (_ >? _); [|by eexists].
  destruct (_entry_at _ _) as [e|]; [|by eexists]. destruct (_ =? _); [|by eexists].
  unfold modify, _save_commit_index, on_storage. cbn. rewrite Hs. by eexists.
Qed.

Lemma fresh_campaign_Ok i ps m interval window :
  (_start_election (MemoryRaftNode.init (R := R) i ps m None interval window)).2 = Ok tt.
Proof.
  set (n0 := MemoryRaftNode.init i ps m None interval window).
  set (n1 := with_votes_received {[i]} (with_voted_for (Some i) (with_current_term 1
    (with_leader_id None (with_state CANDIDATE n0))))).
  change (_start_election n0) with (_check_vote_count n1).
  unfold _check_vote_count. rewrite bind_read, decide_False by (by intros []).
  destruct (_ >=? _); [|done]. rewrite !modify_run. set (n3 := reset_progress _).
  destruct (unsaved_append n3 NOOP_COMMAND) as [e He]; [done|].
  unfold _append_noop_entry, bind. destruct (append_own NOOP_COMMAND n3) as [n4 r].
  cbn in He. by subst r.
Qed.

Lemma standing_counts num i asked p n :
  standing num i asked n →
  _state (vote_response p first_answer n).1 = LEADER ∨
  standing num i ({[p]} ∪ asked) (vote_response p first_answer n).1.
Proof.
  intros [Hs Ht Hid Hup Hl Hp Hv Hf]. unfold vote_response. rewrite bind_read, Ht.
  cbn [rvr_term first_answer]. change (1 >? 1) with false. cbn iota.
  rewrite decide_False by (by intros []).
  change (rvr_vote_granted first_answer) with true. cbn iota. rewrite modify_run.
  set (n1 := with_votes_received _ n).
  destruct (count_cases n1) as [Hlead|[-> Hm]]; [done|by left|]. right. split; try done.
  cbn. rewrite Hv. set_solver.
Qed.

(** The group while node [i] asks for votes. *)
Record campaigning (interval window num i : Z) (asked : gset Z) s : Prop := {
  ca_keys : (_nodes s.1).*1 = members num;
  ca_fresh j n : get_node j s.1 = Some n → j ≠ i → j ∉ asked → fresh interval window num j n;
  ca_others j n : get_node j s.1 = Some n → j ≠ i → _state n = FOLLOWER;
  ca_self : ∃ n, get_node i s.1 = Some n ∧ (_state n = LEADER ∨ standing num i asked n)
}.

Lemma get_put_node i j n s :
  get_node j (put_node i n s).1.1 = if decide (i = j) then Some n else get_node j s.1.
Proof. apply d_get_set. Qed.

Lemma put_node_keys i n s : i ∈ (_nodes s.1).*1 → (_nodes (put_node i n s).1.1).*1 = (_nodes s.1).*1.
Proof. intros Hi. cbn. by rewrite d_set_keys, decide_True by done. Qed.

Lemma get_node_key i n s : get_node i s.1 = Some n → i ∈ (_nodes s.1).*1.
Proof. intros Hn%d_get_Some_in. apply list_elem_of_fmap. by exists (i, n). Qed.

(** One request of a campaign. *)
Lemma request_step interval window num i asked p s :
  campaigning interval window num i asked s → p ∈ members num → p ≠ i → p ∉ asked →
  ∃ s', request_vote_of i p s = (s', Ok tt) ∧
        campaigning interval window num i ({[p]} ∪ asked) s'.
Proof.
  intros [Hk Hf Ho (n & Hn & Hself)] Hp Hpi Hpa. unfold request_vote_of. rewrite Hn.
  destruct Hself as [Hl|Hst].
  { exists s. unfold vote_request. rewrite decide_True by (by rewrite Hl).
    split; [by destruct (_shutdown_flag n)|]. split; [done|set_solver|done|]. exists n. auto. }
  rewrite (standing_asks _ _ _ _ Hst).
  destruct (get_node p s.1) as [np|] eqn:Hnp; [|by apply d_get_None in Hnp; rewrite Hk in Hnp].
  destruct (fresh_grants _ _ _ _ i _ (Hf p np Hnp Hpi Hpa)) as (np' & Hr & Hs').
  unfold bind, on_node at 1. rewrite Hnp, Hr. set (s1 := (put_node p np' s).1).
  assert (get_node i s1.1 = Some n) as Hn1 by (subst s1; rewrite get_put_node; by rewrite decide_False).
  unfold on_node. rewrite Hn1. pose proof (standing_counts _ _ _ p _ Hst) as Hc.
  destruct (vote_response p first_answer n) as [n' r]. cbn [fst] in Hc.
  eexists. split; [done|]. split.
  - rewrite put_node_keys by (by eapply get_node_key). subst s1.
    rewrite put_node_keys by (by eapply get_node_key). done.
  - intros j m. rewrite get_put_node. case_decide as Hij; [by subst|]. subst s1.
    rewrite get_put_node. case_decide; [set_solver|]. intros Hm Hj Hja. apply Hf; [done..|set_solver].
  - intros j m. rewrite get_put_node. case_decide as Hij; [by subst|]. subst s1.
    rewrite get_put_node. case_decide; [by intros [= <-]|]. apply Ho.
  - exists n'. rewrite get_put_node, decide_True by done. auto.
Qed.

Lemma ask_votes_steps interval window num i peers : ∀ asked s,
  campaigning interval window num i asked s → NoDup peers →
  (∀ p, p ∈ peers → p ∈ members num ∧ p ≠ i ∧ p ∉ asked) →
  ∃ s', ask_votes i peers s = (s', Ok tt) ∧
        campaigning interval window num i (list_to_set peers ∪ asked) s'.
Proof.
  induction peers as [|p peers IH]; intros asked s Hc Hnd Hp.
  { exists s. split; [done|]. by replace (list_to_set [] ∪ asked) with asked by set_solver. }
  apply list.NoDup_cons in Hnd as [Hni Hnd].
  destruct (Hp p (list_elem_of_here _ _)) as (H1' & H2' & H3').
  destruct (request_step _ _ _ _ _ _ _ Hc H1' H2' H3') as (s1 & Hr & Hc1).
  destruct (IH _ _ Hc1 Hnd) as (s2 & Hr2 & Hc2).
  { intros q Hq. destruct (Hp q) as (? & ? & ?); [by right|]. split_and!; [done..|].
    intros [->%elem_of_singleton|?]%elem_of_union; done. }
  exists s2. cbn [ask_votes]. rewrite (bind_run _ _ _ _ _ Hr). split; [done|].
  replace (list_to_set (p :: peers) ∪ asked) with (list_to_set peers ∪ ({[p]} ∪ asked)); [done|].
  cbn. set_solver.
Qed.

(** With its own vote and those of enough others a candidate does not stand any more. *)
Lemma enough_votes_elect num i answered n :
  i ∈ members num → NoDup answered → (∀ p, p ∈ answered → p ∈ peers_of num i) →
  num / 2 ≤ Z.of_nat (length answered) → ¬ standing num i (list_to_set answered ∪ ∅) n.
Proof.
  intros Hi Hnd Hin Hlen [_ _ _ _ _ Hp Hv Hf]. rewrite Hv in Hf. unfold majority in Hf. rewrite Hp in Hf.
  rewrite (union_empty_r_L (list_to_set answered : gset Z)) in Hf.
  assert (i ∉ (list_to_set answered : gset Z)) as Hni.
  { rewrite elem_of_list_to_set. intros [? _]%Hin%list_elem_of_filter. done. }
  rewrite size_union, size_singleton, size_list_to_set in Hf by (set_solver || done).
  pose proof (peers_of_length (members num) i (members_nodup num) Hi) as Hl.
  change (RaftElection.peers_of (members num) i) with (peers_of num i) in Hl.
  unfold members in Hl. rewrite length_seqZ in Hl.
  apply elem_of_seqZ in Hi. replace (Z.of_nat (length (peers_of num i)) + 1) with num in Hf by lia. lia.
Qed.

Lemma first_leader_is (l : list (Z * node)) i n :
  NoDup l.*1 → d_get l i = Some n → _state n = LEADER →
  (∀ j m, d_get l j = Some m → j ≠ i → _state m ≠ LEADER) → first_leader l = Some i.
Proof.
  induction l as [|[j m] l IH]; cbn; [done|]. intros [Hj Hnd]%list.NoDup_cons Hi Hl Ho.
  destruct (decide (j = i)) as [->|Hji].
  { injection Hi as ->. by rewrite decide_True. }
  rewrite decide_False by (apply (Ho j); [by rewrite decide_True|done]).
  apply IH; try done. intros k m' Hk Hki. apply (Ho k m'); [|done].
  rewrite decide_False; [done|]. intros ->. apply Hj.
  apply d_get_Some_in in Hk. apply list_elem_of_fmap. by exists (k, m').
Qed.

(** C17: A group in one process elects a leader.  [RaftCluster.start], for any number of nodes
    kept in memory and any factory of machines that does not raise, returns with the nodes
    [1 .. n], none of which leads.  When one of them campaigns before any other does, and its
    requests reach enough others to be a majority with it through the cluster object -
    any of them, in any order, one exchange after the other, the rest lost - the cluster's
    [get_leader] names that node, and every other node follows. *)
Theorem started_group_elects interval window num w i answered :
  i ∈ members num → NoDup answered → (∀ p, p ∈ answered → p ∈ peers_of num i) →
  num / 2 ≤ Z.of_nat (length answered) →
  ∃ c1 w1 c2 w2,
    start interval window (RaftCluster.init num, w) = ((c1, w1), Ok tt) ∧
    map fst (_nodes c1) = members num ∧ get_leader c1 = None ∧
    campaign answered i (c1, w1) = ((c2, w2), Ok tt) ∧ get_leader c2 = Some i ∧
    ∀ j n, get_node j c2 = Some n → j ≠ i → _state n = FOLLOWER.
Proof.
  intros Hi Hnd Hans Hlen.
  destruct (start_nodes_fresh interval window num (members num) (RaftCluster.init num, w))
    as (w1 & l & Hs & Hk & Hf); [apply members_nodup|by intros j _ ?%not_elem_of_nil|].
  cbn in Hs. set (c1 := {| _num_nodes := num; _nodes := l; _grpc_servers := [] |}) in Hs.
  assert (∀ j n, get_node j c1 = Some n → fresh interval window num j n) as Hfresh.
  { intros j n Hj%d_get_Some_in. rewrite list.Forall_forall in Hf. by apply (Hf (j, n)). }
  destruct (get_node i c1) as [n|] eqn:Hn; [|by apply d_get_None in Hn; cbn in Hn; rewrite Hk in Hn].
  set (s1 := (put_node i (_start_election n).1 (c1, w1)).1).
  assert (campaigning interval window num i ∅ s1) as Hc.
  { split.
    - subst s1. rewrite put_node_keys by (by eapply (get_node_key i n (c1, w1))). exact Hk.
    - intros j m. subst s1. rewrite get_put_node. case_decide; [by subst|]. intros Hm _ _. by apply Hfresh.
    - intros j m. subst s1. rewrite get_put_node. case_decide; [by subst|].
      intros Hm _. by destruct (Hfresh _ _ Hm) as [mm ->].
    - eexists. subst s1. rewrite get_put_node, decide_True by done. split; [done|].
      eapply fresh_stands. by apply Hfresh. }
  destruct (ask_votes_steps interval window num i answered ∅ s1 Hc) as ([c2 w2] & Ha & [Hk2 _ Ho2 Hself]).
  { done. }
  { intros p [? ?]%Hans%list_elem_of_filter. done. }
  exists c1, w1, c2, w2. split_and!; [exact Hs|exact Hk| | | |exact Ho2].
  - clear -Hf. unfold get_leader. cbn. induction Hf as [|[j m] l [mm Hm] Hl IH]; [done|].
    cbn in *. by rewrite Hm, decide_False.
  - unfold campaign, bind, on_node. cbn [fst]. rewrite Hn.
    destruct (Hfresh _ _ Hn) as [mm Heq].
    assert ((_start_election n).2 = Ok tt) as Hok by (rewrite Heq; apply fresh_campaign_Ok).
    destruct (_start_election n) as [n' r] eqn:He. cbn in Hok, Ha. subst r. exact Ha.
  - destruct Hself as (m & Hm & [Hl|Hst]); [|by apply enough_votes_elect in Hst].
    eapply first_leader_is; [cbn in Hk2; rewrite Hk2; apply members_nodup|exact Hm|done|].
    intros j m' Hj Hji. by rewrite (Ho2 j m' Hj Hji).
Qed.

(** ** Stopping *)

Definition stopped n : Prop := _shutdown_flag n = true ∧ _state n = FOLLOWER.

Lemma stop_nodes_stops ids : ∀ s s',
  stop_nodes ids s = (s', Ok tt) →
  (_nodes s'.1).*1 = (_nodes s.1).*1 ∧
  ∀ i n, get_node i s'.1 = Some n → i ∈ ids ∨ (∃ m, get_node i s.1 = Some m ∧ stopped m) → stopped n.
Proof.
  induction ids as [|j ids IH]; intros [c w] s' Hr; cbn [stop_nodes] in Hr.
  { injection Hr as <-. split; [done|]. intros i n Hi [?%not_elem_of_nil|(m & Hm & ?)]; [done|]. congruence. }
  apply bind_Ok_inv in Hr as (s1 & [] & Hstop & Hr). unfold outside in Hstop. cbn in Hstop.
  destruct (cw_stop j w) as [w1 r1]. injection Hstop as <- ->.
  apply bind_Ok_inv in Hr as (s2 & [] & Hput & Hr). cbn [fst] in Hput.
  apply IH in Hr as [Hk Hs]. destruct (get_node j c) as [n|] eqn:Hn.
  - assert (s2 = (put_node j (shutdown n).1 (c, w1)).1) as -> by (by rewrite Hput). split.
    + rewrite Hk. apply (put_node_keys j _ (c, w1)). by apply (get_node_key j n (c, w1)).
    + intros i m Hm Hi. apply (Hs i m Hm). rewrite get_put_node.
      destruct (decide (j = i)) as [->|Hji]; [right; by eexists|].
      destruct Hi as [[->|Hi]%elem_of_cons|Hi]; [done|by left|by right].
  - injection Hput as <-. split; [exact Hk|]. intros i m Hm Hi. apply (Hs i m Hm).
    destruct Hi as [[->|Hi]%elem_of_cons|Hi]; [|by left|by right].
    exfalso. apply d_get_None in Hn. apply Hn. cbn in Hk. rewrite <-Hk.
    by apply (get_node_key j m s').
Qed.

Lemma wait_nodes_same ids : ∀ s s', wait_nodes ids s = (s', Ok tt) → s'.1 = s.1.
Proof.
  induction ids as [|i ids IH]; intros [c w] s' Hr; cbn [wait_nodes] in Hr; [by injection Hr as <-|].
  apply bind_Ok_inv in Hr as (s1 & [] & Hw & Hr). unfold outside in Hw. cbn in Hw.
  destruct (cw_wait i w) as [w1 r1]. injection Hw as <- ->. by apply IH in Hr.
Qed.

(** A group that was shut down: every node is stopped, and there is no leader to be found. *)
Lemma cluster_shutdown_stops s s' :
  NoDup (_nodes s.1).*1 → RaftCluster.shutdown s = (s', Ok tt) →
  get_leader s'.1 = None ∧ ∀ i n, get_node i s'.1 = Some n → stopped n.
Proof.
  intros Hnd Hr. unfold RaftCluster.shutdown in Hr. apply bind_Ok_inv in Hr as (s1 & [] & Hs & Hw).
  apply wait_nodes_same in Hw. rewrite Hw. apply stop_nodes_stops in Hs as [Hk Hs].
  rewrite <-Hk in Hnd.
  assert (∀ i n, get_node i s1.1 = Some n → stopped n) as Hall.
  { intros i n Hn. apply (Hs i n Hn). left. apply (get_node_key i n s1) in Hn. by rewrite Hk in Hn. }
  split; [|done].
  assert (∀ e, e ∈ _nodes s1.1 → stopped e.2) as Hin.
  { intros [i n] He. apply (Hall i n). by apply d_get_in. }
  clear -Hin. unfold get_leader. induction (_nodes s1.1) as [|[i n] l IH]; [done|]. cbn [first_leader].
  destruct (Hin (i, n)) as [_ Hst]; [left|]. cbn in Hst. rewrite decide_False by (by rewrite Hst).
  apply IH. intros e He. apply Hin. by right.
Qed.
End facts.

(** ** The clusters of the timestamp group and of the metadata group *)

Module TSOCluster.
Section cluster.
Context {W S R : Type} `{!ClusterWorld W S R} `{!RaftNode.StateMachine S} `{!RaftStorage R} `{!Msgpack}.
Context (interval window : Z).

Record t := { _num_nodes : Z; _cluster : option (RaftCluster.t S R) }.
Definition init (num_nodes : Z) : t := {| _num_nodes := num_nodes; _cluster := None |}.

Definition set_cluster (c : option (RaftCluster.t S R)) (s : t) : t :=
  {| _num_nodes := _num_nodes s; _cluster := c |}.

(** The object is there from the first line on, also when the start raises. *)
Definition start (peer_addresses : list (Z * string)) : M (t * W) unit :=
  λ s, let '((c, w), r) := RaftCluster.start_network interval window peer_addresses
                             (RaftCluster.init (_num_nodes s.1), s.2) in
       ((set_cluster (Some c) s.1, w), r).

(** The node a client is handed, if there is a leader. *)
Definition get_client (s : t) : option (MemoryRaftNode.t S R) :=
  match _cluster s with
  | None => None
  | Some c => match RaftCluster.get_leader c with
              | None => None
              | Some leader_id => RaftCluster.get_node leader_id c
              end
  end.

Definition shutdown : M (t * W) unit :=
  λ s, match _cluster s.1 with
       | None => (s, Ok tt)
       | Some c => let '((c', w), r) := RaftCluster.shutdown (c, s.2) in
                   ((set_cluster (Some c') s.1, w), r)
       end.
End cluster.
Arguments t : clear implicits.
End TSOCluster.

Module MetadataCluster.
Section cluster.
Context {W S R : Type} `{!ClusterWorld W S R} `{!RaftNode.StateMachine S} `{!RaftStorage R} `{!Msgpack}.
Context (interval window : Z).

Record t := { _num_nodes : Z; _cluster : option (RaftCluster.t S R) }.
Definition init (num_nodes : Z) : t := {| _num_nodes := num_nodes; _cluster := None |}.

Definition set_cluster (c : option (RaftCluster.t S R)) (s : t) : t :=
  {| _num_nodes := _num_nodes s; _cluster := c |}.

(** In one process unless addresses are given. *)
Definition start (peer_addresses : option (list (Z * string))) : M (t * W) unit :=
  λ s, let c := RaftCluster.init (_num_nodes s.1) in
       let '((c', w), r) := match peer_addresses with
                            | None => RaftCluster.start interval window (c, s.2)
                            | Some addresses => RaftCluster.start_network interval window addresses (c, s.2)
                            end in
       ((set_cluster (Some c') s.1, w), r).

Definition get_node (node_id : Z) (s : t) : option (MemoryRaftNode.t S R) :=
  match _cluster s with None => None | Some c => RaftCluster.get_node node_id c end.

Definition get_leader_node (s : t) : option (MemoryRaftNode.t S R) :=
  match _cluster s with
  | None => None
  | Some c => match RaftCluster.get_leader c with
              | None => None
              | Some leader_id => RaftCluster.get_node leader_id c
              end
  end.

(** [MetadataClient(self.get_leader_node)]: a client asks the cluster for the leader each
    time, so what it is handed is the method. *)
Definition get_client : t → option (MemoryRaftNode.t S R) := get_leader_node.

(** The object is given up once every node is stopped. *)
Definition shutdown : M (t * W) unit :=
  λ s, match _cluster s.1 with
       | None => (s, Ok tt)
       | Some c => match RaftCluster.shutdown (c, s.2) with
                   | ((c', w), Ok _) => ((set_cluster None s.1, w), Ok tt)
                   | ((c', w), Raise x) => ((set_cluster (Some c') s.1, w), Raise x)
                   end
       end.
End cluster.
Arguments t : clear implicits.
End MetadataCluster.

Section clients.
Context {W S R : Type} `{!ClusterWorld W S R} `{!RaftNode.StateMachine S} `{!RaftStorage R} `{!Msgpack}.

(** A node that a client is handed leads. *)
Lemma first_leader_leads (l : list (Z * MemoryRaftNode.t S R)) i :
  NoDup l.*1 → RaftCluster.first_leader l = Some i →
  ∃ n, d_get l i = Some n ∧ MemoryRaftNode._state n = LEADER.
Proof.
  induction l as [|[j m] l IH]; cbn; [done|]. intros [Hj Hnd]%list.NoDup_cons. case_decide as Hs.
  - intros [= <-]. exists m. by rewrite decide_True.
  - intros Hl. destruct (IH Hnd Hl) as (n & Hn & ?). exists n. split; [|done].
    rewrite decide_False; [done|]. intros ->. apply Hj, list_elem_of_fmap.
    exists (i, n). split; [done|]. by apply d_get_Some_in.
Qed.

Lemma clients_get_the_leader (s : MetadataCluster.t S R) c n :
  MetadataCluster._cluster s = Some c → NoDup (RaftCluster._nodes c).*1 →
  MetadataCluster.get_leader_node s = Some n → MemoryRaftNode._state n = LEADER.
Proof.
  unfold MetadataCluster.get_leader_node. intros -> Hnd.
  destruct (RaftCluster.get_leader c) as [i|] eqn:Hl; [|done].
  destruct (first_leader_leads _ _ Hnd Hl) as (m & Hm & Hs). unfold RaftCluster.get_node.
  rewrite Hm. by intros [= <-].
Qed.

Lemma build_keeps interval window num i connect (s s' : RaftCluster.t S R * W) n :
  (∀ s s' u, connect s = (s', Ok u) → s'.1 = s.1) →
  RaftCluster.build interval window num i connect s = (s', Ok n) → s'.1 = s.1.
Proof.
  intros Hconn Hr. destruct s as [c w]. unfold RaftCluster.build in Hr.
  assert (∀ A (m : M W A) s s' (a : A), RaftCluster.outside (S := S) (R := R) m s = (s', Ok a) → s'.1 = s.1) as Hout.
  { intros A m [c0 w0] s0 a. unfold RaftCluster.outside. cbn. destruct (m w0). by intros [= <- _]. }
  mstep Hr. apply Hout in Hm. mstep Hr.
  assert (n1.1 = n0.1) as H1.
  { destruct cw_storage as [f|]; [|by injection Hm0 as <- _]. mstep Hm0. apply Hout in Hm1.
    injection Hm0 as <- _. done. }
  mstep Hr. apply Hconn in Hm1. destruct (MemoryRaftNode._load_from_storage _) as [n3 [u|x]]; [|done].
  injection Hr as <- _. congruence.
Qed.

(** A group over the network that was started listens with every one of its nodes, and each
    was given the addresses of all the others. *)
Lemma started_network_listens interval window num addresses ids : ∀ s s' : RaftCluster.t S R * W,
  RaftCluster.start_network_nodes interval window num addresses ids s = (s', Ok tt) →
  RaftCluster._grpc_servers s'.1 = RaftCluster._grpc_servers s.1 ++ ids ∧
  ∀ i, i ∈ ids → is_Some (d_get addresses i) ∧
                 is_Ok (RaftCluster.addresses_of addresses (RaftCluster.peers_of num i)).
Proof.
  induction ids as [|i ids IH]; intros s s' Hr; cbn [RaftCluster.start_network_nodes] in Hr.
  { injection Hr as <-. rewrite app_nil_r. split; [done|]. by intros i ?%not_elem_of_nil. }
  mstep Hr. pose proof Hm as Hb. unfold RaftCluster.build in Hb.
  assert (is_Ok (RaftCluster.addresses_of addresses (RaftCluster.peers_of num i))) as Haddr.
  { mstep Hb. mstep Hb. mstep Hb. mstep Hm2. injection Hm3 as _ Ha. rewrite Ha. by eexists. }
  clear Hb. assert (n.1 = s.1) as Hs.
  { eapply build_keeps; [|exact Hm]. intros [c w] s2 u Hc. mstep Hc. injection Hm0 as <- _.
    unfold RaftCluster.outside in Hc. cbn in Hc. destruct (cw_connect _ w). by injection Hc as <- _. }
  mstep Hr. injection Hm0 as <- _. mstep Hr. injection Hm0 as <- Ha.
  assert (is_Some (d_get addresses i)) as Hsome by (destruct (d_get addresses i); [by eexists|done]).
  mstep Hr. assert (n0.1 = (RaftCluster.put_node i a n).1.1) as Hn0.
  { unfold RaftCluster.bind_port, RaftCluster.outside in Hm0. cbn [fst snd] in Hm0.
    destruct (cw_bind a1 _) as [w1 [u|x]]; [by injection Hm0 as <- _|].
    destruct x; try (by injection Hm0); cbn in Hm0.
    destruct (cw_bind a1 w1) as [w2 r2]. by injection Hm0 as <- _. }
  mstep Hr. assert (n1.1 = n0.1) as Hn1.
  { unfold RaftCluster.outside in Hm1. destruct (cw_serve i n0.2). by injection Hm1 as <- _. }
  mstep Hr. injection Hm2 as <- _. apply IH in Hr as [Hg Hi]. split.
  - rewrite Hg. cbn. rewrite Hn1, Hn0. cbn. rewrite Hs. by rewrite <-(assoc (++)).
  - intros j [->|Hj]%elem_of_cons; [done|by apply Hi].
Qed.
End clients.
