(* ===== verification/Shards.v ===== *)
(** What a transaction's client uses of a cluster, and how it settles a lock it meets:
    [transaction/lock_resolver.py] and [transaction/lock_cleaner.py].

    A client reaches shards through [client/routing.py] and timestamps through the
    timestamp client; both are behind the class [Shards].  Its state [W] is everything that
    is not this client: the shards' machines, the clock, and whatever other clients do
    between two of this client's calls. *)

From Stdlib Require Import ZArith Lia.
From S2P Require Import Prelude Bytes PyVal Mvcc StateMachine.

Class Shards (W C : Type) := {
  (** [ShardLeaders.shard_for_key]. *)
  sh_shard_for_key : bytes → W → option Z;
  (** [ShardLeaders.leader_for_shard]: a client of the node that leads. *)
  sh_leader : Z → M W (option C);
  (** [ask_shard] with [client.propose(command)]; [None] when there is nobody to ask. *)
  sh_propose : Z → bytes → M W (option ApplyResult);
  (** [ask_shard] with [client.get(key, timestamp)]. *)
  sh_get : Z → bytes → Z → M W (option ReadResult);
  (** [client.get_lock(key)] and [client.get_write_record(key)]. *)
  sh_get_lock : C → bytes → M W (option Lock);
  sh_get_write_record : C → bytes → M W (option WriteRecord);
  (** The locks on every node that leads, as the lock cleaner finds them. *)
  sh_leader_locks : M W (list (bytes * Lock));
  (** [TSOClient.get_timestamp]. *)
  sh_get_timestamp : M W Z;
  (** [time.time()]. *)
  sh_now : M W Z
}.

(** An exception becomes an answer. *)
Definition catch {S A} (m : M S A) (a : A) : M S A := λ s,
  match m s with (s', Ok b) => (s', Ok b) | (s', Raise _) => (s', Ok a) end.

Inductive PrimaryStatus := COMMITTED | PENDING | ABORTED | UNKNOWN.
#[global] Instance PrimaryStatus_eq_dec : EqDecision PrimaryStatus.
Proof. solve_decision. Defined.

Module LockResolver.
Section resolver.
Context {W C : Type} `{Shards W C} `{Msgpack}.

(** The resolver's only state of its own is the lock's time to live. *)
Record t := { _lock_ttl : Z }.

Definition _get_shard_id (key : bytes) : M W (option Z) := λ w, (w, Ok (sh_shard_for_key key w)).

Definition _client_for (key : bytes) : M W (option C) :=
  let* shard_id := _get_shard_id key in
  match shard_id with
  | None => ret None
  | Some shard_id => sh_leader shard_id
  end.

Definition lock_on (key : bytes) : M W (option Lock) :=
  let* client := _client_for key in
  match client with
  | None => ret None
  | Some client => sh_get_lock client key
  end.

(** [lock.get("lock_time", 0.0)]. *)
Definition lock_time (lock : Lock) : result Z :=
  match lk_lock_time lock with PFloat z => Ok z | PInt z => Ok z | _ => Raise TypeError end.

Definition remaining_ttl (r : t) (lock : Lock) : M W Z :=
  let* now := sh_now in
  let* since := reads (λ _, lock_time lock) in
  ret (Z.max 0 (_lock_ttl r - (now - since))).

Definition primary_status (r : t) (primary_key : bytes) (start_ts : Z) : M W PrimaryStatus :=
  let* client := _client_for primary_key in
  match client with
  | None => ret UNKNOWN
  | Some client =>
      let* record := sh_get_write_record client primary_key in
      if match record with Some w => wr_start_ts w =? start_ts | None => false end
      then ret COMMITTED
      else
      let* lock := sh_get_lock client primary_key in
      match lock with
      | Some lock =>
          if lk_start_ts lock =? start_ts then
            let* remaining := remaining_ttl r lock in
            if remaining >? 0 then ret PENDING else ret ABORTED
          else ret ABORTED
      | None => ret ABORTED
      end
  end.

Definition primary_commit_ts (primary_key : bytes) (start_ts : Z) : M W (option Z) :=
  let* client := _client_for primary_key in
  match client with
  | None => ret None
  | Some client =>
      let* record := sh_get_write_record client primary_key in
      match record with
      | Some w => if wr_start_ts w =? start_ts then ret (Some (wr_commit_ts w)) else ret None
      | None => ret None
      end
  end.

(** [_settle], for the command built from [o]. *)
Definition _settle (key : bytes) (start_ts : Z) (o : op) : M W bool :=
  let* command := reads (λ _, serialize_command (op_type o) (op_kwargs o)) in
  let* shard_id := _get_shard_id key in
  match shard_id with
  | None => ret false
  | Some shard_id =>
      let* result := sh_propose shard_id command in
      if match result with Some r => ar_success r | None => false end then ret true
      else
        let* current := lock_on key in
        ret match current with None => true | Some l => negb (lk_start_ts l =? start_ts) end
  end.

Definition resolve_lock (r : t) (key : bytes) (lock : option Lock) : M W bool :=
  let* lock := match lock with Some l => ret (Some l) | None => lock_on key end in
  match lock with
  | None => ret true
  | Some lock =>
      let start_ts := lk_start_ts lock in
      let* primary_key := reads (λ _, as_bytes (lk_primary_key lock)) in
      let* status := primary_status r primary_key start_ts in
      match status with
      | COMMITTED =>
          let* commit_ts := primary_commit_ts primary_key start_ts in
          match commit_ts with
          | None => ret false
          | Some commit_ts => _settle key start_ts (OCommit key start_ts commit_ts)
          end
      | ABORTED => _settle key start_ts (ORollback key start_ts)
      | PENDING | UNKNOWN => ret false
      end
  end.

(** The loop of [await_resolution]: [polls] is how often it goes round before the clock
    passes the deadline. *)
Fixpoint await_loop (r : t) (key : bytes) (polls : nat) : M W bool :=
  let* done := resolve_lock r key None in
  if (done : bool) then ret true
  else match polls with O => ret false | S polls => await_loop r key polls end.

Definition await_resolution (r : t) (key : bytes) (lock : option Lock) (polls : nat) : M W bool :=
  let* lock := match lock with Some l => ret (Some l) | None => lock_on key end in
  match lock with
  | None => ret true
  | Some lock => remaining_ttl r lock;;; await_loop r key polls
  end.
End resolver.
End LockResolver.

Module LockCleaner.
Section cleaner.
Context {W C : Type} `{Shards W C} `{Msgpack}.

Definition expired (lock_ttl now : Z) (lock : Lock) : result bool :=
  if decide (lk_status lock ≠ PBytes LockStatus.LOCKED) then Ok false
  else let? since := LockResolver.lock_time lock in Ok (now - since >=? lock_ttl).

(** The clock is read anew for every lock. *)
Fixpoint keep_expired (lock_ttl : Z) (locks : list (bytes * Lock)) : M W (list (bytes * Lock)) :=
  match locks with
  | [] => ret []
  | (key, lock) :: locks =>
      let* now := sh_now in
      let* old := reads (λ _, expired lock_ttl now lock) in
      let* rest := keep_expired lock_ttl locks in
      ret (if (old : bool) then (key, lock) :: rest else rest)
  end.

Definition _expired_locks (lock_ttl : Z) : M W (list (bytes * Lock)) :=
  let* locks := sh_leader_locks in keep_expired lock_ttl locks.

Fixpoint resolve_all (r : LockResolver.t) (locks : list (bytes * Lock)) : M W unit :=
  match locks with
  | [] => ret tt
  | (key, lock) :: locks => LockResolver.resolve_lock r key (Some lock);;; resolve_all r locks
  end.

Definition _clean_expired_locks (r : LockResolver.t) : M W unit :=
  let* locks := _expired_locks (LockResolver._lock_ttl r) in resolve_all r locks.

(** One round of [_run]. *)
Definition round (r : LockResolver.t) : M W unit := catch (_clean_expired_locks r) tt.
End cleaner.
End LockCleaner.
