(* ===== verification/Coordinator.v ===== *)
(** The transaction coordinator of [transaction/coordinator.py].

    Its state is its table of transactions and the queue of its thread pool; everything
    outside it is the state [W] of the class [Shards].  The threads that prewrite the shards
    of a transaction run at once, so [run_threads] takes a schedule: which of them makes the
    next proposal.  The commits of the secondary keys are queued and run later, one by one,
    with whatever happens in between ([run_task]). *)

From Stdlib Require Import ZArith Lia.
From S2P Require Import Prelude Bytes PyVal Mvcc StateMachine Dict Shards.

Definition LOCK_RESOLUTION_ATTEMPTS : nat := 3.

Module TxnStatus.
Inductive t := PENDING | PREWRITTEN | COMMITTED | ABORTED.
#[global] Instance t_eq_dec : EqDecision t.
Proof. solve_decision. Defined.
End TxnStatus.

(** Why a read set is refused; the code keeps the reason as prose. *)
Inductive stale :=
  | no_leader_for (shard_id : Z) (key : bytes)
  | committed_since (key : bytes) (commit_ts : Z).

Record Transaction := {
  txn_id : Z;
  start_ts : Z;
  commit_ts : option Z;
  keys : list (bytes * bytes);
  primary_key : option bytes;
  status : TxnStatus.t;
  read_set : gset bytes;
  abort_reason : option stale
}.

Definition new_transaction (id ts : Z) : Transaction :=
  {| txn_id := id; start_ts := ts; commit_ts := None; keys := []; primary_key := None;
     status := TxnStatus.PENDING; read_set := ∅; abort_reason := None |}.

Definition add_key (key value : bytes) (x : Transaction) : Transaction :=
  {| txn_id := txn_id x; start_ts := start_ts x; commit_ts := commit_ts x;
     keys := keys x ++ [(key, value)];
     primary_key := match primary_key x with None => Some key | Some p => Some p end;
     status := status x; read_set := read_set x; abort_reason := abort_reason x |}.

Definition with_status (st : TxnStatus.t) (x : Transaction) : Transaction :=
  {| txn_id := txn_id x; start_ts := start_ts x; commit_ts := commit_ts x; keys := keys x;
     primary_key := primary_key x; status := st; read_set := read_set x;
     abort_reason := abort_reason x |}.
Definition with_commit_ts (ts : Z) (x : Transaction) : Transaction :=
  {| txn_id := txn_id x; start_ts := start_ts x; commit_ts := Some ts; keys := keys x;
     primary_key := primary_key x; status := status x; read_set := read_set x;
     abort_reason := abort_reason x |}.
Definition with_reason (r : stale) (x : Transaction) : Transaction :=
  {| txn_id := txn_id x; start_ts := start_ts x; commit_ts := commit_ts x; keys := keys x;
     primary_key := primary_key x; status := status x; read_set := read_set x;
     abort_reason := Some r |}.
Definition add_read (key : bytes) (x : Transaction) : Transaction :=
  {| txn_id := txn_id x; start_ts := start_ts x; commit_ts := commit_ts x; keys := keys x;
     primary_key := primary_key x; status := status x; read_set := {[key]} ∪ read_set x;
     abort_reason := abort_reason x |}.

Definition bytes_le (a b : bytes) : Prop := ble a b = true.
#[global] Instance bytes_le_dec : RelDecision bytes_le.
Proof. intros a b. unfold bytes_le. apply _. Defined.

Module TransactionCoordinator.
Section coordinator.
Context {W C : Type} `{Shards W C} `{Msgpack}.

(** A commit queued on the thread pool: shard, key, start and commit timestamps. *)
Record task := { tk_shard : Z; tk_key : bytes; tk_start_ts : Z; tk_commit_ts : Z }.

Record t := {
  _resolver : LockResolver.t;
  _validate_reads : bool;
  _transactions : gmap Z Transaction;
  _txn_id_counter : Z;
  _executor : list task
}.

Definition with_transactions (m : gmap Z Transaction) (c : t) : t :=
  {| _resolver := _resolver c; _validate_reads := _validate_reads c; _transactions := m;
     _txn_id_counter := _txn_id_counter c; _executor := _executor c |}.
Definition with_counter (n : Z) (c : t) : t :=
  {| _resolver := _resolver c; _validate_reads := _validate_reads c;
     _transactions := _transactions c; _txn_id_counter := n; _executor := _executor c |}.
Definition with_executor (q : list task) (c : t) : t :=
  {| _resolver := _resolver c; _validate_reads := _validate_reads c;
     _transactions := _transactions c; _txn_id_counter := _txn_id_counter c; _executor := q |}.

Definition init (lock_ttl : Z) (validate_reads : bool) : t :=
  {| _resolver := {| LockResolver._lock_ttl := lock_ttl |}; _validate_reads := validate_reads;
     _transactions := ∅; _txn_id_counter := 0; _executor := [] |}.

(** ** The world's part *)

Definition _get_shard_id (key : bytes) : M W Z := λ w,
  match sh_shard_for_key key w with Some s => (w, Ok s) | None => (w, Raise RuntimeError) end.

Definition _propose_to (shard_id : Z) (o : op) : M W (option ApplyResult) :=
  let* command := reads (λ _, serialize_command (op_type o) (op_kwargs o)) in
  sh_propose shard_id command.

(** [result is not None and result.success]. *)
Definition succeeded (r : option ApplyResult) : bool :=
  match r with Some r => ar_success r | None => false end.

Abbreviation groups := (list (Z * list (bytes * bytes))).

(** [shard_groups[shard_id].append((key, value))], in the dictionary's order. *)
Fixpoint group_keys (ks : list (bytes * bytes)) (g : groups) : M W groups :=
  match ks with
  | [] => ret g
  | (key, value) :: ks =>
      let* shard_id := _get_shard_id key in
      group_keys ks (d_set g shard_id (default [] (d_get g shard_id) ++ [(key, value)]))
  end.
Definition _group_keys_by_shard (x : Transaction) : M W groups := group_keys (keys x) [].

(** The primary key as the commands carry it; a transaction with keys has one. *)
Definition primary (x : Transaction) : bytes := default [] (primary_key x).

(** One round of the loop of [_prewrite_shard]. *)
Definition prewrite_key (x : Transaction) (shard_id : Z) (kv : bytes * bytes) : M W bool :=
  let* r := _propose_to shard_id (OPrewrite kv.1 kv.2 (start_ts x) (primary x)) in
  ret (succeeded r).

(** The threads running [_prewrite_shard], each with the keys it has left, and the schedule.
    A thread that ends - refused, raised, or out of keys - leaves its result. *)
Fixpoint run_threads (fuel : nat) (sched : list nat) (x : Transaction) (threads : groups)
    : M W (list bool) :=
  match fuel with
  | O => ret []
  | S fuel =>
      let i := (default 0 (head sched) mod length threads)%nat in
      match threads !! i with
      | None => ret []
      | Some (shard_id, []) =>
          let* rs := run_threads fuel (tail sched) x (take i threads ++ drop (S i) threads) in
          ret (true :: rs)
      | Some (shard_id, kv :: kvs) =>
          let* ok := catch (prewrite_key x shard_id kv) false in
          if (ok : bool) then
            run_threads fuel (tail sched) x (<[i := (shard_id, kvs)]> threads)
          else
            let* rs := run_threads fuel (tail sched) x (take i threads ++ drop (S i) threads) in
            ret (false :: rs)
      end
  end.

(** Every round takes a key or a thread away. *)
Definition rounds (threads : groups) : nat :=
  sum_list_with (λ th, S (length th.2)) threads.

Fixpoint all_led (shards : list Z) : M W bool :=
  match shards with
  | [] => ret true
  | s :: shards =>
      let* client := sh_leader s in
      match client with None => ret false | Some _ => all_led shards end
  end.

Fixpoint rollback_keys (x : Transaction) (shard_id : Z) (ks : list (bytes * bytes)) : M W unit :=
  match ks with
  | [] => ret tt
  | (key, _) :: ks => _propose_to shard_id (ORollback key (start_ts x));;; rollback_keys x shard_id ks
  end.
Fixpoint _rollback_all_shards (x : Transaction) (g : groups) : M W unit :=
  match g with
  | [] => ret tt
  | (shard_id, ks) :: g => rollback_keys x shard_id ks;;; _rollback_all_shards x g
  end.

Definition _prewrite_all_shards (sched : list nat) (x : Transaction) (g : groups) : M W bool :=
  let* led := all_led (g.*1) in
  if negb led then ret false
  else
    let* results := run_threads (rounds g) sched x g in
    if forallb id results then ret true
    else _rollback_all_shards x g;;; ret false.

Definition _commit_key (shard_id : Z) (key : bytes) (sts cts : Z) : M W (option ApplyResult) :=
  _propose_to shard_id (OCommit key sts cts).

Fixpoint validate_keys (ts : Z) (ks : list bytes) : M W (option stale) :=
  match ks with
  | [] => ret None
  | key :: ks =>
      let* shard_id := _get_shard_id key in
      let* client := sh_leader shard_id in
      match client with
      | None => ret (Some (no_leader_for shard_id key))
      | Some client =>
          let* record := sh_get_write_record client key in
          match record with
          | Some w => if wr_commit_ts w >? ts then ret (Some (committed_since key (wr_commit_ts w)))
                      else validate_keys ts ks
          | None => validate_keys ts ks
          end
      end
  end.
Definition _validate_read_set (x : Transaction) : M W (option stale) :=
  validate_keys (start_ts x) (merge_sort bytes_le (elements (read_set x))).

(** The commits [_commit_secondary_shards] submits. *)
Definition secondary_tasks (x : Transaction) (g : groups) (cts : Z) : list task :=
  flat_map (λ e, map (λ kv, {| tk_shard := e.1; tk_key := kv.1; tk_start_ts := start_ts x; tk_commit_ts := cts |})
                   (filter (λ kv, kv.1 ≠ primary x) e.2)) g.

(** ** The coordinator's own state beside the world's *)

Definition world {A} (m : M W A) : M (t * W) A := λ cw,
  let '(w, r) := m cw.2 in ((cw.1, w), r).
Definition txn (id : Z) : M (t * W) (option Transaction) := λ cw, (cw, Ok (_transactions cw.1 !! id)).
(** An update of one transaction, which all the code's handles on it see. *)
Definition update (id : Z) (f : Transaction → Transaction) : M (t * W) unit := λ cw,
  ((with_transactions (alter f id (_transactions cw.1)) cw.1, cw.2), Ok tt).
Definition on_coordinator (f : t → t) : M (t * W) unit := λ cw, ((f cw.1, cw.2), Ok tt).

Definition begin : M (t * W) (Z * Z) :=
  on_coordinator (λ c, with_counter (_txn_id_counter c + 1) c);;;
  let* id := (λ cw, (cw, Ok (_txn_id_counter cw.1))) in
  let* ts := world sh_get_timestamp in
  on_coordinator (λ c, with_transactions (<[id := new_transaction id ts]> (_transactions c)) c);;;
  ret (id, ts).

Definition add_write (id : Z) (key value : bytes) : M (t * W) unit :=
  let* x := txn id in
  match x with
  | None => raise RuntimeError
  | Some x =>
      if decide (status x ≠ TxnStatus.PENDING) then raise RuntimeError
      else update id (add_key key value)
  end.

Definition prewrite (sched : list nat) (id : Z) : M (t * W) bool :=
  let* x := txn id in
  match x with
  | None => ret false
  | Some x =>
      if decide (status x ≠ TxnStatus.PENDING) then ret false
      else if decide (keys x = []) then ret false
      else
        let* g := world (_group_keys_by_shard x) in
        let* ok := world (_prewrite_all_shards sched x g) in
        if (ok : bool) then update id (with_status TxnStatus.PREWRITTEN);;; ret true
        else update id (with_status TxnStatus.ABORTED);;; ret false
  end.

(** The attempts of [read]. *)
Fixpoint read_loop (r : LockResolver.t) (polls attempts : nat) (shard_id : Z) (key : bytes) (ts : Z)
    : M W ReadResult :=
  match attempts with
  | O => raise RuntimeError
  | S attempts =>
      let* result := sh_get shard_id key ts in
      match result with
      | None => raise RuntimeError
      | Some result =>
          if decide (rr_error_code result = Some ErrorCode.ERR_LOCKED) then
            let* settled := LockResolver.await_resolution r key None polls in
            if (settled : bool) then read_loop r polls attempts shard_id key ts
            else raise RuntimeError
          else ret result
      end
  end.

Definition read (polls : nat) (id : Z) (key : bytes) : M (t * W) pyval :=
  let* x := txn id in
  match x with
  | None => raise RuntimeError
  | Some x =>
      let* shard_id := world (_get_shard_id key) in
      let* r := (λ cw, (cw, Ok (_resolver cw.1))) in
      let* result := world (read_loop r polls LOCK_RESOLUTION_ATTEMPTS shard_id key (start_ts x)) in
      if negb (rr_success result) then raise RuntimeError
      else update id (add_read key);;; ret (rr_value result)
  end.

Definition resolve_lock (key : bytes) : M (t * W) bool := λ cw,
  world (LockResolver.resolve_lock (_resolver cw.1) key None) cw.
Definition await_lock (key : bytes) (polls : nat) : M (t * W) bool := λ cw,
  world (LockResolver.await_resolution (_resolver cw.1) key None polls) cw.

(** Everything of the transaction is rolled back, and [commit] answers no. *)
Definition abort (id : Z) (x : Transaction) (g : groups) (reason : option stale)
    : M (t * W) (bool * option Z) :=
  world (_rollback_all_shards x g);;;
  update id (with_status TxnStatus.ABORTED);;;
  match reason with Some r => update id (with_reason r) | None => ret tt end;;;
  ret (false, None).

(** [commit], from the prewritten transaction on: validation and the primary's commit, under
    the commit lock, and then the secondaries. *)
Definition commit_prewritten (id : Z) (x : Transaction) (g : groups) : M (t * W) (bool * option Z) :=
  let* validate := (λ cw, (cw, Ok (_validate_reads cw.1))) in
  let* conflict := world (if (validate : bool) then _validate_read_set x else ret None) in
  match conflict with
  | Some reason => abort id x g (Some reason)
  | None =>
      let* cts := world sh_get_timestamp in
      update id (with_commit_ts cts);;;
      let* shard_id := world (_get_shard_id (primary x)) in
      let* client := world (sh_leader shard_id) in
      match client with
      | None => abort id x g None
      | Some _ =>
          let* r := world (_commit_key shard_id (primary x) (start_ts x) cts) in
          if negb (succeeded r) then abort id x g None
          else
            update id (with_status TxnStatus.COMMITTED);;;
            on_coordinator (λ c, with_executor (_executor c ++ secondary_tasks x g cts) c);;;
            ret (true, Some cts)
      end
  end.

Definition commit (sched : list nat) (id : Z) : M (t * W) (bool * option Z) :=
  let* x := txn id in
  match x with
  | None => ret (false, None)
  | Some x =>
      if decide (status x ≠ TxnStatus.PENDING) then ret (false, None)
      else if decide (keys x = []) then
        update id (with_status TxnStatus.COMMITTED);;;
        update id (with_commit_ts (start_ts x));;;
        ret (true, Some (start_ts x))
      else
        let* g := world (_group_keys_by_shard x) in
        let* prewritten := world (_prewrite_all_shards sched x g) in
        if negb prewritten then update id (with_status TxnStatus.ABORTED);;; ret (false, None)
        else
          update id (with_status TxnStatus.PREWRITTEN);;;
          commit_prewritten id x g
  end.

Definition rollback (id : Z) : M (t * W) bool :=
  let* x := txn id in
  match x with
  | None => ret false
  | Some x =>
      if decide (status x = TxnStatus.COMMITTED) then ret false
      else if decide (status x = TxnStatus.PENDING) then
        update id (with_status TxnStatus.ABORTED);;; ret true
      else
        let* g := world (_group_keys_by_shard x) in
        world (_rollback_all_shards x g);;;
        update id (with_status TxnStatus.ABORTED);;;
        ret true
  end.

Definition get_transaction (id : Z) (c : t) : option Transaction := _transactions c !! id.

(** The pool runs a commit it was given; what it answers, and what it raises, is lost. *)
Definition commit_task (k : task) : M W unit :=
  catch (_commit_key (tk_shard k) (tk_key k) (tk_start_ts k) (tk_commit_ts k);;; ret tt) tt.
Definition run_task (i : nat) : M (t * W) unit := λ cw,
  match _executor cw.1 !! i with
  | None => (cw, Ok tt)
  | Some k =>
      (on_coordinator (with_executor (take i (_executor cw.1) ++ drop (S i) (_executor cw.1)));;;
       world (commit_task k)) cw
  end.
End coordinator.
End TransactionCoordinator.
