(* ===== verification/CoordinatorFacts.v ===== *)
(** The commit of a transaction is all or nothing, as long as the placement of its keys
    stands, the other clients of the cluster leave its locks alone, and the COMMIT of its
    primary key is answered; and what may be left when it is not. *)

From Stdlib Require Import ZArith Lia.
From S2P Require Import Prelude Bytes PyVal Engine Mvcc StateMachine StateMachineFacts Dict Shards Coordinator.
Import MVCCStorage MVCCStateMachine.

(** ** One transaction on one shard *)

Section shard.
Context {E : Type} `{EngineLaws E} `{!Msgpack}.
Abbreviation sm := (MVCCStateMachine.t E).
Implicit Types m : sm.

(** The transaction is known by its start timestamp. *)
Context (sts : Z) (Hsts : valid_ts sts).

Definition lock_row m (k : bytes) : option bytes := entry (_storage m) x04 k sts.
Definition holds_lock m (k v pk : bytes) : Prop :=
  ∃ lt p, lock_row m k = Some p ∧ packb (lock_payload LockStatus.LOCKED pk lt v) = Ok p.
(** A write record of the transaction, with the version it published. *)
Definition wrote m (k : bytes) (cts : Z) : Prop := entry (_storage m) x03 k cts = Some (be_bytes 8 sts).
Definition published m (k v : bytes) (cts : Z) : Prop :=
  wrote m k cts ∧ entry (_storage m) x01 k cts = Some (x01 :: v).

(** What the other clients of a shard may do: the transaction's locks stay as they are, no
    version or write record is taken back, and none is written in the transaction's name. *)
Record others m m' : Prop := {
  ot_inv : store_inv (_storage m) → store_inv (_storage m');
  ot_locks k : no_sep k → lock_row m' k = lock_row m k;
  ot_rows ns k ts raw : no_sep k → ns = x01 ∨ ns = x03 →
    entry (_storage m) ns k ts = Some raw → entry (_storage m') ns k ts = Some raw;
  ot_wrote k cts : no_sep k → wrote m' k cts → wrote m k cts
}.
#[global] Instance others_preorder : PreOrder others.
Proof.
  split; [by split|]. intros m1 m2 m3 [I1 L1 R1 W1] [I2 L2 R2 W2]. split; auto.
  intros k Hk. by rewrite L2, L1.
Qed.

Lemma others_holds m m' k v pk : no_sep k → others m m' → holds_lock m k v pk → holds_lock m' k v pk.
Proof. intros Hk Ho (lt&p&Hl&Hp). exists lt, p. by rewrite (ot_locks _ _ Ho). Qed.
Lemma others_published m m' k v cts : no_sep k → others m m' → published m k v cts → published m' k v cts.
Proof. intros Hk Ho [Hw Hv]. split; eapply (ot_rows _ _ Ho); eauto. Qed.

(** A command of another transaction, at timestamps nobody has used for the key. *)
Definition other_op m (o : op) : Prop :=
  match o with
  | OSet k _ ts s => s ≠ Some sts ∧ entry (_storage m) x01 k ts = None ∧ entry (_storage m) x03 k ts = None
                     ∧ op_ok o
  | ODelete k ts => entry (_storage m) x01 k ts = None
  | OPrewrite _ _ s _ | ORollback _ s => s ≠ sts
  | OCommit k s cts => s ≠ sts ∧ valid_ts s ∧ entry (_storage m) x01 k cts = None ∧ entry (_storage m) x03 k cts = None
  | OCleanLock _ s => match s with Some s => s ≠ sts | None => False end
  end.

(** What one of the transaction's own commands leaves alone. *)
Definition elsewhere (k : bytes) m m' : Prop := ∀ k', k' ≠ k → no_sep k' →
  lock_row m' k' = lock_row m k' ∧
  ∀ ns ts, ns = x01 ∨ ns = x03 → entry (_storage m') ns k' ts = entry (_storage m) ns k' ts.

Lemma own_prewrite now k v pk m m' r :
  store_inv (_storage m) → no_sep k → packable (lock_payload LockStatus.LOCKED pk now v) = true →
  apply_op now (OPrewrite k v sts pk) m = (m', r) →
  (ar_success r = false ∧ m' = m) ∨
  (ar_success r = true ∧ lock_row m k = None ∧ holds_lock m' k v pk ∧ elsewhere k m m' ∧
   ∀ ns ts, ns = x01 ∨ ns = x03 → entry (_storage m') ns k ts = entry (_storage m) ns k ts).
Proof.
  intros Hi Hk Hp%packb_packable Hr. destruct m as [e last].
  destruct (apply_prewrite_run now k v sts pk e last Hi Hk Hsts Hp)
    as [[_ E1]|[(_&_&E1)|(Hn&_&p&Hp'&E1)]]; rewrite E1 in Hr; injection Hr as <- <-; [by left..|].
  right. unfold lock_row, holds_lock, elsewhere, lock_row. cbn [_storage]. split_and!; [done|by apply Hn| | |].
  - exists now, p. rewrite row_key_put, decide_True by done. done.
  - intros k' Hne Hk'. split.
    + by rewrite row_key_put, decide_False by naive_solver.
    + intros ns ts Hns. by rewrite row_key_put, decide_False by naive_solver.
  - intros ns ts Hns. by rewrite row_key_put, decide_False by naive_solver.
Qed.

Lemma own_commit now k v pk cts m m' r :
  store_inv (_storage m) → no_sep k → holds_lock m k v pk →
  apply_op now (OCommit k sts cts) m = (m', r) →
  (ar_success r = false ∧ m' = m) ∨
  (ar_success r = true ∧ published m' k v cts ∧ lock_row m' k = None ∧ elsewhere k m m').
Proof.
  intros Hi Hk (lt&p&Hl&Hp) Hr. destruct m as [e last].
  destruct (commit_effect _ _ _ _ _ _ _ Hr) as [[-> Hf]|(->&_&Hc&_)]; [by left|].
  rewrite (apply_commit_run now k sts cts pk lt v p e last Hi Hk Hc Hl Hp) in Hr.
  injection Hr as <-. right. unfold published, wrote, lock_row, elsewhere, lock_row, publish. cbn [_storage].
  split_and!; [done|..].
  - rewrite row_key_delete, row_key_put by done. rewrite decide_False by naive_solver. by rewrite decide_True.
  - rewrite row_key_delete, !row_key_put by done. rewrite !decide_False by naive_solver. by rewrite decide_True.
  - by rewrite row_key_delete, decide_True by done.
  - intros k' Hne Hk'. split.
    + rewrite row_key_delete, !row_key_put by done. by rewrite !decide_False by naive_solver.
    + intros ns ts Hns. rewrite row_key_delete, !row_key_put by done. by rewrite !decide_False by naive_solver.
Qed.

Lemma own_rollback now k m m' r :
  store_inv (_storage m) → no_sep k → apply_op now (ORollback k sts) m = (m', r) →
  (m' = m ∧ (ar_success r = true → lock_row m k = None)) ∨
  (ar_success r = true ∧ lock_row m' k = None ∧ elsewhere k m m' ∧
   ∀ ns ts, ns = x01 ∨ ns = x03 → entry (_storage m') ns k ts = entry (_storage m) ns k ts).
Proof.
  intros Hi Hk Hr. destruct m as [e last]. destruct (entry e x04 k sts) as [raw|] eqn:He.
  - rewrite (apply_rollback_run now k sts raw e last Hi Hk He) in Hr. injection Hr as <- <-. right.
    unfold lock_row, elsewhere, lock_row. cbn [_storage]. split_and!; [done|..].
    + by rewrite row_key_delete, decide_True by done.
    + intros k' Hne Hk'. split; [by rewrite row_key_delete, decide_False by naive_solver|].
      intros ns ts Hns. by rewrite row_key_delete, decide_False by naive_solver.
    + intros ns ts Hns. by rewrite row_key_delete, decide_False by naive_solver.
  - left. rewrite (no_lock_run now (ORollback k sts) k sts) in Hr by eauto. injection Hr as <- <-. done.
Qed.

(** Whatever lock a commit finds, it writes the key's rows at its timestamp only. *)
Lemma own_commit_rows now k cts m m' r :
  apply_op now (OCommit k sts cts) m = (m', r) →
  (ar_success r = false ∧ m' = m) ∨
  (elsewhere k m m' ∧ ∀ ct, ct ≠ cts → entry (_storage m') x03 k ct = entry (_storage m) x03 k ct).
Proof.
  intros [[-> Hf]|(_&Hk&Hc&v&->)]%commit_effect; [by left|right]. unfold elsewhere, lock_row, publish. cbn [_storage].
  split.
  - intros k' Hne Hk'. split.
    + rewrite row_key_delete, !row_key_put by done. by rewrite !decide_False by naive_solver.
    + intros ns ts Hns. rewrite row_key_delete, !row_key_put by done. by rewrite !decide_False by naive_solver.
  - intros ct Hne. rewrite row_key_delete, !row_key_put by done. by rewrite !decide_False by naive_solver.
Qed.

(** *** What a machine keeps while commands are applied to it *)

(** Write records of the transaction, only where they are allowed. *)
Definition writes_only (may : bytes → Z → Prop) m m' : Prop := store_inv (_storage m) →
  store_inv (_storage m') ∧ ∀ k cts, no_sep k → wrote m' k cts → wrote m k cts ∨ may k cts.
(** None of them, and no lock of the transaction is lost. *)
Definition keeps_locks m m' : Prop := store_inv (_storage m) →
  store_inv (_storage m') ∧ (∀ k cts, no_sep k → wrote m' k cts → wrote m k cts) ∧
  ∀ k v pk, no_sep k → holds_lock m k v pk → holds_lock m' k v pk.

(** A key whose value is published at [cts]; a PREWRITE that is applied again may lock it
    again, with the same value. *)
Definition settled pk cts m (k v : bytes) : Prop :=
  published m k v cts ∧ (lock_row m k = None ∨ holds_lock m k v pk).
(** The locks of the keys in [own] stay or, for the keys that may be committed, become
    published values. *)
Definition settling pk cts (own : bytes * bytes → Prop) (may : bytes → Prop) m m' : Prop :=
  store_inv (_storage m) → store_inv (_storage m') ∧ ∀ k v, own (k, v) →
    (¬ may k → holds_lock m k v pk → holds_lock m' k v pk) ∧
    (holds_lock m k v pk → holds_lock m' k v pk ∨ settled pk cts m' k v) ∧
    (settled pk cts m k v → settled pk cts m' k v).

#[global] Instance writes_only_preorder may : PreOrder (writes_only may).
Proof.
  split; [split; [done|by left]|]. intros m1 m2 m3 R1 R2 Hi. destruct (R1 Hi) as [Hi2 W1], (R2 Hi2) as [Hi3 W2].
  split; [done|]. intros k cts Hk [Hw|]%W2; [auto|by right|done].
Qed.
#[global] Instance keeps_locks_preorder : PreOrder keeps_locks.
Proof.
  split; [by split|]. intros m1 m2 m3 R1 R2 Hi. destruct (R1 Hi) as (Hi2&W1&L1), (R2 Hi2) as (Hi3&W2&L2).
  split_and!; eauto.
Qed.
#[global] Instance settling_preorder pk cts own may : PreOrder (settling pk cts own may).
Proof.
  split; [split; [done|]; intros; split_and!; by auto|].
  intros m1 m2 m3 R1 R2 Hi. destruct (R1 Hi) as [Hi2 S1], (R2 Hi2) as [Hi3 S2]. split; [done|].
  intros k v Hkv. destruct (S1 k v Hkv) as (A1&B1&C1), (S2 k v Hkv) as (A2&B2&C2).
  split_and!; [auto| |auto]. intros [?|?]%B1; auto.
Qed.

Lemma others_writes_only may m m' : others m m' → writes_only may m m'.
Proof. intros Ho Hi. split; [by apply (ot_inv _ _ Ho)|]. intros k cts Hk Hw. left. by apply (ot_wrote _ _ Ho). Qed.
Lemma others_keeps_locks m m' : others m m' → keeps_locks m m'.
Proof.
  intros Ho Hi. split_and!; [by apply (ot_inv _ _ Ho)|intros k cts; by apply (ot_wrote _ _ Ho)|].
  intros k v pk Hk. by apply others_holds.
Qed.
Lemma others_settling pk cts own may m m' :
  (∀ kv, own kv → no_sep kv.1) → others m m' → settling pk cts own may m m'.
Proof.
  intros Hs Ho Hi. split; [by apply (ot_inv _ _ Ho)|]. intros k v Hk%Hs. cbn in Hk.
  assert (∀ v pk, holds_lock m k v pk → holds_lock m' k v pk) as Hh by (intros; by eapply others_holds).
  split_and!; [auto..|]. intros [Hp Hl]. split; [by eapply others_published|].
  destruct Hl; [left|right; auto]. by rewrite (ot_locks _ _ Ho).
Qed.

Lemma op_inv now o m : store_inv (_storage m) → store_inv (_storage (apply_op now o m).1).
Proof. apply sm_step_inv, apply_op_step. Qed.

Lemma prewrite_keeps now k v pk m :
  no_sep k → packable (lock_payload LockStatus.LOCKED pk now v) = true →
  keeps_locks m (apply_op now (OPrewrite k v sts pk) m).1.
Proof.
  intros Hk Hp Hi. split; [by apply op_inv|]. destruct (apply_op _ _ _) as [m' r] eqn:Ha. cbn [fst].
  destruct (own_prewrite now k v pk m m' r Hi Hk Hp Ha) as [[_ ->]|(_&Hnone&_&He&Hrows)]; [done|]. split.
  - intros k' cts Hk'. unfold wrote. destruct (decide (k' = k)) as [->|Hne]; [by rewrite Hrows by auto|].
    by rewrite (proj2 (He k' Hne Hk')) by auto.
  - intros k' v' pk' Hk' (lt&p&Hl&?). destruct (decide (k' = k)) as [->|Hne]; [congruence|].
    exists lt, p. by rewrite (proj1 (He k' Hne Hk')).
Qed.
Lemma prewrite_writes_only may now k v pk m :
  no_sep k → packable (lock_payload LockStatus.LOCKED pk now v) = true →
  writes_only may m (apply_op now (OPrewrite k v sts pk) m).1.
Proof. intros Hk Hp Hi. destruct (prewrite_keeps now k v pk m Hk Hp Hi) as (?&Hw&_). split; [done|]. auto. Qed.
Lemma rollback_writes_only may now k m :
  no_sep k → writes_only may m (apply_op now (ORollback k sts) m).1.
Proof.
  intros Hk Hi. split; [by apply op_inv|]. destruct (apply_op _ _ _) as [m' r] eqn:Ha. cbn [fst].
  intros k' cts Hk'. unfold wrote. destruct (own_rollback now k m m' r Hi Hk Ha) as [[-> _]|(_&_&He&Hrows)]; [by left|].
  left. destruct (decide (k' = k)) as [->|Hne]; [by rewrite <-Hrows by auto|]. by rewrite <-(proj2 (He k' Hne Hk')) by auto.
Qed.
Lemma commit_writes_only (may : bytes → Z → Prop) now k cts m :
  may k cts → writes_only may m (apply_op now (OCommit k sts cts) m).1.
Proof.
  intros Hm Hi. split; [by apply op_inv|]. destruct (apply_op _ _ _) as [m' r] eqn:Ha. cbn [fst].
  intros k' ct Hk'. unfold wrote. destruct (own_commit_rows now k cts m m' r Ha) as [[_ ->]|[He Hrows]]; [by left|].
  destruct (decide (k' = k)) as [->|Hne]; [|left; by rewrite <-(proj2 (He k' Hne Hk')) by auto].
  destruct (decide (ct = cts)) as [->|Hc]; [by right|left; by rewrite <-Hrows].
Qed.

(** A key that a command does not touch. *)
Lemma elsewhere_settling k0 pk cts (k v : bytes) m m' :
  elsewhere k0 m m' → k ≠ k0 → no_sep k →
  (holds_lock m k v pk → holds_lock m' k v pk) ∧ (settled pk cts m k v → settled pk cts m' k v).
Proof.
  intros He Hne Hk. destruct (He k Hne Hk) as [Hl Hr].
  assert (holds_lock m k v pk → holds_lock m' k v pk) as Hh by (intros (lt&p&?&?); exists lt, p; by rewrite Hl).
  split; [done|]. intros [[Hw Hv] Hlk]. split; [split; unfold wrote in *; by rewrite Hr by auto|].
  rewrite Hl. destruct Hlk; auto.
Qed.
Lemma prewrite_settles pk cts (own : bytes * bytes → Prop) may now k v m :
  (∀ kv, own kv → no_sep kv.1) → (∀ v', own (k, v') → v' = v) → own (k, v) →
  packable (lock_payload LockStatus.LOCKED pk now v) = true →
  settling pk cts own may m (apply_op now (OPrewrite k v sts pk) m).1.
Proof.
  intros Hs Hu Hkv Hp Hi. pose proof (Hs _ Hkv) as Hk. cbn in Hk. split; [by apply op_inv|].
  destruct (apply_op _ _ _) as [m' r] eqn:Ha. cbn [fst]. intros k1 v1 Hk1.
  destruct (own_prewrite now k v pk m m' r Hi Hk Hp Ha) as [[_ ->]|(_&Hnone&Hh&He&Hrows)]; [auto|].
  destruct (decide (k1 = k)) as [->|Hne].
  - rewrite (Hu _ Hk1). assert (¬ holds_lock m k v pk) as Hn by (intros (lt&p&?&_); congruence).
    split_and!; [done|done|]. intros [[Hw Hv] _]. split; [|by right]. split; unfold wrote in *; by rewrite Hrows by auto.
  - destruct (elsewhere_settling k pk cts k1 v1 m m' He Hne (Hs _ Hk1)). auto.
Qed.
Lemma commit_settles pk cts (own : bytes * bytes → Prop) (may : bytes → Prop) now k v m :
  (∀ kv, own kv → no_sep kv.1) → (∀ v', own (k, v') → v' = v) → own (k, v) → may k →
  settling pk cts own may m (apply_op now (OCommit k sts cts) m).1.
Proof.
  intros Hs Hu Hkv Hm Hi. pose proof (Hs _ Hkv) as Hk. cbn in Hk. split; [by apply op_inv|].
  destruct (apply_op _ _ _) as [m' r] eqn:Ha. cbn [fst]. intros k1 v1 Hk1.
  destruct (own_commit_rows now k cts m m' r Ha) as [[_ ->]|[He _]]; [auto|].
  destruct (decide (k1 = k)) as [->|Hne].
  2:{ destruct (elsewhere_settling k pk cts k1 v1 m m' He Hne (Hs _ Hk1)). auto. }
  rewrite (Hu _ Hk1). split_and!; [done|..].
  - intros Hh. destruct (own_commit now k v pk cts m m' r Hi Hk Hh Ha) as [[_ ->]|(_&Hp&Hn&_)]; [by left|].
    right. split; [done|by left].
  - intros [Hp [Hn|Hh]].
    + unfold lock_row in Hn. destruct m as [e last].
      rewrite (no_lock_run now (OCommit k sts cts) k sts e last Hi Hk Hsts Hn) in Ha by eauto. injection Ha as <- _.
      split; [done|by left].
    + destruct (own_commit now k v pk cts m m' r Hi Hk Hh Ha) as [[_ ->]|(_&Hp'&Hn&_)]; (split; [done|]); auto.
Qed.
Lemma holds_lock_value m k v v' pk pk' : holds_lock m k v pk → holds_lock m k v' pk' → v = v'.
Proof.
  intros (lt&p&Hl&Hp) (lt'&p'&Hl'&Hp'). rewrite Hl in Hl'. injection Hl' as <-.
  apply unpackb_packb in Hp, Hp'. rewrite Hp in Hp'. by injection Hp'.
Qed.

(** The rows of the transaction, when a row of another one is written or removed. *)
Lemma others_put m k ts last (ns : byte) raw :
  store_inv (e_put (_storage m) (row_key ns k ts) raw) → no_sep k → valid_ts ts →
  match ns with
  | x04 => ts ≠ sts
  | x03 => entry (_storage m) x03 k ts = None ∧ raw ≠ be_bytes 8 sts
  | _ => entry (_storage m) ns k ts = None
  end →
  others m (mk (e_put (_storage m) (row_key ns k ts) raw) last).
Proof.
  intros Hi Hk Ht Hns. split; cbn [_storage]; [done|..].
  - intros k' Hk'. unfold lock_row. cbn [_storage]. rewrite row_key_put by done. case_decide as Hd; [|done].
    destruct Hd as [-> [-> ->]]. done.
  - intros ns' k' ts' raw' Hk' Hns' He. rewrite row_key_put by done. case_decide as Hd; [|done].
    destruct Hd as [-> [-> ->]]. destruct Hns' as [-> | ->]; cbn in Hns; [congruence|].
    destruct Hns. congruence.
  - intros k' cts Hk'. unfold wrote. cbn [_storage]. rewrite row_key_put by done. case_decide as Hd; [|done].
    destruct Hd as [-> [-> ->]]. cbn in Hns. destruct Hns as [_ Hne]. intros [= Heq]. done.
Qed.

Lemma others_unlock m k ts last :
  store_inv (_storage m) → no_sep k → valid_ts ts → ts ≠ sts →
  others m (mk (e_delete (_storage m) (row_key x04 k ts)) last).
Proof.
  intros Hi Hk Ht Hne. split; cbn [_storage].
  - intros _. by apply store_inv_unlock.
  - intros k' Hk'. unfold lock_row. cbn [_storage]. by rewrite row_key_delete, decide_False by naive_solver.
  - intros ns' k' ts' raw' Hk' Hns' He. rewrite row_key_delete, decide_False by (done || naive_solver). done.
  - intros k' cts Hk'. unfold wrote. cbn [_storage]. by rewrite row_key_delete, decide_False by naive_solver.
Qed.

Lemma valid_ts_bytes s : valid_ts s → s ≠ sts → be_bytes 8 s ≠ be_bytes 8 sts.
Proof. intros Hs Hne Heq. apply be_bytes_inj in Heq; [done|by apply valid_ts_256..]. Qed.

(** A lock command that is not this transaction's: a lock of another one, or nothing. *)
Lemma lock_op_run now o m m' r s :
  apply_op now o m = (m', r) →
  match o with
  | OPrewrite _ _ s' _ | ORollback _ s' | OCleanLock _ (Some s') => s' = s
  | _ => False
  end →
  m' = m ∨
  (∃ k p, no_sep k ∧ valid_ts s ∧ m' = mk (e_put (_storage m) (row_key x04 k s) p) (_last_applied_timestamp m)) ∨
  (∃ k, no_sep k ∧ valid_ts s ∧ m' = mk (e_delete (_storage m) (row_key x04 k s)) (_last_applied_timestamp m)).
Proof.
  intros Hr Ho. unfold apply_op in Hr. rewrite dispatch_op in Hr. destruct m as [e last].
  destruct o as [| |k v s' pk| |k s'|k [s'|]]; try done; subst s';
    match type of Hr with context [let (_, _) := ?x in _] => destruct x as [m1 r1] eqn:Hb end;
    assert (m1 = m') as -> by (destruct r1; by injection Hr as <- <-); clear Hr.
  - unfold _apply_prewrite in Hb. mrun Hb; try (by left). destruct (match _ with Some _ => _ | None => _ end).
    { injection Hb as <- <-. by left. }
    mrun Hb; try (by left). case_match. { injection Hb as <- <-. by left. }
    mrun Hb; try (by left). case_match. { injection Hb as <- <-. by left. }
    mrun Hb; try (by left). injection Hb as <- <-. simplify_eq/=.
    match goal with Hp : put_lock _ _ _ _ _ _ _ = Ok _ |- _ => apply put_lock_Ok in Hp as (?&?&p&_&->) end.
    right. left. by eexists _, p.
  - unfold _apply_rollback in Hb. mrun Hb; try (by left). case_match.
    + mrun Hb; try (by left). injection Hb as <- <-. simplify_eq/=.
      match goal with Hp : remove_lock _ _ _ = Ok _ |- _ => apply remove_lock_Ok in Hp as (?&?&->) end.
      right. right. by eexists.
    + mrun Hb; try (by left). case_match; injection Hb as <- <-; by left.
  - unfold _apply_clean_lock in Hb. mrun Hb; try (by left). case_match; [|injection Hb as <- <-; by left].
    destruct (_ || _) eqn:Hm; [|rewrite bind_ret in Hb; injection Hb as <- <-; by left].
    mrun Hb; try (by left). injection Hb as <- <-. simplify_eq/=.
    unfold py_eq_int in Hm. cbn in Hm. zbool; try done. subst s.
    match goal with Hp : remove_lock _ _ _ = Ok _ |- _ => apply remove_lock_Ok in Hp as (?&?&->) end.
    right. right. by eexists.
Qed.

(** Commands of other transactions are what the other clients may do. *)
Lemma other_op_others now o m :
  store_inv (_storage m) → other_op m o → others m (apply_op now o m).1.
Proof.
  intros Hi Ho. pose proof (sm_step_inv _ _ (apply_op_step now o m) Hi) as Hi'.
  destruct m as [e last]. destruct (apply_op now o (mk e last)) as [m' r] eqn:Hr. cbn [fst] in *.
  destruct o as [k v ts s|k ts|k v s pk|k s cts|k s|k s]; cbn in Ho.
  - destruct Ho as (Hs&Hv1&Hv3&Hok). rewrite apply_set_run in Hr.
    destruct (set e k v ts) as [e1|] eqn:Hset; [|by injection Hr as <- <-].
    apply set_Ok in Hset as (Hk&Ht&->).
    assert (store_inv (e_put e (row_key x01 k ts) (x01 :: v))) as Hi1 by (apply store_inv_version; eauto).
    assert (∀ last', others (mk e last) (mk (e_put e (row_key x01 k ts) (x01 :: v)) last')) as Ho1
      by (intros; by apply (others_put (mk e last))).
    destruct s as [s|]; [|by injection Hr as <- <-].
    destruct (write_write_record _ k s ts) as [e2|] eqn:Hw; [|by injection Hr as <- <-].
    apply write_write_record_Ok in Hw as (_&Hvs&_&->). injection Hr as <- <-.
    etrans; [apply (Ho1 last)|]. apply (others_put (mk _ last)); [done..|]. cbn [_storage].
    split; [by rewrite row_key_put, decide_False by naive_solver|].
    apply valid_ts_bytes; [done|congruence].
  - rewrite apply_delete_run in Hr. destruct (delete e k ts) as [e1|] eqn:Hd; [|by injection Hr as <- <-].
    apply delete_Ok in Hd as (Hk&Ht&->). injection Hr as <- <-. by apply (others_put (mk e last)).
  - eapply (lock_op_run _ _ _ _ _ s) in Hr as [->|[(k'&p&Hk&Hv&->)|(k'&Hk&Hv&->)]]; [done| |by apply others_unlock|done].
    by apply (others_put (mk e last)).
  - destruct Ho as (Hs&Hvs&Hv1&Hv3). apply commit_effect in Hr as [[-> _]|(_&Hk&Hc&v&->)]; [done|].
    assert (store_inv (e_put e (row_key x01 k cts) (x01 :: v))) as Hi1 by (apply store_inv_version; eauto).
    etrans; [by apply (others_put (mk e last) k cts last x01 (x01 :: v))|].
    etrans; [apply (others_put (mk _ last) k cts last x03 (be_bytes 8 s)); [|done..|]|].
    + apply store_inv_record; [done..|]. cbn [_storage]. rewrite row_key_put, decide_True by done. by eexists.
    + cbn [_storage]. split; [by rewrite row_key_put, decide_False by naive_solver|by apply valid_ts_bytes].
    + apply (others_unlock (mk _ last)); [|done..]. cbn [_storage].
      apply store_inv_record; [done..|]. rewrite row_key_put, decide_True by done. by eexists.
  - eapply (lock_op_run _ _ _ _ _ s) in Hr as [->|[(k'&p&Hk&Hv&->)|(k'&Hk&Hv&->)]]; [done| |by apply others_unlock|done].
    by apply (others_put (mk e last)).
  - destruct s as [s|]; [|done].
    eapply (lock_op_run _ _ _ _ _ s) in Hr as [->|[(k'&p&Hk&Hv&->)|(k'&Hk&Hv&->)]]; [done| |by apply others_unlock|done].
    by apply (others_put (mk e last)).
Qed.
End shard.

(** ** One transaction on a cluster *)

Definition serial `{!Msgpack} (o : op) : result bytes := serialize_command (op_type o) (op_kwargs o).

(** What a client relies on, for the transaction that started at [sts]: [machine w s] is the
    machine of shard [s], and [unanswered w s] are the commands this client has proposed to
    the shard and knows no outcome of: the answer was a refusal or nothing, and the command
    may still be applied, once or more often, at any time.  Between and during the client's
    calls other clients do what [others] allows and unanswered commands are applied; the
    placement does not change.  A proposal that is answered with success was applied, with
    that answer; any other proposal was applied and refused, was not applied, or is
    unanswered. *)
Definition settles {E} `{EngineLaws E} `{!Msgpack} (sts : Z) (l : list bytes) : relation (MVCCStateMachine.t E) :=
  rtc (λ m m', others sts m m' ∨ ∃ now b, b ∈ l ∧ m' = (apply now b m).1).

Class ShardsLaws (W C E : Type) `{Shards W C} `{EngineLaws E} `{!Msgpack} (sts : Z) := {
  machine : W → Z → MVCCStateMachine.t E;
  unanswered : W → Z → list bytes;
  drift (w w' : W) : Prop :=
    (∀ k, sh_shard_for_key k w' = sh_shard_for_key k w) ∧
    ∀ s, unanswered w' s = unanswered w s ∧ settles sts (unanswered w s) (machine w s) (machine w' s);
  leader_drift s w w' r : sh_leader s w = (w', r) → drift w w';
  record_drift c k w w' r : sh_get_write_record c k w = (w', r) → drift w w';
  timestamp_drift w w' r : sh_get_timestamp w = (w', r) → drift w w';
  propose_applies s b w w' r : sh_propose s b w = (w', r) →
    (∀ k, sh_shard_for_key k w' = sh_shard_for_key k w) ∧
    (∀ s', s' ≠ s → unanswered w' s' = unanswered w s' ∧
       settles sts (unanswered w s') (machine w s') (machine w' s')) ∧
    unanswered w s ⊆ unanswered w' s ∧ unanswered w' s ⊆ b :: unanswered w s ∧
    ((settles sts (unanswered w' s) (machine w s) (machine w' s) ∧
      ∀ res, r = Ok (Some res) → ar_success res = false) ∨
     (∃ now m res, settles sts (unanswered w' s) (machine w s) m ∧
        settles sts (unanswered w' s) (apply now b m).1 (machine w' s) ∧
        r = Ok (Some res) ∧ ar_success res = ar_success (apply now b m).2))
}.

Section cluster.
Context {W C E : Type} `{Shards W C} `{EngineLaws E} `{!Msgpack}.
Context (sts : Z) (Hsts : valid_ts sts) `{!ShardsLaws W C E sts}.
Import TransactionCoordinator.
Implicit Types (w : W) (x : Transaction) (P : Z → op → Prop) (R : Z → relation (MVCCStateMachine.t E)).

Definition good w : Prop := ∀ s, store_inv (_storage (machine w s)).
(** Nothing of the transaction is published, on any shard. *)
Definition unwritten w : Prop := ∀ s k cts, no_sep k → ¬ wrote sts (machine w s) k cts.
Definition placed w w' : Prop := ∀ k, sh_shard_for_key k w' = sh_shard_for_key k w.
(** The unanswered commands are of the kind [P]. *)
Definition pend P w : Prop := ∀ s b, b ∈ unanswered w s → ∃ o, serial o = Ok b ∧ P s o.

(** A relation between the states of a shard's machine that holds over whatever other
    clients do and over every command of the kind [P]. *)
Record absorbs P R : Prop := {
  ab_pre s :: PreOrder (R s);
  ab_others s m m' : others sts m m' → R s m m';
  ab_op s now o m : P s o → R s m (apply_op now o m).1
}.
(** The client went from [w] to [w'] with commands of that kind. *)
Record via P R w w' : Prop := {
  vi_placed : placed w w';
  vi_more s : unanswered w s ⊆ unanswered w' s;
  vi_pend : pend P w → pend P w';
  vi_rel : pend P w → ∀ s, R s (machine w s) (machine w' s)
}.
Lemma via_refl P R w : absorbs P R → via P R w w.
Proof. intros Ha. split; [done..|]. intros _ s. by apply (ab_pre _ _ Ha). Qed.
Lemma via_trans P R w1 w2 w3 : absorbs P R → via P R w1 w2 → via P R w2 w3 → via P R w1 w3.
Proof.
  intros Ha [A1 B1 C1 D1] [A2 B2 C2 D2]. split; [intros k; by rewrite A2, A1|set_solver|auto|].
  intros Hp s. pose proof (ab_pre _ _ Ha s). etrans; [by apply D1|by apply D2, C1].
Qed.
Lemma pend_mono P P' w : (∀ s o, P s o → P' s o) → pend P w → pend P' w.
Proof. intros Hm Hp s b Hb. destruct (Hp s b Hb) as (o&?&?). eauto. Qed.

Lemma settles_absorbed P R s l m m' :
  absorbs P R → (∀ b, b ∈ l → ∃ o, serial o = Ok b ∧ P s o) → settles sts l m m' → R s m m'.
Proof.
  intros Ha Hl. pose proof (ab_pre _ _ Ha s) as Hpre. induction 1 as [|m1 m2 m3 Hs _ IH]; [done|]. etrans; [|done].
  destruct Hs as [?|(now&b&Hb&->)]; [by apply (ab_others _ _ Ha)|]. destruct (Hl b Hb) as (o&Ho&HP).
  rewrite (apply_serialized now o b m1 Ho). by apply (ab_op _ _ Ha).
Qed.
Lemma drift_via P R w w' : absorbs P R → drift w w' → via P R w w'.
Proof.
  intros Ha [Hp Hs]. split; [done|..].
  - intros s. by rewrite (proj1 (Hs s)).
  - intros Hpend s b. rewrite (proj1 (Hs s)). apply Hpend.
  - intros Hpend s. eapply settles_absorbed; [done|apply (Hpend s)|apply Hs].
Qed.

(** A proposal of a command of the kind.  If it is answered with success it was applied. *)
Lemma propose_own P R s o w w' r :
  absorbs P R → P s o → _propose_to s o w = (w', r) →
  via P R w w' ∧ (pend P w → ∀ res, r = Ok (Some res) → ar_success res = true →
    ∃ now m m' rm, R s (machine w s) m ∧ apply_op now o m = (m', rm) ∧ ar_success rm = true ∧
      R s m' (machine w' s)).
Proof.
  intros Ha HP Hr. unfold _propose_to, bind, reads in Hr. fold (serial o) in Hr.
  destruct (serial o) as [b|e] eqn:Hb; [|injection Hr as <- <-; by split; [apply via_refl|]].
  apply propose_applies in Hr as (Hpl&Hoth&Hmore&Hless&Hcase).
  assert (pend P w → ∀ b', b' ∈ unanswered w' s → ∃ o', serial o' = Ok b' ∧ P s o') as Hl.
  { intros Hp b' [->|?]%Hless%elem_of_cons; [by exists o|by apply Hp]. }
  pose proof (ab_pre _ _ Ha s) as Hpre. split; [split|].
  - done.
  - intros s'. destruct (decide (s' = s)) as [->|Hne]; [done|by rewrite (proj1 (Hoth s' Hne))].
  - intros Hp s' b'. destruct (decide (s' = s)) as [->|Hne]; [by apply Hl|].
    rewrite (proj1 (Hoth s' Hne)). apply Hp.
  - intros Hp s'. destruct (decide (s' = s)) as [->|Hne].
    2:{ eapply settles_absorbed; [done|apply (Hp s')|by apply Hoth]. }
    destruct Hcase as [[Hs _]|(now&m&res&Q1&Q2&_)]; [by eapply settles_absorbed; [done|apply Hl|]|].
    rewrite (apply_serialized now o b m Hb) in Q2.
    etrans; [by eapply settles_absorbed; [done|apply Hl|apply Q1]|].
    etrans; [by apply (ab_op _ _ Ha _ now o)|]. by eapply settles_absorbed; [done|apply Hl|].
  - intros Hp res -> Hok. destruct Hcase as [[_ Hf]|(now&m&res'&Q1&Q2&[= <-]&He)].
    { by rewrite (Hf _ eq_refl) in Hok. }
    rewrite (apply_serialized now o b m Hb) in Q2, He. destruct (apply_op now o m) as [m' rm] eqn:Hm.
    exists now, m, m', rm. split_and!; [|done|cbn in He; congruence|]; (eapply settles_absorbed; [done|by apply Hl|done]).
Qed.

(** A proposal that is not answered with success, of a command that changes nothing when it
    is refused, is unanswered, or did nothing. *)
Lemma propose_refused P R s o b w w' r :
  absorbs P R → serial o = Ok b →
  (∀ now m m' rm, apply_op now o m = (m', rm) → ar_success rm = false → m' = (m : MVCCStateMachine.t E)) →
  _propose_to s o w = (w', r) → (∀ res, r = Ok (Some res) → ar_success res = false) →
  b ∈ unanswered w' s ∨ via P R w w'.
Proof.
  intros Ha Hb Hno Hr Hf. unfold _propose_to, bind, reads in Hr. fold (serial o) in Hr. rewrite Hb in Hr.
  apply propose_applies in Hr as (Hpl&Hoth&Hmore&Hless&Hcase).
  destruct (decide (b ∈ unanswered w' s)) as [|Hn]; [by left|right].
  assert (∀ b', b' ∈ unanswered w' s → b' ∈ unanswered w s) as Hsame.
  { intros b' Hb'. by destruct (proj1 (elem_of_cons _ _ _) (Hless _ Hb')) as [->|]. }
  pose proof (ab_pre _ _ Ha s) as Hpre. split.
  - done.
  - intros s'. destruct (decide (s' = s)) as [->|Hne]; [done|by rewrite (proj1 (Hoth s' Hne))].
  - intros Hp s' b'. destruct (decide (s' = s)) as [->|Hne]; [by intros ?%Hsame; apply Hp|].
    rewrite (proj1 (Hoth s' Hne)). apply Hp.
  - intros Hp s'. destruct (decide (s' = s)) as [->|Hne].
    2:{ eapply settles_absorbed; [done|apply (Hp s')|by apply Hoth]. }
    assert (∀ b', b' ∈ unanswered w' s → ∃ o', serial o' = Ok b' ∧ P s o') as Hl by (intros b' ?%Hsame; by apply Hp).
    destruct Hcase as [[Hs _]|(now&m&res&Q1&Q2&->&He)]; [by eapply settles_absorbed|].
    rewrite (apply_serialized now o b m Hb) in Q2, He. rewrite (Hf _ eq_refl) in He. destruct (apply_op now o m) as [m' rm] eqn:Hm.
    cbn in *. rewrite (Hno now m m' rm Hm (eq_sym He)) in Q2.
    etrans; by eapply settles_absorbed.
Qed.

(** The shards of the groups, and their keys. *)
Definition in_groups (g : list (Z * list (bytes * bytes))) (s : Z) (kv : bytes * bytes) : Prop :=
  ∃ kvs, (s, kvs) ∈ g ∧ kv ∈ kvs.

Lemma elem_of_remove {A} (l : list A) i y z : l !! i = Some y → z ∈ l → z = y ∨ z ∈ take i l ++ drop (S i) l.
Proof.
  intros Hi Hz. rewrite <-(take_drop_middle l i y Hi) in Hz. set_solver.
Qed.
Lemma elem_of_remove_2 {A} (l : list A) i z : z ∈ take i l ++ drop (S i) l → z ∈ l.
Proof.
  intros [Hz|Hz]%elem_of_app.
  - rewrite <-(take_drop i l). apply elem_of_app. by left.
  - rewrite <-(take_drop (S i) l). apply elem_of_app. by right.
Qed.

Lemma rounds_remove (g : list (Z * list (bytes * bytes))) i th :
  g !! i = Some th → rounds g = (S (length th.2) + rounds (take i g ++ drop (S i) g))%nat.
Proof.
  intros Hi. rewrite <-(take_drop_middle g i th Hi) at 1. unfold rounds.
  rewrite !sum_list_with_app. cbn. lia.
Qed.
Lemma rounds_insert (g : list (Z * list (bytes * bytes))) i s kv kvs :
  g !! i = Some (s, kv :: kvs) → rounds g = S (rounds (<[i := (s, kvs)]> g)).
Proof.
  intros Hi. rewrite (rounds_remove g i _ Hi). cbn [snd length].
  assert (<[i := (s, kvs)]> g !! i = Some (s, kvs)) as Hi' by (apply list_lookup_insert_eq; by eapply lookup_lt_Some).
  rewrite (rounds_remove _ i _ Hi'). cbn [snd]. rewrite take_insert_ge, drop_insert_lt by lia. lia.
Qed.

(** A thread that took one of its keys. *)
Lemma in_groups_insert (g : list (Z * list (bytes * bytes))) i s kv kvs s' kv' :
  g !! i = Some (s, kv :: kvs) →
  in_groups g s' kv' ↔ (s', kv') = (s, kv) ∨ in_groups (<[i := (s, kvs)]> g) s' kv'.
Proof.
  intros Hi. pose proof (lookup_lt_Some _ _ _ Hi) as Hlt. unfold in_groups.
  setoid_rewrite list_elem_of_lookup at 1 3. split.
  - intros (kvs'&[j Hj]&Hkv). destruct (decide (j = i)) as [->|Hji].
    + rewrite Hi in Hj. injection Hj as <- <-. apply elem_of_cons in Hkv as [->|?]; [by left|right].
      exists kvs. split; [|done]. exists i. by apply list_lookup_insert_eq.
    + right. exists kvs'. split; [|done]. exists j. by rewrite list_lookup_insert_ne.
  - intros [[= -> ->]|(kvs'&[j Hj]&Hkv)]; [exists (kv :: kvs); split; [by exists i|by left]|].
    destruct (decide (j = i)) as [->|Hji].
    + rewrite list_lookup_insert_eq in Hj by done. injection Hj as <- <-.
      exists (kv :: kvs). split; [by exists i|by right].
    + rewrite list_lookup_insert_ne in Hj by done. exists kvs'. split; [by exists j|done].
Qed.

Lemma in_groups_cons s1 kvs1 (g : list (Z * list (bytes * bytes))) s kv :
  in_groups ((s1, kvs1) :: g) s kv ↔ (s = s1 ∧ kv ∈ kvs1) ∨ in_groups g s kv.
Proof.
  unfold in_groups. split.
  - intros (kvs&[[= -> ->]|?]%elem_of_cons&?); [by left|right; eauto].
  - intros [[-> ?]|(kvs&?&?)]; [exists kvs1|exists kvs]; (split; [|done]); [by left|by right].
Qed.
Lemma in_groups_nil s kv : ¬ in_groups [] s kv.
Proof. by intros (?&?%elem_of_nil&_). Qed.

Lemma in_groups_add (g : list (Z * list (bytes * bytes))) s0 kv0 s kv :
  in_groups (d_set g s0 (default [] (d_get g s0) ++ [kv0])) s kv ↔
  in_groups g s kv ∨ (kv = kv0 ∧ s = s0).
Proof.
  induction g as [|[s1 kvs1] g IH]; cbn [d_set d_get].
  - rewrite in_groups_cons. cbn. rewrite list_elem_of_singleton. tauto.
  - case_decide as Hd.
    + subst. rewrite !in_groups_cons. cbn. rewrite elem_of_app, list_elem_of_singleton. tauto.
    + rewrite !in_groups_cons, IH. tauto.
Qed.

Lemma group_keys_spec ks : ∀ g w w' r,
  group_keys ks g w = (w', r) → w' = w ∧ ∀ g', r = Ok g' →
    (∀ s kv, in_groups g' s kv ↔ in_groups g s kv ∨ (kv ∈ ks ∧ sh_shard_for_key kv.1 w = Some s)) ∧
    ∀ kv, kv ∈ ks → is_Some (sh_shard_for_key kv.1 w).
Proof.
  induction ks as [|[k v] ks IH]; intros g w w' r Hr; cbn [group_keys] in Hr.
  - injection Hr as <- <-. split; [done|]. intros g' [= <-]. split; [|by intros ? ?%elem_of_nil].
    intros s kv. split; [by left|]. intros [?|[Hin _]]; [done|]. by apply elem_of_nil in Hin.
  - unfold bind, _get_shard_id in Hr. destruct (sh_shard_for_key k w) as [s0|] eqn:Hs.
    2:{ by injection Hr as <- <-. }
    apply IH in Hr as [-> Hg]. split; [done|]. intros g' Hg'. destruct (Hg g' Hg') as [Hin Hsome]. split.
    + intros s kv. rewrite Hin, in_groups_add, elem_of_cons. split.
      * intros [[?|[-> ->]]|[??]]; auto.
      * intros [?|[[->|?] Hsh]]; [auto| |auto]. cbn in Hsh. rewrite Hs in Hsh. injection Hsh as ->. auto.
    + intros kv [->|?]%elem_of_cons; [by eexists|auto].
Qed.

(** *** The kinds of commands of a transaction *)

Section kinds.
Context (g : list (Z * list (bytes * bytes))) (pk : bytes).

(** The keys of a transaction that a shard takes. *)
Definition takes (kv : bytes * bytes) : Prop :=
  no_sep kv.1 ∧ ∀ now, packable (lock_payload LockStatus.LOCKED pk now kv.2) = true.
Definition legal_groups : Prop := ∀ s kv, in_groups g s kv → takes kv.
Definition one_value : Prop := ∀ s k v v', in_groups g s (k, v) → in_groups g s (k, v') → v = v'.

(** PREWRITEs; then ROLLBACKs, and some COMMITs; or PREWRITEs and the COMMITs of some keys. *)
Definition prewrites (s : Z) (o : op) : Prop := ∃ k v, in_groups g s (k, v) ∧ o = OPrewrite k v sts pk.
Definition undoes (may : Z → bytes → Z → Prop) (s : Z) (o : op) : Prop :=
  prewrites s o ∨ (∃ k v, in_groups g s (k, v) ∧ o = ORollback k sts) ∨
  (∃ k cts, may s k cts ∧ o = OCommit k sts cts).
Definition commits (cts : Z) (may : bytes → Prop) (s : Z) (o : op) : Prop :=
  prewrites s o ∨ ∃ k v, in_groups g s (k, v) ∧ may k ∧ o = OCommit k sts cts.

Context (Hl : legal_groups).
Lemma prewrites_absorbed : absorbs prewrites (λ _, keeps_locks sts).
Proof.
  split; [apply _|intros _; apply others_keeps_locks|]. intros s now o m (k&v&Hin&->).
  destruct (Hl _ _ Hin) as [??]. by apply prewrite_keeps.
Qed.
Lemma undoes_absorbed may : absorbs (undoes may) (λ s, writes_only sts (may s)).
Proof.
  split; [apply _|intros s; apply others_writes_only|].
  intros s now o m [(k&v&Hin&->)|[(k&v&Hin&->)|(k&cts&Hm&->)]].
  - destruct (Hl _ _ Hin) as [??]. by apply prewrite_writes_only.
  - destruct (Hl _ _ Hin) as [??]. by apply rollback_writes_only.
  - by apply commit_writes_only.
Qed.
Lemma commits_absorbed cts may : one_value →
  absorbs (commits cts may) (λ s, settling sts pk cts (in_groups g s) may).
Proof.
  intros Hu. assert (∀ s kv, in_groups g s kv → no_sep kv.1) as Hs by (intros s kv Hin; by apply Hl in Hin as [??]).
  split; [apply _|intros s m m'; by apply others_settling, Hs|].
  intros s now o m [(k&v&Hin&->)|(k&v&Hin&Hm&->)].
  - destruct (Hl _ _ Hin) as [_ ?]. apply prewrite_settles; eauto.
  - apply commit_settles with v; eauto.
Qed.

Lemma prewrites_keep w w' : pend prewrites w → via prewrites (λ _, keeps_locks sts) w w' → good w →
  good w' ∧ (unwritten w → unwritten w') ∧
  ∀ s k v pk', no_sep k → holds_lock sts (machine w s) k v pk' → holds_lock sts (machine w' s) k v pk'.
Proof.
  intros Hp Hv Hg. pose proof (vi_rel _ _ _ _ Hv Hp) as Hr.
  split; [intros s; by apply (Hr s)|]. split; [|intros s k v pk' Hk; by apply (Hr s)].
  intros Hu s k cts Hk Hw. apply (Hu s k cts Hk). by apply (Hr s).
Qed.

(** *** Prewriting *)

Lemma prewrite_key_spec x s kv w w' r :
  start_ts x = sts → primary x = pk → pend prewrites w → good w → in_groups g s kv →
  catch (prewrite_key x s kv) false w = (w', r) →
  via prewrites (λ _, keeps_locks sts) w w' ∧ ∃ ok, r = Ok ok ∧
    (ok = true → holds_lock sts (machine w' s) kv.1 kv.2 pk).
Proof.
  intros Hx Hpk Hp Hg Hin Hr. unfold catch, prewrite_key, bind in Hr. rewrite Hx, Hpk in Hr.
  destruct (_propose_to _ _ w) as [w1 r1] eqn:Hpr. destruct (Hl _ _ Hin) as [Hk Hpack].
  assert (prewrites s (OPrewrite kv.1 kv.2 sts pk)) as Hkind by (exists kv.1, kv.2; by destruct kv).
  pose proof (propose_own _ _ s _ w w1 r1 prewrites_absorbed Hkind Hpr) as [Hv Hok].
  assert (w1 = w') as -> by (destruct r1; by injection Hr). split; [done|].
  destruct r1 as [[res|]|e]; injection Hr as <-; (eexists; split; [done|]); [|done..]. cbn [succeeded].
  intros Hs. destruct (Hok Hp res eq_refl Hs) as (now&m&m'&rm&R1&Ha&Hrm&R2).
  destruct (R1 (Hg s)) as [Hi _].
  destruct (own_prewrite sts Hsts now kv.1 kv.2 pk m m' rm Hi Hk (Hpack now) Ha) as [[? _]|(_&_&Hh&_)]; [congruence|].
  apply R2; [|done|done]. pose proof (op_inv now (OPrewrite kv.1 kv.2 sts pk) m Hi) as Hi'. by rewrite Ha in Hi'.
Qed.

Lemma run_threads_spec x (Hx : start_ts x = sts) (Hpk : primary x = pk) : ∀ fuel sched th w w' r,
  (rounds th ≤ fuel)%nat → pend prewrites w → good w → (∀ s kv, in_groups th s kv → in_groups g s kv) →
  run_threads fuel sched x th w = (w', r) →
  via prewrites (λ _, keeps_locks sts) w w' ∧ ∃ rs, r = Ok rs ∧
    (forallb id rs = true → ∀ s kv, in_groups th s kv → holds_lock sts (machine w' s) kv.1 kv.2 pk).
Proof.
  induction fuel as [|fuel IH]; intros sched th w w' r Hf Hp Hg Hsub Hr; cbn [run_threads] in Hr.
  { injection Hr as <- <-. split; [apply via_refl, prewrites_absorbed|]. exists []. split; [done|].
    intros _ s kv (kvs&Hin&_). destruct th; [by apply elem_of_nil in Hin|]. cbn in Hf. lia. }
  set (i := (_ mod _)%nat) in Hr. destruct (th !! i) as [[s kvs]|] eqn:Hi.
  2:{ injection Hr as <- <-. split; [apply via_refl, prewrites_absorbed|]. exists []. split; [done|].
      intros _ s kv (kvs&Hin&_). destruct th as [|e th]; [by apply elem_of_nil in Hin|]. apply lookup_ge_None in Hi.
      pose proof (Nat.mod_upper_bound (default 0%nat (head sched)) (length (e :: th)) ltac:(done)). lia. }
  assert (∀ s' kv, in_groups (take i th ++ drop (S i) th) s' kv → in_groups g s' kv) as Hsub'.
  { intros s' kv (kvs'&Hin&?). apply Hsub. exists kvs'. split; [by eapply elem_of_remove_2|done]. }
  destruct kvs as [|kv kvs].
  - pose proof (rounds_remove th i _ Hi) as Hrd. cbn [snd length] in Hrd.
    unfold bind in Hr. destruct (run_threads fuel _ x _ w) as [w1 r1] eqn:Hrun.
    apply IH in Hrun as (Hk&rs&->&Hall); [|lia|done..]. injection Hr as <- <-.
    split; [done|]. exists (true :: rs). split; [done|]. cbn. intros Hrs s' kv (kvs'&Hin&Hkv).
    destruct (elem_of_remove th i _ _ Hi Hin) as [[= -> ->]|Hin']; [by apply elem_of_nil in Hkv|].
    apply Hall; [done|]. by exists kvs'.
  - assert (in_groups th s kv) as Hkv by (exists (kv :: kvs); split; [by eapply list_elem_of_lookup_2|by left]).
    unfold bind at 1 in Hr. destruct (catch _ false w) as [w1 r1] eqn:Hc.
    apply (prewrite_key_spec x s kv) in Hc as (Hk1&ok&->&Hok); [|by auto..].
    pose proof (vi_pend _ _ _ _ Hk1 Hp) as Hp1. destruct (prewrites_keep _ _ Hp Hk1 Hg) as [Hg1 _]. destruct ok.
    + pose proof (rounds_insert th i _ _ _ Hi) as Hrd. pose proof (in_groups_insert th i s kv kvs) as Hin.
      apply IH in Hr as (Hk2&rs&->&Hall); [|lia|done|done|].
      * split; [by eapply via_trans; [apply prewrites_absorbed|..]|]. exists rs. split; [done|].
        intros Hrs s' kv' [[= -> ->]|Hin']%(Hin _ _ Hi); [|by apply Hall].
        apply (prewrites_keep _ _ Hp1 Hk2 Hg1); [by apply (Hl s), Hsub|by apply Hok].
      * intros s' kv' Hin'. apply Hsub, (Hin _ _ Hi). by right.
    + pose proof (rounds_remove th i _ Hi) as Hrd. unfold bind in Hr.
      destruct (run_threads fuel _ x _ w1) as [w2 r2] eqn:Hrun.
      apply IH in Hrun as (Hk2&rs&->&_); [|lia|done..]. injection Hr as <- <-.
      split; [by eapply via_trans; [apply prewrites_absorbed|..]|]. exists (false :: rs). done.
Qed.

(** *** Calls that propose nothing *)

Lemma all_led_via P R ss : absorbs P R → ∀ w w' r, all_led ss w = (w', r) → via P R w w'.
Proof.
  intros Ha. induction ss as [|s ss IH]; intros w w' r Hr; cbn [all_led] in Hr; [injection Hr as <- <-; by apply via_refl|].
  unfold bind in Hr. destruct (sh_leader s w) as [w1 r1] eqn:Hled. apply leader_drift, (drift_via _ _ _ _ Ha) in Hled.
  destruct r1 as [[c|]|e]; [|by injection Hr as <- <-..]. eapply via_trans; [done..|by eapply IH].
Qed.

Lemma validate_via P R ts ks : absorbs P R → ∀ w w' r, validate_keys ts ks w = (w', r) → via P R w w'.
Proof.
  intros Ha. induction ks as [|k ks IH]; intros w w' r Hr; cbn [validate_keys] in Hr; [injection Hr as <- <-; by apply via_refl|].
  unfold bind, _get_shard_id in Hr. destruct (sh_shard_for_key k w) as [s|]; [|injection Hr as <- <-; by apply via_refl].
  destruct (sh_leader s w) as [w1 r1] eqn:Hled. apply leader_drift, (drift_via _ _ _ _ Ha) in Hled.
  destruct r1 as [[c|]|e]; [|by injection Hr as <- <-..].
  destruct (sh_get_write_record c k w1) as [w2 r2] eqn:Hw. apply record_drift, (drift_via _ _ _ _ Ha) in Hw.
  assert (via P R w w2) as Hv2 by (by eapply via_trans).
  destruct r2 as [[rec|]|e]; [|by eapply via_trans; [done..|eapply IH]|by injection Hr as <- <-].
  destruct (_ >? _); [by injection Hr as <- <-|]. eapply via_trans; [done..|by eapply IH].
Qed.

(** *** Rolling back *)

Lemma rollback_keys_via may x s ks : ∀ w w' r,
  start_ts x = sts → (∀ kv, kv ∈ ks → in_groups g s kv) → rollback_keys x s ks w = (w', r) →
  via (undoes may) (λ s, writes_only sts (may s)) w w'.
Proof.
  induction ks as [|[k v] ks IH]; intros w w' r Hx Hk Hr; cbn [rollback_keys] in Hr.
  { injection Hr as <- <-. apply via_refl, undoes_absorbed. }
  unfold bind in Hr. destruct (_propose_to _ _ w) as [w1 r1] eqn:Hp. rewrite Hx in Hp.
  apply (propose_own (undoes may) _ _ _ _ _ _ (undoes_absorbed may)) in Hp as [Hp _].
  2:{ right. left. exists k, v. split; [apply Hk; by left|done]. }
  destruct r1; [|by injection Hr as <- <-]. eapply via_trans; [apply undoes_absorbed|done|]. eapply IH; [done| |done].
  intros kv Hin. apply Hk. by right.
Qed.
Lemma rollback_all_via may x th : ∀ w w' r,
  start_ts x = sts → (∀ s kv, in_groups th s kv → in_groups g s kv) →
  _rollback_all_shards x th w = (w', r) → via (undoes may) (λ s, writes_only sts (may s)) w w'.
Proof.
  induction th as [|[s ks] th IH]; intros w w' r Hx Hk Hr; cbn [_rollback_all_shards] in Hr.
  { injection Hr as <- <-. apply via_refl, undoes_absorbed. }
  unfold bind in Hr. destruct (rollback_keys _ _ _ w) as [w1 r1] eqn:Hp.
  apply (rollback_keys_via may) in Hp; [|done|].
  2:{ intros kv Hin. apply Hk. apply in_groups_cons. by left. }
  destruct r1; [|by injection Hr as <- <-]. eapply via_trans; [apply undoes_absorbed|done|]. eapply IH; [done| |done].
  intros s' kv Hin. apply Hk. apply in_groups_cons. by right.
Qed.

(** What is written after commands that undo. *)
Lemma undone_writes may w w' : pend prewrites w → good w → unwritten w →
  via (undoes may) (λ s, writes_only sts (may s)) w w' →
  ∀ s k cts, no_sep k → wrote sts (machine w' s) k cts → may s k cts.
Proof.
  intros Hp Hg Hu Hv s k cts Hk Hw.
  assert (pend (undoes may) w) as Hp' by (eapply pend_mono; [|exact Hp]; by left).
  destruct (vi_rel _ _ _ _ Hv Hp' s (Hg s)) as [_ Hwr].
  destruct (Hwr k cts Hk Hw) as [Hw'|]; [|done]. by destruct (Hu s k cts Hk).
Qed.
Lemma prewrite_all_spec sched x w w' r :
  start_ts x = sts → primary x = pk → pend prewrites w → good w → unwritten w →
  _prewrite_all_shards sched x g w = (w', r) →
  placed w w' ∧ unwritten w' ∧ (r = Ok true → pend prewrites w' ∧ good w' ∧
    ∀ s kv, in_groups g s kv → holds_lock sts (machine w' s) kv.1 kv.2 pk).
Proof.
  intros Hx Hpk Hp Hg Hu Hr. unfold _prewrite_all_shards, bind in Hr.
  destruct (all_led _ w) as [w1 r1] eqn:Hled. apply (all_led_via _ _ _ prewrites_absorbed) in Hled.
  destruct (prewrites_keep _ _ Hp Hled Hg) as (Hg1&Hu1&_). pose proof (vi_pend _ _ _ _ Hled Hp) as Hp1.
  pose proof (vi_placed _ _ _ _ Hled) as Hpl1.
  destruct r1 as [[]|]; cbn [negb] in Hr; [|injection Hr as <- <-; by split_and!; auto..].
  destruct (run_threads _ _ x g w1) as [w2 r2] eqn:Hrun.
  apply run_threads_spec in Hrun as (Hk2&rs&->&Hall); [|by auto..].
  destruct (prewrites_keep _ _ Hp1 Hk2 Hg1) as (Hg2&Hu2&_). pose proof (vi_pend _ _ _ _ Hk2 Hp1) as Hp2.
  assert (placed w w2) as Hpl2 by (intros k; by rewrite (vi_placed _ _ _ _ Hk2), Hpl1).
  destruct (forallb id rs).
  - injection Hr as <- <-. split_and!; auto.
  - destruct (_rollback_all_shards x g w2) as [w3 r3] eqn:Hrb.
    apply (rollback_all_via (λ _ _ _, False)) in Hrb; [|by auto..].
    assert (w3 = w' ∧ r ≠ Ok true) as [-> Hr'] by (destruct r3; by injection Hr as <- <-).
    split_and!; [|intros s k cts Hk Hw; by apply (undone_writes _ _ _ Hp2 Hg2 (Hu2 (Hu1 Hu)) Hrb s k cts Hk)|done].
    intros k. by rewrite (vi_placed _ _ _ _ Hrb), Hpl2.
Qed.
End kinds.

Definition legal x (kv : bytes * bytes) : Prop := takes (primary x) kv.
(** What a commit that did not answer yes may have left: the primary's COMMIT, unanswered. *)
Definition only_unanswered x w : Prop := ∀ s k cts, no_sep k → wrote sts (machine w s) k cts →
  k = primary x ∧ ∃ b, serial (OCommit k sts cts) = Ok b ∧ b ∈ unanswered w s.
(** What holds when the commit point has been passed. *)
Record committed x cts w : Prop := {
  cm_primary : ∃ s v, sh_shard_for_key (primary x) w = Some s ∧ (primary x, v) ∈ keys x ∧
    published sts (machine w s) (primary x) v cts;
  cm_secondary k v : (k, v) ∈ keys x → k ≠ primary x → ∃ s, sh_shard_for_key k w = Some s ∧
    holds_lock sts (machine w s) k v (primary x)
}.

(** *** Committing one key *)

(** The transaction's keys are prewritten on the shards of [g], and nothing but PREWRITEs is
    unanswered. *)
Record prewritten g pk w : Prop := {
  pr_legal : legal_groups g pk;
  pr_pend : pend (prewrites g pk) w;
  pr_good : good w;
  pr_held s kv : in_groups g s kv → holds_lock sts (machine w s) kv.1 kv.2 pk
}.
Lemma prewritten_one_value g pk w : prewritten g pk w → one_value g.
Proof.
  intros Hp s k v v' H1' H2'. by apply (holds_lock_value sts (machine w s) k v v' pk pk);
    [apply (pr_held _ _ _ Hp s (k, v))|apply (pr_held _ _ _ Hp s (k, v'))].
Qed.
Lemma prewritten_via g pk w w' :
  prewritten g pk w → via (prewrites g pk) (λ _, keeps_locks sts) w w' → prewritten g pk w'.
Proof.
  intros [Hl Hp Hg Hh] Hv. destruct (prewrites_keep g pk w w' Hp Hv Hg) as (?&_&Hk).
  split; [done|by apply (vi_pend _ _ _ _ Hv)|done|]. intros s kv Hin. apply Hk; [by apply (Hl s)|by apply Hh].
Qed.

Lemma commit_refused_same now k cts (m m' : MVCCStateMachine.t E) rm :
  apply_op now (OCommit k sts cts) m = (m', rm) → ar_success rm = false → m' = m.
Proof. intros [[-> _]|(->&_)]%commit_effect; [done|]. by intros. Qed.

(** A proposal of a key's commit while nothing is unanswered but PREWRITEs and commits. *)
Lemma commit_key_spec g pk cts (may : bytes → Prop) s k v w w' r :
  legal_groups g pk → one_value g → pend (commits g pk cts may) w → good w →
  in_groups g s (k, v) → may k → holds_lock sts (machine w s) k v pk ∨ settled sts pk cts (machine w s) k v →
  _commit_key s k sts cts w = (w', r) →
  via (commits g pk cts may) (λ s, settling sts pk cts (in_groups g s) may) w w' ∧ good w' ∧
  ((∃ o, r = Ok o ∧ succeeded o = true) → settled sts pk cts (machine w' s) k v).
Proof.
  intros Hl Hu Hp Hg Hin Hm Hh Hr. pose proof (commits_absorbed g pk Hl cts may Hu) as Ha.
  pose proof (Hl _ _ Hin) as [Hk _]. cbn in Hk.
  unfold _commit_key in Hr. apply (propose_own _ _ _ _ _ _ _ Ha) in Hr as [Hv Hok]; [|right; by exists k, v].
  pose proof (vi_rel _ _ _ _ Hv Hp) as Hrel. split_and!; [done|intros s'; by apply (Hrel s')|].
  intros ([res|]&->&Hs); [|done]. destruct (Hok Hp res eq_refl Hs) as (now&m&m'&rm&R1&Hap&Hrm&R2).
  destruct (R1 (Hg s)) as [Hi R1']. destruct (R1' k v Hin) as (_&B1&C1).
  pose proof (op_inv now (OCommit k sts cts) m Hi) as Hi'. rewrite Hap in Hi'.
  apply R2; [done..|]. destruct (commit_settles sts Hsts pk cts (in_groups g s) may now k v m) as [_ S]; try done.
  { intros kv Hkv. by apply Hl in Hkv as [??]. }
  { intros v' Hv'. by apply (Hu s k). }
  rewrite Hap in S. destruct (S k v Hin) as (_&_&C2). cbn [fst] in *.
  assert (holds_lock sts m k v pk → settled sts pk cts m' k v) as Hheld.
  { intros Hml. destruct (own_commit sts Hsts now k v pk cts m m' rm Hi Hk Hml Hap) as [[? _]|(_&?&?&_)]; [congruence|].
    split; [done|by left]. }
  destruct Hh as [[Hml|Hd]%B1|Hd%C1]; auto.
Qed.

(** *** The commit point *)

Definition at_primary x s cts : Z → bytes → Z → Prop := λ s' k ct, s' = s ∧ k = primary x ∧ ct = cts.
Lemma commit_point x g s v cts w w' o :
  prewritten g (primary x) w → in_groups g s (primary x, v) →
  _commit_key s (primary x) sts cts w = (w', Ok o) →
  placed w w' ∧
  if succeeded o then
    pend (commits g (primary x) cts (λ k, k = primary x)) w' ∧ good w' ∧
    published sts (machine w' s) (primary x) v cts ∧
    ∀ s' k' v', in_groups g s' (k', v') → k' ≠ primary x → holds_lock sts (machine w' s') k' v' (primary x)
  else
    via (prewrites g (primary x)) (λ _, keeps_locks sts) w w' ∨
    (via (undoes g (primary x) (at_primary x s cts)) (λ s', writes_only sts (at_primary x s cts s')) w w' ∧
     ∃ b, serial (OCommit (primary x) sts cts) = Ok b ∧ b ∈ unanswered w' s).
Proof.
  intros Hpw Hin Hr. pose proof (prewritten_one_value _ _ _ Hpw) as Hu. destruct Hpw as [Hl Hp Hg Hh].
  assert (pend (commits g (primary x) cts (λ k, k = primary x)) w) as Hpc by (eapply pend_mono; [|exact Hp]; by left).
  destruct (commit_key_spec g (primary x) cts (λ k, k = primary x) s (primary x) v w w' (Ok o)) as (Hv&Hg'&Hok); try done.
  { left. by apply (Hh s (primary x, v)). }
  split; [by apply (vi_placed _ _ _ _ Hv)|]. destruct (succeeded o) eqn:Hs.
  - split_and!; [by apply (vi_pend _ _ _ _ Hv)|done|by apply Hok; exists o|].
    intros s' k' v' Hin' Hne. destruct (vi_rel _ _ _ _ Hv Hpc s' (Hg s')) as [_ S].
    apply (S k' v' Hin'); [done|]. by apply (Hh s' (k', v')).
  - unfold _commit_key in Hr. destruct (serial (OCommit (primary x) sts cts)) as [b|e] eqn:Hb.
    2:{ unfold _propose_to, bind, reads in Hr. fold (serial (OCommit (primary x) sts cts)) in Hr. by rewrite Hb in Hr. }
    assert (∀ res, Ok o = Ok (Some res) → ar_success res = false) as Hf by (intros res [= ->]; exact Hs).
    destruct (propose_refused _ _ s _ b w w' (Ok o) (prewrites_absorbed g (primary x) Hl) Hb
      (λ now m m' rm, commit_refused_same now _ cts m m' rm) Hr Hf) as [Hun|]; [|by left].
    right. split; [|by exists b].
    apply (propose_own _ _ _ _ _ _ _ (undoes_absorbed g (primary x) Hl (at_primary x s cts))) in Hr as [? _]; [done|].
    right. right. by exists (primary x), cts.
Qed.

(** *** The whole of [commit] *)

Lemma world_Ok {A} (m : M W A) c w cw' a :
  world m (c, w) = (cw', Ok a) → ∃ w', cw' = (c, w') ∧ m w = (w', Ok a).
Proof. unfold world. cbn. destruct (m w) as [w' r]. intros [= <- ->]. by exists w'. Qed.

Lemma update_Ok i f (c : t) w cw' u :
  update i f (c, w) = (cw', Ok u) → ∃ c', cw' = (c', w) ∧ _executor c' = _executor c.
Proof. intros [= <- _]. by eexists. Qed.

Lemma abort_spec may i x g reason (c : t) w cw' r :
  legal_groups g (primary x) → start_ts x = sts → abort i x g reason (c, w) = (cw', Ok r) →
  via (undoes g (primary x) may) (λ s, writes_only sts (may s)) w cw'.2 ∧ r = (false, None).
Proof.
  intros Hl Hx Hr. unfold abort in Hr. mstep Hr. apply world_Ok in Hm as (w1&->&Hrb).
  apply (rollback_all_via g (primary x) Hl may) in Hrb; [|done..]. mstep Hr. apply update_Ok in Hm as (c1&->&_).
  mstep Hr. injection Hr as <- <-. split; [|done].
  destruct reason; [by apply update_Ok in Hm as (c2&->&_)|by injection Hm as <- _].
Qed.
Lemma abort_unwritten i x g reason (c : t) w cw' r :
  prewritten g (primary x) w → unwritten w → start_ts x = sts → abort i x g reason (c, w) = (cw', Ok r) →
  r = (false, None) ∧ only_unanswered x cw'.2.
Proof.
  intros Hpw Hu Hx Hr. destruct Hpw as [Hl Hp Hg _].
  apply (abort_spec (λ _ _ _, False)) in Hr as [Hv ->]; [|done..]. split; [done|].
  intros s k cts Hk Hw. by destruct (undone_writes g (primary x) _ _ _ Hp Hg Hu Hv s k cts Hk Hw).
Qed.
Lemma abort_unanswered i x g s cts b reason (c : t) w w1 cw' r :
  prewritten g (primary x) w → unwritten w → start_ts x = sts →
  via (undoes g (primary x) (at_primary x s cts)) (λ s', writes_only sts (at_primary x s cts s')) w w1 →
  serial (OCommit (primary x) sts cts) = Ok b → b ∈ unanswered w1 s →
  abort i x g reason (c, w1) = (cw', Ok r) → r = (false, None) ∧ only_unanswered x cw'.2.
Proof.
  intros Hpw Hu Hx Hv1 Hb Hun Hr. destruct Hpw as [Hl Hp Hg _].
  apply (abort_spec (at_primary x s cts)) in Hr as [Hv2 ->]; [|done..]. split; [done|].
  intros s' k ct Hk Hw. pose proof (undoes_absorbed g (primary x) Hl (at_primary x s cts)) as Ha.
  pose proof (via_trans _ _ _ _ _ Ha Hv1 Hv2) as Hv.
  destruct (undone_writes g (primary x) _ _ _ Hp Hg Hu Hv s' k ct Hk Hw) as (->&->&->).
  split; [done|]. exists b. split; [done|]. by apply (vi_more _ _ _ _ Hv2).
Qed.

(** A transaction as [begin] and [add_write] make it: its first key is its primary key. *)
Definition txn_wf x : Prop := primary_key x = fst <$> head (keys x).
Lemma add_key_wf k v x : txn_wf x → txn_wf (add_key k v x).
Proof. unfold txn_wf. cbn. intros ->. by destruct (keys x). Qed.
Lemma txn_wf_primary x : txn_wf x → keys x ≠ [] → ∃ v, (primary x, v) ∈ keys x.
Proof.
  unfold txn_wf, primary. intros ->. destruct (keys x) as [|[k v] l]; [done|]. intros _. exists v. by left.
Qed.

Lemma commit_prewritten_spec i x g (c : t) w cw' ok ts :
  start_ts x = sts → (∃ v, (primary x, v) ∈ keys x) → prewritten g (primary x) w → unwritten w →
  (∀ s kv, in_groups g s kv ↔ kv ∈ keys x ∧ sh_shard_for_key kv.1 w = Some s) →
  (∀ kv, kv ∈ keys x → is_Some (sh_shard_for_key kv.1 w)) →
  commit_prewritten i x g (c, w) = (cw', Ok (ok, ts)) →
  if ok then ∃ cts, ts = Some cts ∧ committed x cts cw'.2 ∧ good cw'.2 ∧
    pend (commits g (primary x) cts (λ k, k = primary x)) cw'.2 ∧
    _executor cw'.1 = _executor c ++ secondary_tasks x g cts
  else ts = None ∧ only_unanswered x cw'.2.
Proof.
  intros Hsx [v Hv] Hpw Hu Hin Hsome Hr. pose proof (prewrites_absorbed g (primary x) (pr_legal _ _ _ Hpw)) as Ha.
  assert (Hkeep : ∀ w2, via (prewrites g (primary x)) (λ _, keeps_locks sts) w w2 →
    prewritten g (primary x) w2 ∧ unwritten w2).
  { intros w2 Hv2. split; [by eapply prewritten_via|].
    by apply (prewrites_keep g (primary x) w w2 (pr_pend _ _ _ Hpw) Hv2 (pr_good _ _ _ Hpw)). }
  assert (Habort : ∀ c2 w2 r reason, via (prewrites g (primary x)) (λ _, keeps_locks sts) w w2 →
    abort i x g reason (c2, w2) = (cw', Ok r) → r = (false, None) ∧ only_unanswered x cw'.2).
  { intros c2 w2 r reason [Hp2 Hu2]%Hkeep Hab. by eapply abort_unwritten. }
  unfold commit_prewritten in Hr. mstep Hr. injection Hm as <- _.
  mstep Hr. apply world_Ok in Hm as (w1&->&Hval).
  assert (via (prewrites g (primary x)) (λ _, keeps_locks sts) w w1) as Hk1.
  { destruct a; [by eapply validate_via|injection Hval as <- _; by apply via_refl]. }
  destruct a0 as [reason|]; [by destruct (Habort _ _ _ _ Hk1 Hr) as [[= -> ->] ?]|].
  mstep Hr. apply world_Ok in Hm as (w2&->&Hts). apply timestamp_drift, (drift_via _ _ _ _ Ha) in Hts.
  mstep Hr. apply update_Ok in Hm as (c1&->&Hex1). rename a0 into cts.
  mstep Hr. apply world_Ok in Hm as (w3&->&Hsh). unfold _get_shard_id in Hsh.
  destruct (sh_shard_for_key (primary x) w2) as [s|] eqn:Hs; [|done]. injection Hsh as <- <-.
  mstep Hr. apply world_Ok in Hm as (w3&->&Hld). apply leader_drift, (drift_via _ _ _ _ Ha) in Hld.
  assert (via (prewrites g (primary x)) (λ _, keeps_locks sts) w w2) as Hk2 by (by eapply via_trans).
  assert (via (prewrites g (primary x)) (λ _, keeps_locks sts) w w3) as Hk3 by (by eapply via_trans).
  destruct a0 as [cl|]; [|by destruct (Habort _ _ _ _ Hk3 Hr) as [[= -> ->] ?]].
  mstep Hr. apply world_Ok in Hm as (w4&->&Hck). rewrite Hsx in Hck. destruct (Hkeep _ Hk3) as [Hpw3 Hu3].
  assert (in_groups g s (primary x, v)) as Hpin by (apply Hin; split; [done|]; by rewrite <-(vi_placed _ _ _ _ Hk2)).
  destruct (commit_point x g s v cts w3 w4 a0 Hpw3 Hpin Hck) as [Hpl4 Hcase].
  destruct (succeeded a0); cbn [negb] in Hr.
  - mstep Hr. apply update_Ok in Hm as (c2&->&Hex2). mstep Hr. injection Hm as <- _. injection Hr as <- <- <-. cbn.
    destruct Hcase as (Hp4&Hg4&Hpub&Hsec). exists cts. rewrite Hex2, Hex1. split_and!; try done.
    assert (placed w w4) as Hpl by (intros k; by rewrite Hpl4, (vi_placed _ _ _ _ Hk3)). split.
    + exists s, v. split_and!; [by rewrite Hpl, <-(vi_placed _ _ _ _ Hk2)|done|done].
    + intros k v' Hkv Hne. destruct (Hsome _ Hkv) as [s' Hs']. exists s'. split; [by rewrite Hpl|].
      apply Hsec; [by apply Hin|done].
  - destruct Hcase as [Hk4|[Hun (b&Hb&Hbin)]].
    + assert (via (prewrites g (primary x)) (λ _, keeps_locks sts) w w4) as Hk by (by eapply via_trans).
      by destruct (Habort _ _ _ _ Hk Hr) as [[= -> ->] ?].
    + by destruct (abort_unanswered i x g s cts b _ _ w3 w4 cw' _ Hpw3 Hu3 Hsx Hun Hb Hbin Hr) as [[= -> ->] ?].
Qed.

Lemma commit_spec sched i c w cw' ok ts x :
  _transactions c !! i = Some x → status x = TxnStatus.PENDING → keys x ≠ [] → txn_wf x →
  start_ts x = sts → Forall (legal x) (keys x) → good w → unwritten w → (∀ s, unanswered w s = []) →
  commit sched i (c, w) = (cw', Ok (ok, ts)) →
  if ok then ∃ cts g, ts = Some cts ∧ committed x cts cw'.2 ∧ good cw'.2 ∧
    pend (commits g (primary x) cts (λ k, k = primary x)) cw'.2 ∧
    _executor cw'.1 = _executor c ++ secondary_tasks x g cts ∧
    ∀ kv, kv ∈ keys x → ∃ s, in_groups g s kv
  else ts = None ∧ only_unanswered x cw'.2.
Proof.
  intros Hx Hst Hks Hwf Hsx Hl Hg Hu Hnone Hr. unfold commit in Hr. mstep Hr. injection Hm as <- <-. cbn [fst] in Hr.
  rewrite Hx in Hr. rewrite decide_False in Hr by (rewrite Hst; tauto). rewrite decide_False in Hr by done.
  mstep Hr. apply world_Ok in Hm as (w1&->&Hgr). apply group_keys_spec in Hgr as [-> Hgr].
  destruct (Hgr _ eq_refl) as [Hin0 Hsome]. clear Hgr. rename a into g.
  assert (∀ s kv, in_groups g s kv ↔ kv ∈ keys x ∧ sh_shard_for_key kv.1 w = Some s) as Hin.
  { intros s kv. rewrite Hin0. split; [intros [[]%in_groups_nil|?]; done|by right]. }
  assert (legal_groups g (primary x)) as Hlg.
  { intros s kv [Hkv _]%Hin. rewrite list.Forall_forall in Hl. by apply Hl. }
  assert (pend (prewrites g (primary x)) w) as Hp by (intros s b; rewrite Hnone; by intros ?%elem_of_nil).
  mstep Hr. apply world_Ok in Hm as (w2&->&Hpw).
  apply (prewrite_all_spec g (primary x) Hlg) in Hpw as (Hpl2&Hu2&Hall); [|done..].
  destruct a; cbn [negb] in Hr.
  2:{ mstep Hr. apply update_Ok in Hm as (c1&->&_). injection Hr as <- <- <-. split; [done|].
      intros s k cts Hk Hw. by destruct (Hu2 s k cts Hk). }
  destruct (Hall eq_refl) as (Hp2&Hg2&Hheld).
  mstep Hr. apply update_Ok in Hm as (c1&->&Hex1).
  apply commit_prewritten_spec in Hr; try done.
  - destruct ok; [|done]. destruct Hr as (cts&->&?&?&?&Hex). exists cts, g. rewrite Hex, Hex1.
    split_and!; try done. intros kv Hkv. destruct (Hsome _ Hkv) as [s Hs]. exists s. by apply Hin.
  - by apply txn_wf_primary.
  - intros s kv. by rewrite Hpl2.
  - intros kv. rewrite Hpl2. apply Hsome.
Qed.

Lemma secondary_tasks_in x g cts s kv :
  in_groups g s kv → kv.1 ≠ primary x →
  {| tk_shard := s; tk_key := kv.1; tk_start_ts := start_ts x; tk_commit_ts := cts |} ∈ secondary_tasks x g cts.
Proof.
  intros (kvs&Hin&Hkv) Hne. unfold secondary_tasks. apply list_elem_of_In, in_flat_map.
  exists (s, kvs). split; [by apply list_elem_of_In|]. apply list_elem_of_In, list_elem_of_fmap.
  exists kv. split; [done|]. by apply list_elem_of_filter.
Qed.

(** C2: A commit is all or nothing.  The cluster may lose answers: a command whose proposal
    was not answered with success may still be applied, once or more often, at any time.  The
    client has no such command left when it starts, the placement of the keys stands, and
    the other clients leave this transaction's locks alone.  Then, under any schedule of the
    prewrite threads and whatever else the other clients do meanwhile, a commit that answers
    yes has published the primary key's value at the commit timestamp, and every other key
    of the transaction still holds the transaction's lock with its value and the primary's
    name, with a commit at that same timestamp queued for it.  A commit that answers no has
    published nothing of the transaction on any shard, except that the primary key may be
    published, or may be published later, by its own COMMIT when nobody answered that
    command. *)
Theorem commit_all_or_nothing sched i c w c' w' ok ts x :
  _transactions c !! i = Some x → status x = TxnStatus.PENDING → keys x ≠ [] → txn_wf x →
  start_ts x = sts → Forall (legal x) (keys x) → good w → unwritten w → (∀ s, unanswered w s = []) →
  commit sched i (c, w) = ((c', w'), Ok (ok, ts)) →
  if ok then ∃ cts, ts = Some cts ∧
    (∃ s v, sh_shard_for_key (primary x) w' = Some s ∧ (primary x, v) ∈ keys x ∧
       published sts (machine w' s) (primary x) v cts) ∧
    (∀ k v, (k, v) ∈ keys x → k ≠ primary x → ∃ s, sh_shard_for_key k w' = Some s ∧
       holds_lock sts (machine w' s) k v (primary x) ∧
       ∃ k', k' ∈ _executor c' ∧ tk_key k' = k ∧ tk_start_ts k' = sts ∧ tk_commit_ts k' = cts)
  else ts = None ∧ ∀ s k cts, no_sep k → wrote sts (machine w' s) k cts →
    k = primary x ∧ ∃ b, serial (OCommit k sts cts) = Ok b ∧ b ∈ unanswered w' s.
Proof.
  intros Hx Hst Hks Hwf Hsx Hl Hg Hu Hnone Hr. apply (commit_spec sched i c w (c', w') ok ts x) in Hr; try done.
  destruct ok; [|done]. destruct Hr as (cts&g&->&[Hp Hsec]&_&_&Hex&Hin). exists cts. split_and!; [done..|].
  intros k v Hkv Hne. destruct (Hsec k v Hkv Hne) as (s&Hs&Hh). exists s. split_and!; [done..|].
  destruct (Hin _ Hkv) as [s' Hg']. cbn in Hex. rewrite Hex.
  exists {| tk_shard := s'; tk_key := k; tk_start_ts := start_ts x; tk_commit_ts := cts |}.
  split_and!; [|done..]. apply elem_of_app. right. by apply (secondary_tasks_in _ _ _ _ (k, v)).
Qed.

(** A secondary key is rolled forward or waits.  When the pool runs the queued commit of
    a key that holds the transaction's lock, the key's value is published at the
    transaction's one commit timestamp, or - the shard had no leader, refused, or did not
    answer - the lock is still there with its value; and so for every other key of the
    transaction. *)
Theorem secondary_rolls_forward g pk cts s k v w w' r :
  legal_groups g pk → one_value g → pend (commits g pk cts (λ _, True)) w → good w →
  in_groups g s (k, v) → holds_lock sts (machine w s) k v pk →
  commit_task {| tk_shard := s; tk_key := k; tk_start_ts := sts; tk_commit_ts := cts |} w = (w', r) →
  r = Ok tt ∧ good w' ∧ pend (commits g pk cts (λ _, True)) w' ∧
  ∀ s' k' v', in_groups g s' (k', v') → holds_lock sts (machine w s') k' v' pk →
    published sts (machine w' s') k' v' cts ∨ holds_lock sts (machine w' s') k' v' pk.
Proof.
  intros Hl Hu Hp Hg Hin Hh Hr. unfold commit_task, catch, bind in Hr. cbn [tk_shard tk_key tk_start_ts tk_commit_ts] in Hr.
  destruct (_commit_key s k sts cts w) as [w1 r1] eqn:Hc.
  assert (w1 = w' ∧ r = Ok tt) as [-> ->] by (destruct r1; by injection Hr as <- <-).
  destruct (commit_key_spec g pk cts (λ _, True) s k v w w' r1) as (Hv&Hg'&_); try done; [by left|].
  split_and!; [done|done|by apply (vi_pend _ _ _ _ Hv)|]. intros s' k' v' Hin' Hh'.
  destruct (vi_rel _ _ _ _ Hv Hp s' (Hg s')) as [_ S]. destruct (S k' v' Hin') as (_&[?|[? _]]&_); auto.
Qed.
End cluster.
