(* ===== verification/ClusterRuns.v ===== *)
(** A cluster in one process, as the tests of the code build one: every shard has a leader
    that applies what it is asked to at once.  On it the resolver's decision is worked out
    in full, and executions show where a transaction is left half committed.  The cluster is
    a test environment for the coordinator and the resolver and translates no code. *)

From Stdlib Require Import ZArith Lia.
From S2P Require Import Prelude Bytes PyVal Engine Mvcc StateMachine StateMachineFacts Dict Router Shards Coordinator CoordinatorFacts.
Import MVCCStorage MVCCStateMachine.

#[local] Existing Instances MemoryEngine.engine MemoryEngine.laws.

Abbreviation sm := (MVCCStateMachine.t MemoryEngine.t).

Module LocalCluster.
Section local.
Context `{Msgpack}.
Record t := { c_machines : gmap Z sm; c_ranges : RangeMap; c_last_ts : Z; c_now : Z }.

Definition empty : sm := mk MemoryEngine.init 0.
Definition machine_of (w : t) (s : Z) : sm := default empty (c_machines w !! s).
Definition with_machine (s : Z) (m : sm) (w : t) : t :=
  {| c_machines := <[s := m]> (c_machines w); c_ranges := c_ranges w; c_last_ts := c_last_ts w;
     c_now := c_now w |}.

Definition propose (s : Z) (command : bytes) : M t (option ApplyResult) := λ w,
  match c_machines w !! s with
  | None => (w, Ok None)
  | Some m => let '(m', r) := apply (c_now w) command m in (with_machine s m' w, Ok (Some r))
  end.

#[global] Instance cluster : Shards t Z := {|
  sh_shard_for_key key w := Some (locate (c_ranges w) key);
  sh_leader s := λ w, (w, Ok (const s <$> c_machines w !! s));
  sh_propose := propose;
  sh_get s key ts := λ w,
    match c_machines w !! s with
    | None => (w, Ok None)
    | Some m => (w, let? r := get m key (Some ts) in Ok (Some r))
    end;
  sh_get_lock s key := reads (λ w, get_lock_status (machine_of w s) key);
  sh_get_write_record s key := reads (λ w, get_write_record (machine_of w s) key);
  sh_leader_locks := reads (λ w,
    foldr (λ sm_ rest, let? l := iter_locks (_storage sm_.2) in let? r := rest in Ok (l ++ r))
      (Ok []) (map_to_list (c_machines w)));
  sh_get_timestamp := λ w,
    ({| c_machines := c_machines w; c_ranges := c_ranges w; c_last_ts := c_last_ts w + 1;
        c_now := c_now w |}, Ok (c_last_ts w + 1));
  sh_now := reads (λ w, Ok (c_now w))
|}.

#[global] Instance laws (sts : Z) : ShardsLaws t Z MemoryEngine.t sts.
Proof.
  refine {| machine := machine_of; unanswered := λ _ _, [] |}.
  - intros s w w' r [= <- <-]. split; [done|]. split; [done|]. apply rtc_refl.
  - intros c k w w' r [= <- <-]. split; [done|]. split; [done|]. apply rtc_refl.
  - intros w w' r [= <- <-]. split; [done|]. split; [done|]. apply rtc_refl.
  - intros s b w w' r. cbn. unfold propose. destruct (c_machines w !! s) as [m|] eqn:Hm.
    + destruct (apply (c_now w) b m) as [m' res] eqn:Ha. intros [= <- <-].
      assert (machine_of w s = m) as -> by (unfold machine_of; by rewrite Hm).
      split_and!; [done| |done|set_solver|].
      * intros s' Hne. unfold machine_of. cbn. rewrite lookup_insert_ne by done. split; [done|]. apply rtc_refl.
      * right. exists (c_now w), m, res. rewrite Ha. split_and!; [apply rtc_refl| |done..].
        unfold machine_of. cbn. rewrite lookup_insert_eq. apply rtc_refl.
    + intros [= <- <-]. split_and!; [done|intros s' _; split; [done|apply rtc_refl]|done|set_solver|].
      left. split; [apply rtc_refl|done].
Defined.
End local.
End LocalCluster.

(** ** What the resolver decides *)

Section resolver.
Context `{Msgpack}.
Import LocalCluster.

Inductive verdict := roll_forward (commit_ts : Z) | wait | roll_back.

(** The primary key's newest write record decides, and then the primary's lock and age. *)
Definition verdict_of (ttl now : Z) (mp : sm) (pk : bytes) (sts : Z) : verdict :=
  let fresh :=
    match get_newest_lock (_storage mp) pk with
    | Ok (Some l) =>
        (lk_start_ts l =? sts) &&
        match LockResolver.lock_time l with Ok since => now - since <? ttl | Raise _ => false end
    | _ => false
    end in
  match get_latest_write (_storage mp) pk with
  | Ok (Some rec) =>
      if wr_start_ts rec =? sts then roll_forward (wr_commit_ts rec) else if fresh then wait else roll_back
  | _ => if fresh then wait else roll_back
  end.

Lemma op_packs k sts : Z.of_nat (length k) < 2 ^ 32 → valid_ts sts →
  (∃ b, serialize_command (op_type (ORollback k sts)) (op_kwargs (ORollback k sts)) = Ok b) ∧
  ∀ cts, valid_ts cts → ∃ b, serialize_command (op_type (OCommit k sts cts)) (op_kwargs (OCommit k sts cts)) = Ok b.
Proof.
  intros Hk Hs. assert (∀ z, valid_ts z → packable (PInt z) = true) as Hz.
  { unfold valid_ts, _MAX_TS. intros z Hv. cbn. apply andb_true_iff. split; [apply Z.leb_le|apply Z.ltb_lt]; lia. }
  assert (packable (PBytes k) = true) as Hkb by (cbn; by apply Z.ltb_lt).
  split; [|intros cts Hc]; apply packb_packable; cbn -[packable]; unfold packable at 1; fold packable;
    cbn -[packable Z.pow]; by rewrite Hkb, ?(Hz _ Hs), ?(Hz _ Hc).
Qed.

(** The cluster is up: every range has a shard, and the machines are sound. *)
Record up (w : t) : Prop := {
  up_led k : is_Some (c_machines w !! locate (c_ranges w) k);
  up_inv s : store_inv (_storage (machine_of w s))
}.

Lemma client_for w k : up w → LockResolver._client_for k w = (w, Ok (Some (locate (c_ranges w) k))).
Proof.
  intros Hu. unfold LockResolver._client_for, LockResolver._get_shard_id, bind. cbn.
  by destruct (up_led _ Hu k) as [m ->].
Qed.

Lemma latest_write_total w s pk : up w → no_sep pk → ∃ rec, get_latest_write (_storage (machine_of w s)) pk = Ok rec ∧
  ∀ x, rec = Some x → valid_ts (wr_commit_ts x).
Proof.
  intros Hu Hpk. pose proof (inv_wf _ (up_inv _ Hu s)) as Hwf.
  destruct (newest_exists _ x03 pk Hwf Hpk) as (r&Hr). rewrite (get_latest_write_newest _ _ r Hwf Hpk Hr).
  eexists. split; [done|]. destruct r as [[ts raw]|]; [|done]. intros x [= <-]. cbn. by eapply newest_valid.
Qed.

Lemma primary_status_verdict ttl w pk sts :
  up w → no_sep pk →
  let v := verdict_of ttl (c_now w) (machine_of w (locate (c_ranges w) pk)) pk sts in
  LockResolver.primary_status {| LockResolver._lock_ttl := ttl |} pk sts w =
    (w, Ok match v with roll_forward _ => COMMITTED | wait => PENDING | roll_back => ABORTED end) ∧
  LockResolver.primary_commit_ts pk sts w =
    (w, Ok match v with roll_forward cts => Some cts | _ => None end) ∧
  match v with roll_forward cts => valid_ts cts | _ => True end.
Proof.
  intros Hu Hpk v. set (s := locate _ _) in *.
  destruct (latest_write_total w s pk Hu Hpk) as (rec&Hrec&Hval).
  unfold LockResolver.primary_status, LockResolver.primary_commit_ts, bind. rewrite client_for by done. fold s.
  cbn. unfold reads, get_write_record, get_lock_status. subst v. unfold verdict_of. rewrite Hrec.
  destruct (match rec with Some x => wr_start_ts x =? sts | None => false end) eqn:Hb.
  { destruct rec as [x|]; [|done]. rewrite Hb. specialize (Hval x eq_refl). done. }
  destruct (store_inv_newest_lock _ pk (up_inv _ Hu s) Hpk) as [[_ Hl]|(ts&pk'&lt&v&_&_&_&Hl)]; rewrite Hl; cbn.
  - destruct rec; [rewrite Hb|]; done.
  - assert ((Z.max 0 (ttl - (c_now w - lt)) >? 0) = (c_now w - lt <? ttl)) as Hage.
    { rewrite Z.gtb_ltb. destruct (Z.ltb_spec (c_now w - lt) ttl), (Z.ltb_spec 0 (Z.max 0 (ttl - (c_now w - lt)))); lia || done. }
    destruct rec; [rewrite Hb|]; destruct (ts =? sts); cbn; rewrite ?Hage; by destruct (_ <? ttl).
Qed.

Lemma settle_run k sts o b w m' r :
  up w → serialize_command (op_type o) (op_kwargs o) = Ok b →
  apply_op (c_now w) o (machine_of w (locate (c_ranges w) k)) = (m', r) → ar_success r = true →
  LockResolver._settle k sts o w = (with_machine (locate (c_ranges w) k) m' w, Ok true).
Proof.
  intros Hu Hb Ha Hr. unfold LockResolver._settle, LockResolver._get_shard_id, bind, reads. rewrite Hb. cbn.
  unfold propose, machine_of in *. destruct (up_led _ Hu k) as [m Hm]. rewrite Hm in *. cbn in Ha.
  rewrite (apply_serialized _ o b m Hb), Ha. by rewrite Hr.
Qed.

Lemma machine_of_with s m w s' : machine_of (with_machine s m w) s' = if decide (s = s') then m else machine_of w s'.
Proof. unfold machine_of. cbn. case_decide; [subst; by rewrite lookup_insert_eq|by rewrite lookup_insert_ne]. Qed.

(** The lock that is found is the lock that is held. *)
Lemma newest_lock_holds (m : sm) k pk v lt sts :
  store_inv (_storage m) → no_sep k →
  get_newest_lock (_storage m) k = Ok (Some {| lk_status := PBytes LockStatus.LOCKED;
    lk_primary_key := PBytes pk; lk_lock_time := PFloat lt; lk_value := PBytes v; lk_key := k; lk_start_ts := sts |}) →
  valid_ts sts ∧ holds_lock sts m k v pk.
Proof.
  intros Hi Hk Hl. destruct (newest_exists _ x04 k (inv_wf _ Hi) Hk) as (r&Hr).
  rewrite (get_newest_lock_newest _ k r (inv_wf _ Hi) Hk Hr) in Hl. destruct r as [[ts raw]|]; [|done].
  pose proof (newest_valid _ _ _ _ _ Hr) as Hv. destruct (inv_lock _ Hi k ts raw Hk (proj1 Hr)) as (pk'&lt'&v'&Hp).
  erewrite decode_lock_payload in Hl by exact Hp. injection Hl as <- <- <- <-.
  split; [done|]. exists lt', raw. by split; [apply Hr|].
Qed.

(** The primary decides.  For a key that holds a lock, on a cluster whose shards answer,
    the resolver does what the primary key's shard says.  If the newest write record of the
    primary key is the transaction's, the lock's value is published at that record's commit
    timestamp and the lock is gone.  If not, and the primary still holds the transaction's
    lock within its time to live, nothing changes and the answer is no.  Otherwise the lock
    is removed and no version or write record changes.  No other shard changes. *)
Theorem resolver_asks_primary ttl k pk v lt sts w :
  up w → no_sep k → no_sep pk → Z.of_nat (length k) < 2 ^ 32 →
  let s := locate (c_ranges w) k in
  get_newest_lock (_storage (machine_of w s)) k = Ok (Some {| lk_status := PBytes LockStatus.LOCKED;
    lk_primary_key := PBytes pk; lk_lock_time := PFloat lt; lk_value := PBytes v; lk_key := k; lk_start_ts := sts |}) →
  ∃ w' b, LockResolver.resolve_lock {| LockResolver._lock_ttl := ttl |} k None w = (w', Ok b) ∧
  (∀ s', s' ≠ s → machine_of w' s' = machine_of w s') ∧
  match verdict_of ttl (c_now w) (machine_of w (locate (c_ranges w) pk)) pk sts with
  | roll_forward cts => b = true ∧ published sts (machine_of w' s) k v cts ∧ lock_row sts (machine_of w' s) k = None
  | wait => b = false ∧ w' = w
  | roll_back => b = true ∧ lock_row sts (machine_of w' s) k = None ∧
      ∀ ns k' ts, no_sep k' → ns = x01 ∨ ns = x03 →
        entry (_storage (machine_of w' s)) ns k' ts = entry (_storage (machine_of w s)) ns k' ts
  end.
Proof.
  intros Hu Hk Hpk Hlen s Hlock. pose proof (up_inv _ Hu s) as Hi.
  destruct (newest_lock_holds _ _ _ _ _ _ Hi Hk Hlock) as [Hv Hh].
  destruct (primary_status_verdict ttl w pk sts Hu Hpk) as (Hst&Hct&Hval).
  destruct (op_packs k sts Hlen Hv) as [[b2 Hb2] Hb1].
  assert (LockResolver.lock_on k w = (w, Ok (Some {| lk_status := PBytes LockStatus.LOCKED;
    lk_primary_key := PBytes pk; lk_lock_time := PFloat lt; lk_value := PBytes v; lk_key := k; lk_start_ts := sts |}))) as Hon.
  { unfold LockResolver.lock_on, bind. rewrite client_for by done. cbn. unfold reads, get_lock_status. fold s. by rewrite Hlock. }
  unfold LockResolver.resolve_lock. rewrite (bind_run _ _ _ _ _ Hon). cbn [lk_start_ts lk_primary_key].
  rewrite (bind_run (reads _) _ w w pk) by done. rewrite (bind_run _ _ _ _ _ Hst).
  destruct (verdict_of _ _ _ _ _) as [cts| |].
  - rewrite (bind_run _ _ _ _ _ Hct). destruct (Hb1 cts Hval) as [b Hb].
    destruct (apply_op (c_now w) (OCommit k sts cts) (machine_of w s)) as [m' r] eqn:Ha.
    assert (ar_success r = true) as Hr.
    { destruct Hh as (lt'&p&Hrow&Hp). destruct (machine_of w s) as [e last].
      rewrite (apply_commit_run _ k sts cts pk lt' v p e last Hi Hk Hval Hrow Hp) in Ha. by injection Ha as _ <-. }
    rewrite (settle_run k sts _ b w m' r Hu Hb Ha Hr). eexists _, true. split; [done|].
    destruct (own_commit sts Hv _ _ _ _ _ _ _ _ Hi Hk Hh Ha) as [[? _]|(_&Hpub&Hn&_)]; [congruence|].
    setoid_rewrite machine_of_with. rewrite decide_True by done. split_and!; try done.
    intros s' Hne. by rewrite decide_False.
  - exists w, false. done.
  - destruct (apply_op (c_now w) (ORollback k sts) (machine_of w s)) as [m' r] eqn:Ha.
    assert (ar_success r = true) as Hr.
    { destruct Hh as (lt'&p&Hrow&Hp). destruct (machine_of w s) as [e last].
      rewrite (apply_rollback_run _ k sts p e last Hi Hk Hrow) in Ha. by injection Ha as _ <-. }
    rewrite (settle_run k sts _ b2 w m' r Hu Hb2 Ha Hr). eexists _, true. split; [done|].
    setoid_rewrite machine_of_with. rewrite decide_True by done.
    destruct (own_rollback sts Hv _ _ _ _ _ Hi Hk Ha) as [[-> Hn]|(_&Hn&He&Hrows)].
    + split_and!; try done; [|by apply Hn]. intros s' Hne. by rewrite decide_False.
    + split_and!; try done. { intros s' Hne. by rewrite decide_False. }
      intros ns k' ts Hk' Hns. destruct (decide (k' = k)) as [->|Hne]; [by apply Hrows|]. by apply He.
Qed.
End resolver.

(** ** Validating a read set *)

Section validation.
Context `{Msgpack}.
Import LocalCluster TransactionCoordinator.

(** Somebody committed a version of the key after [ts]. *)
Definition superseded (w : LocalCluster.t) (ts : Z) (k : bytes) : Prop :=
  ∃ cts, ts < cts ∧ is_Some (entry (_storage (machine_of w (locate (c_ranges w) k))) x03 k cts).

Lemma latest_write_superseded w ts k :
  up w → no_sep k →
  ∃ rec, get_latest_write (_storage (machine_of w (locate (c_ranges w) k))) k = Ok rec ∧
    match rec with
    | Some r => (ts < wr_commit_ts r ↔ superseded w ts k) ∧
                is_Some (entry (_storage (machine_of w (locate (c_ranges w) k))) x03 k (wr_commit_ts r))
    | None => ¬ superseded w ts k
    end.
Proof.
  intros Hu Hk. unfold superseded. set (e := _storage _).
  pose proof (inv_wf _ (up_inv _ Hu (locate (c_ranges w) k))) as Hwf. fold e in Hwf.
  destruct (newest_exists e x03 k Hwf Hk) as (r&Hr). rewrite (get_latest_write_newest e k r Hwf Hk Hr).
  eexists. split; [done|]. destruct r as [[cts raw]|]; cbn.
  - destruct Hr as [He Hn]. split; [|by rewrite He]. split; [intros; exists cts; by rewrite He|].
    intros (cts'&Hlt&Hs). destruct (decide (cts < cts')) as [Hc|Hc]; [|lia]. rewrite (Hn _ Hc) in Hs. by destruct Hs.
  - intros (cts'&_&Hs). rewrite Hr in Hs. by destruct Hs.
Qed.

Lemma validate_keys_run ts ks : ∀ w, up w → (∀ k, k ∈ ks → no_sep k) →
  ∃ o, validate_keys ts ks w = (w, Ok o) ∧
    match o with
    | None => ∀ k, k ∈ ks → ¬ superseded w ts k
    | Some (committed_since k cts) => k ∈ ks ∧ ts < cts ∧
        is_Some (entry (_storage (machine_of w (locate (c_ranges w) k))) x03 k cts)
    | Some (no_leader_for _ _) => False
    end.
Proof.
  induction ks as [|k ks IH]; intros w Hu Hk; cbn [validate_keys].
  { exists None. split; [done|]. by intros k ?%elem_of_nil. }
  destruct (latest_write_superseded w ts k Hu (Hk k ltac:(by left))) as (rec&Hrec&Hs).
  unfold bind, _get_shard_id. cbn. destruct (up_led _ Hu k) as [m Hm]. rewrite Hm. cbn.
  unfold reads, get_write_record. rewrite Hrec.
  destruct (IH w Hu) as (o&Ho&Hos). { intros k' ?. apply Hk. by right. }
  destruct rec as [r|].
  - destruct Hs as [Hs Hrow]. rewrite Z.gtb_ltb. destruct (Z.ltb_spec ts (wr_commit_ts r)) as [Hlt|Hge].
    + eexists. split; [done|]. cbn. split_and!; [by left|done|done].
    + exists o. split; [done|]. destruct o as [[]|]; [done| |].
      * destruct Hos as (?&?&?). split_and!; [by right|done..].
      * intros k' [->|?]%elem_of_cons; [|auto]. rewrite <-Hs. lia.
  - exists o. split; [done|]. destruct o as [[]|]; [done| |].
    + destruct Hos as (?&?&?). split_and!; [by right|done..].
    + intros k' [->|?]%elem_of_cons; auto.
Qed.

(** Validation finds exactly the stale reads.  On a cluster whose shards answer, the read
    set of a transaction is accepted exactly when no key the transaction read has a version
    committed after the transaction started; a refusal names a key that was read and a
    commit of it that came later. *)
Theorem validation_finds_stale_reads x w :
  up w → (∀ k, k ∈ read_set x → no_sep k) →
  ∃ o, _validate_read_set x w = (w, Ok o) ∧
    (o = None ↔ ∀ k, k ∈ read_set x → ¬ superseded w (start_ts x) k) ∧
    (∀ r, o = Some r → ∃ k cts, r = committed_since k cts ∧ k ∈ read_set x ∧ start_ts x < cts ∧
       superseded w (start_ts x) k).
Proof.
  intros Hu Hk. unfold _validate_read_set.
  assert (∀ k, k ∈ merge_sort bytes_le (elements (read_set x)) ↔ k ∈ read_set x) as Hin.
  { intros k. rewrite merge_sort_Permutation. apply elem_of_elements. }
  destruct (validate_keys_run (start_ts x) (merge_sort bytes_le (elements (read_set x))) w Hu) as (o&Ho&Hs).
  { intros k. rewrite Hin. apply Hk. }
  exists o. split; [done|]. destruct o as [[s k|k cts]|]; [done| |].
  - destruct Hs as (Hk'&Hlt&Hrow). rewrite Hin in Hk'. assert (superseded w (start_ts x) k) as Hsup by (by exists cts).
    split; [split; [done|]; intros Hno; by destruct (Hno k Hk')|].
    intros r [= <-]. by exists k, cts.
  - split; [|done]. split; [|done]. intros _ k. rewrite <-Hin. apply Hs.
Qed.
End validation.

(** ** Two executions that leave a transaction half committed *)

Module HalfCommitted.
Import TransactionCoordinator LocalCluster.
#[local] Existing Instance reference_codec.

Definition a : bytes := b_ "a".
Definition b : bytes := b_ "b".
Definition one : bytes := b_ "1".
Definition two : bytes := b_ "2".

(** Shard 0 holds "a", shard 1 holds "b". *)
Definition w0 : LocalCluster.t :=
  {| c_machines := <[0 := empty]> (<[1 := empty]> ∅); c_ranges := [(0, ([], b)); (1, (b, [xff]))];
     c_last_ts := 0; c_now := 100 |}.
Definition c0 : TransactionCoordinator.t := TransactionCoordinator.init 5 true.

(** *** The primary key is written again *)

(** A transaction writes "a" and "b" and commits, and its client stops before it has
    committed "b".  Another transaction writes "a".  Then a reader meets the lock on "b". *)
Definition overwritten : M (TransactionCoordinator.t * LocalCluster.t) (bool * option Z * (bool * option Z) * bool) :=
  let* t1 := begin in
  add_write t1.1 a one;;; add_write t1.1 b two;;;
  let* r1 := commit [] t1.1 in
  let* t2 := begin in
  add_write t2.1 a two;;;
  let* r2 := commit [] t2.1 in
  let* settled := resolve_lock b in
  ret (r1, r2, settled).

Definition after_overwrite : LocalCluster.t := (overwritten (c0, w0)).1.2.

(** A committed transaction loses a write.  The resolver looks at the newest write record
    of the primary key only.  Both commits answer yes, at timestamps 2 and 4; the reader is
    told that the lock on "b" is settled; "a" has the first transaction's version at 2, and
    "b" has no version at all and no lock any more. *)
Theorem overwritten_primary_loses_secondary :
  (overwritten (c0, w0)).2 = Ok ((true, Some 2), (true, Some 4), true) ∧
  hist (_storage (machine_of after_overwrite 0)) a 2 = Some (Some one) ∧
  get_version (_storage (machine_of after_overwrite 1)) b 10 = Ok None ∧
  lock_row 1 (machine_of after_overwrite 1) b = None.
Proof. vm_compute. done. Qed.

(** *** A secondary key is locked before its primary *)

(** The same cluster, with a reader: before a proposal of ours is appended, the reader may
    resolve the lock it has met on a key. *)
Record scripted := { base : LocalCluster.t; script : list (option bytes) }.
Definition on_base {A} (m : M LocalCluster.t A) : M scripted A := λ w,
  let '(w', r) := m (base w) in ({| base := w'; script := script w |}, r).
Definition reader (w : scripted) : LocalCluster.t :=
  match script w with
  | Some k :: _ => (LockResolver.resolve_lock {| LockResolver._lock_ttl := 5 |} k None (base w)).1
  | _ => base w
  end.
#[local] Instance with_reader : Shards scripted Z := {|
  sh_shard_for_key key w := sh_shard_for_key key (base w);
  sh_leader s := on_base (sh_leader s);
  sh_propose s command := λ w,
    on_base (sh_propose s command) {| base := reader w; script := tail (script w) |};
  sh_get s key ts := on_base (sh_get s key ts);
  sh_get_lock c key := on_base (sh_get_lock c key);
  sh_get_write_record c key := on_base (sh_get_write_record c key);
  sh_leader_locks := on_base sh_leader_locks;
  sh_get_timestamp := on_base sh_get_timestamp;
  sh_now := on_base sh_now
|}.

(** The thread of shard 1 goes first: "b" is locked.  Before shard 0 is asked to lock "a",
    the primary key, the reader meets the lock on "b". *)
Definition raced : M (TransactionCoordinator.t * scripted) (bool * option Z) :=
  let* t1 := begin in
  add_write t1.1 a one;;; add_write t1.1 b two;;;
  let* r := commit [1; 0]%nat t1.1 in
  run_task 0;;;
  ret r.
Definition after_race : (TransactionCoordinator.t * scripted) * result (bool * option Z) :=
  raced (c0, {| base := w0; script := [None; Some b] |}).

(** A live transaction loses a write.  The shards are prewritten at once, so a secondary
    key can hold its lock while the primary key has none yet; to the resolver that is a
    transaction that did not commit.  The commit answers yes at timestamp 2 and its queue is
    empty; "a" has its version, "b" has none and no lock. *)
Theorem early_secondary_lock_is_lost :
  after_race.2 = Ok (true, Some 2) ∧ _executor after_race.1.1 = [] ∧
  hist (_storage (machine_of (base after_race.1.2) 0)) a 2 = Some (Some one) ∧
  get_version (_storage (machine_of (base after_race.1.2) 1)) b 10 = Ok None ∧
  lock_row 1 (machine_of (base after_race.1.2) 1) b = None.
Proof. vm_compute. done. Qed.

(** *** The answer to the primary's commit is lost *)

(** The same cluster behind a network that loses the answers to some proposals. *)
Record lossy := { cl : LocalCluster.t; loses : list bool; lost : list (Z * bytes) }.
Definition on_cl {A} (m : M LocalCluster.t A) : M lossy A := λ w,
  let '(w', r) := m (cl w) in ({| cl := w'; loses := loses w; lost := lost w |}, r).
#[global] Instance with_losses : Shards lossy Z := {|
  sh_shard_for_key key w := sh_shard_for_key key (cl w);
  sh_leader s := on_cl (sh_leader s);
  sh_propose s command := λ w,
    let '(w', r) := sh_propose s command (cl w) in
    match loses w with
    | true :: l => ({| cl := w'; loses := l; lost := (s, command) :: lost w |}, Ok None)
    | l => ({| cl := w'; loses := tail l; lost := lost w |}, r)
    end;
  sh_get s key ts := on_cl (sh_get s key ts);
  sh_get_lock c key := on_cl (sh_get_lock c key);
  sh_get_write_record c key := on_cl (sh_get_write_record c key);
  sh_leader_locks := on_cl sh_leader_locks;
  sh_get_timestamp := on_cl sh_get_timestamp;
  sh_now := on_cl sh_now
|}.
Definition lost_to (w : lossy) (s : Z) : list bytes :=
  omap (λ e, if decide (e.1 = s) then Some e.2 else None) (lost w).
Lemma settles_apply sts (l : list bytes) now b (m : sm) : b ∈ l → settles sts l m (apply now b m).1.
Proof. intros Hb. apply rtc_once. right. eauto. Qed.
#[global] Instance lossy_laws (sts : Z) : ShardsLaws lossy Z MemoryEngine.t sts.
Proof.
  refine {| machine w := machine_of (cl w); unanswered := lost_to |}.
  - intros s w w' r [= <- <-]. split; [done|]. split; [done|]. apply rtc_refl.
  - intros c k w w' r [= <- <-]. split; [done|]. split; [done|]. apply rtc_refl.
  - intros w w' r [= <- <-]. split; [done|]. split; [done|]. apply rtc_refl.
  - intros s b w w' r Hr. cbn in Hr. destruct (propose s b (cl w)) as [v r0] eqn:Hp.
    destruct (propose_applies (ShardsLaws := LocalCluster.laws sts) s b (cl w) v r0 Hp) as (Hpl&Hoth&_&_&Hcase). cbn in Hpl, Hoth, Hcase.
    assert (∀ s', s' ≠ s → settles sts (lost_to w s') (machine_of (cl w) s') (machine_of v s')) as Ho.
    { intros s' Hne. destruct (Hoth s' Hne) as [_ Hs]. eapply rtc_subrel; [|exact Hs].
      intros m m' [?|(?&?&?%elem_of_nil&_)]; [by left|done]. }
    assert (∀ l m m', settles sts [] m m' → settles sts l m m') as Hmore.
    { intros l m m' Hs. eapply rtc_subrel; [|exact Hs]. intros ? ? [?|(?&?&?%elem_of_nil&_)]; [by left|done]. }
    assert (loses w = true :: tail (loses w) ∧ w' = {| cl := v; loses := tail (loses w); lost := (s, b) :: lost w |} ∧ r = Ok None
      ∨ cl w' = v ∧ lost w' = lost w ∧ r = r0) as [(_&->&->)|(Hcl&Hlost&->)].
    { destruct (loses w) as [|[] l]; injection Hr as <- <-; [by right|by left|by right]. }
    + set (w1 := {| cl := v; loses := tail (loses w); lost := (s, b) :: lost w |}).
      assert (lost_to w1 s = b :: lost_to w s) as Hs by (unfold lost_to; cbn; by rewrite decide_True).
      assert (∀ s', s' ≠ s → lost_to w1 s' = lost_to w s') as Hl by (intros s' Hne; unfold lost_to; cbn; by rewrite decide_False).
      rewrite Hs. split_and!; [exact Hpl|intros s' Hne; split; [by apply Hl|by apply Ho]|by apply list_subseteq_cons|done|].
      left. split; [|done]. destruct Hcase as [[Hst _]|(now&m&res&R1&R2&_)]; [by apply Hmore|].
      etrans; [by apply Hmore|]. etrans; [|by apply Hmore]. apply settles_apply. by left.
    + assert (∀ s', lost_to w' s' = lost_to w s') as Hl by (intros s'; unfold lost_to; by rewrite Hlost).
      rewrite Hl, Hcl. split_and!; [intros k; cbn; rewrite Hcl; apply Hpl|intros s' Hne; split; [by apply Hl|by apply Ho]|done|by apply list_subseteq_cons|].
      destruct Hcase as [[Hs Hf]|(now&m&res&R1&R2&?&?)]; [left; split; [by apply Hmore|done]|right].
      exists now, m, res. split_and!; [by apply Hmore..|done|done].
Defined.

(** A commit that answers no has committed.  Both keys are locked, the primary's COMMIT is
    applied and its answer is lost: [commit] rolls everything back and answers no.  "a", whose
    lock is gone, keeps the transaction's version; the lock of "b" and its value are gone. *)
Definition unheard : M (TransactionCoordinator.t * lossy) (bool * option Z) :=
  let* t1 := begin in
  add_write t1.1 a one;;; add_write t1.1 b two;;;
  commit [] t1.1.
Definition after_loss := unheard (c0, {| cl := w0; loses := [false; false; true]; lost := [] |}).
Theorem unheard_commit_is_half_undone :
  after_loss.2 = Ok (false, None) ∧
  hist (_storage (machine_of (cl after_loss.1.2) 0)) a 2 = Some (Some one) ∧
  get_version (_storage (machine_of (cl after_loss.1.2) 1)) b 10 = Ok None ∧
  lock_row 1 (machine_of (cl after_loss.1.2) 1) b = None.
Proof. vm_compute. done. Qed.
End HalfCommitted.
