(* ===== verification/Routing.v ===== *)
(** Which client leads a shard, and what a refusal means: [client/routing.py].

    A client of a cluster reaches nodes through a factory of handles and finds them in a
    routing table.  [ShardLeaders] keeps, per shard, what refusals have told it: an address
    a node named, the replicas left to try, the addresses already asked.  [ask_shard] walks
    them.  The factory, the table and the cluster are the classes below; everything outside
    this client is their state [W]. *)

From Stdlib Require Import ZArith Lia.
From S2P Require Import Prelude Bytes StateMachine Router.

(** [NodeClientFactory]; a handle that was reached at an address knows it. *)
Class NodeClientFactory (W C : Type) := {
  nf_get_client : Z → Z → option string → M W (option C);
  nf_get_client_at : Z → string → M W (option C);
  nf_forget_client : Z → Z → M W unit;
  nf_address : C → option string
}.

(** What a routing table answers: [RoutingCache]. *)
Class TableRouter (W C : Type) := {
  rt_leader_for_shard : Z → M W (option C);
  rt_any_replica_for : Z → M W (option C);
  rt_replica_addresses : Z → M W (list string);
  rt_routes : M W RangeMap;
  rt_shard_for : bytes → M W (option Z);
  rt_refresh_for_shard : Z → M W unit;
  rt_invalidate : Z → M W unit
}.

(** A cluster that is asked for its own placement. *)
Class OwnPlacement (W : Type) := {
  cl_shard_leader : Z → M W (option Z);
  cl_range_map : M W RangeMap
}.

Module ShardLeaders.
Section leaders.
Context {W C : Type} `{NodeClientFactory W C} `{!TableRouter W C} `{!OwnPlacement W}.

Record t := {
  (** Whether there is a table. *)
  _router : bool;
  _hints : gmap Z string;
  _queued : gmap Z (list string);
  _asked : gmap Z (gset string)
}.

Definition init (router : bool) : t := {| _router := router; _hints := ∅; _queued := ∅; _asked := ∅ |}.

Definition with_hints (m : gmap Z string) (l : t) : t :=
  {| _router := _router l; _hints := m; _queued := _queued l; _asked := _asked l |}.
Definition with_queued (m : gmap Z (list string)) (l : t) : t :=
  {| _router := _router l; _hints := _hints l; _queued := m; _asked := _asked l |}.
Definition with_asked (m : gmap Z (gset string)) (l : t) : t :=
  {| _router := _router l; _hints := _hints l; _queued := _queued l; _asked := m |}.

(** This client's state beside everybody else's. *)
Definition world {A} (m : M W A) : M (t * W) A := λ lw,
  let '(w, r) := m lw.2 in ((lw.1, w), r).
Definition mine {A} (f : t → t * A) : M (t * W) A := λ lw,
  let '(l, a) := f lw.1 in ((l, lw.2), Ok a).
Definition has_router : M (t * W) bool := λ lw, (lw, Ok (_router lw.1)).

Definition asked_of (l : t) (shard_id : Z) : gset string := default ∅ (_asked l !! shard_id).
Definition queue_of (l : t) (shard_id : Z) : list string := default [] (_queued l !! shard_id).

Definition _take_hint (shard_id : Z) : M (t * W) (option string) :=
  mine (λ l, (with_hints (delete shard_id (_hints l)) l, _hints l !! shard_id)).

Definition _note_asked (shard_id : Z) (address : string) : M (t * W) unit :=
  mine (λ l, (with_asked (<[shard_id := {[address]} ∪ asked_of l shard_id]> (_asked l)) l, tt)).

Definition _was_asked (shard_id : Z) (address : string) : M (t * W) bool :=
  mine (λ l, (l, bool_decide (address ∈ asked_of l shard_id))).

Definition forget (shard_id : Z) (l : t) : t :=
  with_hints (delete shard_id (_hints l))
    (with_queued (delete shard_id (_queued l)) (with_asked (delete shard_id (_asked l)) l)).
Definition _forget_shard (shard_id : Z) : M (t * W) unit := mine (λ l, (forget shard_id l, tt)).

Definition _remember_hint (shard_id : Z) (address : string) : M (t * W) bool :=
  let* was := _was_asked shard_id address in
  if (was : bool) then ret false
  else
  let* client := world (nf_get_client_at shard_id address) in
  match client with
  | None => ret false
  | Some _ => mine (λ l, (with_hints (<[shard_id := address]> (_hints l)) l, tt));;; ret true
  end.

Definition _hand_out (shard_id : Z) (client : C) : M (t * W) C :=
  match nf_address client with
  | Some address => _note_asked shard_id address;;; ret client
  | None => ret client
  end.

(** The loop of [_take_queued], which takes an address off the queue in every round. *)
Fixpoint take_queued (shard_id : Z) (queue : list string) : M (t * W) (option C) :=
  match queue with
  | [] => ret None
  | address :: queue =>
      mine (λ l, (with_queued (<[shard_id := queue]> (_queued l)) l, tt));;;
      _note_asked shard_id address;;;
      let* client := world (nf_get_client_at shard_id address) in
      match client with
      | Some client => ret (Some client)
      | None => take_queued shard_id queue
      end
  end.
Definition _take_queued (shard_id : Z) : M (t * W) (option C) := λ lw,
  take_queued shard_id (queue_of lw.1 shard_id) lw.

Definition _replica_addresses (shard_id : Z) : M (t * W) (list string) :=
  let* router := has_router in
  if (router : bool) then world (rt_replica_addresses shard_id) else ret [].

(** The addresses that can be opened, in order. *)
Fixpoint openable (shard_id : Z) (addresses : list string) : M W (list string) :=
  match addresses with
  | [] => ret []
  | address :: addresses =>
      let* client := nf_get_client_at shard_id address in
      let* rest := openable shard_id addresses in
      ret match client with Some _ => address :: rest | None => rest end
  end.

Definition _queue_replicas (shard_id : Z) : M (t * W) bool :=
  let* all := _replica_addresses shard_id in
  let* addresses := world (openable shard_id all) in
  mine (λ l,
    let asked := asked_of l shard_id in
    let queue := queue_of l shard_id in
    let waiting := filter (λ a, a ∉ asked ∧ a ∉ queue) addresses in
    (with_queued (<[shard_id := queue ++ waiting]> (_queued l))
       (with_asked (<[shard_id := asked]> (_asked l)) l),
     bool_decide (queue ++ waiting ≠ []))).

Definition refused_with (shard_id : Z) (hint : option string) : M (t * W) bool :=
  let* kept := match hint with Some h => _remember_hint shard_id h | None => ret false end in
  if (kept : bool) then ret true else _queue_replicas shard_id.

Definition leader_for_shard (shard_id : Z) : M (t * W) (option C) :=
  let* hint := _take_hint shard_id in
  let* hinted := match hint with
                 | Some h => let* client := world (nf_get_client_at shard_id h) in
                             match client with
                             | Some c => _note_asked shard_id h;;; ret (Some c)
                             | None => ret None
                             end
                 | None => ret None
                 end in
  match hinted with
  | Some c => ret (Some c)
  | None =>
      let* queued := _take_queued shard_id in
      match queued with
      | Some c => ret (Some c)
      | None =>
          let* router := has_router in
          if (router : bool) then
            let* client := world (rt_leader_for_shard shard_id) in
            match client with
            | None => ret None
            | Some c => let* c := _hand_out shard_id c in ret (Some c)
            end
          else
            let* leader := world (cl_shard_leader shard_id) in
            match leader with
            | None => ret None
            | Some node_id => world (nf_get_client shard_id node_id None)
            end
      end
  end.

Definition shard_for_key (key : bytes) : M (t * W) (option Z) :=
  let* router := has_router in
  if (router : bool) then world (rt_shard_for key)
  else let* m := world cl_range_map in ret (Some (locate m key)).

Definition leader_for_key (key : bytes) : M (t * W) (option C) :=
  let* shard_id := shard_for_key key in
  match shard_id with None => ret None | Some s => leader_for_shard s end.

Definition replica_for_shard (shard_id : Z) : M (t * W) (option C) :=
  let* router := has_router in
  if (router : bool) then
    let* client := world (rt_any_replica_for shard_id) in
    match client with
    | None => ret None
    | Some c => let* c := _hand_out shard_id c in ret (Some c)
    end
  else ret None.

Definition ranges : M (t * W) RangeMap :=
  let* router := has_router in
  if (router : bool) then world rt_routes else world cl_range_map.

Definition refresh_for_shard (shard_id : Z) : M (t * W) unit :=
  _forget_shard shard_id;;;
  let* router := has_router in
  if (router : bool) then world (rt_refresh_for_shard shard_id) else ret tt.

Definition invalidate (shard_id : Z) : M (t * W) unit :=
  _forget_shard shard_id;;;
  let* router := has_router in
  if (router : bool) then world (rt_invalidate shard_id)
  else
    let* leader := world (cl_shard_leader shard_id) in
    match leader with
    | Some node_id => world (nf_forget_client shard_id node_id)
    | None => ret tt
    end.

Definition answered (shard_id : Z) : M (t * W) unit := _forget_shard shard_id.

(** ** The walk *)

(** The attributes [error_code] and [leader_address] of an answer. *)
Context {A : Type} (error_code : A → option Z) (leader_address : A → option string).

(** How a question went: an answer to hand back, or a refusal with what the caller is left
    with if it is the last one, and the address it names. *)
Inductive reply := final (a : A) | refused (outcome : result (option A)) (hint : option string).

Definition ask (question : C → M W (option A)) (client : C) : M W reply := λ w,
  match question client w with
  | (w', Ok (Some a)) =>
      if decide (error_code a = Some ErrorCode.ERR_NOT_LEADER)
      then (w', Ok (refused (Ok (Some a)) (leader_address a)))
      else (w', Ok (final a))
  | (w', Ok None) => (w', Ok (refused (Ok None) None))
  | (w', Raise (ScanRefused code key address)) =>
      if decide (code = ErrorCode.ERR_NOT_LEADER)
      then (w', Ok (refused (Raise (ScanRefused code key address)) address))
      else (w', Raise (ScanRefused code key address))
  | (w', Raise NodeUnreachable) => (w', Ok (refused (Raise NodeUnreachable) None))
  | (w', Raise e) => (w', Raise e)
  end.

(** The answer of the last attempt, when it had one: what is left when nobody leads. *)
Definition last_answer (outcome : result (option A)) : option A :=
  match outcome with Ok a => a | Raise _ => None end.

(** The loop of [ask_shard]; [None] is a walk that was not over. *)
Fixpoint ask_loop (fuel : nat) (shard_id : Z) (question : C → M W (option A))
    (first : option C) (last : option A) (reads_left : nat) : M (t * W) (option (option A)) :=
  match fuel with
  | O => ret None
  | S fuel =>
      let* client := match first with Some c => ret (Some c) | None => leader_for_shard shard_id end in
      match client with
      | None => ret (Some last)
      | Some client =>
          let* r := world (ask question client) in
          match r with
          | final a => answered shard_id;;; ret (Some (Some a))
          | refused outcome hint =>
              let* more := refused_with shard_id hint in
              if (more : bool) then ask_loop fuel shard_id question None (last_answer outcome) reads_left
              else match reads_left with
                   | O => match outcome with Ok a => ret (Some a) | Raise e => raise e end
                   | S reads_left =>
                       refresh_for_shard shard_id;;;
                       ask_loop fuel shard_id question None (last_answer outcome) reads_left
                   end
          end
      end
  end.

Definition ask_shard (fuel : nat) (shard_id : Z) (question : C → M W (option A)) (table_reads : Z)
    (first : option C) : M (t * W) (option (option A)) :=
  ask_loop fuel shard_id question first None (Z.to_nat (table_reads - 1)).
End leaders.
Arguments reply : clear implicits.
End ShardLeaders.
