(* ===== verification/RoutingFacts.v ===== *)
(** The walk of [ask_shard] ends, finds a replica that answers, and may ask a node twice. *)

From Stdlib Require Import ZArith Lia.
From S2P Require Import Prelude Bytes StateMachine Router Routing.
Import ShardLeaders.

Section walk.
Context {W C : Type} `{NodeClientFactory W C} `{!TableRouter W C} `{!OwnPlacement W}.
Context {A : Type} (error_code : A → option Z) (leader_address : A → option string).
Context (s : Z) (question : C → M W (option A)).
Implicit Types (l : ShardLeaders.t) (w : W).

(** What bounds a walk, in the worlds [I] it goes through: whether an address can be opened
    does not change, the table lists no address twice, and every address that anybody names
    is in [U]. *)
Definition keeps {B} (I : W → Prop) (m : M W B) : Prop := ∀ w w' b, I w → m w = (w', Ok b) → I w'.
Record bounded (I : W → Prop) (U : gset string) (reach : string → bool) : Prop := {
  bd_at a : keeps I (nf_get_client_at s a);
  bd_client i : keeps I (nf_get_client s i None);
  bd_table : keeps I (rt_leader_for_shard s);
  bd_listed : keeps I (rt_replica_addresses s);
  bd_refresh : keeps I (rt_refresh_for_shard s);
  bd_own : keeps I (cl_shard_leader s);
  bd_ask c : keeps I (ask error_code leader_address question c);
  bd_reach a w w' r : I w → nf_get_client_at s a w = (w', Ok r) → (is_Some r ↔ reach a = true);
  bd_replicas w w' al : I w → rt_replica_addresses s w = (w', Ok al) → NoDup al ∧ ∀ a, a ∈ al → a ∈ U;
  bd_hint c w w' o h : I w →
    ask error_code leader_address question c w = (w', Ok (refused o (Some h))) → h ∈ U
}.
Context (I : W → Prop) (U : gset string) (reach : string → bool) (Hb : bounded I U reach).

(** The addresses that have not been asked, those in the queue, and those that may still
    get into it. *)
Definition waiting (asked : gset string) (queue : list string) : nat :=
  size (U ∖ asked) + length queue + size (U ∖ asked ∖ list_to_set queue).
Definition measure l : nat := waiting (asked_of l s) (queue_of l s).

(** A walk that goes on has somewhere to go. *)
Definition fresh l (h : string) : Prop := h ∈ U ∧ h ∉ asked_of l s ∧ reach h = true.
Definition armed l : Prop :=
  (∃ h, _hints l !! s = Some h ∧ fresh l h) ∨ (_hints l !! s = None ∧ queue_of l s ≠ []).

Lemma armed_positive l : armed l → (1 ≤ measure l)%nat.
Proof.
  unfold armed, measure, waiting. intros [(h&_&Hu&Ha&_)|[_ Hq]].
  - assert (size (U ∖ asked_of l s) ≠ 0%nat) as Hn by (rewrite size_non_empty_iff; set_solver). lia.
  - destruct (queue_of l s); [done|cbn; lia].
Qed.

(** *** The measure when an address is asked, and when it leaves the queue *)

Lemma waiting_asked asked a queue : (waiting ({[a]} ∪ asked) queue ≤ waiting asked queue)%nat.
Proof.
  unfold waiting.
  assert (size (U ∖ ({[a]} ∪ asked)) ≤ size (U ∖ asked))%nat by (apply subseteq_size; set_solver).
  assert (size (U ∖ ({[a]} ∪ asked) ∖ list_to_set queue) ≤ size (U ∖ asked ∖ list_to_set queue))%nat
    by (apply subseteq_size; set_solver).
  lia.
Qed.

Lemma waiting_fresh asked a queue :
  a ∈ U → a ∉ asked → (waiting ({[a]} ∪ asked) queue < waiting asked queue)%nat.
Proof.
  intros Hu Ha. unfold waiting.
  assert (size (U ∖ ({[a]} ∪ asked)) < size (U ∖ asked))%nat by (apply subset_size; set_solver).
  assert (size (U ∖ ({[a]} ∪ asked) ∖ list_to_set queue) ≤ size (U ∖ asked ∖ list_to_set queue))%nat
    by (apply subseteq_size; set_solver).
  lia.
Qed.

Lemma waiting_pop asked a queue : (waiting ({[a]} ∪ asked) queue < waiting asked (a :: queue))%nat.
Proof.
  unfold waiting. cbn [length].
  assert (size (U ∖ ({[a]} ∪ asked)) ≤ size (U ∖ asked))%nat by (apply subseteq_size; set_solver).
  assert (size (U ∖ ({[a]} ∪ asked) ∖ list_to_set queue) ≤ size (U ∖ asked ∖ list_to_set (a :: queue)))%nat
    by (apply subseteq_size; set_solver).
  lia.
Qed.

(** New addresses of the table move into the queue. *)
Lemma waiting_queue asked queue new :
  NoDup new → (∀ a, a ∈ new → a ∈ U ∧ a ∉ asked ∧ a ∉ queue) →
  (waiting asked (queue ++ new) ≤ waiting asked queue)%nat.
Proof.
  intros Hn Hin. unfold waiting. rewrite length_app.
  assert (size (U ∖ asked ∖ list_to_set (queue ++ new)) + length new = size (U ∖ asked ∖ list_to_set queue))%nat; [|lia].
  rewrite <-(size_list_to_set (C := gset string) new) by done. rewrite <-size_union by set_solver.
  f_equal. apply set_eq. intros x. rewrite list_to_set_app. destruct (decide (x ∈ new)); set_solver.
Qed.

(** *** What the steps do *)

Lemma asked_of_with l m i : asked_of (with_asked m l) i = default ∅ (m !! i).
Proof. done. Qed.
Definition noted (a : string) l : ShardLeaders.t := with_asked (<[s := {[a]} ∪ asked_of l s]> (_asked l)) l.
Lemma noted_asked a l : asked_of (noted a l) s = {[a]} ∪ asked_of l s.
Proof. unfold noted. rewrite asked_of_with. by rewrite lookup_insert_eq. Qed.
Lemma noted_measure a l : (measure (noted a l) ≤ measure l)%nat.
Proof. unfold measure. rewrite noted_asked. apply waiting_asked. Qed.
Definition popped (q : list string) l : ShardLeaders.t := with_queued (<[s := q]> (_queued l)) l.
Lemma popped_queue q l : queue_of (popped q l) s = q.
Proof. unfold queue_of, popped. cbn. by rewrite lookup_insert_eq. Qed.

(** A pop, then the address is noted. *)
Lemma pop_measure a q l : queue_of l s = a :: q → (measure (noted a (popped q l)) < measure l)%nat.
Proof.
  intros Hq. unfold measure at 1. rewrite noted_asked.
  change (queue_of (noted a (popped q l)) s) with (queue_of (popped q l) s). rewrite popped_queue.
  change (asked_of (popped q l) s) with (asked_of l s). unfold measure. rewrite Hq. apply waiting_pop.
Qed.

(** An answer that opens an address. *)
Lemma at_step {B} a (k : option C → M (ShardLeaders.t * W) B) l w lw' b :
  I w → bind (world (nf_get_client_at s a)) k (l, w) = (lw', Ok b) →
  ∃ w1 c, I w1 ∧ (is_Some c ↔ reach a = true) ∧ k c (l, w1) = (lw', Ok b).
Proof.
  intros Hi. unfold bind, world. cbn. destruct (nf_get_client_at s a w) as [w1 [c|x]] eqn:Hc; cbn; [|done].
  intros Hk. exists w1, c. split_and!; [by eapply (bd_at _ _ _ Hb)|by eapply (bd_reach _ _ _ Hb)|done].
Qed.

Lemma take_queued_measure q : ∀ l w l' w' c, queue_of l s = q → I w →
  take_queued s q (l, w) = ((l', w'), Ok c) →
  I w' ∧ _hints l' = _hints l ∧ (measure l' ≤ measure l)%nat ∧ (q ≠ [] → measure l' < measure l)%nat.
Proof.
  induction q as [|a q IH]; intros l w l' w' c Hq Hi Hr; cbn [take_queued] in Hr.
  { injection Hr as <- <- <-. done. }
  rewrite (bind_run _ _ _ (popped q l, w) tt) in Hr by done.
  rewrite (bind_run _ _ _ (noted a (popped q l), w) tt) in Hr by done.
  pose proof (pop_measure a q l Hq) as Hlt. apply at_step in Hr as (w1&[cl|]&Hi1&_&Hr); [| |done].
  - injection Hr as <- <- <-. split_and!; [done..|lia|done].
  - apply IH in Hr as (Hi2&Hh&Hle&_); [| |done].
    + rewrite Hh. split_and!; [done..|lia|lia].
    + change (queue_of (noted a (popped q l)) s) with (queue_of (popped q l) s). apply popped_queue.
Qed.

(** The part of [leader_for_shard] after the queue. *)
Lemma hand_out_step c l w l' w' r : _hand_out s c (l, w) = ((l', w'), Ok r) →
  r = c ∧ w' = w ∧ (l' = l ∨ ∃ a, nf_address c = Some a ∧ l' = noted a l).
Proof.
  unfold _hand_out. destruct (nf_address c) as [a|].
  - rewrite (bind_run _ _ _ (noted a l, w) tt) by done. intros [= <- <- <-]. split_and!; [done..|right]. eauto.
  - intros [= <- <- <-]. auto.
Qed.

Definition unhinted l : ShardLeaders.t := with_hints (delete s (_hints l)) l.

Lemma from_table l w l' w' r :
  I w → (let* router := has_router in
   if (router : bool) then
     let* client := world (rt_leader_for_shard s) in
     match client with None => ret None | Some c => let* c := _hand_out s c in ret (Some c) end
   else
     let* leader := world (cl_shard_leader s) in
     match leader with None => ret None | Some node_id => world (nf_get_client s node_id None) end)
    (l, w) = ((l', w'), Ok r) →
  I w' ∧ _hints l' = _hints l ∧ (measure l' ≤ measure l)%nat.
Proof.
  intros Hi Hr. rewrite (bind_run _ _ _ (l, w) (_router l)) in Hr by done. destruct (_router l).
  - mstep Hr. unfold world in Hm. cbn in Hm. destruct (rt_leader_for_shard s w) as [w1 r1] eqn:Ht. injection Hm as <- ->.
    apply (bd_table _ _ _ Hb) in Ht; [|done]. destruct a as [c|]; [|by injection Hr as <- <- <-].
    mstep Hr. destruct n as [l2 w2]. apply hand_out_step in Hm as (->&->&Hl). injection Hr as <- <- <-.
    destruct Hl as [->|(a&_&->)]; [done|]. split_and!; [done..|]. apply noted_measure.
  - mstep Hr. unfold world in Hm. cbn in Hm. destruct (cl_shard_leader s w) as [w1 r1] eqn:Ht. injection Hm as <- ->.
    apply (bd_own _ _ _ Hb) in Ht; [|done]. destruct a as [i|]; [|by injection Hr as <- <- <-].
    unfold world in Hr. cbn in Hr. destruct (nf_get_client s i None w1) as [w2 r2] eqn:Hc. injection Hr as <- <- ->.
    by apply (bd_client _ _ _ Hb) in Hc.
Qed.

Lemma leader_measure l w l' w' c :
  _hints l !! s = None ∨ armed l → I w → leader_for_shard s (l, w) = ((l', w'), Ok c) →
  I w' ∧ _hints l' !! s = None ∧ (measure l' ≤ measure l)%nat ∧ (armed l → measure l' < measure l)%nat.
Proof.
  intros Hc Hi Hr. unfold leader_for_shard in Hr.
  rewrite (bind_run _ _ _ (unhinted l, w) (_hints l !! s)) in Hr by done.
  assert (_hints (unhinted l) !! s = None) as Hu by (cbn; apply lookup_delete_eq).
  destruct (_hints l !! s) as [h|] eqn:Hh.
  - destruct Hc as [?|Ha]; [done|]. assert (fresh l h) as Hf.
    { destruct Ha as [(h'&Hh'&Hf)|[Hn _]]; [|congruence]. rewrite Hh in Hh'. by injection Hh' as <-. }
    rewrite bind_assoc in Hr. apply at_step in Hr as (w1&cl&Hi1&Hcl&Hr); [|done].
    destruct Hf as (HU&Hna&Hre). destruct cl as [cl|].
    2:{ destruct Hcl as [_ Hcl]. destruct (Hcl Hre) as [? ?]. done. }
    rewrite bind_assoc, (bind_run _ _ _ (noted h (unhinted l), w1) tt) in Hr by done.
    injection Hr as <- <- <-. split; [done|]. split; [done|].
    assert (measure (noted h (unhinted l)) < measure l)%nat; [|lia].
    unfold measure. rewrite noted_asked. by apply waiting_fresh.
  - rewrite bind_ret in Hr. mstep Hr. destruct n as [l1 w1]. unfold _take_queued in Hm.
    apply take_queued_measure in Hm as (Hi1&Hh1&Hle&Hlt); [|done..]. rewrite <-Hh1 in Hu.
    change (measure (unhinted l)) with (measure l) in *. change (queue_of (unhinted l) s) with (queue_of l s) in Hlt.
    assert (armed l → queue_of l s ≠ []) as Hq.
    { intros [(h'&Hh'&_)|[_ Hq]]; [congruence|done]. }
    destruct a as [c1|].
    + injection Hr as <- <- <-. split_and!; [done..|]. auto.
    + apply from_table in Hr as (Hi2&->&Hle'); [|done]. split_and!; [done..|lia|]. intros Ha. specialize (Hlt (Hq Ha)). lia.
Qed.

Lemma openable_spec al : ∀ w w' r, I w → openable s al w = (w', Ok r) →
  I w' ∧ r = filter (λ a, reach a = true) al.
Proof.
  induction al as [|a al IH]; intros w w' r Hi Hr; cbn [openable] in Hr; [by injection Hr as <- <-|].
  mstep Hr. mstep Hr. injection Hr as <- <-. pose proof (bd_at _ _ _ Hb _ _ _ _ Hi Hm) as Hi1.
  apply IH in Hm0 as [Hi2 ->]; [|done]. apply (bd_reach _ _ _ Hb) in Hm; [|done]. split; [done|].
  destruct a0 as [c|].
  - rewrite filter_cons_True by (by apply Hm). done.
  - rewrite filter_cons_False; [done|]. intros Hre. apply Hm in Hre as [? ?]. done.
Qed.

(** What [refused_with] leaves in the queue. *)
Lemma queue_replicas_spec l w l' w' b :
  I w → _queue_replicas s (l, w) = ((l', w'), Ok b) →
  I w' ∧ ∃ al, (if _router l then ∃ w1, rt_replica_addresses s w = (w1, Ok al) else al = []) ∧
    let new := filter (λ a, a ∉ asked_of l s ∧ a ∉ queue_of l s) (filter (λ a, reach a = true) al) in
    _hints l' = _hints l ∧ asked_of l' s = asked_of l s ∧ queue_of l' s = queue_of l s ++ new ∧
    b = bool_decide (queue_of l s ++ new ≠ []).
Proof.
  intros Hi Hr. unfold _queue_replicas in Hr. mstep Hr. destruct n as [l1 w1].
  assert (I w1 ∧ l1 = l ∧ if _router l then ∃ w1, rt_replica_addresses s w = (w1, Ok a) else a = []) as (Hi1&->&Ha).
  { unfold _replica_addresses in Hm. rewrite (bind_run _ _ _ (l, w) (_router l)) in Hm by done.
    destruct (_router l); [|by injection Hm as <- <- <-]. unfold world in Hm. cbn in Hm.
    destruct (rt_replica_addresses s w) as [w2 r2] eqn:Ha. injection Hm as <- <- ->.
    split_and!; [by eapply (bd_listed _ _ _ Hb)|done|eauto]. }
  mstep Hr. destruct n as [l2 w2].
  assert (I w2 ∧ l2 = l ∧ a0 = filter (λ a, reach a = true) a) as (Hi2&->&->).
  { unfold world in Hm0. cbn in Hm0. destruct (openable s a w1) as [w3 r3] eqn:Ho. injection Hm0 as <- <- ->.
    by apply openable_spec in Ho as [? ->]. }
  injection Hr as <- <- <-. split; [done|]. exists a. split; [exact Ha|]. unfold asked_of, queue_of. cbn.
  by rewrite !lookup_insert_eq.
Qed.

Lemma refused_with_measure l w l' w' hint b :
  _hints l !! s = None → (∀ h, hint = Some h → h ∈ U) → I w →
  refused_with s hint (l, w) = ((l', w'), Ok b) →
  I w' ∧ (measure l' ≤ measure l)%nat ∧ (if b then armed l' else _hints l' !! s = None).
Proof.
  intros Hn HU Hi Hr. unfold refused_with in Hr. mstep Hr. destruct n as [l1 w1], a.
  - injection Hr as <- <- <-. destruct hint as [h|]; [|done]. unfold _remember_hint in Hm.
    rewrite (bind_run _ _ _ (l, w) (bool_decide (h ∈ asked_of l s))) in Hm by done.
    case_bool_decide as Hd; [done|]. apply at_step in Hm as (w2&[c|]&Hi2&Hc&Hm); [|done..].
    injection Hm as <- <-. split_and!; [done..|]. left. exists h. split; [apply lookup_insert_eq|].
    split_and!; [by apply HU|done|]. apply Hc. by eexists.
  - assert (I w1 ∧ l1 = l) as [Hi1 ->].
    { destruct hint as [h|]; [|by injection Hm as <- <-]. unfold _remember_hint in Hm.
      rewrite (bind_run _ _ _ (l, w) (bool_decide (h ∈ asked_of l s))) in Hm by done.
      case_bool_decide as Hd; [by injection Hm as <- <-|]. apply at_step in Hm as (w2&[c|]&Hi2&Hc&Hm); [done| |done].
      by injection Hm as <- <-. }
    apply queue_replicas_spec in Hr as (Hi2&al&Ha&Hh&Has&Hq&->); [|done]. split; [done|]. split.
    + unfold measure. rewrite Has, Hq. apply waiting_queue.
      * do 2 apply NoDup_filter. destruct (_router l); [|subst; constructor]. destruct Ha as [w2 Ha].
        by apply (bd_replicas _ _ _ Hb) in Ha as [Ha _].
      * intros a [[Hna Hnq] [Hre Hin]%list_elem_of_filter]%list_elem_of_filter. split_and!; try done.
        destruct (_router l); [|by subst; apply elem_of_nil in Hin]. destruct Ha as [w2 Ha].
        apply (bd_replicas _ _ _ Hb) in Ha as [_ Ha]; [auto|done].
    + case_bool_decide as Hd; [|by rewrite Hh]. right. by rewrite Hh, Hq.
Qed.

Lemma refresh_measure l w l' w' u :
  I w → refresh_for_shard s (l, w) = ((l', w'), Ok u) → I w' ∧ _hints l' !! s = None ∧ measure l' = (2 * size U)%nat.
Proof.
  intros Hi Hr. unfold refresh_for_shard in Hr. rewrite (bind_run _ _ _ (forget s l, w) tt) in Hr by done.
  assert (I w' ∧ l' = forget s l) as [Hi' ->].
  { rewrite (bind_run _ _ _ (forget s l, w) (_router l)) in Hr by done. destruct (_router l); [|by injection Hr as <- <-].
    unfold world in Hr. cbn in Hr. destruct (rt_refresh_for_shard s w) eqn:Ht. injection Hr as <- <- ->.
    split; [by eapply (bd_refresh _ _ _ Hb)|done]. }
  split; [done|]. split; [cbn; apply lookup_delete_eq|]. unfold measure, asked_of, queue_of, forget. cbn.
  rewrite !lookup_delete_eq. cbn. unfold waiting. cbn. rewrite !difference_empty_L. lia.
Qed.

(** *** The loop *)

Lemma world_step {B D} (m : M W B) (k : B → M (ShardLeaders.t * W) D) l w lw' d :
  bind (world m) k (l, w) = (lw', Ok d) → ∃ w1 b, m w = (w1, Ok b) ∧ k b (l, w1) = (lw', Ok d).
Proof. unfold bind, world. cbn. destruct (m w) as [w1 [b|x]]; cbn; [|done]. eauto. Qed.

Lemma ask_loop_ends fuel : ∀ first last reads l w, I w →
  (armed l ∧ first = None ∧ measure l + reads * (2 * size U + 1) ≤ fuel)%nat ∨
  (_hints l !! s = None ∧ measure l + 1 + reads * (2 * size U + 1) ≤ fuel)%nat →
  (ask_loop error_code leader_address fuel s question first last reads (l, w)).2 ≠ Ok None.
Proof.
  induction fuel as [|fuel IH]; intros first last reads l w Hi Hf.
  { destruct Hf as [(Ha&_&Hf)|[_ Hf]]; [pose proof (armed_positive _ Ha)|]; lia. }
  destruct (ask_loop _ _ _ _ _ _ _ _ _) as [[l' w'] r] eqn:Hr. cbn [snd]. intros ->. cbn [ask_loop] in Hr.
  mstep Hr. destruct n as [l1 w1].
  assert (I w1 ∧ _hints l1 !! s = None ∧ measure l1 + reads * (2 * size U + 1) ≤ fuel)%nat as (Hi1&Hh1&Hm1).
  { destruct first as [c|].
    - destruct Hf as [(_&?&_)|[Hh Hf]]; [done|]. injection Hm as <- <- <-. split_and!; [done..|lia].
    - apply leader_measure in Hm as (?&?&Hle&Hlt); [|naive_solver|done]. split; [done|]. split; [done|].
      destruct Hf as [(Ha&_&Hf)|[_ Hf]]; [specialize (Hlt Ha)|]; lia. }
  destruct a as [c|]; [|done]. apply world_step in Hr as (w2&rep&Hask&Hr).
  pose proof (bd_ask _ _ _ Hb _ _ _ _ Hi1 Hask) as Hi2. destruct rep as [a|o hint].
  { rewrite (bind_run _ _ _ (forget s l1, w2) tt) in Hr by done. done. }
  mstep Hr. destruct n as [l2 w3]. apply refused_with_measure in Hm0 as (Hi3&Hle2&Hb2); [|done| |done].
  2:{ intros h ->. exact (bd_hint _ _ _ Hb _ _ _ _ _ Hi1 Hask). }
  destruct a.
  - apply (IH None (last_answer o) reads l2 w3); [done|left; split_and!; [done..|lia]|]. by rewrite Hr.
  - destruct reads as [|reads]; [by destruct o|]. mstep Hr. destruct n as [l3 w4].
    apply refresh_measure in Hm0 as (Hi4&Hh3&Hm3); [|done].
    apply (IH None (last_answer o) reads l3 w4); [done|right; split; [done|lia]|]. by rewrite Hr.
Qed.

(** How many questions a walk may ask. *)
Definition walk_bound l (table_reads : Z) : nat :=
  2 * size U + length (queue_of l s) + 1 + Z.to_nat (table_reads - 1) * (2 * size U + 1).

Lemma walk_bound_measure l table_reads :
  (measure l + 1 + Z.to_nat (table_reads - 1) * (2 * size U + 1) ≤ walk_bound l table_reads)%nat.
Proof.
  unfold walk_bound, measure, waiting.
  assert (size (U ∖ asked_of l s) ≤ size U)%nat by (apply subseteq_size; set_solver).
  assert (size (U ∖ asked_of l s ∖ list_to_set (queue_of l s)) ≤ size U)%nat by (apply subseteq_size; set_solver).
  lia.
Qed.

(** C19: The walk ends.  Whatever the nodes answer and whatever happens between two
    questions, a walk over addresses of a finite set [U] asks at most [walk_bound]
    questions: two for every address of the set and for every read of the table, one for
    every address a former walk has left in the queue, and one more per read. *)
Theorem ask_shard_terminates fuel table_reads first l w :
  I w → _hints l !! s = None → (walk_bound l table_reads ≤ fuel)%nat →
  (ask_shard error_code leader_address fuel s question table_reads first (l, w)).2 ≠ Ok None.
Proof.
  intros Hi Hh Hf. apply ask_loop_ends; [done|]. right. split; [done|]. pose proof (walk_bound_measure l table_reads). lia.
Qed.

(** ** A replica that answers is found *)

(** The table lists [b], which can be opened; a handle on [b] gets an answer; the other
    nodes answer, refuse or say nothing; the table may name a leader or nobody; and nothing
    else is raised. *)
Record found (b : string) : Prop := {
  fd_open a w : I w → ∃ w' c, nf_get_client_at s a w = (w', Ok c);
  fd_reach : reach b = true;
  fd_listed w : I w → ∃ w' al, rt_replica_addresses s w = (w', Ok al) ∧ b ∈ al;
  fd_leader w : I w → ∃ w' c, rt_leader_for_shard s w = (w', Ok c);
  fd_asks c w : I w → ∃ w' r, ask error_code leader_address question c w = (w', Ok r);
  fd_at w w' c : I w → nf_get_client_at s b w = (w', Ok (Some c)) →
    ∀ w1, I w1 → ∃ w2 a, ask error_code leader_address question c w1 = (w2, Ok (final a));
  fd_of c : nf_address c = Some b →
    ∀ w1, I w1 → ∃ w2 a, ask error_code leader_address question c w1 = (w2, Ok (final a))
}.
Context (b : string) (Hf : found b).

Definition answers (c : C) : Prop :=
  ∀ w1, I w1 → ∃ w2 a, ask error_code leader_address question c w1 = (w2, Ok (final a)).

(** A handle that [leader_for_shard] may hand out while [b] has not been asked. *)
Definition looked_up l l' c : Prop :=
  _router l' = _router l ∧ (answers c ∨ b ∉ asked_of l' s).

Lemma take_queued_live q : ∀ l w, I w → b ∉ asked_of l s →
  ∃ l' w' c, take_queued s q (l, w) = ((l', w'), Ok c) ∧ I w' ∧ _router l' = _router l ∧
    ((∃ c1, c = Some c1 ∧ answers c1) ∨ b ∉ asked_of l' s) ∧ (b ∈ q → is_Some c).
Proof.
  induction q as [|a q IH]; intros l w Hi Hn; cbn [take_queued].
  { exists l, w, None. split_and!; auto. by intros ?%elem_of_nil. }
  rewrite (bind_run _ _ _ (popped q l, w) tt) by done.
  rewrite (bind_run _ _ _ (noted a (popped q l), w) tt) by done.
  destruct (fd_open _ Hf a w Hi) as (w1&c&Hc). pose proof (bd_at _ _ _ Hb _ _ _ _ Hi Hc) as Hi1.
  rewrite (bind_run _ _ _ (noted a (popped q l), w1) c) by (unfold world; cbn; by rewrite Hc).
  destruct (decide (a = b)) as [->|Hne].
  - pose proof (bd_reach _ _ _ Hb _ _ _ _ Hi Hc) as Hre. destruct (proj2 Hre (fd_reach _ Hf)) as [c1 ->].
    exists (noted b (popped q l)), w1, (Some c1). split_and!; [done..| |by eexists]. left. exists c1. split; [done|].
    intros w2. by eapply (fd_at _ Hf w).
  - assert (b ∉ asked_of (noted a (popped q l)) s) as Hn'.
    { rewrite noted_asked. change (asked_of (popped q l) s) with (asked_of l s). set_solver. }
    destruct c as [c|]; [exists (noted a (popped q l)), w1, (Some c); split_and!; auto; by eexists|].
    destruct (IH _ w1 Hi1 Hn') as (l'&w'&c&?&?&?&?&Hin). exists l', w', c. split_and!; try done.
    intros [?|?]%elem_of_cons; [congruence|auto].
Qed.

Lemma table_live l w : I w → _router l = true → b ∉ asked_of l s →
  ∃ l' w' o, (let* client := world (rt_leader_for_shard s) in
     match client with None => ret None | Some c => let* c := _hand_out s c in ret (Some c) end) (l, w)
    = ((l', w'), Ok o) ∧ I w' ∧ ∀ c, o = Some c → looked_up l l' c.
Proof.
  intros Hi Hr Hn. destruct (fd_leader _ Hf w Hi) as (w1&o&Hc). pose proof (bd_table _ _ _ Hb _ _ _ Hi Hc) as Hi1.
  rewrite (bind_run _ _ _ (l, w1) o) by (unfold world; cbn; by rewrite Hc).
  destruct o as [c|]; [|by exists l, w1, None]. unfold _hand_out. destruct (nf_address c) as [a|] eqn:Ha.
  - rewrite (bind_run _ _ _ (noted a l, w1) c) by done. exists (noted a l), w1, (Some c). split_and!; [done..|].
    intros c' [= <-]. split; [done|].
    destruct (decide (a = b)) as [->|Hne]; [left; intros w2; by apply (fd_of _ Hf)|right].
    rewrite noted_asked. set_solver.
  - exists l, w1, (Some c). split_and!; [done..|]. intros c' [= <-]. split; [done|by right].
Qed.

(** While [b] has not been asked, a walk that goes on has a node to ask next. *)
Definition on_the_way l : Prop :=
  (∃ h, _hints l !! s = Some h ∧ reach h = true) ∨ (_hints l !! s = None ∧ b ∈ queue_of l s).

Lemma leader_live l w : I w → _router l = true → b ∉ asked_of l s →
  ∃ l' w' o, leader_for_shard s (l, w) = ((l', w'), Ok o) ∧ I w' ∧
    (∀ c, o = Some c → looked_up l l' c) ∧ (on_the_way l → is_Some o).
Proof.
  intros Hi Hr Hn. unfold leader_for_shard.
  rewrite (bind_run _ _ _ (unhinted l, w) (_hints l !! s)) by done.
  assert (∀ w1, I w1 → ∃ l' w' o, (let* queued := _take_queued s in
      match queued with
      | Some c => ret (Some c)
      | None =>
          let* router := has_router in
          if (router : bool) then
            let* client := world (rt_leader_for_shard s) in
            match client with None => ret None | Some c => let* c := _hand_out s c in ret (Some c) end
          else
            let* leader := world (cl_shard_leader s) in
            match leader with None => ret None | Some node_id => world (nf_get_client s node_id None) end
      end) (unhinted l, w1) = ((l', w'), Ok o) ∧ I w' ∧ (∀ c, o = Some c → looked_up l l' c) ∧
      (b ∈ queue_of l s → is_Some o)) as Hrest.
  { intros w1 Hi1. destruct (take_queued_live (queue_of l s) (unhinted l) w1 Hi1 Hn) as (l2&w2&c&Hq&Hi2&Hr2&Hc&Hs).
    rewrite (bind_run (_take_queued s) _ _ (l2, w2) c) by exact Hq. destruct c as [c|].
    - exists l2, w2, (Some c). split_and!; [done|done| |by eexists]. intros c' [= <-]. split; [done|].
      destruct Hc as [(c1&[= <-]&?)|?]; auto.
    - destruct Hc as [(c1&?&_)|Hn2]; [done|]. rewrite (bind_run _ _ _ (l2, w2) true).
      2:{ unfold has_router. cbn. rewrite Hr2. cbn. by rewrite Hr. }
      destruct (table_live l2 w2 Hi2) as (l'&w'&o&?&?&Ho); [by rewrite Hr2|done|].
      exists l', w', o. split_and!; [done|done| |]; [|intros Hin; by destruct (Hs Hin)].
      intros c Hoc. destruct (Ho c Hoc) as [Hr3 ?]. split; [by rewrite Hr3, Hr2|done]. }
  destruct (_hints l !! s) as [h|] eqn:Hh.
  2:{ destruct (Hrest w Hi) as (l'&w'&o&?&?&?&Hs). exists l', w', o. split_and!; try done.
      intros [(h&?&_)|[_ ?]]; [congruence|auto]. }
  destruct (fd_open _ Hf h w Hi) as (w1&c&Hc). pose proof (bd_at _ _ _ Hb _ _ _ _ Hi Hc) as Hi1.
  pose proof (bd_reach _ _ _ Hb _ _ _ _ Hi Hc) as Hre.
  rewrite bind_assoc, (bind_run _ _ _ (unhinted l, w1) c) by (unfold world; cbn; by rewrite Hc).
  destruct c as [c|].
  2:{ destruct (Hrest w1 Hi1) as (l'&w'&o&?&?&?&_). exists l', w', o. split_and!; try done.
      intros [(h'&E&Hr')|[E _]]; rewrite Hh in E; [injection E as <-|done]. apply Hre in Hr' as [? ?]. done. }
  rewrite bind_assoc, (bind_run _ _ _ (noted h (unhinted l), w1) tt) by done.
  exists (noted h (unhinted l)), w1, (Some c). split_and!; [done|done| |by eexists]. intros c' [= <-]. split; [done|].
  destruct (decide (h = b)) as [->|Hne]; [left; intros w2; by eapply (fd_at _ Hf w)|right].
  rewrite noted_asked. change (asked_of (unhinted l) s) with (asked_of l s). set_solver.
Qed.

(** While [b] has not been asked there is somewhere to go. *)
Lemma openable_live al : ∀ w, I w → ∃ w', openable s al w = (w', Ok (filter (λ a, reach a = true) al)).
Proof.
  induction al as [|a al IH]; intros w Hi; cbn [openable]; [by eexists|].
  destruct (fd_open _ Hf a w Hi) as (w1&c&Hc). rewrite (bind_run _ _ _ _ _ Hc).
  destruct (IH w1) as (w2&Ho); [by eapply (bd_at _ _ _ Hb)|]. rewrite (bind_run _ _ _ _ _ Ho). exists w2. unfold ret. do 2 f_equal.
  apply (bd_reach _ _ _ Hb) in Hc; [|done]. destruct c as [c|].
  - rewrite filter_cons_True; [done|]. apply Hc. by eexists.
  - rewrite filter_cons_False; [done|]. intros Hre. apply Hc in Hre as [? ?]. done.
Qed.

Lemma queue_live l w : I w → _router l = true → b ∉ asked_of l s →
  ∃ l' w', _queue_replicas s (l, w) = ((l', w'), Ok true) ∧ _router l' = true ∧
    asked_of l' s = asked_of l s ∧ _hints l' = _hints l ∧ b ∈ queue_of l' s.
Proof.
  intros Hi Hr Hn. unfold _queue_replicas, _replica_addresses. destruct (fd_listed _ Hf w Hi) as (w2&al&Hal&Hin).
  rewrite (bind_run _ _ _ (l, w2) al).
  2:{ rewrite (bind_run _ _ _ (l, w) (_router l)) by done. rewrite Hr. unfold world. cbn. by rewrite Hal. }
  destruct (openable_live al w2) as (w3&Ho); [by eapply (bd_listed _ _ _ Hb)|]. rewrite (bind_run _ _ _ (l, w3) (filter (λ a, reach a = true) al)).
  2:{ unfold world. cbn. by rewrite Ho. }
  set (new := filter (λ a, a ∉ asked_of l s ∧ a ∉ queue_of l s) (filter (λ a, reach a = true) al)).
  assert (b ∈ queue_of l s ++ new) as Hbq.
  { apply elem_of_app. destruct (decide (b ∈ queue_of l s)); [by left|right].
    apply list_elem_of_filter. split; [done|]. apply list_elem_of_filter. split; [apply Hf|done]. }
  unfold mine. cbn. eexists _, _. split; [do 2 f_equal; apply bool_decide_eq_true; intros He|].
  - fold new in He. rewrite He in Hbq. by apply elem_of_nil in Hbq.
  - unfold asked_of, queue_of. cbn. by rewrite !lookup_insert_eq.
Qed.

Lemma refused_with_live hint l w : I w → _router l = true → _hints l !! s = None → b ∉ asked_of l s →
  ∃ l' w', refused_with s hint (l, w) = ((l', w'), Ok true) ∧ _router l' = true ∧
    asked_of l' s = asked_of l s ∧ on_the_way l'.
Proof.
  intros Hi Hr Hh Hn. unfold refused_with.
  assert (∀ w1, I w1 → ∃ l' w', _queue_replicas s (l, w1) = ((l', w'), Ok true) ∧ _router l' = true ∧
    asked_of l' s = asked_of l s ∧ on_the_way l') as Hq.
  { intros w1 Hi1. destruct (queue_live l w1 Hi1 Hr Hn) as (l'&w'&?&?&?&Hh'&?). exists l', w'. split_and!; try done.
    right. by rewrite Hh'. }
  destruct hint as [h|]; [|by apply Hq]. unfold _remember_hint.
  rewrite bind_assoc, (bind_run _ _ _ (l, w) (bool_decide (h ∈ asked_of l s))) by done.
  case_bool_decide; [by apply Hq|]. destruct (fd_open _ Hf h w Hi) as (w1&c&Hc).
  pose proof (bd_at _ _ _ Hb _ _ _ _ Hi Hc) as Hi1. pose proof (bd_reach _ _ _ Hb _ _ _ _ Hi Hc) as Hre.
  rewrite bind_assoc, (bind_run _ _ _ (l, w1) c) by (unfold world; cbn; by rewrite Hc).
  destruct c as [c|]; [|by apply Hq]. rewrite bind_assoc.
  exists (with_hints (<[s := h]> (_hints l)) l), w1. split_and!; try done. left. exists h.
  split; [apply lookup_insert_eq|]. apply Hre. by eexists.
Qed.

Lemma ask_final c w w' a : ask error_code leader_address question c w = (w', Ok (final a)) →
  error_code a ≠ Some ErrorCode.ERR_NOT_LEADER.
Proof.
  unfold ask. destruct (question c w) as [w1 [[a1|]|x]]; [case_decide; [done|]; by intros [= _ <-]|done|].
  destruct x; try done. by case_decide.
Qed.

(** Where a walk begins: the caller's pick, or what [leader_for_shard] hands out. *)
Definition starts (first : option C) : M (ShardLeaders.t * W) (option C) :=
  match first with Some c => ret (Some c) | None => leader_for_shard s end.

(** One question and what follows, from a node the walk has. *)
Lemma ask_turn_live fuel (IH : ∀ last reads l w, I w → _router l = true → b ∉ asked_of l s →
    armed l → on_the_way l → (measure l ≤ fuel)%nat →
    ∃ l' w' a, ask_loop error_code leader_address fuel s question None last reads (l, w) = ((l', w'), Ok (Some (Some a))) ∧
      error_code a ≠ Some ErrorCode.ERR_NOT_LEADER ∧ l' = forget s l') first last reads l w l1 w1 c :
  starts first (l, w) = ((l1, w1), Ok (Some c)) → I w1 → _router l1 = true → _hints l1 !! s = None →
  answers c ∨ b ∉ asked_of l1 s → (measure l1 ≤ fuel)%nat →
  ∃ l' w' a, ask_loop error_code leader_address (S fuel) s question first last reads (l, w) = ((l', w'), Ok (Some (Some a))) ∧
    error_code a ≠ Some ErrorCode.ERR_NOT_LEADER ∧ l' = forget s l'.
Proof.
  intros Hl Hi1 Hr1 Hh1 Hc Hm1. cbn [ask_loop].
  rewrite (bind_run _ _ _ _ _ Hl). destruct (fd_asks _ Hf c w1 Hi1) as (w2&r&Hask).
  pose proof (bd_ask _ _ _ Hb _ _ _ _ Hi1 Hask) as Hi2.
  rewrite (bind_run _ _ _ (l1, w2) r) by (unfold world; cbn; by rewrite Hask). destruct r as [a|o hint].
  - rewrite (bind_run _ _ _ (forget s l1, w2) tt) by done. exists (forget s l1), w2, a. split_and!; [done|by eapply ask_final|].
    unfold forget, with_hints, with_queued, with_asked. cbn. by rewrite !delete_delete_eq.
  - destruct Hc as [Hc|Hn1]; [destruct (Hc w1 Hi1) as (?&?&?); congruence|].
    destruct (refused_with_live hint l1 w2 Hi2 Hr1 Hh1 Hn1) as (l2&w3&Hrw&Hr2&Ha2&Hw2). rewrite (bind_run _ _ _ _ _ Hrw).
    apply refused_with_measure in Hrw as (Hi3&Hle2&Harm); [|done| |done].
    2:{ intros h ->. exact (bd_hint _ _ _ Hb _ _ _ _ _ Hi1 Hask). }
    apply IH; [done..|by rewrite Ha2|done|done|lia].
Qed.

Lemma ask_loop_live fuel : ∀ last reads l w, I w →
  _router l = true → b ∉ asked_of l s → armed l → on_the_way l → (measure l ≤ fuel)%nat →
  ∃ l' w' a, ask_loop error_code leader_address fuel s question None last reads (l, w) = ((l', w'), Ok (Some (Some a))) ∧
    error_code a ≠ Some ErrorCode.ERR_NOT_LEADER ∧ l' = forget s l'.
Proof.
  induction fuel as [|fuel IH]; intros last reads l w Hi Hro Hn Ha Hw Hm.
  { pose proof (armed_positive _ Ha). lia. }
  destruct (leader_live l w Hi Hro Hn) as (l1&w1&o&Hl&Hi1&Hlook&Hsome). destruct (Hsome Hw) as [c ->].
  destruct (Hlook c eq_refl) as [Hr1 Hc].
  destruct (leader_measure _ _ _ _ _ (or_intror Ha) Hi Hl) as (_&Hh1&_&Hlt). specialize (Hlt Ha).
  eapply (ask_turn_live fuel IH None); [exact Hl|done|by rewrite Hr1|done|done|lia].
Qed.

(** C20: The walk finds a replica that answers.  Let the table list an address that can be
    opened, whose node answers and which has not been asked yet, and let nothing be raised
    but refusals and silence.  If the walk has a node to ask first - the caller's pick, or
    the one [leader_for_shard] hands out - then [ask_shard] hands back an answer that is not
    a refusal, whatever the other nodes refuse, keep silent about or name as their leader,
    and it has forgotten the walk.  If it has none, because the table names no leader and no
    replica is queued, the answer is [None] and nobody is asked, that replica neither. *)
Theorem ask_shard_finds_replica fuel table_reads first l w :
  I w → _router l = true → _hints l !! s = None → b ∉ asked_of l s → (walk_bound l table_reads ≤ fuel)%nat →
  ∃ l1 w1 o, starts first (l, w) = ((l1, w1), Ok o) ∧
  match o with
  | Some _ => ∃ l' w' a,
      ask_shard error_code leader_address fuel s question table_reads first (l, w) = ((l', w'), Ok (Some (Some a))) ∧
      error_code a ≠ Some ErrorCode.ERR_NOT_LEADER ∧ l' = forget s l'
  | None => ask_shard error_code leader_address fuel s question table_reads first (l, w) = ((l1, w1), Ok (Some None))
  end.
Proof.
  intros Hi Hr Hh Hn Hfu. pose proof (walk_bound_measure l table_reads).
  set (x := (Z.to_nat _ * _)%nat) in *. destruct fuel as [|fuel]; [lia|].
  assert (∃ l1 w1 o, starts first (l, w) = ((l1, w1), Ok o) ∧ I w1 ∧ _hints l1 !! s = None ∧
    (measure l1 ≤ measure l)%nat ∧ ∀ c, o = Some c → looked_up l l1 c) as (l1&w1&o&Hs&Hi1&Hh1&Hle&Hc).
  { destruct first as [c|]; [exists l, w, (Some c); split_and!; try done; intros; split; auto|].
    destruct (leader_live l w Hi Hr Hn) as (l1&w1&o&Hl&Hi1&Hlook&_).
    destruct (leader_measure _ _ _ _ _ (or_introl Hh) Hi Hl) as (_&Hh1&Hle&_). exists l1, w1, o.
    by split_and!. }
  exists l1, w1, o. split; [done|]. destruct o as [c|].
  - destruct (Hc c eq_refl) as [Hr1 ?].
    eapply (ask_turn_live fuel (ask_loop_live fuel)); [exact Hs|done|by rewrite Hr1|done|done|lia].
  - unfold ask_shard. cbn [ask_loop]. change (match first with Some c => ret (Some c) | None => leader_for_shard s end) with (starts first).
    by rewrite (bind_run _ _ _ _ _ Hs).
Qed.
End walk.

(** ** A node that is asked twice *)

Module AskedTwice.
Local Open Scope string_scope.

(** A shard with four replicas; the world is the list of addresses that were asked. *)
Definition replicas : list string := ["a"; "b"; "c"; "d"].
#[global] Instance factory : NodeClientFactory (list string) string := {|
  nf_get_client _ _ address := ret address;
  nf_get_client_at _ address := ret (if decide (address ∈ replicas) then Some address else None);
  nf_forget_client _ _ := ret tt;
  nf_address c := Some c
|}.
#[global] Instance router : TableRouter (list string) string := {|
  rt_leader_for_shard _ := ret (Some "a");
  rt_any_replica_for _ := ret (Some "a");
  rt_replica_addresses _ := ret replicas;
  rt_routes := ret [];
  rt_shard_for _ := ret (Some 0);
  rt_refresh_for_shard _ := ret tt;
  rt_invalidate _ := ret tt
|}.
#[global] Instance own : OwnPlacement (list string) := {| cl_shard_leader _ := ret None; cl_range_map := ret [] |}.

(** An answer is its error code and the leader's address.  Nobody leads; "b" believes "d"
    does. *)
Definition question (serving : list string) (c : string) : M (list string) (option (option Z * option string)) := λ w,
  ((w ++ [c])%list,
   Ok (Some (if decide (c ∈ serving) then (None, None)
             else (Some ErrorCode.ERR_NOT_LEADER, if decide (c = "b") then Some "d" else None)))).

Definition walk (fuel : nat) (serving : list string) : list string :=
  (ask_shard fst snd fuel 0 (question serving) 1 None (ShardLeaders.init true, [])).1.2.

(** A node is asked twice in one walk.  A node that refuses while replicas are queued may
    name one of them; it is asked at once, and again when its turn in the queue comes: four
    replicas, five questions, with one read of the table. *)
Theorem hinted_replica_is_asked_twice : walk 20 [] = ["a"; "b"; "d"; "c"; "d"].
Proof. vm_compute. done. Qed.

Lemma walk_bounded serving : bounded fst snd 0 (question serving) (λ _, True) (list_to_set replicas) (λ a, bool_decide (a ∈ replicas)).
Proof.
  split; try done.
  - intros a w w' r _ [= <- <-]. rewrite bool_decide_eq_true. by case_decide; split; try done; intros [? ?].
  - intros w w' al _ [= <- <-]. split; [|intros; by apply elem_of_list_to_set].
    unfold replicas. rewrite !list.NoDup_cons. repeat split; try set_solver. constructor.
  - intros c w w' o h _. unfold ask, question. destruct (decide (c ∈ serving)); cbn.
    + rewrite decide_False by done. intros [=].
    + rewrite decide_True by done. case_decide; intros [= _ _ <-]. set_solver.
Qed.
End AskedTwice.
