(* ===== verification/RoutingCache.v ===== *)
(** The routing table as a client holds it: [RoutingCache] of [metadata/cache.py], and the
    in-process handles of [client/node_client.py].

    The cache is the [TableRouter] that [ShardLeaders] is given.  What it reads the table
    from is the class [TableSource]; the handles come from the same factory the walk uses. *)

From Stdlib Require Import ZArith Lia.
From S2P Require Import Prelude Bytes PyVal PyOps Dict Router Metadata Routing.

(** [MetadataClient.table(refresh=True)] and [time.monotonic()]. *)
Class TableSource (W : Type) := {
  ts_read : M W RoutingTable;
  ts_monotonic : M W Z
}.

Module RoutingCache.
Section cache.
Context {W C : Type} `{NodeClientFactory W C} `{!TableSource W}.

(** The order [random.shuffle] leaves a list in. *)
Context (shuffle : list Z → list Z).

Record t := {
  _local_node_id : option Z;
  _missing_leader_refresh_interval : Z;
  _last_read : Z;
  _table : option RoutingTable;
  refreshes : Z
}.

Definition init (local_node_id : option Z) (interval : Z) : t :=
  {| _local_node_id := local_node_id; _missing_leader_refresh_interval := interval;
     _last_read := 0; _table := None; refreshes := 0 |}.

Definition with_last_read (now : Z) (c : t) : t :=
  {| _local_node_id := _local_node_id c;
     _missing_leader_refresh_interval := _missing_leader_refresh_interval c;
     _last_read := now; _table := _table c; refreshes := refreshes c |}.
Definition with_table (table : RoutingTable) (c : t) : t :=
  {| _local_node_id := _local_node_id c;
     _missing_leader_refresh_interval := _missing_leader_refresh_interval c;
     _last_read := _last_read c; _table := Some table; refreshes := refreshes c |}.
Definition with_refreshes (n : Z) (c : t) : t :=
  {| _local_node_id := _local_node_id c;
     _missing_leader_refresh_interval := _missing_leader_refresh_interval c;
     _last_read := _last_read c; _table := _table c; refreshes := n |}.

Definition outside {A} (m : M W A) : M (t * W) A := λ cw,
  let '(w, r) := m cw.2 in ((cw.1, w), r).
Definition own {A} (f : t → t * A) : M (t * W) A := λ cw,
  let '(c, a) := f cw.1 in ((c, cw.2), Ok a).

Definition _read : M (t * W) RoutingTable :=
  let* table := outside ts_read in
  let* now := outside ts_monotonic in
  own (λ c, (with_last_read now c, tt));;;
  ret table.

Definition table : M (t * W) RoutingTable :=
  let* held := own (λ c, (c, _table c)) in
  match held with
  | Some table => ret table
  | None => let* table := _read in own (λ c, (with_table table c, tt));;; ret table
  end.

(** The count moves before the read, so a read that raises counts as well. *)
Definition refresh : M (t * W) RoutingTable :=
  own (λ c, (with_refreshes (refreshes c + 1) c, tt));;;
  let* table := _read in
  own (λ c, (with_table table c, tt));;;
  ret table.

Definition shard_for (key : bytes) : M (t * W) (option ShardPlacement) :=
  let* tb := table in ret (Metadata.shard_for tb key).

Definition _client_for (shard_id : Z) : M (t * W) (option C) :=
  let* tb := table in
  match Metadata.shard tb shard_id with
  | None => ret None
  | Some placement =>
      match sp_leader_id placement with
      | None => ret None
      | Some leader => outside (nf_get_client shard_id leader (leader_address placement))
      end
  end.

Definition _refresh_if_it_could_have_changed : M (t * W) unit :=
  let* now := outside ts_monotonic in
  let* recent := own (λ c, (c, now - _last_read c <? _missing_leader_refresh_interval c)) in
  if (recent : bool) then ret tt else refresh;;; ret tt.

Definition leader_for_shard (shard_id : Z) : M (t * W) (option C) :=
  let* client := _client_for shard_id in
  match client with
  | Some c => ret (Some c)
  | None => _refresh_if_it_could_have_changed;;; _client_for shard_id
  end.

(** The loop of [replica_addresses]: the addresses of the nodes that have one, each once. *)
Fixpoint add_addresses (addresses : gmap Z string) (nodes : list Z) (acc : list string) : list string :=
  match nodes with
  | [] => acc
  | node_id :: nodes =>
      add_addresses addresses nodes
        (match addresses !! node_id with
         | Some a => if decide (a ∈ acc) then acc else acc ++ [a]
         | None => acc
         end)
  end.
Definition addresses_of (placement : ShardPlacement) : list string :=
  add_addresses (sp_addresses placement) (sp_nodes placement)
    (match leader_address placement with Some a => [a] | None => [] end).

Definition replica_addresses (shard_id : Z) : M (t * W) (list string) :=
  let* tb := table in
  ret (match Metadata.shard tb shard_id with None => [] | Some placement => addresses_of placement end).

(** The loop of [any_replica_for]: the first of the nodes there is a handle for. *)
Fixpoint first_handle (shard_id : Z) (addresses : gmap Z string) (nodes : list Z) : M (t * W) (option C) :=
  match nodes with
  | [] => ret None
  | node_id :: nodes =>
      let* handle := outside (nf_get_client shard_id node_id (addresses !! node_id)) in
      match handle with
      | Some c => ret (Some c)
      | None => first_handle shard_id addresses nodes
      end
  end.

Definition any_replica_for (shard_id : Z) : M (t * W) (option C) :=
  let* tb := table in
  match Metadata.shard tb shard_id with
  | None => ret None
  | Some placement =>
      if decide (sp_nodes placement = []) then ret None
      else
        let* local := own (λ c, (c, _local_node_id c)) in
        let* here := match local with
                     | Some i => if decide (i ∈ sp_nodes placement)
                                 then outside (nf_get_client shard_id i (sp_addresses placement !! i))
                                 else ret None
                     | None => ret None
                     end in
        match here with
        | Some c => ret (Some c)
        | None => first_handle shard_id (sp_addresses placement) (shuffle (sp_nodes placement))
        end
  end.

Definition routes : M (t * W) RangeMap := let* tb := table in ret (Metadata.routes tb).

Definition refresh_for_shard (shard_id : Z) : M (t * W) unit := refresh;;; ret tt.

Definition invalidate (shard_id : Z) : M (t * W) unit :=
  let* tb := table in
  match Metadata.shard tb shard_id with
  | None => ret tt
  | Some placement =>
      match sp_leader_id placement with
      | None => ret tt
      | Some leader => outside (nf_forget_client shard_id leader)
      end
  end.

Definition leader_for_key (key : bytes) : M (t * W) (option C) :=
  let* placement := shard_for key in
  match placement with None => ret None | Some p => leader_for_shard (sp_shard_id p) end.

(** The cache as what a walk goes by. *)
#[global] Instance factory : NodeClientFactory (t * W) C := {|
  nf_get_client s i a := outside (nf_get_client s i a);
  nf_get_client_at s a := outside (nf_get_client_at s a);
  nf_forget_client s i := outside (nf_forget_client s i);
  nf_address := nf_address
|}.
#[global] Instance router : TableRouter (t * W) C := {|
  rt_leader_for_shard := leader_for_shard;
  rt_any_replica_for := any_replica_for;
  rt_replica_addresses := replica_addresses;
  rt_routes := routes;
  rt_shard_for key := let* p := shard_for key in ret (sp_shard_id <$> p);
  rt_refresh_for_shard := refresh_for_shard;
  rt_invalidate := invalidate
|}.
End cache.
End RoutingCache.

(** ** The nodes in this process *)

(** [cluster.get_shard_server(node_id).get_shard_node(shard_id)]. *)
Class NodesHere (W N : Type) := { nh_node : Z → Z → W → option N }.

Module LocalNodeClientFactory.
Section factory.
Context {W N : Type} `{NodesHere W N}.

(** A handle is the node it wraps. *)
Record t := { _clients : gmap (Z * Z) N }.
Definition init : t := {| _clients := ∅ |}.

Definition get_client (shard_id node_id : Z) (address : option string) : M (t * W) (option N) := λ fw,
  match _clients fw.1 !! (shard_id, node_id) with
  | Some client => (fw, Ok (Some client))
  | None =>
      match nh_node shard_id node_id fw.2 with
      | None => (fw, Ok None)
      | Some node => (({| _clients := <[(shard_id, node_id) := node]> (_clients fw.1) |}, fw.2), Ok (Some node))
      end
  end.

Definition get_client_at (shard_id : Z) (address : string) : M (t * W) (option N) := ret None.

Definition forget_client (shard_id node_id : Z) : M (t * W) unit := λ fw,
  (({| _clients := base.delete (shard_id, node_id) (_clients fw.1) |}, fw.2), Ok tt).

#[global] Instance handles : NodeClientFactory (t * W) N := {|
  nf_get_client := get_client;
  nf_get_client_at := get_client_at;
  nf_forget_client := forget_client;
  nf_address _ := None
|}.
End factory.
End LocalNodeClientFactory.
