(* ===== verification/RoutingCacheFacts.v ===== *)
(** The routing cache gives a walk what it relies on, so a walk over the cached table ends;
    a read that may go to any replica goes to one of the set, and to the nearest one. *)

From Stdlib Require Import ZArith Lia.
From S2P Require Import Prelude Bytes PyVal PyOps Dict StateMachine Router Metadata Routing RoutingFacts RoutingCache.
Import RoutingCache.

(** ** The addresses of a placement *)

Lemma add_addresses_spec m nodes : ∀ acc, NoDup acc →
  NoDup (add_addresses m nodes acc) ∧
  ∀ a, a ∈ add_addresses m nodes acc ↔ a ∈ acc ∨ ∃ i, i ∈ nodes ∧ m !! i = Some a.
Proof.
  induction nodes as [|i nodes IH]; intros acc Hn; cbn [add_addresses].
  { split; [done|]. intros a. split; [by left|]. intros [?|(i&?%elem_of_nil&_)]; done. }
  set (acc' := match m !! i with Some a => if decide (a ∈ acc) then acc else acc ++ [a] | None => acc end).
  assert (NoDup acc' ∧ ∀ a, a ∈ acc' ↔ a ∈ acc ∨ m !! i = Some a) as [Hn' Hin'].
  { unfold acc'. destruct (m !! i) as [a|] eqn:Hi; [case_decide as Hd|].
    - split; [done|]. intros x. split; [by left|]. intros [?|[= <-]]; done.
    - split; [|intros x; set_solver]. apply NoDup_app. split_and!; [done|set_solver|apply NoDup_singleton].
    - split; [done|]. intros x. split; [by left|]. by intros [?|?]. }
  destruct (IH acc' Hn') as [Hd Hin]. split; [done|]. intros a. rewrite Hin, Hin'. split.
  - intros [[?|?]|(j&?&?)]; [by left|right; exists i; split; [by left|done]|right; exists j; split; [by right|done]].
  - intros [?|(j&[->|?]%elem_of_cons&?)]; eauto.
Qed.

(** Every replica once, and the leader among them. *)
Lemma addresses_of_spec p :
  NoDup (addresses_of p) ∧
  ∀ a, a ∈ addresses_of p ↔ leader_address p = Some a ∨ ∃ i, i ∈ sp_nodes p ∧ sp_addresses p !! i = Some a.
Proof.
  unfold addresses_of. destruct (add_addresses_spec (sp_addresses p) (sp_nodes p)
    (match leader_address p with Some a => [a] | None => [] end)) as [Hn Hin].
  { destruct (leader_address p); [apply NoDup_singleton|constructor]. }
  split; [done|]. intros a. rewrite Hin. destruct (leader_address p); set_solver.
Qed.

Section cache.
Context {W C : Type} `{NodeClientFactory W C} `{!TableSource W} (shuffle : list Z → list Z).
Abbreviation st := (RoutingCache.t * W)%type.

(** ** A walk over the cache *)

Section walk.
Context (J : W → Prop) (U : gset string) (reach : string → bool).

(** Every address a table names is in [U]. *)
Definition known (tb : RoutingTable) : Prop :=
  ∀ i p n a, Metadata.shard tb i = Some p → sp_addresses p !! n = Some a → a ∈ U.

(** What the walk relies on outside the cache, for one shard. *)
Record reliable (s : Z) : Prop := {
  rl_read w w' tb : J w → ts_read w = (w', Ok tb) → J w' ∧ known tb;
  rl_time w w' z : J w → ts_monotonic w = (w', Ok z) → J w';
  rl_client i a w w' c : J w → nf_get_client s i a w = (w', Ok c) → J w';
  rl_at a w w' c : J w → nf_get_client_at s a w = (w', Ok c) → J w' ∧ (is_Some c ↔ reach a = true)
}.
Context (s : Z) (Hr : reliable s).

Definition inv (cw : st) : Prop := J cw.2 ∧ ∀ tb, _table cw.1 = Some tb → known tb.

Lemma outside_keeps {B} (m : M W B) :
  (∀ w w' b, J w → m w = (w', Ok b) → J w') → keeps inv (outside (W := W) m).
Proof.
  intros Hm [c w] cw' b [Hj Ht] Ho. unfold outside in Ho. cbn in Ho. destruct (m w) as [w1 r] eqn:Hmw.
  injection Ho as <- ->. split; [by eapply Hm|done].
Qed.
Lemma own_keeps {B} (f : RoutingCache.t → RoutingCache.t * B) :
  (∀ c, _table (f c).1 = _table c) → keeps inv (own (W := W) f).
Proof.
  intros Hf [c w] cw' b [Hj Ht] Ho. unfold own in Ho. cbn in Ho. specialize (Hf c). destruct (f c) as [c1 b1].
  cbn in Hf. injection Ho as <- <-. split; [done|]. cbn. intros tb. rewrite Hf. apply Ht.
Qed.
Lemma bind_keeps {B D} (m : M st B) (k : B → M st D) :
  keeps inv m → (∀ b, keeps inv (k b)) → keeps inv (bind m k).
Proof. intros Hm Hk w w' d Hi Hd. mstep Hd. eapply Hk; [|done]. by eapply Hm. Qed.
Lemma ret_keeps {B} (b : B) : keeps inv (ret b).
Proof. by intros w w' b' Hi [= <- _]. Qed.

(** What the table is read as is known, and is kept as it was read. *)
Lemma store_read : keeps inv (let* tb := _read in own (λ c, (with_table tb c, tt));;; ret tb).
Proof.
  intros [c w] cw' tb [Hj Ht] Ho. mstep Ho. unfold _read in Hm. mstep Hm.
  unfold outside in Hm0. cbn in Hm0. destruct (ts_read w) as [w1 r1] eqn:Hrd. injection Hm0 as <- ->.
  apply (rl_read _ Hr) in Hrd as [Hj1 Hk]; [|done]. mstep Hm. unfold outside in Hm0. cbn in Hm0.
  destruct (ts_monotonic w1) as [w2 r2] eqn:Ht2. injection Hm0 as <- ->. apply (rl_time _ Hr) in Ht2; [|done].
  injection Hm as <- <-. injection Ho as <- <-. split; [done|]. cbn. by intros tb' [= <-].
Qed.

Lemma table_keeps cw cw' tb : inv cw → table cw = (cw', Ok tb) → inv cw' ∧ known tb.
Proof.
  intros Hi Ho. unfold table in Ho. rewrite (bind_run _ _ _ cw (_table cw.1)) in Ho by (by destruct cw).
  destruct (_table cw.1) as [tb0|] eqn:Ht.
  - injection Ho as <- <-. split; [done|]. by apply Hi.
  - split; [by eapply store_read|]. mstep Ho. mstep Ho. injection Ho as <- <-.
    unfold _read in Hm. mstep Hm. unfold outside in Hm1. cbn in Hm1. destruct (ts_read cw.2) as [w1 r1] eqn:Hrd.
    injection Hm1 as _ ->. apply (rl_read _ Hr) in Hrd as [_ Hk]; [|apply Hi].
    mstep Hm. by injection Hm as _ <-.
Qed.
Lemma table_bind_keeps {D} (k : RoutingTable → M st D) : (∀ tb, keeps inv (k tb)) → keeps inv (bind table k).
Proof. intros Hk w w' d Hi Hd. mstep Hd. eapply Hk; [|done]. by eapply table_keeps. Qed.

Lemma refresh_keeps : keeps inv refresh.
Proof. apply bind_keeps; [by apply own_keeps|]. intros _. apply store_read. Qed.

Lemma client_for_keeps : keeps inv (_client_for s).
Proof.
  apply table_bind_keeps. intros tb. destruct (Metadata.shard tb s) as [p|]; [|apply ret_keeps].
  destruct (sp_leader_id p); [|apply ret_keeps]. apply outside_keeps. intros. by eapply (rl_client _ Hr).
Qed.

Lemma leader_keeps : keeps inv (leader_for_shard s).
Proof.
  apply bind_keeps; [apply client_for_keeps|]. intros [c|]; [apply ret_keeps|].
  apply bind_keeps; [|intros _; apply client_for_keeps].
  apply bind_keeps; [apply outside_keeps; intros; by eapply (rl_time _ Hr)|]. intros now.
  apply bind_keeps; [by apply own_keeps|]. intros []; [apply ret_keeps|].
  apply bind_keeps; [apply refresh_keeps|]. intros _. apply ret_keeps.
Qed.

Lemma replica_addresses_known cw cw' al : inv cw → replica_addresses s cw = (cw', Ok al) →
  NoDup al ∧ ∀ a, a ∈ al → a ∈ U.
Proof.
  intros Hi Ho. unfold replica_addresses in Ho. mstep Ho. injection Ho as <- <-.
  apply table_keeps in Hm as [_ Hk]; [|done]. destruct (Metadata.shard a s) as [p|] eqn:Hp; [|split; [constructor|set_solver]].
  destruct (addresses_of_spec p) as [Hn Hin]. split; [done|]. intros x [Hx|(i&_&Hx)]%Hin; [|by eapply Hk].
  unfold leader_address in Hx. destruct (sp_leader_id p) as [i|]; [|done]. by eapply Hk.
Qed.

Context `{!OwnPlacement st} {A : Type} (error_code : A → option Z) (leader_address : A → option string).
Context (question : C → M st (option A)).

(** The cache discharges what [ask_shard] needs of a table. *)
Lemma cache_bounds_walk :
  keeps inv (cl_shard_leader s) →
  (∀ c, keeps inv (ShardLeaders.ask error_code leader_address question c)) →
  (∀ c w w' o h, inv w → ShardLeaders.ask error_code leader_address question c w = (w', Ok (ShardLeaders.refused o (Some h))) → h ∈ U) →
  @bounded st C factory (router shuffle) _ A error_code leader_address s question inv U reach.
Proof.
  intros Ho Ha Hh. split; try done.
  - intros a. apply outside_keeps. intros. by eapply (rl_at _ Hr).
  - intros i. apply outside_keeps. intros. by eapply (rl_client _ Hr).
  - apply leader_keeps.
  - apply table_bind_keeps. intros. apply ret_keeps.
  - apply bind_keeps; [apply refresh_keeps|]. intros _. apply ret_keeps.
  - intros a [c w] cw' r [Hj _] Hat. cbn in Hat. unfold outside in Hat. cbn in Hat.
    destruct (nf_get_client_at s a w) as [w1 r1] eqn:Hc. injection Hat as _ ->. by eapply (rl_at _ Hr).
  - intros w w' al Hi Hal. by eapply replica_addresses_known.
Qed.

(** A walk over the cached table ends.  Whatever tables the metadata group answers with
    during the walk, as long as their addresses are in a finite set [U], and whatever the
    nodes say, the walk of [ask_shard] over the cache is over after [walk_bound] questions. *)
Theorem cached_walk_terminates fuel table_reads first l cw :
  keeps inv (cl_shard_leader s) →
  (∀ c, keeps inv (ShardLeaders.ask error_code leader_address question c)) →
  (∀ c w w' o h, inv w → ShardLeaders.ask error_code leader_address question c w = (w', Ok (ShardLeaders.refused o (Some h))) → h ∈ U) →
  inv cw → ShardLeaders._hints l !! s = None → (walk_bound s U l table_reads ≤ fuel)%nat →
  (@ShardLeaders.ask_shard st C factory (router shuffle) _ A error_code leader_address fuel s question table_reads first (l, cw)).2 ≠ Ok None.
Proof.
  intros Ho Ha Hh Hi Hl Hf. pose proof (cache_bounds_walk Ho Ha Hh) as Hb.
  apply (ask_loop_ends error_code leader_address s question inv U reach Hb); [done|]. right. split; [done|].
  pose proof (walk_bound_measure error_code leader_address s question inv U reach Hb l table_reads). lia.
Qed.
End walk.

(** ** A read that any replica may answer *)

Section any.
Context (s : Z) (handle : Z → option string → option C).
Hypothesis handles : ∀ i a w, nf_get_client s i a w = (w, Ok (handle i a)).
Hypothesis shuffled : ∀ l, shuffle l ≡ₚ l.

Lemma first_handle_run m nodes cw :
  ∃ r, first_handle s m nodes cw = (cw, Ok r) ∧
    match r with
    | Some c => ∃ i, i ∈ nodes ∧ handle i (m !! i) = Some c
    | None => ∀ i, i ∈ nodes → handle i (m !! i) = None
    end.
Proof.
  induction nodes as [|i nodes IH]; cbn [first_handle].
  { exists None. split; [done|]. by intros i ?%elem_of_nil. }
  rewrite (bind_run _ _ _ cw (handle i (m !! i))) by (unfold outside; rewrite handles; by destruct cw).
  destruct (handle i (m !! i)) as [c|] eqn:Hc.
  - exists (Some c). split; [done|]. exists i. split; [by left|done].
  - destruct IH as (r&Hr&Hs). exists r. split; [done|]. destruct r as [c|].
    + destruct Hs as (j&?&?). exists j. split; [by right|done].
    + intros j [->|?]%elem_of_cons; auto.
Qed.

(** A read spread over the replicas stays in the set.  With the table in hand and handles
    that do not change, [any_replica_for] answers a handle of a node the table lists for the
    shard, the handle of this machine's own node when that is listed and can be reached, and
    nobody exactly when no listed node can be reached; nothing is read and nothing changes. *)
Theorem replica_reads_stay_in_set tb p c w :
  _table c = Some tb → Metadata.shard tb s = Some p →
  let reachable i := handle i (sp_addresses p !! i) in
  ∃ r, any_replica_for shuffle s (c, w) = ((c, w), Ok r) ∧
    (∀ h, r = Some h → ∃ i, i ∈ sp_nodes p ∧ reachable i = Some h) ∧
    (r = None ↔ ∀ i, i ∈ sp_nodes p → reachable i = None) ∧
    (∀ i h, _local_node_id c = Some i → i ∈ sp_nodes p → reachable i = Some h → r = Some h).
Proof.
  intros Ht Hp reachable. unfold any_replica_for. rewrite (bind_run _ _ _ (c, w) tb).
  2:{ unfold table. rewrite (bind_run _ _ _ (c, w) (Some tb)) by (unfold own; cbn; by rewrite Ht). done. }
  rewrite Hp. case_decide as Hn.
  { exists None. rewrite Hn. split_and!; [done..| |]; [split; [by intros _ i ?%elem_of_nil|done]|by intros i h _ ?%elem_of_nil]. }
  rewrite (bind_run _ _ _ (c, w) (_local_node_id c)) by done.
  destruct (first_handle_run (sp_addresses p) (shuffle (sp_nodes p)) (c, w)) as (r&Hr&Hs).
  set (here := match _local_node_id c with
               | Some i => if decide (i ∈ sp_nodes p) then reachable i else None
               | None => None
               end).
  rewrite (bind_run _ _ _ (c, w) here).
  2:{ unfold here, reachable. destruct (_local_node_id c) as [i|]; [|done]. case_decide; [|done]. unfold outside. cbn. by rewrite handles. }
  destruct here as [h|] eqn:Hh; unfold here in Hh.
  - exists (Some h). destruct (_local_node_id c) as [i|]; [|done]. case_decide as Hi; [|done]. split_and!; [done|..].
    + intros h' [= <-]. by exists i.
    + split; [done|]. intros Hno. specialize (Hno i Hi). congruence.
    + intros j h' [= <-] _ Hj. congruence.
  - exists r. split; [done|]. destruct r as [h|].
    + destruct Hs as (i&Hi&Hc). rewrite shuffled in Hi. split_and!.
      * intros h' [= <-]. by exists i.
      * split; [done|]. intros Hno. specialize (Hno i Hi). unfold reachable in Hno. congruence.
      * intros j h' Hl Hj Hr'. rewrite Hl, decide_True in Hh by done. congruence.
    + split_and!; [done| |].
      * split; [|done]. intros _ i Hi. apply Hs. by rewrite shuffled.
      * intros j h' Hl Hj Hr'. rewrite Hl, decide_True in Hh by done. congruence.
Qed.
End any.
End cache.
