(* ===== verification/SmartClient.v ===== *)
(** The client of a cluster: [transaction/smart_client.py].

    It reads and writes through a coordinator of its own and reaches shards by a walk of its
    own, so its state is that of [ShardLeaders], of the cache of read indices and of
    [TransactionCoordinator], beside everybody else's.  Times are integers; the pauses
    between attempts are no steps of the model. *)

From Stdlib Require Import ZArith Lia.
From S2P Require Import Prelude Bytes PyVal Mvcc StateMachine Dict Router Shards Coordinator Routing.

(** What a node answers its client: [NodeClient].  A result comes with its attribute
    [leader_address], which only a node across a wire fills in. *)
Class NodeCalls (V C : Type) := {
  nc_get : C → bytes → option Z → option Z → M V (ReadResult * option string);
  nc_propose : C → bytes → M V (ApplyResult * option string);
  nc_scan : C → bytes → bytes → option Z → option Z → M V (list (bytes * bytes));
  nc_monotonic : M V Z
}.

Module Consistency.
Definition STRONG : string := "strong".
Definition FOLLOWER : string := "follower".
Definition CACHED : string := "cached".
Definition ALL : list string := [STRONG; FOLLOWER; CACHED].
End Consistency.

Module ReadIndexCache.
Record t := { _ttl : Z; _indices : gmap Z (Z * Z) }.
Definition init (ttl : Z) : t := {| _ttl := ttl; _indices := ∅ |}.

(** At the monotonic time [now]. *)
Definition cached_index (now shard_id : Z) (c : t) : option Z :=
  match _indices c !! shard_id with
  | None => None
  | Some (read_index, kept_at) => if now - kept_at >=? _ttl c then None else Some read_index
  end.
Definition remember (now shard_id read_index : Z) (c : t) : t :=
  {| _ttl := _ttl c; _indices := <[shard_id := (read_index, now)]> (_indices c) |}.
End ReadIndexCache.

Definition _check_consistency {S} (consistency : string) : M S unit :=
  if decide (consistency ∈ Consistency.ALL) then ret tt else raise ValueError.

Module SmartClient.
Section client.
Context {W D : Type} `{Shards W D} `{Msgpack}.
Abbreviation V := (TransactionCoordinator.t * W)%type.
Context {C : Type} `{NodeClientFactory V C} `{!TableRouter V C} `{!OwnPlacement V} `{!NodeCalls V C}.

Record t := { _leaders : ShardLeaders.t; _read_index_cache : ReadIndexCache.t }.
Definition _retry_max_attempts : nat := 3.

Definition init (router : bool) (ttl : Z) : t :=
  {| _leaders := ShardLeaders.init router; _read_index_cache := ReadIndexCache.init ttl |}.

(** Steps of the walk, of the coordinator, and of the world. *)
Definition leaders {A} (m : M (ShardLeaders.t * V) A) : M (t * V) A := λ sv,
  let '((l, v), r) := m (_leaders sv.1, sv.2) in
  (({| _leaders := l; _read_index_cache := _read_index_cache sv.1 |}, v), r).
Definition coordinator {A} (m : M V A) : M (t * V) A := λ sv,
  let '(v, r) := m sv.2 in ((sv.1, v), r).
Definition world {A} (m : M W A) : M V A := λ v, let '(w, r) := m v.2 in ((v.1, w), r).
Definition index_cache {A} (f : ReadIndexCache.t → ReadIndexCache.t * A) : M (t * V) A := λ sv,
  let '(c, a) := f (_read_index_cache sv.1) in
  (({| _leaders := _leaders sv.1; _read_index_cache := c |}, sv.2), Ok a).

(** [_retry_with_backoff]. *)
Fixpoint retry {A} (attempts : nat) (func : M (t * V) A) : M (t * V) A :=
  match attempts with
  | O => raise RuntimeError
  | S attempts => λ sv,
      match func sv with
      | (sv', Raise SerializationError) => (sv', Raise SerializationError)
      | (sv', Raise e) => match attempts with O => (sv', Raise e) | _ => retry attempts func sv' end
      | (sv', Ok a) => (sv', Ok a)
      end
  end.
Definition _retry_with_backoff {A} (func : M (t * V) A) : M (t * V) A := retry _retry_max_attempts func.

(** ** Reads *)

Definition _member_to_ask (shard_id : Z) (consistency : string) : M (t * V) (option C) :=
  if decide (consistency = Consistency.STRONG) then ret None
  else leaders (ShardLeaders.replica_for_shard shard_id).

Definition _index_to_name (shard_id : Z) (consistency : string) : M (t * V) (option Z) :=
  if decide (consistency ≠ Consistency.CACHED) then ret None
  else
    let* now := coordinator nc_monotonic in
    index_cache (λ c, (c, ReadIndexCache.cached_index now shard_id c)).

(** What a node is asked by [get]; [polls] bounds the wait for a lock. *)
Definition _read (polls : nat) (key : bytes) (named : option Z) (client : C) : M V (option (ReadResult * option string)) :=
  let* answer := nc_get client key None named in
  if decide (rr_error_code answer.1 = Some ErrorCode.ERR_LOCKED) then
    let* settled := TransactionCoordinator.await_lock key polls in
    if negb settled then raise RuntimeError
    else let* answer := nc_get client key None None in ret (Some answer)
  else ret (Some answer).

(** A walk; [walk] bounds its questions, and a walk that is not over by then raises. *)
Definition ask_shard {A} (walk : nat) (shard_id : Z) (error_code : A → option Z) (leader_address : A → option string)
    (question : C → M V (option A)) (first : option C) : M (t * V) (option A) :=
  let* r := leaders (ShardLeaders.ask_shard error_code leader_address walk shard_id question 2 first) in
  match r with Some a => ret a | None => raise NotImplementedError end.

Definition shard_for_key (key : bytes) : M (t * V) Z :=
  let* shard_id := leaders (ShardLeaders.shard_for_key key) in
  match shard_id with Some s => ret s | None => raise RuntimeError end.

Definition _do_get (walk polls : nat) (key : bytes) (consistency : string) : M (t * V) pyval :=
  let* shard_id := shard_for_key key in
  let* named := _index_to_name shard_id consistency in
  let* first := _member_to_ask shard_id consistency in
  let* result := ask_shard walk shard_id (λ r, rr_error_code r.1) snd (_read polls key named) first in
  match result with
  | None => raise RuntimeError
  | Some (result, _) =>
      if decide (rr_error_code result = Some ErrorCode.ERR_NOT_LEADER) then raise RuntimeError
      else
        match named, rr_read_index result with
        | None, Some i =>
            let* now := coordinator nc_monotonic in
            index_cache (λ c, (ReadIndexCache.remember now shard_id i c, tt));;;
            ret (rr_value result)
        | _, _ => ret (rr_value result)
        end
  end.
Definition get (walk polls : nat) (key : bytes) (consistency : string) : M (t * V) pyval :=
  _check_consistency consistency;;;
  _retry_with_backoff (_do_get walk polls key consistency).

(** ** Transactions *)

Definition read (polls : nat) (txn_id : Z) (key : bytes) : M (t * V) pyval :=
  coordinator (TransactionCoordinator.read polls txn_id key).
Definition begin : M (t * V) Z :=
  let* r := coordinator TransactionCoordinator.begin in ret r.1.
Definition add_write (txn_id : Z) (key value : bytes) : M (t * V) unit :=
  coordinator (TransactionCoordinator.add_write txn_id key value).
Definition rollback (txn_id : Z) : M (t * V) bool :=
  coordinator (TransactionCoordinator.rollback txn_id).

Definition _do_commit (sched : list nat) (txn_id : Z) : M (t * V) (bool * option Z) :=
  let* r := coordinator (TransactionCoordinator.commit sched txn_id) in
  if r.1 then ret r
  else
    let* txn := (λ sv, (sv, Ok (TransactionCoordinator.get_transaction txn_id sv.2.1))) in
    match txn with
    | Some x => match abort_reason x with
                | Some _ => raise SerializationError
                | None => raise RuntimeError
                end
    | None => raise RuntimeError
    end.
Definition commit (sched : list nat) (txn_id : Z) : M (t * V) (bool * option Z) :=
  _retry_with_backoff (_do_commit sched txn_id).

(** [run], for work that is a computation of this client. *)
Fixpoint run_loop (sched : list nat) (work : Z → M (t * V) unit) (attempts : nat) (last_error : exn)
    : M (t * V) bool :=
  match attempts with
  | O => raise last_error
  | S attempts =>
      let* txn_id := begin in
      work txn_id;;;
      (λ sv,
         match commit sched txn_id sv with
         | (sv', Ok (true, _)) => (sv', Ok true)
         | (sv', Ok (false, _)) => run_loop sched work attempts last_error sv'
         | (sv', Raise SerializationError) => run_loop sched work attempts SerializationError sv'
         | (sv', Raise e) => (sv', Raise e)
         end)
  end.
(** With no attempt made, or none that was refused, what is raised is [None]: a [TypeError]. *)
Definition run (sched : list nat) (work : Z → M (t * V) unit) (attempts : nat) : M (t * V) bool :=
  run_loop sched work attempts TypeError.

Definition put (sched : list nat) (key value : bytes) : M (t * V) bool :=
  let* txn_id := begin in
  add_write txn_id key value;;;
  let* r := commit sched txn_id in
  ret r.1.

Definition _do_delete (walk : nat) (key command : bytes) : M (t * V) bool :=
  let* shard_id := shard_for_key key in
  let* result := ask_shard walk shard_id (λ r, ar_error_code r.1) snd
                   (λ client, let* r := nc_propose client command in ret (Some r)) None in
  ret (match result with Some r => ar_success r.1 | None => false end).
Definition delete (walk : nat) (key : bytes) : M (t * V) bool :=
  let* timestamp := coordinator (world sh_get_timestamp) in
  let* command := reads (λ _, serialize_command (op_type (ODelete key timestamp)) (op_kwargs (ODelete key timestamp))) in
  _retry_with_backoff (_do_delete walk key command).

(** ** Range reads *)

(** The larger of the two, unless that holds the separator byte. *)
Definition _piece_start (caller_start shard_start : bytes) : bytes :=
  let piece := if blt caller_start shard_start then shard_start else caller_start in
  if decide (x00 ∈ piece) then caller_start else piece.
Definition bmin (a b : bytes) : bytes := if blt b a then b else a.

(** [sorted(ranges.items(), key=start)]. *)
Fixpoint insert_range (e : Z * (bytes * bytes)) (m : RangeMap) : RangeMap :=
  match m with
  | [] => [e]
  | e' :: m => if blt e.2.1 e'.2.1 then e :: e' :: m else e' :: insert_range e m
  end.
Definition sort_ranges (m : RangeMap) : RangeMap := foldl (λ acc e, insert_range e acc) [] m.

(** One piece of a range, from the shard that owns it. *)
Definition scan_piece (walk : nat) (timestamp : option Z) (consistency : string) (shard_id : Z)
    (piece_start piece_end : bytes) : M (t * V) (list (bytes * bytes)) :=
  let* named := _index_to_name shard_id consistency in
  let* first := _member_to_ask shard_id consistency in
  let* answer := ask_shard walk shard_id (λ _, None) (λ _, None)
                   (λ client, let* r := nc_scan client piece_start piece_end timestamp named in ret (Some r))
                   first in
  match answer with None => raise RuntimeError | Some rows => ret rows end.

Fixpoint scan_pieces (walk : nat) (start_key end_key : bytes) (timestamp : option Z)
    (consistency : string) (pieces : RangeMap) : M (t * V) (list (bytes * bytes)) :=
  match pieces with
  | [] => ret []
  | (shard_id, (start, end_)) :: pieces =>
      let piece_start := _piece_start start_key start in
      let piece_end := bmin end_key end_ in
      if ble piece_end piece_start then scan_pieces walk start_key end_key timestamp consistency pieces
      else
        let* rows := scan_piece walk timestamp consistency shard_id piece_start piece_end in
        let* rest := scan_pieces walk start_key end_key timestamp consistency pieces in
        ret (rows ++ rest)
  end.

Definition scan (walk : nat) (start_key end_key : bytes) (timestamp : option Z) (consistency : string)
    : M (t * V) (list (bytes * bytes)) :=
  _check_consistency consistency;;;
  let* ranges := leaders ShardLeaders.ranges in
  scan_pieces walk start_key end_key timestamp consistency (sort_ranges ranges).
End client.
End SmartClient.
