(* ===== verification/SmartClientFacts.v ===== *)
(** What a client of a cluster reads: a range read over many shards is one range read of
    their data, a cached read index is never older than its time to live, and what retrying
    does to a call. *)

From Stdlib Require Import ZArith Lia.
From S2P Require Import Prelude Bytes PyVal Engine Mvcc StateMachine Dict Router Shards Coordinator Local LocalSpec Routing SmartClient.
Import SmartClient.

(** ** The pieces of a range *)

Lemma insert_range_perm e m : insert_range e m ≡ₚ e :: m.
Proof.
  induction m as [|e' m IH]; cbn; [done|]. destruct (blt _ _); [done|].
  rewrite IH. apply Permutation_swap.
Qed.
Definition starts_le (e e' : Z * (bytes * bytes)) : Prop := ble e.2.1 e'.2.1 = true.

Lemma insert_range_sorted e m : StronglySorted starts_le m → StronglySorted starts_le (insert_range e m).
Proof.
  induction 1 as [|e' m Hs IH Hf]; cbn; [repeat constructor|]. destruct (blt e.2.1 e'.2.1) eqn:Hb.
  - constructor; [by constructor|]. constructor; [apply ble_lt; by right|].
    eapply list.Forall_impl; [exact Hf|]. intros x Hx. eapply ble_trans; [|exact Hx]. apply ble_lt. by right.
  - constructor; [done|]. apply list.Forall_forall. intros x Hx. rewrite insert_range_perm in Hx.
    apply elem_of_cons in Hx as [->|Hx]; [by unfold starts_le, ble; rewrite Hb|].
    rewrite list.Forall_forall in Hf. auto.
Qed.

Lemma sort_ranges_spec m : sort_ranges m ≡ₚ m ∧ StronglySorted starts_le (sort_ranges m).
Proof.
  unfold sort_ranges. assert (∀ acc, StronglySorted starts_le acc →
    foldl (λ acc e, insert_range e acc) acc m ≡ₚ acc ++ m ∧
    StronglySorted starts_le (foldl (λ acc e, insert_range e acc) acc m)) as Hg.
  { induction m as [|e m IH]; intros acc Hs; cbn; [by rewrite app_nil_r|].
    destruct (IH (insert_range e acc)) as [Hp Hs']; [by apply insert_range_sorted|]. split; [|done].
    rewrite Hp, insert_range_perm. cbn. apply Permutation_middle. }
  destruct (Hg []) as [Hp Hs]; [constructor|]. done.
Qed.

(** A key that a shard may hold is in the caller's range exactly when it is in the piece. *)
Lemma piece_range start_key end_key start end_ k :
  no_sep k → in_range start k end_ = true →
  in_range (_piece_start start_key start) k (bmin end_key end_) = in_range start_key k end_key.
Proof.
  intros Hk [Hs He]%in_range_iff. unfold in_range.
  assert (blt k (bmin end_key end_) = blt k end_key) as ->.
  { unfold bmin. destruct (blt end_ end_key) eqn:Hb; [|done]. rewrite He. symmetry. by eapply blt_trans. }
  f_equal. unfold _piece_start. case_decide; [done|]. destruct (blt start_key start) eqn:Hb; [|done].
  rewrite Hs. symmetry. eapply ble_trans; [|exact Hs]. apply ble_lt. by right.
Qed.

(** ** A range read over shards *)

Section scan.
Context {W D : Type} `{Shards W D} `{Msgpack}.
Abbreviation V := (TransactionCoordinator.t * W)%type.
Context {C : Type} `{NodeClientFactory V C} `{!TableRouter V C} `{!OwnPlacement V} `{!NodeCalls V C}.

(** What the shards hold, each in its range. *)
Context (m : RangeMap) (data : Z → gmap bytes bytes).
Definition held_in_range : Prop :=
  ∀ s r k, (s, r) ∈ m → is_Some (data s !! k) → no_sep k ∧ in_range r.1 k r.2 = true.
(** All of it. *)
Definition together (pieces : RangeMap) : gmap bytes bytes := ⋃ (map (λ e, data e.1) pieces).

Context (walk : nat) (timestamp : option Z) (consistency : string).
Context (I : SmartClient.t * V → Prop).
(** The client knows this placement, whose ranges end at keys a storage takes; and a walk for
    a piece between two such keys gets the shard's rows of it, or raises: the shard is locked,
    has no leader, or does not answer. *)
Record shards_answer : Prop := {
  sa_ranges sv : I sv → ∃ sv', leaders ShardLeaders.ranges sv = (sv', Ok m) ∧ I sv';
  sa_ends s r : (s, r) ∈ m → no_sep r.2;
  sa_piece s r a b sv : (s, r) ∈ m → I sv → no_sep a → no_sep b →
    ∃ sv' o, scan_piece walk timestamp consistency s a b sv = (sv', o) ∧ I sv' ∧
      (o = Ok (SnapshotSpec.rows (data s) a b) ∨ ∃ x, o = Raise x)
}.
(** No walk raises. *)
Definition all_answer : Prop := ∀ s r a b sv sv' x, (s, r) ∈ m → I sv → no_sep a → no_sep b →
  scan_piece walk timestamp consistency s a b sv ≠ (sv', Raise x).
Context (Hd : disjoint_ranges m) (Hn : NoDup m.*1) (Hh : held_in_range) (Ha : shards_answer).

Lemma piece_rows s r start_key end_key :
  (s, r) ∈ m →
  SnapshotSpec.rows (data s) (_piece_start start_key r.1) (bmin end_key r.2) = SnapshotSpec.rows (data s) start_key end_key.
Proof.
  intros Hin. destruct (rows_sorted (data s) (_piece_start start_key r.1) (bmin end_key r.2)) as [Hs Hnd].
  apply rows_unique; [done..|]. intros k v. rewrite !rows_in. split; intros [Hr Hk].
  - destruct (Hh s r k Hin) as [Hks Hkr]; [by eexists|]. by rewrite piece_range in Hr.
  - destruct (Hh s r k Hin) as [Hks Hkr]; [by eexists|]. by rewrite piece_range.
Qed.

Lemma empty_piece s r start_key end_key :
  (s, r) ∈ m → ble (bmin end_key r.2) (_piece_start start_key r.1) = true →
  SnapshotSpec.rows (data s) start_key end_key = [].
Proof.
  intros Hin He. rewrite <-(piece_rows s r) by done. destruct (SnapshotSpec.rows _ _ _) as [|[k v] l] eqn:Hl; [done|].
  assert ((k, v) ∈ (k, v) :: l) as Hk by (by left). rewrite <-Hl in Hk. apply rows_in in Hk as [[Hs Ht]%in_range_iff _].
  assert (blt k k = true) as Hc by (eapply blt_ble_trans; [exact Ht|]; by eapply ble_trans). by rewrite blt_irrefl in Hc.
Qed.

Lemma piece_start_legal start_key start : no_sep start_key → no_sep (_piece_start start_key start).
Proof. intros Hk. unfold _piece_start. by case_decide. Qed.

Lemma scan_pieces_run start_key end_key pieces : no_sep start_key → no_sep end_key →
  ∀ sv, (∀ e, e ∈ pieces → e ∈ m) → I sv →
  ∃ sv' o, scan_pieces walk start_key end_key timestamp consistency pieces sv = (sv', o) ∧ I sv' ∧
    (o = Ok (flat_map (λ e, SnapshotSpec.rows (data e.1) start_key end_key) pieces) ∨
     (∃ x, o = Raise x) ∧ ¬ all_answer).
Proof.
  intros Hks Hke. induction pieces as [|[s [a b]] pieces IH]; intros sv Hin Hi; cbn [scan_pieces flat_map fst].
  { eexists _, _. split; [done|]. by split; [|left]. }
  assert ((s, (a, b)) ∈ m) as Hs by (apply Hin; by left).
  assert (∀ e, e ∈ pieces → e ∈ m) as Hin' by (intros e ?; apply Hin; by right).
  destruct (ble (bmin end_key b) (_piece_start start_key a)) eqn:He.
  - rewrite (empty_piece s (a, b)) by done. by apply IH.
  - assert (no_sep (bmin end_key b)) as Hkb.
    { unfold bmin. pose proof (sa_ends Ha s (a, b) Hs) as Hend. by destruct (blt b end_key). }
    pose proof (piece_start_legal start_key a Hks) as Hka.
    destruct (sa_piece Ha s (a, b) _ _ sv Hs Hi Hka Hkb) as (sv1&o&Hp&Hi1&[->|[x ->]]).
    + rewrite (bind_run _ _ _ _ _ Hp). destruct (IH sv1 Hin' Hi1) as (sv2&o&Hr&Hi2&[->|[[x ->] Hno]]).
      * rewrite (bind_run _ _ _ _ _ Hr). rewrite (piece_rows s (a, b)) by done. eexists _, _. by split_and!; [| |left].
      * rewrite (bind_raise _ _ _ _ _ Hr). eexists _, _. split_and!; [done..|right]. split; [by eexists|done].
    + rewrite (bind_raise _ _ _ _ _ Hp). eexists _, _. split_and!; [done..|right]. split; [by eexists|].
      intros Hall. by apply (Hall _ _ _ _ _ _ _ Hs Hi Hka Hkb Hp).
Qed.

(** Keys of an earlier piece come before keys of a later one. *)
Lemma keys_ordered s1 r1 s2 r2 k1 k2 :
  (s1, r1) ∈ m → (s2, r2) ∈ m → s1 ≠ s2 → ble r1.1 r2.1 = true →
  is_Some (data s1 !! k1) → is_Some (data s2 !! k2) → blt k1 k2 = true.
Proof.
  intros Hx Hy Hne Hle Hk1 Hk2. destruct (Hh s1 r1 k1 Hx Hk1) as [_ Hr1], (Hh s2 r2 k2 Hy Hk2) as [_ Hr2].
  apply in_range_iff in Hr1 as [Ha1 Hb1]. pose proof Hr2 as [Ha2 Hb2]%in_range_iff.
  destruct (blt k1 k2) eqn:Hb; [done|]. destruct Hne. apply (Hd s1 s2 r1 r2 k2 Hx Hy); [|done].
  apply in_range_iff. split; [eapply ble_trans; [exact Hle|exact Ha2]|]. eapply ble_blt_trans; [|exact Hb1].
  unfold ble. by rewrite Hb.
Qed.

Lemma pieces_sorted start_key end_key pieces :
  (∀ e, e ∈ pieces → e ∈ m) → NoDup pieces.*1 → StronglySorted starts_le pieces →
  let l := flat_map (λ e, SnapshotSpec.rows (data e.1) start_key end_key) pieces in
  StronglySorted row_le l ∧ NoDup l ∧
  ∀ k v, (k, v) ∈ l ↔ ∃ e, e ∈ pieces ∧ in_range start_key k end_key = true ∧ data e.1 !! k = Some v.
Proof.
  intros Hin Hnd Hs. induction Hs as [|[s r] pieces Hs IH Hf]; cbn [flat_map fst].
  { split_and!; [constructor..|]. intros k v. split; [by intros ?%elem_of_nil|by intros (e&?%elem_of_nil&_)]. }
  apply list.NoDup_cons in Hnd as [Hns Hnd]. destruct IH as (IHs&IHn&IHin); [|done|].
  { intros e ?. apply Hin. by right. }
  rewrite list.Forall_forall in Hf. destruct (rows_sorted (data s) start_key end_key) as [Rs Rn].
  assert (∀ k v k' v', (k, v) ∈ SnapshotSpec.rows (data s) start_key end_key →
    (k', v') ∈ flat_map (λ e, SnapshotSpec.rows (data e.1) start_key end_key) pieces → blt k k' = true) as Hlt.
  { intros k v k' v' [_ Hk]%rows_in ([s' r']&He&_&Hk')%IHin. eapply (keys_ordered s r s' r'); [by apply Hin; left| |..].
    - apply Hin. by right.
    - intros ->. apply Hns. by apply (list_elem_of_fmap_2 fst _ (s', r')).
    - apply (Hf (s', r') He).
    - by eexists.
    - by eexists. }
  split_and!.
  - apply StronglySorted_app_2; [|done..]. intros [k v] [k' v'] Hx Hy. unfold row_le. cbn.
    apply ble_lt. right. by eapply Hlt.
  - apply NoDup_app. split_and!; [done| |done]. intros [k v] Hx Hy. specialize (Hlt k v k v Hx Hy).
    by rewrite blt_irrefl in Hlt.
  - intros k v. rewrite elem_of_app, rows_in, IHin. split.
    + intros [[? ?]|(e&?&?&?)]; [exists (s, r)|exists e]; split_and!; try done; [by left|by right].
    + intros (e&[->|?]%elem_of_cons&?&?); [by left|right; eauto].
Qed.

Lemma together_lookup pieces k v :
  (∀ e, e ∈ pieces → e ∈ m) → NoDup pieces.*1 →
  together pieces !! k = Some v ↔ ∃ e, e ∈ pieces ∧ data e.1 !! k = Some v.
Proof.
  intros Hin Hnd. induction pieces as [|[s r] pieces IH]; cbn.
  { rewrite lookup_empty. split; [done|]. by intros (e&?%elem_of_nil&_). }
  apply list.NoDup_cons in Hnd as [Hns Hnd]. fold (together pieces).
  assert (together pieces !! k = Some v ↔ ∃ e, e ∈ pieces ∧ data e.1 !! k = Some v) as IH'.
  { apply IH; [|done]. intros e ?. apply Hin. by right. }
  rewrite lookup_union_Some_raw, IH'. split.
  - intros [?|[_ (e&?&?)]]; [exists (s, r)|exists e]; split; try done; [by left|by right].
  - intros ([s' r']&[[= -> ->]|He]%elem_of_cons&Hk); [by left|]. right. split; [|by exists (s', r')].
    destruct (data s !! k) eqn:Hk0; [|done]. destruct (Hh s r k) as [_ Hr1]; [by apply Hin; left|by eexists|].
    destruct (Hh s' r' k) as [_ Hr2]; [by apply Hin; right|by eexists|].
    assert (s = s') as ->. { eapply (Hd s s' r r' k); [by apply Hin; left|by apply Hin; right|done..]. }
    destruct Hns. by apply (list_elem_of_fmap_2 fst _ (s', r')).
Qed.

(** C21: A range read over shards is a range read, or none.  Let the ranges of the placement
    not overlap, let every shard hold keys of its own range only, and let the bounds of the
    read and the ends of the ranges be keys a storage takes (the starts need not be).  Then
    [scan] answers the rows of all the shards' data together between the two bounds, in key
    order, each once, however the placement cuts the range - or it raises, which it does not
    if every shard asked answers; it never comes back with a part. *)
Theorem sharded_scan_is_one_scan start_key end_key sv :
  consistency ∈ Consistency.ALL → I sv → no_sep start_key → no_sep end_key →
  ∃ sv' o, scan walk start_key end_key timestamp consistency sv = (sv', o) ∧ I sv' ∧
    (o = Ok (SnapshotSpec.rows (together m) start_key end_key) ∨ ∃ x, o = Raise x) ∧
    (all_answer → o = Ok (SnapshotSpec.rows (together m) start_key end_key)).
Proof.
  intros Hc Hi Hks Hke. unfold scan, _check_consistency. rewrite decide_True by done.
  rewrite (bind_run _ _ _ sv tt) by done. destruct (sa_ranges Ha sv Hi) as (sv1&Hr&Hi1).
  rewrite (bind_run _ _ _ _ _ Hr). destruct (sort_ranges_spec m) as [Hp Hs].
  assert (∀ e, e ∈ sort_ranges m → e ∈ m) as Hin by (intros e; by rewrite Hp).
  assert (NoDup (sort_ranges m).*1) as Hn' by (by rewrite Hp).
  destruct (scan_pieces_run start_key end_key (sort_ranges m) Hks Hke sv1 Hin Hi1) as (sv2&o&Hsc&Hi2&Ho).
  exists sv2, o. split_and!; [done..| |].
  all: assert (flat_map (λ e, SnapshotSpec.rows (data e.1) start_key end_key) (sort_ranges m)
    = SnapshotSpec.rows (together m) start_key end_key) as <-.
  1, 3: destruct (pieces_sorted start_key end_key (sort_ranges m) Hin Hn' Hs) as (Ss&Sn&Sin);
    apply rows_unique; [done..|]; intros k v; rewrite Sin, rows_in, together_lookup by done;
    setoid_rewrite Hp; split; [intros (e&?&?&?)|intros [? (e&?&?)]]; eauto 10.
  - destruct Ho as [?|[? _]]; auto.
  - intros Hall. destruct Ho as [?|[_ Hno]]; [done|]. by destruct Hno.
Qed.
End scan.

(** ** A commit through the client *)

Section commit.
Context {W D : Type} `{Shards W D} `{Msgpack}.
Abbreviation V := (TransactionCoordinator.t * W)%type.
Context {C : Type} `{NodeClientFactory V C} `{!TableRouter V C} `{!OwnPlacement V} `{!NodeCalls V C}.
Import TransactionCoordinator.

Definition is_committed (id : Z) (c : TransactionCoordinator.t) : Prop :=
  ∃ x, _transactions c !! id = Some x ∧ status x = TxnStatus.COMMITTED.

(** What the coordinator's table says after an update. *)
Lemma update_status id st (v v' : V) : is_Some (_transactions v.1 !! id) →
  update id (with_status st) v = (v', Ok tt) → ∃ x, _transactions v'.1 !! id = Some x ∧ status x = st.
Proof.
  intros [x Hx] [= <-]. exists (with_status st x). cbn. by rewrite lookup_alter_eq, Hx.
Qed.
Lemma update_known id f (v v' : V) u : update id f v = (v', Ok u) → is_Some (_transactions v.1 !! id) → is_Some (_transactions v'.1 !! id).
Proof. intros [= <-] [x Hx]. cbn. rewrite lookup_alter_eq, Hx. by eexists. Qed.
Lemma world_known {A} (m : M W A) (v v' : V) a id : TransactionCoordinator.world m v = (v', Ok a) →
  _transactions v'.1 !! id = _transactions v.1 !! id.
Proof. unfold TransactionCoordinator.world. destruct (m v.2). by intros [= <- _]. Qed.

Lemma commit_prewritten_yes id x g (v v' : V) ts : is_Some (_transactions v.1 !! id) →
  commit_prewritten id x g v = (v', Ok (true, ts)) → is_committed id v'.1.
Proof.
  intros Hk Hr. unfold commit_prewritten in Hr. mstep Hr. injection Hm as <- <-. mstep Hr.
  apply (world_known _ _ _ _ id) in Hm. rewrite <-Hm in Hk. destruct a as [reason|].
  { unfold abort in Hr. mstep Hr. mstep Hr. mstep Hr. discriminate Hr. }
  mstep Hr. apply (world_known _ _ _ _ id) in Hm0. rewrite <-Hm0 in Hk. mstep Hr. apply update_known in Hm1; [|done].
  mstep Hr. apply (world_known _ _ _ _ id) in Hm2. rewrite <-Hm2 in Hm1. mstep Hr.
  apply (world_known _ _ _ _ id) in Hm3. rewrite <-Hm3 in Hm1. destruct a2 as [c|].
  2:{ unfold abort in Hr. mstep Hr. mstep Hr. mstep Hr. discriminate Hr. }
  mstep Hr. apply (world_known _ _ _ _ id) in Hm4. rewrite <-Hm4 in Hm1. destruct (negb _).
  { unfold abort in Hr. mstep Hr. mstep Hr. mstep Hr. discriminate Hr. }
  mstep Hr. destruct a3. apply update_status in Hm5 as (y&Hy&Hst); [|done]. mstep Hr.
  injection Hm5 as <-. injection Hr as <- _. by exists y.
Qed.

Lemma coordinator_commit_yes sched id (v v' : V) ts :
  TransactionCoordinator.commit sched id v = (v', Ok (true, ts)) → is_committed id v'.1.
Proof.
  intros Hr. unfold TransactionCoordinator.commit in Hr. mstep Hr. injection Hm as <- <-.
  destruct (_transactions v.1 !! id) as [x|] eqn:Hx; [|done]. case_decide; [done|]. case_decide.
  - mstep Hr. destruct a. apply update_status in Hm as (y&Hy&Hst); [|by rewrite Hx]. mstep Hr.
    injection Hm as <-. injection Hr as <- _. eexists. cbn. rewrite lookup_alter_eq, Hy. by split.
  - mstep Hr. apply (world_known _ _ _ _ id) in Hm. mstep Hr. apply (world_known _ _ _ _ id) in Hm0.
    destruct (negb a0). { mstep Hr. done. }
    mstep Hr. apply update_known in Hm1; [|by rewrite Hm0, Hm, Hx]. by eapply commit_prewritten_yes.
Qed.

Lemma retry_Ok {A} n (f : M (SmartClient.t * V) A) : ∀ sv sv' a, retry n f sv = (sv', Ok a) → ∃ sv1, f sv1 = (sv', Ok a).
Proof.
  induction n as [|n IH]; intros sv sv' a Hr; cbn [retry] in Hr; [done|].
  destruct (f sv) as [sv1 [b|e]] eqn:Hf; [injection Hr as <- <-; eauto|].
  assert (match n with O => (sv1, Raise e) | _ => retry n f sv1 end = (sv', Ok a)) as Hr' by (by destruct e).
  destruct n; [done|]. by eapply IH.
Qed.

(** A commit through the client answers yes or raises.  When [commit] returns, it has
    answered yes and the transaction is committed, however many of its attempts raised
    before; so [put], which is a transaction of one key, returns nothing but yes. *)
Theorem client_commit_is_committed sched id sv sv' r :
  SmartClient.commit sched id sv = (sv', Ok r) → r.1 = true ∧ is_committed id sv'.2.1.
Proof.
  intros [sv1 Hr]%retry_Ok. unfold _do_commit in Hr. mstep Hr. unfold coordinator in Hm.
  destruct (TransactionCoordinator.commit sched id sv1.2) as [v1 r1] eqn:Hc. injection Hm as <- ->.
  destruct a as [[] ts]; cbn [fst] in Hr.
  - injection Hr as <- <-. split; [done|]. by eapply coordinator_commit_yes.
  - mstep Hr. injection Hm as <- <-. by destruct (get_transaction _ _) as [x|]; [destruct (abort_reason x)|].
Qed.
End commit.
