(* ===== verification/Publisher.v ===== *)
(** The thread that keeps the routing table in step with the cluster,
    [MetadataPublisher] of [metadata/publisher.py].

    It uses the table's group through [TableClient] and the cluster through [ShardCluster];
    the world [W] behind the two may change at every call.  [Traced] records the proposals a
    publisher makes with their answers. *)

From Stdlib Require Import ZArith Lia.
From S2P Require Import Prelude Bytes PyVal PyOps StateMachine Groups Dict Router Metadata MetadataFacts MetadataClient.

Class TableClient (W : Type) := {
  tc_init_routes : RangeMap → M W ApplyResult;
  tc_set_shard_nodes : Z → list Z → gmap Z string → M W ApplyResult;
  tc_report_leader : Z → Z → Z → M W ApplyResult;
  tc_table : bool → M W RoutingTable
}.

(** What the publisher uses of a cluster.  The last two methods are looked up by name, and a
    cluster need not have them. *)
Class ShardCluster (W : Type) := {
  sc_range_map : M W RangeMap;
  sc_shard_ids : M W (list Z);
  sc_shard_replica_ids : Z → M W (list Z);
  sc_shard_addresses : Z → M W (gmap Z string);
  sc_shard_leader : Z → M W (option (Z * Z));
  sc_possible_ranges : option (M W (list RangeMap));
  sc_migrations : option (M W (list Z))
}.

(** Equality of two dictionaries, which does not see the order of their entries. *)
Definition same_ranges (a b : RangeMap) : bool := bool_decide (dict_of a = dict_of b).

Module MetadataPublisher.

(** [error] keeps the two range maps its message quotes, [last_error] the exception. *)
Record t := {
  _routes_published : bool;
  _nodes_published : gset Z;
  _leaders : gmap Z (Z * Z);
  error : option (RangeMap * RangeMap);
  last_error : option exn
}.
Definition init : t :=
  {| _routes_published := false; _nodes_published := ∅; _leaders := ∅; error := None;
     last_error := None |}.

Definition set_routes_published (p : t) : t :=
  {| _routes_published := true; _nodes_published := _nodes_published p; _leaders := _leaders p;
     error := error p; last_error := last_error p |}.
Definition add_nodes_published (i : Z) (p : t) : t :=
  {| _routes_published := _routes_published p; _nodes_published := {[ i ]} ∪ _nodes_published p;
     _leaders := _leaders p; error := error p; last_error := last_error p |}.
Definition set_leaders (l : gmap Z (Z * Z)) (p : t) : t :=
  {| _routes_published := _routes_published p; _nodes_published := _nodes_published p;
     _leaders := l; error := error p; last_error := last_error p |}.
Definition set_error (e : RangeMap * RangeMap) (p : t) : t :=
  {| _routes_published := _routes_published p; _nodes_published := _nodes_published p;
     _leaders := _leaders p; error := Some e; last_error := last_error p |}.
Definition set_last_error (e : exn) (p : t) : t :=
  {| _routes_published := _routes_published p; _nodes_published := _nodes_published p;
     _leaders := _leaders p; error := error p; last_error := Some e |}.

Definition forget_leader (i : Z) (p : t) : t := set_leaders (delete i (_leaders p)) p.
Definition leaders (p : t) : gmap Z (Z * Z) := _leaders p.

Section publisher.
Context {W : Type} `{TableClient W} `{ShardCluster W}.

Abbreviation st := (W * t)%type.
(** A call of the client or the cluster, and the publisher's own fields. *)
Definition call {A} (f : M W A) : M st A := λ '(w, p), let '(w', a) := f w in ((w', p), a).
Definition mine : M st t := λ s, (s, Ok s.2).
Definition change (f : t → t) : M st unit := λ '(w, p), ((w, f p), Ok tt).

Definition _is_our_own (routes : RangeMap) : M st bool :=
  match sc_possible_ranges with
  | None => let* r := call sc_range_map in ret (same_ranges routes r)
  | Some possible => let* l := call possible in ret (existsb (same_ranges routes) l)
  end.

Definition _publish_routes : M st unit :=
  let* p := mine in
  if _routes_published p then ret tt else
  let* ranges := call sc_range_map in
  let* r := call (tc_init_routes ranges) in
  if ar_success r then change set_routes_published
  else if decide (ar_error_code r = Some ErrorCode.ERR_NOT_LEADER) then ret tt
  else
    let* table := call (tc_table true) in
    let* own := _is_our_own (routes table) in
    if own then change set_routes_published
    else change (set_error (routes table, ranges)).

Definition _moving_shards : M st (list Z) :=
  match sc_migrations with None => ret [] | Some m => call m end.

Definition _publish_nodes (shard_id : Z) : M st unit :=
  let* p := mine in
  if decide (shard_id ∈ _nodes_published p) then ret tt else
  let* nodes := call (sc_shard_replica_ids shard_id) in
  if decide (nodes = []) then ret tt else
  let* addresses := call (sc_shard_addresses shard_id) in
  let* r := call (tc_set_shard_nodes shard_id nodes addresses) in
  if ar_success r then change (add_nodes_published shard_id)
  else if decide (ar_error_code r = Some ErrorCode.ERR_NOT_LEADER) then ret tt
  else change (add_nodes_published shard_id).

Definition _publish_leader (shard_id : Z) : M st unit :=
  let* p := mine in
  if decide (shard_id ∉ _nodes_published p) then ret tt else
  let* observed := call (sc_shard_leader shard_id) in
  match observed with
  | None => ret tt
  | Some (node_id, term) =>
      let reported := _leaders p !! shard_id in
      if decide (reported = Some (node_id, term)) then ret tt
      else if match reported with Some (_, t0) => term <=? t0 | None => false end then ret tt
      else
        let* r := call (tc_report_leader shard_id node_id term) in
        let remember := change (λ p, set_leaders (<[shard_id := (node_id, term)]> (_leaders p)) p) in
        if ar_success r then remember
        else if decide (ar_error_code r = Some ErrorCode.ERR_NOT_LEADER) then ret tt
        else remember
  end.

Fixpoint each {A} (f : A → M st unit) (l : list A) : M st unit :=
  match l with
  | [] => ret tt
  | x :: l => f x;;; each f l
  end.

Definition publish_once : M st unit :=
  let* p := mine in
  match error p with
  | Some _ => ret tt
  | None =>
      _publish_routes;;;
      let* p := mine in
      if negb (_routes_published p) then ret tt else
      let* moving := _moving_shards in
      let* ids := call sc_shard_ids in
      each (λ i, if decide (i ∈ moving) then ret tt
                 else _publish_nodes i;;; _publish_leader i) (merge_sort Z.le ids)
  end.

(** One turn of [_run]: an exception is remembered and the next turn tries again. *)
Definition _run_turn (s : st) : st :=
  match publish_once s with
  | (s', Ok _) => s'
  | ((w, p), Raise e) => (w, set_last_error e p)
  end.
End publisher.
End MetadataPublisher.

(** ** The two clients a publisher may be handed *)

(** [MetadataClient], beside a cluster with a state of its own. *)
#[global] Instance metadata_client {P : PyRepr} {MP : Msgpack} {W N C} `{!MetaGroup W N}
    : TableClient ((W * option RoutingTable) * C) :=
  let on {A} (f : M (W * option RoutingTable) A) : M ((W * option RoutingTable) * C) A :=
    λ '(c, k), let '(c', a) := f c in ((c', k), a) in
  {| tc_init_routes ranges := on (MetadataClient.init_routes (N := N) ranges);
     tc_set_shard_nodes i nodes addresses :=
       on (MetadataClient.set_shard_nodes (N := N) i nodes addresses);
     tc_report_leader i n term := on (MetadataClient.report_leader (N := N) i n term);
     tc_table fresh := on (MetadataClient.table (N := N) fresh) |}.

Module Traced.
Section traced.
Context {W : Type} `{TableClient W} `{ShardCluster W}.

(** A proposal with its answer, or the call of [forget_leader]. *)
Inductive event :=
  | InitRoutes (ranges : RangeMap) (r : result ApplyResult)
  | SetNodes (shard_id : Z) (nodes : list Z) (addresses : gmap Z string) (r : result ApplyResult)
  | ReportLeader (shard_id node_id term : Z) (r : result ApplyResult)
  | Forgot (shard_id : Z).

Definition note {A} (f : M W A) (e : result A → event) : M (W * list event) A :=
  λ '(w, l), let '(w', a) := f w in ((w', l ++ [e a]), a).
Definition through {A} (f : M W A) : M (W * list event) A :=
  λ '(w, l), let '(w', a) := f w in ((w', l), a).

#[global] Instance client : TableClient (W * list event) := {|
  tc_init_routes ranges := note (tc_init_routes ranges) (InitRoutes ranges);
  tc_set_shard_nodes i nodes addresses :=
    note (tc_set_shard_nodes i nodes addresses) (SetNodes i nodes addresses);
  tc_report_leader i n term := note (tc_report_leader i n term) (ReportLeader i n term);
  tc_table fresh := through (tc_table fresh) |}.

#[global] Instance cluster : ShardCluster (W * list event) := {|
  sc_range_map := through sc_range_map;
  sc_shard_ids := through sc_shard_ids;
  sc_shard_replica_ids i := through (sc_shard_replica_ids i);
  sc_shard_addresses i := through (sc_shard_addresses i);
  sc_shard_leader i := through (sc_shard_leader i);
  sc_possible_ranges := option_map through sc_possible_ranges;
  sc_migrations := option_map through sc_migrations |}.

(** A publisher's life: turns of its thread, calls of [forget_leader], and whatever else
    happens in the world. *)
Inductive happens : (W * list event) * MetadataPublisher.t → (W * list event) * MetadataPublisher.t → Prop :=
  | h_turn s : happens s (MetadataPublisher._run_turn s)
  | h_forget w l p i : happens ((w, l), p) ((w, l ++ [Forgot i]), MetadataPublisher.forget_leader i p)
  | h_world w w' l p : happens ((w, l), p) ((w', l), p).
End traced.
End Traced.
