(* ===== verification/PublisherFacts.v ===== *)
(** What the publisher says, and what it leaves unsaid: over its whole life it proposes the
    ranges, each replica set and each leader's term once, and one pass over a fresh table
    puts the cluster's placement there. *)

From Stdlib Require Import ZArith Lia.
From S2P Require Import Prelude Bytes PyVal PyOps StateMachine Groups Dict Router Metadata MetadataFacts MetadataClient Publisher.
Import MetadataPublisher.

(** ** The proposals of a publisher's life *)

(** The group took the proposal in, as a change or as a refusal of the command. *)
Definition answered (r : result ApplyResult) : bool :=
  match r with
  | Ok a => ar_success a || negb (bool_decide (ar_error_code a = Some ErrorCode.ERR_NOT_LEADER))
  | Raise _ => false
  end.

(** The last leader of shard [i] the group has answered for, since it was last forgotten. *)
Definition settled1 (i : Z) (acc : option (Z * Z)) (e : Traced.event) : option (Z * Z) :=
  match e with
  | Traced.ReportLeader j n t r => if decide (j = i) then if answered r then Some (n, t) else acc else acc
  | Traced.Forgot j => if decide (j = i) then None else acc
  | _ => acc
  end.
Definition settled (i : Z) (l : list Traced.event) : option (Z * Z) := foldl (settled1 i) None l.
Arguments settled : simpl never.

Definition nodes_settled (i : Z) (l : list Traced.event) : Prop :=
  ∃ nodes addresses r, Traced.SetNodes i nodes addresses r ∈ l ∧ answered r = true.
Definition routes_settled (l : list Traced.event) : Prop :=
  ∃ ranges a, Traced.InitRoutes ranges (Ok a) ∈ l ∧ ar_success a = true.

(** What may be proposed after the proposals [l]. *)
Definition news (l : list Traced.event) (e : Traced.event) : Prop :=
  match e with
  | Traced.InitRoutes _ _ => ¬ routes_settled l
  | Traced.SetNodes i nodes _ _ => ¬ nodes_settled i l ∧ nodes ≠ []
  | Traced.ReportLeader i n t _ =>
      nodes_settled i l ∧ match settled i l with Some (_, t0) => t0 < t | None => True end
  | Traced.Forgot _ => True
  end.

Section life.
Context {W : Type} `{TableClient W} `{ShardCluster W}.
Abbreviation st := ((W * list Traced.event) * MetadataPublisher.t)%type.

Record life_inv (s : st) : Prop := {
  li_news pre e post : s.1.2 = pre ++ e :: post → news pre e;
  li_leaders i : _leaders s.2 !! i = settled i s.1.2;
  li_nodes i : i ∈ _nodes_published s.2 ↔ nodes_settled i s.1.2;
  li_routes : routes_settled s.1.2 → _routes_published s.2 = true
}.

Lemma settled_snoc i l e : settled i (l ++ [e]) = settled1 i (settled i l) e.
Proof. unfold settled. by rewrite foldl_app. Qed.

Lemma nodes_settled_snoc i l e :
  nodes_settled i (l ++ [e]) ↔
  nodes_settled i l ∨ match e with Traced.SetNodes j _ _ r => j = i ∧ answered r = true | _ => False end.
Proof.
  unfold nodes_settled. setoid_rewrite elem_of_app. setoid_rewrite list_elem_of_singleton. split.
  - intros (ns&ad&r&[Hin| <-]&Hr); [left; eauto 10|by right].
  - intros [(ns&ad&r&Hin&Hr)|He]; [eauto 10|]. destruct e; try done. destruct He as [-> Hr].
    do 3 eexists. split; [by right|done].
Qed.

Lemma routes_settled_snoc l e :
  routes_settled (l ++ [e]) →
  routes_settled l ∨ match e with Traced.InitRoutes _ (Ok a) => ar_success a = true | _ => False end.
Proof.
  intros (rs&a&[Hin| <-%list_elem_of_singleton]%elem_of_app&Ha); [left; by exists rs, a|by right].
Qed.

(** The trace grows by one event that is news. *)
Lemma news_snoc l e :
  (∀ pre x post, l = pre ++ x :: post → news pre x) → news l e →
  ∀ pre x post, l ++ [e] = pre ++ x :: post → news pre x.
Proof.
  intros Hl He pre x post Heq. destruct post as [|y post _] using rev_ind.
  - apply app_inj_tail in Heq as [-> ->]. done.
  - assert (pre ++ x :: post ++ [y] = (pre ++ x :: post) ++ [y]) as Hr by by rewrite <-app_assoc.
    rewrite Hr in Heq. apply app_inj_tail in Heq as [-> ->]. by eapply Hl.
Qed.

(** A computation that keeps the invariant, whatever it answers. *)
Definition keeps {A} (m : M st A) : Prop := ∀ s, life_inv s → life_inv (m s).1.

Lemma keeps_ret {A} (a : A) : keeps (ret a).
Proof. by intros s. Qed.
Lemma keeps_bind {A B} (m : M st A) (k : A → M st B) : keeps m → (∀ a, keeps (k a)) → keeps (bind m k).
Proof.
  intros Hm Hk s Hs. specialize (Hm s Hs). unfold bind. destruct (m s) as [s' [a|e]]; [|done].
  by apply Hk.
Qed.
Lemma keeps_through {A} (f : M W A) : keeps (call (Traced.through f)).
Proof.
  intros [[w l] p] Hs. unfold call, Traced.through. destruct (f w) as [w' a]. cbn.
  destruct Hs as [H1 H2 H3 H4]. by split.
Qed.
(** A call that is not a proposal, then the rest; and a proposal, then the rest. *)
Lemma through_then {A B} (f : M W A) (k : A → M st B) w l p :
  life_inv ((w, l), p) → (∀ w' a, life_inv ((w', l), p) → life_inv (k a ((w', l), p)).1) →
  life_inv (bind (call (Traced.through f)) k ((w, l), p)).1.
Proof.
  intros Hs Hk. pose proof (keeps_through f _ Hs) as Hf. revert Hf.
  unfold bind, call, Traced.through. destruct (f w) as [w' [a|x]]; [apply Hk|done].
Qed.
Lemma note_then {A B} (f : M W A) e (k : A → M st B) w l p :
  (∀ w' r, life_inv (match r with
                     | Ok a => (k a ((w', l ++ [e r]), p)).1
                     | Raise _ => ((w', l ++ [e r]), p)
                     end)) →
  life_inv (bind (call (Traced.note f e)) k ((w, l), p)).1.
Proof.
  intros Hk. unfold bind, call, Traced.note. destruct (f w) as [w' r]. specialize (Hk w' r).
  by destruct r.
Qed.
Lemma keeps_each {A} (f : A → M st unit) l : (∀ a, keeps (f a)) → keeps (each f l).
Proof. intros Hf. induction l as [|x l IH]; [apply keeps_ret|by apply keeps_bind]. Qed.

Lemma inv_mark_routes w l p :
  life_inv ((w, l), p) → life_inv ((w, l), set_routes_published p).
Proof. intros [H1 H2 H3 H4]. by split. Qed.

Lemma keeps_is_our_own r : keeps (_is_our_own (W := W * list Traced.event) r).
Proof.
  unfold _is_our_own. cbn [sc_possible_ranges Traced.cluster].
  destruct sc_possible_ranges as [f|]; cbn [option_map];
    (apply keeps_bind; [apply keeps_through|]); intros; apply keeps_ret.
Qed.
End life.

#[export] Hint Resolve keeps_ret keeps_through keeps_is_our_own : oxide.

Section life2.
Context {W : Type} `{TableClient W} `{ShardCluster W}.
Abbreviation st := ((W * list Traced.event) * MetadataPublisher.t)%type.

(** After the proposal [e] and its answer, the publisher's fields are those of [p']. *)
Lemma life_step (w w' : W) l p p' e :
  life_inv ((w, l), p) → news l e →
  (∀ i, _leaders p' !! i = settled1 i (_leaders p !! i) e) →
  (∀ i, i ∈ _nodes_published p' ↔
        i ∈ _nodes_published p ∨
        match e with Traced.SetNodes j _ _ r => j = i ∧ answered r = true | _ => False end) →
  (_routes_published p = true ∨
   match e with Traced.InitRoutes _ (Ok a) => ar_success a = true | _ => False end →
   _routes_published p' = true) →
  life_inv ((w', l ++ [e]), p').
Proof.
  intros [I1 I2 I3 I4] He HL HN HR. cbn in *. split; cbn.
  - by apply news_snoc.
  - intros i. by rewrite HL, I2, settled_snoc.
  - intros i. by rewrite HN, I3, nodes_settled_snoc.
  - intros [Hr|Hr]%routes_settled_snoc; apply HR; auto.
Qed.

Lemma keeps_routes : keeps (_publish_routes (W := W * list Traced.event)).
Proof.
  intros [[w l] p] Hs. unfold _publish_routes, bind at 1, mine. cbn [snd].
  destruct (_routes_published p) eqn:Hp; [done|].
  apply through_then; [done|]. intros w1 ranges Hs1. apply note_then. intros w2 a.
  assert (Hnews : news l (Traced.InitRoutes ranges a)).
  { intros Hr. apply (li_routes _ Hs1) in Hr. cbn in Hr. congruence. }
  assert (Hgo : ∀ p', _leaders p' = _leaders p → _nodes_published p' = _nodes_published p →
      (match a with Ok a => ar_success a = true | Raise _ => False end → _routes_published p' = true) →
      life_inv ((w2, l ++ [Traced.InitRoutes ranges a]), p')).
  { intros p' E1 E2 E3. eapply life_step; [exact Hs1|done|by rewrite E1|intros i; rewrite E2; tauto|].
    intros [Hr|Hr]; [congruence|]. by apply E3. }
  destruct a as [a|x]; [|by apply Hgo].
  destruct (ar_success a) eqn:Ha; [by apply Hgo|].
  case_decide; [by apply Hgo|]. apply through_then; [by apply Hgo|]. intros w3 table Hs3.
  apply keeps_bind; [apply keeps_is_our_own| |done].
  intros [] [[w4 l4] q] Hq; [by apply inv_mark_routes|]. by destruct Hq.
Qed.

Lemma keeps_nodes i : keeps (_publish_nodes (W := W * list Traced.event) i).
Proof.
  intros [[w l] p] Hs. unfold _publish_nodes, bind at 1, mine. cbn [snd].
  case_decide as Hi; [done|]. apply through_then; [done|]. intros w1 nodes Hs1.
  case_decide as Hn; [done|]. apply through_then; [done|]. intros w2 addresses Hs2.
  apply note_then. intros w3 a.
  assert (Hnews : news l (Traced.SetNodes i nodes addresses a)).
  { split; [|done]. intros Hc. by apply (li_nodes _ Hs2) in Hc. }
  assert (Hgo : ∀ b : bool, answered a = b →
      life_inv ((w3, l ++ [Traced.SetNodes i nodes addresses a]),
                if b then add_nodes_published i p else p)).
  { intros b Hb. eapply life_step; [exact Hs2|done|by destruct b| |].
    - intros j. destruct b; cbn; rewrite Hb; set_solver.
    - intros [Hr|[]]. by destruct b. }
  destruct a as [a|x]; [|by apply (Hgo false)]. cbn [answered] in Hgo.
  destruct (ar_success a); [by apply (Hgo true)|].
  case_decide as Hc; [apply (Hgo false)|apply (Hgo true)]; by case_bool_decide.
Qed.

Lemma keeps_leader i : keeps (_publish_leader (W := W * list Traced.event) i).
Proof.
  intros [[w l] p] Hs. unfold _publish_leader, bind at 1, mine. cbn [snd].
  case_decide as Hi; [done|]. apply through_then; [done|]. intros w1 [[node_id term]|] Hs1; [|done].
  case_decide; [done|].
  destruct (match _leaders p !! i with Some (_, t0) => term <=? t0 | None => false end) eqn:Ht; [done|].
  apply note_then. intros w2 a.
  assert (Hnews : news l (Traced.ReportLeader i node_id term a)).
  { cbn. split; [apply (li_nodes _ Hs1); by destruct (decide (i ∈ _nodes_published p))|].
    pose proof (li_leaders _ Hs1 i) as HL. cbn in HL. rewrite <-HL.
    destruct (_leaders p !! i) as [[n0 t0]|]; [zbool; lia|done]. }
  assert (Hgo : ∀ b : bool, answered a = b →
      life_inv ((w2, l ++ [Traced.ReportLeader i node_id term a]),
                if b then set_leaders (<[i := (node_id, term)]> (_leaders p)) p else p)).
  { intros b Hb. eapply life_step; [exact Hs1|done| | |].
    - intros j. cbn. rewrite Hb. destruct b; cbn; case_decide as Hj; [subst j|..]; try done;
        [by rewrite lookup_insert_eq|by rewrite lookup_insert_ne].
    - intros j. destruct b; cbn; tauto.
    - intros [Hr|[]]. by destruct b. }
  destruct a as [a|x]; [|by apply (Hgo false)]. cbn [answered] in Hgo.
  destruct (ar_success a); [by apply (Hgo true)|].
  case_decide as Hc; [apply (Hgo false)|apply (Hgo true)]; by case_bool_decide.
Qed.

Lemma keeps_publish_once : keeps (publish_once (W := W * list Traced.event)).
Proof.
  apply keeps_bind; [by intros s|]. intros p. destruct (error p); [apply keeps_ret|].
  apply keeps_bind; [apply keeps_routes|]. intros _. apply keeps_bind; [by intros s|].
  intros q. destruct (negb _); [apply keeps_ret|]. apply keeps_bind.
  { unfold _moving_shards. cbn [sc_migrations Traced.cluster].
    destruct sc_migrations; cbn [option_map]; eauto with oxide. }
  intros moving. apply keeps_bind; [apply keeps_through|]. intros ids. apply keeps_each. intros i.
  case_decide; [apply keeps_ret|]. apply keeps_bind; [apply keeps_nodes|]. intros _. apply keeps_leader.
Qed.

Lemma keeps_happens (s s' : st) : Traced.happens s s' → life_inv s → life_inv s'.
Proof.
  intros [s0|w l p i|w w' l p] Hs.
  - unfold _run_turn. pose proof (keeps_publish_once s0 Hs) as Hk.
    destruct (publish_once s0) as [[[w l] p] [u|x]]; [done|]. destruct Hk as [? ? ? ?]. by split.
  - eapply life_step; [exact Hs|done| |cbn; tauto|intros [Hr|[]]; done].
    intros j. cbn. case_decide as Hj; [subst j; apply lookup_delete_eq|by apply lookup_delete_ne].
  - destruct Hs as [? ? ? ?]. by split.
Qed.
End life2.

(** Over a publisher's whole life - turns of its thread, calls of [forget_leader], and
    whatever else the cluster and the group do - it proposes news only.  The ranges are
    proposed until they are accepted and not once more; a replica set is proposed, never
    empty, until the group has answered; and a leader is reported only for a shard whose
    replica set was answered for, at a term above every one the group has answered for since
    the shard's leader was last forgotten.  What [leaders] tells is the last report that was
    answered. *)
Theorem publisher_proposes_news {W} `{TableClient W} `{ShardCluster W} (w w' : W) l p :
  rtc Traced.happens ((w, []), init) ((w', l), p) →
  (∀ pre e post, l = pre ++ e :: post → news pre e) ∧
  (∀ i, leaders p !! i = settled i l) ∧
  (∀ i, i ∈ _nodes_published p ↔ nodes_settled i l).
Proof.
  intros Hr. assert (life_inv ((w', l), p)) as [I1 I2 I3 I4]; [|done].
  assert (∀ s s' : (W * list Traced.event) * MetadataPublisher.t,
            rtc Traced.happens s s' → life_inv s → life_inv s') as Hk.
  { induction 1; eauto using keeps_happens. }
  apply (Hk _ _ Hr). split; cbn.
  - by intros [] ?.
  - done.
  - intros i. split; [set_solver|]. intros (?&?&?&?%elem_of_nil&_). done.
  - intros (?&?&?%elem_of_nil&_). done.
Qed.

(** ** One pass over a fresh table *)

#[local] Arguments MetadataFacts.run : simpl never.
#[local] Arguments MetadataStateMachine.apply : simpl never.

(** A cluster that stands still: its ranges, and per shard its nodes, their addresses and
    its leader with the leader's term; the shards of [pl_moving] are being moved. *)
Record placement := {
  pl_ranges : RangeMap;
  pl_nodes : Z → list Z;
  pl_addresses : Z → gmap Z string;
  pl_leader : Z → option (Z * Z);
  pl_moving : list Z
}.

(** The command can be built: its integers and byte strings fit the wire. *)
Definition can_publish `{PyRepr} `{!Msgpack} (c : placement) : Prop :=
  is_Ok (MetadataStateMachine.init_routes_command (pl_ranges c)) ∧
  (∀ i, i ∈ (pl_ranges c).*1 →
     is_Ok (MetadataStateMachine.set_shard_nodes_command i (pl_nodes c i) (pl_addresses c i))) ∧
  (∀ i n t, i ∈ (pl_ranges c).*1 → pl_leader c i = Some (n, t) →
     is_Ok (MetadataStateMachine.report_leader_command i n t)).

Section pass.
Context `{PyRepr} `{!Msgpack} (c : placement).

Abbreviation world := ((list bytes * option RoutingTable) * unit)%type.
#[local] Instance still : ShardCluster world := {|
  sc_range_map := ret (pl_ranges c);
  sc_shard_ids := ret (merge_sort Z.le (pl_ranges c).*1);
  sc_shard_replica_ids i := ret (pl_nodes c i);
  sc_shard_addresses i := ret (pl_addresses c i);
  sc_shard_leader i := ret (pl_leader c i);
  sc_possible_ranges := Some (ret [pl_ranges c]);
  sc_migrations := Some (ret (pl_moving c)) |}.

(** Shard [i] as the pass leaves it in the table. *)
Definition published (i : Z) (r : bytes * bytes) : ShardPlacement :=
  if decide (i ∈ pl_moving c ∨ pl_nodes c i = []) then fresh_placement i r.1 r.2 [] ∅
  else
    let led := match pl_leader c i with
               | Some (n, t) => if decide (n ∈ pl_nodes c i) then Some (n, t) else None
               | None => None
               end in
    {| sp_shard_id := i; sp_start := r.1; sp_end := r.2; sp_nodes := pl_nodes c i;
       sp_addresses := pl_addresses c i; sp_leader_id := option_map fst led;
       sp_leader_term := default 0 (option_map snd led) |}.

(** The table when the shards of [D] have been told. *)
Definition told (D : list Z) : gmap Z ShardPlacement :=
  map_imap (λ i r, Some (if decide (i ∈ D) then published i r else fresh_placement i r.1 r.2 [] ∅))
    (dict_of (pl_ranges c)).

Abbreviation table_at log := (MetadataStateMachine._shards (MetadataFacts.run log MetadataStateMachine.init)).

(** A proposal to a group of one is applied at once. *)
Lemma propose_local cmd log k :
  (∀ code, ar_error_code (MetadataStateMachine.apply cmd (MetadataFacts.run log MetadataStateMachine.init)).2 = Some code →
     code < 300) →
  MetadataClient._propose (N := unit) (Ok cmd) (log, k) =
    let r := (MetadataStateMachine.apply cmd (MetadataFacts.run log MetadataStateMachine.init)).2 in
    ((log ++ [cmd], if ar_success r then None else k), Ok r).
Proof.
  intros Hc. unfold MetadataClient._propose. cbn.
  unfold bind, MetadataClient.call, MetadataClient.lift, reads, MetadataClient.set_table, ret.
  cbn.
  destruct (MetadataStateMachine.apply _ _) as [s' r]. cbn in *.
  destruct (ar_success r); [done|]. rewrite decide_True; [done|].
  split; intros Hx; apply Hc in Hx; unfold ErrorCode.ERR_NOT_LEADER, ErrorCode.ERR_LEADERSHIP_LOST in Hx; lia.
Qed.

(** The same through the publisher's client. *)
Lemma on_propose (f : M world ApplyResult) command cmd log k :
  (∀ s, f s = let '(s', a) := MetadataClient._propose (N := unit) command s.1 in ((s', s.2), a)) →
  command = Ok cmd →
  let r := (MetadataStateMachine.apply cmd (MetadataFacts.run log MetadataStateMachine.init)).2 in
  (∀ code, ar_error_code r = Some code → code < 300) →
  f ((log, k), tt) = ((((log ++ [cmd], if ar_success r then None else k)), tt), Ok r).
Proof. intros Hf -> r Hr. rewrite Hf. cbn [fst]. by rewrite (propose_local _ _ _ Hr). Qed.

Lemma run_snoc log cmd s :
  MetadataFacts.run (log ++ [cmd]) s = (MetadataStateMachine.apply cmd (MetadataFacts.run log s)).1.
Proof. by rewrite run_app. Qed.
(** The table and the publisher's memory when the shards of [D] have been told. *)
Record told_inv (D : list Z) (s : world * MetadataPublisher.t) : Prop := {
  ti_table : table_at s.1.1.1 = told D;
  ti_routes : _routes_published s.2 = true;
  ti_error : error s.2 = None;
  ti_nodes i : i ∈ _nodes_published s.2 ↔ i ∈ D ∧ i ∉ pl_moving c ∧ pl_nodes c i ≠ [];
  ti_leaders i : _leaders s.2 !! i = if decide (i ∈ _nodes_published s.2) then pl_leader c i else None
}.

Lemma told_lookup D i r :
  dict_of (pl_ranges c) !! i = Some r →
  told D !! i = Some (if decide (i ∈ D) then published i r else fresh_placement i r.1 r.2 [] ∅).
Proof. intros Hr. unfold told. by rewrite map_lookup_imap, Hr. Qed.

(** Telling the table about one more shard. *)
Lemma told_insert D i r :
  dict_of (pl_ranges c) !! i = Some r → <[i := published i r]> (told D) = told (i :: D).
Proof.
  intros Hr. apply map_eq. intros j. destruct (decide (i = j)) as [<-|Hij].
  - rewrite lookup_insert_eq, (told_lookup _ _ _ Hr). rewrite decide_True; [done|left].
  - rewrite lookup_insert_ne by done. unfold told. rewrite !map_lookup_imap.
    destruct (dict_of _ !! j) as [q|]; cbn; [|done]. f_equal.
    destruct (decide (j ∈ D)); [rewrite decide_True; [done|by right]|].
    rewrite decide_False; [done|]. intros [->|?]%elem_of_cons; done.
Qed.

Lemma told_skip D i :
  i ∈ pl_moving c ∨ pl_nodes c i = [] → told (i :: D) = told D.
Proof.
  intros Hi. apply map_eq. intros j. unfold told. rewrite !map_lookup_imap.
  destruct (dict_of _ !! j) as [q|]; cbn; [|done]. f_equal.
  destruct (decide (i = j)) as [<-|Hij].
  - rewrite decide_True by left. unfold published. rewrite (decide_True _ _ Hi). by case_decide.
  - destruct (decide (j ∈ D)); [rewrite decide_True; [done|by right]|].
    rewrite decide_False; [done|]. intros [->|?]%elem_of_cons; done.
Qed.

Abbreviation step := (λ i, if decide (i ∈ pl_moving c) then ret tt
                           else _publish_nodes (W := world) i;;; _publish_leader i).

(** A shard that was told costs nothing. *)
Lemma step_quiet D i s : told_inv D s → i ∈ D → step i s = (s, Ok tt).
Proof.
  intros [I1 I2 I3 I4 I5] Hi. cbn beta. case_decide as Hm; [done|]. destruct s as [w p]. cbn in *.
  specialize (I4 i). specialize (I5 i).
  unfold bind at 1, _publish_nodes, bind at 1, mine. cbn [snd].
  destruct (decide (i ∈ _nodes_published p)) as [Hp|Hp].
  - unfold ret at 1. unfold _publish_leader, bind at 1, mine. cbn [snd]. rewrite decide_False by tauto.
    unfold bind at 1, call, sc_shard_leader, still, ret at 1. destruct (pl_leader c i) as [[n t]|]; [|done].
    rewrite I5. by rewrite decide_True.
  - assert (pl_nodes c i = []) as Hn. { destruct (pl_nodes c i) eqn:E; [done|]. exfalso. naive_solver. }
    unfold bind at 1, call, sc_shard_replica_ids, still, ret at 1. rewrite (decide_True _ _ Hn).
    unfold ret at 1. unfold _publish_leader, bind at 1, mine. cbn [snd]. by rewrite decide_True.
Qed.
(** Shard [i] between its replica set and its leader. *)
Definition unled (i : Z) (r : bytes * bytes) : ShardPlacement :=
  {| sp_shard_id := i; sp_start := r.1; sp_end := r.2; sp_nodes := pl_nodes c i;
     sp_addresses := pl_addresses c i; sp_leader_id := None; sp_leader_term := 0 |}.

Lemma nodes_step D i r s :
  can_publish c → told_inv D s → i ∉ D → dict_of (pl_ranges c) !! i = Some r →
  i ∈ (pl_ranges c).*1 → pl_nodes c i ≠ [] →
  ∃ log, _publish_nodes i s = ((((log, None), tt), add_nodes_published i s.2), Ok tt) ∧
         table_at log = <[i := unled i r]> (told D).
Proof.
  intros (_&Hc&_) [I1 I2 I3 I4 I5] HD Hr Hi Hn. destruct (Hc i Hi) as [c1 H1].
  destruct s as [[[log k] []] p]. cbn in I1, I4. cbn [snd].
  exists (log ++ [c1]). rewrite run_snoc. pose proof (set_nodes_run _ _ _ _
    (MetadataFacts.run log MetadataStateMachine.init) H1) as Ha.
  rewrite I1, (told_lookup _ _ _ Hr), decide_False in Ha by done. cbn in Ha.
  unfold _publish_nodes, bind at 1, mine. cbn [snd]. rewrite decide_False by (rewrite I4; tauto).
  unfold bind at 1, call at 1, sc_shard_replica_ids, still, ret at 1. rewrite decide_False by done.
  unfold bind at 1, call at 1, sc_shard_addresses, ret at 1.
  unfold bind at 1, call at 1.
  erewrite (on_propose (tc_set_shard_nodes i _ _) _ c1); [|by intros [[? ?] []]|exact H1|by rewrite Ha; intros code [= <-]].
  rewrite Ha.
  split; [done|]. cbn. by rewrite I1.
Qed.

Lemma leader_step D i r (log : list bytes) p :
  can_publish c → dict_of (pl_ranges c) !! i = Some r → i ∈ (pl_ranges c).*1 →
  i ∉ pl_moving c → pl_nodes c i ≠ [] →
  table_at log = <[i := unled i r]> (told D) → i ∈ _nodes_published p → _leaders p !! i = None →
  ∃ log' p', _publish_leader i (((log, None), tt), p) = ((((log', None), tt), p'), Ok tt) ∧
    table_at log' = told (i :: D) ∧
    p' = set_leaders (match pl_leader c i with
                      | Some o => <[i := o]> (_leaders p)
                      | None => _leaders p
                      end) p.
Proof.
  intros (_&_&Hc) Hr Hi Hm Hn Ht Hp Hl. rewrite <-(told_insert D i r Hr).
  unfold _publish_leader, bind at 1, mine. cbn [snd]. rewrite decide_False by tauto.
  unfold bind at 1, call at 1, sc_shard_leader, still, ret at 1. rewrite Hl.
  destruct (pl_leader c i) as [[n t]|] eqn:Ho.
  2:{ exists log, p. split_and!; [done| |by destruct p]. rewrite Ht. f_equal. unfold published, unled.
      rewrite decide_False by tauto. by rewrite Ho. }
  destruct (Hc i n t Hi Ho) as [c2 H2]. cbn [decide].
  pose proof (report_run _ _ _ _ (MetadataFacts.run log MetadataStateMachine.init) H2) as Ha.
  rewrite Ht, lookup_insert_eq in Ha. cbn in Ha.
  rewrite (decide_False (P := None ≠ None ∧ _)) in Ha by (by intros []).
  rewrite decide_False by done.
  unfold bind at 1, call at 1.
  erewrite (on_propose (tc_report_leader i n t) _ c2); [|by intros [[? ?] []]|exact H2|].
  2:{ rewrite Ha. case_decide; by intros code [= <-]. }
  exists (log ++ [c2]). eexists. rewrite run_snoc, Ha.
  assert (Hpub : <[i := published i r]> (told D) =
    if decide (pl_nodes c i ≠ [] ∧ n ∉ pl_nodes c i) then <[i := unled i r]> (told D)
    else <[i := {| sp_shard_id := i; sp_start := r.1; sp_end := r.2; sp_nodes := pl_nodes c i;
                   sp_addresses := pl_addresses c i; sp_leader_id := Some n; sp_leader_term := t |}]> (told D)).
  { unfold published. rewrite decide_False by tauto. rewrite Ho. cbn zeta.
    destruct (decide (n ∈ pl_nodes c i)) as [Hin|Hin];
      [by rewrite decide_False by tauto|by rewrite decide_True by tauto]. }
  rewrite Hpub. clear Hpub. case_decide as Hs; cbn; (split_and!; [done| |done]).
  - done.
  - rewrite Ht. apply insert_insert_eq.
Qed.
(** The memory of a publisher that has told one more shard. *)
Lemma told_more D i s s' :
  told_inv D s → i ∉ D → table_at s'.1.1.1 = told (i :: D) →
  _routes_published s'.2 = true → error s'.2 = None →
  (∀ j, j ∈ _nodes_published s'.2 ↔
        j ∈ _nodes_published s.2 ∨ j = i ∧ i ∉ pl_moving c ∧ pl_nodes c i ≠ []) →
  (∀ j, _leaders s'.2 !! j =
        if decide (j = i ∧ i ∈ _nodes_published s'.2) then pl_leader c i else _leaders s.2 !! j) →
  told_inv (i :: D) s'.
Proof.
  intros [I1 I2 I3 I4 I5] HD Ht Hr He Hn Hl. split; [done..| |].
  - intros j. rewrite Hn, I4, elem_of_cons. naive_solver.
  - intros j. rewrite Hl, I5. destruct (decide (j = i)) as [->|Hj].
    + destruct (decide (i ∈ _nodes_published s'.2)); [by rewrite decide_True|].
      rewrite decide_False by tauto. rewrite decide_False; [done|]. by rewrite I4; intros [].
    + rewrite decide_False by tauto.
      assert (j ∈ _nodes_published s'.2 ↔ j ∈ _nodes_published s.2) as Hiff by (rewrite Hn; tauto).
      by rewrite (decide_ext _ _ _ _ Hiff).
Qed.

Lemma step_tells D i s :
  can_publish c → NoDup (pl_ranges c).*1 → told_inv D s → i ∉ D → i ∈ (pl_ranges c).*1 →
  ∃ s', step i s = (s', Ok tt) ∧ told_inv (i :: D) s'.
Proof.
  intros Hc Hd Hs HD Hi. cbn beta. case_decide as Hm.
  { exists s. split; [done|]. apply (told_more D i s); [done..| | | | |].
    - rewrite told_skip by auto. apply Hs.
    - apply Hs.
    - apply Hs.
    - intros j. tauto.
    - intros j. rewrite decide_False; [done|]. intros [-> Hn]. apply Hs in Hn as []. done. }
  destruct (decide (pl_nodes c i = [])) as [Hn|Hn].
  { exists s. assert (i ∉ _nodes_published s.2) as Hp by (intros []%Hs; done). split.
    - destruct s as [w p]. cbn in Hp. unfold bind at 1, _publish_nodes, bind at 1, mine. cbn [snd].
      rewrite decide_False by done. unfold bind at 1, call, sc_shard_replica_ids, still, ret at 1.
      rewrite (decide_True _ _ Hn). unfold ret at 1, _publish_leader, bind at 1, mine. cbn [snd].
      by rewrite decide_True.
    - apply (told_more D i s); [done..| | | | |].
      + rewrite told_skip by auto. apply Hs.
      + apply Hs.
      + apply Hs.
      + intros j. tauto.
      + intros j. rewrite decide_False; [done|]. tauto. }
  apply list_elem_of_fmap in Hi as ([i' r]&->&Hir). cbn in *.
  pose proof Hir as Hr. apply (dict_of_lookup _ _ _ Hd) in Hr.
  assert (Hi : i' ∈ (pl_ranges c).*1) by (apply list_elem_of_fmap; by exists (i', r)).
  destruct (nodes_step _ _ _ _ Hc Hs HD Hr Hi Hn) as (log&Hstep&Ht).
  destruct (leader_step D i' r log (add_nodes_published i' s.2) Hc Hr Hi Hm Hn Ht) as (log'&p'&Hl&Ht'&->).
  { cbn. set_solver. }
  { cbn. rewrite (ti_leaders _ _ Hs). rewrite decide_False; [done|]. by intros []%Hs. }
  eexists. split; [erewrite bind_run by exact Hstep; exact Hl|].
  apply (told_more D i' s); [done..| | | |]; cbn.
  - apply Hs.
  - apply Hs.
  - intros j. set_solver.
  - intros j. destruct (decide (j = i')) as [->|Hj].
    + rewrite decide_True by set_solver.
      destruct (pl_leader c i') as [o|]; [by rewrite lookup_insert_eq|].
      rewrite (ti_leaders _ _ Hs), decide_False; [done|]. by intros []%Hs.
    + rewrite decide_False by tauto. destruct (pl_leader c i'); [by rewrite lookup_insert_ne|done].
Qed.
Lemma routes_step log k :
  can_publish c → NoDup (pl_ranges c).*1 → table_at log = ∅ →
  ∃ log', _publish_routes (((log, k), tt), init) = ((((log', None), tt), set_routes_published init), Ok tt) ∧
          told_inv [] (((log', None), tt), set_routes_published init).
Proof.
  intros ([c0 Hc0]&_&_) Hd He. exists (log ++ [c0]).
  pose proof (init_routes_run _ _ (MetadataFacts.run log MetadataStateMachine.init) Hc0) as Ha.
  rewrite He, decide_False in Ha by (by intros []). split.
  - unfold _publish_routes, bind at 1, mine. cbn [snd _routes_published init].
    unfold bind at 1, call at 1, sc_range_map, still, ret at 1. unfold bind at 1, call at 1.
    erewrite (on_propose (tc_init_routes _) _ c0); [|by intros [[? ?] []]|exact Hc0|by rewrite Ha; intros code [= <-]].
    by rewrite Ha.
  - split; cbn; [|done..|set_solver|done].
    rewrite run_snoc, Ha. cbn. unfold told. apply map_eq. intros i. rewrite !map_lookup_imap.
    assert (dict_of (merge_sort key_le (pl_ranges c)) !! i = dict_of (pl_ranges c) !! i) as ->.
    { apply option_eq. intros r. rewrite !dict_of_lookup by (try apply sort_nodup; done).
      by rewrite merge_sort_Permutation. }
    destruct (dict_of (pl_ranges c) !! i); cbn; [|done]. f_equal.
Qed.

Lemma loop_tells l : ∀ D s,
  can_publish c → NoDup (pl_ranges c).*1 → told_inv D s → NoDup l → (∀ i, i ∈ l → i ∉ D) →
  (∀ i, i ∈ l → i ∈ (pl_ranges c).*1) →
  ∃ s', each step l s = (s', Ok tt) ∧ told_inv (rev l ++ D) s'.
Proof.
  induction l as [|i l IH]; intros D s Hc Hd Hs Hl HD Hr; [by exists s|].
  apply NoDup_cons in Hl as [Hi Hl].
  destruct (step_tells D i s Hc Hd Hs) as (s1&H1&Hs1); [apply HD; left|apply Hr; left|].
  destruct (IH (i :: D) s1 Hc Hd Hs1 Hl) as (s'&H2&Hs').
  - intros j Hj [->|Hn]%elem_of_cons; [done|]. by apply (HD j); [right|].
  - intros j Hj. apply Hr. by right.
  - exists s'. cbn [each]. rewrite (bind_run _ _ _ _ _ H1). split; [done|].
    cbn [rev]. by rewrite <-app_assoc.
Qed.

Lemma loop_quiet l D s : told_inv D s → (∀ i, i ∈ l → i ∈ D) → each step l s = (s, Ok tt).
Proof.
  intros Hs. induction l as [|i l IH]; intros Hl; [done|]. cbn [each].
  erewrite bind_run by (apply (step_quiet D); [done|apply Hl; left]).
  apply IH. intros j Hj. apply Hl. by right.
Qed.

(** From the loop on, a pass is the loop over the shards. *)
Lemma pass_loop D s : told_inv D s →
  publish_once s = each step (merge_sort Z.le (merge_sort Z.le (pl_ranges c).*1)) s.
Proof.
  intros [I1 I2 I3 I4 I5]. destruct s as [w p]. cbn in I2, I3. unfold publish_once, bind at 1, mine.
  cbn [snd]. rewrite I3. unfold bind at 1, _publish_routes, bind at 1, mine. cbn [snd].
  rewrite I2. unfold ret at 1. unfold bind at 1. cbn [snd]. rewrite I2. cbn [negb].
  reflexivity.
Qed.
(** One pass of a new publisher over an empty routing table puts the cluster's placement
    there: every range, and for each shard that is served and not being moved its nodes,
    their addresses and its leader with the leader's term - a leader that is not one of the
    nodes is left out.  A second pass of the same cluster proposes nothing. *)
Theorem pass_installs_placement log k :
  can_publish c → NoDup (pl_ranges c).*1 → table_at log = ∅ →
  ∃ log' k' p,
    let s := (((log', k'), tt), p) in
    publish_once (((log, k), tt), init) = (s, Ok tt) ∧
    table_at log' = map_imap (λ i r, Some (published i r)) (dict_of (pl_ranges c)) ∧
    publish_once s = (s, Ok tt).
Proof.
  intros Hc Hd He. destruct (routes_step log k Hc Hd He) as (log1&Hr&Hs1).
  set (ids := merge_sort Z.le (merge_sort Z.le (pl_ranges c).*1)).
  assert (ids ≡ₚ (pl_ranges c).*1) as Hids by (unfold ids; by rewrite !merge_sort_Permutation).
  destruct (loop_tells ids [] _ Hc Hd Hs1) as ([[[log' k'] []] p]&Hl&Hs2).
  - by rewrite Hids.
  - intros i _. apply not_elem_of_nil.
  - intros i. by rewrite Hids.
  - exists log', k', p. cbn zeta. split_and!.
    + rewrite <-Hl. unfold publish_once, bind at 1, mine. cbn [snd error init]. unfold bind at 1.
      by rewrite Hr.
    + etrans; [apply (ti_table _ _ Hs2)|]. apply map_eq. intros i. unfold told. rewrite !map_lookup_imap.
      destruct (dict_of (pl_ranges c) !! i) as [r|] eqn:Hi; cbn; [|done]. rewrite decide_True; [done|].
      apply (dict_of_lookup _ _ _ Hd) in Hi. rewrite app_nil_r, <-Permutation_rev, Hids.
      apply list_elem_of_fmap. by exists (i, r).
    + rewrite (pass_loop _ _ Hs2). apply (loop_quiet _ _ _ Hs2). intros i Hi.
      by rewrite app_nil_r, <-Permutation_rev.
Qed.

(** A table read afresh from a group of one is the table of its log. *)
Lemma fresh_table log k data :
  let s := MetadataFacts.run log MetadataStateMachine.init in
  let t := {| rt_version := MetadataStateMachine._version s;
              rt_shards := sorted_items (MetadataStateMachine._shards s) |} in
  MetadataStateMachine.encode s = Ok data → meta_inv s →
  tc_table true ((log, k), tt) = (((log, Some t), tt), Ok t).
Proof.
  intros s t Hdata Hinv.
  assert (MetadataClient.refresh (log, k) = ((log, Some t), Ok t)) as Hr.
  { unfold MetadataClient.refresh. cbn -[MetadataStateMachine.get]. fold s.
    unfold bind, MetadataClient.call, MetadataClient.lift, reads. cbn -[MetadataStateMachine.get].
    fold s. unfold MetadataStateMachine.get. rewrite decide_False by (by intros []). rewrite Hdata.
    cbn [rbind rr_success read_success]. unfold MetadataClient.parse_value. cbn [as_bytes rr_value read_success rbind].
    rewrite (unpackb_packb _ _ Hdata). cbn [rbind]. fold (MetadataStateMachine.table s).
    by rewrite (table_run _ Hinv). }
  assert (MetadataClient.table (N := unit) true (log, k) = ((log, Some t), Ok t)) as Ht.
  { rewrite <-Hr. by destruct k. }
  cbn -[MetadataClient.table]. by rewrite Ht.
Qed.

(** A table that holds ranges this cluster could not have published is left alone: the
    first pass is refused, the publisher remembers the two range maps it could not
    reconcile, and no later turn proposes anything - the placement in the table is never
    touched. *)
Theorem stranger_stops_publisher log k data :
  let s := MetadataFacts.run log MetadataStateMachine.init in
  is_Ok (MetadataStateMachine.init_routes_command (pl_ranges c)) →
  MetadataStateMachine.encode s = Ok data → meta_inv s → MetadataStateMachine._shards s ≠ ∅ →
  let theirs := map (λ e, (e.1, (sp_start e.2, sp_end e.2))) (sorted_items (MetadataStateMachine._shards s)) in
  dict_of theirs ≠ dict_of (pl_ranges c) →
  ∃ log' k' p,
    let st := (((log', k'), tt), p) in
    publish_once (((log, k), tt), init) = (st, Ok tt) ∧
    MetadataFacts.run log' MetadataStateMachine.init = s ∧
    error p = Some (theirs, pl_ranges c) ∧ _run_turn st = st.
Proof.
  intros s [c0 Hc0] Hdata Hinv Hne theirs Hours.
  pose proof (init_routes_run _ _ s Hc0) as Ha. rewrite decide_True in Ha by done.
  assert (MetadataFacts.run (log ++ [c0]) MetadataStateMachine.init = s) as Hrun by (rewrite run_snoc; fold s; by rewrite Ha).
  exists (log ++ [c0]). do 2 eexists. cbn zeta. split_and!.
  { unfold publish_once, bind at 1, mine. cbn [snd error init]. unfold bind at 1.
    unfold _publish_routes, bind at 1, mine. cbn [snd _routes_published init].
    unfold bind at 1, call at 1, sc_range_map, still, ret at 1. unfold bind at 1, call at 1.
    erewrite (on_propose (tc_init_routes _) _ c0); [|by intros [[? ?] []]|exact Hc0|].
    2:{ fold s. rewrite Ha. by intros code [= <-]. }
    fold s. rewrite Ha. cbn [snd ar_success apply_failure ar_error_code]. rewrite decide_False by done.
    unfold bind at 1, call at 1. rewrite (fresh_table _ _ data) by (by rewrite Hrun).
    rewrite Hrun. unfold bind at 1, _is_our_own, sc_possible_ranges, bind at 1, call at 1, ret at 1.
    unfold ret at 1. cbn [existsb]. unfold same_ranges. rewrite bool_decide_false by exact Hours.
    reflexivity. }
  - done.
  - reflexivity.
  - reflexivity.
Qed.
End pass.

(** ** The theorems for a cluster of two shards: shard 0 is led by node 2 at term 3 *)

Import MetadataPublisher.

#[local] Existing Instances reference_codec.
#[local] Instance publisher_repr : PyRepr := λ _, EmptyString.

Definition pw_addresses : gmap Z string := <[1 := "a:1"%string]> (<[2 := "a:2"%string]> ∅).
Definition pw : placement :=
  {| pl_ranges := default_range_map 2; pl_nodes _ := [1; 2]; pl_addresses _ := pw_addresses;
     pl_leader i := if i =? 0 then Some (2, 3) else None; pl_moving := [] |}.

Lemma pw_ids i : i ∈ (pl_ranges pw).*1 → i = 0 ∨ i = 1.
Proof.
  change ((pl_ranges pw).*1) with [0; 1]. rewrite !elem_of_cons. intros [-> | [-> |[]%elem_of_nil]]; auto.
Qed.

Lemma pw_can_publish : can_publish pw.
Proof.
  split_and!.
  - vm_compute. by eexists.
  - intros i [-> | ->]%pw_ids; vm_compute; by eexists.
  - intros i n t [-> | ->]%pw_ids; [|done]. intros [= <- <-]. vm_compute. by eexists.
Qed.

#[local] Instance pw_cluster : ShardCluster ((list bytes * option RoutingTable) * unit) := still pw.

(** One turn of the publisher's thread. *)
Definition pw_start := ((((@nil bytes, @None RoutingTable), tt), @nil Traced.event), init).
Definition pw_turn := _run_turn pw_start.

Lemma publisher_proposes_news_witness :
  length pw_turn.1.2 = 4%nat ∧ leaders pw_turn.2 !! 0 = settled 0 pw_turn.1.2 ∧
  settled 0 pw_turn.1.2 = Some (2, 3).
Proof.
  split; [vm_compute; reflexivity|]. split; [|vm_compute; reflexivity].
  apply (publisher_proposes_news (([], None), tt) pw_turn.1.1 pw_turn.1.2 pw_turn.2).
  replace ((pw_turn.1.1, pw_turn.1.2), pw_turn.2) with pw_turn by (by destruct pw_turn as [[? ?] ?]).
  apply rtc_once. constructor.
Defined.

Lemma pass_installs_placement_witness :
  ∃ log' k' p,
    publish_once ((([], None), tt), init) = ((((log', k'), tt), p), Ok tt) ∧
    option_map sp_leader_id
      (MetadataStateMachine._shards (MetadataFacts.run log' MetadataStateMachine.init) !! 0)
      = Some (Some 2).
Proof.
  destruct (pass_installs_placement pw [] None pw_can_publish) as (log'&k'&p&Hp&Ht&_).
  - apply default_map_nodup.
  - reflexivity.
  - exists log', k', p. split; [exact Hp|]. rewrite Ht. vm_compute. reflexivity.
Defined.

(** The table of a cluster with three shards. *)
Definition pw_other : bytes :=
  match MetadataStateMachine.init_routes_command (default_range_map 3) with Ok b => b | Raise _ => [] end.

Lemma stranger_stops_publisher_witness :
  ∃ log' k' p,
    publish_once ((([pw_other], None), tt), init) = ((((log', k'), tt), p), Ok tt) ∧
    _run_turn (((log', k'), tt), p) = (((log', k'), tt), p).
Proof.
  destruct (bootstrap_inv (default_range_map 3) pw_other) as (_&Hne&Hinv&_).
  - vm_compute. reflexivity.
  - apply default_map_nodup.
  - apply default_range_disjoint.
  - apply default_map_nonempty.
  - edestruct (stranger_stops_publisher pw [pw_other] None) as (log'&k'&p&Hp&_&_&Hq).
    + vm_compute. by eexists.
    + vm_compute. reflexivity.
    + exact Hinv.
    + exact Hne.
    + vm_compute. discriminate.
    + exists log', k', p. split; [exact Hp|exact Hq].
Defined.
