(* ===== verification/RecoveryNotes.v ===== *)
(** What a shard writes down about a split or a move it is in the middle of:
    [raft/recovery_notes.py].

    A note goes into the storages of the shard's replicas.  [AdminStore] is what the notes
    rely on of a storage; both storages of [raft/storage.py] keep it. *)

From Stdlib Require Import ZArith Lia.
From S2P Require Import Prelude Bytes PyVal PyOps Engine Mvcc RaftStorage Metadata MetadataFacts.

Definition SPLIT_RECORD_PREFIX : string := "split".
Definition MIGRATION_RECORD_PREFIX : string := "migrate".

Record PendingNote := {
  pn_kind : string;
  pn_shard_id : Z;
  pn_split_key : bytes;
  pn_new_shard_id : Z;
  pn_source_nodes : list Z;
  pn_target_nodes : list Z
}.

#[global] Instance PendingNote_eq_dec : EqDecision PendingNote.
Proof. solve_decision. Defined.

Definition note_split (shard_id : Z) (split_key : bytes) (new_shard_id : Z) : PendingNote :=
  {| pn_kind := SPLIT_RECORD_PREFIX; pn_shard_id := shard_id; pn_split_key := split_key;
     pn_new_shard_id := new_shard_id; pn_source_nodes := []; pn_target_nodes := [] |}.
Definition note_move (shard_id : Z) (source_nodes target_nodes : list Z) : PendingNote :=
  {| pn_kind := MIGRATION_RECORD_PREFIX; pn_shard_id := shard_id; pn_split_key := [];
     pn_new_shard_id := 0; pn_source_nodes := source_nodes; pn_target_nodes := target_nodes |}.

Definition record_key (kind : string) (shard_id : Z) : string :=
  String.append kind (String.append "/" (str_of_Z shard_id)).
Definition note_key (note : PendingNote) : string := record_key (pn_kind note) (pn_shard_id note).

(** What [record] packs. *)
Definition note_fields (note : PendingNote) : pyval :=
  if decide (pn_kind note = SPLIT_RECORD_PREFIX) then
    PDict [("shard_id"%string, PInt (pn_shard_id note));
           ("split_key"%string, PBytes (pn_split_key note));
           ("new_shard_id"%string, PInt (pn_new_shard_id note))]
  else
    PDict [("shard_id"%string, PInt (pn_shard_id note));
           ("source_nodes"%string, PList (map PInt (pn_source_nodes note)));
           ("target_nodes"%string, PList (map PInt (pn_target_nodes note)))].

Definition note_from_record (kind : string) (shard_id : Z) (record : pyval)
    : result (option PendingNote) :=
  let? v := py_index record "shard_id" in
  let? i := py_int v in
  if negb (i =? shard_id) then Ok None
  else if decide (kind = SPLIT_RECORD_PREFIX) then
    let? v := py_index record "split_key" in
    let? split_key := py_bytes v in
    let? v := py_index record "new_shard_id" in
    let? new_shard_id := py_int v in
    Ok (Some (note_split shard_id split_key new_shard_id))
  else
    let? v := py_index record "source_nodes" in
    let? source_nodes := int_list v in
    let? v := py_index record "target_nodes" in
    let? target_nodes := int_list v in
    Ok (Some (note_move shard_id source_nodes target_nodes)).

Section notes.
Context `{Msgpack} {R : Type} `{RaftStorage R}.

Definition record (note : PendingNote) : result bytes := packb (note_fields note).

Definition save_note (storage : R) (note : PendingNote) : result R :=
  let? b := record note in save_admin (note_key note) b storage.

Definition load_note (storage : R) (shard_id : Z) (kind : string) : result (option PendingNote) :=
  let? raw := load_admin (record_key kind shard_id) storage in
  match raw with
  | None => Ok None
  | Some b => let? payload := unpackb b in note_from_record kind shard_id payload
  end.

(** The storages are written one after the other; what was written before an exception
    stays. *)
Fixpoint write_note (storages : list R) (note : PendingNote) : list R * result unit :=
  match storages with
  | [] => ([], Ok tt)
  | s :: rest =>
      match save_note s note with
      | Raise e => (s :: rest, Raise e)
      | Ok s' => let '(rest', r) := write_note rest note in (s' :: rest', r)
      end
  end.

Fixpoint read_note (storages : list R) (shard_id : Z) (kind : string) : result (option PendingNote) :=
  match storages with
  | [] => Ok None
  | s :: rest =>
      let? note := load_note s shard_id kind in
      match note with Some n => Ok (Some n) | None => read_note rest shard_id kind end
  end.

Fixpoint forget_note (storages : list R) (shard_id : Z) (kind : string) : list R * result unit :=
  match storages with
  | [] => ([], Ok tt)
  | s :: rest =>
      match delete_admin (record_key kind shard_id) s with
      | Raise e => (s :: rest, Raise e)
      | Ok s' => let '(rest', r) := forget_note rest shard_id kind in (s' :: rest', r)
      end
  end.
End notes.

(** ** What the notes rely on *)

Class AdminStore (R : Type) `{RaftStorage R} := {
  adm : R → string → option bytes;
  load_adm k r : load_admin k r = Ok (adm r k);
  save_adm k v r : ∃ r', save_admin k v r = Ok r' ∧
    ∀ k', adm r' k' = if decide (k' = k) then Some v else adm r k';
  delete_adm k r : ∃ r', delete_admin k r = Ok r' ∧
    ∀ k', adm r' k' = if decide (k' = k) then None else adm r k'
}.

#[global] Instance engine_admin {E} `{EngineLaws E} `{!Msgpack} : AdminStore E.
Proof.
  assert (Hinj : ∀ a b, EngineRaftStorage._ADMIN ++ b_ a = EngineRaftStorage._ADMIN ++ b_ b → a = b).
  { intros a b Heq. apply app_inv_head in Heq. unfold b_ in Heq.
    rewrite <-(String.string_of_list_byte_of_string a), Heq. apply String.string_of_list_byte_of_string. }
  refine {| adm e k := e_get e (EngineRaftStorage._ADMIN ++ b_ k) |}.
  - done.
  - intros k v e. eexists. split; [done|]. intros k'. rewrite get_put.
    destruct (decide (k' = k)) as [->|Hne]; [by rewrite decide_True|]. rewrite decide_False; [done|].
    intros Heq. by apply Hne, Hinj.
  - intros k e. eexists. split; [done|]. intros k'. rewrite get_delete.
    destruct (decide (k' = k)) as [->|Hne]; [by rewrite decide_True|]. rewrite decide_False; [done|].
    intros Heq. by apply Hne, Hinj.
Defined.

#[global] Instance json_admin : AdminStore JSONFileStorage.t.
Proof.
  refine {| adm r k := JSONFileStorage._read_admin r !! k |}.
  - done.
  - intros k v r. eexists. split; [done|]. intros k'. cbn.
    destruct (decide (k' = k)) as [->|Hne]; [apply lookup_insert_eq|by apply lookup_insert_ne].
  - intros k r. cbn. unfold JSONFileStorage.delete_admin. case_decide as Hd; eexists; (split; [done|]);
      intros k'; cbn.
    + destruct (decide (k' = k)) as [->|Hne]; [apply lookup_delete_eq|by apply lookup_delete_ne].
    + case_decide as Hk; [subst k'|done]. by apply eq_None_not_Some.
Defined.

(** ** A note is read back *)

Section facts.
Context `{!Msgpack} {R : Type} `{AdminStore R}.
Implicit Types (s : R) (l : list R) (n : PendingNote).

(** A note one of the two makers built. *)
Definition made n : Prop :=
  (∃ i k j, n = note_split i k j) ∨ (∃ i src dst, n = note_move i src dst).

Lemma kind_of_made n : made n → pn_kind n = SPLIT_RECORD_PREFIX ∨ pn_kind n = MIGRATION_RECORD_PREFIX.
Proof. intros [(?&?&?&->)|(?&?&?&->)]; auto. Qed.

Lemma note_read n : made n → note_from_record (pn_kind n) (pn_shard_id n) (note_fields n) = Ok (Some n).
Proof.
  intros [(i&k&j&->)|(i&src&dst&->)]; unfold note_from_record, note_fields;
    cbn [pn_kind note_split note_move pn_shard_id];
    [rewrite decide_True by done|rewrite decide_False by done];
    cbn -[int_list]; decides; cbn -[int_list]; rewrite Z.eqb_refl; cbn -[int_list]; [done|].
  rewrite !int_list_ints. done.
Qed.

(** A note filed under a shard's name that is about another shard is refused. *)
Lemma note_of_another n shard_id : made n → pn_shard_id n ≠ shard_id →
  note_from_record (pn_kind n) shard_id (note_fields n) = Ok None.
Proof.
  intros Hn Hne. destruct Hn as [(i&k&j&->)|(i&src&dst&->)]; unfold note_from_record, note_fields;
    cbn [pn_kind note_split note_move pn_shard_id] in *;
    [rewrite decide_True by done|rewrite decide_False by done];
    cbn -[int_list]; decides; cbn -[int_list]; by rewrite (proj2 (Z.eqb_neq _ _) Hne).
Qed.

Lemma keys_differ i j : record_key SPLIT_RECORD_PREFIX i ≠ record_key MIGRATION_RECORD_PREFIX j.
Proof. done. Qed.

(** What writing and forgetting do to every storage. *)
Lemma write_note_run l n b : record n = Ok b →
  ∃ l', write_note l n = (l', Ok tt) ∧
    Forall2 (λ s s', ∀ k, adm s' k = if decide (k = note_key n) then Some b else adm s k) l l'.
Proof.
  intros Hb. induction l as [|s l (l'&Hw&Hl)]; [by exists []|].
  destruct (save_adm (note_key n) b s) as (s'&Hs&Ha). exists (s' :: l'). cbn. unfold save_note.
  rewrite Hb. cbn [rbind]. rewrite Hs, Hw. split; [done|]. by constructor.
Qed.
Lemma forget_note_run l i kind :
  ∃ l', forget_note l i kind = (l', Ok tt) ∧
    Forall2 (λ s s', ∀ k, adm s' k = if decide (k = record_key kind i) then None else adm s k) l l'.
Proof.
  induction l as [|s l (l'&Hw&Hl)]; [by exists []|].
  destruct (delete_adm (record_key kind i) s) as (s'&Hs&Ha). exists (s' :: l'). cbn.
  rewrite Hs, Hw. split; [done|]. by constructor.
Qed.

(** What is read depends on the one name the note is filed under. *)
Lemma load_note_adm s i kind :
  load_note s i kind =
  match adm s (record_key kind i) with
  | None => Ok None
  | Some b => let? payload := unpackb b in note_from_record kind i payload
  end.
Proof. unfold load_note. by rewrite load_adm. Qed.
Lemma read_note_same l l' i kind :
  Forall2 (λ s s', adm s' (record_key kind i) = adm s (record_key kind i)) l l' →
  read_note l' i kind = read_note l i kind.
Proof. induction 1 as [|s s' l l' Hs _ IH]; [done|]. cbn. by rewrite !load_note_adm, Hs, IH. Qed.

Lemma read_written n b m : made n → record n = Ok b → m ≠ [] →
  Forall (λ s, adm s (note_key n) = Some b) m → read_note m (pn_shard_id n) (pn_kind n) = Ok (Some n).
Proof.
  intros Hn Hb Hm Hall. destruct m as [|s m]; [done|]. apply Forall_cons in Hall as [Hs _].
  cbn. rewrite load_note_adm. unfold note_key in Hs. rewrite Hs, (unpackb_packb _ _ Hb). cbn [rbind].
  by rewrite note_read.
Qed.
Lemma read_forgotten m i kind :
  Forall (λ s, adm s (record_key kind i) = None) m → read_note m i kind = Ok None.
Proof. induction 1 as [|s m Hs _ IH]; [done|]. cbn. by rewrite load_note_adm, Hs. Qed.

(** A note survives.  Written to every replica of a shard, it is read back whole from
    any replicas that are left, however few; the note of the other kind is not touched, and
    a storage handed to another shard does not answer with it.  Forgetting it leaves nothing
    to find on any replica, and the note of the other kind where it was. *)
Theorem notes_survive (l : list R) n :
  made n → packable (note_fields n) = true →
  ∃ l', write_note l n = (l', Ok tt) ∧
    (∀ m, m ≠ [] → m ⊆ l' → read_note m (pn_shard_id n) (pn_kind n) = Ok (Some n)) ∧
    (∀ kind, record_key kind (pn_shard_id n) ≠ note_key n →
       read_note l' (pn_shard_id n) kind = read_note l (pn_shard_id n) kind) ∧
    (∀ i, i ≠ pn_shard_id n → note_from_record (pn_kind n) i (note_fields n) = Ok None) ∧
    ∃ l'', forget_note l' (pn_shard_id n) (pn_kind n) = (l'', Ok tt) ∧
      (∀ m, m ⊆ l'' → read_note m (pn_shard_id n) (pn_kind n) = Ok None) ∧
      (∀ kind, record_key kind (pn_shard_id n) ≠ note_key n →
         read_note l'' (pn_shard_id n) kind = read_note l (pn_shard_id n) kind).
Proof.
  intros Hn [b Hb]%packb_packable. fold (record n) in Hb.
  destruct (write_note_run l n b Hb) as (l'&Hw&Hl).
  destruct (forget_note_run l' (pn_shard_id n) (pn_kind n)) as (l''&Hf&Hl'').
  exists l'. split_and!; [done| | | |exists l''; split_and!; [done| |]].
  - intros m Hne Hm. apply (read_written n b); [done..|]. apply list.Forall_forall. intros s Hs%Hm.
    apply list_elem_of_lookup in Hs as [j Hj].
    destruct (Forall2_lookup_r _ _ _ _ _ Hl Hj) as (s0&_&Ha). by rewrite Ha, decide_True.
  - intros kind Hk. apply read_note_same. eapply Forall2_impl; [exact Hl|]. intros s s' Ha.
    by rewrite Ha, decide_False.
  - intros i Hi. by apply note_of_another.
  - intros m Hm. apply read_forgotten. apply list.Forall_forall. intros s Hs%Hm.
    apply list_elem_of_lookup in Hs as [j Hj].
    destruct (Forall2_lookup_r _ _ _ _ _ Hl'' Hj) as (s0&_&Ha). by rewrite Ha, decide_True.
  - intros kind Hk. etrans; [|].
    + apply (read_note_same l'). eapply Forall2_impl; [exact Hl''|]. intros s s' Ha.
      rewrite Ha, decide_False; [done|exact Hk].
    + apply read_note_same. eapply Forall2_impl; [exact Hl|]. intros s s' Ha. by rewrite Ha, decide_False.
Qed.
End facts.
