(* ===== verification/Recovery.v ===== *)
(** The body of a recovery: how a split and a move of a shard are finished
    ([raft/recovery_runner.py]), over the side it runs on ([raft/recovery_view.py]).

    [RecoveryView] is the protocol of that name; what it promises is stated where it is
    used.  [RowCalls] is what the copy uses of a node's client.  Everything outside the
    runner is the state [W].  The record of a move is one object that the runner keeps and
    its caller holds, so it lives in a store and is passed by its handle.  A wait looks
    [patience] more times before it gives up; sleeping is no step of the model. *)

From Stdlib Require Import ZArith Lia.
From S2P Require Import Prelude Bytes PyVal PyOps Engine Mvcc StateMachine Dict Router Metadata MetadataClient Publisher RaftStorage RecoveryNotes.

Class RowCalls (W C : Type) := {
  rc_scan : C → bytes → bytes → M W (list (bytes * bytes));
  rc_scan_versions : C → bytes → bytes → M W (list (bytes * bytes * Z));
  rc_get : C → bytes → M W ReadResult;
  rc_get_write_record : C → bytes → M W (option WriteRecord);
  rc_propose : C → bytes → M W ApplyResult
}.

Module MigrationPhase.
Inductive t := FREEZING | COPYING | PROPOSING | DONE.
End MigrationPhase.

Module ProposalOutcome.
Inductive t := OK | REJECTED | UNREACHABLE.
End ProposalOutcome.

(** What the two error strings say. *)
Inductive reason :=
  | no_leader (shard_id : Z)
  | no_group (shard_id : Z) (nodes : list Z)
  | lock_in_range (shard_id : Z)
  | not_read (e : exn)
  | row_refused (shard_id : Z) (code : option Z)
  | not_in_table (shard_id : Z)
  | never_named (shard_id : Z)
  | table_refused (code : option Z)
  | table_silent (why : option reason)
  | other_set (nodes : list Z)
  | no_table
  (** The ones of [move_shard]. *)
  | nowhere
  | already_moving (shard_id : Z) (nodes : list Z)
  | no_range (shard_id : Z)
  | unknown_nodes (nodes : list Z)
  | already_serving (nodes : list Z)
  | not_drained (shard_id : Z).

Record MigrationState := {
  mg_shard_id : Z;
  mg_target_nodes : list Z;
  mg_source_nodes : list Z;
  mg_phase : MigrationPhase.t;
  mg_copied_keys : list bytes;
  mg_rows : list (bytes * bytes)
}.
Definition new_migration (shard_id : Z) (target_nodes source_nodes : list Z) : MigrationState :=
  {| mg_shard_id := shard_id; mg_target_nodes := target_nodes; mg_source_nodes := source_nodes;
     mg_phase := MigrationPhase.FREEZING; mg_copied_keys := []; mg_rows := [] |}.
Definition with_phase (p : MigrationPhase.t) (m : MigrationState) : MigrationState :=
  {| mg_shard_id := mg_shard_id m; mg_target_nodes := mg_target_nodes m;
     mg_source_nodes := mg_source_nodes m; mg_phase := p; mg_copied_keys := mg_copied_keys m;
     mg_rows := mg_rows m |}.
Definition with_rows (rows : list (bytes * bytes)) (m : MigrationState) : MigrationState :=
  {| mg_shard_id := mg_shard_id m; mg_target_nodes := mg_target_nodes m;
     mg_source_nodes := mg_source_nodes m; mg_phase := mg_phase m;
     mg_copied_keys := mg_copied_keys m; mg_rows := rows |}.
Definition copied (key : bytes) (m : MigrationState) : MigrationState :=
  {| mg_shard_id := mg_shard_id m; mg_target_nodes := mg_target_nodes m;
     mg_source_nodes := mg_source_nodes m; mg_phase := mg_phase m;
     mg_copied_keys := mg_copied_keys m ++ [key]; mg_rows := mg_rows m |}.

(** The dictionary a split is remembered by. *)
Record PendingSplit := {
  ps_shard_id : Z; ps_split_key : bytes; ps_new_shard_id : Z; ps_rows : list (bytes * bytes)
}.
Definition with_split_rows (rows : list (bytes * bytes)) (p : PendingSplit) : PendingSplit :=
  {| ps_shard_id := ps_shard_id p; ps_split_key := ps_split_key p;
     ps_new_shard_id := ps_new_shard_id p; ps_rows := rows |}.

(** [except RuntimeError]: the class and what derives from it. *)
Definition is_runtime_error (e : exn) : bool :=
  match e with
  | RuntimeError | NotImplementedError | NodeUnreachable | SerializationError | ScanRefused _ _ _ => true
  | _ => false
  end.

Module RecoveryState.

Record t := {
  _pending_splits : list (Z * PendingSplit);
  (** The move records that were made, by handle, and the ones that are kept. *)
  objects : list MigrationState;
  _migrations : gmap Z nat;
  _last_split_error : option reason;
  _last_migration_error : option reason
}.
Definition init : t :=
  {| _pending_splits := []; objects := []; _migrations := ∅; _last_split_error := None;
     _last_migration_error := None |}.

Definition with_splits (d : list (Z * PendingSplit)) (r : t) : t :=
  {| _pending_splits := d; objects := objects r; _migrations := _migrations r;
     _last_split_error := _last_split_error r; _last_migration_error := _last_migration_error r |}.
Definition with_objects (l : list MigrationState) (r : t) : t :=
  {| _pending_splits := _pending_splits r; objects := l; _migrations := _migrations r;
     _last_split_error := _last_split_error r; _last_migration_error := _last_migration_error r |}.
Definition with_migrations (m : gmap Z nat) (r : t) : t :=
  {| _pending_splits := _pending_splits r; objects := objects r; _migrations := m;
     _last_split_error := _last_split_error r; _last_migration_error := _last_migration_error r |}.
Definition with_split_error (e : reason) (r : t) : t :=
  {| _pending_splits := _pending_splits r; objects := objects r; _migrations := _migrations r;
     _last_split_error := Some e; _last_migration_error := _last_migration_error r |}.
Definition with_migration_error (e : reason) (r : t) : t :=
  {| _pending_splits := _pending_splits r; objects := objects r; _migrations := _migrations r;
     _last_split_error := _last_split_error r; _last_migration_error := Some e |}.
End RecoveryState.
Import RecoveryState.

(** A call of the side the runner belongs to.  The side can look at what the runner keeps,
    and does not change it. *)
Abbreviation V W A := (RecoveryState.t → M W A).

Class RecoveryView (W C : Type) := {
  rv_shard_ids : V W (list Z);
  rv_node_ids : V W (list Z);
  rv_range_map : V W RangeMap;
  rv_pending_notes : Z → V W (list PendingNote);
  rv_remember_note : PendingNote → V W unit;
  rv_forget_note : Z → V W unit;
  rv_serving_nodes : Z → V W (option (list Z));
  rv_shard_replica_ids : Z → V W (list Z);
  rv_addresses_on : Z → list Z → V W (gmap Z string);
  rv_leader_client : Z → V W (option C);
  rv_leader_client_for_nodes : Z → list Z → V W (option C);
  rv_freeze : Z → string → list Z → V W unit;
  rv_unfreeze : Z → list Z → V W unit;
  rv_ensure_serving : Z → list Z → V W (list Z);
  rv_ensure_group_on : Z → list Z → V W unit;
  rv_close_group_on : Z → list Z → V W (list Z);
  rv_apply_split_locally : Z → bytes → Z → V W unit;
  rv_apply_move_locally : Z → list Z → V W unit;
  (** [metadata_client()], and the two writes of the client it answers with. *)
  rv_metadata_client : V W bool;
  rv_split_shard : Z → bytes → Z → list Z → gmap Z string → V W ApplyResult;
  rv_move_shard : Z → list Z → list Z → gmap Z string → V W ApplyResult
}.

Module RecoveryRunner.
Section runner.
Context `{Msgpack} {W C : Type} `{RecoveryView W C} `{!RowCalls W C} (patience : nat).
Abbreviation st := (t * W)%type.

Definition view {A} (m : V W A) : M st A := λ rw, let '(w, a) := m rw.1 rw.2 in ((rw.1, w), a).
(** A call of a node's client. *)
Definition call {A} (m : M W A) : M st A := view (λ _, m).
Definition mine {A} (f : t → A) : M st A := λ rw, (rw, Ok (f rw.1)).
Definition change (f : t → t) : M st unit := λ rw, ((f rw.1, rw.2), Ok tt).
Definition lift {A} (r : result A) : M st A := reads (λ _, r).

(** [try: m except RuntimeError as e: h(e)], and the same for a refused range read. *)
Definition on_runtime_error {A B} (m : M st A) (h : exn → M st B) (k : A → M st B) : M st B := λ s,
  match m s with
  | (s', Ok a) => k a s'
  | (s', Raise e) => if is_runtime_error e then h e s' else (s', Raise e)
  end.
Definition on_scan_refused {A B} (m : M st A) (h : exn → M st B) (k : A → M st B) : M st B := λ s,
  match m s with
  | (s', Ok a) => k a s'
  | (s', Raise (ScanRefused code key address)) => h (ScanRefused code key address) s'
  | (s', Raise e) => (s', Raise e)
  end.

(** *** State of a move *)

Definition record_migration_error (why : reason) : M st unit := change (with_migration_error why).
Definition migration_state (shard_id : Z) : M st (option nat) := mine (λ r, _migrations r !! shard_id).
Definition object (h : nat) : M st MigrationState := λ rw,
  match objects rw.1 !! h with Some m => (rw, Ok m) | None => (rw, Raise AttributeError) end.
Definition update (h : nat) (f : MigrationState → MigrationState) : M st unit :=
  change (λ r, with_objects (alter f h (objects r)) r).
(** [MigrationState(...)]. *)
Definition new_object (m : MigrationState) : M st nat := λ rw,
  ((with_objects (objects rw.1 ++ [m]) rw.1, rw.2), Ok (length (objects rw.1))).
Definition hold_migration (h : nat) : M st unit :=
  let* m := object h in change (λ r, with_migrations (<[mg_shard_id m := h]> (_migrations r)) r).
Definition drop_migration (shard_id : Z) : M st unit :=
  change (λ r, with_migrations (delete shard_id (_migrations r)) r).
Definition pending_split (shard_id : Z) : M st (option PendingSplit) :=
  mine (λ r, d_get (_pending_splits r) shard_id).

(** *** The leaves *)

Fixpoint wait_for_group (polls : nat) (shard_id : Z) (nodes : list Z) : M st (option C) :=
  let* client := view (rv_leader_client_for_nodes shard_id nodes) in
  match client, polls with
  | Some c, _ => ret (Some c)
  | None, O => ret None
  | None, S polls => wait_for_group polls shard_id nodes
  end.
Definition _wait_for_group : Z → list Z → M st (option C) := wait_for_group patience.

Fixpoint wait_for_leader (polls : nat) (shard_id : Z) : M st (option C) :=
  on_runtime_error (view (rv_leader_client shard_id))
    (λ e, match polls with O => raise e | S polls => wait_for_leader polls shard_id end)
    (λ client, match client, polls with
               | Some c, _ => ret (Some c)
               | None, O => ret None
               | None, S polls => wait_for_leader polls shard_id
               end).
Definition _wait_for_leader : Z → M st (option C) := wait_for_leader patience.

Fixpoint wait_for_serving (polls : nat) (shard_id : Z) : M st (option (list Z)) :=
  on_runtime_error (view (rv_serving_nodes shard_id))
    (λ e, match polls with O => raise e | S polls => wait_for_serving polls shard_id end)
    ret.
Definition _wait_for_serving : Z → M st (option (list Z)) := wait_for_serving patience.

Fixpoint wait_for_the_table_to_name (polls : nat) (shard_id : Z) : M st bool :=
  on_runtime_error (view (rv_serving_nodes shard_id))
    (λ _, ret true)
    (λ named, match named, polls with
              | Some _, _ => ret true
              | None, O => change (with_split_error (never_named shard_id));;; ret false
              | None, S polls => wait_for_the_table_to_name polls shard_id
              end).
Definition _wait_for_the_table_to_name : Z → M st bool := wait_for_the_table_to_name patience.

(** [self._view.range_map()[shard_id]]. *)
Definition range_of (shard_id : Z) : M st (bytes * bytes) :=
  let* ranges := view rv_range_map in
  match d_get ranges shard_id with Some r => ret r | None => raise KeyError end.

Definition _locks_in_range (client : C) (start end_ : bytes) : M st bool :=
  on_scan_refused (call (rc_scan client start end_))
    (λ e, ret match e with ScanRefused code _ _ => code =? ErrorCode.ERR_LOCKED | _ => false end)
    (λ _, ret false).

Definition _rows_above (client : C) (shard_id : Z) (split_key : bytes) : M st (list (bytes * bytes)) :=
  let* range := range_of shard_id in
  let* rows := call (rc_scan_versions client range.1 range.2) in
  ret (filter (λ r, ble split_key r.1 = true) rows.*1).

Definition _move_row (source target : C) (key value : bytes) (version : Z) : M st ApplyResult :=
  let* record := call (rc_get_write_record source key) in
  let start_ts := match record with
                  | Some r => if wr_commit_ts r =? version then PInt (wr_start_ts r) else PNone
                  | None => PNone
                  end in
  let* command := lift (serialize_command CommandType.SET
    [("key"%string, PBytes key); ("value"%string, PBytes value);
     ("timestamp"%string, PInt version); ("start_ts"%string, start_ts)]) in
  call (rc_propose target command).

(** [{key: version for key, _, version in rows}]. *)
Definition versions_of (rows : list (bytes * bytes * Z)) : gmap bytes Z :=
  foldl (λ m r, <[r.1.1 := r.2]> m) ∅ rows.

(** *** A split *)

(** The loop over the rows of a split; what the new shard answers is not looked at. *)
Fixpoint copy_split_rows (source target : C) (versions : gmap bytes Z) (rows : list (bytes * bytes)) : M st unit :=
  match rows with
  | [] => ret tt
  | (key, value) :: rows =>
      match versions !! key with
      | None => copy_split_rows source target versions rows
      | Some expected =>
          let* here := call (rc_get target key) in
          if rr_commit_ts here =? expected then copy_split_rows source target versions rows
          else _move_row source target key value expected;;; copy_split_rows source target versions rows
      end
  end.

Definition _copy_what_is_missing (pending : PendingSplit) (source : option C) : M st bool :=
  let* nodes := view rv_node_ids in
  let* target := _wait_for_group (ps_new_shard_id pending) nodes in
  match target, source with
  | Some target, Some source =>
      let* range := range_of (ps_shard_id pending) in
      let* rows := call (rc_scan_versions source range.1 range.2) in
      copy_split_rows source target (versions_of rows) (ps_rows pending);;;
      ret true
  | _, _ => change (with_split_error (no_leader (ps_new_shard_id pending)));;; ret false
  end.

Definition _publish_split (pending : PendingSplit) : M st bool :=
  let* there := view rv_metadata_client in
  if negb there then ret true
  else
    let new_shard_id := ps_new_shard_id pending in
    let* replicas := view (rv_shard_replica_ids new_shard_id) in
    let* nodes := view rv_node_ids in
    let* addresses := view (rv_addresses_on new_shard_id nodes) in
    let* result := view (rv_split_shard (ps_shard_id pending) (ps_split_key pending) new_shard_id
                           replicas addresses) in
    if ar_success result then ret true
    else change (with_split_error (table_refused (ar_error_code result)));;; ret false.

Definition finish_split (pending : PendingSplit) (source : option C) : M st bool :=
  let* copied := _copy_what_is_missing pending source in
  if negb copied then ret false else
  let* published := _publish_split pending in
  if negb published then ret false else
  view (rv_apply_split_locally (ps_shard_id pending) (ps_split_key pending) (ps_new_shard_id pending));;;
  change (λ r, with_splits (d_pop (_pending_splits r) (ps_shard_id pending)) r);;;
  view (rv_forget_note (ps_shard_id pending));;;
  let* replicas := view (rv_shard_replica_ids (ps_shard_id pending)) in
  view (rv_unfreeze (ps_shard_id pending) replicas);;;
  ret true.

Definition remember_split (pending : PendingSplit) : M st unit :=
  view (rv_remember_note (note_split (ps_shard_id pending) (ps_split_key pending) (ps_new_shard_id pending)));;;
  change (λ r, with_splits (d_set (_pending_splits r) (ps_shard_id pending) pending) r).

(** The dictionary that is kept is the one whose rows are set. *)
Definition _resume_split (shard_id : Z) : M st bool :=
  let* pending := pending_split shard_id in
  match pending with
  | None => ret false
  | Some pending =>
      let* replicas := view (rv_shard_replica_ids shard_id) in
      view (rv_freeze shard_id "split" replicas);;;
      let* nodes := view rv_node_ids in
      view (rv_ensure_serving (ps_new_shard_id pending) nodes);;;
      on_runtime_error (_wait_for_leader shard_id)
        (λ e, change (with_split_error (not_read e));;; ret false)
        (λ source,
          match source with
          | None => change (with_split_error (no_leader shard_id));;; ret false
          | Some source =>
              let* range := range_of shard_id in
              let* locked := _locks_in_range source range.1 range.2 in
              if (locked : bool) then change (with_split_error (lock_in_range shard_id));;; ret false
              else
                let* named := _wait_for_the_table_to_name shard_id in
                if negb named then ret false
                else
                  let* rows := _rows_above source shard_id (ps_split_key pending) in
                  let pending := with_split_rows rows pending in
                  change (λ r, with_splits (d_set (_pending_splits r) shard_id pending) r);;;
                  finish_split pending (Some source)
          end)
  end.

Definition _load_split_record (shard_id : Z) : M st (option PendingSplit) :=
  let* notes := view (rv_pending_notes shard_id) in
  ret match filter (λ n, pn_kind n = SPLIT_RECORD_PREFIX) notes with
      | n :: _ => Some {| ps_shard_id := shard_id; ps_split_key := pn_split_key n;
                          ps_new_shard_id := pn_new_shard_id n; ps_rows := [] |}
      | [] => None
      end.

Fixpoint load_splits (ids : list Z) : M st unit :=
  match ids with
  | [] => ret tt
  | shard_id :: ids =>
      let* known := pending_split shard_id in
      match known with
      | Some _ => load_splits ids
      | None =>
          let* pending := _load_split_record shard_id in
          match pending with
          | Some p => change (λ r, with_splits (d_set (_pending_splits r) shard_id p) r);;; load_splits ids
          | None => load_splits ids
          end
      end
  end.
Definition load_pending_splits : M st unit :=
  let* ids := view rv_shard_ids in load_splits (merge_sort Z.le ids).

(** The shards for which [f] answered yes. *)
Fixpoint those (f : Z → M st bool) (ids : list Z) : M st (list Z) :=
  match ids with
  | [] => ret []
  | shard_id :: ids =>
      let* yes := f shard_id in
      let* rest := those f ids in
      ret (if (yes : bool) then shard_id :: rest else rest)
  end.
Definition finish_pending_splits : M st (list Z) :=
  let* ids := mine (λ r, merge_sort Z.le (_pending_splits r).*1) in those _resume_split ids.
Definition recover_splits : M st (list Z) := load_pending_splits;;; finish_pending_splits.

Definition settle (pending : PendingSplit) (m : RangeMap) : RangeMap :=
  match d_get m (ps_shard_id pending) with
  | None => m
  | Some (start, end_) =>
      d_set (d_set m (ps_shard_id pending) (start, ps_split_key pending))
            (ps_new_shard_id pending) (ps_split_key pending, end_)
  end.
Definition possible_ranges : M st (list RangeMap) :=
  let* now := view rv_range_map in
  let* pending := mine _pending_splits in
  let settled := foldl (λ m e, settle e.2 m) now pending in
  ret (if same_ranges settled now then [now] else [now; settled]).

(** *** A move *)

Definition remember_migration (h : nat) : M st unit :=
  let* m := object h in
  view (rv_remember_note (note_move (mg_shard_id m) (mg_source_nodes m) (mg_target_nodes m))).

Fixpoint copy_move_rows (source target : C) (h : nat) (shard_id : Z) (versions : gmap bytes Z)
    (rows : list (bytes * bytes)) : M st bool :=
  match rows with
  | [] => ret true
  | (key, value) :: rows =>
      match versions !! key with
      | None => copy_move_rows source target h shard_id versions rows
      | Some expected =>
          let* here := call (rc_get target key) in
          if rr_commit_ts here =? expected then copy_move_rows source target h shard_id versions rows
          else
            let* result := _move_row source target key value expected in
            if negb (ar_success result) then
              record_migration_error (row_refused shard_id (ar_error_code result));;; ret false
            else update h (copied key);;; copy_move_rows source target h shard_id versions rows
      end
  end.
Definition _copy_rows (source target : C) (h : nat) : M st bool :=
  let* m := object h in
  let* range := range_of (mg_shard_id m) in
  on_scan_refused (call (rc_scan_versions source range.1 range.2))
    (λ e, record_migration_error (not_read e);;; ret false)
    (λ rows, copy_move_rows source target h (mg_shard_id m) (versions_of rows) (mg_rows m)).

(** The attempts of [_propose_move]; [last_error] is the reason of the one before. *)
Fixpoint propose_attempts (attempts : nat) (shard_id : Z) (target_nodes : list Z)
    (addresses : gmap Z string) (last_error : option reason) : M st (ProposalOutcome.t * reason) :=
  match attempts with
  | O => ret (ProposalOutcome.UNREACHABLE, table_silent last_error)
  | S attempts =>
      on_runtime_error (view (rv_serving_nodes shard_id))
        (λ e, propose_attempts attempts shard_id target_nodes addresses (Some (not_read e)))
        (λ from_nodes,
          match from_nodes with
          | None => ret (ProposalOutcome.REJECTED, not_in_table shard_id)
          | Some from_nodes =>
              let* result := view (rv_move_shard shard_id from_nodes target_nodes addresses) in
              if ar_success result then ret (ProposalOutcome.OK, table_refused None)
              else if decide (ar_error_code result ≠ Some ErrorCode.ERR_NOT_LEADER) then
                ret (ProposalOutcome.REJECTED, table_refused (ar_error_code result))
              else propose_attempts attempts shard_id target_nodes addresses
                     (Some (table_refused (ar_error_code result)))
          end)
  end.
Definition _propose_move (shard_id : Z) (target_nodes : list Z) : M st (ProposalOutcome.t * reason) :=
  let* there := view rv_metadata_client in
  if negb there then ret (ProposalOutcome.OK, no_table)
  else
    let* addresses := view (rv_addresses_on shard_id target_nodes) in
    propose_attempts PROPOSE_ATTEMPTS shard_id target_nodes addresses None.

Definition _commit_move (shard_id : Z) (target_nodes : list Z) : M st (list Z) :=
  view (rv_apply_move_locally shard_id target_nodes);;;
  let* state := migration_state shard_id in
  match state with Some h => update h (with_phase MigrationPhase.DONE) | None => ret tt end;;;
  view (rv_forget_note shard_id);;;
  let* closed := view (rv_ensure_serving shard_id target_nodes) in
  drop_migration shard_id;;;
  ret closed.

Definition _abort_move (h : nat) : M st (list Z) :=
  let* m := object h in
  drop_migration (mg_shard_id m);;;
  view (rv_forget_note (mg_shard_id m));;;
  view (rv_unfreeze (mg_shard_id m) (mg_source_nodes m));;;
  view (rv_close_group_on (mg_shard_id m) (mg_target_nodes m)).

(** The part of [finish_move] that reads the rows, when the move has none; [false] is a
    move that stops there. *)
Definition read_rows (source : C) (h : nat) : M st bool :=
  let* m := object h in
  match mg_rows m with
  | _ :: _ => ret true
  | [] =>
      let* range := range_of (mg_shard_id m) in
      let* locked := _locks_in_range source range.1 range.2 in
      if (locked : bool) then record_migration_error (lock_in_range (mg_shard_id m));;; ret false
      else
        on_scan_refused (call (rc_scan_versions source range.1 range.2))
          (λ e, record_migration_error (not_read e);;; ret false)
          (λ rows, update h (with_rows rows.*1);;; ret true)
  end.

Definition finish_move (h : nat) : M st bool :=
  let* m := object h in
  let shard_id := mg_shard_id m in
  let* source := _wait_for_group shard_id (mg_source_nodes m) in
  match source with
  | None => record_migration_error (no_leader shard_id);;; ret false
  | Some source =>
      let* ready := read_rows source h in
      if negb ready then ret false else
      view (rv_ensure_group_on shard_id (mg_target_nodes m));;;
      let* target := _wait_for_group shard_id (mg_target_nodes m) in
      match target with
      | None => record_migration_error (no_group shard_id (mg_target_nodes m));;; ret false
      | Some target =>
          update h (with_phase MigrationPhase.COPYING);;;
          let* copied := _copy_rows source target h in
          if negb copied then ret false else
          update h (with_phase MigrationPhase.PROPOSING);;;
          let* result := _propose_move shard_id (mg_target_nodes m) in
          match result.1 with
          | ProposalOutcome.REJECTED =>
              record_migration_error result.2;;; _abort_move h;;; ret false
          | ProposalOutcome.UNREACHABLE => record_migration_error result.2;;; ret false
          | ProposalOutcome.OK => _commit_move shard_id (mg_target_nodes m);;; ret true
          end
      end
  end.

Definition same_set (a b : list Z) : bool := bool_decide (merge_sort Z.le a = merge_sort Z.le b).

Definition _resume_migration (shard_id : Z) : M st bool :=
  let* state := migration_state shard_id in
  match state with
  | None => ret false
  | Some h =>
      let* m := object h in
      view (rv_freeze shard_id "migration" (mg_source_nodes m));;;
      on_runtime_error (_wait_for_serving shard_id)
        (λ e, record_migration_error (not_read e);;; ret false)
        (λ nodes,
          match nodes with
          | None => record_migration_error (not_in_table shard_id);;; ret false
          | Some nodes =>
              if same_set nodes (mg_target_nodes m) then
                view (rv_ensure_group_on shard_id (mg_target_nodes m));;;
                _commit_move shard_id (mg_target_nodes m);;;
                ret true
              else if same_set nodes (mg_source_nodes m) then finish_move h
              else record_migration_error (other_set nodes);;; ret false
          end)
  end.

Definition _load_migration_record (shard_id : Z) : M st (option MigrationState) :=
  let* notes := view (rv_pending_notes shard_id) in
  ret match filter (λ n, pn_kind n = MIGRATION_RECORD_PREFIX) notes with
      | n :: _ => Some (new_migration shard_id (pn_target_nodes n) (pn_source_nodes n))
      | [] => None
      end.

Fixpoint load_migrations (ids : list Z) : M st unit :=
  match ids with
  | [] => ret tt
  | shard_id :: ids =>
      let* known := migration_state shard_id in
      match known with
      | Some _ => load_migrations ids
      | None =>
          let* state := _load_migration_record shard_id in
          match state with
          | None => load_migrations ids
          | Some m =>
              let* h := new_object m in
              hold_migration h;;;
              view (rv_freeze shard_id "migration" (mg_source_nodes m));;;
              load_migrations ids
          end
      end
  end.
Definition load_pending_migrations : M st unit :=
  let* ids := view rv_shard_ids in load_migrations (merge_sort Z.le ids).
Definition finish_pending_migrations : M st (list Z) :=
  let* ids := mine (λ r, merge_sort Z.le (map_to_list (_migrations r)).*1) in those _resume_migration ids.
Definition recover_migrations : M st (list Z) := load_pending_migrations;;; finish_pending_migrations.
End runner.
End RecoveryRunner.
