(* ===== verification/RecoveryFacts.v ===== *)
(** When a move may let go of what it holds.  [Traced] records what the runner tells the
    side it runs on; the theorem says what must have been heard from the routing table
    before the shard is thawed, its note dropped, or a group closed. *)

From Stdlib Require Import ZArith Lia.
From S2P Require Import Prelude Bytes PyVal PyOps Engine Mvcc StateMachine Dict Router Metadata MetadataClient Publisher RaftStorage RecoveryNotes Recovery.
Import RecoveryState RecoveryRunner.

Module TracedView.
Section traced.
Context {W C : Type} `{RecoveryView W C} `{!RowCalls W C}.

Inductive event :=
  | Froze (shard_id : Z) (nodes : list Z)
  | Thawed (shard_id : Z) (nodes : list Z)
  | Remembered (note : PendingNote)
  | Forgot (shard_id : Z)
  | Serving (shard_id : Z) (nodes : list Z)
  | Closed (shard_id : Z) (nodes : list Z)
  | AppliedSplit (shard_id : Z) (split_key : bytes) (new_shard_id : Z)
  | AppliedMove (shard_id : Z) (nodes : list Z)
  | TableRead (shard_id : Z) (r : result (option (list Z)))
  | TableThere (b : result bool)
  | SplitProposed (shard_id : Z) (split_key : bytes) (new_shard_id : Z) (r : result ApplyResult)
  | MoveProposed (shard_id : Z) (from_nodes nodes : list Z) (r : result ApplyResult).

Definition note {A} (m : V W A) (e : result A → event) : V (W * list event) A :=
  λ r '(w, l), let '(w', a) := m r w in ((w', l ++ [e a]), a).
Definition hush {A} (m : M W A) : M (W * list event) A :=
  λ '(w, l), let '(w', a) := m w in ((w', l), a).
Definition silent {A} (m : V W A) : V (W * list event) A := λ r, hush (m r).

#[global] Instance view : RecoveryView (W * list event) C := {|
  rv_shard_ids := silent rv_shard_ids;
  rv_node_ids := silent rv_node_ids;
  rv_range_map := silent rv_range_map;
  rv_pending_notes i := silent (rv_pending_notes i);
  rv_remember_note n := note (rv_remember_note n) (λ _, Remembered n);
  rv_forget_note i := note (rv_forget_note i) (λ _, Forgot i);
  rv_serving_nodes i := note (rv_serving_nodes i) (TableRead i);
  rv_shard_replica_ids i := silent (rv_shard_replica_ids i);
  rv_addresses_on i ns := silent (rv_addresses_on i ns);
  rv_leader_client i := silent (rv_leader_client i);
  rv_leader_client_for_nodes i ns := silent (rv_leader_client_for_nodes i ns);
  rv_freeze i why ns := note (rv_freeze i why ns) (λ _, Froze i ns);
  rv_unfreeze i ns := note (rv_unfreeze i ns) (λ _, Thawed i ns);
  rv_ensure_serving i ns := note (rv_ensure_serving i ns) (λ _, Serving i ns);
  rv_ensure_group_on i ns := silent (rv_ensure_group_on i ns);
  rv_close_group_on i ns := note (rv_close_group_on i ns) (λ _, Closed i ns);
  rv_apply_split_locally i k j := note (rv_apply_split_locally i k j) (λ _, AppliedSplit i k j);
  rv_apply_move_locally i ns := note (rv_apply_move_locally i ns) (λ _, AppliedMove i ns);
  rv_metadata_client := note rv_metadata_client TableThere;
  rv_split_shard i k j ns ad := note (rv_split_shard i k j ns ad) (SplitProposed i k j);
  rv_move_shard i old ns ad := note (rv_move_shard i old ns ad) (MoveProposed i old ns) |}.

#[global] Instance calls : RowCalls (W * list event) C := {|
  rc_scan c a b := hush (rc_scan c a b);
  rc_scan_versions c a b := hush (rc_scan_versions c a b);
  rc_get c k := hush (rc_get c k);
  rc_get_write_record c k := hush (rc_get_write_record c k);
  rc_propose c b := hush (rc_propose c b) |}.
End traced.
End TracedView.
Import TracedView.

(** ** What the table has said *)

(** The table names [target] for shard [i]: it took the move, it was read to say so, or
    there is no table. *)
Definition landed (i : Z) (target : list Z) (l : list event) : Prop :=
  (∃ old r, MoveProposed i old target (Ok r) ∈ l ∧ ar_success r = true) ∨
  (∃ ns, TableRead i (Ok (Some ns)) ∈ l ∧ same_set ns target = true) ∨
  TableThere (Ok false) ∈ l.
(** The table refused the move, or has no such shard. *)
Definition refused (i : Z) (target : list Z) (l : list event) : Prop :=
  (∃ old r, MoveProposed i old target (Ok r) ∈ l ∧ ar_success r = false ∧
            ar_error_code r ≠ Some ErrorCode.ERR_NOT_LEADER) ∨
  TableRead i (Ok None) ∈ l.

(** What may be done to the shard after the events [l]. *)
Definition allowed (i : Z) (source target : list Z) (l : list event) (e : event) : Prop :=
  match e with
  | AppliedMove j ns | Serving j ns => j = i ∧ ns = target ∧ landed i target l
  | Forgot j => j = i ∧ (landed i target l ∨ refused i target l)
  | Thawed j ns => j = i ∧ ns = source ∧ refused i target l
  | Closed j ns => j = i ∧ ns = target ∧ refused i target l
  | Froze j ns => j = i ∧ ns = source
  | MoveProposed j _ ns _ => j = i ∧ ns = target
  | TableRead j _ => j = i
  | TableThere _ => True
  | Remembered _ | AppliedSplit _ _ _ | SplitProposed _ _ _ _ => False
  end.
(** An event that lets go of nothing. *)
Definition holding (e : event) : Prop :=
  match e with
  | Froze _ _ | TableRead _ _ | TableThere _ | MoveProposed _ _ _ _ => True
  | _ => False
  end.

Section move.
Context `{!Msgpack} {W C : Type} `{RecoveryView W C} `{!RowCalls W C} (patience : nat).
Context (i : Z) (source target : list Z) (h : nat).
Abbreviation st := (RecoveryState.t * (W * list event))%type.
Implicit Types (s : st) (l : list event).

(** The record of the move is about this shard and these two sets. *)
Definition about (r : RecoveryState.t) : Prop :=
  ∃ m, objects r !! h = Some m ∧ mg_shard_id m = i ∧ mg_source_nodes m = source ∧ mg_target_nodes m = target.

Definition orderly l : Prop := ∀ pre e post, l = pre ++ e :: post → allowed i source target pre e.

(** So far nothing was let go of. *)
Record waiting s : Prop := {
  wt_about : about s.1;
  wt_orderly : orderly s.2.2;
  wt_holding : Forall holding s.2.2
}.

Lemma orderly_snoc l e : orderly l → allowed i source target l e → orderly (l ++ [e]).
Proof.
  intros Hl He pre x post Heq. destruct post as [|y post _] using rev_ind.
  - apply app_inj_tail in Heq as [-> ->]. done.
  - rewrite app_comm_cons, app_assoc in Heq. apply app_inj_tail in Heq as [-> ->]. by eapply Hl.
Qed.

Lemma landed_more l l' : landed i target l → landed i target (l ++ l').
Proof. unfold landed. setoid_rewrite elem_of_app. naive_solver. Qed.
Lemma refused_more l l' : refused i target l → refused i target (l ++ l').
Proof. unfold refused. setoid_rewrite elem_of_app. naive_solver. Qed.

Definition calm {A} (m : M st A) : Prop := ∀ s, waiting s → waiting (m s).1.

Lemma calm_ret {A} (a : A) : calm (ret a).
Proof. by intros s. Qed.
Lemma calm_raise {A} e : calm (raise (A := A) e).
Proof. by intros s. Qed.
Lemma calm_bind {A B} (m : M st A) (k : A → M st B) : calm m → (∀ a, calm (k a)) → calm (bind m k).
Proof.
  intros Hm Hk s Hs. specialize (Hm s Hs). unfold bind. destruct (m s) as [s' [a|x]]; [by apply Hk|done].
Qed.
Lemma calm_runtime {A B} (m : M st A) (e : exn → M st B) (k : A → M st B) :
  calm m → (∀ x, calm (e x)) → (∀ a, calm (k a)) → calm (on_runtime_error m e k).
Proof.
  intros Hm He Hk s Hs. specialize (Hm s Hs). unfold on_runtime_error.
  destruct (m s) as [s' [a|x]]; [by apply Hk|]. destruct (is_runtime_error x); [by apply He|done].
Qed.
Lemma calm_refused {A B} (m : M st A) (e : exn → M st B) (k : A → M st B) :
  calm m → (∀ x, calm (e x)) → (∀ a, calm (k a)) → calm (on_scan_refused m e k).
Proof.
  intros Hm He Hk s Hs. specialize (Hm s Hs). unfold on_scan_refused.
  destruct (m s) as [s' [a|[]]]; try done; [by apply Hk|by apply He].
Qed.
Lemma calm_silent {A} (m : V W A) : calm (RecoveryRunner.view (silent m)).
Proof.
  intros [r [w l]] Hs. unfold RecoveryRunner.view, silent, hush. cbn. destruct (m r w) as [w' a].
  destruct Hs as [H1 H2 H3]. by split.
Qed.
Lemma calm_note {A} (m : V W A) (e : result A → event) :
  (∀ a l, allowed i source target l (e a) ∧ holding (e a)) → calm (RecoveryRunner.view (note m e)).
Proof.
  intros He [r [w l]] [H1 H2 H3]. unfold RecoveryRunner.view, note. cbn in *. destruct (m r w) as [w' a].
  destruct (He a l) as [Ha Hh]. split; cbn; [done|by apply orderly_snoc|].
  apply Forall_app. split; [done|by constructor].
Qed.
Lemma calm_call {A} (m : M W A) : calm (call (hush m)).
Proof. exact (calm_silent (λ _, m)). Qed.
Lemma calm_mine {A} (f : RecoveryState.t → A) : calm (mine (W := W * list event) f).
Proof. by intros s. Qed.
Lemma calm_change f : (∀ r, objects (f r) = objects r) → calm (change (W := W * list event) f).
Proof.
  intros Hf [r w] [(m&Hm&H1) H2 H3]. split; [|done..]. exists m. cbn in *. by rewrite Hf.
Qed.
Lemma calm_lift {A} (r : result A) : calm (lift (W := W * list event) r).
Proof. by intros s. Qed.
Lemma calm_object : calm (object (W := W * list event) h).
Proof. intros s Hs. unfold object. by destruct (objects s.1 !! h). Qed.
Lemma calm_update f :
  (∀ m, mg_shard_id (f m) = mg_shard_id m ∧ mg_source_nodes (f m) = mg_source_nodes m ∧
        mg_target_nodes (f m) = mg_target_nodes m) →
  calm (update (W := W * list event) h f).
Proof.
  intros Hf [r w] [(m&Hm&H1&H2&H3) H4 H5]. split; [|done..]. exists (f m). cbn in *.
  destruct (Hf m) as (->&->&->). split; [|done]. by rewrite list_lookup_alter_eq, Hm.
Qed.
End move.

#[export] Hint Resolve calm_ret calm_raise calm_bind calm_runtime calm_refused calm_silent calm_mine
  calm_lift calm_object : calm.

Section move_body.
Context `{!Msgpack} {W C : Type} `{RecoveryView W C} `{!RowCalls W C} (patience : nat).
Context (i : Z) (source target : list Z) (h : nat).
Abbreviation st := (RecoveryState.t * (W * list event))%type.
Abbreviation calm := (calm (W := W) i source target h).
Abbreviation waiting := (waiting (W := W) i source target h).
Implicit Types (s : st) (l : list event).

Lemma calm_error why : calm (record_migration_error why).
Proof. apply calm_change. done. Qed.

Lemma calm_wait_group polls j ns : calm (wait_for_group (C := C) polls j ns).
Proof.
  induction polls as [|n IH]; cbn [wait_for_group]; (apply calm_bind; [apply calm_silent|]);
    intros [c|]; auto with calm.
Qed.
Lemma calm_wait_serving polls : calm (wait_for_serving (C := C) polls i).
Proof.
  induction polls as [|n IH]; cbn [wait_for_serving];
    (apply calm_runtime; [by apply calm_note; intros; split| |]; auto with calm).
Qed.
Lemma calm_range j : calm (range_of (C := C) j).
Proof.
  apply calm_bind; [apply calm_silent|]. intros m. destruct (d_get m j); auto with calm.
Qed.
Lemma calm_range_locks (c : C) a b : calm (_locks_in_range c a b).
Proof. apply calm_refused; [apply calm_silent|intros; apply calm_ret..]. Qed.
Lemma calm_move_row (c d : C) k v ts : calm (_move_row c d k v ts).
Proof.
  apply calm_bind; [apply calm_silent|]. intros r. apply calm_bind; [apply calm_lift|]. intros b.
  apply calm_silent.
Qed.
Lemma calm_copy (c d : C) j vs rows : calm (copy_move_rows c d h j vs rows).
Proof.
  induction rows as [|[k v] rows IH]; cbn [copy_move_rows]; [apply calm_ret|].
  destruct (vs !! k) as [ts|]; [|done]. apply calm_bind; [apply calm_silent|]. intros here.
  destruct (_ =? _); [done|]. apply calm_bind; [apply calm_move_row|]. intros r.
  destruct (negb _).
  - apply calm_bind; [apply calm_error|]. intros _. apply calm_ret.
  - apply calm_bind; [by apply calm_update|]. done.
Qed.
Lemma calm_copy_rows (c d : C) : calm (_copy_rows c d h).
Proof.
  apply calm_bind; [apply calm_object|]. intros m. apply calm_bind; [apply calm_range|]. intros r.
  apply calm_refused; [apply calm_silent| |intros; apply calm_copy].
  intros e. apply calm_bind; [apply calm_error|]. intros _. apply calm_ret.
Qed.
Lemma calm_read_rows (c : C) : calm (read_rows c h).
Proof.
  apply calm_bind; [apply calm_object|]. intros m. destruct (mg_rows m); [|apply calm_ret].
  apply calm_bind; [apply calm_range|]. intros r. apply calm_bind; [apply calm_range_locks|]. intros [].
  - apply calm_bind; [apply calm_error|]. intros _. apply calm_ret.
  - apply calm_refused; [apply calm_silent| |].
    + intros e. apply calm_bind; [apply calm_error|]. intros _. apply calm_ret.
    + intros rows. apply calm_bind; [by apply calm_update|]. intros _. apply calm_ret.
Qed.

(** What a proposal's outcome says of the table. *)
Definition heard (o : ProposalOutcome.t) l : Prop :=
  match o with
  | ProposalOutcome.OK => landed i target l
  | ProposalOutcome.REJECTED => refused i target l
  | ProposalOutcome.UNREACHABLE => True
  end.

Lemma propose_heard attempts ad why : ∀ s s' o,
  waiting s → propose_attempts (C := C) attempts i target ad why s = (s', Ok o) →
  waiting s' ∧ heard o.1 s'.2.2.
Proof.
  revert why. induction attempts as [|n IH]; intros why s s' o Hs; cbn [propose_attempts].
  { intros [= <- <-]. done. }
  unfold on_runtime_error. pose proof (calm_note i source target h (rv_serving_nodes i) (TableRead i)
    ltac:(done) s Hs) as Hs1. destruct s as [r [w l]]. cbn in Hs1 |- *.
  unfold RecoveryRunner.view, note in Hs1 |- *. cbn in Hs1 |- *.
  destruct (rv_serving_nodes i r w) as [w1 [[old|]|e]]; cbn in Hs1 |- *.
  - unfold bind, RecoveryRunner.view, note.
    pose proof (calm_note i source target h (rv_move_shard i old target ad) (MoveProposed i old target)
      ltac:(done) _ Hs1) as Hs2. unfold RecoveryRunner.view, note in Hs2. cbn in Hs2 |- *.
    destruct (rv_move_shard i old target ad r w1) as [w2 [a|e]]; cbn in Hs2 |- *; [|done].
    destruct (ar_success a) eqn:Ha.
    { intros [= <- <-]. split; [done|]. left. exists old, a. split; [|done].
      apply elem_of_app. right. by apply list_elem_of_singleton. }
    case_decide as Hc; [|by apply IH]. intros [= <- <-]. split; [done|]. left. exists old, a.
    split_and!; [|done..]. apply elem_of_app. right. by apply list_elem_of_singleton.
  - intros [= <- <-]. split; [done|]. right. apply elem_of_app. right. by apply list_elem_of_singleton.
  - destruct (is_runtime_error e); [by apply IH|done].
Qed.

Lemma calm_propose attempts ad why : calm (propose_attempts (C := C) attempts i target ad why).
Proof.
  revert why. induction attempts as [|n IH]; intros why; cbn [propose_attempts]; [apply calm_ret|].
  apply calm_runtime; [by apply calm_note; intros; split| |]; [auto|].
  intros [old|]; [|apply calm_ret]. apply calm_bind; [by apply calm_note; intros; split|]. intros a.
  destruct (ar_success a); [apply calm_ret|]. case_decide; [apply calm_ret|auto].
Qed.

Lemma propose_move_heard s s' o :
  waiting s → _propose_move (C := C) i target s = (s', Ok o) → waiting s' ∧ heard o.1 s'.2.2.
Proof.
  intros Hs. unfold _propose_move, bind at 1.
  pose proof (calm_note i source target h rv_metadata_client TableThere ltac:(done) s Hs) as Hs1.
  destruct s as [r [w l]]. unfold RecoveryRunner.view, note in Hs1 |- *. cbn in Hs1 |- *.
  destruct (rv_metadata_client r w) as [w1 [[]|e]]; cbn in Hs1 |- *; [| |done].
  - intros Hp. apply bind_Ok_inv in Hp as (s2&ad&Had&Hp). apply (propose_heard PROPOSE_ATTEMPTS ad None s2); [|done].
    pose proof (calm_silent i source target h (rv_addresses_on i target) _ Hs1) as Hs2.
    revert Had Hs2. unfold RecoveryRunner.view. cbn. intros Had. rewrite Had. done.
  - intros [= <- <-]. split; [done|]. right. right. apply elem_of_app. right. by apply list_elem_of_singleton.
Qed.
Lemma calm_propose_move : calm (_propose_move (C := C) i target).
Proof.
  apply calm_bind; [by apply calm_note; intros; split|]. intros []; [|apply calm_ret].
  apply calm_bind; [apply calm_silent|]. intros ad. apply calm_propose.
Qed.
End move_body.

(** ** Letting go, once the table has answered *)

Section letting_go.
Context `{!Msgpack} {W C : Type} `{RecoveryView W C} `{!RowCalls W C} (patience : nat).
Context (i : Z) (source target : list Z) (h : nat).
Abbreviation st := (RecoveryState.t * (W * list event))%type.
Context (D : list event → Prop) (D_more : ∀ l l', D l → D (l ++ l')).
Implicit Types (s : st) (l : list event).

Definition settled s : Prop := orderly i source target s.2.2 ∧ D s.2.2.
Definition steady {A} (m : M st A) : Prop := ∀ s, settled s → settled (m s).1.

Lemma steady_ret {A} (a : A) : steady (ret a).
Proof. by intros s. Qed.
Lemma steady_bind {A B} (m : M st A) (k : A → M st B) : steady m → (∀ a, steady (k a)) → steady (bind m k).
Proof.
  intros Hm Hk s Hs. specialize (Hm s Hs). unfold bind. destruct (m s) as [s' [a|x]]; [by apply Hk|done].
Qed.
Lemma steady_own {A} (m : M st A) : (∀ s, (m s).1.2 = s.2) → steady m.
Proof. intros Hm s [H1 H2]. split; by rewrite Hm. Qed.
Lemma steady_note {A} (m : V W A) (e : result A → event) :
  (∀ a l, D l → allowed i source target l (e a)) → steady (RecoveryRunner.view (note m e)).
Proof.
  intros He [r [w l]] [H1 H2]. unfold RecoveryRunner.view, note. cbn in *. destruct (m r w) as [w' a].
  split; cbn; [apply orderly_snoc; auto|by apply D_more].
Qed.

Lemma steady_commit : (∀ l, D l → landed i target l) → steady (_commit_move (C := C) i target).
Proof.
  intros HD. apply steady_bind; [apply steady_note; cbn; auto|]. intros _.
  apply steady_bind; [by apply steady_own|]. intros o.
  apply steady_bind; [destruct o; by apply steady_own|]. intros _.
  apply steady_bind; [apply steady_note; cbn; auto|]. intros _.
  apply steady_bind; [apply steady_note; cbn; auto|]. intros closed.
  apply steady_bind; [by apply steady_own|]. intros _. apply steady_ret.
Qed.
End letting_go.

Section moves.
Context `{!Msgpack} {W C : Type} `{RecoveryView W C} `{!RowCalls W C} (patience : nat).
Context (i : Z) (source target : list Z) (h : nat).
Abbreviation st := (RecoveryState.t * (W * list event))%type.
Abbreviation waiting := (waiting (W := W) i source target h).
Implicit Types (s : st) (l : list event).

(** How a run that started out waiting may end. *)
Definition ends (s' : st) (answer : result bool) : Prop :=
  orderly i source target s'.2.2 ∧
  match answer with
  | Ok true => landed i target s'.2.2
  | Ok false => Forall holding s'.2.2 ∨ refused i target s'.2.2
  | Raise _ => True
  end.

Lemma waiting_ends s : waiting s → ends s (Ok false).
Proof. intros [_ Ho Hh]. by split; [|left]. Qed.
Lemma waiting_raises s e : waiting s → ends s (Raise e).
Proof. intros [_ Ho _]. by split. Qed.

(** A step that keeps waiting, and then a run that ends well. *)
Lemma ends_bind {A} (m : M st A) (k : A → M st bool) s :
  waiting (m s).1 → (∀ s' a, m s = (s', Ok a) → waiting s' → ends (k a s').1 (k a s').2) →
  ends (bind m k s).1 (bind m k s).2.
Proof.
  intros Hm Hk. unfold bind. destruct (m s) as [s' [a|e]] eqn:Hr; [by apply Hk|by apply waiting_raises].
Qed.
Lemma ends_stop (m : M st unit) s : waiting (m s).1 → ends ((m;;; ret false) s).1 ((m;;; ret false) s).2.
Proof. intros Hm. apply ends_bind; [done|]. intros s' a _ Hs. by apply waiting_ends. Qed.

Lemma ends_commit s :
  waiting s → landed i target s.2.2 →
  ends ((_commit_move (C := C) i target;;; ret true) s).1 ((_commit_move (C := C) i target;;; ret true) s).2.
Proof.
  intros [_ Ho _] Hl.
  pose proof (steady_commit (C := C) i source target (landed i target) ltac:(intros; by apply landed_more) ltac:(done)
    s (conj Ho Hl)) as Hk.
  unfold bind. destruct (_commit_move i target s) as [s' [a|e]]; destruct Hk as [H1 H2]; by split.
Qed.

Lemma ends_abort s :
  waiting s → refused i target s.2.2 →
  ends ((_abort_move (C := C) h;;; ret false) s).1 ((_abort_move (C := C) h;;; ret false) s).2.
Proof.
  intros [(m&Hm&Hi&Hs&Ht) Ho _] Hr.
  assert (Hk : settled i source target (refused i target) (_abort_move (C := C) h s).1).
  { unfold _abort_move, bind at 1, object. rewrite Hm, Hi, Hs, Ht.
    assert (Hmore : ∀ l l', refused i target l → refused i target (l ++ l')) by (intros; by apply refused_more).
    apply (steady_bind (W := W) i source target (refused i target)); [by apply steady_own| |by split]. intros _.
    apply steady_bind; [apply steady_note; cbn; auto|]. intros _.
    apply steady_bind; [apply steady_note; cbn; auto|]. intros _.
    apply steady_note; cbn; auto. }
  unfold bind. destruct (_abort_move h s) as [s' [a|e]]; destruct Hk as [K1 K2]; (split; [exact K1|]); cbn; auto.
Qed.
Lemma finish_ends s : waiting s → ends (finish_move (C := C) patience h s).1 (finish_move (C := C) patience h s).2.
Proof.
  intros Hs. unfold finish_move. apply ends_bind; [by apply calm_object|]. intros s1 m Hm Hs1.
  assert (mg_shard_id m = i ∧ mg_source_nodes m = source ∧ mg_target_nodes m = target) as (->&->&->).
  { destruct (wt_about _ _ _ _ _ Hs) as (m0&Hm0&Hf). unfold object in Hm. rewrite Hm0 in Hm. by injection Hm as <- <-. }
  apply ends_bind; [by apply calm_wait_group|]. intros s2 [src|] _ Hs2; [|by apply ends_stop, calm_error].
  apply ends_bind; [by apply calm_read_rows|]. intros s3 [] _ Hs3; [|by apply waiting_ends].
  cbn [negb]. apply ends_bind; [by apply calm_silent|]. intros s4 _ _ Hs4.
  apply ends_bind; [by apply calm_wait_group|]. intros s5 [dst|] _ Hs5; [|by apply ends_stop, calm_error].
  apply ends_bind; [by apply calm_update|]. intros s6 _ _ Hs6.
  apply ends_bind; [by apply calm_copy_rows|]. intros s7 [] _ Hs7; [|by apply waiting_ends].
  cbn [negb]. apply ends_bind; [by apply calm_update|]. intros s8 _ _ Hs8.
  apply ends_bind; [by apply calm_propose_move|]. intros s9 [[] why] Hp Hs9;
    destruct (propose_move_heard i source target h _ _ _ Hs8 Hp) as [_ Hh]; cbn [fst snd heard] in *.
  - by apply ends_commit.
  - apply ends_bind; [by apply calm_error|]. intros sA u HA HsA. apply ends_abort; [done|].
    injection HA as <-. done.
  - by apply ends_stop, calm_error.
Qed.

Lemma serving_heard polls : ∀ s s' ns,
  wait_for_serving (C := C) polls i s = (s', Ok (Some ns)) → TableRead i (Ok (Some ns)) ∈ s'.2.2.
Proof.
  induction polls as [|n IH]; intros [r [w l]] s' ns; cbn [wait_for_serving];
    unfold on_runtime_error, RecoveryRunner.view; cbn; destruct (rv_serving_nodes i r w) as [w' [o|e]]; cbn.
  - intros [= <- <-]. cbn. apply elem_of_app. right. by apply list_elem_of_singleton.
  - by destruct (is_runtime_error e).
  - intros [= <- <-]. cbn. apply elem_of_app. right. by apply list_elem_of_singleton.
  - destruct (is_runtime_error e); [apply IH|done].
Qed.

Lemma resume_ends r w l :
  waiting (r, (w, l)) → _migrations r !! i = Some h →
  ends (_resume_migration (C := C) patience i (r, (w, l))).1 (_resume_migration (C := C) patience i (r, (w, l))).2.
Proof.
  intros Hs Hh. unfold _resume_migration.
  rewrite (bind_run _ _ _ (r, (w, l)) (Some h)) by (unfold migration_state, mine; cbn; by rewrite Hh).
  apply ends_bind; [by apply calm_object|]. intros s1 m Hm Hs1.
  assert (mg_source_nodes m = source ∧ mg_target_nodes m = target) as (->&->).
  { destruct (wt_about _ _ _ _ _ Hs) as (m0&Hm0&_&Hf). unfold object in Hm. rewrite Hm0 in Hm. by injection Hm as <- <-. }
  apply ends_bind; [by apply calm_note|]. intros s2 _ _ Hs2.
  pose proof (calm_wait_serving (C := C) i source target h patience s2 Hs2) as Hs3.
  unfold on_runtime_error, _wait_for_serving.
  destruct (wait_for_serving patience i s2) as [s3 [[nodes|]|e]] eqn:Hw; cbn [fst] in Hs3.
  - destruct (same_set nodes target) eqn:Hsame.
    + apply ends_bind; [by apply calm_silent|]. intros s4 u H4 Hs4. apply ends_commit; [done|].
      right. left. exists nodes. split; [|done]. apply serving_heard in Hw.
      destruct s3 as [r3 [w3 l3]]. unfold RecoveryRunner.view in H4. cbn in H4, Hw.
      destruct (rv_ensure_group_on i target r3 w3) as [w4 a]. by injection H4 as <- _.
    + destruct (same_set nodes source); [by apply finish_ends|by apply ends_stop, calm_error].
  - by apply ends_stop, calm_error.
  - destruct (is_runtime_error e); [by apply ends_stop, calm_error|by apply waiting_raises].
Qed.
End moves.

(** C26: A move lets go of nothing before the routing table has answered.  Whatever the side
    it runs on answers, and however the run ends - yes, no, or an exception half way - a
    recovery that picks a move up freezes the group the move is leaving and no other; it
    takes the new set as its own answer and closes the old group only after the table is
    known to name the new one; it thaws the old group and closes the new one only after the
    table refused the move; and it drops the note only after one of the two.  A yes means
    the table names the new set; a no without a refusal means nothing was let go of. *)
Theorem move_waits_for_the_table `{!Msgpack} {W C} `{RecoveryView W C} `{!RowCalls W C} patience i h m
    (r r' : RecoveryState.t) (w w' : W) l answer :
  _migrations r !! i = Some h → objects r !! h = Some m → mg_shard_id m = i →
  _resume_migration (C := C) patience i (r, (w, [])) = ((r', (w', l)), answer) →
  (∀ pre e post, l = pre ++ e :: post → allowed i (mg_source_nodes m) (mg_target_nodes m) pre e) ∧
  match answer with
  | Ok true => landed i (mg_target_nodes m) l
  | Ok false => Forall holding l ∨ refused i (mg_target_nodes m) l
  | Raise _ => True
  end.
Proof.
  intros Hh Hm Hi Hr.
  assert (waiting i (mg_source_nodes m) (mg_target_nodes m) h (r, (w, []))) as Hw.
  { split; cbn; [by exists m| |constructor]. by intros [] ? ?. }
  pose proof (resume_ends (C := C) patience _ _ _ _ r w [] Hw Hh) as He. by rewrite Hr in He.
Qed.
