(* ===== verification/RecoveryCopy.v ===== *)
(** What a move copies: when the routing table is asked to name the new group, or this side
    takes it as its own answer, the new group answers for the range as the old one does.

    [RowGroups] is what the copy relies on of the groups it reads and writes: a client found
    for a set of nodes is a client of the group on that set, reads answer out of the group's
    machine, a proposal that succeeds was applied to it, and nothing else writes to either
    group while the move holds them - the source is frozen and no client is sent to the
    target.  [Watched] keeps every state in which the table was asked or the answer taken. *)

From Stdlib Require Import ZArith Lia.
From S2P Require Import Prelude Bytes PyVal PyOps Engine Mvcc StateMachine StateMachineFacts Dict Router Metadata MetadataClient Publisher RaftStorage RecoveryNotes Recovery.
Import MVCCStorage MVCCStateMachine RecoveryState RecoveryRunner.

Abbreviation group := (Z * list Z)%type.

Class RowGroups (E W C : Type) `{EngineLaws E} `{!Msgpack} `{RecoveryView W C} `{!RowCalls W C} := {
  group_of : C → group;
  data : W → group → MVCCStateMachine.t E;
  (** The calls that leave every group as it was. *)
  kept_client i ns r w : data (rv_leader_client_for_nodes (C := C) i ns r w).1 = data w;
  kept_ranges r w : data (rv_range_map r w).1 = data w;
  kept_build i ns r w : data (rv_ensure_group_on i ns r w).1 = data w;
  kept_table r w : data (rv_metadata_client r w).1 = data w;
  kept_addresses i ns r w : data (rv_addresses_on i ns r w).1 = data w;
  kept_serving i r w : data (rv_serving_nodes i r w).1 = data w;
  kept_move i old ns ad r w : data (rv_move_shard i old ns ad r w).1 = data w;
  kept_scan (c : C) a b w : data (rc_scan c a b w).1 = data w;
  kept_versions (c : C) a b w : data (rc_scan_versions c a b w).1 = data w;
  kept_get (c : C) k w : data (rc_get c k w).1 = data w;
  kept_record (c : C) k w : data (rc_get_write_record c k w).1 = data w;
  (** What the answers say. *)
  client_found i ns r w w' c :
    rv_leader_client_for_nodes i ns r w = (w', Ok (Some c)) → group_of c = (i, ns);
  versions_read (c : C) a b w w' rows :
    rc_scan_versions c a b w = (w', Ok rows) →
    MVCCStateMachine.scan_versions (data w (group_of c)) a b None
      = Ok (map (λ r, (r.1.1, PBytes r.1.2, r.2)) rows);
  value_read (c : C) k w w' x :
    rc_get c k w = (w', Ok x) →
    if rr_success x
    then ∃ y, get (data w (group_of c)) k None = Ok y ∧ rr_success y = true ∧ rr_commit_ts y = rr_commit_ts x
    else rr_commit_ts x = 0;
  proposed (c : C) b w w' x :
    rc_propose c b w = (w', Ok x) → ar_success x = true →
    (∀ g, g ≠ group_of c → data w' g = data w g) ∧
    ∃ now, data w' (group_of c) = (apply now b (data w (group_of c))).1 ∧
           ar_success (apply now b (data w (group_of c))).2 = true
}.

(** ** What the two machines hold *)

Section machines.
Context {E : Type} `{EngineLaws E} `{!Msgpack}.
Abbreviation sm := (MVCCStateMachine.t E).
Implicit Types (s t : sm) (k v : bytes).

(** The value and version a machine has for a key, as a reader without a timestamp finds it. *)
Definition current s k (o : option (bytes * Z)) : Prop :=
  visible (hist (_storage s) k) (_last_applied_timestamp s) o.

(** A machine whose every write is applied. *)
Record sound s : Prop := {
  sd_inv : store_inv (_storage s);
  sd_applied : all_applied s;
  sd_last : 0 ≤ _last_applied_timestamp s
}.
Definition unlocked (a b : bytes) s : Prop :=
  ∀ k, no_sep k → in_range a k b = true → get_newest_lock (_storage s) k = Ok None.

(** [t] holds nothing of the range but current rows of [s]: it is empty, or a copy of [s]
    that was begun. *)
Record copy_of (a b : bytes) s t : Prop := {
  cp_sound : sound t;
  cp_unlocked : unlocked a b t;
  cp_rows k ts o : no_sep k → in_range a k b = true → hist (_storage t) k ts = Some o →
    ∃ v, o = Some v ∧ current s k (Some (v, ts))
}.

Lemma sound_read s k : sound s → no_sep k → get_newest_lock (_storage s) k = Ok None →
  ∃ o, current s k o ∧ get s k None = Ok (read_answer o).
Proof.
  intros [Hi _ Hl] Hk Hn. destruct (get_rule s k None Hi Hk) as (o&Ho&Hg); [cbn; lia|].
  exists o. rewrite Hg, Hn. done.
Qed.

Lemma current_unique s k o1 o2 : current s k o1 → current s k o2 → o1 = o2.
Proof. apply visible_unique. Qed.

(** What is current in a machine is the newest there is. *)
Lemma current_newest s k v ts : sound s → no_sep k → hist (_storage s) k ts = Some (Some v) →
  (∀ ts' o, hist (_storage s) k ts' = Some o → ts' ≤ ts) → current s k (Some (v, ts)).
Proof.
  intros [_ Ha _] Hk Hh Hnew. split; [done|]. split.
  - apply (Ha k); [done|]. apply hist_entry in Hh as (raw&->&_). by eexists.
  - intros ts' Hts. destruct (hist (_storage s) k ts') as [o|] eqn:Ho; [|done]. apply Hnew in Ho. lia.
Qed.
Lemma current_nothing s k : (∀ ts, hist (_storage s) k ts = None) → current s k None.
Proof. intros Hn. by left. Qed.

(** ** The command a row is moved with *)

Definition moved_kwargs k v ts (o : option Z) : list (string * pyval) :=
  [("key"%string, PBytes k); ("value"%string, PBytes v); ("timestamp"%string, PInt ts);
   ("start_ts"%string, match o with Some sts => PInt sts | None => PNone end)].

(** A SET that names no start timestamp and one that leaves it out are one command. *)
Lemma apply_moved now k v ts o b s :
  serialize_command CommandType.SET (moved_kwargs k v ts o) = Ok b →
  apply now b s = apply_op now (OSet k v ts o) s.
Proof.
  destruct o as [sts|]; [apply (apply_serialized now (OSet k v ts (Some sts)))|].
  intros Hb. unfold apply, apply_op, serialize_command in *.
  unfold bind at 1, MVCCStateMachine.lift at 1, reads. rewrite (unpackb_packb _ _ Hb), (dispatch_op now (OSet k v ts None)).
  reflexivity.
Qed.

(** What a row that was taken leaves behind. *)
Lemma moved_entries now k v ts o s s' r :
  apply_op now (OSet k v ts o) s = (s', r) → ar_success r = true →
  no_sep k ∧ valid_ts ts ∧ _last_applied_timestamp s' = Z.max ts (_last_applied_timestamp s) ∧
  (∀ k' ts', no_sep k' → hist (_storage s') k' ts' =
     if decide (k' = k ∧ ts' = ts) then Some (Some v) else hist (_storage s) k' ts') ∧
  (∀ k' ts', no_sep k' → entry (_storage s') x04 k' ts' = entry (_storage s) x04 k' ts').
Proof.
  destruct s as [e last]. rewrite apply_set_run.
  destruct (set e k v ts) as [e1|] eqn:Hs; [|by intros [= <- <-]]. apply set_Ok in Hs as (Hk&Hts&->).
  assert (Hh : ∀ k' ts', no_sep k' → hist (e_put e (row_key x01 k ts) (x01 :: v)) k' ts' =
     if decide (k' = k ∧ ts' = ts) then Some (Some v) else hist e k' ts').
  { intros k' ts' Hk'. unfold hist. rewrite row_key_put by done. repeat case_decide; naive_solver. }
  destruct o as [sts|].
  - destruct (write_write_record _ k sts ts) as [e2|] eqn:Hw; [|by intros [= <- <-]].
    apply write_write_record_Ok in Hw as (_&_&_&->). intros [= <- <-] _. cbn. split_and!; [done..| |].
    + intros k' ts' Hk'. rewrite <-(Hh k' ts' Hk'). unfold hist. rewrite (row_key_put _ x03) by done.
      by rewrite decide_False by naive_solver.
    + intros k' ts' Hk'. rewrite !row_key_put by done. by rewrite !decide_False by naive_solver.
  - intros [= <- <-] _. cbn. split_and!; [done..|]. intros k' ts' Hk'.
    rewrite row_key_put by done. by rewrite decide_False by naive_solver.
Qed.

Lemma moved_row a b now k v ts o s t t' r :
  copy_of a b s t → current s k (Some (v, ts)) → apply_op now (OSet k v ts o) t = (t', r) →
  ar_success r = true →
  copy_of a b s t' ∧ hist (_storage t') k ts = Some (Some v) ∧
  ∀ k' ts' x, no_sep k' → in_range a k' b = true →
    hist (_storage t) k' ts' = Some x → hist (_storage t') k' ts' = Some x.
Proof.
  intros [[Hi Ha Hl] Hu Hr] Hc Hop Hok.
  pose proof (apply_op_step now (OSet k v ts o) t) as Hst. rewrite Hop in Hst. cbn in Hst.
  pose proof (sm_step_inv _ _ Hst Hi) as Hi'.
  destruct (moved_entries _ _ _ _ _ _ _ _ Hop Hok) as (Hk&Hts&Hlast&Hh&Hlk).
  split; [split; [split|..]|].
  - done.
  - intros k' ts' Hk' [raw He]. rewrite Hlast.
    assert (is_Some (hist (_storage t') k' ts')) as Hs by (unfold hist; rewrite He; by eexists).
    rewrite Hh in Hs by done. case_decide as Hd; [destruct Hd as [_ ->]; lia|].
    destruct Hs as [x (raw'&He'&_)%hist_entry]. assert (ts' ≤ _last_applied_timestamp t); [|lia].
    apply (Ha k'); [done|by eexists].
  - lia.
  - intros k' Hk' Hin. pose proof (Hu k' Hk' Hin) as Hn.
    destruct (store_inv_newest_lock _ k' Hi' Hk') as [[_ ->]|(ts0&?&?&?&He&_)]; [done|].
    destruct (store_inv_newest_lock _ k' Hi Hk') as [[Hno _]|(?&?&?&?&_&_&_&Hn')]; [|by rewrite Hn in Hn'].
    rewrite Hlk, Hno in He by done. by destruct He.
  - intros k' ts' x Hk' Hin. rewrite Hh by done. case_decide as Hd; [|by apply Hr].
    destruct Hd as [-> ->]. intros [= <-]. by exists v.
  - rewrite Hh by done. split; [by rewrite decide_True|]. intros k' ts' x Hk' Hin Hx. rewrite Hh by done.
    case_decide as Hd; [|done]. destruct Hd as [-> ->]. destruct (Hr _ _ _ Hk' Hin Hx) as (v'&->&Hc').
    pose proof (current_unique _ _ _ _ Hc Hc') as [= ->]. done.
Qed.
End machines.

(** ** A range read of the source *)

Section ranges.
Context {E : Type} `{EngineLaws E} `{!Msgpack}.
Abbreviation sm := (MVCCStateMachine.t E).
Implicit Types (s t : sm) (k v : bytes).

Definition rows_of (a b : bytes) s (vs : list (bytes * bytes * Z)) : Prop :=
  MVCCStateMachine.scan_versions s a b None = Ok (map (λ r, (r.1.1, PBytes r.1.2, r.2)) vs).

Lemma rows_current a b s vs :
  sound s → no_sep a → no_sep b → rows_of a b s vs →
  unlocked a b s ∧
  ∀ k v ts, (k, v, ts) ∈ vs ↔ no_sep k ∧ in_range a k b = true ∧ current s k (Some (v, ts)).
Proof.
  intros Hs Ha Hb Hvs. pose proof (machine_scan_spec s a b None (sd_inv _ Hs) Ha Hb) as Hspec.
  rewrite Hvs in Hspec. destruct Hspec as (_&Hin&Hget); [pose proof (sd_last _ Hs); cbn; lia|].
  assert (Hu : unlocked a b s).
  { intros k Hk Hr. destruct (Hget k Hk Hr) as (v&c&Hg&_).
    destruct (get_rule s k None (sd_inv _ Hs) Hk) as (o&_&Hg'); [pose proof (sd_last _ Hs); cbn; lia|].
    rewrite Hg in Hg'.
    destruct (store_inv_newest_lock _ k (sd_inv _ Hs) Hk) as [[_ ->]|(?&?&?&?&_&_&_&Hl)]; [done|].
    by rewrite Hl in Hg'. }
  split; [done|]. intros k v ts.
  assert (Hmem : (k, v, ts) ∈ vs ↔ (k, PBytes v, ts) ∈ map (λ r : bytes * bytes * Z, (r.1.1, PBytes r.1.2, r.2)) vs).
  { rewrite list_elem_of_fmap. split; [intros; by exists (k, v, ts)|].
    intros ([[k' v'] ts']&[= -> -> ->]&?). done. }
  rewrite Hmem. split.
  - intros Hrow. destruct (Hin _ _ _ Hrow) as [Hk Hr]. split_and!; [done..|].
    destruct (sound_read s k Hs Hk (Hu k Hk Hr)) as (o&Ho&Hg). destruct (Hget k Hk Hr) as (v'&c&Hg'&Hiff).
    apply Hiff in Hrow as (_&<-&<-). rewrite Hg in Hg'. destruct o as [[v0 c0]|]; [|done].
    injection Hg' as -> ->. done.
  - intros (Hk&Hr&Hc). destruct (sound_read s k Hs Hk (Hu k Hk Hr)) as (o&Ho&Hg).
    rewrite (current_unique _ _ _ _ Ho Hc) in Hg. destruct (Hget k Hk Hr) as (v'&c&Hg'&Hiff).
    rewrite Hg in Hg'. injection Hg' as <- <-. by apply Hiff.
Qed.

(** The dictionary of the versions. *)
Lemma versions_from (vs : list (bytes * bytes * Z)) (m : gmap bytes Z) k (ts : Z) :
  foldl (λ (m : gmap bytes Z) (r : bytes * bytes * Z), <[r.1.1 := r.2]> m) m vs !! k = Some ts →
  m !! k = Some ts ∨ ∃ v, (k, v, ts) ∈ vs.
Proof.
  revert m. induction vs as [|[[k0 v0] ts0] vs IH]; intros m; cbn [foldl]; [by left|].
  intros [Hm|(v&Hv)]%IH; [|right; exists v; by right]. cbn in Hm.
  destruct (decide (k0 = k)) as [->|Hne].
  - rewrite lookup_insert_eq in Hm. injection Hm as <-. right. exists v0. by left.
  - rewrite lookup_insert_ne in Hm by done. by left.
Qed.
Lemma versions_has (vs : list (bytes * bytes * Z)) (m : gmap bytes Z) k :
  is_Some (m !! k) ∨ k ∈ vs.*1.*1 →
  is_Some (foldl (λ (m : gmap bytes Z) (r : bytes * bytes * Z), <[r.1.1 := r.2]> m) m vs !! k).
Proof.
  revert m. induction vs as [|[[k0 v0] ts0] vs IH]; intros m; cbn [foldl fmap list_fmap].
  { intros [?|[]%elem_of_nil]. done. }
  intros Hk. apply IH. cbn. destruct (decide (k0 = k)) as [->|Hne].
  - left. rewrite lookup_insert_eq. by eexists.
  - rewrite lookup_insert_ne by done. rewrite elem_of_cons in Hk. naive_solver.
Qed.

Lemma versions_exact a b s vs k v :
  sound s → no_sep a → no_sep b → rows_of a b s vs → (k, v) ∈ vs.*1 →
  ∃ ts, versions_of vs !! k = Some ts ∧ no_sep k ∧ in_range a k b = true ∧ current s k (Some (v, ts)).
Proof.
  intros Hs Ha Hb Hvs Hin. destruct (rows_current a b s vs Hs Ha Hb Hvs) as [_ Hiff].
  assert (is_Some (versions_of vs !! k)) as [ts Hts].
  { apply versions_has. right. apply list_elem_of_fmap. by exists (k, v). }
  exists ts. split; [done|]. apply versions_from in Hts as [Hts|(v'&Hv')]; [by rewrite lookup_empty in Hts|].
  apply Hiff in Hv' as (Hk&Hr&Hc). split_and!; [done..|].
  apply list_elem_of_fmap in Hin as ([[k0 v0] ts0]&Heq&Hin). injection Heq as -> ->.
  apply Hiff in Hin as (_&_&Hc0). by pose proof (current_unique _ _ _ _ Hc Hc0) as [= -> ->].
Qed.

(** [t] answers for the range as [s] does. *)
Definition alike (a b : bytes) s t : Prop := ∀ k, no_sep k → in_range a k b = true →
  ∃ (v : pyval) c, get s k None = Ok (read_success v c) ∧ get t k None = Ok (read_success v c).

(** A copy that holds every row is one that answers alike. *)
Lemma full_copy a b s t vs :
  sound s → no_sep a → no_sep b → rows_of a b s vs → copy_of a b s t →
  (∀ k v, (k, v) ∈ vs.*1 → ∃ ts, current s k (Some (v, ts)) ∧ hist (_storage t) k ts = Some (Some v)) →
  alike a b s t.
Proof.
  intros Hs Ha Hb Hvs [Ht Htu Htr] Hall k Hk Hr.
  destruct (rows_current a b s vs Hs Ha Hb Hvs) as [Hu Hiff].
  destruct (sound_read s k Hs Hk (Hu k Hk Hr)) as (o&Ho&Hg).
  destruct (sound_read t k Ht Hk (Htu k Hk Hr)) as (o'&Ho'&Hg').
  exists (rr_value (read_answer o)), (rr_commit_ts (read_answer o)). rewrite Hg, Hg'.
  assert (o' = o) as ->; [|by destruct o as [[]|]].
  apply (current_unique t k); [done|]. destruct o as [[v c]|].
  - assert ((k, v) ∈ vs.*1) as Hin.
    { apply list_elem_of_fmap. exists (k, v, c). split; [done|]. by apply Hiff. }
    destruct (Hall k v Hin) as (ts&Hc&Hh). pose proof (current_unique _ _ _ _ Ho Hc) as [= ->].
    apply current_newest; [done..|]. intros ts' x Hx. destruct (Htr _ _ _ Hk Hr Hx) as (v'&_&Hc').
    pose proof (current_unique _ _ _ _ Hc Hc') as [= _ ->]. done.
  - apply current_nothing. intros ts. destruct (hist (_storage t) k ts) as [x|] eqn:Hx; [|done].
    destruct (Htr _ _ _ Hk Hr Hx) as (v'&_&Hc'). by pose proof (current_unique _ _ _ _ Ho Hc').
Qed.

(** A row the copy finds at the version it expects is that row. *)
Lemma found_row a b s t k v ts y :
  copy_of a b s t → no_sep k → in_range a k b = true → current s k (Some (v, ts)) → 0 < ts →
  get t k None = Ok y → rr_commit_ts y = ts → hist (_storage t) k ts = Some (Some v).
Proof.
  intros [Ht Htu Htr] Hk Hr Hc Hpos Hy Hts.
  destruct (sound_read t k Ht Hk (Htu k Hk Hr)) as (o&Ho&Hg). rewrite Hg in Hy. injection Hy as <-.
  destruct o as [[v' c]|]; cbn in Hts; [subst c|lia]. destruct Ho as (Hh&_).
  destruct (Htr _ _ _ Hk Hr Hh) as (v0&[= <-]&Hc'). by pose proof (current_unique _ _ _ _ Hc Hc') as [= ->].
Qed.
End ranges.

(** ** The states in which the table is asked *)

Module WatchedView.
Section watched.
Context {W C : Type} `{RecoveryView W C} `{!RowCalls W C}.

(** A call that keeps the state it was made in, and one that does not. *)
Definition seen {A} (m : V W A) : V (W * list W) A :=
  λ r '(w, l), let '(w', a) := m r w in ((w', l ++ [w]), a).
Definition unseen {A} (m : M W A) : M (W * list W) A :=
  λ '(w, l), let '(w', a) := m w in ((w', l), a).
Definition pass {A} (m : V W A) : V (W * list W) A := λ r, unseen (m r).

#[global] Instance view : RecoveryView (W * list W) C := {|
  rv_shard_ids := pass rv_shard_ids;
  rv_node_ids := pass rv_node_ids;
  rv_range_map := pass rv_range_map;
  rv_pending_notes i := pass (rv_pending_notes i);
  rv_remember_note n := pass (rv_remember_note n);
  rv_forget_note i := pass (rv_forget_note i);
  rv_serving_nodes i := pass (rv_serving_nodes i);
  rv_shard_replica_ids i := pass (rv_shard_replica_ids i);
  rv_addresses_on i ns := pass (rv_addresses_on i ns);
  rv_leader_client i := pass (rv_leader_client i);
  rv_leader_client_for_nodes i ns := pass (rv_leader_client_for_nodes i ns);
  rv_freeze i why ns := pass (rv_freeze i why ns);
  rv_unfreeze i ns := pass (rv_unfreeze i ns);
  rv_ensure_serving i ns := pass (rv_ensure_serving i ns);
  rv_ensure_group_on i ns := pass (rv_ensure_group_on i ns);
  rv_close_group_on i ns := pass (rv_close_group_on i ns);
  rv_apply_split_locally i k j := pass (rv_apply_split_locally i k j);
  rv_apply_move_locally i ns := seen (rv_apply_move_locally i ns);
  rv_metadata_client := pass rv_metadata_client;
  rv_split_shard i k j ns ad := pass (rv_split_shard i k j ns ad);
  rv_move_shard i old ns ad := seen (rv_move_shard i old ns ad) |}.

#[global] Instance calls : RowCalls (W * list W) C := {|
  rc_scan c a b := unseen (rc_scan c a b);
  rc_scan_versions c a b := unseen (rc_scan_versions c a b);
  rc_get c k := unseen (rc_get c k);
  rc_get_write_record c k := unseen (rc_get_write_record c k);
  rc_propose c b := unseen (rc_propose c b) |}.
End watched.
End WatchedView.
Import WatchedView.

Section copy.
Context {E W C : Type} `{RowGroups E W C} (patience : nat).
Context (i : Z) (source target : list Z) (h : nat) (a b : bytes) (base : MVCCStateMachine.t E).
Context (Hdisjoint : source ≠ target) (HS : sound base) (Ha : no_sep a) (Hb : no_sep b).
(** No version is at timestamp 0, which is what a row that is not there reads as. *)
Context (Hpos : ∀ k ts o, no_sep k → in_range a k b = true → hist (_storage base) k ts = Some o → 0 < ts).
(** The range of the shard does not change under the move. *)
Context (Hrange : ∀ r w w' m, rv_range_map (C := C) r w = (w', Ok m) → d_get m i = Some (a, b)).
Abbreviation st := (RecoveryState.t * (W * list W))%type.
Implicit Types (s : st) (w : W).

Definition old w : MVCCStateMachine.t E := data w (i, source).
Definition new w : MVCCStateMachine.t E := data w (i, target).
Definition told w : Prop := old w = base ∧ alike a b base (new w).
(** What holds of every state that was watched. *)
Definition honest s : Prop := Forall told s.2.2.

(** Before the copy is whole; [rows] are the ones the new group is known to hold. *)
Record copying (P : MigrationState → Prop) (rows : list (bytes * bytes)) s : Prop := {
  cy_record : ∃ m, objects s.1 !! h = Some m ∧ mg_shard_id m = i ∧ mg_source_nodes m = source ∧
                   mg_target_nodes m = target ∧ P m;
  cy_old : old s.2.1 = base;
  cy_new : copy_of a b base (new s.2.1);
  cy_rows k v : (k, v) ∈ rows →
    ∃ ts, current base k (Some (v, ts)) ∧ no_sep k ∧ in_range a k b = true ∧
          hist (_storage (new s.2.1)) k ts = Some (Some v);
  cy_silent : s.2.2 = []
}.
(** After it. *)
Definition copied_all s : Prop := told s.2.1 ∧ honest s.

(** [m] run where [P] holds ends in [Q], or in an exception after honest states only. *)
Definition hoare {A} (P : st → Prop) (m : M st A) (Q : A → st → Prop) : Prop := ∀ s, P s →
  match m s with (s', Ok x) => Q x s' | (s', Raise _) => honest s' end.

Lemma hoare_ret {A} (P : st → Prop) (x : A) (Q : A → st → Prop) : (∀ s, P s → Q x s) → hoare P (ret x) Q.
Proof. intros HQ s Hs. by apply HQ. Qed.
Lemma hoare_bind {A B} P (m : M st A) Q (k : A → M st B) Q' :
  hoare P m Q → (∀ x, hoare (Q x) (k x) Q') → hoare P (bind m k) Q'.
Proof.
  intros Hm Hk s Hs. specialize (Hm s Hs). unfold bind. destruct (m s) as [s' [x|e]]; [by apply Hk|done].
Qed.
Lemma hoare_pre {A} (P P' : st → Prop) (m : M st A) Q : (∀ s, P s → P' s) → hoare P' m Q → hoare P m Q.
Proof. intros HP Hm s Hs. by apply Hm, HP. Qed.
Lemma hoare_post {A} P (m : M st A) (Q Q' : A → st → Prop) :
  (∀ x s, Q x s → Q' x s) → hoare P m Q → hoare P m Q'.
Proof. intros HQ Hm s Hs. specialize (Hm s Hs). destruct (m s) as [s' [x|e]]; auto. Qed.
Lemma hoare_refused {A B} P (m : M st A) Q (f : exn → M st B) (k : A → M st B) Q' :
  (∀ s, P s → match m s with (s', Ok x) => Q x s' | (s', Raise _) => P s' end) → (∀ s, P s → honest s) →
  (∀ e, hoare P (f e) Q') → (∀ x, hoare (Q x) (k x) Q') → hoare P (on_scan_refused m f k) Q'.
Proof.
  intros Hm HP Hf Hk s Hs. specialize (Hm s Hs). unfold on_scan_refused.
  destruct (m s) as [s' [x|[]]]; [by apply Hk|try by apply HP..|by apply Hf].
Qed.
Lemma hoare_runtime {A B} P (m : M st A) Q (f : exn → M st B) (k : A → M st B) Q' :
  (∀ s, P s → match m s with (s', Ok x) => Q x s' | (s', Raise _) => P s' end) → (∀ s, P s → honest s) →
  (∀ e, hoare P (f e) Q') → (∀ x, hoare (Q x) (k x) Q') → hoare P (on_runtime_error m f k) Q'.
Proof.
  intros Hm HP Hf Hk s Hs. specialize (Hm s Hs). unfold on_runtime_error.
  destruct (m s) as [s' [x|e]]; [by apply Hk|]. destruct (is_runtime_error e); [by apply Hf|by apply HP].
Qed.

Lemma copying_honest P rows s : copying P rows s → honest s.
Proof. intros [_ _ _ _ Hs]. unfold honest. by rewrite Hs. Qed.
Lemma copied_honest s : copied_all s → honest s.
Proof. by intros [_ ?]. Qed.

(** Calls that leave the groups as they are. *)
Lemma kept_copying {A} (m : V W A) P rows s :
  (∀ r w, data (m r w).1 = data w) → copying P rows s → copying P rows (RecoveryRunner.view (pass m) s).1.
Proof.
  intros Hm. destruct s as [r [w l]]. specialize (Hm r w). unfold RecoveryRunner.view, pass, unseen. cbn.
  destruct (m r w) as [w' x]. cbn in Hm. intros [Hr Ho Hn Hk Hs].
  split; cbn in *; unfold old, new in *; rewrite ?Hm; done.
Qed.
Lemma hoare_kept {A} (m : V W A) P rows :
  (∀ r w, data (m r w).1 = data w) →
  hoare (copying P rows) (RecoveryRunner.view (pass m))
    (λ x s', copying P rows s' ∧ ∃ r w w', m r w = (w', Ok x) ∧ data w = data s'.2.1).
Proof.
  intros Hm s Hs. pose proof (kept_copying m P rows s Hm Hs) as Hk. destruct s as [r [w l]].
  specialize (Hm r w). unfold RecoveryRunner.view, pass, unseen in *. cbn in *.
  destruct (m r w) as [w' [x|e]] eqn:Hr; cbn in *; [|by eapply copying_honest].
  split; [done|]. by exists r, w, w'.
Qed.
Lemma hoare_kept_simple {A} (m : V W A) P rows :
  (∀ r w, data (m r w).1 = data w) →
  hoare (copying P rows) (RecoveryRunner.view (pass m)) (λ _, copying P rows).
Proof. intros Hm. eapply hoare_post; [|by apply hoare_kept]. by intros x s [? _]. Qed.
Lemma hoare_told {A} (m : V W A) :
  (∀ r w, data (m r w).1 = data w) →
  ∀ s, copied_all s → copied_all (RecoveryRunner.view (pass m) s).1.
Proof.
  intros Hm [r [w l]] [Ht Hh]. specialize (Hm r w). unfold RecoveryRunner.view, pass, unseen. cbn.
  destruct (m r w) as [w' x]. cbn in *. split; cbn; [|done]. unfold told, old, new in *. by rewrite Hm.
Qed.
(** A call that is watched, in a state that may be. *)
Lemma hoare_seen {A} (m : V W A) s :
  copied_all s → honest (RecoveryRunner.view (seen m) s).1 ∧ (RecoveryRunner.view (seen m) s).1.2.2 ≠ [].
Proof.
  destruct s as [r [w l]]. intros [Ht Hh]. unfold RecoveryRunner.view, seen. cbn.
  destruct (m r w) as [w' x]. cbn. split; [|by destruct l]. apply Forall_app. split; [done|by constructor].
Qed.
(** Calls after the last watched one. *)
Lemma hoare_after {A} (m : V W A) (Q : list W → Prop) s :
  Q s.2.2 → Q (RecoveryRunner.view (pass m) s).1.2.2.
Proof.
  destruct s as [r [w l]]. intros HQ. unfold RecoveryRunner.view, pass, unseen. cbn. by destruct (m r w).
Qed.

(** What the runner does to its own state. *)
Lemma hoare_error why P rows :
  hoare (copying P rows) (record_migration_error why) (λ _, copying P rows).
Proof. intros s [Hr Ho Hn Hk Hs]. by split. Qed.
Lemma hoare_stop why P rows :
  hoare (copying P rows) (record_migration_error why;;; ret false) (λ x s, x = false ∧ honest s ∧ s.2.2 = []).
Proof.
  eapply hoare_bind; [apply hoare_error|]. intros u. apply hoare_ret. intros s Hs.
  split_and!; [done|by eapply copying_honest|apply Hs].
Qed.
Lemma hoare_stop_go {Q : st → Prop} why P rows :
  hoare (copying P rows) (record_migration_error why;;; ret false) (λ ok s, if ok : bool then Q s else honest s ∧ s.2.2 = []).
Proof. eapply hoare_post; [|apply hoare_stop]. by intros x s (->&?&?). Qed.
Lemma hoare_update f P P' rows :
  (∀ m, mg_shard_id (f m) = mg_shard_id m ∧ mg_source_nodes (f m) = mg_source_nodes m ∧
        mg_target_nodes (f m) = mg_target_nodes m) → (∀ m, P m → P' (f m)) →
  hoare (copying P rows) (update h f) (λ _, copying P' rows).
Proof.
  intros Hf HP [r w] [(m&Hm&Hi&Hs&Ht&Hp) Ho Hn Hk Hl]. split; [|done..]. exists (f m). cbn in *.
  destruct (Hf m) as (->&->&->). split_and!; [|auto..]. by rewrite list_lookup_alter_eq, Hm.
Qed.
Lemma hoare_object P rows :
  hoare (copying P rows) (object h)
    (λ m s, copying (λ m', m' = m) rows s ∧ mg_shard_id m = i ∧ mg_source_nodes m = source ∧
            mg_target_nodes m = target ∧ P m).
Proof.
  intros s [(m&Hm&?&?&?&?) Ho Hn Hk Hs]. unfold object. rewrite Hm. split_and!; [|done..].
  split; [|done..]. by exists m.
Qed.
Lemma copying_weaken (P P' : MigrationState → Prop) rows s :
  (∀ m, P m → P' m) → copying P rows s → copying P' rows s.
Proof. intros HP [(m&?&?&?&?&?) ? ? ? ?]. split; [|done..]. exists m. auto 10. Qed.

Lemma hoare_wait ns polls P rows :
  hoare (copying P rows) (wait_for_group (C := C) polls i ns)
    (λ o s, copying P rows s ∧ ∀ c, o = Some c → group_of c = (i, ns)).
Proof.
  induction polls as [|n IH]; cbn [wait_for_group];
    (eapply hoare_bind; [apply hoare_kept, kept_client|]); intros [c|].
  1, 3: apply hoare_ret; intros s [Hs (r&w&w'&Hr&_)]; (split; [done|]); intros c' Hc'; simplify_eq;
    by eapply client_found.
  - apply hoare_ret. by intros s [Hs _].
  - eapply hoare_pre; [|apply IH]. by intros s [Hs _].
Qed.

Lemma hoare_range P rows :
  hoare (copying P rows) (range_of (C := C) i) (λ x s, copying P rows s ∧ x = (a, b)).
Proof.
  clear Hpos Hdisjoint HS Ha Hb.
  unfold range_of. eapply hoare_bind; [apply hoare_kept, kept_ranges|]. intros m s [Hs (r&w&w'&Hr&_)].
  rewrite (Hrange _ _ _ _ Hr). done.
Qed.
(** ** The rows are read, and copied *)

Definition read_all (m : MigrationState) : Prop := ∃ vs, rows_of a b base vs ∧ mg_rows m = vs.*1.
Definition at_start (m : MigrationState) : Prop := mg_rows m = [] ∨ read_all m.
(** How a step that may stop the move ends. *)
Definition go (Q : st → Prop) (ok : bool) s : Prop := if ok then Q s else honest s ∧ s.2.2 = [].

Lemma hoare_locks (c : C) x y P rows :
  hoare (copying P rows) (_locks_in_range c x y) (λ _, copying P rows).
Proof.
  unfold _locks_in_range. eapply (hoare_refused (copying P rows) _ (λ _, copying P rows)).
  - intros s Hs. pose proof (kept_copying (λ _, rc_scan c x y) P rows s ltac:(intros; apply kept_scan) Hs) as Hk.
    unfold call. revert Hk. unfold RecoveryRunner.view, pass. destruct s as [r [w l]]. cbn.
    destruct (rc_scan c x y w) as [w' [v|e]]; done.
  - intros s. apply copying_honest.
  - intros e. by apply hoare_ret.
  - intros v. by apply hoare_ret.
Qed.

(** A range read of the source, answered or refused. *)
Lemma hoare_versions (c : C) P rows s :
  group_of c = (i, source) → copying P rows s →
  match call (rc_scan_versions c a b) s with
  | (s', Ok vs) => copying P rows s' ∧ rows_of a b base vs
  | (s', Raise _) => copying P rows s'
  end.
Proof.
  intros Hc Hs. pose proof (kept_copying (λ _, rc_scan_versions c a b) P rows s
    ltac:(intros; apply kept_versions) Hs) as Hk.
  unfold call. revert Hk. unfold RecoveryRunner.view, pass. destruct s as [r [w l]]. cbn.
  destruct (rc_scan_versions c a b w) as [w' [vs|e]] eqn:Hr; cbn; [|done]. split; [done|].
  apply versions_read in Hr. rewrite Hc in Hr. pose proof (cy_old _ _ _ Hs) as Ho. cbn in Ho. unfold old in Ho.
  by rewrite Ho in Hr.
Qed.

Lemma hoare_read_rows (c : C) :
  group_of c = (i, source) →
  hoare (copying at_start []) (read_rows c h) (go (copying read_all [])).
Proof.
  intros Hc. unfold read_rows. eapply hoare_bind; [apply hoare_object|]. intros m s (Hs&Hi&_&_&Hm).
  rewrite Hi. destruct (mg_rows m) as [|p l] eqn:Hl.
  2: { destruct Hm as [Hm|Hm]; [by rewrite Hm in Hl|]. cbn.
       eapply copying_weaken; [|done]. by intros ? ->. }
  revert s Hs. eapply hoare_bind; [apply hoare_range|]. intros x.
  eapply hoare_pre; [intros s Hs; exact (conj (proj2 Hs) (proj1 Hs))|]. intros s [-> Hs]. revert s Hs. cbn [fst snd].
  eapply hoare_bind; [apply hoare_locks|]. intros []; [apply hoare_stop_go|].
  eapply (hoare_refused _ _ (λ vs s, copying (λ m', m' = m) [] s ∧ rows_of a b base vs)).
  - intros s Hs. by apply hoare_versions.
  - intros s. apply copying_honest.
  - intros e. apply hoare_stop_go.
  - intros vs s [Hs Hvs]. revert s Hs.
    eapply hoare_bind; [apply (hoare_update _ _ read_all); [done|]|].
    { intros m' ->. exists vs. done. }
    intros u. by apply hoare_ret.
Qed.

(** Writing one row into the new group. *)
Lemma hoare_move_row (c d : C) k v ts P rows :
  group_of d = (i, target) → no_sep k → in_range a k b = true → current base k (Some (v, ts)) →
  hoare (copying P rows) (_move_row c d k v ts)
    (λ x s, s.2.2 = [] ∧ (ar_success x = true → copying P ((k, v) :: rows) s)).
Proof.
  intros Hd Hk Hr Hc. unfold _move_row.
  eapply hoare_bind; [apply (hoare_kept_simple (λ _, rc_get_write_record c k)); intros; apply kept_record|].
  intros rec. set (o := match rec with Some r => if wr_commit_ts r =? ts then Some (wr_start_ts r) else None | None => None end).
  set (start_ts := match rec with Some _ => _ | None => _ end).
  assert (start_ts = match o with Some sts => PInt sts | None => PNone end) as ->.
  { unfold start_ts, o. destruct rec as [r|]; [|done]. by destruct (wr_commit_ts r =? ts). }
  fold (moved_kwargs k v ts o). intros s Hs. unfold bind, lift, reads.
  destruct (serialize_command CommandType.SET (moved_kwargs k v ts o)) as [cmd|e] eqn:Hcmd; [|by eapply copying_honest].
  destruct s as [r [w l]]. destruct Hs as [Hrec Ho Hn Hrows Hl]. unfold call, RecoveryRunner.view. cbn in *.
  destruct (rc_propose d cmd w) as [w' [x|e]] eqn:Hp; cbn; [|unfold honest; by rewrite Hl].
  split; [done|]. intros Hx. destruct (proposed _ _ _ _ _ Hp Hx) as (Hother&now&Hnew&Hok).
  rewrite Hd in *. rewrite (apply_moved now k v ts o cmd) in Hnew, Hok by done. fold (new w) in Hnew, Hok.
  destruct (apply_op now (OSet k v ts o) (new w)) as [t' res] eqn:Hop. cbn in Hnew, Hok.
  destruct (moved_row _ _ _ _ _ _ _ _ _ _ _ Hn Hc Hop Hok) as (Hcp&Hhas&Hmono). fold (new w') in Hnew.
  split; cbn; [done| | |intros k' v' Hin|done].
  - unfold old. rewrite Hother; [done|congruence].
  - by rewrite Hnew.
  - rewrite Hnew. apply elem_of_cons in Hin as [[= -> ->]|Hin]; [by exists ts|].
    destruct (Hrows k' v' Hin) as (ts'&?&?&?&?). exists ts'. auto.
Qed.

Lemma hoare_copy_loop (c d : C) vs P todo : ∀ rows,
  group_of d = (i, target) → rows_of a b base vs → todo ⊆ vs.*1 → (∀ k m, P m → P (copied k m)) →
  hoare (copying P rows) (copy_move_rows c d h i (versions_of vs) todo)
    (go (copying P (rev todo ++ rows))).
Proof.
  induction todo as [|[k v] todo IH]; intros rows Hd Hvs Hsub HP; cbn [copy_move_rows].
  { by apply hoare_ret. }
  destruct (versions_exact a b base vs k v HS Ha Hb Hvs (Hsub _ ltac:(by left))) as (ts&->&Hk&Hr&Hc).
  assert (todo ⊆ vs.*1) as Hsub' by (intros p Hp; apply Hsub; by right).
  cbn [rev]. rewrite <-app_assoc. cbn [app].
  eapply hoare_bind; [apply (hoare_kept (λ _, rc_get d k)); intros; apply kept_get|].
  intros here s [Hs (r&w&w'&Hg&Hw)]. destruct (Z.eqb_spec (rr_commit_ts here) ts) as [Hts|_].
  - revert s Hs Hw. intros s [Hrec Ho Hn Hrows Hl] Hw. apply (IH ((k, v) :: rows)); [done..|].
    split; [done..| |done]. intros k' v' [[= -> ->]|Hin]%elem_of_cons; [|auto]. exists ts. split_and!; [done..|].
    apply value_read in Hg. rewrite Hd, Hw in Hg. fold (new s.2.1) in Hg.
    assert (0 < ts) as Hpos' by (eapply (Hpos k); [done..|apply Hc]).
    destruct (rr_success here); [|lia]. destruct Hg as (y&Hy&_&Hyts).
    eapply found_row; [done..|]. congruence.
  - revert s Hs Hw. intros s Hs _. revert s Hs.
    eapply hoare_bind; [by apply hoare_move_row|]. intros x s [Hl Hx]. destruct (ar_success x); cbn [negb].
    + revert s Hl Hx. intros s _ Hx. specialize (Hx eq_refl). revert s Hx.
      eapply hoare_bind; [apply (hoare_update _ P P); [done|auto]|]. intros u. by apply IH.
    + cbn. unfold honest. cbn in *. rewrite Hl. done.
Qed.

Lemma hoare_copy_rows (c d : C) :
  group_of c = (i, source) → group_of d = (i, target) →
  hoare (copying read_all []) (_copy_rows c d h) (go copied_all).
Proof.
  intros Hc Hd. unfold _copy_rows. eapply hoare_bind; [apply hoare_object|]. intros m s (Hs&->&_&_&vs0&Hvs0&Hrows).
  revert s Hs. eapply hoare_bind; [apply hoare_range|]. intros x s [Hs ->]. revert s Hs. cbn [fst snd].
  eapply (hoare_refused _ _ (λ vs s, copying (λ m', m' = m) [] s ∧ rows_of a b base vs)).
  - intros s Hs. by apply hoare_versions.
  - intros s. apply copying_honest.
  - intros e. apply hoare_stop_go.
  - intros vs s [Hs Hvs]. assert (vs0 = vs) as ->.
    { unfold rows_of in *. rewrite Hvs in Hvs0. injection Hvs0 as Hm. revert Hm. clear. revert vs0.
      induction vs as [|[[k v] ts] vs IH]; intros [|[[k' v'] ts'] vs0]; cbn; try done.
      intros [= -> -> -> ->%IH]. done. }
    rewrite Hrows. assert (copying (λ _, True) [] s) as Hs' by (eapply copying_weaken; [|done]; done).
    pose proof (hoare_copy_loop c d vs (λ _, True) vs.*1 [] Hd Hvs ltac:(done) ltac:(done) s Hs') as Hl.
    destruct (copy_move_rows _ _ _ _ _ _ s) as [s' [[]|e]]; [|done..]. cbn in *.
    destruct Hl as [_ Ho Hn Hall Hl]. rewrite app_nil_r in Hall. split; [|unfold honest; by rewrite Hl].
    split; [done|]. apply (full_copy a b base _ vs); [done..|]. intros k v Hin.
    destruct (Hall k v) as (ts&?&_&_&?); [by apply list_elem_of_In, in_rev; rewrite rev_involutive; apply list_elem_of_In|]. by exists ts.
Qed.

(** ** The table is asked *)

Lemma told_runtime {A B} (m : M st A) (f : exn → M st B) (k : A → M st B) (Q : B → st → Prop) :
  (∀ s, copied_all s → copied_all (m s).1) → (∀ e, hoare copied_all (f e) Q) →
  (∀ x, hoare copied_all (k x) Q) → hoare copied_all (on_runtime_error m f k) Q.
Proof.
  intros Hm. apply (hoare_runtime copied_all m (λ _, copied_all)); [|apply copied_honest].
  intros s Hs. specialize (Hm s Hs). by destruct (m s) as [s' [x|e]].
Qed.

Lemma told_move old_nodes ad :
  hoare copied_all (RecoveryRunner.view (rv_move_shard (C := C) (W := W * list W) i old_nodes target ad)) (λ _, copied_all).
Proof.
  intros [r [w l]] [Ht Hh]. unfold RecoveryRunner.view. cbn.
  pose proof (kept_move i old_nodes target ad r w) as Hk.
  destruct (rv_move_shard i old_nodes target ad r w) as [w' x]. cbn in Hk.
  assert (copied_all (r, (w', l ++ [w]))) as Hc.
  { split; cbn; [unfold told, old, new in *; by rewrite Hk|].
    apply Forall_app. split; [done|by constructor]. }
  destruct x; [done|by apply copied_honest].
Qed.

Lemma told_attempts n ad why :
  hoare copied_all (propose_attempts (C := C) n i target ad why) (λ _, copied_all).
Proof.
  revert why. induction n as [|n IH]; intros why; cbn [propose_attempts]; [by apply hoare_ret|].
  apply told_runtime; [by apply hoare_told, kept_serving|done|]. intros [ns|]; [|by apply hoare_ret].
  eapply hoare_bind; [apply told_move|]. intros x. destruct (ar_success x); [by apply hoare_ret|].
  case_decide; [by apply hoare_ret|apply IH].
Qed.

Lemma told_kept {A} (m : V W A) :
  (∀ r w, data (m r w).1 = data w) → hoare copied_all (RecoveryRunner.view (pass m)) (λ _, copied_all).
Proof.
  intros Hm s Hs. pose proof (hoare_told m Hm s Hs) as Hk.
  destruct (RecoveryRunner.view (pass m) s) as [s' [x|e]]; [done|by apply copied_honest].
Qed.

Lemma told_propose : hoare copied_all (_propose_move (C := C) i target) (λ _, copied_all).
Proof.
  unfold _propose_move. eapply hoare_bind; [by apply (told_kept rv_metadata_client), kept_table|].
  intros []; [|by apply hoare_ret].
  eapply hoare_bind; [by apply (told_kept (rv_addresses_on i target)), kept_addresses|].
  intros ad. apply told_attempts.
Qed.

(** What is left to say of a run once nothing is watched any more. *)
Definition after (answer : bool) s : Prop := honest s ∧ (answer = true → s.2.2 ≠ []).
Definition over s : Prop := honest s ∧ s.2.2 ≠ [].

Lemma over_view {A} (m : V W A) : hoare over (RecoveryRunner.view (pass m)) (λ _, over).
Proof.
  intros s [Hh Hn]. pose proof (hoare_after m (λ l, Forall told l ∧ l ≠ []) s (conj Hh Hn)) as Hk.
  destruct (RecoveryRunner.view (pass m) s) as [s' [x|e]]; [done|apply Hk].
Qed.
Lemma honest_view {A} (m : V W A) : hoare honest (RecoveryRunner.view (pass m)) (λ _, honest).
Proof.
  intros s Hh. pose proof (hoare_after m (Forall told) s Hh) as Hk.
  by destruct (RecoveryRunner.view (pass m) s) as [s' [x|e]].
Qed.

Lemma over_commit : hoare copied_all (_commit_move (C := C) i target;;; ret true) after.
Proof.
  eapply (hoare_bind _ _ (λ _, over)).
  2: { intros u. apply hoare_ret. intros s [? ?]. by split. }
  unfold _commit_move. eapply (hoare_bind _ _ (λ _, over)).
  { intros s Hs. pose proof (hoare_seen (rv_apply_move_locally i target) s Hs) as [H1' H2'].
    change (rv_apply_move_locally i target) with (seen (rv_apply_move_locally (C := C) (W := W) i target)).
    destruct (RecoveryRunner.view (seen _) s) as [s' [x|e]]; [by split|done]. }
  intros u. eapply (hoare_bind _ _ (λ _, over)); [by intros s|]. intros o.
  eapply (hoare_bind _ _ (λ _, over)); [destruct o; by intros s|]. intros u1.
  eapply hoare_bind; [apply (over_view (rv_forget_note i))|]. intros u2.
  eapply hoare_bind; [apply (over_view (rv_ensure_serving i target))|]. intros closed.
  eapply (hoare_bind _ _ (λ _, over)); [by intros s|]. intros u3. by apply hoare_ret.
Qed.

Lemma honest_abort :
  hoare honest (_abort_move (C := C) h;;; ret false) after.
Proof.
  eapply (hoare_bind _ _ (λ _, honest)).
  2: { intros u. apply hoare_ret. intros s ?. by split. }
  unfold _abort_move. eapply (hoare_bind _ _ (λ _, honest)).
  { intros s Hs. unfold object. by destruct (objects s.1 !! h). }
  intros m. eapply (hoare_bind _ _ (λ _, honest)); [by intros s|]. intros u1.
  eapply hoare_bind; [apply (honest_view (rv_forget_note (mg_shard_id m)))|]. intros u2.
  eapply hoare_bind; [apply (honest_view (rv_unfreeze (mg_shard_id m) (mg_source_nodes m)))|]. intros u3.
  apply (honest_view (rv_close_group_on (mg_shard_id m) (mg_target_nodes m))).
Qed.

Lemma hoare_stop_after why P rows :
  hoare (copying P rows) (record_migration_error why;;; ret false) after.
Proof. eapply hoare_post; [|apply hoare_stop]. intros x s (->&?&_). by split. Qed.

Lemma told_end : hoare copied_all (
    update h (with_phase MigrationPhase.PROPOSING);;;
    let* result := _propose_move (C := C) i target in
    match result.1 with
    | ProposalOutcome.REJECTED => record_migration_error result.2;;; _abort_move (C := C) h;;; ret false
    | ProposalOutcome.UNREACHABLE => record_migration_error result.2;;; ret false
    | ProposalOutcome.OK => _commit_move (C := C) i target;;; ret true
    end) after.
Proof.
  eapply (hoare_bind _ _ (λ _, copied_all)); [by intros s|]. intros u.
  eapply hoare_bind; [apply told_propose|]. intros [[] why]; cbn [fst snd].
  - apply over_commit.
  - eapply (hoare_bind _ _ (λ _, honest)); [|intros u1; apply honest_abort]. by intros s [_ ?].
  - intros s [_ Hh]. by split.
Qed.

Lemma finish_told : hoare (copying at_start []) (finish_move (C := C) patience h) after.
Proof.
  unfold finish_move. eapply hoare_bind; [apply hoare_object|]. intros m s (Hs&->&->&->&Hm).
  assert (copying at_start [] s) as Hs' by (eapply copying_weaken; [|done]; by intros ? ->).
  clear Hs. revert s Hs'. eapply hoare_bind; [apply hoare_wait|]. intros [src|] s [Hs Hc]; revert s Hs;
    [|apply hoare_stop_after]. specialize (Hc src eq_refl).
  eapply hoare_bind; [by apply hoare_read_rows|]. intros []; cbn [negb go]; [|apply hoare_ret; intros s [? _]; by split].
  eapply hoare_bind; [apply (hoare_kept_simple (rv_ensure_group_on i target)), kept_build|]. intros u.
  eapply hoare_bind; [apply hoare_wait|]. intros [dst|] s [Hs Hd]; revert s Hs;
    [|apply hoare_stop_after]. specialize (Hd dst eq_refl).
  eapply hoare_bind; [by apply (hoare_update _ read_all read_all)|]. intros u1.
  eapply hoare_bind; [by apply hoare_copy_rows|]. intros []; cbn [negb go];
    [apply told_end|apply hoare_ret; intros s [? _]; by split].
Qed.
End copy.

(** C25: The table is told after the copy.  Take a move that starts with no rows read yet, from
    one group to another, whose source is a sound machine that nobody but the move writes
    to, and whose target is empty or holds a part of the source's newest rows, as an earlier
    attempt leaves it.  It may stop at any point for any answer of the side it runs on; but in
    every state in which it asks the routing table to name the new group, or takes the new
    group as this side's own answer, the source is as it was and the new group answers every
    read without a timestamp of a key of the shard's range with the value and the version
    the source answers with - so no row is missing, none is older, and no deleted row is
    back.  A yes means there was such a state.  Reads at an older timestamp are not covered:
    only the newest versions are copied. *)
Theorem table_is_told_after_the_copy {E W C} `{RowGroups E W C} patience i source target h a b m
    (r r' : RecoveryState.t) (w w' : W) l answer :
  objects r !! h = Some m → mg_shard_id m = i → mg_source_nodes m = source → mg_target_nodes m = target →
  mg_rows m = [] → source ≠ target → no_sep a → no_sep b →
  (∀ r w w' ranges, rv_range_map (C := C) r w = (w', Ok ranges) → d_get ranges i = Some (a, b)) →
  sound (data w (i, source)) →
  (∀ k ts o, no_sep k → in_range a k b = true → hist (_storage (data w (i, source))) k ts = Some o → 0 < ts) →
  copy_of a b (data w (i, source)) (data w (i, target)) →
  finish_move (C := C) patience h (r, (w, [])) = ((r', (w', l)), answer) →
  (∀ u, u ∈ l → data u (i, source) = data w (i, source) ∧
     alike a b (data u (i, source)) (data u (i, target))) ∧
  (answer = Ok true → l ≠ []).
Proof.
  intros Hm Hi Hs Ht Hrows Hne Ha Hb Hr Hsound Hpos Hcopy Hrun.
  assert (copying i source target h a b (data w (i, source)) (at_start a b (data w (i, source))) [] (r, (w, []))) as Hc.
  { split; cbn; [|done|done|by intros ?? []%elem_of_nil|done]. exists m. split_and!; [done..|]. by left. }
  pose proof (finish_told patience i source target h a b _ Hne Hsound Ha Hb Hpos Hr _ Hc) as Hf.
  rewrite Hrun in Hf. assert (Hall : honest i source target a b (data w (i, source)) (r', (w', l))).
  { destruct answer; [apply Hf|done]. }
  split.
  - intros u Hu. unfold honest in Hall. rewrite list.Forall_forall in Hall. destruct (Hall u Hu) as [Ho Hal].
    unfold old in Ho. by rewrite Ho.
  - intros ->. destruct Hf as [_ Hf]. by apply Hf.
Qed.
