(* ===== verification/RecoveryDesk.v ===== *)
(** A side small enough to run a recovery on: it has one shard, of the keys from [a] to
    [z], each group is one replicated machine, the table takes every proposal, and a group
    can be told to refuse writes, as one that has lost its leader does.

    It is a test environment for the runner and translates no code.  On it, a split whose new group refuses a row is published all the same. *)

From Stdlib Require Import ZArith Lia.
From S2P Require Import Prelude Bytes PyVal PyOps Engine Mvcc StateMachine StateMachineFacts Dict Router Metadata MetadataClient Publisher RaftStorage RecoveryNotes Recovery RecoveryCopy.
Import RecoveryState RecoveryRunner.

#[local] Existing Instances reference_codec MemoryEngine.engine MemoryEngine.laws.

Abbreviation machine := (MVCCStateMachine.t MemoryEngine.t).

Record desk := {
  machines : group → machine;
  refuses : group → bool;
  names : list Z;
  splits : list (Z * bytes * Z)
}.
Definition set_machine (g : group) (m : machine) (d : desk) : desk :=
  {| machines g' := if decide (g' = g) then m else machines d g'; refuses := refuses d;
     names := names d; splits := splits d |}.
Definition took_split (s : Z * bytes * Z) (d : desk) : desk :=
  {| machines := machines d; refuses := refuses d; names := names d;
     splits := splits d ++ [s] |}.
Definition took_move (ns : list Z) (d : desk) : desk :=
  {| machines := machines d; refuses := refuses d; names := ns; splits := splits d |}.

(** A range read's rows, whose values are bytes. *)
Fixpoint bytes_rows (rows : list (bytes * pyval * Z)) : result (list (bytes * bytes * Z)) :=
  match rows with
  | [] => Ok []
  | (k, PBytes v, ts) :: rows => let? rest := bytes_rows rows in Ok ((k, v, ts) :: rest)
  | _ => Raise TypeError
  end.
Definition rows_in (d : desk) (g : group) (a b : bytes) : result (list (bytes * bytes * Z)) :=
  let? rows := MVCCStateMachine.scan_versions (machines d g) a b None in bytes_rows rows.

#[global] Instance desk_view : RecoveryView desk group := {|
  rv_shard_ids _ := ret [0];
  rv_node_ids _ := ret [1; 2];
  rv_range_map _ := ret [(0, (b_ "a", b_ "z"))];
  rv_pending_notes _ _ := ret [];
  rv_remember_note _ _ := ret tt;
  rv_forget_note _ _ := ret tt;
  rv_serving_nodes _ _ := reads (λ d, Ok (Some (names d)));
  rv_shard_replica_ids _ _ := ret [1; 2];
  rv_addresses_on _ _ _ := ret ∅;
  rv_leader_client i _ := ret (Some (i, [1; 2]));
  rv_leader_client_for_nodes i ns _ := ret (Some (i, ns));
  rv_freeze _ _ _ _ := ret tt;
  rv_unfreeze _ _ _ := ret tt;
  rv_ensure_serving _ _ _ := ret [];
  rv_ensure_group_on _ _ _ := ret tt;
  rv_close_group_on _ _ _ := ret [];
  rv_apply_split_locally _ _ _ _ := ret tt;
  rv_apply_move_locally _ _ _ := ret tt;
  rv_metadata_client _ := ret true;
  rv_split_shard i k j _ _ _ := λ d, (took_split (i, k, j) d, Ok (apply_success None));
  rv_move_shard _ _ ns _ _ := λ d, (took_move ns d, Ok (apply_success None)) |}.

#[global] Instance desk_calls : RowCalls desk group := {|
  rc_scan g a b := reads (λ d, let? rows := rows_in d g a b in Ok rows.*1);
  rc_scan_versions g a b := reads (λ d, rows_in d g a b);
  rc_get g k := reads (λ d, MVCCStateMachine.get (machines d g) k None);
  rc_get_write_record g k := reads (λ d, MVCCStateMachine.get_write_record (machines d g) k);
  rc_propose g b := λ d,
    if refuses d g then (d, Ok (apply_failure ErrorCode.ERR_NOT_LEADER))
    else let '(m, r) := MVCCStateMachine.apply 0 b (machines d g) in (set_machine g m d, Ok r) |}.

Lemma bytes_rows_Ok rows vs :
  bytes_rows rows = Ok vs → rows = map (λ r : bytes * bytes * Z, (r.1.1, PBytes r.1.2, r.2)) vs.
Proof.
  revert vs. induction rows as [|[[k v] ts] rows IH]; intros vs; cbn; [by intros [= <-]|].
  destruct v; try done. intros (rest&Hr&[= <-])%rbind_Ok. cbn. by rewrite (IH rest).
Qed.

#[global] Instance desk_groups : RowGroups MemoryEngine.t desk group.
Proof.
  refine {| group_of g := g; data := machines |}; try done.
  - by intros i ns r w w' c [= _ ->].
  - intros c a b w w' rows [= <- Hr]. apply rbind_Ok in Hr as (vs&Hs&Hb). rewrite Hs. f_equal.
    by apply bytes_rows_Ok.
  - intros c k w w' x [= <- Hx]. destruct (rr_success x) eqn:Hs; [by exists x|].
    revert Hx Hs. unfold MVCCStateMachine.get. cbn. intros (l&_&Hx)%rbind_Ok.
    assert (Hread : ∀ s t, (let? version := MVCCStorage.get_version s k t in
      match version with None => Ok (read_success PNone 0)
      | Some r => Ok (read_success (PBytes (mr_value r)) (mr_timestamp r)) end) = Ok x → rr_success x = true).
    { intros s t (v&_&Hv)%rbind_Ok. destruct v; by injection Hv as <-. }
    destruct l as [l|]; [by injection Hx as <-|]. by rewrite (Hread _ _ Hx).
  - intros c b w w' x. cbn. destruct (refuses w c); [by intros [= <- <-]|].
    destruct (MVCCStateMachine.apply 0 b (machines w c)) as [m r] eqn:Hm. intros [= <- <-] Hs. split.
    + intros g Hg. cbn. by rewrite decide_False.
    + exists 0. rewrite Hm. cbn. by rewrite decide_True.
Defined.

(** ** A row the new group refuses *)

Module RefusedRow.

(** Shard 0 holds one row, at key [m] and version 5; it is being split at [k], and the group
    of the new shard refuses writes. *)
Definition empty : machine :=
  {| MVCCStateMachine._storage := MemoryEngine.init; MVCCStateMachine._last_applied_timestamp := 0 |}.
Definition holding_m : machine := (apply_op 0 (OSet (b_ "m") (b_ "v") 5 None) empty).1.
Definition start : desk :=
  {| machines g := if decide (g = (0, [1; 2])) then holding_m else empty;
     refuses g := bool_decide (g = (1, [1; 2])); names := [1; 2]; splits := [] |}.
Definition pending : PendingSplit :=
  {| ps_shard_id := 0; ps_split_key := b_ "k"; ps_new_shard_id := 1; ps_rows := [] |}.

(** The note is picked up. *)
Definition run := _resume_split (C := group) 0 0 (with_splits [(0, pending)] init, start).

(** A split is published without a row its new shard refused.  The old shard holds a row
    above the split point; the new shard's group refuses the write of it; the recovery
    answers that the split is done, the table has been told that the new shard owns the
    keys from the split point on, and a read of the row there finds nothing. *)
Theorem refused_row_is_published :
  MVCCStateMachine.get (machines start (0, [1; 2])) (b_ "m") None = Ok (read_success (PBytes (b_ "v")) 5) ∧
  run.2 = Ok true ∧ splits run.1.2 = [(0, b_ "k", 1)] ∧
  MVCCStateMachine.get (machines run.1.2 (1, [1; 2])) (b_ "m") None = Ok (read_success PNone 0).
Proof. vm_compute. done. Qed.
End RefusedRow.
