(* ===== verification/ShardServer.v ===== *)
(** A node's shards: [ShardServer] of [raft/shard_server.py].

    The Raft nodes are objects that the servers, the handles of clients and the cluster share,
    so they live in a store and are passed by their handles; a node that was closed stays in
    the store, as an object that is still referenced does.  [ServerWorld] is what is outside
    the object: the factories it was given, the ports and directories of the machine, the
    clock, and the other threads of the nodes. *)

From Stdlib Require Import ZArith Lia.
From S2P Require Import Prelude Bytes PyVal PyOps Engine Mvcc StateMachine Dict Router RaftStorage RaftNode.

(** [sorted(set(l))]. *)
Definition sorted_set (l : list Z) : list Z := merge_sort Z.le (remove_dups l).

(** [s.split(":")]. *)
Fixpoint split_colon (s : string) : list string :=
  match s with
  | EmptyString => [EmptyString]
  | String c s =>
      match split_colon s with
      | [] => [String c EmptyString]
      | part :: parts =>
          if Nat.eqb (Ascii.nat_of_ascii c) 58 then EmptyString :: part :: parts else String c part :: parts
      end
  end.

(** The defaults of [MemoryRaftNode]. *)
Definition snapshot_interval : Z := 100.
Definition APPLY_RESULTS_WINDOW : Z := 1024.
Definition SHARD_SEGMENT : Z := 1000.

Class ServerWorld (W S R : Type) := {
  (** [state_machine_factory()] and, if there is one, [storage_factory(node_id, shard_id)]. *)
  sw_state_machine : M W S;
  sw_storage : option (Z → Z → M W R);
  (** A server is started at an address. *)
  sw_listen : string → M W unit;
  (** [storage.close()], [storage.data_dir]. *)
  sw_close : R → M W unit;
  sw_data_dir : R → option string;
  (** [os.path.isdir], [os.path.exists], [os.rename], and the path of a name beside a
      directory; [int(time.time())]. *)
  sw_isdir : string → M W bool;
  sw_exists : string → M W bool;
  sw_rename : string → string → M W unit;
  sw_sibling : string → string → string;
  sw_time : M W Z;
  (** What the threads of the nodes do to the nodes while this one waits, and what a round
      to a peer brings back to a node that asks. *)
  sw_others : list (MemoryRaftNode.t S R) → W → list (MemoryRaftNode.t S R) * W;
  sw_round : nat → W → Z → MemoryRaftNode.t S R → MemoryRaftNode.t S R * option (bool * Z)
}.

(** ** The store of nodes *)

Section heap.
Context {W S R : Type} `{ServerWorld W S R} `{!RaftNode.StateMachine S} `{!RaftStorage R} `{!Msgpack}.
Abbreviation node := (MemoryRaftNode.t S R).
Abbreviation heap := (list node * W)%type.

Definition outside {A} (m : M W A) : M heap A := λ hw, let '(w, a) := m hw.2 in ((hw.1, w), a).
Definition on_node {A} (h : nat) (m : M node A) : M heap A := λ hw,
  match hw.1 !! h with
  | None => (hw, Raise AttributeError)
  | Some n => let '(n', a) := m n in ((<[h := n']> hw.1, hw.2), a)
  end.
Definition node_of (h : nat) : M heap node := λ hw,
  match hw.1 !! h with Some n => (hw, Ok n) | None => (hw, Raise AttributeError) end.
Definition others : M heap unit := λ hw, (sw_others hw.1 hw.2, Ok tt).

(** [MemoryRaftNode(...)]. *)
Definition new_node (node_id : Z) (peers : list Z) (state_machine : S) (storage : option R) : M heap nat := λ hw,
  match MemoryRaftNode._load_from_storage
          (MemoryRaftNode.init node_id peers state_machine storage snapshot_interval APPLY_RESULTS_WINDOW) with
  | (n, Ok _) => ((hw.1 ++ [n], hw.2), Ok (length hw.1))
  | (_, Raise e) => (hw, Raise e)
  end.

(** [node._read_index()]. *)
Definition read_index (h : nat) : M heap (option Z) := λ hw,
  on_node h (MemoryRaftNode._read_index (sw_round h hw.2)) hw.

(** [node.wait_for_writes_to_drain()], which looks again [polls] times. *)
Fixpoint wait_for_writes_to_drain (polls : nat) (h : nat) : M heap bool :=
  let* n := node_of h in
  if MemoryRaftNode.writes_drained n then ret true
  else match polls with O => ret false | Datatypes.S polls => others;;; wait_for_writes_to_drain polls h end.
End heap.
Arguments outside {W S R A} m.

Module ShardServer.

Record t := {
  _node_id : Z;
  _num_shards : Z;
  _total_nodes : Z;
  _shards : gmap Z nat;
  _shard_peers : gmap Z (list Z);
  _range_map : RangeMap;
  _shard_addresses : gmap Z string;
  _shard_members : gmap Z (list Z);
  (** Whether [_state_machine_factory] was set. *)
  _started : bool;
  _peer_addresses : option (gmap Z string);
  _base_address : option string
}.
Definition _base_port : Z := 50051.

Definition init (node_id num_shards total_nodes : Z) : t :=
  {| _node_id := node_id; _num_shards := num_shards; _total_nodes := total_nodes; _shards := ∅;
     _shard_peers := ∅; _range_map := []; _shard_addresses := ∅; _shard_members := ∅;
     _started := false; _peer_addresses := None; _base_address := None |}.

Definition set_range_map (range_map : RangeMap) (s : t) : t :=
  {| _node_id := _node_id s; _num_shards := _num_shards s; _total_nodes := _total_nodes s;
     _shards := _shards s; _shard_peers := _shard_peers s; _range_map := range_map;
     _shard_addresses := _shard_addresses s; _shard_members := _shard_members s;
     _started := _started s; _peer_addresses := _peer_addresses s; _base_address := _base_address s |}.
Definition set_members (m : gmap Z (list Z)) (s : t) : t :=
  {| _node_id := _node_id s; _num_shards := _num_shards s; _total_nodes := _total_nodes s;
     _shards := _shards s; _shard_peers := _shard_peers s; _range_map := _range_map s;
     _shard_addresses := _shard_addresses s; _shard_members := m;
     _started := _started s; _peer_addresses := _peer_addresses s; _base_address := _base_address s |}.
Definition set_addresses (m : gmap Z string) (s : t) : t :=
  {| _node_id := _node_id s; _num_shards := _num_shards s; _total_nodes := _total_nodes s;
     _shards := _shards s; _shard_peers := _shard_peers s; _range_map := _range_map s;
     _shard_addresses := m; _shard_members := _shard_members s;
     _started := _started s; _peer_addresses := _peer_addresses s; _base_address := _base_address s |}.
(** [self._shards[shard_id] = node] and the two lines after it. *)
Definition hold_shard (shard_id : Z) (node : nat) (peers : list Z) (s : t) : t :=
  {| _node_id := _node_id s; _num_shards := Z.max (_num_shards s) (shard_id + 1);
     _total_nodes := _total_nodes s; _shards := <[shard_id := node]> (_shards s);
     _shard_peers := <[shard_id := peers]> (_shard_peers s); _range_map := _range_map s;
     _shard_addresses := _shard_addresses s; _shard_members := _shard_members s;
     _started := _started s; _peer_addresses := _peer_addresses s; _base_address := _base_address s |}.
Definition drop_shard (shard_id : Z) (s : t) : t :=
  {| _node_id := _node_id s; _num_shards := _num_shards s; _total_nodes := _total_nodes s;
     _shards := delete shard_id (_shards s); _shard_peers := delete shard_id (_shard_peers s);
     _range_map := _range_map s; _shard_addresses := delete shard_id (_shard_addresses s);
     _shard_members := _shard_members s; _started := _started s;
     _peer_addresses := _peer_addresses s; _base_address := _base_address s |}.

Definition _get_shard_id (key : bytes) (s : t) : Z := locate (_range_map s) key.

(** *** Ports and addresses *)

Definition _shard_port_of (base_address : string) (shard_id : Z) : result Z :=
  match split_colon base_address with
  | _ :: port :: _ => let? p := py_int (PStr port) in Ok (p + shard_id)
  | _ => Raise IndexError
  end.
Definition _get_shard_port (shard_id : Z) (s : t) : result Z :=
  match _base_address s with
  | None => Ok (_base_port + _node_id s * SHARD_SEGMENT + shard_id)
  | Some base_address => _shard_port_of base_address shard_id
  end.
(** [host, _ = address.split(":")]. *)
Definition host_of (address : string) : result string :=
  match split_colon address with [host; _] => Ok host | _ => Raise ValueError end.
Definition _peer_address (base_address : string) (shard_id : Z) : result string :=
  let? host := host_of base_address in
  let? port := _shard_port_of base_address shard_id in
  Ok (String.append host (String.append ":" (str_of_Z port))).
Definition _shard_address_for (shard_id : Z) (s : t) : result (option string) :=
  match _base_address s with
  | None => Ok None
  | Some base_address =>
      let? host := host_of base_address in
      let? port := _get_shard_port shard_id s in
      Ok (Some (String.append host (String.append ":" (str_of_Z port))))
  end.

(** *** Members *)

Definition _get_peer_nodes (shard_id : Z) (s : t) : list Z :=
  let members := match _shard_members s !! shard_id with
                 | Some m => m
                 | None => seqZ 1 (_total_nodes s)
                 end in
  filter (λ n, n ≠ _node_id s) members.
Definition shard_replica_ids (shard_id : Z) (s : t) : list Z :=
  merge_sort Z.le (_node_id s :: default [] (_shard_peers s !! shard_id)).
Definition shard_address (shard_id : Z) (s : t) : option string := _shard_addresses s !! shard_id.
Definition _serves (shard_id : Z) (s : t) : bool :=
  match _shard_members s !! shard_id with
  | None => true
  | Some members => bool_decide (_node_id s ∈ members)
  end.
Definition get_shard_node (shard_id : Z) (s : t) : option nat := _shards s !! shard_id.
Definition get_shard_for_key (key : bytes) (s : t) : option nat := _shards s !! _get_shard_id key s.

Section server.
Context {W S R : Type} `{ServerWorld W S R} `{!RaftNode.StateMachine S} `{!RaftStorage R} `{!Msgpack}.
Abbreviation node := (MemoryRaftNode.t S R).
Abbreviation st := (t * (list node * W))%type.

Definition read {A} (f : t → A) : M st A := λ s, (s, Ok (f s.1)).
Definition lift {A} (f : t → result A) : M st A := λ s, (s, f s.1).
Definition change (f : t → t) : M st unit := λ s, ((f s.1, s.2), Ok tt).
Definition below {A} (m : M (list node * W) A) : M st A := λ s, let '(h, a) := m s.2 in ((s.1, h), a).

Definition leader_address (shard_id : Z) : M st (option string) :=
  let* addresses := read _peer_addresses in
  match addresses with
  | None => ret None
  | Some addresses =>
      let* held := read (get_shard_node shard_id) in
      match held with
      | None => ret None
      | Some h =>
          let* n := below (node_of h) in
          let* me := read _node_id in
          match MemoryRaftNode._leader_id n with
          | None => ret None
          | Some leader_id =>
              if leader_id =? me then ret None
              else match addresses !! leader_id with
                   | None => ret None
                   | Some base_address =>
                       let* address := lift (λ _, _peer_address base_address shard_id) in ret (Some address)
                   end
          end
      end
  end.

Definition get_leader_shard_for_key (key : bytes) : M st (option nat) :=
  let* held := read (get_shard_for_key key) in
  match held with
  | None => ret None
  | Some h =>
      let* n := below (node_of h) in
      ret (if decide (MemoryRaftNode._state n = LEADER) then Some h else None)
  end.

(** The addresses of the peers, for the client a networked node sends through. *)
Fixpoint peer_addresses_of (addresses : gmap Z string) (shard_id : Z) (peers : list Z) : result unit :=
  match peers with
  | [] => Ok tt
  | p :: peers =>
      match addresses !! p with
      | None => Raise KeyError
      | Some a => let? _ := _peer_address a shard_id in peer_addresses_of addresses shard_id peers
      end
  end.

Definition add_shard (shard_id : Z) (members : option (list Z)) : M st nat :=
  let* started := read _started in
  if negb started then raise RuntimeError else
  match members with
  | Some m => change (λ s, set_members (<[shard_id := sorted_set m]> (_shard_members s)) s)
  | None => ret tt
  end;;;
  let* me := read _node_id in
  let* storage := match sw_storage with
                  | None => ret None
                  | Some factory => let* r := below (outside (factory me shard_id)) in ret (Some r)
                  end in
  let* peers := read (_get_peer_nodes shard_id) in
  let* addresses := read _peer_addresses in
  lift (λ _, match addresses with
             | Some addresses => peer_addresses_of addresses shard_id peers
             | None => Ok tt
             end);;;
  let* state_machine := below (outside sw_state_machine) in
  let* h := below (new_node me peers state_machine storage) in
  change (hold_shard shard_id h peers);;;
  let* address := lift (_shard_address_for shard_id) in
  match address with
  | Some a =>
      below (outside (sw_listen a));;;
      change (λ s, set_addresses (<[shard_id := a]> (_shard_addresses s)) s)
  | None => ret tt
  end;;;
  ret h.

Fixpoint start_loop (ids : list Z) : M st unit :=
  match ids with
  | [] => ret tt
  | shard_id :: ids =>
      let* serves := read (_serves shard_id) in
      (if (serves : bool) then add_shard shard_id None;;; ret tt else ret tt);;;
      start_loop ids
  end.

Definition start_shards (peer_addresses : option (gmap Z string)) (shard_nodes : gmap Z (list Z)) : M st unit :=
  change (λ s, {| _node_id := _node_id s; _num_shards := _num_shards s; _total_nodes := _total_nodes s;
     _shards := _shards s; _shard_peers := _shard_peers s; _range_map := _range_map s;
     _shard_addresses := _shard_addresses s;
     _shard_members := if decide (shard_nodes = ∅) then _shard_members s else sorted_set <$> shard_nodes;
     _started := true; _peer_addresses := peer_addresses; _base_address := _base_address s |});;;
  match peer_addresses with
  | None => ret tt
  | Some addresses =>
      let* me := read _node_id in
      match addresses !! me with
      | None => raise KeyError
      | Some a => change (λ s, {| _node_id := _node_id s; _num_shards := _num_shards s;
          _total_nodes := _total_nodes s; _shards := _shards s; _shard_peers := _shard_peers s;
          _range_map := _range_map s; _shard_addresses := _shard_addresses s;
          _shard_members := _shard_members s; _started := _started s;
          _peer_addresses := _peer_addresses s; _base_address := Some a |})
      end
  end;;;
  let* n := read _num_shards in
  start_loop (seqZ 0 n).

Definition shutdown_shard (shard_id : Z) : M st bool :=
  let* held := read (get_shard_node shard_id) in
  match held with
  | None => ret false
  | Some h =>
      change (drop_shard shard_id);;;
      below (on_node h MemoryRaftNode.shutdown);;;
      let* n := below (node_of h) in
      match MemoryRaftNode._storage n with
      | Some r => below (outside (sw_close r))
      | None => ret tt
      end;;;
      ret true
  end.

Fixpoint shutdown_nodes (hs : list nat) : M st unit :=
  match hs with
  | [] => ret tt
  | h :: hs => below (on_node h MemoryRaftNode.shutdown);;; shutdown_nodes hs
  end.
Definition shutdown : M st unit :=
  let* hs := read (λ s, (map_to_list (_shards s)).*2) in shutdown_nodes hs.
End server.
End ShardServer.
