(* ===== verification/ShardedCluster.v ===== *)
(** The cluster object: [ShardedRaftCluster] of [raft/shard_server.py], and the side it is to
    the recovery it runs.

    Its state is the object's own record, the store of nodes and the world outside
    ([ShardServer.v]); what the recovery's runner keeps is read and not written by the calls
    the runner makes, which have the shape of a [RecoveryView].  A split and a move are begun
    here and finished by the runner. *)

From Stdlib Require Import ZArith Lia.
From S2P Require Import Prelude Bytes PyVal PyOps Engine Mvcc StateMachine Dict Router Metadata MetadataClient RaftStorage RaftNode Routing RoutingCache Publisher RecoveryNotes Recovery ShardServer.
Import RecoveryState.

(** The table's client, as far as the cluster uses it. *)
Class ClusterTable (W : Type) := {
  (** [client.table(refresh=True)]. *)
  ct_table : M W RoutingTable;
  ct_split_shard : Z → bytes → Z → list Z → gmap Z string → M W ApplyResult;
  ct_move_shard : Z → list Z → list Z → gmap Z string → M W ApplyResult
}.

Module ShardedRaftCluster.

Record t := {
  _num_nodes : Z;
  _num_shards : Z;
  _shard_servers : list (Z * ShardServer.t);
  _range_map : RangeMap;
  (** Whether there is a client of the table. *)
  _metadata_client : bool;
  _metadata_publisher : option MetadataPublisher.t;
  _placed_shards : gmap Z (list Z);
  _orphan_dirs : list string;
  _node_clients : LocalNodeClientFactory.t (N := nat);
  _leaders : ShardLeaders.t
}.
Definition init (num_nodes num_shards : Z) : t :=
  {| _num_nodes := num_nodes; _num_shards := num_shards; _shard_servers := [];
     _range_map := default_range_map num_shards; _metadata_client := false;
     _metadata_publisher := None; _placed_shards := ∅; _orphan_dirs := [];
     _node_clients := LocalNodeClientFactory.init; _leaders := ShardLeaders.init false |}.

Definition set_servers (d : list (Z * ShardServer.t)) (c : t) : t :=
  {| _num_nodes := _num_nodes c; _num_shards := _num_shards c; _shard_servers := d;
     _range_map := _range_map c; _metadata_client := _metadata_client c;
     _metadata_publisher := _metadata_publisher c; _placed_shards := _placed_shards c;
     _orphan_dirs := _orphan_dirs c; _node_clients := _node_clients c; _leaders := _leaders c |}.
Definition set_num_shards (n : Z) (c : t) : t :=
  {| _num_nodes := _num_nodes c; _num_shards := n; _shard_servers := _shard_servers c;
     _range_map := _range_map c; _metadata_client := _metadata_client c;
     _metadata_publisher := _metadata_publisher c; _placed_shards := _placed_shards c;
     _orphan_dirs := _orphan_dirs c; _node_clients := _node_clients c; _leaders := _leaders c |}.
Definition set_placed (m : gmap Z (list Z)) (c : t) : t :=
  {| _num_nodes := _num_nodes c; _num_shards := _num_shards c; _shard_servers := _shard_servers c;
     _range_map := _range_map c; _metadata_client := _metadata_client c;
     _metadata_publisher := _metadata_publisher c; _placed_shards := m;
     _orphan_dirs := _orphan_dirs c; _node_clients := _node_clients c; _leaders := _leaders c |}.
Definition set_publisher (p : option MetadataPublisher.t) (c : t) : t :=
  {| _num_nodes := _num_nodes c; _num_shards := _num_shards c; _shard_servers := _shard_servers c;
     _range_map := _range_map c; _metadata_client := _metadata_client c;
     _metadata_publisher := p; _placed_shards := _placed_shards c;
     _orphan_dirs := _orphan_dirs c; _node_clients := _node_clients c; _leaders := _leaders c |}.
Definition set_client (b : bool) (c : t) : t :=
  {| _num_nodes := _num_nodes c; _num_shards := _num_shards c; _shard_servers := _shard_servers c;
     _range_map := _range_map c; _metadata_client := b;
     _metadata_publisher := _metadata_publisher c; _placed_shards := _placed_shards c;
     _orphan_dirs := _orphan_dirs c; _node_clients := _node_clients c; _leaders := _leaders c |}.
Definition add_orphan (d : string) (c : t) : t :=
  {| _num_nodes := _num_nodes c; _num_shards := _num_shards c; _shard_servers := _shard_servers c;
     _range_map := _range_map c; _metadata_client := _metadata_client c;
     _metadata_publisher := _metadata_publisher c; _placed_shards := _placed_shards c;
     _orphan_dirs := _orphan_dirs c ++ [d]; _node_clients := _node_clients c; _leaders := _leaders c |}.
Definition set_handles (f : LocalNodeClientFactory.t (N := nat)) (c : t) : t :=
  {| _num_nodes := _num_nodes c; _num_shards := _num_shards c; _shard_servers := _shard_servers c;
     _range_map := _range_map c; _metadata_client := _metadata_client c;
     _metadata_publisher := _metadata_publisher c; _placed_shards := _placed_shards c;
     _orphan_dirs := _orphan_dirs c; _node_clients := f; _leaders := _leaders c |}.
Definition set_leaders (l : ShardLeaders.t) (c : t) : t :=
  {| _num_nodes := _num_nodes c; _num_shards := _num_shards c; _shard_servers := _shard_servers c;
     _range_map := _range_map c; _metadata_client := _metadata_client c;
     _metadata_publisher := _metadata_publisher c; _placed_shards := _placed_shards c;
     _orphan_dirs := _orphan_dirs c; _node_clients := _node_clients c; _leaders := l |}.

(** [self._range_map = range_map] and the same on every server. *)
Definition update_range_map (range_map : RangeMap) (c : t) : t :=
  {| _num_nodes := _num_nodes c; _num_shards := _num_shards c;
     _shard_servers := prod_map id (ShardServer.set_range_map range_map) <$> _shard_servers c;
     _range_map := range_map; _metadata_client := _metadata_client c;
     _metadata_publisher := _metadata_publisher c; _placed_shards := _placed_shards c;
     _orphan_dirs := _orphan_dirs c; _node_clients := _node_clients c; _leaders := _leaders c |}.

Definition get_shard_server (node_id : Z) (c : t) : option ShardServer.t := d_get (_shard_servers c) node_id.
Definition range_map (c : t) : RangeMap := _range_map c.
Definition shard_ids (c : t) : list Z := merge_sort Z.le (_range_map c).*1.
Definition node_ids (c : t) : list Z := merge_sort Z.le (_shard_servers c).*1.
Definition orphan_dirs (c : t) : list string := _orphan_dirs c.
Definition _remember_placement (shard_nodes : gmap Z (list Z)) (c : t) : t :=
  if decide (shard_nodes = ∅) then c else set_placed (sorted_set <$> shard_nodes) c.
(** [server.get_shard_node(shard_id)] of the server of a node, if there is one. *)
Definition held_by (node_id shard_id : Z) (c : t) : option nat :=
  match get_shard_server node_id c with
  | Some s => ShardServer.get_shard_node shard_id s
  | None => None
  end.
Definition _get_peer_shard_node (shard_id peer_id : Z) (c : t) : option nat := held_by peer_id shard_id c.

(** The move of a shard that has not been told of yet. *)
Definition still_moving (r : RecoveryState.t) (shard_id : Z) : option MigrationState :=
  match _migrations r !! shard_id with
  | Some h => match objects r !! h with
              | Some m => match mg_phase m with MigrationPhase.DONE => None | _ => Some m end
              | None => None
              end
  | None => None
  end.
Definition _serving_nodes (r : RecoveryState.t) (shard_id : Z) (c : t) : list Z :=
  match still_moving r shard_id with
  | Some m => mg_source_nodes m
  | None => match _placed_shards c !! shard_id with Some l => l | None => node_ids c end
  end.
(** The replicas of a shard: all of them, or the ones on some nodes. *)
Definition _shard_nodes (shard_id : Z) (c : t) : list nat :=
  omap (λ e, ShardServer.get_shard_node shard_id e.2) (_shard_servers c).
Definition _nodes_on (nodes : list Z) (shard_id : Z) (c : t) : list nat :=
  omap (λ n, held_by n shard_id c) nodes.
Definition replicas (node_ids : option (list Z)) (shard_id : Z) (c : t) : list nat :=
  match node_ids with None => _shard_nodes shard_id c | Some nodes => _nodes_on nodes shard_id c end.

Section cluster.
Context {E W R : Type} `{Engine E}.
Abbreviation machine := (MVCCStateMachine.t E * list Z)%type.
Context `{!ServerWorld W machine R} `{!RaftStorage R} `{!Msgpack} `{!RaftNode.StateMachine machine} `{!ClusterTable W}.
(** How often a wait looks again. *)
Context (patience : nat).
Abbreviation node := (MemoryRaftNode.t machine R).
Abbreviation heap := (list node * W)%type.
Abbreviation st := (t * heap)%type.

Definition read {A} (f : t → A) : M st A := λ s, (s, Ok (f s.1)).
Definition change (f : t → t) : M st unit := λ s, ((f s.1, s.2), Ok tt).
Definition below {A} (m : M heap A) : M st A := λ s, let '(h, a) := m s.2 in ((s.1, h), a).

(** [self._shard_servers[node_id]], and a call of that server. *)
Definition server (node_id : Z) : M st ShardServer.t := λ s,
  match get_shard_server node_id s.1 with Some v => (s, Ok v) | None => (s, Raise KeyError) end.
Definition on_server {A} (node_id : Z) (m : M (ShardServer.t * heap) A) : M st A := λ s,
  match get_shard_server node_id s.1 with
  | None => (s, Raise KeyError)
  | Some v =>
      let '((v', h), a) := m (v, s.2) in
      ((set_servers (d_set (_shard_servers s.1) node_id v') s.1, h), a)
  end.

(** *** Leaders among some nodes *)

(** The first of [nodes] that leads the shard. *)
Fixpoint _leader_on (nodes : list Z) (shard_id : Z) : M st (option nat) :=
  match nodes with
  | [] => ret None
  | n :: nodes =>
      let* held := read (held_by n shard_id) in
      match held with
      | None => _leader_on nodes shard_id
      | Some h =>
          let* x := below (node_of h) in
          if decide (MemoryRaftNode._state x = LEADER) then ret (Some h) else _leader_on nodes shard_id
      end
  end.

(** The same, once the leader knows its own commit index; [polls] more looks. *)
Fixpoint _wait_for_leader_on (polls : nat) (nodes : list Z) (shard_id : Z) : M st (option nat) :=
  let* leader := _leader_on nodes shard_id in
  let* ready := match leader with
                | None => ret false
                | Some h => let* x := below (node_of h) in ret (MemoryRaftNode.has_committed_in_its_own_term x)
                end in
  if (ready : bool) then ret leader
  else match polls with
       | O => ret None
       | Datatypes.S polls => below others;;; _wait_for_leader_on polls nodes shard_id
       end.

(** *** Who serves a shard *)

Fixpoint first_replica_ids (shard_id : Z) (nodes : list Z) : M st (list Z) :=
  match nodes with
  | [] => ret []
  | n :: nodes =>
      let* s := server n in
      match ShardServer.get_shard_node shard_id s with
      | Some _ => ret (ShardServer.shard_replica_ids shard_id s)
      | None => first_replica_ids shard_id nodes
      end
  end.
Definition shard_replica_ids (shard_id : Z) : V st (list Z) := λ r,
  let* nodes := read (_serving_nodes r shard_id) in first_replica_ids shard_id nodes.

Fixpoint collect_addresses (shard_id : Z) (nodes : list Z) : M st (gmap Z string) :=
  match nodes with
  | [] => ret ∅
  | n :: nodes =>
      let* s := server n in
      let* rest := collect_addresses shard_id nodes in
      ret match ShardServer.shard_address shard_id s with Some a => <[n := a]> rest | None => rest end
  end.
Definition shard_addresses (shard_id : Z) : V st (gmap Z string) := λ r,
  let* nodes := read (_serving_nodes r shard_id) in collect_addresses shard_id nodes.

Definition _addresses_on (nodes : list Z) (shard_id : Z) (c : t) : gmap Z string :=
  list_to_map (omap (λ n, a ← s ← get_shard_server n c; ShardServer.shard_address shard_id s; Some (n, a)) nodes).
Definition addresses_on (shard_id : Z) (nodes : list Z) : V st (gmap Z string) := λ _,
  read (_addresses_on nodes shard_id).

Fixpoint first_leader (shard_id : Z) (nodes : list Z) : M st (option (Z * Z)) :=
  match nodes with
  | [] => ret None
  | n :: nodes =>
      let* s := server n in
      match ShardServer.get_shard_node shard_id s with
      | None => first_leader shard_id nodes
      | Some h =>
          let* node := below (node_of h) in
          if decide (MemoryRaftNode._state node = LEADER)
          then ret (Some (n, MemoryRaftNode._current_term node))
          else first_leader shard_id nodes
      end
  end.
Definition shard_leader (shard_id : Z) : V st (option (Z * Z)) := λ r,
  let* nodes := read (_serving_nodes r shard_id) in first_leader shard_id nodes.

Definition _shard_leader_node (shard_id : Z) : V st (option nat) := λ r,
  let* leader := shard_leader shard_id r in
  match leader with
  | None => ret None
  | Some (n, _) => let* s := server n in ret (ShardServer.get_shard_node shard_id s)
  end.

Fixpoint leader_for_key (key : bytes) (nodes : list Z) : M st (option (Z * nat)) :=
  match nodes with
  | [] => ret None
  | n :: nodes =>
      let* h := on_server n (ShardServer.get_leader_shard_for_key key) in
      match h with Some h => ret (Some (n, h)) | None => leader_for_key key nodes end
  end.
Definition get_leader_for_key (key : bytes) : V st (option (Z * nat)) := λ r,
  let* nodes := read (λ c, _serving_nodes r (locate (_range_map c) key) c) in leader_for_key key nodes.

Definition serving_nodes (shard_id : Z) : V st (option (list Z)) := λ r,
  let* there := read _metadata_client in
  if (there : bool) then
    let* table := below (outside ct_table) in
    ret (option_map sp_nodes (shard table shard_id))
  else let* nodes := read (_serving_nodes r shard_id) in ret (Some nodes).

(** *** Handles *)

#[local] Instance nodes_here : NodesHere (RecoveryState.t * st) nat :=
  {| nh_node shard_id node_id x := held_by node_id shard_id x.2.1 |}.
#[local] Instance own_placement : OwnPlacement (LocalNodeClientFactory.t (N := nat) * (RecoveryState.t * st)) := {|
  cl_shard_leader shard_id := λ fx,
    let '(s, a) := shard_leader shard_id fx.2.1 fx.2.2 in
    ((fx.1, (fx.2.1, s)), let? leader := a in Ok (option_map fst leader));
  cl_range_map := λ fx, (fx, Ok (_range_map fx.2.2.1)) |}.
(** There is no table behind the lookup. *)
#[local] Instance no_router : TableRouter (LocalNodeClientFactory.t (N := nat) * (RecoveryState.t * st)) nat := {|
  rt_leader_for_shard _ := raise AttributeError;
  rt_any_replica_for _ := raise AttributeError;
  rt_replica_addresses _ := raise AttributeError;
  rt_routes := raise AttributeError;
  rt_shard_for _ := raise AttributeError;
  rt_refresh_for_shard _ := raise AttributeError;
  rt_invalidate _ := raise AttributeError |}.

Definition leader_client (shard_id : Z) : V st (option nat) := λ r s,
  let '((l, (f, (_, s'))), a) := ShardLeaders.leader_for_shard shard_id (_leaders s.1, (_node_clients s.1, (r, s))) in
  ((set_leaders l (set_handles f s'.1), s'.2), a).

(** [self._node_client_factory().get_client(shard_id, node_id)]. *)
Definition handle (shard_id node_id : Z) : V st (option nat) := λ r s,
  let '((f, (_, s')), a) := LocalNodeClientFactory.get_client shard_id node_id None (_node_clients s.1, (r, s)) in
  ((set_handles f s'.1, s'.2), a).

(** The nodes go on with their work while one is asked. *)
Fixpoint first_with_index (shard_id : Z) (nodes : list Z) : V st (option nat) := λ r,
  match nodes with
  | [] => ret None
  | n :: nodes =>
      let* client := handle shard_id n r in
      match client with
      | None => first_with_index shard_id nodes r
      | Some h =>
          below others;;;
          let* index := below (read_index h) in
          match index with
          | Some _ => ret (Some h)
          | None => first_with_index shard_id nodes r
          end
      end
  end.
Definition leader_client_for_nodes (shard_id : Z) (nodes : list Z) : V st (option nat) :=
  first_with_index shard_id nodes.

(** *** Groups that are built and closed *)

Fixpoint build_on (shard_id : Z) (members : option (list Z)) (nodes : list Z) : M st unit :=
  match nodes with
  | [] => ret tt
  | n :: nodes =>
      let* s := server n in
      match ShardServer.get_shard_node shard_id s with
      | Some _ => build_on shard_id members nodes
      | None => on_server n (ShardServer.add_shard shard_id members);;; build_on shard_id members nodes
      end
  end.
Definition _ensure_group_on (nodes : list Z) (shard_id : Z) : M st unit := build_on shard_id (Some nodes) nodes.
Definition ensure_group_on (shard_id : Z) (nodes : list Z) : V st unit := λ _, _ensure_group_on nodes shard_id.

(** [while os.path.exists(target)], which tries [tries] names. *)
Fixpoint free_name (tries : nat) (base target : string) (suffix : Z) : M W string :=
  let* taken := sw_exists target in
  if negb taken then ret target
  else match tries with
       | O => raise RuntimeError
       | S tries =>
           free_name tries base (String.append base (String.append "-" (str_of_Z suffix))) (suffix + 1)
       end.
Definition _rename_storage (directory : option string) (shard_id : Z) : M W (option string) :=
  match directory with
  | None => ret None
  | Some directory =>
      let* there := sw_isdir directory in
      if negb there then ret None
      else
        let* now := sw_time in
        let name := String.append "orphan-shard-" (String.append (str_of_Z shard_id)
                      (String.append "-" (str_of_Z now))) in
        let base := sw_sibling directory name in
        let* target := free_name patience base base 1 in
        sw_rename directory target;;;
        ret (Some target)
  end.

Fixpoint close_on (shard_id : Z) (nodes : list Z) : M st (list Z) :=
  match nodes with
  | [] => ret []
  | n :: nodes =>
      let* held := read (held_by n shard_id) in
      match held with
      | None => close_on shard_id nodes
      | Some h =>
          let* node := below (node_of h) in
          let directory := match MemoryRaftNode._storage node with Some s => sw_data_dir s | None => None end in
          let* closed := on_server n (ShardServer.shutdown_shard shard_id) in
          if negb closed then close_on shard_id nodes
          else
            let* orphan := below (outside (_rename_storage directory shard_id)) in
            match orphan with Some d => change (add_orphan d) | None => ret tt end;;;
            let* rest := close_on shard_id nodes in
            ret (n :: rest)
      end
  end.
Definition _close_group_on (nodes : list Z) (shard_id : Z) : M st (list Z) := close_on shard_id (sorted_set nodes).
Definition close_group_on (shard_id : Z) (nodes : list Z) : V st (list Z) := λ _, _close_group_on nodes shard_id.

Definition ensure_serving (shard_id : Z) (nodes : list Z) : V st (list Z) := λ _,
  let members := sorted_set nodes in
  let* ids := read node_ids in
  let named := if decide (members = ids) then None else Some members in
  change (λ c, set_num_shards (Z.max (_num_shards c) (shard_id + 1)) c);;;
  build_on shard_id named members;;;
  _close_group_on (filter (λ n, n ∉ members) ids) shard_id.

(** *** What the table has just been told *)

Definition apply_split_locally (shard_id : Z) (split_key : bytes) (new_shard_id : Z) : V st unit := λ _,
  let* ranges := read _range_map in
  match d_get ranges shard_id with
  | None => raise KeyError
  | Some (start, end_) =>
      change (update_range_map (d_set (d_set ranges shard_id (start, split_key)) new_shard_id (split_key, end_)))
  end.
Definition apply_move_locally (shard_id : Z) (nodes : list Z) : V st unit := λ _,
  change (λ c, set_placed (<[shard_id := sorted_set nodes]> (_placed_shards c)) c);;;
  change (λ c, set_publisher (MetadataPublisher.forget_leader shard_id <$> _metadata_publisher c) c).

(** *** Freezing *)

Fixpoint each_node {A} (m : M node A) (hs : list nat) : M st unit :=
  match hs with
  | [] => ret tt
  | h :: hs => below (on_node h m);;; each_node m hs
  end.
Definition _freeze_shard (shard_id : Z) (reason : string) (nodes : option (list Z)) : M st unit :=
  let* hs := read (replicas nodes shard_id) in
  each_node (MemoryRaftNode.freeze_writes reason) hs.
Definition _unfreeze_shard (shard_id : Z) (nodes : option (list Z)) : M st unit :=
  let* hs := read (replicas nodes shard_id) in each_node MemoryRaftNode.resume_writes hs.
Definition freeze (shard_id : Z) (reason : string) (nodes : list Z) : V st unit := λ _,
  _freeze_shard shard_id reason (Some nodes).
Definition unfreeze (shard_id : Z) (nodes : list Z) : V st unit := λ _, _unfreeze_shard shard_id (Some nodes).

(** [all(...)] stops at the first that does not. *)
Fixpoint drain_all (hs : list nat) : M st bool :=
  match hs with
  | [] => ret true
  | h :: hs =>
      let* drained := below (wait_for_writes_to_drain patience h) in
      if (drained : bool) then drain_all hs else ret false
  end.
Definition _drain_shard (shard_id : Z) (nodes : option (list Z)) : M st bool :=
  let* hs := read (replicas nodes shard_id) in drain_all hs.

(** *** Notes *)

(** The storages of some nodes that have one, with their nodes. *)
Fixpoint storages_of (hs : list nat) : M st (list (nat * R)) :=
  match hs with
  | [] => ret []
  | h :: hs =>
      let* n := below (node_of h) in
      let* rest := storages_of hs in
      ret match MemoryRaftNode._storage n with Some r => (h, r) :: rest | None => rest end
  end.
Definition _storages_of (shard_id : Z) (nodes : option (list Z)) : M st (list (nat * R)) :=
  let* hs := read (replicas nodes shard_id) in storages_of hs.
(** The storages as a function that writes to them left them. *)
Fixpoint put_storages (hs : list nat) (rs : list R) : M st unit :=
  match hs, rs with
  | h :: hs, r :: rs =>
      below (on_node h (MemoryRaftNode.modify (MemoryRaftNode.with_storage (Some r))));;; put_storages hs rs
  | _, _ => ret tt
  end.
Definition write_storages (shard_id : Z) (f : list R → list R * result unit) : M st unit :=
  let* held := _storages_of shard_id None in
  let '(rs, a) := f held.*2 in
  put_storages held.*1 rs;;; reads (λ _, a).

Definition pending_notes (shard_id : Z) : V st (list PendingNote) := λ _,
  let* held := _storages_of shard_id None in
  let* split := reads (λ _, read_note held.*2 shard_id SPLIT_RECORD_PREFIX) in
  let* move := reads (λ _, read_note held.*2 shard_id MIGRATION_RECORD_PREFIX) in
  ret (option_list split ++ option_list move).
Definition remember_note (note : PendingNote) : V st unit := λ _,
  write_storages (pn_shard_id note) (λ rs, write_note rs note).
Definition forget_note (shard_id : Z) : V st unit := λ _,
  write_storages shard_id (λ rs, RecoveryNotes.forget_note rs shard_id SPLIT_RECORD_PREFIX);;;
  write_storages shard_id (λ rs, RecoveryNotes.forget_note rs shard_id MIGRATION_RECORD_PREFIX).

(** *** The side of the recovery *)

#[global] Instance view : RecoveryView st nat := {|
  rv_shard_ids _ := read shard_ids;
  rv_node_ids _ := read node_ids;
  rv_range_map _ := read range_map;
  rv_pending_notes := pending_notes;
  rv_remember_note := remember_note;
  rv_forget_note := forget_note;
  rv_serving_nodes := serving_nodes;
  rv_shard_replica_ids := shard_replica_ids;
  rv_addresses_on := addresses_on;
  rv_leader_client := leader_client;
  rv_leader_client_for_nodes := leader_client_for_nodes;
  rv_freeze := freeze;
  rv_unfreeze := unfreeze;
  rv_ensure_serving := ensure_serving;
  rv_ensure_group_on := ensure_group_on;
  rv_close_group_on := close_group_on;
  rv_apply_split_locally := apply_split_locally;
  rv_apply_move_locally := apply_move_locally;
  rv_metadata_client _ := read _metadata_client;
  rv_split_shard i k j ns ad _ := below (outside (ct_split_shard i k j ns ad));
  rv_move_shard i old ns ad _ := below (outside (ct_move_shard i old ns ad)) |}.

(** *** A split and a move begin *)

Context `{!RowCalls st nat}.
Abbreviation both := (RecoveryState.t * st)%type.
Abbreviation call := RecoveryRunner.view.

Definition machine_of (leader : nat) : M st (MVCCStateMachine.t E) :=
  let* n := below (node_of leader) in ret (MemoryRaftNode._state_machine n).1.
Definition _committed_rows (leader : nat) (start end_ : bytes) : M st (list (bytes * bytes)) :=
  let* m := machine_of leader in
  reads (λ _, MVCCStorage.scan (MVCCStateMachine._storage m) start end_ (MVCCStateMachine._last_applied_timestamp m)).
Definition _rows_above (leader : nat) (shard_id : Z) (split_key : bytes) : M st (list (bytes * bytes)) :=
  let* ranges := read _range_map in
  match d_get ranges shard_id with
  | None => raise KeyError
  | Some (start, end_) =>
      let* rows := _committed_rows leader start end_ in
      ret (filter (λ r, ble split_key r.1 = true) rows)
  end.
Definition _locks_in_range (leader : nat) (start end_ : bytes) : M st bool :=
  let* m := machine_of leader in
  let* locks := reads (λ _, MVCCStorage.iter_locks (MVCCStateMachine._storage m)) in
  ret (existsb (λ l, in_range start l.1 end_) locks).

(** [try: m finally: if not copied: undo]; [m] answers [None] where it has not copied. *)
Definition unless_copied {A} (m : M both (option A)) (undo : M both unit) : M both (option A) := λ s,
  match m s with
  | (s', Ok (Some x)) => (s', Ok (Some x))
  | (s', Ok None) => bind undo (λ _, ret None) s'
  | (s', Raise e) => bind undo (λ _, raise e) s'
  end.

(** A split up to [copied = True]. *)
Definition prepare_split (shard_id : Z) (split_key start end_ : bytes) (leader : nat) : M both (option PendingSplit) :=
  let* drained := call (λ _, _drain_shard shard_id None) in
  if negb drained then ret None else
  let* locked := call (λ _, _locks_in_range leader start end_) in
  if (locked : bool) then ret None else
  let* rows := call (λ _, _rows_above leader shard_id split_key) in
  let* new_shard_id := call (λ _, read _num_shards) in
  call (λ _, change (set_num_shards (new_shard_id + 1)));;;
  let pending := {| ps_shard_id := shard_id; ps_split_key := split_key; ps_new_shard_id := new_shard_id;
                    ps_rows := rows |} in
  RecoveryRunner.remember_split (C := nat) pending;;;
  let* ids := call (λ _, read node_ids) in
  call (ensure_serving new_shard_id ids);;;
  ret (Some pending).

Definition split_shard (shard_id : Z) (split_key : bytes) : M both bool :=
  let* pending := RecoveryRunner.pending_split shard_id in
  match pending with
  | Some pending =>
      if decide (ps_split_key pending ≠ split_key) then ret false
      else
        let* source := call (leader_client shard_id) in
        RecoveryRunner.finish_split patience pending source
  | None =>
      let* ranges := call (λ _, read _range_map) in
      match d_get ranges shard_id with
      | None => ret false
      | Some (start, end_) =>
          if ble split_key start || ble end_ split_key then ret false
          else
            let* leader := call (_shard_leader_node shard_id) in
            match leader with
            | None => ret false
            | Some leader =>
                call (λ _, _freeze_shard shard_id "split" None);;;
                let* prepared := unless_copied (prepare_split shard_id split_key start end_ leader)
                                   (call (λ _, _unfreeze_shard shard_id None)) in
                match prepared with
                | None => ret false
                | Some pending =>
                    let* source := call (leader_client shard_id) in
                    RecoveryRunner.finish_split patience pending source
                end
            end
      end
  end.

(** A move up to [copied = True]; the state is the object that is already held. *)
Definition prepare_move (shard_id : Z) (h : nat) (source_nodes : list Z) (start end_ : bytes) (leader : nat)
    : M both (option unit) :=
  let* drained := call (λ _, _drain_shard shard_id (Some source_nodes)) in
  if negb drained then RecoveryRunner.record_migration_error (not_drained shard_id);;; ret None else
  let* locked := call (λ _, _locks_in_range leader start end_) in
  if (locked : bool) then RecoveryRunner.record_migration_error (lock_in_range shard_id);;; ret None else
  let* rows := call (λ _, _committed_rows leader start end_) in
  RecoveryRunner.update h (with_rows rows);;;
  RecoveryRunner.remember_migration (C := nat) h;;;
  ret (Some tt).

Definition move_shard (shard_id : Z) (target_nodes : list Z) : M both bool :=
  let target_nodes := sorted_set target_nodes in
  match target_nodes with
  | [] => RecoveryRunner.record_migration_error nowhere;;; ret false
  | _ =>
  let* in_flight := RecoveryRunner.migration_state shard_id in
  match in_flight with
  | Some h =>
      let* m := RecoveryRunner.object h in
      if decide (mg_target_nodes m ≠ target_nodes) then
        RecoveryRunner.record_migration_error (already_moving shard_id (mg_target_nodes m));;; ret false
      else RecoveryRunner.finish_move (C := nat) patience h
  | None =>
      let* ranges := call (λ _, read _range_map) in
      match d_get ranges shard_id with
      | None => RecoveryRunner.record_migration_error (no_range shard_id);;; ret false
      | Some (start, end_) =>
          let* unknown := call (λ _, read (λ c, filter (λ n, n ∉ (_shard_servers c).*1) target_nodes)) in
          if decide (unknown ≠ []) then
            RecoveryRunner.record_migration_error (unknown_nodes unknown);;; ret false
          else
          let* source_nodes := call (shard_replica_ids shard_id) in
          let overlap := filter (λ n, n ∈ source_nodes) target_nodes in
          if decide (overlap ≠ []) then
            RecoveryRunner.record_migration_error (already_serving overlap);;; ret false
          else
          let* leader := call (_shard_leader_node shard_id) in
          match leader with
          | None => RecoveryRunner.record_migration_error (no_leader shard_id);;; ret false
          | Some leader =>
              let* h := RecoveryRunner.new_object (new_migration shard_id target_nodes source_nodes) in
              RecoveryRunner.hold_migration h;;;
              call (λ _, _freeze_shard shard_id "migration" (Some source_nodes));;;
              let* prepared := unless_copied (prepare_move shard_id h source_nodes start end_ leader)
                                 (RecoveryRunner.drop_migration shard_id;;;
                                  call (λ _, _unfreeze_shard shard_id (Some source_nodes))) in
              match prepared with
              | None => ret false
              | Some _ => RecoveryRunner.finish_move (C := nat) patience h
              end
          end
      end
  end end.

(** *** Starting *)

Fixpoint start_servers (peer_addresses : option (gmap Z string)) (shard_nodes : gmap Z (list Z)) (ids : list Z)
    : M st unit :=
  match ids with
  | [] => ret tt
  | n :: ids =>
      let* c := read id in
      let s := ShardServer.set_range_map (_range_map c) (ShardServer.init n (_num_shards c) (_num_nodes c)) in
      (λ x, let '((s', h), a) := ShardServer.start_shards peer_addresses shard_nodes (s, x.2) in
            match a with
            | Ok _ => ((set_servers (d_set (_shard_servers x.1) n s') x.1, h), Ok tt)
            | Raise e => ((x.1, h), Raise e)
            end);;;
      start_servers peer_addresses shard_nodes ids
  end.

(** A publisher is started when there is a table and none is running; its thread runs beside
    this one. *)
Definition start_metadata_publisher (metadata : bool) (c : t) : t :=
  match _metadata_publisher c with
  | Some _ => c
  | None => if metadata then set_publisher (Some MetadataPublisher.init) (set_client true c) else c
  end.

Definition start (peer_addresses : option (gmap Z string)) (shard_nodes : gmap Z (list Z)) (metadata : bool)
    : M both unit :=
  call (λ _, change (_remember_placement shard_nodes));;;
  let* n := call (λ _, read _num_nodes) in
  call (λ _, start_servers peer_addresses shard_nodes (seqZ 1 n));;;
  RecoveryRunner.load_pending_splits (C := nat);;;
  RecoveryRunner.load_pending_migrations (C := nat);;;
  call (λ _, change (start_metadata_publisher metadata));;;
  RecoveryRunner.finish_pending_splits (C := nat) patience;;;
  RecoveryRunner.finish_pending_migrations (C := nat) patience;;;
  ret tt.

(** [start_network]: each node serves its shards at the addresses the cluster is given. *)
Definition start_network (peer_addresses : gmap Z string) (shard_nodes : gmap Z (list Z)) (metadata : bool)
    : M both unit :=
  start (Some peer_addresses) shard_nodes metadata.

Definition recover_splits : M both (list Z) := RecoveryRunner.recover_splits (C := nat) patience.
Definition recover_migrations : M both (list Z) := RecoveryRunner.recover_migrations (C := nat) patience.
Definition possible_ranges : M both (list RangeMap) := RecoveryRunner.possible_ranges (C := nat).

Fixpoint shutdown_servers (ids : list Z) : M st unit :=
  match ids with
  | [] => ret tt
  | n :: ids => on_server n ShardServer.shutdown;;; shutdown_servers ids
  end.
Definition shutdown : M st unit :=
  change (set_publisher None);;;
  let* ids := read (λ c, (_shard_servers c).*1) in shutdown_servers ids.

(** What the publisher is told of the cluster. *)
#[global] Instance placement : ShardCluster both := {|
  sc_range_map := call (λ _, read range_map);
  sc_shard_ids := call (λ _, read shard_ids);
  sc_shard_replica_ids i := call (shard_replica_ids i);
  sc_shard_addresses i := call (shard_addresses i);
  sc_shard_leader i := call (shard_leader i);
  sc_possible_ranges := Some possible_ranges;
  sc_migrations := Some (RecoveryRunner.mine (λ r, (map_to_list (_migrations r)).*1)) |}.
End cluster.
End ShardedRaftCluster.
