(* ===== verification/ShardedFacts.v ===== *)
(** What the cluster object promises the recovery that runs on it: [ensure_serving] leaves a
    shard on exactly the nodes it is given.  And what it does not: a handle of a node that was
    closed is kept, so a group that is built again is never found. *)

From Stdlib Require Import ZArith Lia.
From S2P Require Import Prelude Bytes PyVal PyOps Engine Mvcc StateMachine Dict Router Metadata MetadataClient RaftStorage RaftNode Routing RoutingCache Publisher RecoveryNotes Recovery ShardServer ShardedCluster.
Import RecoveryState ShardedRaftCluster.

(** ** Lists of nodes *)

Lemma elem_of_sorted_set l n : n ∈ sorted_set l ↔ n ∈ l.
Proof. unfold sorted_set. by rewrite merge_sort_Permutation, elem_of_remove_dups. Qed.
Lemma NoDup_sorted_set l : NoDup (sorted_set l).
Proof. unfold sorted_set. rewrite merge_sort_Permutation. apply NoDup_remove_dups. Qed.
Lemma sorted_sorted_set l : StronglySorted Z.le (sorted_set l).
Proof. apply (StronglySorted_merge_sort Z.le). Qed.
Lemma elem_of_node_ids n c : n ∈ node_ids c ↔ is_Some (get_shard_server n c).
Proof.
  unfold node_ids, get_shard_server. rewrite merge_sort_Permutation.
  destruct (d_get _ n) as [v|] eqn:Hd; [|by rewrite d_get_None in Hd; split; [|intros [??]]].
  split; [by eexists|]. intros _. apply d_get_Some_in in Hd. apply list_elem_of_fmap. by exists (n, v).
Qed.

(** A member in front of the others is the set again. *)
Lemma sort_member n l : StronglySorted Z.le l → NoDup l → n ∈ l →
  merge_sort Z.le (n :: filter (λ x, x ≠ n) l) = l.
Proof.
  intros Hs Hd Hn. apply (StronglySorted_unique Z.le); [apply (StronglySorted_merge_sort Z.le)|done|].
  rewrite merge_sort_Permutation. apply NoDup_Permutation; [|done|].
  - constructor; [|by apply NoDup_filter]. rewrite list_elem_of_filter. naive_solver.
  - intros x. rewrite elem_of_cons, list_elem_of_filter. destruct (decide (x = n)) as [->|]; naive_solver.
Qed.

Section facts.
Context {E W R : Type} `{Engine E}.
Abbreviation machine := (MVCCStateMachine.t E * list Z)%type.
Context `{!ServerWorld W machine R} `{!RaftStorage R} `{!Msgpack} `{!RaftNode.StateMachine machine} `{!ClusterTable W}.
Context (patience : nat).
Abbreviation node := (MemoryRaftNode.t machine R).
Abbreviation st := (t * (list node * W))%type.
Implicit Types (s : st) (c : t) (v : ShardServer.t).

(** What a call of a server changes of the shards it holds. *)
Lemma held_set_server c n v n' j :
  is_Some (get_shard_server n c) →
  held_by n' j (set_servers (d_set (_shard_servers c) n v) c)
  = if decide (n' = n) then ShardServer._shards v !! j else held_by n' j c.
Proof.
  intros _. unfold held_by, get_shard_server. cbn. rewrite d_get_set.
  destruct (decide (n = n')) as [->|Hne]; [by rewrite decide_True|by rewrite decide_False].
Qed.
Lemma server_set_server c n v n' :
  get_shard_server n' (set_servers (d_set (_shard_servers c) n v) c)
  = if decide (n' = n) then Some v else get_shard_server n' c.
Proof.
  unfold get_shard_server. cbn. rewrite d_get_set.
  destruct (decide (n = n')) as [->|Hne]; [by rewrite decide_True|by rewrite decide_False].
Qed.

(** The members a server builds a group with: the set it is given; without one, the set it
    was given last for the shard, and every node of the cluster if it never was. *)
Definition given (members : option (list Z)) (i : Z) v : list Z :=
  match members with
  | Some m => sorted_set m
  | None => default (seqZ 1 (ShardServer._total_nodes v)) (ShardServer._shard_members v !! i)
  end.
(** What the server keeps for a shard it has built. *)
Lemma add_shard_holds i members v (h h' : list node * W) v' hd :
  ShardServer.add_shard i members (v, h) = ((v', h'), Ok hd) →
  ShardServer._shards v' = <[i := hd]> (ShardServer._shards v) ∧
  ShardServer._node_id v' = ShardServer._node_id v ∧
  ShardServer._shard_peers v' !! i = Some (filter (λ x, x ≠ ShardServer._node_id v) (given members i v)).
Proof.
  unfold ShardServer.add_shard. intros Hr. apply bind_Ok_inv in Hr as (s1&started&[= <- <-]&Hr).
  destruct (ShardServer._started v); cbn [negb] in Hr; [|done].
  apply bind_Ok_inv in Hr as (s2&u&Hm&Hr).
  assert (∃ v2, s2 = (v2, h) ∧ ShardServer._shards v2 = ShardServer._shards v ∧
    ShardServer._node_id v2 = ShardServer._node_id v ∧ ShardServer._shard_peers v2 = ShardServer._shard_peers v ∧
    given None i v2 = given members i v) as (v2&->&Hs&Hn&Hp&Hmem).
  { destruct members as [m|]; injection Hm as <- <-; eexists; (split; [done|]); split_and!; try done.
    cbn. by rewrite lookup_insert_eq. }
  apply bind_Ok_inv in Hr as (s3&me&[= <- <-]&Hr). apply bind_Ok_inv in Hr as (s4&storage&Hst&Hr).
  assert (s4.1 = v2) as H4.
  { destruct sw_storage as [f|]; [|by injection Hst as <- <-].
    apply bind_Ok_inv in Hst as (s5&x&Hx&[= <- <-]). unfold ShardServer.below in Hx.
    destruct (outside _ _) as [h5 a5]. by injection Hx as <- _. }
  apply bind_Ok_inv in Hr as (s5&peers&[= <- <-]&Hr). apply bind_Ok_inv in Hr as (s6&ads&[= <- <-]&Hr).
  apply bind_Ok_inv in Hr as (s7&u7&[= <- _]&Hr). apply bind_Ok_inv in Hr as (s8&sm&Hsm&Hr).
  assert (s8.1 = v2) as H8.
  { unfold ShardServer.below in Hsm. destruct (outside _ _) as [h8 a8]. by injection Hsm as <- _. }
  apply bind_Ok_inv in Hr as (s9&hd'&Hhd&Hr).
  assert (s9.1 = v2) as H9.
  { unfold ShardServer.below in Hhd. destruct (new_node _ _ _ _ _) as [h9 a9]. by injection Hhd as <- _. }
  apply bind_Ok_inv in Hr as (sA&uA&[= <- <-]&Hr). apply bind_Ok_inv in Hr as (sB&ad&[= <- Had]&Hr).
  apply bind_Ok_inv in Hr as (sC&uC&HC&HE). injection HE as -> ->.
  assert (ShardServer._shards v' = <[i := hd]> (ShardServer._shards v2) ∧
    ShardServer._node_id v' = ShardServer._node_id v2 ∧
    ShardServer._shard_peers v' = <[i := ShardServer._get_peer_nodes i v2]> (ShardServer._shard_peers v2)) as (HC1&HC2&HC3).
  { destruct ad as [a|].
    - apply bind_Ok_inv in HC as (sD&uD&HD&HF). unfold ShardServer.below in HD.
      destruct (outside _ _) as [hD aD]. injection HD as <- _. injection HF as <- _ _. cbn. by rewrite H9, H4.
    - injection HC as <- _. cbn. by rewrite H9, H4. }
  cbn in HC1, HC2, HC3. rewrite HC1, HC2, Hs, Hn. split_and!; [done..|]. rewrite HC3, lookup_insert_eq, <-Hmem.
  unfold ShardServer._get_peer_nodes, given. rewrite Hn. by destruct (ShardServer._shard_members v2 !! i).
Qed.

Lemma shutdown_shard_drops i v (h h' : list node * W) v' b :
  ShardServer.shutdown_shard i (v, h) = ((v', h'), Ok b) →
  ShardServer._node_id v' = ShardServer._node_id v ∧
  b = bool_decide (is_Some (ShardServer._shards v !! i)) ∧
  ShardServer._shards v' = base.delete i (ShardServer._shards v).
Proof.
  unfold ShardServer.shutdown_shard. intros Hr. apply bind_Ok_inv in Hr as (s1&held&[= <- <-]&Hr).
  unfold ShardServer.get_shard_node in Hr. cbn in Hr. destruct (ShardServer._shards v !! i) as [hd|] eqn:Hh.
  2: { injection Hr as <- _ <-. split_and!; [done|by rewrite bool_decide_eq_false_2 by (by intros [? ?])|].
       by rewrite delete_id. }
  rewrite bool_decide_eq_true_2 by (by eexists).
  apply bind_Ok_inv in Hr as (s2&u2&[= <- _]&Hr). apply bind_Ok_inv in Hr as (s3&u3&H3&Hr).
  apply bind_Ok_inv in Hr as (s4&n&H4&Hr). apply bind_Ok_inv in Hr as (s5&u5&H5&HE). injection HE as -> <-.
  assert (s3.1 = ShardServer.drop_shard i v) as E3.
  { unfold ShardServer.below in H3. destruct (on_node _ _ _) as [h3 a3]. by injection H3 as <- _. }
  assert (s4.1 = s3.1) as E4.
  { unfold ShardServer.below in H4. destruct (node_of _ _) as [h4 a4]. by injection H4 as <- _. }
  assert (v' = s4.1) as ->.
  { destruct (MemoryRaftNode._storage n).
    - unfold ShardServer.below in H5. destruct (outside _ _) as [h5 a5]. by injection H5 as <- _ _.
    - injection H5 as -> _. done. }
  by rewrite E4, E3.
Qed.

(** A cluster in which one shard was built or closed on some nodes: nothing else of its
    servers is different. *)
Record touched (i : Z) c c' : Prop := {
  tc_frame : c' = {| _num_nodes := _num_nodes c; _num_shards := _num_shards c;
    _shard_servers := _shard_servers c'; _range_map := _range_map c; _metadata_client := _metadata_client c;
    _metadata_publisher := _metadata_publisher c; _placed_shards := _placed_shards c;
    _orphan_dirs := _orphan_dirs c'; _node_clients := _node_clients c; _leaders := _leaders c |};
  tc_keys : (_shard_servers c').*1 = (_shard_servers c).*1;
  tc_others n j : j ≠ i → held_by n j c' = held_by n j c;
  tc_names n : ShardServer._node_id <$> get_shard_server n c' = ShardServer._node_id <$> get_shard_server n c
}.
Lemma touched_refl i c : touched i c c.
Proof. split; [by destruct c|done..]. Qed.
Lemma touched_trans i c1 c2 c3 : touched i c1 c2 → touched i c2 c3 → touched i c1 c3.
Proof.
  intros [F1 K1 O1 N1] [F2 K2 O2 N2]. split; [|congruence|..].
  - rewrite F2. rewrite F1. done.
  - intros. by rewrite O2, O1.
  - intros. by rewrite N2, N1.
Qed.
Lemma touched_server i n c v v' :
  get_shard_server n c = Some v → (∀ j, j ≠ i → ShardServer._shards v' !! j = ShardServer._shards v !! j) →
  ShardServer._node_id v' = ShardServer._node_id v →
  touched i c (set_servers (d_set (_shard_servers c) n v') c).
Proof.
  intros Hv Hs Hn. split; [done|..].
  - cbn. rewrite d_set_keys, decide_True; [done|]. unfold get_shard_server in Hv.
    apply d_get_Some_in in Hv. apply list_elem_of_fmap. by exists (n, v).
  - intros n' j Hj. rewrite held_set_server by (by eexists). case_decide as Hd; [|done]. subst n'.
    unfold held_by. rewrite Hv. by apply Hs.
  - intros n'. rewrite server_set_server. case_decide as Hd; [|done]. subst n'. rewrite Hv. cbn. by rewrite Hn.
Qed.

(** Building. *)
Lemma held_by_server n j c v : get_shard_server n c = Some v → held_by n j c = ShardServer._shards v !! j.
Proof. intros Hv. unfold held_by. by rewrite Hv. Qed.
Lemma server_listed n c v : get_shard_server n c = Some v → n ∈ (_shard_servers c).*1.
Proof. intros Hv%d_get_Some_in. apply list_elem_of_fmap. by exists (n, v). Qed.

Definition peers_of (i : Z) (m : list Z) v : Prop :=
  ShardServer._shard_peers v !! i = Some (filter (λ x, x ≠ ShardServer._node_id v) m).

Lemma build_one i members n s s' hd :
  on_server n (ShardServer.add_shard i members) s = (s', Ok hd) →
  touched i s.1 s'.1 ∧ held_by n i s'.1 = Some hd ∧
  (∀ n', n' ≠ n → get_shard_server n' s'.1 = get_shard_server n' s.1) ∧
  (∀ v0 v, get_shard_server n s.1 = Some v0 → get_shard_server n s'.1 = Some v →
     peers_of i (given members i v0) v).
Proof.
  unfold on_server. destruct (get_shard_server n s.1) as [v0|] eqn:Hg; [|done].
  destruct (ShardServer.add_shard i members (v0, s.2)) as [[v1 h1] a1] eqn:Hadd. intros [= <- ->].
  destruct (add_shard_holds _ _ _ _ _ _ _ Hadd) as (Hsh&Hid&Hpe). cbn [fst]. split_and!.
  - apply (touched_server i n _ v0); [done| |done]. intros j Hj. rewrite Hsh. by apply lookup_insert_ne.
  - rewrite held_set_server, decide_True, Hsh by (done || by eexists). apply lookup_insert_eq.
  - intros n' Hne. rewrite server_set_server. by rewrite decide_False.
  - intros v2 v. rewrite server_set_server, decide_True by done. intros [= <-] [= <-]. unfold peers_of.
    by rewrite Hpe, Hid.
Qed.

Lemma build_on_spec i members nodes : ∀ s s' u,
  build_on i members nodes s = (s', Ok u) →
  touched i s.1 s'.1 ∧ nodes ⊆ (_shard_servers s.1).*1 ∧
  (∀ n, n ∈ nodes → is_Some (held_by n i s'.1)) ∧
  (∀ n, n ∉ nodes ∨ is_Some (held_by n i s.1) → get_shard_server n s'.1 = get_shard_server n s.1) ∧
  (∀ n v0 v, held_by n i s.1 = None → n ∈ nodes → get_shard_server n s.1 = Some v0 →
     get_shard_server n s'.1 = Some v → peers_of i (given members i v0) v).
Proof.
  induction nodes as [|n nodes IH]; intros s s' u Hr; cbn [build_on] in Hr.
  { injection Hr as <- _. split_and!; [apply touched_refl|set_solver..]. }
  apply bind_Ok_inv in Hr as (s1&v&Hv&Hr). unfold server in Hv.
  destruct (get_shard_server n s.1) as [v0|] eqn:Hg; [|done]. injection Hv as <- <-.
  pose proof (server_listed _ _ _ Hg) as Hin. unfold ShardServer.get_shard_node in Hr.
  pose proof (held_by_server n i _ _ Hg) as Hheld.
  destruct (ShardServer._shards v0 !! i) as [h0|].
  - destruct (IH _ _ _ Hr) as (Ht&Hs&Hb&Ho&Hp). split_and!; [done|set_solver|..].
    + intros n' [->|Hn']%elem_of_cons; [|auto]. unfold held_by. rewrite Ho by (right; by eexists).
      unfold held_by in Hheld. rewrite Hheld. by eexists.
    + intros n' [Hn'|Hn']; apply Ho; [left|by right]. set_solver.
    + intros n' v1 v Hno [->|Hn']%elem_of_cons; [congruence|eauto].
  - apply bind_Ok_inv in Hr as (s2&hd&Ha&Hr). destruct (build_one _ _ _ _ _ _ Ha) as (Ht1&Hn1&Hn2&Hp1).
    destruct (IH _ _ _ Hr) as (Ht&Hs&Hb&Ho&Hp).
    assert (Hsame : get_shard_server n s'.1 = get_shard_server n s2.1) by (apply Ho; right; by eexists).
    split_and!; [by eapply touched_trans|..].
    + intros x [->|Hx]%elem_of_cons; [done|]. rewrite <-(tc_keys _ _ _ Ht1). by apply Hs.
    + intros n' [->|Hn']%elem_of_cons; [|auto]. unfold held_by. rewrite Hsame. unfold held_by in Hn1.
      rewrite Hn1. by eexists.
    + intros n' Hn'. assert (n' ≠ n) as Hne.
      { intros ->. destruct Hn' as [Hn'|[h Hh]]; [set_solver|congruence]. }
      rewrite <-(Hn2 n' Hne). apply Ho. unfold held_by. rewrite Hn2 by done. set_solver.
    + intros n' v1 v Hno Hn' Hv1 Hv. destruct (decide (n' = n)) as [->|Hne].
      * rewrite Hsame in Hv. by apply (Hp1 v1).
      * apply elem_of_cons in Hn' as [|Hn']; [done|]. eapply Hp; [unfold held_by; by rewrite Hn2|done|by rewrite Hn2|done].
Qed.

(** Closing. *)
Lemma close_on_spec i nodes : ∀ s s' closed,
  NoDup nodes → close_on patience i nodes s = (s', Ok closed) →
  touched i s.1 s'.1 ∧
  (∀ n, n ∈ nodes → held_by n i s'.1 = None) ∧
  (∀ n, n ∉ nodes → get_shard_server n s'.1 = get_shard_server n s.1) ∧
  (∀ n, n ∈ closed ↔ n ∈ nodes ∧ is_Some (held_by n i s.1)).
Proof.
  induction nodes as [|n nodes IH]; intros s s' closed Hd Hr; cbn [close_on] in Hr.
  { injection Hr as <- <-. split_and!; [apply touched_refl|set_solver..]. }
  apply list.NoDup_cons in Hd as [Hn Hd].
  apply bind_Ok_inv in Hr as (s1&held&[= <- <-]&Hr). destruct (held_by n i s.1) as [h|] eqn:Hh.
  2: { destruct (IH _ _ _ Hd Hr) as (Ht&Hb&Ho&Hc). split_and!; [done|..].
       - intros n' [->|Hn']%elem_of_cons; [|auto]. unfold held_by. rewrite Ho by done. exact Hh.
       - intros n' [_ ?]%not_elem_of_cons. auto.
       - intros n'. rewrite Hc, elem_of_cons. split; [naive_solver|]. intros [[->|?] Hs]; [|done].
         rewrite Hh in Hs. by destruct Hs. }
  apply bind_Ok_inv in Hr as (s1&nd&Hr1&Hr). assert (s1.1 = s.1) as E1.
  { unfold below in Hr1. destruct (node_of _ _) as [h1 a1]. by injection Hr1 as <- _. }
  apply bind_Ok_inv in Hr as (s2&b&Hr2&Hr). unfold on_server in Hr2. rewrite E1 in Hr2.
  destruct (get_shard_server n s.1) as [v0|] eqn:Hg; [|done]. rewrite (held_by_server _ _ _ _ Hg) in Hh.
  destruct (ShardServer.shutdown_shard i (v0, s1.2)) as [[v1 h1] a1] eqn:Hsd. injection Hr2 as <- ->.
  destruct (shutdown_shard_drops _ _ _ _ _ _ Hsd) as (Hid&->&Hsh). rewrite Hh in Hr.
  rewrite bool_decide_eq_true_2 in Hr by (by eexists). cbn [negb] in Hr.
  apply bind_Ok_inv in Hr as (s3&orphan&Hr3&Hr). apply bind_Ok_inv in Hr as (s4&u4&Hr4&Hr).
  apply bind_Ok_inv in Hr as (s5&rest&Hr5&HE). injection HE as -> <-.
  set (c2 := set_servers (d_set (_shard_servers s.1) n v1) s.1) in *.
  assert (s3.1 = c2) as E3. { unfold below in Hr3. destruct (outside _ _) as [h3 a3]. by injection Hr3 as <- _. }
  assert (touched i s.1 s4.1 ∧ _shard_servers s4.1 = _shard_servers c2) as [Ht4 Es4].
  { assert (touched i s.1 c2) as Htc by (apply (touched_server i n _ v0); [done|intros; rewrite Hsh; by apply lookup_delete_ne|done]).
    destruct orphan as [d|]; injection Hr4 as <- _; cbn; rewrite E3; [|done]. split; [|done].
    destruct Htc as [F K O N]. by split. }
  destruct (IH _ _ _ Hd Hr5) as (Ht&Hb&Ho&Hc).
  assert (Hg4 : ∀ n', get_shard_server n' s4.1 = if decide (n' = n) then Some v1 else get_shard_server n' s.1).
  { intros n'. unfold get_shard_server at 1. rewrite Es4. apply server_set_server. }
  split_and!; [by eapply touched_trans|..].
  - intros n' [->|Hn']%elem_of_cons; [|auto]. unfold held_by. rewrite Ho, Hg4, decide_True by done.
    unfold ShardServer.get_shard_node. rewrite Hsh. apply lookup_delete_eq.
  - intros n' [Hne Hn']%not_elem_of_cons. by rewrite Ho, Hg4, decide_False by done.
  - intros n'. rewrite !elem_of_cons, Hc. unfold held_by. rewrite Hg4. split.
    + intros [->|[Hn' Hs]]; [|by rewrite decide_False in Hs by (intros ->; done); auto]. split; [by left|].
      rewrite Hg. unfold ShardServer.get_shard_node. rewrite Hh. by eexists.
    + intros [[->|Hn'] Hs]; [by left|right]. split; [done|]. by rewrite decide_False by (intros ->; done).
Qed.

(** Calls that find nothing to do. *)
Lemma build_on_idle i members nodes s :
  (∀ n, n ∈ nodes → is_Some (held_by n i s.1)) → build_on i members nodes s = (s, Ok tt).
Proof.
  induction nodes as [|n nodes IH]; intros Hall; cbn [build_on]; [done|].
  destruct (Hall n ltac:(by left)) as [h Hh]. unfold held_by in Hh.
  destruct (get_shard_server n s.1) as [v|] eqn:Hg; [|done].
  rewrite (bind_run _ _ _ s v) by (unfold server; by rewrite Hg). rewrite Hh. apply IH. intros n' Hn'. apply Hall. by right.
Qed.
Lemma close_on_idle i nodes s :
  (∀ n, n ∈ nodes → held_by n i s.1 = None) → close_on patience i nodes s = (s, Ok []).
Proof.
  induction nodes as [|n nodes IH]; intros Hall; cbn [close_on]; [done|].
  rewrite (bind_run _ _ _ s (held_by n i s.1)) by done. rewrite Hall by (by left).
  apply IH. intros n' Hn'. apply Hall. by right.
Qed.

Lemma node_ids_touched i c c' : touched i c c' → node_ids c' = node_ids c.
Proof. intros Ht. unfold node_ids. by rewrite (tc_keys _ _ _ Ht). Qed.

Lemma sorted_set_idem l : sorted_set (sorted_set l) = sorted_set l.
Proof.
  apply (StronglySorted_unique Z.le); [apply sorted_sorted_set..|].
  apply NoDup_Permutation; [apply NoDup_sorted_set..|]. intros x. by rewrite elem_of_sorted_set.
Qed.
Lemma built_replicas i m v :
  peers_of i (sorted_set m) v → ShardServer._node_id v ∈ m → ShardServer.shard_replica_ids i v = sorted_set m.
Proof.
  intros Hp Hin. unfold ShardServer.shard_replica_ids. rewrite Hp. cbn [default].
  apply sort_member; [apply sorted_sorted_set|apply NoDup_sorted_set|by apply elem_of_sorted_set].
Qed.

(** The nodes [ensure_serving] closes. *)
Definition left_out (nodes : list Z) c : list Z := sorted_set (filter (λ n, n ∉ sorted_set nodes) (node_ids c)).
Lemma elem_of_left_out nodes c n : n ∈ left_out nodes c ↔ n ∉ nodes ∧ is_Some (get_shard_server n c).
Proof. unfold left_out. by rewrite elem_of_sorted_set, list_elem_of_filter, elem_of_sorted_set, elem_of_node_ids. Qed.

Lemma ensure_serving_idle i nodes r s :
  i < _num_shards s.1 → (∀ n, is_Some (held_by n i s.1) ↔ n ∈ nodes) →
  ensure_serving patience i nodes r s = (s, Ok []).
Proof.
  intros Hi Hall. unfold ensure_serving. rewrite (bind_run _ _ _ s (node_ids s.1)) by done.
  rewrite (bind_run _ _ _ s tt).
  2: { unfold change. rewrite Z.max_l by lia. by destruct s as [[] ?]. }
  rewrite (bind_run _ _ _ s tt) by (apply build_on_idle; intros n Hn; by apply Hall, elem_of_sorted_set).
  apply close_on_idle. intros n [Hn _]%elem_of_left_out.
  destruct (held_by n i s.1) eqn:Hh; [|done]. destruct Hn. apply Hall. by eexists.
Qed.

Lemma ensure_serving_steps i nodes r s s' closed :
  ensure_serving patience i nodes r s = (s', Ok closed) →
  let c := set_num_shards (Z.max (_num_shards s.1) (i + 1)) s.1 in
  ∃ c', touched i c c' ∧ touched i c' s'.1 ∧
  (∀ n, n ∈ nodes → is_Some (held_by n i c')) ∧
  (∀ n, n ∉ nodes ∨ is_Some (held_by n i s.1) → get_shard_server n c' = get_shard_server n s.1) ∧
  (∀ n v0 v, held_by n i s.1 = None → n ∈ nodes → get_shard_server n s.1 = Some v0 →
     get_shard_server n c' = Some v →
     peers_of i (given (if decide (sorted_set nodes = node_ids s.1) then None else Some nodes) i v0) v) ∧
  (∀ n, n ∈ left_out nodes s.1 → held_by n i s'.1 = None) ∧
  (∀ n, n ∉ left_out nodes s.1 → get_shard_server n s'.1 = get_shard_server n c') ∧
  (∀ n, n ∈ closed ↔ n ∈ left_out nodes s.1 ∧ is_Some (held_by n i c')).
Proof.
  unfold ensure_serving. intros Hr.
  apply bind_Ok_inv in Hr as (s1&ids&[= <- <-]&Hr). apply bind_Ok_inv in Hr as (s2&u2&[= <- _]&Hr).
  apply bind_Ok_inv in Hr as (s3&u3&Hbuild&Hclose). exists s3.1.
  destruct (build_on_spec _ _ _ _ _ _ Hbuild) as (Ht1&_&Hb&Ho&Hp). cbn [fst] in *.
  destruct (close_on_spec _ _ _ _ _ (NoDup_sorted_set _) Hclose) as (Ht2&Hc&Hoc&Hcl).
  split_and!; [done|done|..|done|done|done].
  - intros n Hn. by apply Hb, elem_of_sorted_set.
  - intros n Hn. apply Ho. by rewrite elem_of_sorted_set.
  - intros n v0 v Hno Hn Hv0 Hv. pose proof (Hp n v0 v Hno) as Hpn. rewrite elem_of_sorted_set in Hpn.
    specialize (Hpn Hn Hv0 Hv). case_decide; [done|]. cbn [given] in *. by rewrite sorted_set_idem in Hpn.
Qed.

(** C27: A shard is served by exactly the nodes it is given.  When [ensure_serving] returns,
    the nodes that hold a group for the shard are the ones it was given.  A node that already
    held one has kept that very group, whatever its replica set is.  A group it built on a
    part of the cluster has exactly the given nodes as its replicas; one it built when the
    whole cluster was given has the members that node's server was given last for the shard,
    and every node only if there were none.  No other shard's group was built or closed
    anywhere; the answer names exactly the nodes whose group was closed; and asking again
    changes nothing and closes nothing. *)
Theorem ensure_serving_is_exact i nodes r s s' closed :
  (∀ n v, get_shard_server n s.1 = Some v → ShardServer._node_id v = n) →
  ensure_serving patience i nodes r s = (s', Ok closed) →
  (∀ n, is_Some (held_by n i s'.1) ↔ n ∈ nodes) ∧
  (∀ n, n ∈ nodes → is_Some (held_by n i s.1) → get_shard_server n s'.1 = get_shard_server n s.1) ∧
  (∀ n v, n ∈ nodes → held_by n i s.1 = None → sorted_set nodes ≠ node_ids s.1 →
     get_shard_server n s'.1 = Some v → ShardServer.shard_replica_ids i v = sorted_set nodes) ∧
  (∀ n v0 v, n ∈ nodes → held_by n i s.1 = None → sorted_set nodes = node_ids s.1 →
     get_shard_server n s.1 = Some v0 → get_shard_server n s'.1 = Some v →
     ShardServer.shard_replica_ids i v
     = merge_sort Z.le (n :: filter (λ x, x ≠ n)
         (default (seqZ 1 (ShardServer._total_nodes v0)) (ShardServer._shard_members v0 !! i)))) ∧
  (∀ n j, j ≠ i → held_by n j s'.1 = held_by n j s.1) ∧
  (∀ n, n ∈ closed ↔ n ∉ nodes ∧ is_Some (held_by n i s.1)) ∧
  ensure_serving patience i nodes r s' = (s', Ok []).
Proof.
  intros Hnames Hr. destruct (ensure_serving_steps _ _ _ _ _ _ Hr) as (c'&Ht1&Ht2&Hb&Ho&Hp&Hc&Hoc&Hcl).
  pose proof (touched_trans _ _ _ _ Ht1 Ht2) as Ht.
  assert (Hin : ∀ n, n ∈ nodes → get_shard_server n s'.1 = get_shard_server n c').
  { intros n Hn. apply Hoc. rewrite elem_of_left_out. naive_solver. }
  assert (Hall : ∀ n, is_Some (held_by n i s'.1) ↔ n ∈ nodes).
  { intros n. split; [|intros Hn; unfold held_by; rewrite Hin by done; by apply Hb].
    intros [h Hh]. destruct (decide (n ∈ nodes)) as [|Hn]; [done|]. rewrite Hc in Hh; [done|].
    apply elem_of_left_out. split; [done|]. unfold held_by in Hh.
    destruct (get_shard_server n s'.1) as [v|] eqn:Hv; [|done].
    pose proof (node_ids_touched _ _ _ Ht) as Hids. change (node_ids s'.1 = node_ids s.1) in Hids.
    apply elem_of_node_ids. rewrite <-Hids. apply elem_of_node_ids. by eexists. }
  assert (Hid : ∀ n v, get_shard_server n c' = Some v →
    ∃ v0, get_shard_server n s.1 = Some v0 ∧ ShardServer._node_id v = n).
  { intros n v Hv. pose proof (tc_names _ _ _ Ht1 n) as Hn1. rewrite Hv in Hn1. unfold get_shard_server in *. cbn in Hn1.
    destruct (d_get (_shard_servers s.1) n) as [v0|] eqn:Hv0; [|done]. injection Hn1 as ->. by eauto. }
  split_and!; [done|..].
  - intros n Hn Hh. rewrite Hin by done. by apply Ho; right.
  - intros n v Hn Hno Hne Hv. rewrite Hin in Hv by done. destruct (Hid n v Hv) as (v0&Hv0&Hidv).
    apply built_replicas; [|by rewrite Hidv]. pose proof (Hp n v0 v Hno Hn Hv0 Hv) as Hpn.
    by rewrite decide_False in Hpn by done.
  - intros n v0 v Hn Hno He Hv0 Hv. rewrite Hin in Hv by done. destruct (Hid n v Hv) as (v1&_&Hidv).
    pose proof (Hp n v0 v Hno Hn Hv0 Hv) as Hpn. rewrite decide_True in Hpn by done.
    unfold ShardServer.shard_replica_ids. unfold peers_of in Hpn. by rewrite Hpn, Hidv.
  - intros n j Hj. by rewrite (tc_others _ _ _ Ht n j Hj).
  - intros n. rewrite Hcl, elem_of_left_out. unfold held_by. split.
    + intros [[Hn Hs] Hh]. split; [done|]. by rewrite Ho in Hh by (by left).
    + intros [Hn Hh]. split; [|by rewrite Ho by (by left)]. split; [done|].
      destruct (get_shard_server n s.1); [by eexists|by destruct Hh].
  - apply ensure_serving_idle; [|done]. rewrite (tc_frame _ _ _ Ht). cbn. lia.
Qed.

(** ** Handles of nodes that were closed *)

(** The node object was shut down, and follows. *)
Definition down (ns : list node) (h : nat) : Prop :=
  ∃ n, ns !! h = Some n ∧ MemoryRaftNode._shutdown_flag n = true ∧ MemoryRaftNode._state n = FOLLOWER.
(** The handles that are kept for a shard on some nodes are of nodes that were closed. *)
Definition stale (i : Z) (nodes : list Z) s : Prop := ∀ n, n ∈ nodes →
  ∃ h, LocalNodeClientFactory._clients (_node_clients s.1) !! (i, n) = Some h ∧ down s.2.1 h.

(** A node whose threads were stopped does not lead again. *)
Context (stays_down : ∀ ns w h, down ns h → down (sw_others ns w).1 h).

Lemma handle_kept i n r s h :
  LocalNodeClientFactory._clients (_node_clients s.1) !! (i, n) = Some h →
  handle i n r s = (s, Ok (Some h)).
Proof.
  intros Hh. unfold handle, LocalNodeClientFactory.get_client. cbn. rewrite Hh. by destruct s as [[] ?].
Qed.
Lemma read_index_down h (hw : list node * W) : down hw.1 h → read_index h hw = (hw, Ok None).
Proof.
  intros (n&Hn&_&Hf). unfold read_index, on_node. rewrite Hn.
  assert (MemoryRaftNode._read_index (sw_round h hw.2) n = (n, Ok None)) as ->.
  { unfold MemoryRaftNode._read_index. rewrite (bind_run _ _ _ n n) by done. by rewrite decide_True by (by rewrite Hf). }
  rewrite list_insert_id by done. by destruct hw.
Qed.

Lemma handle_keeps i n r s s' o :
  handle i n r s = (s', Ok o) →
  s'.2 = s.2 ∧
  (∀ key h, LocalNodeClientFactory._clients (_node_clients s.1) !! key = Some h →
     LocalNodeClientFactory._clients (_node_clients s'.1) !! key = Some h) ∧
  (∀ h, o = Some h → LocalNodeClientFactory._clients (_node_clients s'.1) !! (i, n) = Some h).
Proof.
  unfold handle, LocalNodeClientFactory.get_client. cbn [fst snd].
  destruct (LocalNodeClientFactory._clients (_node_clients s.1) !! (i, n)) as [h0|] eqn:Hh.
  { intros [= <- <-]. cbn. split_and!; [done..|]. by intros h [= ->]. }
  destruct (nh_node i n (r, s)) as [h0|]; intros [= <- <-]; cbn; (split_and!; [done| |]); try done.
  - intros key h Hk. rewrite lookup_insert_ne; [done|]. by intros <-; rewrite Hh in Hk.
  - intros h [= ->]. apply lookup_insert_eq.
Qed.
Lemma read_index_keeps_down h (hw hw' : list node * W) a h' :
  read_index h hw = (hw', a) → down hw.1 h' → down hw'.1 h'.
Proof.
  intros Hr Hd. destruct (decide (h = h')) as [->|Hne]; [rewrite read_index_down in Hr by done; by injection Hr as <- _|].
  unfold read_index, on_node in Hr. destruct (hw.1 !! h) as [n|]; [|by injection Hr as <- _].
  destruct (MemoryRaftNode._read_index _ n) as [n' b]. injection Hr as <- _. destruct Hd as (x&Hx&Hd).
  exists x. cbn. by rewrite list_lookup_insert_ne.
Qed.
(** Whatever is found is found on a node without such a handle. *)
Lemma stale_is_passed_over i gone nodes : ∀ r s s' o,
  stale i gone s → first_with_index i nodes r s = (s', Ok o) →
  stale i gone s' ∧ ∀ h, o = Some h → ∃ n, n ∈ nodes ∧ n ∉ gone ∧
    LocalNodeClientFactory._clients (_node_clients s'.1) !! (i, n) = Some h.
Proof.
  induction nodes as [|n nodes IH]; intros r s s' o Hs Hr; cbn [first_with_index] in Hr; [by injection Hr as <- <-|].
  apply bind_Ok_inv in Hr as (s1&c&Hc&Hr). destruct (handle_keeps _ _ _ _ _ _ Hc) as (E1&Hk&Hn).
  assert (stale i gone s1) as Hs1.
  { intros x Hx. destruct (Hs x Hx) as (h&Hh&Hd). exists h. rewrite E1. auto. }
  assert (Hrest : ∀ s2, stale i gone s2 → first_with_index i nodes r s2 = (s', Ok o) →
    stale i gone s' ∧ ∀ h, o = Some h → ∃ x, x ∈ n :: nodes ∧ x ∉ gone ∧
      LocalNodeClientFactory._clients (_node_clients s'.1) !! (i, x) = Some h).
  { intros s2 H2 H2r. destruct (IH _ _ _ _ H2 H2r) as [H2s Ho]. split; [done|].
    intros h Hh. destruct (Ho h Hh) as (x&?&?). exists x. split; [by right|done]. }
  destruct c as [h|]; [|by apply (Hrest s1)]. specialize (Hn h eq_refl).
  apply bind_Ok_inv in Hr as (s2&u&Ho&Hr). injection Ho as <- _.
  apply bind_Ok_inv in Hr as (s3&x&Hi&Hr). unfold below in Hi. cbn [fst snd] in Hi.
  destruct (read_index h _) as [hw a] eqn:Hri. injection Hi as <- ->.
  assert (∀ h', down s1.2.1 h' → down hw.1 h') as Hdown.
  { intros h' Hd. apply (read_index_keeps_down _ _ _ _ _ Hri). by apply stays_down. }
  assert (stale i gone (s1.1, hw)) as Hs3 by (intros y Hy; destruct (Hs1 y Hy) as (h'&?&?); exists h'; auto).
  destruct x as [ix|]; [|by apply (Hrest (s1.1, hw))]. injection Hr as <- <-. split; [done|]. intros h' [= <-].
  exists n. split; [by left|]. split; [|done]. intros Hg. destruct (Hs1 n Hg) as (h2&Hh2&Hd2).
  rewrite Hn in Hh2. injection Hh2 as <-. rewrite read_index_down in Hri by (by apply stays_down). done.
Qed.

Lemma stale_finds_nobody i all nodes : ∀ r s,
  nodes ⊆ all → stale i all s →
  ∃ s', first_with_index i nodes r s = (s', Ok None) ∧ stale i all s' ∧ s'.1 = s.1.
Proof.
  induction nodes as [|n nodes IH]; intros r s Hsub Hs; cbn [first_with_index]; [by exists s|].
  destruct (Hs n) as (h&Hh&Hd); [apply Hsub; by left|].
  rewrite (bind_run _ _ _ s (Some h)) by (by apply handle_kept).
  destruct s as [c [ns w]]. destruct (sw_others ns w) as [ns' w'] eqn:Ho.
  rewrite (bind_run _ _ _ (c, (ns', w')) tt) by (unfold below, others; cbn; by rewrite Ho).
  assert (Hall : ∀ h', down ns h' → down ns' h').
  { intros h' Hd'. change ns' with (ns', w').1. rewrite <-Ho. by apply stays_down. }
  rewrite (bind_run _ _ _ (c, (ns', w')) None).
  2: { unfold below. cbn. rewrite read_index_down by (by apply Hall). done. }
  destruct (IH r (c, (ns', w'))) as (s'&Hr&Hs'&Hc).
  - intros x Hx. apply Hsub. by right.
  - intros x Hx. destruct (Hs x Hx) as (hx&Hhx&Hdx). exists hx. auto.
  - exists s'. rewrite Hr. cbn in Hc. done.
Qed.

#[local] Instance side : RecoveryView st nat := view patience.
Lemma stale_waits i nodes polls : ∀ r s,
  stale i nodes s →
  ∃ s', RecoveryRunner.wait_for_group (C := nat) polls i nodes (r, s) = ((r, s'), Ok None) ∧ s'.1 = s.1.
Proof.
  induction polls as [|polls IH]; intros r s Hs; cbn [RecoveryRunner.wait_for_group];
    destruct (stale_finds_nobody i nodes nodes r s ltac:(done) Hs) as (s1&Hr&Hs1&Hc1);
    rewrite (bind_run _ _ _ (r, s1) None)
      by (unfold RecoveryRunner.view; cbn; unfold leader_client_for_nodes; by rewrite Hr).
  - by exists s1.
  - destruct (IH r s1 Hs1) as (s2&Hr2&Hc2). exists s2. split; [done|]. congruence.
Qed.

Lemma stale_is_waited_past i gone nodes polls : ∀ r s r' s' h,
  stale i gone s → RecoveryRunner.wait_for_group (C := nat) polls i nodes (r, s) = ((r', s'), Ok (Some h)) →
  ∃ n, n ∈ nodes ∧ n ∉ gone ∧ LocalNodeClientFactory._clients (_node_clients s'.1) !! (i, n) = Some h.
Proof.
  induction polls as [|polls IH]; intros r s r' s' h Hs Hr; cbn [RecoveryRunner.wait_for_group] in Hr;
    apply bind_Ok_inv in Hr as ([r1 s1]&c&Hc&Hr); unfold RecoveryRunner.view in Hc; cbn in Hc;
    unfold leader_client_for_nodes in Hc; destruct (first_with_index i nodes r s) as [s2 a] eqn:Hf;
    injection Hc as <- <- ->; destruct (stale_is_passed_over _ _ _ _ _ _ _ Hs Hf) as [Hs2 Ho].
  - destruct c as [c|]; [|done]. injection Hr as <- <- ->. by apply Ho.
  - destruct c as [c|]; [injection Hr as <- <- ->; by apply Ho|]. by apply (IH _ _ _ _ _ Hs2 Hr).
Qed.

(** Building leaves the nodes there are, and the handles that are kept, as they were. *)
Definition grown (h h' : list node * W) : Prop := ∀ j n, h.1 !! j = Some n → h'.1 !! j = Some n.
Lemma outside_heap {A} (m : M W A) (s s' : ShardServer.t * (list node * W)) x :
  ShardServer.below (outside m) s = (s', Ok x) → s'.2.1 = s.2.1.
Proof. unfold ShardServer.below, outside. cbn. destruct (m s.2.2). by intros [= <- _]. Qed.
Lemma add_shard_grows i members v (h h' : list node * W) v' hd :
  ShardServer.add_shard i members (v, h) = ((v', h'), Ok hd) → grown h h'.
Proof.
  unfold ShardServer.add_shard. intros Hr. apply bind_Ok_inv in Hr as (s1&started&[= <- <-]&Hr).
  destruct (ShardServer._started v); cbn [negb] in Hr; [|done].
  apply bind_Ok_inv in Hr as (s2&u&Hm&Hr). assert (s2.2 = h) as E2 by (destruct members; by injection Hm as <- _).
  apply bind_Ok_inv in Hr as (s3&me&[= <- <-]&Hr). apply bind_Ok_inv in Hr as (s4&storage&Hst&Hr).
  assert (s4.2.1 = h.1) as E4.
  { rewrite <-E2. destruct sw_storage as [f|]; [|by injection Hst as <- _].
    apply bind_Ok_inv in Hst as (s5&x&Hx&[= <- _]). by apply outside_heap in Hx. }
  apply bind_Ok_inv in Hr as (s5&peers&[= <- <-]&Hr). apply bind_Ok_inv in Hr as (s6&ads&[= <- <-]&Hr).
  apply bind_Ok_inv in Hr as (s7&u7&[= <- _]&Hr). apply bind_Ok_inv in Hr as (s8&sm&Hsm&Hr). apply outside_heap in Hsm.
  apply bind_Ok_inv in Hr as (s9&hd'&Hhd&Hr).
  assert (grown h s9.2) as E9.
  { unfold ShardServer.below, new_node in Hhd. destruct (MemoryRaftNode._load_from_storage _) as [n [?|?]]; [|done].
    injection Hhd as <- _. intros j x Hx. cbn. apply lookup_app_l_Some. congruence. }
  apply bind_Ok_inv in Hr as (sA&uA&[= <- <-]&Hr). apply bind_Ok_inv in Hr as (sB&ad&[= <- Had]&Hr).
  apply bind_Ok_inv in Hr as (sC&uC&HC&HE). injection HE as -> ->. destruct ad as [a|].
  - apply bind_Ok_inv in HC as (sD&uD&HD&HF). apply outside_heap in HD. injection HF as _ <-. intros j x Hx. cbn.
    rewrite HD. by apply E9.
  - injection HC as _ <-. exact E9.
Qed.

Lemma build_on_keeps i members nodes : ∀ s s' u,
  build_on i members nodes s = (s', Ok u) → grown s.2 s'.2.
Proof.
  induction nodes as [|n nodes IH]; intros s s' u Hr; cbn [build_on] in Hr.
  { injection Hr as <- _. by intros j x. }
  apply bind_Ok_inv in Hr as (s1&v&Hv&Hr). unfold server in Hv.
  destruct (get_shard_server n s.1) as [v0|] eqn:Hg; [|done]. injection Hv as <- <-.
  destruct (ShardServer.get_shard_node i v0); [by eapply IH|].
  apply bind_Ok_inv in Hr as (s2&hd&Ha&Hr). unfold on_server in Ha. rewrite Hg in Ha.
  destruct (ShardServer.add_shard i members (v0, s.2)) as [[v1 h1] a1] eqn:Hadd. injection Ha as <- ->.
  intros j x Hx. apply (IH _ _ _ Hr). cbn. by apply (add_shard_grows _ _ _ _ _ _ _ Hadd).
Qed.

(** C28: A member that is built again is never found.  The cluster keeps one handle for a shard
    on a node, and keeps it when the node's group is closed.  So on the nodes that were asked
    for their leader and whose group was closed since - by a move the routing table refused,
    say - a new attempt to move the shard builds the groups again and never gets one of them
    as its leader, however long it waits: what answers to the kept handle is the node object
    that was closed.  If it finds a leader at all it is on one of the other nodes, and if
    every node of the set is of that kind it waits in vain.  This supposes that a node whose
    threads were stopped while it followed does not lead again. *)
Theorem rebuilt_group_is_never_found i nodes gone polls r s s1 :
  stale i gone s → ensure_group_on i nodes r s = (s1, Ok tt) →
  (∀ n, n ∈ nodes → is_Some (held_by n i s1.1)) ∧
  (∀ r' s2 h, RecoveryRunner.wait_for_group (C := nat) polls i nodes (r, s1) = ((r', s2), Ok (Some h)) →
     ∃ n, n ∈ nodes ∧ n ∉ gone ∧ LocalNodeClientFactory._clients (_node_clients s2.1) !! (i, n) = Some h) ∧
  (nodes ⊆ gone →
     ∃ s2, RecoveryRunner.wait_for_group (C := nat) polls i nodes (r, s1) = ((r, s2), Ok None) ∧ s2.1 = s1.1).
Proof.
  intros Hs Hb. pose proof (build_on_spec _ _ _ _ _ _ Hb) as (Ht&_&Hheld&_).
  assert (stale i gone s1) as Hs1.
  { intros n Hn. destruct (Hs n Hn) as (h&Hh&(x&Hx&Hd)). exists h.
    split; [rewrite (tc_frame _ _ _ Ht); exact Hh|]. exists x. split; [by apply (build_on_keeps _ _ _ _ _ _ Hb)|done]. }
  split_and!; [exact Hheld|..].
  - intros r' s2 h Hw. by apply (stale_is_waited_past _ _ _ _ _ _ _ _ _ Hs1 Hw).
  - intros Hsub. apply stale_waits. intros n Hn. by apply Hs1, Hsub.
Qed.

(** ** Leaders among some nodes *)

(** What is found on some nodes is held by one of them, and leads. *)
Lemma leader_on_leads nodes i : ∀ s s' h,
  _leader_on nodes i s = (s', Ok (Some h)) →
  s' = s ∧ (∃ n, n ∈ nodes ∧ held_by n i s.1 = Some h) ∧
  ∃ x, s.2.1 !! h = Some x ∧ MemoryRaftNode._state x = LEADER.
Proof.
  induction nodes as [|n nodes IH]; intros s s' h Hr; cbn [_leader_on] in Hr; [done|].
  apply bind_Ok_inv in Hr as (s1&held&[= <- <-]&Hr).
  destruct (held_by n i s.1) as [g|] eqn:Hh.
  - apply bind_Ok_inv in Hr as (s1&x&Hx&Hr). unfold below, node_of in Hx.
    destruct (s.2.1 !! g) as [y|] eqn:Hg; [|done]. destruct s as [c hw]. injection Hx as <- <-.
    case_decide as Hl.
    + injection Hr as <- <-. split; [done|]. split; [exists n; split; [left|done]|]. by exists y.
    + apply IH in Hr as (->&(m&Hm&?)&?). split; [done|]. split; [|done]. exists m. split; [by right|done].
  - apply IH in Hr as (->&(m&Hm&?)&?). split; [done|]. split; [|done]. exists m. split; [by right|done].
Qed.

(** A wait that finds a leader finds one that has committed in its own term. *)
Lemma wait_for_leader_on_ready polls nodes i : ∀ s s' h,
  _wait_for_leader_on polls nodes i s = (s', Ok (Some h)) →
  ∃ x, s'.2.1 !! h = Some x ∧ MemoryRaftNode._state x = LEADER ∧
       MemoryRaftNode.has_committed_in_its_own_term x = true.
Proof.
  induction polls as [|polls IH]; intros s s' h Hr; cbn [_wait_for_leader_on] in Hr;
    apply bind_Ok_inv in Hr as (s1&leader&Hl&Hr); apply bind_Ok_inv in Hr as (s2&ready&Hy&Hr);
    (destruct leader as [g|]; [|injection Hy as <- <-]).
  - apply leader_on_leads in Hl as (->&_&(x&Hx&Hs)). apply bind_Ok_inv in Hy as (s3&y&Hy&[= <- <-]).
    unfold below, node_of in Hy. rewrite Hx in Hy. destruct s as [c hw]. injection Hy as <- <-.
    destruct (MemoryRaftNode.has_committed_in_its_own_term x) eqn:Hc; [|done]. injection Hr as <- <-. by exists x.
  - done.
  - apply leader_on_leads in Hl as (->&_&(x&Hx&Hs)). apply bind_Ok_inv in Hy as (s3&y&Hy&[= <- <-]).
    unfold below, node_of in Hy. rewrite Hx in Hy. destruct s as [c hw]. injection Hy as <- <-.
    destruct (MemoryRaftNode.has_committed_in_its_own_term x) eqn:Hc.
    + injection Hr as <- <-. by exists x.
    + apply bind_Ok_inv in Hr as (s4&?&_&Hr). by apply IH in Hr.
  - apply bind_Ok_inv in Hr as (s4&?&_&Hr). by apply IH in Hr.
Qed.
End facts.
