(* ===== verification/Wire.v ===== *)
(** What crosses a wire: [proto/client.proto], [proto/groups.proto], [proto/raft.proto], and
    the channels of gRPC.

    A message is a record of its fields.  A field with presence is an option; an integer
    field without presence is 0 when it was not written.  Writing an integer that the width
    of its field cannot hold raises, as does writing a value of another type.  The prose of
    [message] is left out.  gRPC itself is the class [Grpc]: [unary] is a call on a stub. *)

From Stdlib Require Import ZArith Lia.
From S2P Require Import Prelude Bytes PyVal Mvcc StateMachine Groups Tso Metadata.

(** ** Fields *)

(** An integer that does not fit its field is a [ValueError]; so is an [int64] one
    ([TSOServicer.int64]). *)
Definition uint64 (z : Z) : result Z :=
  if (0 <=? z) && (z <? 2 ^ 64) then Ok z else Raise ValueError.
Abbreviation int64 := TSOServicer.int64.

(** [message.field = v] for a field with presence that is written only when there is a value. *)
Definition optional_field {A} (field : A → result A) (v : option A) : result (option A) :=
  match v with None => Ok None | Some a => let? a := field a in Ok (Some a) end.

(** [message.field = v] for a [bytes] field. *)
Definition bytes_field (v : pyval) : result bytes :=
  match v with PBytes b => Ok b | _ => Raise TypeError end.

(** [Message(field=v)]: a keyword that is [None] leaves the field as it is. *)
Definition bytes_keyword (v : pyval) : result bytes :=
  match v with PNone => Ok [] | _ => bytes_field v end.
Definition double_keyword (v : pyval) : result Z :=
  match v with
  | PNone => Ok 0
  | PInt z | PFloat z => Ok z
  | PBool b => Ok (if b then 1 else 0)
  | _ => Raise TypeError
  end.

(** ** Messages *)

Module client_pb2.
Definition OK : Z := 0.
Definition NOT_LEADER : Z := 1.
Definition LOCKED : Z := 2.
Definition REFUSED : Z := 3.
Definition TIMEOUT : Z := 4.

Record GetRequest := { gq_key : bytes; gq_timestamp : option Z; gq_read_index : option Z }.
Record GetResponse := {
  gr_error_code : Z; gr_leader_address : option string; gr_value : option bytes;
  gr_commit_ts : Z; gr_read_index : Z }.

Record ScanRequest := {
  sq_start_key : bytes; sq_end_key : bytes; sq_timestamp : option Z; sq_read_index : option Z }.
Record KeyValuePair := { kv_key : bytes; kv_value : bytes; kv_commit_ts : Z }.
Record ScanResponse := {
  sp_error_code : Z; sp_leader_address : option string; sp_entries : list KeyValuePair;
  sp_locked_key : option bytes; sp_read_index : Z }.

Record ProposeRequest := { pq_command : bytes }.
Record ProposeResponse := {
  pr_error_code : Z; pr_leader_address : option string; pr_term : Z; pr_index : option Z;
  pr_data : option bytes }.

Record GetLockRequest := { lq_key : bytes }.
(** [lock_time] is a double; times are integers here. *)
Record LockRecord := {
  lr_key : bytes; lr_start_ts : Z; lr_status : bytes; lr_primary_key : bytes; lr_lock_time : Z;
  lr_value : bytes }.
Record GetLockResponse := { lp_error_code : Z; lp_lock : option LockRecord }.

Record GetWriteRecordRequest := { wq_key : bytes }.
Record GetWriteRecordResponse := {
  wp_error_code : Z; wp_start_ts : option Z; wp_commit_ts : option Z }.

Record FollowerReadIndexRequest := { fq_answer_locally : bool }.
Record FollowerReadIndexResponse := {
  fr_error_code : Z; fr_leader_address : option string; fr_read_index : Z }.
End client_pb2.

Module groups_msg.
Record ListShardsResponse := {
  ls_error_code : Z; ls_leader_address : option string; ls_shards : list ShardRecord;
  ls_version : Z }.
Record GetTimestampBatchResponse := {
  tb_error_code : Z; tb_leader_address : option string; tb_start_ts : option Z;
  tb_end_ts : option Z }.
End groups_msg.

Module raft_pb2.
Record RequestVoteRequest := {
  vq_term : Z; vq_candidate_id : Z; vq_last_log_index : Z; vq_last_log_term : Z }.
Record RequestVoteResponse := { vr_term : Z; vr_vote_granted : bool }.
Record Entry := { en_term : Z; en_index : Z; en_command : bytes }.
Record AppendEntriesRequest := {
  aq_term : Z; aq_leader_id : Z; aq_prev_log_index : Z; aq_prev_log_term : Z;
  aq_entries : list Entry; aq_leader_commit : Z }.
Record AppendEntriesResponse := { ap_term : Z; ap_success : bool; ap_match_index : Z }.
Record InstallSnapshotRequest := {
  iq_term : Z; iq_leader_id : Z; iq_last_included_index : Z; iq_last_included_term : Z;
  iq_data : bytes }.
Record InstallSnapshotResponse := { ip_term : Z; ip_success : bool }.
End raft_pb2.

(** ** Calls *)

(** The methods of the services, by the messages they take and answer. *)
Inductive rpc : Type → Type → Type :=
  | Get : rpc client_pb2.GetRequest client_pb2.GetResponse
  | Scan : rpc client_pb2.ScanRequest client_pb2.ScanResponse
  | Propose : rpc client_pb2.ProposeRequest client_pb2.ProposeResponse
  | GetLock : rpc client_pb2.GetLockRequest client_pb2.GetLockResponse
  | GetWriteRecord : rpc client_pb2.GetWriteRecordRequest client_pb2.GetWriteRecordResponse
  | FollowerReadIndex : rpc client_pb2.FollowerReadIndexRequest client_pb2.FollowerReadIndexResponse
  | ListShards : rpc unit groups_msg.ListShardsResponse
  | GetTimestampBatch : rpc Z groups_msg.GetTimestampBatchResponse
  | RequestVote : rpc raft_pb2.RequestVoteRequest raft_pb2.RequestVoteResponse
  | AppendEntries : rpc raft_pb2.AppendEntriesRequest raft_pb2.AppendEntriesResponse
  | InstallSnapshot : rpc raft_pb2.InstallSnapshotRequest raft_pb2.InstallSnapshotResponse.

(** How a call on a stub ends: with a response, with an [RpcError], or, on a channel that was
    closed, with the [ValueError] of "Cannot invoke RPC on closed channel!". *)
Inductive call (R : Type) := Answered (r : R) | RpcError | ChannelClosed.
Arguments Answered {R} _.
Arguments RpcError {R}.
Arguments ChannelClosed {R}.

(** gRPC: [grpc.insecure_channel], [channel.close], and a call on a stub over a channel. *)
Class Grpc (W Ch : Type) := {
  insecure_channel : string → W → W * Ch;
  channel_close : Ch → W → W;
  unary : ∀ {Q R : Type}, rpc Q R → Ch → Q → W → W * call R
}.

(** The processes that listen: what the servicer at an address does with a request. *)
Class Listening (W : Type) := {
  handle : ∀ {Q R : Type}, rpc Q R → string → Q → M W R
}.

(** What is relied on of a unary call: an answer is the answer of the
    servicer at the channel's address to this request; without one, either the servicer was
    never reached or what it answered was lost, and nothing is sent over a closed channel.  A
    servicer that raises has no answer. *)
Class GrpcLaws (W Ch : Type) `{Grpc W Ch} `{Listening W} := {
  channel_to : Ch → string;
  unary_answered {Q R} (m : rpc Q R) ch q w w' r : unary m ch q w = (w', Answered r) →
    handle m (channel_to ch) q w = (w', Ok r);
  unary_silent {Q R} (m : rpc Q R) ch q w w' : unary m ch q w = (w', RpcError) →
    w' = w ∨ ∃ r, handle m (channel_to ch) q w = (w', r);
  unary_closed {Q R} (m : rpc Q R) ch q w w' : unary m ch q w = (w', ChannelClosed) → w' = w
}.

(** ** Bounds *)

Lemma int64_Ok z z' : int64 z = Ok z' ↔ z' = z ∧ - 2 ^ 63 ≤ z < 2 ^ 63.
Proof.
  unfold int64. destruct ((- 2 ^ 63 <=? z) && (z <? 2 ^ 63)) eqn:E; zbool; split; intros; simplify_eq/=.
  all: naive_solver lia.
Qed.

Lemma uint64_Ok z z' : uint64 z = Ok z' ↔ z' = z ∧ 0 ≤ z < 2 ^ 64.
Proof.
  unfold uint64. destruct ((0 <=? z) && (z <? 2 ^ 64)) eqn:E; zbool; split; intros; simplify_eq/=.
  all: naive_solver lia.
Qed.

Lemma optional_field_Ok {A} (field : A → result A) v v' :
  (∀ a a', field a = Ok a' → a' = a) → optional_field field v = Ok v' → v' = v.
Proof.
  intros Hf. destruct v as [a|]; cbn; [|naive_solver].
  destruct (field a) as [a'|] eqn:E; cbn; [|done]. intros [= <-]. f_equal. by apply Hf.
Qed.

#[export] Hint Resolve -> int64_Ok uint64_Ok : oxide.
