(* ===== verification/ClientServicer.v ===== *)
(** A node's client primitives and the same primitives on a port:
    [client/node_client.py] and [raft/client_servicer.py].

    [NodeClient] is the protocol, [LocalNodeClient] the node in this process behind it, and
    [ClientServicer] that node answering requests.  A result comes with its attribute
    [leader_address]; the prose of a refusal is left out. *)

From Stdlib Require Import ZArith Lia.
From S2P Require Import Prelude Bytes PyVal PyOps Mvcc StateMachine Groups Tso Metadata Wire.

(** The protocol.  A range read is [scan_versions]; [scan] drops the versions. *)
Class NodeClient (W C : Type) := {
  nd_get : C → bytes → option Z → option Z → M W (ReadResult * option string);
  nd_scan_versions : C → bytes → bytes → option Z → option Z → M W (list (bytes * pyval * Z));
  nd_propose : C → bytes → M W (ApplyResult * option string);
  nd_get_lock : C → bytes → M W (option Lock);
  nd_get_write_record : C → bytes → M W (option WriteRecord);
  nd_follower_read_index : C → bool → M W (option Z)
}.

Definition nd_scan {W C} `{NodeClient W C} (client : C) (start_key end_key : bytes)
    (timestamp read_index : option Z) : M W (list (bytes * pyval)) :=
  let* rows := nd_scan_versions client start_key end_key timestamp read_index in
  ret (map fst rows).

(** What a [MemoryRaftNode] in this process answers, with the machine it holds. *)
Class NodeHere (W N : Type) := {
  nh_get : N → bytes → option Z → option Z → M W ReadResult;
  nh_scan_versions : N → bytes → bytes → option Z → option Z → M W (list (bytes * pyval * Z));
  nh_propose : N → bytes → M W ApplyResult;
  nh_get_lock_status : N → bytes → M W (option Lock);
  nh_get_write_record : N → bytes → M W (option WriteRecord);
  nh_read_index : N → M W (option Z);
  nh_current_term : N → W → Z
}.

Module LocalNodeClient.
Section local.
Context {W N : Type} `{NodeHere W N}.

Record t := { _node : N }.

Definition get (c : t) (key : bytes) (timestamp read_index : option Z) : M W ReadResult :=
  nh_get (_node c) key timestamp read_index.
Definition scan_versions (c : t) (start_key end_key : bytes) (timestamp read_index : option Z)
    : M W (list (bytes * pyval * Z)) := nh_scan_versions (_node c) start_key end_key timestamp read_index.
Definition propose (c : t) (command : bytes) : M W ApplyResult := nh_propose (_node c) command.
Definition get_lock (c : t) (key : bytes) : M W (option Lock) := nh_get_lock_status (_node c) key.
Definition get_write_record (c : t) (key : bytes) : M W (option WriteRecord) :=
  nh_get_write_record (_node c) key.
Definition follower_read_index (c : t) (answer_locally : bool) : M W (option Z) := nh_read_index (_node c).

(** A node in this process names no leader. *)
#[global] Instance client : NodeClient W t := {|
  nd_get c key timestamp read_index := let* r := get c key timestamp read_index in ret (r, None);
  nd_scan_versions := scan_versions;
  nd_propose c command := let* r := propose c command in ret (r, None);
  nd_get_lock := get_lock;
  nd_get_write_record := get_write_record;
  nd_follower_read_index := follower_read_index
|}.
End local.
Arguments t : clear implicits.
End LocalNodeClient.

(** ** The servicer *)

Module ClientServicer.
Section servicer.
Context {W N C : Type} `{NodeHere W N} `{NodeClient W C}.

(** [leader_address] and [client_at_address], where the servicer was given them. *)
Record t := {
  _client : LocalNodeClient.t N;
  _node : N;
  _leader_address : option (W → option string);
  _client_at_address : option (string → M W (option C))
}.
Definition init (node : N) (leader_address : option (W → option string))
    (client_at_address : option (string → M W (option C))) : t :=
  {| _client := {| LocalNodeClient._node := node |}; _node := node;
     _leader_address := leader_address; _client_at_address := client_at_address |}.

Definition lift {A} (r : result A) : M W A := reads (λ _, r).

Definition _wire_code (error_code : option Z) : Z :=
  if match error_code with None => true | Some c => c =? ErrorCode.SUCCESS end then client_pb2.OK
  else if is_not_leader error_code then client_pb2.NOT_LEADER
  else if match error_code with None => false | Some c => c =? ErrorCode.ERR_LOCKED end
  then client_pb2.LOCKED
  else if match error_code with None => false | Some c => c =? ErrorCode.ERR_TIMEOUT end
  then client_pb2.TIMEOUT
  else client_pb2.REFUSED.

(** [if address: ...]: an address that is there and is not empty. *)
Definition truthy (address : option string) : option string :=
  match address with
  | Some a => if decide (a = EmptyString) then None else Some a
  | None => None
  end.

(** The address [_add_leader_hint] writes, or [None] where it writes none. *)
Definition _add_leader_hint (s : t) (error_code : option Z) : M W (option string) := λ w,
  (w, Ok (if negb (_wire_code error_code =? client_pb2.NOT_LEADER) then None
          else match _leader_address s with
               | None => None
               | Some address => truthy (address w)
               end)).

(** [_the_basis_of_the_answer]: the field's value, 0 when nothing is written. *)
Definition _the_basis_of_the_answer (basis : option Z) : result Z :=
  match basis with None => Ok 0 | Some i => int64 i end.

(** The index, and the address the question was carried to in vain. *)
Definition _ask_the_leader (s : t) : M W (option Z * option string) := λ w,
  match truthy (match _leader_address s with Some f => f w | None => None end),
        _client_at_address s with
  | Some address, Some client_at_address =>
      (let* client := client_at_address address in
       match client with
       | None => ret (None, None)
       | Some client => λ w,
           match nd_follower_read_index client true w with
           | (w', Raise NodeUnreachable) => (w', Ok (None, Some address))
           | (w', Raise e) => (w', Raise e)
           | (w', Ok index) => (w', Ok (index, Some address))
           end
       end) w
  | _, _ => (w, Ok (None, None))
  end.

Definition _index_for_a_read (s : t) (named : option Z) : M W (option Z * option string) :=
  match named with
  | Some i => ret (Some i, None)
  | None =>
      let* read_index := LocalNodeClient.follower_read_index (_client s) false in
      match read_index with
      | Some i => ret (Some i, None)
      | None => _ask_the_leader s
      end
  end.

(** The leader's address that goes with a refusal of a read that has no index. *)
Definition _refusal_without_an_index (s : t) (carried_to : option string) : M W (option string) :=
  match carried_to with
  | None => _add_leader_hint s (Some ErrorCode.ERR_NOT_LEADER)
  | Some _ => ret None
  end.

Definition Get (s : t) (request : client_pb2.GetRequest) : M W client_pb2.GetResponse :=
  let* index := _index_for_a_read s (client_pb2.gq_read_index request) in
  match index with
  | (None, carried_to) =>
      let* hint := _refusal_without_an_index s carried_to in
      ret {| client_pb2.gr_error_code := client_pb2.NOT_LEADER;
             client_pb2.gr_leader_address := hint; client_pb2.gr_value := None;
             client_pb2.gr_commit_ts := 0; client_pb2.gr_read_index := 0 |}
  | (Some read_index, _) =>
      let* r := LocalNodeClient.get (_client s) (client_pb2.gq_key request)
                  (client_pb2.gq_timestamp request) (Some read_index) in
      let* basis := lift (_the_basis_of_the_answer (rr_read_index r)) in
      let* value := lift (if rr_success r && negb (bool_decide (rr_value r = PNone))
                          then let? v := bytes_field (rr_value r) in
                               let? c := int64 (rr_commit_ts r) in
                               Ok (Some v, c)
                          else Ok (None, 0)) in
      let* hint := _add_leader_hint s (rr_error_code r) in
      ret {| client_pb2.gr_error_code := _wire_code (rr_error_code r);
             client_pb2.gr_leader_address := hint; client_pb2.gr_value := value.1;
             client_pb2.gr_commit_ts := value.2; client_pb2.gr_read_index := basis |}
  end.

Definition scan_entry (row : bytes * pyval * Z) : result client_pb2.KeyValuePair :=
  let? value := bytes_field row.1.2 in
  let? commit_ts := int64 row.2 in
  Ok {| client_pb2.kv_key := row.1.1; client_pb2.kv_value := value;
        client_pb2.kv_commit_ts := commit_ts |}.

(** The answer to a range read: rows, or the refusal that was raised in their place. *)
Definition scan_answer (s : t) (read_index : Z) (rows : result (list (bytes * pyval * Z)))
    : M W client_pb2.ScanResponse :=
  match rows with
  | Raise (ScanRefused code key _) =>
      let* basis := lift (_the_basis_of_the_answer
                            (if code =? ErrorCode.ERR_TIMEOUT then None else Some read_index)) in
      let* hint := _add_leader_hint s (Some code) in
      ret {| client_pb2.sp_error_code := _wire_code (Some code);
             client_pb2.sp_leader_address := hint; client_pb2.sp_entries := [];
             client_pb2.sp_locked_key := key; client_pb2.sp_read_index := basis |}
  | Raise e => raise e
  | Ok rows =>
      let* basis := lift (_the_basis_of_the_answer (Some read_index)) in
      let* entries := lift (traverse scan_entry rows) in
      ret {| client_pb2.sp_error_code := client_pb2.OK;
             client_pb2.sp_leader_address := None; client_pb2.sp_entries := entries;
             client_pb2.sp_locked_key := None; client_pb2.sp_read_index := basis |}
  end.

Definition Scan (s : t) (request : client_pb2.ScanRequest) : M W client_pb2.ScanResponse :=
  let* index := _index_for_a_read s (client_pb2.sq_read_index request) in
  match index with
  | (None, carried_to) =>
      let* hint := _refusal_without_an_index s carried_to in
      ret {| client_pb2.sp_error_code := client_pb2.NOT_LEADER;
             client_pb2.sp_leader_address := hint; client_pb2.sp_entries := [];
             client_pb2.sp_locked_key := None; client_pb2.sp_read_index := 0 |}
  | (Some read_index, _) => λ w,
      let '(w', rows) := LocalNodeClient.scan_versions (_client s) (client_pb2.sq_start_key request)
                           (client_pb2.sq_end_key request) (client_pb2.sq_timestamp request)
                           (Some read_index) w in
      scan_answer s read_index rows w'
  end.

Definition Propose (s : t) (request : client_pb2.ProposeRequest) : M W client_pb2.ProposeResponse :=
  let* r := LocalNodeClient.propose (_client s) (client_pb2.pq_command request) in
  let* term := reads (λ w, int64 (nh_current_term (_node s) w)) in
  let* index := lift (optional_field int64 (ar_index r)) in
  let* hint := _add_leader_hint s (ar_error_code r) in
  ret {| client_pb2.pr_error_code := _wire_code (ar_error_code r);
         client_pb2.pr_leader_address := hint; client_pb2.pr_term := term;
         client_pb2.pr_index := index; client_pb2.pr_data := ar_data r |}.

(** [LockRecord(...)] of the record the machine answered. *)
Definition lock_record (l : Lock) : result client_pb2.LockRecord :=
  let? start_ts := int64 (lk_start_ts l) in
  let? status := bytes_keyword (lk_status l) in
  let? primary_key := bytes_keyword (lk_primary_key l) in
  let? lock_time := double_keyword (lk_lock_time l) in
  let? value := bytes_keyword (lk_value l) in
  Ok {| client_pb2.lr_key := lk_key l; client_pb2.lr_start_ts := start_ts;
        client_pb2.lr_status := status; client_pb2.lr_primary_key := primary_key;
        client_pb2.lr_lock_time := lock_time; client_pb2.lr_value := value |}.

Definition GetLock (s : t) (request : client_pb2.GetLockRequest) : M W client_pb2.GetLockResponse :=
  let* record := LocalNodeClient.get_lock (_client s) (client_pb2.lq_key request) in
  let* lock := lift (match record with
                     | None => Ok None
                     | Some l => let? r := lock_record l in Ok (Some r)
                     end) in
  ret {| client_pb2.lp_error_code := client_pb2.OK; client_pb2.lp_lock := lock |}.

Definition GetWriteRecord (s : t) (request : client_pb2.GetWriteRecordRequest)
    : M W client_pb2.GetWriteRecordResponse :=
  let* record := LocalNodeClient.get_write_record (_client s) (client_pb2.wq_key request) in
  let* start_ts := lift (optional_field int64 (wr_start_ts <$> record)) in
  let* commit_ts := lift (optional_field int64 (wr_commit_ts <$> record)) in
  ret {| client_pb2.wp_error_code := client_pb2.OK; client_pb2.wp_start_ts := start_ts;
         client_pb2.wp_commit_ts := commit_ts |}.

Definition FollowerReadIndex (s : t) (request : client_pb2.FollowerReadIndexRequest)
    : M W client_pb2.FollowerReadIndexResponse :=
  let* index := (if client_pb2.fq_answer_locally request
                 then let* i := LocalNodeClient.follower_read_index (_client s) false in ret (i, None)
                 else _index_for_a_read s None) in
  match index with
  | (None, carried_to) =>
      let* hint := _refusal_without_an_index s carried_to in
      ret {| client_pb2.fr_error_code := client_pb2.NOT_LEADER;
             client_pb2.fr_leader_address := hint; client_pb2.fr_read_index := 0 |}
  | (Some read_index, _) =>
      let* i := lift (int64 read_index) in
      ret {| client_pb2.fr_error_code := client_pb2.OK;
             client_pb2.fr_leader_address := None; client_pb2.fr_read_index := i |}
  end.
End servicer.
Arguments t : clear implicits.
End ClientServicer.
