(* ===== verification/RemoteNode.v ===== *)
(** A node across a wire: [client/remote_node_client.py] and [channels.py].

    [RemoteNodeClient] asks the primitives over a channel and rebuilds the answers.
    [ChannelPool] keeps one channel per address, and [RemoteNodeClientFactory] one handle per
    address, by the pair of a shard and a node; it is an instance of [NodeClientFactory], the
    interface the routing of a client is written against. *)

From Stdlib Require Import ZArith Lia.
From S2P Require Import Prelude Bytes PyVal PyOps Mvcc StateMachine Groups Tso Metadata Routing Wire ClientServicer.

Module RemoteNodeClient.
Section remote.
Context {W Ch : Type} `{Grpc W Ch}.

Record t := { _address : string; _channel : Ch }.

(** [RemoteNodeClient(address, channel=...)]: without a channel it opens its own. *)
Definition init (address : string) (channel : option Ch) : M W t := λ w,
  match channel with
  | Some ch => (w, Ok {| _address := address; _channel := ch |})
  | None => let '(w', ch) := insecure_channel address w in
            (w', Ok {| _address := address; _channel := ch |})
  end.

Definition lift {A} (r : result A) : M W A := reads (λ _, r).

Definition _call {Q R} (c : t) (method : rpc Q R) (request : Q) : M W R := λ w,
  match unary method (_channel c) request w with
  | (w', Answered r) => (w', Ok r)
  | (w', RpcError) => (w', Raise NodeUnreachable)
  | (w', ChannelClosed) => (w', Raise ValueError)
  end.

(** [response.read_index or None]. *)
Definition _read_index_of (read_index : Z) : option Z :=
  if read_index =? 0 then None else Some read_index.

(** [_failure]: the code and the hint; the message is prose. *)
Definition _failure (error_code : Z) (leader_address : option string) : Z * option string :=
  (local_code (Some error_code), leader_address).

Definition get (c : t) (key : bytes) (timestamp read_index : option Z)
    : M W (ReadResult * option string) :=
  let* ts := lift (optional_field int64 timestamp) in
  let* index := lift (optional_field int64 read_index) in
  let* r := _call c Get {| client_pb2.gq_key := key; client_pb2.gq_timestamp := ts;
                           client_pb2.gq_read_index := index |} in
  let basis := _read_index_of (client_pb2.gr_read_index r) in
  if client_pb2.gr_error_code r =? client_pb2.OK then
    ret ({| rr_success := true;
            rr_value := match client_pb2.gr_value r with Some v => PBytes v | None => PNone end;
            rr_commit_ts := client_pb2.gr_commit_ts r; rr_error_code := None;
            rr_read_index := basis |}, None)
  else
    let '(code, hint) := _failure (client_pb2.gr_error_code r) (client_pb2.gr_leader_address r) in
    ret ({| rr_success := false; rr_value := PNone; rr_commit_ts := 0;
            rr_error_code := Some code; rr_read_index := basis |}, hint).

Definition scan_versions (c : t) (start_key end_key : bytes) (timestamp read_index : option Z)
    : M W (list (bytes * bytes * Z)) :=
  let* ts := lift (optional_field int64 timestamp) in
  let* index := lift (optional_field int64 read_index) in
  let* r := _call c Scan {| client_pb2.sq_start_key := start_key; client_pb2.sq_end_key := end_key;
                            client_pb2.sq_timestamp := ts; client_pb2.sq_read_index := index |} in
  if negb (client_pb2.sp_error_code r =? client_pb2.OK) then
    let '(code, hint) := _failure (client_pb2.sp_error_code r) (client_pb2.sp_leader_address r) in
    raise (ScanRefused code (client_pb2.sp_locked_key r) hint)
  else ret (map (λ e, (client_pb2.kv_key e, client_pb2.kv_value e, client_pb2.kv_commit_ts e))
              (client_pb2.sp_entries r)).

Definition scan (c : t) (start_key end_key : bytes) (timestamp read_index : option Z)
    : M W (list (bytes * bytes)) :=
  let* rows := scan_versions c start_key end_key timestamp read_index in
  ret (map fst rows).

Definition propose (c : t) (command : bytes) : M W (ApplyResult * option string) :=
  let* r := _call c Propose {| client_pb2.pq_command := command |} in
  if negb (client_pb2.pr_error_code r =? client_pb2.OK) then
    let '(code, hint) := _failure (client_pb2.pr_error_code r) (client_pb2.pr_leader_address r) in
    ret (apply_failure code, hint)
  else ret ({| ar_success := true; ar_error_code := Some ErrorCode.SUCCESS;
               ar_data := client_pb2.pr_data r; ar_index := client_pb2.pr_index r |}, None).

Definition get_lock (c : t) (key : bytes) : M W (option Lock) :=
  let* r := _call c GetLock {| client_pb2.lq_key := key |} in
  match client_pb2.lp_lock r with
  | None => ret None
  | Some l => ret (Some {| lk_key := client_pb2.lr_key l; lk_start_ts := client_pb2.lr_start_ts l;
                           lk_status := PBytes (client_pb2.lr_status l);
                           lk_primary_key := PBytes (client_pb2.lr_primary_key l);
                           lk_lock_time := PFloat (client_pb2.lr_lock_time l);
                           lk_value := PBytes (client_pb2.lr_value l) |})
  end.

Definition get_write_record (c : t) (key : bytes) : M W (option WriteRecord) :=
  let* r := _call c GetWriteRecord {| client_pb2.wq_key := key |} in
  match client_pb2.wp_start_ts r, client_pb2.wp_commit_ts r with
  | None, None => ret None
  | start_ts, commit_ts =>
      ret (Some {| wr_start_ts := default 0 start_ts; wr_commit_ts := default 0 commit_ts |})
  end.

Definition follower_read_index (c : t) (answer_locally : bool) : M W (option Z) :=
  let* r := _call c FollowerReadIndex {| client_pb2.fq_answer_locally := answer_locally |} in
  if negb (client_pb2.fr_error_code r =? client_pb2.OK) then ret None
  else ret (Some (client_pb2.fr_read_index r)).

Definition close (c : t) : M W unit := λ w, (channel_close (_channel c) w, Ok tt).

#[global] Instance client : NodeClient W t := {|
  nd_get := get;
  nd_scan_versions c start_key end_key timestamp read_index :=
    let* rows := scan_versions c start_key end_key timestamp read_index in
    ret (map (λ r, (r.1.1, PBytes r.1.2, r.2)) rows);
  nd_propose := propose;
  nd_get_lock := get_lock;
  nd_get_write_record := get_write_record;
  nd_follower_read_index := follower_read_index
|}.
End remote.
Arguments t : clear implicits.
End RemoteNodeClient.

(** ** Channels by address *)

Module ChannelPool.
Section pool.
Context {W Ch : Type} `{Grpc W Ch}.

Record t := { _channels : gmap string Ch }.
Definition init : t := {| _channels := ∅ |}.

Definition channel (address : string) : M (t * W) Ch := λ '(p, w),
  match _channels p !! address with
  | Some ch => ((p, w), Ok ch)
  | None => let '(w', ch) := insecure_channel address w in
            (({| _channels := <[address := ch]> (_channels p) |}, w'), Ok ch)
  end.

Definition forget (address : string) : M (t * W) unit := λ '(p, w),
  match _channels p !! address with
  | None => ((p, w), Ok tt)
  | Some ch => (({| _channels := base.delete address (_channels p) |}, channel_close ch w), Ok tt)
  end.

Definition close : M (t * W) unit := λ '(p, w),
  ((init, foldl (λ w e, channel_close e.2 w) w (map_to_list (_channels p))), Ok tt).
End pool.
Arguments t : clear implicits.
End ChannelPool.

(** ** Handles by shard and node *)

Module RemoteNodeClientFactory.
Section factory.
Context {W Ch : Type} `{Grpc W Ch}.

Record t := {
  _addresses : gmap (Z * Z) string;
  _clients : gmap string (RemoteNodeClient.t Ch);
  _channels : ChannelPool.t Ch
}.
Definition init : t := {| _addresses := ∅; _clients := ∅; _channels := ChannelPool.init |}.

Definition with_addresses (m : gmap (Z * Z) string) (f : t) : t :=
  {| _addresses := m; _clients := _clients f; _channels := _channels f |}.
Definition with_clients (m : gmap string (RemoteNodeClient.t Ch)) (f : t) : t :=
  {| _addresses := _addresses f; _clients := m; _channels := _channels f |}.

Definition modify (g : t → t) : M (t * W) unit := λ '(f, w), ((g f, w), Ok tt).

(** A call on the pool. *)
Definition pool {A} (m : M (ChannelPool.t Ch * W) A) : M (t * W) A := λ '(f, w),
  let '((p, w'), a) := m (_channels f, w) in
  (({| _addresses := _addresses f; _clients := _clients f; _channels := p |}, w'), a).
Definition world {A} (m : M W A) : M (t * W) A := λ '(f, w),
  let '(w', a) := m w in ((f, w'), a).

Definition _client_for (address : string) : M (t * W) (RemoteNodeClient.t Ch) := λ '(f, w),
  match _clients f !! address with
  | Some client => ((f, w), Ok client)
  | None =>
      (let* ch := pool (ChannelPool.channel address) in
       let* client := world (RemoteNodeClient.init address (Some ch)) in
       modify (λ f, with_clients (<[address := client]> (_clients f)) f);;;
       ret client) (f, w)
  end.

Definition get_client (shard_id node_id : Z) (address : option string)
    : M (t * W) (option (RemoteNodeClient.t Ch)) :=
  let* address := (match address with
                   | None => λ '(f, w), ((f, w), Ok (_addresses f !! (shard_id, node_id)))
                   | Some a => modify (λ f, with_addresses (<[(shard_id, node_id) := a]> (_addresses f)) f);;;
                               ret (Some a)
                   end) in
  match address with
  | None => ret None
  | Some a => let* client := _client_for a in ret (Some client)
  end.

Definition get_client_at (shard_id : Z) (address : string) : M (t * W) (option (RemoteNodeClient.t Ch)) :=
  let* client := _client_for address in ret (Some client).

(** [forget_client] in the two steps between which its lock is free: the handle is dropped,
    then the channel is closed. *)
Definition forget_handle (shard_id node_id : Z) : M (t * W) (option string) := λ '(f, w),
  match _addresses f !! (shard_id, node_id) with
  | None => ((f, w), Ok None)
  | Some address => ((with_clients (base.delete address (_clients f)) f, w), Ok (Some address))
  end.
Definition forget_channel (address : option string) : M (t * W) unit :=
  match address with None => ret tt | Some a => pool (ChannelPool.forget a) end.
Definition forget_client (shard_id node_id : Z) : M (t * W) unit :=
  let* address := forget_handle shard_id node_id in forget_channel address.

Definition close : M (t * W) unit :=
  modify (λ f, {| _addresses := ∅; _clients := ∅; _channels := _channels f |});;;
  pool ChannelPool.close.

#[global] Instance handles : NodeClientFactory (t * W) (RemoteNodeClient.t Ch) := {|
  nf_get_client := get_client;
  nf_get_client_at := get_client_at;
  nf_forget_client := forget_client;
  nf_address c := Some (RemoteNodeClient._address c)
|}.
End factory.
Arguments t : clear implicits.
End RemoteNodeClientFactory.
