(* ===== verification/RemoteFacts.v ===== *)
(** A caller across a wire gets the answers of the node: facts about [RemoteNodeClient] over
    [ClientServicer].

    The theorems are about any wire with [GrpcLaws] that has a servicer behind a channel
    ([serves]), and any node whose answers are [CleanNode]; the last section shows the latter
    of a [MemoryRaftNode] over the versioned store. *)

From Stdlib Require Import ZArith Lia.
From S2P Require Import Prelude Bytes PyVal PyOps Engine Mvcc StateMachine Groups Tso Metadata RaftStorage RaftNode Wire ClientServicer RemoteNode.

#[local] Arguments local_code : simpl never.

(** A code after the wire. *)
Definition carried (code : option Z) : Z := local_code (Some (ClientServicer._wire_code code)).

(** The refusals of a read, and what a refusal of a proposal has in common with success. *)
Definition read_code (code : Z) : Prop :=
  code = ErrorCode.ERR_NOT_LEADER ∨ code = ErrorCode.ERR_LOCKED ∨ code = ErrorCode.ERR_TIMEOUT.
Definition clean_read (r : ReadResult) : Prop :=
  if rr_success r then rr_error_code r = None ∧ (rr_value r = PNone → rr_commit_ts r = 0)
  else rr_value r = PNone ∧ rr_commit_ts r = 0 ∧ ∃ code, rr_error_code r = Some code ∧ read_code code.

(** What the servicer relies on of its node: the shape of its results. *)
Class CleanNode (W N : Type) `{NodeHere W N} := {
  clean_get n key timestamp i w w' r :
    nh_get n key timestamp (Some i) w = (w', Ok r) →
    clean_read r ∧ (rr_read_index r = Some i ∨ rr_read_index r = None);
  clean_scan n start_key end_key timestamp i w w' code key hint :
    nh_scan_versions n start_key end_key timestamp (Some i) w = (w', Raise (ScanRefused code key hint)) →
    read_code code
}.

(** The answer of a machine: a code says whether it is a success. *)
Definition clean_apply (r : ApplyResult) : Prop :=
  ∃ code, ar_error_code r = Some code ∧ ar_success r = (code =? ErrorCode.SUCCESS).

Lemma wire_code_ok code :
  ClientServicer._wire_code code = client_pb2.OK ↔ code = None ∨ code = Some ErrorCode.SUCCESS.
Proof.
  unfold ClientServicer._wire_code, is_not_leader. destruct code as [c|]; [|naive_solver].
  unfold client_pb2.OK, client_pb2.NOT_LEADER, client_pb2.LOCKED, client_pb2.TIMEOUT, client_pb2.REFUSED.
  split; [|intros [|[= ->]]; done]. intros Hc. repeat case_match; zbool; simplify_eq; auto.
Qed.

Lemma wire_code_not_leader code :
  ClientServicer._wire_code code = client_pb2.NOT_LEADER → is_not_leader code = true.
Proof. unfold ClientServicer._wire_code. repeat case_match; done. Qed.

Lemma read_code_carried code : read_code code → carried (Some code) = code.
Proof. intros [-> | [-> | ->]]; reflexivity. Qed.

Lemma read_code_refused code : read_code code → ClientServicer._wire_code (Some code) ≠ client_pb2.OK.
Proof. by intros [-> | [-> | ->]]. Qed.

(** Folding a code keeps what a caller branches on. *)
Lemma carried_branches code :
  ClientServicer._wire_code code ≠ client_pb2.OK →
  is_not_leader (Some (carried code)) = is_not_leader code ∧
  (carried code = ErrorCode.ERR_LOCKED ↔ code = Some ErrorCode.ERR_LOCKED) ∧
  (carried code = ErrorCode.ERR_TIMEOUT ↔ code = Some ErrorCode.ERR_TIMEOUT) ∧
  carried code ≠ ErrorCode.SUCCESS.
Proof.
  unfold carried, ClientServicer._wire_code, is_not_leader. destruct code as [c|]; [|done].
  destruct (Z.eqb_spec c ErrorCode.SUCCESS) as [->|?]; [done|]. intros _.
  destruct (Z.eqb_spec c ErrorCode.ERR_NOT_LEADER) as [->|?]; cbn; [naive_solver|].
  destruct (Z.eqb_spec c ErrorCode.ERR_LEADERSHIP_LOST) as [->|?]; cbn; [naive_solver|].
  destruct (Z.eqb_spec c ErrorCode.ERR_LOCKED) as [->|?]; cbn; [naive_solver|].
  destruct (Z.eqb_spec c ErrorCode.ERR_TIMEOUT) as [->|?]; cbn; naive_solver.
Qed.

Section wire.
Context {W Ch N C : Type} `{GrpcLaws W Ch} `{NodeHere W N} `{!NodeClient W C}.
Abbreviation servicer := (ClientServicer.t W N C).

(** The address is where the servicer listens. *)
Record serves (address : string) (s : servicer) : Prop := {
  serves_get q w : handle Get address q w = ClientServicer.Get s q w;
  serves_scan q w : handle Scan address q w = ClientServicer.Scan s q w;
  serves_propose q w : handle Propose address q w = ClientServicer.Propose s q w;
  serves_get_lock q w : handle GetLock address q w = ClientServicer.GetLock s q w;
  serves_get_write_record q w :
    handle GetWriteRecord address q w = ClientServicer.GetWriteRecord s q w;
  serves_read_index q w :
    handle FollowerReadIndex address q w = ClientServicer.FollowerReadIndex s q w
}.

Lemma call_Ok {Q R} c (m : rpc Q R) q w w' r :
  RemoteNodeClient._call c m q w = (w', Ok r) →
  handle m (channel_to (RemoteNodeClient._channel c)) q w = (w', Ok r).
Proof.
  unfold RemoteNodeClient._call. destruct (unary _ _ _ w) as [w1 [x| |]] eqn:Hu; [|done..].
  intros [= -> ->]. by apply unary_answered.
Qed.

Lemma lift_Ok {A} (x : result A) (w w' : W) a :
  reads (λ _, x) w = (w', Ok a) → w' = w ∧ x = Ok a.
Proof. unfold reads. naive_solver. Qed.

Lemma optional_int64 v v' : optional_field int64 v = Ok v' → v' = v.
Proof. apply optional_field_Ok. intros a a' Ha. by apply int64_Ok in Ha as [-> _]. Qed.

Lemma optional_field_raise v e : optional_field int64 v = Raise e → e = ValueError.
Proof. destruct v as [z|]; cbn; [|done]. unfold int64. case_match; cbn; naive_solver. Qed.

Lemma basis_Ok b z :
  ClientServicer._the_basis_of_the_answer b = Ok z → b ≠ Some 0 → RemoteNodeClient._read_index_of z = b.
Proof.
  destruct b as [i|]; cbn; [|by intros [= <-]].
  intros [-> _]%int64_Ok Hi. unfold RemoteNodeClient._read_index_of.
  destruct (Z.eqb_spec i 0); [naive_solver|done].
Qed.

(** ** Reads *)

Abbreviation node_of s := (LocalNodeClient._node (ClientServicer._client s)).

(** The result a client rebuilds of the servicer's answer is the node's. *)
Definition rebuilt (r : client_pb2.GetResponse) : ReadResult :=
  if client_pb2.gr_error_code r =? client_pb2.OK then
    {| rr_success := true;
       rr_value := match client_pb2.gr_value r with Some v => PBytes v | None => PNone end;
       rr_commit_ts := client_pb2.gr_commit_ts r; rr_error_code := None;
       rr_read_index := RemoteNodeClient._read_index_of (client_pb2.gr_read_index r) |}
  else
    {| rr_success := false; rr_value := PNone; rr_commit_ts := 0;
       rr_error_code := Some (local_code (Some (client_pb2.gr_error_code r)));
       rr_read_index := RemoteNodeClient._read_index_of (client_pb2.gr_read_index r) |}.

Lemma get_Ok c key ts i w w' r hint :
  RemoteNodeClient.get c key ts i w = (w', Ok (r, hint)) →
  ∃ resp, handle Get (channel_to (RemoteNodeClient._channel c))
            {| client_pb2.gq_key := key; client_pb2.gq_timestamp := ts; client_pb2.gq_read_index := i |} w
          = (w', Ok resp) ∧ r = rebuilt resp ∧
          hint = (if client_pb2.gr_error_code resp =? client_pb2.OK then None
                  else client_pb2.gr_leader_address resp).
Proof.
  unfold RemoteNodeClient.get. intros Hr. mstep Hr. apply lift_Ok in Hm as [-> ->%optional_int64].
  mstep Hr. apply lift_Ok in Hm as [-> ->%optional_int64]. mstep Hr. apply call_Ok in Hm.
  exists a. unfold rebuilt. destruct (client_pb2.gr_error_code a =? client_pb2.OK).
  - by injection Hr as <- <- <-.
  - by injection Hr as <- <- <-.
Qed.

(** The fields of an answer that was made at an index. *)
Lemma Get_answer `{!CleanNode W N} (s : servicer) q w w1 w' i x resp :
  ClientServicer._index_for_a_read s (client_pb2.gq_read_index q) w = (w1, Ok (Some i, x)) →
  i ≠ 0 → ClientServicer.Get s q w = (w', Ok resp) →
  ∃ r, nh_get (node_of s) (client_pb2.gq_key q) (client_pb2.gq_timestamp q) (Some i) w1 = (w', Ok r)
       ∧ rebuilt resp = r
       ∧ (is_Some (client_pb2.gr_leader_address resp) → rr_error_code r = Some ErrorCode.ERR_NOT_LEADER).
Proof.
  unfold ClientServicer.Get. intros Hi Hi0. rewrite (bind_run _ _ _ _ _ Hi). intros Hr.
  mstep Hr. unfold LocalNodeClient.get in Hm. exists a. destruct (clean_get _ _ _ _ _ _ _ Hm) as [Hc Hb].
  mstep Hr. apply lift_Ok in Hm0 as [-> Hbasis]. mstep Hr. apply lift_Ok in Hm0 as [-> Hv].
  mstep Hr. injection Hm0 as <- <-. injection Hr as <- <-. split; [done|].
  apply basis_Ok in Hbasis; [|naive_solver]. unfold rebuilt, clean_read in *. cbn. rewrite Hbasis.
  destruct a as [[|] v ct code b]; cbn in *.
  - destruct Hc as [-> Hct]. cbn. split; [|done].
    destruct (decide (v = PNone)) as [->|Hnone]; cbn in Hv.
    { injection Hv as <-. cbn. by rewrite Hct. }
    rewrite bool_decide_eq_false_2 in Hv by done. cbn in Hv. destruct v; cbn in Hv; try done.
    apply rbind_Ok in Hv as (z & [-> _]%int64_Ok & [= <-]). done.
  - destruct Hc as (-> & -> & code' & -> & Hcode). injection Hv as <-.
    destruct Hcode as [-> | [-> | ->]]; (split; [done|]); cbn; [done|by intros [? ?]..].
Qed.

(** A servicer answers whatever its node answers, if it fits the fields. *)
Definition fits (v : ReadResult) : Prop :=
  (∀ i, rr_read_index v = Some i → - 2 ^ 63 ≤ i < 2 ^ 63) ∧ - 2 ^ 63 ≤ rr_commit_ts v < 2 ^ 63 ∧
  (rr_value v = PNone ∨ ∃ b, rr_value v = PBytes b).

Lemma int64_fits z : - 2 ^ 63 ≤ z < 2 ^ 63 → int64 z = Ok z.
Proof. intros. by apply int64_Ok. Qed.

Lemma Get_answers (s : servicer) key ts i w w' r :
  nh_get (node_of s) key ts (Some i) w = (w', Ok r) → fits r →
  ∃ resp, ClientServicer.Get s {| client_pb2.gq_key := key; client_pb2.gq_timestamp := ts;
                                  client_pb2.gq_read_index := Some i |} w = (w', Ok resp).
Proof.
  intros Hr (Hi & Hc & Hv). unfold ClientServicer.Get. cbn -[ClientServicer.lift].
  erewrite bind_run by exact Hr.
  assert (ClientServicer._the_basis_of_the_answer (rr_read_index r) = Ok (default 0 (rr_read_index r))) as Hb.
  { destruct (rr_read_index r) as [j|]; cbn; [|done]. apply int64_fits. by apply Hi. }
  unfold ClientServicer.lift. erewrite bind_run by (unfold reads; by rewrite Hb).
  assert (∃ x, (if rr_success r && negb (bool_decide (rr_value r = PNone))
                then let? v := bytes_field (rr_value r) in let? c := int64 (rr_commit_ts r) in Ok (Some v, c)
                else Ok (None, 0)) = Ok x) as [x Hx].
  { destruct (rr_success r); cbn; [|by eexists]. destruct Hv as [-> | [b ->]]; cbn; [by eexists|].
    rewrite int64_fits by done. by eexists. }
  erewrite bind_run by (unfold reads; by rewrite Hx). cbn. by eexists.
Qed.

(** C32: A read that names an index is the node's own read, whichever side of a wire the caller
    is on: the answer the remote client rebuilds is the [ReadResult] of the node, field for
    field, refusals included, and a leader is named only by a node that does not lead.  And
    the node's answer does arrive at the servicer's end: where it fits the message, the
    servicer has a response to it. *)
Theorem remote_get_is_local_get `{!CleanNode W N} c (s : servicer) key ts i w :
  serves (channel_to (RemoteNodeClient._channel c)) s → i ≠ 0 →
  (∀ w' r hint, RemoteNodeClient.get c key ts (Some i) w = (w', Ok (r, hint)) →
     LocalNodeClient.get (ClientServicer._client s) key ts (Some i) w = (w', Ok r) ∧
     (is_Some hint → rr_error_code r = Some ErrorCode.ERR_NOT_LEADER)) ∧
  (∀ w' r, LocalNodeClient.get (ClientServicer._client s) key ts (Some i) w = (w', Ok r) → fits r →
     ∃ resp, handle Get (channel_to (RemoteNodeClient._channel c))
               {| client_pb2.gq_key := key; client_pb2.gq_timestamp := ts;
                  client_pb2.gq_read_index := Some i |} w = (w', Ok resp) ∧ rebuilt resp = r).
Proof.
  intros Hs Hi. split.
  - intros w' r hint (resp & Hh & -> & ->)%get_Ok. rewrite (serves_get _ _ Hs) in Hh.
    destruct (Get_answer s {| client_pb2.gq_key := key; client_pb2.gq_timestamp := ts; client_pb2.gq_read_index := Some i |}
                w w _ i None resp eq_refl Hi Hh) as (r & Hr & Hreb & Hhint).
    rewrite Hreb. split; [done|]. case_match; [by intros [? ?]|done].
  - intros w' r Hr Hfits. rewrite (serves_get _ _ Hs).
    destruct (Get_answers s key ts i w w' r Hr Hfits) as [resp Hresp]. exists resp. split; [done|].
    destruct (Get_answer s {| client_pb2.gq_key := key; client_pb2.gq_timestamp := ts; client_pb2.gq_read_index := Some i |}
                w w _ i None resp eq_refl Hi Hresp) as (r' & Hr' & Hreb & _).
    change (LocalNodeClient.get (ClientServicer._client s) key ts (Some i) w = (w', Ok r')) in Hr'.
    rewrite Hr in Hr'. by injection Hr' as ->.
Qed.

Lemma Get_basis `{!CleanNode W N} (s : servicer) q w w' resp i :
  ClientServicer.Get s q w = (w', Ok resp) →
  RemoteNodeClient._read_index_of (client_pb2.gr_read_index resp) = Some i →
  i ≠ 0 ∧ ∃ w1 x, ClientServicer._index_for_a_read s (client_pb2.gq_read_index q) w = (w1, Ok (Some i, x)).
Proof.
  unfold ClientServicer.Get. intros Hr Hi. mstep Hr. destruct a as [[j|] x].
  2: { mstep Hr. by injection Hr as <- <-. }
  mstep Hr. destruct (clean_get _ _ _ _ _ _ _ Hm0) as [_ Hb].
  mstep Hr. apply lift_Ok in Hm1 as [-> Hbasis]. mstep Hr. apply lift_Ok in Hm1 as [-> Hv].
  mstep Hr. injection Hr as <- <-. cbn in Hi. unfold RemoteNodeClient._read_index_of in Hi.
  destruct (Z.eqb_spec a0 0) as [?|H0']; [done|]. injection Hi as <-. split; [done|].
  destruct Hb as [Hb|Hb]; rewrite Hb in Hbasis; cbn in Hbasis; [|naive_solver].
  apply int64_Ok in Hbasis as [-> _]. eauto.
Qed.

(** Where an index comes from: the node, or the leader it has heard of. *)
Definition confirmed (s : servicer) (i : Z) (w w1 : W) : Prop :=
  nh_read_index (node_of s) w = (w1, Ok (Some i)) ∨
  ∃ w0 address client_at w2 leader,
    nh_read_index (node_of s) w = (w0, Ok None) ∧
    ClientServicer._leader_address s ≫= (λ f, f w0) = Some address ∧
    ClientServicer._client_at_address s = Some client_at ∧
    client_at address w0 = (w2, Ok (Some leader)) ∧
    nd_follower_read_index leader true w2 = (w1, Ok (Some i)).

Lemma index_confirmed (s : servicer) i x w w1 :
  ClientServicer._index_for_a_read s None w = (w1, Ok (Some i, x)) → confirmed s i w w1.
Proof.
  unfold ClientServicer._index_for_a_read, LocalNodeClient.follower_read_index. intros Hr. mstep Hr.
  destruct a as [j|]; [injection Hr as <- <- <-; by left|]. right.
  unfold ClientServicer._ask_the_leader in Hr.
  destruct (ClientServicer._leader_address s) as [f|] eqn:Hf; [|done].
  destruct (f n) as [address|] eqn:Ha; cbn in Hr; [|done].
  case_decide; [done|]. destruct (ClientServicer._client_at_address s) as [client_at|] eqn:Hc; [|done].
  mstep Hr. destruct a as [leader|]; [|done].
  destruct (nd_follower_read_index leader true n0) as [w2 [idx|e]] eqn:Hl; [|by destruct e].
  injection Hr as -> -> <-. exists n, address, client_at, n0, leader. by split_and!.
Qed.

(** C33: A read that names no index is answered at one that a leader confirmed during the call:
    the node's own when it led, or else the one that the leader it had heard of gave for
    itself.  An answer made at an index is the node's read at that index. *)
Theorem unnamed_read_is_confirmed `{!CleanNode W N} c (s : servicer) key ts w w' r hint i :
  serves (channel_to (RemoteNodeClient._channel c)) s →
  RemoteNodeClient.get c key ts None w = (w', Ok (r, hint)) → rr_read_index r = Some i →
  ∃ w1, confirmed s i w w1 ∧ nh_get (node_of s) key ts (Some i) w1 = (w', Ok r).
Proof.
  intros Hs (resp & Hh & -> & ->)%get_Ok Hi. rewrite (serves_get _ _ Hs) in Hh.
  assert (RemoteNodeClient._read_index_of (client_pb2.gr_read_index resp) = Some i) as Hb.
  { revert Hi. unfold rebuilt. by case_match. }
  destruct (Get_basis s _ _ _ _ _ Hh Hb) as (Hi0 & w1 & x & Hidx). exists w1.
  split; [by eapply index_confirmed|].
  destruct (Get_answer s _ _ _ _ _ _ _ Hidx Hi0 Hh) as (r & Hr & Hreb & _). by rewrite Hreb.
Qed.
(** ** Range reads *)

Lemma scan_entries rows entries :
  traverse ClientServicer.scan_entry rows = Ok entries →
  rows = map (λ e, (client_pb2.kv_key e, PBytes (client_pb2.kv_value e), client_pb2.kv_commit_ts e)) entries.
Proof.
  revert entries. induction rows as [|[[k v] ts] rows IH]; cbn; intros entries Ht; [by injection Ht as <-|].
  apply rbind_Ok in Ht as (e & He & Ht). apply rbind_Ok in Ht as (es & Hes & [= <-]). cbn.
  unfold ClientServicer.scan_entry in He. cbn in He. destruct v; cbn in He; try done.
  apply rbind_Ok in He as (z & [-> _]%int64_Ok & [= <-]). cbn. by rewrite <-(IH _ Hes).
Qed.

(** What a caller sees of a range read, and the node's own read it stands for. *)
Inductive same_scan : result (list (bytes * bytes * Z)) → result (list (bytes * pyval * Z)) → Prop :=
  | same_rows rows : same_scan (Ok rows) (Ok (map (λ r, (r.1.1, PBytes r.1.2, r.2)) rows))
  | same_refusal code key hint hint' :
      (is_Some hint → code = ErrorCode.ERR_NOT_LEADER) →
      same_scan (Raise (ScanRefused code key hint)) (Raise (ScanRefused code key hint')).

Lemma scan_answer_same (s : servicer) i rows w w' resp :
  (∀ code key hint, rows = Raise (ScanRefused code key hint) → read_code code) →
  ClientServicer.scan_answer s i rows w = (w', Ok resp) →
  w' = w ∧
  same_scan (if client_pb2.sp_error_code resp =? client_pb2.OK
             then Ok (map (λ e, (client_pb2.kv_key e, client_pb2.kv_value e, client_pb2.kv_commit_ts e))
                        (client_pb2.sp_entries resp))
             else Raise (ScanRefused (local_code (Some (client_pb2.sp_error_code resp)))
                           (client_pb2.sp_locked_key resp) (client_pb2.sp_leader_address resp))) rows.
Proof.
  intros Hclean. unfold ClientServicer.scan_answer. destruct rows as [rows|e].
  - intros Hr. mstep Hr. apply lift_Ok in Hm as [-> _]. mstep Hr. apply lift_Ok in Hm as [-> Ht].
    injection Hr as <- <-. split; [done|]. cbn. apply scan_entries in Ht as ->.
    rewrite <-(map_map (λ e, (client_pb2.kv_key e, client_pb2.kv_value e, client_pb2.kv_commit_ts e))
                 (λ r, (r.1.1, PBytes r.1.2, r.2))). constructor.
  - destruct e as [| | | | | | | | | | | |code key h]; try done. intros Hr. mstep Hr.
    apply lift_Ok in Hm as [-> _]. mstep Hr. injection Hm as <- <-. injection Hr as <- <-. split; [done|].
    destruct (Hclean _ _ _ eq_refl) as [-> | [-> | ->]]; constructor; cbn; [done|by intros [? ?]..].
Qed.

Lemma scan_call c start_key end_key ts i w w' x :
  RemoteNodeClient.scan_versions c start_key end_key ts (Some i) w = (w', x) →
  x ≠ Raise NodeUnreachable → x ≠ Raise ValueError →
  ∃ resp, handle Scan (channel_to (RemoteNodeClient._channel c))
    {| client_pb2.sq_start_key := start_key; client_pb2.sq_end_key := end_key;
       client_pb2.sq_timestamp := ts; client_pb2.sq_read_index := Some i |} w = (w', Ok resp) ∧
    x = (if client_pb2.sp_error_code resp =? client_pb2.OK
         then Ok (map (λ e, (client_pb2.kv_key e, client_pb2.kv_value e, client_pb2.kv_commit_ts e))
                    (client_pb2.sp_entries resp))
         else Raise (ScanRefused (local_code (Some (client_pb2.sp_error_code resp)))
                       (client_pb2.sp_locked_key resp) (client_pb2.sp_leader_address resp))).
Proof.
  unfold RemoteNodeClient.scan_versions, RemoteNodeClient.lift, RemoteNodeClient._call, bind, reads.
  destruct (optional_field int64 ts) as [ts'|e] eqn:Hts.
  2: { intros [= <- <-] _ Hx. apply optional_field_raise in Hts. naive_solver. }
  destruct (optional_field int64 (Some i)) as [i'|e] eqn:Hi.
  2: { intros [= <- <-] _ Hx. apply optional_field_raise in Hi. naive_solver. }
  apply optional_int64 in Hts as ->. apply optional_int64 in Hi as ->.
  destruct (unary _ _ _ w) as [w1 [r| |]] eqn:Hu; [|by intros [= <- <-]..].
  apply unary_answered in Hu. intros Hx _ _. exists r.
  destruct (client_pb2.sp_error_code r =? client_pb2.OK); cbn in Hx; injection Hx as <- <-; done.
Qed.

(** A range read that names an index is the node's own: the same rows with the same
    versions, or the same refusal naming the same locked key.  A refused range never comes
    back as rows. *)
Theorem remote_scan_is_local_scan `{!CleanNode W N} c (s : servicer) start_key end_key ts i w w' x :
  serves (channel_to (RemoteNodeClient._channel c)) s →
  RemoteNodeClient.scan_versions c start_key end_key ts (Some i) w = (w', x) →
  x ≠ Raise NodeUnreachable → x ≠ Raise ValueError →
  ∃ y, LocalNodeClient.scan_versions (ClientServicer._client s) start_key end_key ts (Some i) w = (w', y) ∧
       same_scan x y.
Proof.
  intros Hs Hr Hx1 Hx2. destruct (scan_call c start_key end_key ts i w w' x Hr Hx1 Hx2) as (resp & Hh & ->).
  rewrite (serves_scan _ _ Hs) in Hh. unfold ClientServicer.Scan in Hh. cbn in Hh.
  destruct (LocalNodeClient.scan_versions _ start_key end_key ts (Some i) w) as [w1 y] eqn:Hy.
  apply scan_answer_same in Hh as [-> Hsame]; [by exists y|].
  intros code key hint ->. by eapply clean_scan.
Qed.

(** ** Proposals and records *)

(** A record whose fields are what their messages hold. *)
Definition wire_lock (l : Lock) : Prop :=
  ∃ status primary_key lock_time value,
    lk_status l = PBytes status ∧ lk_primary_key l = PBytes primary_key ∧
    lk_lock_time l = PFloat lock_time ∧ lk_value l = PBytes value.

Lemma lock_record_Ok l r :
  ClientServicer.lock_record l = Ok r → wire_lock l →
  {| lk_key := client_pb2.lr_key r; lk_start_ts := client_pb2.lr_start_ts r;
     lk_status := PBytes (client_pb2.lr_status r); lk_primary_key := PBytes (client_pb2.lr_primary_key r);
     lk_lock_time := PFloat (client_pb2.lr_lock_time r); lk_value := PBytes (client_pb2.lr_value r) |} = l.
Proof.
  intros Hr (status & primary_key & lock_time & value & H1' & H2' & H3' & H4').
  unfold ClientServicer.lock_record in Hr. rewrite H1', H2', H3', H4' in Hr.
  apply rbind_Ok in Hr as (ts & [-> _]%int64_Ok & Hr). cbn in Hr. injection Hr as <-.
  destruct l; cbn in *; by subst.
Qed.

(** A lock and a write record cross the wire unchanged, absent ones included. *)
Theorem remote_records_are_local c (s : servicer) key w w' :
  serves (channel_to (RemoteNodeClient._channel c)) s →
  (∀ l, RemoteNodeClient.get_lock c key w = (w', Ok l) →
     ∃ l0, LocalNodeClient.get_lock (ClientServicer._client s) key w = (w', Ok l0) ∧
       (l = None ↔ l0 = None) ∧ ∀ l1, l0 = Some l1 → wire_lock l1 → l = Some l1) ∧
  (∀ r, RemoteNodeClient.get_write_record c key w = (w', Ok r) →
     LocalNodeClient.get_write_record (ClientServicer._client s) key w = (w', Ok r)).
Proof.
  intros Hs. split.
  - intros l Hr. unfold RemoteNodeClient.get_lock in Hr. mstep Hr. apply call_Ok in Hm.
    rewrite (serves_get_lock _ _ Hs) in Hm. unfold ClientServicer.GetLock in Hm. mstep Hm. cbn in Hm0.
    mstep Hm. apply lift_Ok in Hm1 as [-> Hl]. injection Hm as <- <-. cbn in Hr.
    destruct a0 as [l0|]; cbn in Hl.
    + apply rbind_Ok in Hl as (rec & Hrec & [= <-]). injection Hr as <- <-.
      exists (Some l0). split_and!; [done|done|]. intros l1 [= <-] Hw. f_equal. by apply lock_record_Ok.
    + injection Hl as <-. injection Hr as <- <-. exists None. by split_and!.
  - intros r Hr. unfold RemoteNodeClient.get_write_record in Hr. mstep Hr. apply call_Ok in Hm.
    rewrite (serves_get_write_record _ _ Hs) in Hm. unfold ClientServicer.GetWriteRecord in Hm.
    mstep Hm. cbn in Hm0. mstep Hm. apply lift_Ok in Hm1 as [-> ->%optional_int64].
    mstep Hm. apply lift_Ok in Hm1 as [-> ->%optional_int64]. injection Hm as <- <-. cbn in Hr.
    destruct a0 as [[st ct]|]; cbn in Hr; by injection Hr as <- <-.
Qed.

(** A proposal across a wire: success is success, with what the machine answered and where
    the command landed; a refusal stays one, and keeps the three things a caller branches on
    (not the leader, a lock, no decision). *)
Theorem remote_propose_is_local_propose c (s : servicer) command w w' r hint :
  serves (channel_to (RemoteNodeClient._channel c)) s →
  RemoteNodeClient.propose c command w = (w', Ok (r, hint)) →
  ∃ r0, LocalNodeClient.propose (ClientServicer._client s) command w = (w', Ok r0) ∧
   (clean_apply r0 →
    ar_success r = ar_success r0 ∧
    (ar_success r0 = true → r = r0) ∧
    (ar_success r0 = false →
       is_not_leader (ar_error_code r) = is_not_leader (ar_error_code r0) ∧
       (ar_error_code r = Some ErrorCode.ERR_LOCKED ↔ ar_error_code r0 = Some ErrorCode.ERR_LOCKED) ∧
       (ar_error_code r = Some ErrorCode.ERR_TIMEOUT ↔ ar_error_code r0 = Some ErrorCode.ERR_TIMEOUT)) ∧
    (is_Some hint → is_not_leader (ar_error_code r0) = true)).
Proof.
  intros Hs Hr. unfold RemoteNodeClient.propose in Hr. mstep Hr. apply call_Ok in Hm.
  rewrite (serves_propose _ _ Hs) in Hm. unfold ClientServicer.Propose in Hm. mstep Hm. cbn in Hm0.
  mstep Hm. apply lift_Ok in Hm1 as [-> _]. mstep Hm. apply lift_Ok in Hm1 as [-> ->%optional_int64].
  mstep Hm. injection Hm1 as <- <-. injection Hm as <- <-. cbn in Hr. exists a0.
  destruct (Z.eqb_spec (ClientServicer._wire_code (ar_error_code a0)) client_pb2.OK) as [E|E]; cbn in Hr.
  - injection Hr as <- <- <-. split; [done|]. intros (code & Hcode & Hok).
    apply wire_code_ok in E as [E|E]; [congruence|]. rewrite Hcode in E. injection E as ->.
    destruct a0; cbn in *. subst. by split_and!.
  - injection Hr as <- <- <-. split; [done|]. intros (code & Hcode & Hok).
    assert (ar_success a0 = false) as Hfail.
    { rewrite Hok. apply Z.eqb_neq. intros ->. destruct E. apply wire_code_ok. by right. }
    destruct (carried_branches _ E) as (Hn & Hl & Ht & _). rewrite Hfail. cbn. split_and!; try done.
    + intros _. fold (carried (ar_error_code a0)). rewrite <-Hl, <-Ht. split_and!; [done|split; congruence..].
    + destruct (Z.eqb_spec (ClientServicer._wire_code (ar_error_code a0)) client_pb2.NOT_LEADER) as [E'|E'];
        [by rewrite wire_code_not_leader|by intros [? ?]].
Qed.
End wire.
