(* ===== verification/NodeHere.v ===== *)
(** The node in this process: a [MemoryRaftNode] over the versioned store, as
    [LocalNodeClient] holds it.

    [propose] of [raft/node.py] is put together here of its phases.  What the other threads
    of the node do in between, and what its peers answer, are arguments. *)

From Stdlib Require Import ZArith Lia.
From S2P Require Import Prelude Bytes PyVal PyOps Engine Mvcc StateMachine Groups Tso Metadata RaftStorage RaftNode RaftNodeFacts RaftMachines Wire ClientServicer RemoteNode RemoteFacts.

Module NodeCallsHere.
Section calls.
Context {S R : Type} `{!RaftNode.StateMachine S} `{!RaftStorage R} `{!Msgpack}.
Abbreviation node := (MemoryRaftNode.t S R).
Import MemoryRaftNode.

(** The wait of [_propose_command]; it looks [polls] times before its deadline. *)
Fixpoint propose_wait (others : node → node) (polls : nat) (entry_term entry_index : Z)
    : M node ApplyResult := λ n,
  match polls with
  | O => match propose_poll entry_term entry_index true n with
         | Some r => (n, Ok r)
         | None => (n, Ok (apply_failure ErrorCode.ERR_TIMEOUT))
         end
  | Datatypes.S polls =>
      match propose_poll entry_term entry_index false n with
      | Some r => (n, Ok r)
      | None => propose_wait others polls entry_term entry_index (others n)
      end
  end.

Definition _propose_command (others : node → node) (polls : nat) (command : bytes) : M node ApplyResult :=
  let* a := propose_append command in
  match a with
  | inl r => ret r
  | inr (term, index) => propose_wait others polls term index
  end.

(** [propose], with its [finally]. *)
Definition propose (others : node → node) (polls : nat) (command : bytes) : M node ApplyResult :=
  let* refused := propose_admit command in
  match refused with
  | Some r => ret r
  | None => λ n, let '(n1, r) := _propose_command others polls command n in
                 let '(n2, _) := propose_done n1 in (n2, r)
  end.
End calls.
End NodeCallsHere.

Section mvcc.
Context {E R : Type} `{!Engine E} `{!RaftStorage R} `{!Msgpack}.
Abbreviation node := (MemoryRaftNode.t (MVCCStateMachine.t E * list Z) R).
Context (rounds : Z → node → node * option (bool * Z)) (others : node → node) (polls : nat).

(** The world is the node; its handle is the only one there is. *)
Definition node_here : NodeHere node unit := {|
  nh_get _ := MemoryRaftNode.get rounds others;
  nh_scan_versions _ := MemoryRaftNode.scan_versions rounds others;
  nh_propose _ := NodeCallsHere.propose others polls;
  nh_get_lock_status _ key := reads (λ n, MVCCStateMachine.get_lock_status (MemoryRaftNode._state_machine n).1 key);
  nh_get_write_record _ key := reads (λ n, MVCCStateMachine.get_write_record (MemoryRaftNode._state_machine n).1 key);
  nh_read_index _ := MemoryRaftNode._read_index rounds;
  nh_current_term _ n := MemoryRaftNode._current_term n
|}.
#[local] Existing Instance node_here.

Lemma machine_read_clean (s : MVCCStateMachine.t E) key timestamp r :
  MVCCStateMachine.get s key timestamp = Ok r → clean_read r.
Proof.
  unfold MVCCStateMachine.get. intros Hr. apply rbind_Ok in Hr as (lock & _ & Hr).
  assert (∀ r, (let? version := MVCCStorage.get_version (MVCCStateMachine._storage s) key
                                  (default (MVCCStateMachine._last_applied_timestamp s) timestamp) in
                match version with
                | None => Ok (read_success PNone 0)
                | Some r => Ok (read_success (PBytes (mr_value r)) (mr_timestamp r))
                end) = Ok r → clean_read r) as Hread.
  { intros r' Hr'. apply rbind_Ok in Hr' as ([v|] & _ & [= <-]); done. }
  assert (clean_read read_locked) as Hlocked.
  { split_and!; [done..|]. eexists. split; [done|]. by right; left. }
  destruct lock as [l|]; [|by apply Hread]. destruct timestamp as [ts|]; [|by injection Hr as <-].
  destruct (lk_start_ts l =? ts); [by injection Hr as <-|].
  destruct (lk_start_ts l <? ts); [by injection Hr as <-|by apply Hread].
Qed.

Lemma locked_scan start_key end_key timestamp locks : ∀ rows code key hint,
  MVCCStateMachine.scan_locks start_key end_key timestamp rows locks = Raise (ScanRefused code key hint) →
  code = ErrorCode.ERR_LOCKED.
Proof.
  induction locks as [|[k l] locks IH]; intros rows code key hint; cbn; [done|].
  case_match; [apply IH|]. case_match; [by intros [= <-]|]. apply IH.
Qed.

(** The store raises its own exceptions, never a refusal of a range. *)
Definition ordinary {A} (r : result A) : Prop := ∀ code key hint, r ≠ Raise (ScanRefused code key hint).

Lemma ordinary_bind {A B} (m : result A) (k : A → result B) :
  ordinary m → (∀ a, m = Ok a → ordinary (k a)) → ordinary (rbind m k).
Proof. intros Hm Hk. destruct m as [a|e]; cbn; [by apply Hk|]. intros c k' h [= ->]. by eapply Hm. Qed.

Ltac ordinary :=
  repeat first
    [ apply ordinary_bind; [|intros ? _]
    | progress case_match
    | solve [intros ? ? ? ?; discriminate] ].

(** A documented fact of the codec: what it cannot read it refuses with an exception of its own. *)
Hypothesis unpack_ordinary : ∀ b, ordinary (unpackb b).

Lemma check_key_ordinary key : ordinary (_check_user_key key).
Proof. unfold _check_user_key. ordinary. Qed.

Lemma split_ordinary k : ordinary (MVCCStorage._split_version_key k).
Proof. unfold MVCCStorage._split_version_key. ordinary. Qed.

Lemma scan_loop_ordinary ts rows : ∀ s, ordinary (MVCCStorage.scan_loop ts s rows).
Proof.
  induction rows as [|r rows IH]; intros s; cbn; [done|]. apply ordinary_bind; [|by intros].
  unfold MVCCStorage.scan_step. apply ordinary_bind; [apply split_ordinary|]. intros [k t] _. ordinary.
Qed.

Lemma decode_locks_ordinary rows : ordinary (MVCCStorage.decode_locks rows).
Proof.
  induction rows as [|[k raw] rows IH]; cbn; [done|].
  apply ordinary_bind; [apply split_ordinary|]. intros [key ts] _.
  apply ordinary_bind; [|intros ? _; apply ordinary_bind; [exact IH|by intros]].
  unfold MVCCStorage._decode_lock. apply ordinary_bind; [apply unpack_ordinary|]. intros d _.
  unfold py_index. ordinary.
Qed.

Lemma machine_scan_refused (s : MVCCStateMachine.t E) start_key end_key timestamp code key hint :
  MVCCStateMachine.scan_versions s start_key end_key timestamp = Raise (ScanRefused code key hint) →
  code = ErrorCode.ERR_LOCKED.
Proof.
  unfold MVCCStateMachine.scan_versions.
  destruct (MVCCStorage.scan_versions _ _ _ _) as [versions|e] eqn:Hv; cbn.
  2: { intros [= ->]. exfalso. revert Hv. unfold MVCCStorage.scan_versions.
       apply ordinary_bind; [apply check_key_ordinary|intros ? _].
       apply ordinary_bind; [apply check_key_ordinary|intros ? _].
       apply ordinary_bind; [apply scan_loop_ordinary|by intros]. }
  destruct (MVCCStorage.iter_locks _) as [locks|e] eqn:Hl; cbn.
  2: { intros [= ->]. by apply decode_locks_ordinary in Hl. }
  destruct (MVCCStateMachine.scan_locks _ _ _ _ _) as [rows|e] eqn:Hs; cbn; [done|].
  intros [= ->]. by eapply locked_scan.
Qed.

#[export] Instance clean_node_here : CleanNode node unit.
Proof.
  split.
  - intros [] key timestamp i w w' r Hr. cbn in Hr. unfold MemoryRaftNode.get in Hr. cbn in Hr.
    injection Hr as <- Hr. unfold MemoryRaftNode.get_finish in Hr.
    case_match; [injection Hr as <-|].
    { split; [|by right]. split_and!; [done..|]. eexists. split; [done|]. by right; right. }
    apply rbind_Ok in Hr as (r0 & Hr0 & [= <-]). apply machine_read_clean in Hr0. split; [exact Hr0|by left].
  - intros [] start_key end_key timestamp i w w' code key hint Hr. cbn in Hr.
    unfold MemoryRaftNode.scan_versions in Hr. cbn in Hr.
    destruct (_ <? i); [injection Hr as _ <- _ _; by right; right|].
    injection Hr as _ Hr.
    apply machine_scan_refused in Hr as ->. by right; left.
Qed.
End mvcc.
