(* ===== verification/RemoteHandles.v ===== *)
(** The handles of [RemoteNodeClientFactory] and the channels under them.

    [ChannelTable] is what [Grpc] leaves open of channels, made concrete: which were opened,
    to which address, and which were closed.  Calls of a factory that follow one another keep
    one open channel per address and every handle on it; calls that overlap need not. *)

From Stdlib Require Import ZArith Lia.
From S2P Require Import Prelude Bytes StateMachine Routing Wire ClientServicer RemoteNode.

Module ChannelTable.
Record t := { opened : list string; closed : gset nat }.
Definition init : t := {| opened := []; closed := ∅ |}.

(** Nobody listens; an open channel has no answer and a closed one takes no call. *)
#[global] Instance grpc : Grpc t nat := {|
  insecure_channel address w :=
    ({| opened := opened w ++ [address]; closed := closed w |}, length (opened w));
  channel_close ch w := {| opened := opened w; closed := {[ch]} ∪ closed w |};
  unary _ _ _ ch _ w := (w, if decide (ch ∈ closed w) then ChannelClosed else RpcError)
|}.

Definition is_open (ch : nat) (address : string) (w : t) : Prop :=
  opened w !! ch = Some address ∧ ch ∉ closed w.
End ChannelTable.
Import RemoteNodeClientFactory.

Abbreviation handle := (RemoteNodeClient.t nat).
Abbreviation state := (RemoteNodeClientFactory.t nat * ChannelTable.t)%type.

(** A call of the factory. *)
Inductive factory_op :=
  | GetClient (shard_id node_id : Z) (address : option string)
  | GetClientAt (shard_id : Z) (address : string)
  | ForgetClient (shard_id node_id : Z)
  | CloseFactory.

Definition perform (o : factory_op) (s : state) : state :=
  match o with
  | GetClient shard_id node_id address => (get_client shard_id node_id address s).1
  | GetClientAt shard_id address => (get_client_at shard_id address s).1
  | ForgetClient shard_id node_id => (forget_client shard_id node_id s).1
  | CloseFactory => (close s).1
  end.

(** The open channels are those of the pool, and a handle is on the one to its address. *)
Record tidy (s : state) : Prop := {
  tidy_pool a ch : ChannelPool._channels (_channels s.1) !! a = Some ch ↔ ChannelTable.is_open ch a s.2;
  tidy_handle a c : _clients s.1 !! a = Some c →
    RemoteNodeClient._address c = a ∧
    ChannelPool._channels (_channels s.1) !! a = Some (RemoteNodeClient._channel c);
  tidy_closed ch : ch ∈ ChannelTable.closed s.2 → is_Some (ChannelTable.opened s.2 !! ch)
}.

Lemma tidy_start : tidy (init, ChannelTable.init).
Proof.
  split; cbn; [|done|set_solver]. intros a ch. unfold ChannelTable.is_open. cbn. rewrite lookup_empty.
  split; [done|]. intros [Hl _]. by rewrite lookup_nil in Hl.
Qed.

Lemma tidy_addresses m f w : tidy (f, w) → tidy (with_addresses m f, w).
Proof. intros [H1 H2 H3]. by split. Qed.

Lemma open_one ch1 ch2 a1 a2 w :
  ChannelTable.is_open ch1 a1 w → ChannelTable.is_open ch2 a2 w → ch1 = ch2 → a1 = a2.
Proof. intros [Ho _] [Ho' _] ->. congruence. Qed.

(** Opening a channel to an address that has none. *)
Lemma is_open_new a w ch b :
  (∀ c, c ∈ ChannelTable.closed w → is_Some (ChannelTable.opened w !! c)) →
  ChannelTable.is_open ch b (insecure_channel a w).1 ↔
  ChannelTable.is_open ch b w ∨ ch = length (ChannelTable.opened w) ∧ b = a.
Proof.
  intros Hc. unfold ChannelTable.is_open. cbn. split.
  - intros [Ho Hn]. apply lookup_app_Some in Ho as [Ho|[Hl Ho]]; [by left|]. right.
    apply list_lookup_singleton_Some in Ho as [? <-]. split; [lia|done].
  - intros [[Ho Hn] | [-> ->]].
    + split; [|done]. by apply lookup_app_l_Some.
    + split; [by rewrite lookup_app_r, Nat.sub_diag by lia|].
      intros [x Hx]%Hc. apply lookup_lt_Some in Hx. lia.
Qed.

Lemma tidy_client_for a f w s' r :
  tidy (f, w) → _client_for a (f, w) = (s', r) →
  tidy s' ∧ ∃ c, r = Ok c ∧ _clients s'.1 !! a = Some c.
Proof.
  intros [Hp Hh Hc] Hr. cbn in *. unfold _client_for in Hr. destruct (_clients f !! a) as [c|] eqn:Hca.
  { injection Hr as <- <-. split; [by split|]. by exists c. }
  unfold bind, pool, world, modify, ret, ChannelPool.channel in Hr. cbn in Hr.
  destruct (ChannelPool._channels (_channels f) !! a) as [ch|] eqn:Hch; cbn in Hr; injection Hr as <- <-.
  - split; [|eexists; split; [done|cbn; apply lookup_insert_eq]]. split; cbn; [done| |done].
    intros b c [[<- <-]|[? Hb]]%lookup_insert_Some; [done|by apply Hh].
  - split; [|eexists; split; [done|cbn; apply lookup_insert_eq]]. split; cbn.
    + intros b ch. change (ChannelTable.is_open ch b _) with
        (ChannelTable.is_open ch b (insecure_channel a w).1).
      rewrite is_open_new by done. rewrite lookup_insert_Some, <-Hp. split.
      * intros [[<- <-]|[? ?]]; auto.
      * intros [Hb | [-> ->]]; [|by left]. right. split; [congruence|done].
    + intros b c [[<- <-]|[? Hb]]%lookup_insert_Some; cbn; [by rewrite lookup_insert_eq|].
      rewrite lookup_insert_ne by done. by apply Hh.
    + intros ch [x Hx]%Hc. exists x. by apply lookup_app_l_Some.
Qed.

#[local] Arguments _client_for {W Ch _} address _ : simpl never.

Lemma tidy_get_client shard_id node_id address s s' r :
  tidy s → get_client shard_id node_id address s = (s', r) →
  tidy s' ∧ ∀ c, r = Ok (Some c) → ∃ a, _clients s'.1 !! a = Some c.
Proof.
  destruct s as [f w]. intros Ht. unfold get_client, bind, modify, ret.
  destruct address as [a|]; cbn; [|destruct (_addresses f !! (shard_id, node_id)) as [a|]; cbn].
  3: { intros [= <- <-]. by split. }
  all: match goal with |- context [_client_for ?b ?s] =>
    destruct (_client_for b s) as [s1 r1] eqn:Hr;
    apply tidy_client_for in Hr as (Ht' & c & -> & Hc); [|first [done | by apply tidy_addresses]] end.
  all: intros [= <- <-]; split; [done|]; intros c' [= <-]; eauto.
Qed.

Lemma tidy_forget_client shard_id node_id s : tidy s → tidy (forget_client shard_id node_id s).1.
Proof.
  destruct s as [f w]. intros Ht. unfold forget_client, bind, forget_handle.
  destruct (_addresses f !! (shard_id, node_id)) as [a|]; cbn; [|done].
  unfold pool, ChannelPool.forget. cbn. destruct Ht as [Hp Hh Hc]. cbn in *.
  destruct (ChannelPool._channels (_channels f) !! a) as [ch|] eqn:Ha; cbn.
  - split; cbn.
    + intros b ch'. rewrite lookup_delete_Some, Hp. unfold ChannelTable.is_open. cbn.
      apply Hp in Ha as [Ho Hn]. split.
      * intros (Hb & Ho' & Hn'). split; [done|]. intros [->%elem_of_singleton|?]%elem_of_union; [congruence|done].
      * intros [Ho' Hn']. split_and!; [|done|set_solver]. intros <-.
        assert (ChannelPool._channels (_channels f) !! a = Some ch') as H1' by (apply Hp; split; [done|set_solver]).
        assert (ChannelPool._channels (_channels f) !! a = Some ch) as H2' by (by apply Hp).
        rewrite H1' in H2'. injection H2' as ->. set_solver.
    + intros b c [? Hb]%lookup_delete_Some. rewrite lookup_delete_ne by done. by apply Hh.
    + intros ch' [->%elem_of_singleton|?]%elem_of_union; [|by apply Hc].
      apply Hp in Ha as [Ho _]. by exists a.
  - split; cbn; [done| |done]. intros b c [? Hb]%lookup_delete_Some. by apply Hh.
Qed.

Lemma close_all (l : list (string * nat)) w :
  ChannelTable.opened (foldl (λ w e, channel_close e.2 w) w l) = ChannelTable.opened w ∧
  ∀ ch, ch ∈ ChannelTable.closed (foldl (λ w e, channel_close e.2 w) w l) ↔
        ch ∈ ChannelTable.closed w ∨ ch ∈ l.*2.
Proof.
  revert w. induction l as [|[a c] l IH]; intros w; cbn [foldl].
  { split; [done|]. cbn. set_solver. }
  destruct (IH (channel_close c w)) as [Ho Hc]. split; [done|]. intros ch. rewrite Hc. cbn. set_solver.
Qed.

Lemma tidy_close s : tidy s → tidy (close s).1 ∧ ∀ ch a, ¬ ChannelTable.is_open ch a (close s).1.2.
Proof.
  destruct s as [f w]. intros [Hp Hh Hc]. cbn [fst snd] in Hp, Hh, Hc.
  pose proof (close_all (map_to_list (ChannelPool._channels (_channels f))) w) as [Ho Hcl].
  change (close (f, w)).1 with
    (init (Ch := nat),
     foldl (λ w e, channel_close e.2 w) w (map_to_list (ChannelPool._channels (_channels f)))).
  revert Ho Hcl. generalize (foldl (λ w e, channel_close e.2 w) w (map_to_list (ChannelPool._channels (_channels f)))).
  intros w' Ho Hcl. assert (∀ ch a, ¬ ChannelTable.is_open ch a w') as Hnone.
  { intros ch a [Ho' Hn]. rewrite Ho in Ho'. apply Hn, Hcl.
    destruct (decide (ch ∈ ChannelTable.closed w)); [by left|]. right.
    apply list_elem_of_fmap. exists (a, ch). split; [done|]. apply elem_of_map_to_list, Hp. by split. }
  split; [|done]. split; cbn.
  - intros a ch. rewrite lookup_empty. split; [done|]. by intros ?%Hnone.
  - done.
  - intros ch Hch%Hcl. rewrite Ho. destruct Hch as [?|Hch]; [by apply Hc|].
    apply list_elem_of_fmap in Hch as ([a c] & -> & Hm%elem_of_map_to_list). apply Hp in Hm as [? _]. by exists a.
Qed.

Lemma tidy_perform o s : tidy s → tidy (perform o s).
Proof.
  intros Ht. destruct o as [i n a|i a|i n|]; cbn.
  - destruct (get_client i n a s) as [s' r] eqn:Hr. by eapply tidy_get_client.
  - destruct s as [f w]. unfold get_client_at, bind. destruct (_client_for a (f, w)) as [s' r] eqn:Hr.
    apply tidy_client_for in Hr as (Ht' & c & -> & _); done.
  - by apply tidy_forget_client.
  - by apply tidy_close.
Qed.

(** Calls of a factory that follow one another.  At every moment there is at most one open
    channel to an address, it is the one the pool keeps, and every handle that is kept is on
    the open channel to its own address, so a call on it is never made on a closed channel;
    closing the factory leaves no channel open. *)
Theorem handles_stay_usable (ops : list factory_op) :
  let s := foldl (λ s o, perform o s) (init, ChannelTable.init) ops in
  (∀ ch1 ch2 a, ChannelTable.is_open ch1 a s.2 → ChannelTable.is_open ch2 a s.2 → ch1 = ch2) ∧
  (∀ a c, _clients s.1 !! a = Some c →
     RemoteNodeClient._address c = a ∧ ChannelTable.is_open (RemoteNodeClient._channel c) a s.2) ∧
  (∀ ch a, ¬ ChannelTable.is_open ch a (perform CloseFactory s).2).
Proof.
  intros s. assert (tidy s) as Ht.
  { subst s. generalize tidy_start. generalize (@init nat, ChannelTable.init).
    induction ops as [|o ops IH]; intros s0 H0'; [done|]. apply IH. by apply tidy_perform. }
  split_and!.
  - intros ch1 ch2 a H1'%(tidy_pool _ Ht) H2'%(tidy_pool _ Ht). congruence.
  - intros a c [? ?]%(tidy_handle _ Ht). split; [done|]. by apply (tidy_pool _ Ht).
  - by apply tidy_close.
Qed.

(** A [get_client] between the two steps of a [forget_client]. *)
Definition overlapped (a : string) : M state unit :=
  let* _ := get_client 0 1 (Some a) in
  let* address := forget_handle 0 1 in
  let* _ := get_client 0 1 None in
  forget_channel address.

(** Two calls that overlap: [forget_client] lets its lock go after it has dropped the handle
    and before it closes the channel, and a [get_client] in between puts a new handle on the
    channel that is about to be closed.  From then on the factory hands that handle out, and
    every call on it raises [ValueError], which is not the [NodeUnreachable] that callers
    take for a node that does not answer. *)
Theorem forgotten_handle_is_handed_out :
  let '(s, r) := overlapped "10.0.0.1:50051" (init, ChannelTable.init) in
  r = Ok tt ∧
  ∃ c, get_client 0 1 None s = (s, Ok (Some c)) ∧ _clients s.1 !! "10.0.0.1:50051"%string = Some c ∧
       (∀ key, RemoteNodeClient.get_lock c key s.2 = (s.2, Raise ValueError)) ∧
       ¬ ChannelTable.is_open (RemoteNodeClient._channel c) "10.0.0.1:50051" s.2.
Proof.
  vm_compute. split; [done|]. eexists. split; [done|]. split; [done|]. split; [done|].
  intros [_ Hn]. by destruct Hn.
Qed.
