(* ===== verification/RemoteGroups.v ===== *)
(** The two groups that are not a shard, reached over channels:
    [client/remote_group_client.py].

    [GroupClient] is the walk over seed addresses that both clients share; the walk has fuel,
    and [None] is a walk that was not over.  [RemoteMetadataClient] reads and writes the
    routing table and [RemoteTSOClient] hands out timestamps.  The servicers of the groups,
    modelled in [Tso] and [MetadataClient], answer with the messages of [Wire]. *)

From Stdlib Require Import ZArith Lia.
From S2P Require Import Prelude Bytes PyVal PyOps Dict Router Mvcc StateMachine Groups Tso Metadata MetadataClient Wire ClientServicer RemoteNode.

(** A walk that was not over stays so. *)
Definition obind {S A B} (m : M S (option A)) (k : A → M S (option B)) : M S (option B) :=
  let* r := m in match r with None => ret None | Some a => k a end.
Notation "'let+' x ':=' m 'in' k" := (obind m (λ x, k))
  (at level 10, x pattern, m at level 100, k at level 200) : oxide_scope.
Definition finish {S A} (a : A) : M S (option A) := ret (Some a).

Module GroupClient.
Section group.
Context {W Ch : Type} `{Grpc W Ch}.

Record t := { _seeds : list string; _owns_channels : bool; _preferred : option string }.

(** [_GroupClient(seeds, channels)]: [owns] if it was handed no channels. *)
Definition init (seeds : list string) (owns : bool) : result t :=
  match seeds with
  | [] => Raise ValueError
  | _ => Ok {| _seeds := seeds; _owns_channels := owns; _preferred := None |}
  end.
Definition prefer (address : string) (g : t) : t :=
  {| _seeds := _seeds g; _owns_channels := _owns_channels g; _preferred := Some address |}.

Abbreviation st := (t * (ChannelPool.t Ch * W))%type.
Definition pool {A} (m : M (ChannelPool.t Ch * W) A) : M st A := λ '(g, pw),
  let '(pw', a) := m pw in ((g, pw'), a).

Definition close : M st unit := λ '(g, pw),
  if _owns_channels g then pool ChannelPool.close (g, pw) else ((g, pw), Ok tt).

(** [for address in l: if address not in ordered: ordered.append(address)]. *)
Definition distinct (l : list string) : list string :=
  foldl (λ ordered a, if decide (a ∈ ordered) then ordered else ordered ++ [a]) [] l.

Definition _candidates (g : t) : list string :=
  distinct (option_list (ClientServicer.truthy (_preferred g)) ++ _seeds g).

(** A call on a stub made for the pool's channel to an address. *)
Definition call_at {Q R} (m : rpc Q R) (request : Q) (address : string)
    : M (ChannelPool.t Ch * W) (call R) :=
  let* ch := ChannelPool.channel address in
  λ '(p, w), let '(w', r) := unary m ch request w in ((p, w'), Ok r).

Section ask.
Context {Q R : Type} (m : rpc Q R) (error_code : R → Z) (leader_address : R → option string) (request : Q).

(** A refusal that outranks the one before. *)
Definition better (answered : option R) (response : R) : option R :=
  match answered with
  | None => Some response
  | Some r => if error_code r =? groups_pb2.NOT_LEADER then Some response else answered
  end.

(** The address a refusal sends the walk to next. *)
Definition next_hint (response : R) (asked : gset string) : list string :=
  if error_code response =? groups_pb2.NOT_LEADER then
    match ClientServicer.truthy (leader_address response) with
    | Some hint => if decide (hint ∈ asked) then [] else [hint]
    | None => []
    end
  else [].

Fixpoint walk (fuel : nat) (answered : option R) (pending : list string) (asked : gset string)
    : M st (option R) :=
  match fuel with
  | O => ret None
  | S fuel =>
      match pending with
      | [] => match answered with Some r => finish r | None => raise NodeUnreachable end
      | address :: pending =>
          if decide (address ∈ asked) then walk fuel answered pending asked
          else
            let asked := {[address]} ∪ asked in
            let* outcome := pool (call_at m request address) in
            match outcome with
            | ChannelClosed => raise ValueError
            | RpcError => walk fuel answered pending asked
            | Answered response =>
                if error_code response =? groups_pb2.OK then
                  (λ '(g, pw), ((prefer address g, pw), Ok (Some response)))
                else walk fuel (better answered response) (next_hint response asked ++ pending) asked
            end
      end
  end.

Definition _ask (fuel : nat) : M st (option R) := λ '(g, pw),
  walk fuel None (_candidates g) ∅ (g, pw).
End ask.
End group.
End GroupClient.
(** A client of a group, the channels it uses and everything else. *)
Abbreviation group_state W Ch := (GroupClient.t * (ChannelPool.t Ch * W))%type.

(** ** The servicers' answers *)

Definition tso_response (r : TSOServicer.response (Z * Z)) : groups_msg.GetTimestampBatchResponse :=
  {| groups_msg.tb_error_code := TSOServicer.rs_code r; groups_msg.tb_leader_address := TSOServicer.rs_leader r;
     groups_msg.tb_start_ts := fst <$> TSOServicer.rs_answer r;
     groups_msg.tb_end_ts := snd <$> TSOServicer.rs_answer r |}.

Definition shards_response (r : Refusal + Z * list ShardRecord) : groups_msg.ListShardsResponse :=
  match r with
  | inl f => {| groups_msg.ls_error_code := rf_error_code f; groups_msg.ls_leader_address := rf_leader_address f;
                groups_msg.ls_shards := []; groups_msg.ls_version := 0 |}
  | inr (version, shards) =>
      {| groups_msg.ls_error_code := groups_pb2.OK; groups_msg.ls_leader_address := None;
         groups_msg.ls_shards := shards; groups_msg.ls_version := version |}
  end.

(** ** The routing table *)

Definition record_payload (record : ShardRecord) : pyval :=
  PDict [("shard_id"%string, PInt (sr_shard_id record));
         ("start"%string, PBytes (sr_start_key record));
         ("end"%string, PBytes (sr_end_key record));
         ("nodes"%string, PList (map PInt (sr_nodes record)));
         ("addresses"%string, addresses_payload (sr_addresses record));
         ("leader_id"%string, match sr_leader_id record with Some z => PInt z | None => PNone end);
         ("leader_term"%string, PInt (sr_leader_term record))].

Definition _payload (response : groups_msg.ListShardsResponse) : pyval :=
  PDict [("version"%string, PInt (groups_msg.ls_version response));
         ("shards"%string, PList (map record_payload (groups_msg.ls_shards response)))].

Module RemoteMetadataClient.
Section client.
Context `{PyRepr} `{Msgpack} {W Ch : Type} `{Grpc W Ch}.
Abbreviation st := (option RoutingTable * group_state W Ch)%type.

Definition group {A} (m : M (group_state W Ch) A) : M st A := λ '(c, g),
  let '(g', a) := m g in ((c, g'), a).
Definition set_table (c : option RoutingTable) : M st unit := λ '(_, g), ((c, g), Ok tt).
Definition lift {A} (r : result A) : M st A := reads (λ _, r).

Definition refresh (fuel : nat) : M st (option RoutingTable) :=
  let+ response := group (GroupClient._ask ListShards groups_msg.ls_error_code groups_msg.ls_leader_address tt fuel) in
  if negb (groups_msg.ls_error_code response =? groups_pb2.OK) then raise RuntimeError
  else
    let* table := lift (_parse_table (_payload response)) in
    set_table (Some table);;;
    finish table.

Definition table (fuel : nat) (fresh : bool) : M st (option RoutingTable) := λ '(c, g),
  match c with
  | Some cached => if fresh then refresh fuel (c, g) else ((c, g), Ok (Some cached))
  | None => refresh fuel (c, g)
  end.

Definition get_shard_for (fuel : nat) (key : bytes) : M st (option Z) :=
  let+ t := table fuel false in finish (route_for t key).
Definition get_shard_leader (fuel : nat) (shard_id : Z) : M st (option (option Z)) :=
  let+ t := table fuel false in
  finish (match Metadata.shard t shard_id with None => None | Some p => sp_leader_id p end).
Definition get_leader_for_key (fuel : nat) (key : bytes) : M st (option (option Z)) :=
  let+ t := table fuel false in
  finish (match shard_for t key with None => None | Some p => sp_leader_id p end).
Definition list_shards (fuel : nat) : M st (option (list ShardPlacement)) :=
  let+ t := table fuel false in finish (map snd (rt_shards t)).

(** [_propose]: one walk with the command in place of the question. *)
Definition _propose (fuel : nat) (command : result bytes) : M st (option ApplyResult) :=
  let* command := lift command in
  λ s, match group (GroupClient._ask Propose client_pb2.pr_error_code client_pb2.pr_leader_address
                      {| client_pb2.pq_command := command |} fuel) s with
       | (s', Ok None) => (s', Ok None)
       | (s', Raise NodeUnreachable) => (s', Ok (Some (apply_failure ErrorCode.ERR_NOT_LEADER)))
       | (s', Raise e) => (s', Raise e)
       | (s', Ok (Some response)) =>
           if negb (client_pb2.pr_error_code response =? client_pb2.OK)
           then (s', Ok (Some (apply_failure (local_code (Some (client_pb2.pr_error_code response))))))
           else (set_table None;;;
                 finish {| ar_success := true; ar_error_code := Some ErrorCode.SUCCESS;
                         ar_data := client_pb2.pr_data response; ar_index := client_pb2.pr_index response |}) s'
       end.

Definition init_routes (fuel : nat) (ranges : RangeMap) : M st (option ApplyResult) :=
  _propose fuel (MetadataStateMachine.init_routes_command ranges).
Definition set_shard_nodes (fuel : nat) (shard_id : Z) (nodes : list Z) (addresses : gmap Z string)
    : M st (option ApplyResult) :=
  _propose fuel (MetadataStateMachine.set_shard_nodes_command shard_id nodes addresses).
Definition report_leader (fuel : nat) (shard_id node_id term : Z) : M st (option ApplyResult) :=
  _propose fuel (MetadataStateMachine.report_leader_command shard_id node_id term).
Definition split_shard (fuel : nat) (shard_id : Z) (split_key : bytes) (new_shard_id : Z) (nodes : list Z)
    (addresses : gmap Z string) : M st (option ApplyResult) :=
  _propose fuel (MetadataStateMachine.split_shard_command shard_id split_key new_shard_id nodes addresses).
Definition move_shard (fuel : nat) (shard_id : Z) (from_nodes nodes : list Z) (addresses : gmap Z string)
    : M st (option ApplyResult) :=
  _propose fuel (MetadataStateMachine.move_shard_command shard_id from_nodes nodes addresses).
End client.
End RemoteMetadataClient.

(** ** The clock *)

Module RemoteTSOClient.
Section client.
Context {W Ch : Type} `{Grpc W Ch}.

Record t := { _batch_size : Z; _local_start : Z; _local_end : Z }.
Definition init (batch_size : Z) : t :=
  {| _batch_size := batch_size; _local_start := 0; _local_end := 0 |}.
Abbreviation st := (t * group_state W Ch)%type.

Definition group {A} (m : M (group_state W Ch) A) : M st A := λ '(c, g),
  let '(g', a) := m g in ((c, g'), a).
Definition keep_run (start_ts end_ts : Z) : M st unit := λ '(c, g),
  (({| _batch_size := _batch_size c; _local_start := start_ts; _local_end := end_ts |}, g), Ok tt).

Definition _fetch_batch (fuel : nat) : M st (option unit) :=
  let* count := reads (λ '(c, _), uint64 (_batch_size c)) in
  let+ response := group (GroupClient._ask GetTimestampBatch groups_msg.tb_error_code
                            groups_msg.tb_leader_address count fuel) in
  if negb (groups_msg.tb_error_code response =? groups_pb2.OK) then raise RuntimeError
  else
    let start_ts := default 0 (groups_msg.tb_start_ts response) in
    let end_ts := default 0 (groups_msg.tb_end_ts response) in
    keep_run start_ts (end_ts + 1);;;
    finish tt.

Definition take_one : M st Z := λ '(c, g),
  (({| _batch_size := _batch_size c; _local_start := _local_start c + 1; _local_end := _local_end c |}, g),
   Ok (_local_start c)).

Definition get_timestamp (fuel : nat) : M st (option Z) :=
  let+ _ := (λ '(c, g), if _local_start c >=? _local_end c then _fetch_batch fuel (c, g)
                        else ((c, g), Ok (Some tt))) in
  let* timestamp := take_one in
  finish timestamp.

Fixpoint batch_loop (fuel : nat) (count : nat) : M st (option (list Z)) :=
  match count with
  | O => finish []
  | S count => let+ ts := get_timestamp fuel in
               let+ rest := batch_loop fuel count in
               finish (ts :: rest)
  end.
Definition batch_get_timestamps (fuel : nat) (count : Z) : M st (option (list Z)) :=
  batch_loop fuel (Z.to_nat count).
End client.
End RemoteTSOClient.

(** ** The clients of a factory *)

(** The half of [RemoteNodeClientFactory] that hands out the clients of the two groups: one of
    each, built over the seeds when it is first asked for, over the factory's channels. *)
Module GroupClients.
Record t := {
  _metadata_seeds : list string;
  _tso_seeds : list string;
  _metadata_client : option (option RoutingTable * GroupClient.t);
  _tso_client : option (RemoteTSOClient.t * GroupClient.t)
}.
Definition init (metadata_seeds tso_seeds : list string) : t :=
  {| _metadata_seeds := metadata_seeds; _tso_seeds := tso_seeds; _metadata_client := None; _tso_client := None |}.

(** Without seeds nothing is built. *)
Definition metadata_client (c : t) : result (t * (option RoutingTable * GroupClient.t)) :=
  match _metadata_client c with
  | Some client => Ok (c, client)
  | None =>
      let? g := GroupClient.init (_metadata_seeds c) false in
      Ok ({| _metadata_seeds := _metadata_seeds c; _tso_seeds := _tso_seeds c;
             _metadata_client := Some (None, g); _tso_client := _tso_client c |}, (None, g))
  end.
Definition tso_client (batch_size : Z) (c : t) : result (t * (RemoteTSOClient.t * GroupClient.t)) :=
  match _tso_client c with
  | Some client => Ok (c, client)
  | None =>
      let? g := GroupClient.init (_tso_seeds c) false in
      let client := (RemoteTSOClient.init batch_size, g) in
      Ok ({| _metadata_seeds := _metadata_seeds c; _tso_seeds := _tso_seeds c;
             _metadata_client := _metadata_client c; _tso_client := Some client |}, client)
  end.
(** [close], beside the handles and the channels. *)
Definition forget_clients (c : t) : t := init (_metadata_seeds c) (_tso_seeds c).
End GroupClients.
