(* ===== verification/RemoteGroupFacts.v ===== *)
(** The walk over the addresses of a group, the table it brings back and the timestamps. *)

From Stdlib Require Import ZArith Lia.
From S2P Require Import Prelude Bytes PyVal PyOps Dict Router Mvcc StateMachine Groups Tso Metadata MetadataFacts MetadataClient Wire ClientServicer RemoteNode RemoteGroups.
Import GroupClient.

(** ** The walk *)

Section walk.
Context {W Ch : Type} `{Grpc W Ch} {Q R : Type}.
Context (m : rpc Q R) (error_code : R → Z) (leader_address : R → option string) (request : Q).
(** What every address does with this request for as long as the walk lasts. *)
Context (I : ChannelPool.t Ch * W → Prop) (answers : string → call R).
Hypothesis answers_stable : ∀ address pw, I pw →
  ∃ pw', call_at m request address pw = (pw', Ok (answers address)) ∧ I pw'.
(** The channels of the pool are open. *)
Hypothesis answers_open : ∀ address, answers address ≠ ChannelClosed.

Abbreviation walk := (walk m error_code leader_address request).
Abbreviation next_hint := (next_hint error_code leader_address).
Abbreviation better := (better error_code).

(** The address a refusal names. *)
Definition named (r : R) : option string :=
  if error_code r =? groups_pb2.NOT_LEADER then ClientServicer.truthy (leader_address r) else None.

(** The addresses a walk can come to: its first ones, and those that refusals name. *)
Inductive reached (first : list string) : string → Prop :=
  | reached_first a : a ∈ first → reached first a
  | reached_hint a r h : reached first a → answers a = Answered r → error_code r ≠ groups_pb2.OK →
      named r = Some h → reached first h.

(** What the walk knows in the middle. *)
Record walking (first : list string) (answered : option R) (pending : list string) (asked : gset string) : Prop := {
  wk_reached a : a ∈ asked ∨ a ∈ pending → reached first a;
  wk_first a : a ∈ first → a ∈ asked ∨ a ∈ pending;
  wk_refused a r : a ∈ asked → answers a = Answered r → error_code r ≠ groups_pb2.OK;
  wk_hint a r h : a ∈ asked → answers a = Answered r → named r = Some h → h ∈ asked ∨ h ∈ pending;
  wk_none a r : answered = None → a ∈ asked → answers a ≠ Answered r;
  wk_some r : answered = Some r → ∃ a, a ∈ asked ∧ answers a = Answered r;
  wk_best a r r' : answered = Some r → a ∈ asked → answers a = Answered r' →
    error_code r' ≠ groups_pb2.NOT_LEADER → error_code r ≠ groups_pb2.NOT_LEADER
}.

(** How a walk may end. *)
Definition walk_end (first : list string) (g : GroupClient.t) (g' : GroupClient.t) (x : result (option R)) : Prop :=
  (∃ a r, x = Ok (Some r) ∧ reached first a ∧ answers a = Answered r ∧ error_code r = groups_pb2.OK ∧
          g' = prefer a g) ∨
  g' = g ∧ (∀ a r, reached first a → answers a = Answered r → error_code r ≠ groups_pb2.OK) ∧
  ((∃ a r, x = Ok (Some r) ∧ reached first a ∧ answers a = Answered r ∧
     (error_code r = groups_pb2.NOT_LEADER →
      ∀ b r', reached first b → answers b = Answered r' → error_code r' = groups_pb2.NOT_LEADER)) ∨
   x = Raise NodeUnreachable ∧ ∀ a r, reached first a → answers a ≠ Answered r).

Lemma next_hint_elem r asked h : h ∈ next_hint r asked → named r = Some h ∧ h ∉ asked.
Proof.
  unfold RemoteGroups.GroupClient.next_hint, named. case_match; [|by intros ?%not_elem_of_nil].
  case_match; [|by intros ?%not_elem_of_nil]. case_decide; [by intros ?%not_elem_of_nil|].
  intros ->%list_elem_of_singleton. done.
Qed.

Lemma named_next_hint r asked h : named r = Some h → h ∈ asked ∨ h ∈ next_hint r asked.
Proof.
  unfold RemoteGroups.GroupClient.next_hint, named. case_match; [|done]. intros ->. case_decide; [by left|right].
  by apply list_elem_of_singleton.
Qed.

Lemma next_hint_length r asked : (length (next_hint r asked) ≤ 1)%nat.
Proof. unfold RemoteGroups.GroupClient.next_hint. repeat case_match; cbn; lia. Qed.

Lemma walking_skip first answered a pending asked :
  walking first answered (a :: pending) asked → a ∈ asked → walking first answered pending asked.
Proof.
  intros [K1 K2 K3 K5 K6 K7 K8] Ha. split; [..|done|done|done].
  - intros b [?|?]; apply K1; set_solver.
  - intros b Hb. destruct (K2 b Hb); set_solver.
  - done.
  - intros b r h Hb Hr Hh. destruct (K5 b r h Hb Hr Hh); set_solver.
Qed.

Lemma walking_silent first answered a pending asked :
  walking first answered (a :: pending) asked → answers a = RpcError →
  walking first answered pending ({[a]} ∪ asked).
Proof.
  intros [K1 K2 K3 K5 K6 K7 K8] Ha. split.
  - intros b Hb. apply K1. set_solver.
  - intros b Hb. destruct (K2 b Hb); set_solver.
  - intros b r [->%elem_of_singleton|Hb]%elem_of_union Hr; [congruence|by eapply K3].
  - intros b r h [->%elem_of_singleton|Hb]%elem_of_union Hr Hh; [congruence|].
    destruct (K5 b r h Hb Hr Hh); set_solver.
  - intros b r Hn [->%elem_of_singleton|Hb]%elem_of_union; [congruence|by apply K6].
  - intros r Hr. destruct (K7 r Hr) as (b & Hb & Hb'). exists b. set_solver.
  - intros b r r' Hr [->%elem_of_singleton|Hb]%elem_of_union Hr'; [congruence|by eapply K8].
Qed.

Lemma walking_refused first answered a pending asked r :
  walking first answered (a :: pending) asked → answers a = Answered r → error_code r ≠ groups_pb2.OK →
  walking first (better answered r) (next_hint r ({[a]} ∪ asked) ++ pending) ({[a]} ∪ asked).
Proof.
  intros [K1 K2 K3 K5 K6 K7 K8] Ha Hr. split.
  - intros b [Hb|[Hb|Hb]%elem_of_app]; [apply K1; set_solver| |apply K1; set_solver].
    apply next_hint_elem in Hb as [Hb _]. eapply reached_hint; [|exact Ha|done|exact Hb]. apply K1. set_solver.
  - intros b Hb. destruct (K2 b Hb); set_solver.
  - intros b r' [->%elem_of_singleton|Hb]%elem_of_union Hr'; [congruence|by eapply K3].
  - intros b r' h [->%elem_of_singleton|Hb]%elem_of_union Hr' Hh.
    + rewrite Ha in Hr'. injection Hr' as <-.
      destruct (named_next_hint r ({[a]} ∪ asked) h Hh); [by left|right; set_solver].
    + destruct (K5 b r' h Hb Hr' Hh); set_solver.
  - intros b r' Hn. exfalso. unfold RemoteGroups.GroupClient.better in Hn. repeat case_match; done.
  - intros r' Hn. assert (r' = r ∨ answered = Some r') as [-> | Hans].
    { unfold RemoteGroups.GroupClient.better in Hn. repeat case_match; simplify_eq; auto. }
    + exists a. set_solver.
    + destruct (K7 r' Hans) as (b & Hb & Hb'). exists b. set_solver.
  - intros b r1 r2 Hb1 Hb Hr2 Hne. unfold RemoteGroups.GroupClient.better in Hb1.
    apply elem_of_union in Hb as [->%elem_of_singleton|Hb].
    + rewrite Ha in Hr2. injection Hr2 as <-. repeat case_match; zbool; simplify_eq; done.
    + destruct answered as [r0|]; [|by destruct (K6 b r2 eq_refl Hb)].
      pose proof (K8 b r0 r2 eq_refl Hb Hr2 Hne). repeat case_match; zbool; simplify_eq; done.
Qed.

Lemma walking_closed first answered asked a :
  walking first answered [] asked → reached first a → a ∈ asked.
Proof.
  intros Hw. induction 1 as [a Ha|a r h _ IH Hr _ Hh].
  - destruct (wk_first _ _ _ _ Hw a Ha) as [?|?%not_elem_of_nil]; done.
  - destruct (wk_hint _ _ _ _ Hw a r h IH Hr Hh) as [?|?%not_elem_of_nil]; done.
Qed.

Lemma walk_over first answered asked g :
  walking first answered [] asked →
  walk_end first g g (match answered with Some r => Ok (Some r) | None => Raise NodeUnreachable end).
Proof.
  intros Hw. pose proof (λ a, walking_closed _ _ _ a Hw) as Hc. right. split_and!; [done| |].
  - intros a r Ha%Hc. by apply (wk_refused _ _ _ _ Hw).
  - destruct answered as [r|]; [left|right].
    + destruct (wk_some _ _ _ _ Hw r eq_refl) as (a & Ha & Hr). exists a, r. split_and!; [done| |done|].
      { apply (wk_reached _ _ _ _ Hw). by left. }
      intros Hn b r' Hb%Hc Hr'. destruct (Z.eq_dec (error_code r') groups_pb2.NOT_LEADER) as [|Hne]; [done|].
      by destruct (wk_best _ _ _ _ Hw b r r' eq_refl Hb Hr' Hne).
    + split; [done|]. intros a r Ha%Hc. by apply (wk_none _ _ _ _ Hw).
Qed.

Context (first : list string) (U : gset string).
Hypothesis reached_finite : ∀ a, reached first a → a ∈ U.

Lemma size_asked a (asked : gset string) : a ∈ U → a ∉ asked → (size (U ∖ ({[a]} ∪ asked)) < size (U ∖ asked))%nat.
Proof. intros. apply subset_size. set_solver. Qed.

Lemma walk_spec fuel : ∀ answered pending asked g pw,
  I pw → walking first answered pending asked → (length pending + size (U ∖ asked) < fuel)%nat →
  ∃ g' pw' x, walk fuel answered pending asked (g, pw) = ((g', pw'), x) ∧ I pw' ∧ walk_end first g g' x.
Proof.
  induction fuel as [|fuel IH]; intros answered pending asked g pw Hi Hw Hf; [lia|].
  destruct pending as [|a pending]; cbn [RemoteGroups.GroupClient.walk].
  { apply walk_over with (g := g) in Hw.
    destruct answered as [r|]; exists g, pw; eexists; (split; [done|]); done. }
  cbn in Hf. case_decide as Ha.
  { apply IH; [done|by eapply walking_skip|lia]. }
  destruct (answers_stable a pw Hi) as (pw' & Hcall & Hi').
  erewrite bind_run by (unfold pool; rewrite Hcall; reflexivity).
  assert (a ∈ U) as HaU by (apply reached_finite, (wk_reached _ _ _ _ Hw); set_solver).
  pose proof (size_asked a asked HaU Ha) as Hsize.
  destruct (answers a) as [r| |] eqn:Hans; [|apply IH; [done|by apply walking_silent|lia]|by destruct (answers_open a)].
  destruct (Z.eqb_spec (error_code r) groups_pb2.OK) as [Hok|Hok].
  - exists (prefer a g), pw'. eexists. split; [done|]. split; [done|]. left. exists a, r.
    split_and!; try done. apply (wk_reached _ _ _ _ Hw). set_solver.
  - apply IH; [done|by apply walking_refused|]. rewrite length_app.
    pose proof (next_hint_length r ({[a]} ∪ asked)). lia.
Qed.
End walk.

Lemma distinct_elem l a : a ∈ distinct l ↔ a ∈ l.
Proof.
  unfold distinct. assert (∀ acc, a ∈ foldl (λ ordered a, if decide (a ∈ ordered) then ordered else ordered ++ [a]) acc l
    ↔ a ∈ acc ∨ a ∈ l) as Hd.
  { induction l as [|b l IH]; intros acc; cbn; [set_solver|]. rewrite IH. case_decide; set_solver. }
  rewrite Hd. set_solver.
Qed.

(** C34: The walk over a group ends, and with the answer that is owed.  Suppose the addresses it
    can come to - the one that answered last, the seeds, and those that refusals name - are
    finitely many, and each does one thing with the request while the walk lasts.  Then
    within one question per address the walk returns: the answer of an address that takes
    the call, if there is one, which is remembered; otherwise a refusal, and one that says
    more than "ask the leader" if anybody gave such; and [NodeUnreachable] exactly if no
    address has an answer. *)
Theorem group_walk_answers {W Ch} `{Grpc W Ch} {Q R} (m : rpc Q R) (error_code : R → Z)
    (leader_address : R → option string) (request : Q) (I : ChannelPool.t Ch * W → Prop)
    (answers : string → call R) (U : gset string) fuel g pw :
  (∀ address pw, I pw → ∃ pw', call_at m request address pw = (pw', Ok (answers address)) ∧ I pw') →
  (∀ address, answers address ≠ ChannelClosed) →
  (∀ a, reached error_code leader_address answers (_candidates g) a → a ∈ U) →
  I pw → (length (_candidates g) + size U < fuel)%nat →
  ∃ g' pw' x, _ask m error_code leader_address request fuel (g, pw) = ((g', pw'), x) ∧ I pw' ∧
    walk_end error_code leader_address answers (_candidates g) g g' x.
Proof.
  intros Hstable Hopen HU Hi Hf. unfold _ask.
  apply (walk_spec m error_code leader_address request I answers Hstable Hopen (_candidates g) U HU); [done| |].
  - split; [|set_solver|set_solver|set_solver|set_solver|done|done].
    intros a [?|Ha]; [set_solver|by apply reached_first].
  - replace (U ∖ ∅) with U by set_solver. done.
Qed.
