(* ===== verification/RemoteClock.v ===== *)
(** Timestamps and the routing table over a wire: any number of [RemoteTSOClient]s of one
    timestamp group, and a [RemoteMetadataClient] of the members of the group of the table.

    The world is the group, as its members' servicers see it; a question that was lost on the
    way may have been answered all the same, which costs the run it allocated. *)

From Stdlib Require Import ZArith Lia.
From S2P Require Import Prelude Bytes PyVal PyOps Mvcc StateMachine Groups Tso Dict Router Metadata MetadataFacts MetadataClient Wire ClientServicer RemoteNode RemoteGroups.
Import TSOSMStateMachine.

(** ** A walk, as what it does to the world *)

Section effects.
Context {W Ch : Type} `{GrpcLaws W Ch} {Q R : Type}.
Context (m : rpc Q R) (error_code : R → Z) (leader_address : R → option string) (request : Q).
(** An order that the world moves along. *)
Context (le : relation W) `{!PreOrder le}.
Hypothesis channel_le : ∀ a w, le w (insecure_channel a w).1.
Hypothesis handle_le : ∀ a w w' r, handle m a request w = (w', r) → le w w'.

Lemma call_at_effect address p w p' w' (x : result (call R)) :
  GroupClient.call_at m request address (p, w) = ((p', w'), x) →
  le w w' ∧ ∃ o, x = Ok o ∧
    ∀ r, o = Answered r → ∃ a w1, le w w1 ∧ handle m a request w1 = (w', Ok r).
Proof.
  unfold GroupClient.call_at, bind. intros Hr.
  assert (∃ p1 w1 ch, ChannelPool.channel address (p, w) = ((p1, w1), Ok ch) ∧ le w w1) as (p1 & w1 & ch & Hch & Hle).
  { cbn. destruct (ChannelPool._channels p !! address) as [ch|]; [by exists p, w, ch|].
    pose proof (channel_le address w) as Hle. destruct (insecure_channel address w) as [w1 ch] eqn:Hi. eauto. }
  rewrite Hch in Hr. destruct (unary m ch request w1) as [w2 o] eqn:Hu. injection Hr as <- <- <-.
  destruct o as [r| |].
  - apply unary_answered in Hu. split; [etrans; [done|by eapply handle_le]|]. exists (Answered r). split; [done|].
    intros r' [= <-]. eauto.
  - split; [|by eexists]. apply unary_silent in Hu as [-> | [r Hr]]; [done|]. etrans; [done|by eapply handle_le].
  - apply unary_closed in Hu as ->. split; [done|by eexists].
Qed.

Lemma walk_effect fuel : ∀ answered pending asked g p w g' p' w' x,
  (∀ r, answered = Some r → error_code r ≠ groups_pb2.OK) →
  GroupClient.walk m error_code leader_address request fuel answered pending asked (g, (p, w)) = ((g', (p', w')), x) →
  le w w' ∧ ∀ r, x = Ok (Some r) → error_code r = groups_pb2.OK →
    ∃ a w1, le w w1 ∧ handle m a request w1 = (w', Ok r).
Proof.
  induction fuel as [|fuel IH]; intros answered pending asked g p w g' p' w' x Hans; cbn.
  { by intros [= <- <- <- <-]. }
  destruct pending as [|a pending].
  { destruct answered as [r|]; [|by intros [= <- <- <- <-]].
    intros [= <- <- <- <-]. split; [done|]. intros r' [= <-] Hok. by destruct (Hans _ eq_refl). }
  case_decide; [by apply IH|]. unfold bind, GroupClient.pool.
  destruct (GroupClient.call_at m request a (p, w)) as [[p1 w1] y] eqn:Hc.
  apply call_at_effect in Hc as (Hle & o & -> & Hok). destruct o as [r| |].
  - destruct (Z.eqb_spec (error_code r) groups_pb2.OK) as [Hr|Hr].
    { intros [= <- <- <- <-]. split; [done|]. intros r' [= <-] _. by apply Hok. }
    intros Hw. apply IH in Hw as [Hle' Hr'].
    + split; [by etrans|]. intros r' Hx Hr1. destruct (Hr' r' Hx Hr1) as (b & w2 & ? & ?).
      exists b, w2. split; [by etrans|done].
    + intros r'. unfold GroupClient.better. repeat case_match; intros [= <-]; auto.
  - intros Hw. apply IH in Hw as [Hle' Hr']; [|done]. split; [by etrans|]. intros r' Hx Hr1.
    destruct (Hr' r' Hx Hr1) as (b & w2 & ? & ?). exists b, w2. split; [by etrans|done].
  - by intros [= <- <- <- <-].
Qed.
End effects.

(** ** The clock *)

Section clock.
Context `{!Msgpack} {N Ch : Type} `{!Group N} `{!GroupLaws N TSOSMStateMachine.t apply TSOSMStateMachine.init}.
Context `{!Grpc N Ch} `{!Listening N} `{!GrpcLaws N Ch}.
(** What the servicer at an address knows of the leader. *)
Context (leader_at : string → option (option string)).
Hypothesis clock_listens : ∀ a count n,
  handle GetTimestampBatch a count n =
  (let* r := TSOServicer.GetTimestampBatch (leader_at a) count in ret (tso_response r)) n.
(** Opening a channel proposes nothing, and a failed proposal has a code. *)
Hypothesis channel_quiet : ∀ a n, g_log (insecure_channel a n).1 = g_log n.
Hypothesis refusals_have_codes : ∀ c n n' r,
  g_propose c n = (n', r) → ar_success r = false → wire_code (ar_error_code r) ≠ groups_pb2.OK.

Definition later (n n' : N) : Prop := g_log n `prefix_of` g_log n'.
#[local] Instance later_preorder : PreOrder later.
Proof. split; [by intros n; unfold later|]. intros n1 n2 n3 H1' H2'. unfold later in *. by transitivity (g_log n2). Qed.

Lemma propose_later c n n' r : g_propose c n = (n', r) → later n n'.
Proof. intros (before & rest & Hl & _)%g_propose_spec. unfold later. rewrite Hl. by eexists. Qed.

Lemma serve_later la count n n' x : TSOServicer.GetTimestampBatch la count n = (n', x) → later n n'.
Proof.
  unfold TSOServicer.GetTimestampBatch, TSOServicer._allocate, bind, reads, ret. intros Hr.
  case_match; [by injection Hr as <- <-|]. destruct (serialize_command _ _) as [cmd|]; [|by injection Hr as <- <-].
  destruct (g_propose cmd n) as [n1 r] eqn:Hp. apply propose_later in Hp.
  assert (n1 = n') as <-; [|done]. repeat case_match; simplify_eq/=; done.
Qed.

(** A response with a run: the run was allocated during the call. *)
Lemma serve_run la count n n' r :
  TSOServicer.GetTimestampBatch la count n = (n', Ok r) → TSOServicer.rs_code r = groups_pb2.OK →
  Forall forward (g_log n') →
  ∃ a b, TSOServicer.rs_answer r = Some (a, b) ∧ counter n < a ≤ b ∧ b ≤ counter n'.
Proof.
  intros Hr Hok Hlog. unfold TSOServicer.GetTimestampBatch in Hr.
  destruct (Z.ltb_spec count 1) as [|Hcount]; [by injection Hr as <- <-|]. unfold TSOServicer._allocate in Hr.
  unfold bind at 1 in Hr. destruct (serialize_command _ _) as [cmd|] eqn:Hc; [|done].
  destruct (g_propose cmd n) as [n1 x] eqn:Hp. destruct (ar_success x) eqn:Hs; cbn in Hr.
  2: { injection Hr as <- <-. cbn in Hok. by destruct (refusals_have_codes _ _ _ _ Hp Hs). }
  destruct (unpack_data (ar_data x)) as [data|] eqn:Hd; [|done]. cbn in Hr.
  assert (n1 = n') as ->.
  { unfold bind, reads, ret in Hr. repeat case_match; simplify_eq/=; done. }
  destruct (propose_counter _ _ _ _ Hp Hlog) as (_ & _ & Hrun). destruct (Hrun Hs) as (s & Hlo & Hhi & Hdata & Hans).
  destruct (allocate_answers_run count s cmd Hc) as [Hcur Hcase]. case_match.
  - destruct Hcase as [_ Hrun']. unfold answered_run in Hrun'. rewrite <-Hdata in Hrun'.
    destruct (ar_data x) as [bs|]; [|done]. rewrite Hd in Hrun'. cbn in Hrun'.
    unfold bind, reads in Hr. destruct (get_int data "start_ts") as [a|]; [|done]. cbn in Hr, Hrun'.
    destruct (get_int data "end_ts") as [b|]; [|done]. cbn in Hr, Hrun'. injection Hrun' as -> ->.
    destruct (TSOServicer.int64 _) as [a'|] eqn:Ha; [|done]. apply int64_Ok in Ha as [-> _].
    destruct (TSOServicer.int64 _) as [b'|] eqn:Hb; [|done]. apply int64_Ok in Hb as [-> _].
    injection Hr as <-. do 2 eexists. split; [done|]. lia.
  - by rewrite Hcase in Hans.
Qed.

(** The run in a client's hands. *)
Definition as_run (c : RemoteTSOClient.t) : TSOClient.t :=
  {| TSOClient._batch_size := RemoteTSOClient._batch_size c;
     TSOClient._local_start := RemoteTSOClient._local_start c;
     TSOClient._local_end := RemoteTSOClient._local_end c |}.
Definition given_by (x : result (option Z)) : option Z := match x with Ok o => o | Raise _ => None end.

Lemma later_counter n n' : later n n' → Forall forward (g_log n') → Forall forward (g_log n) ∧ counter n ≤ counter n'.
Proof.
  intros [rest Hl] Hf. unfold counter. rewrite Hl in *. apply Forall_app in Hf as [Hf1 Hf2]. split; [done|].
  rewrite after_app. by apply after_counter.
Qed.

(** The walk for a run. *)
Lemma ask_effect fuel count g p n g' p' n' y :
  GroupClient._ask GetTimestampBatch groups_msg.tb_error_code groups_msg.tb_leader_address count fuel (g, (p, n))
  = ((g', (p', n')), y) →
  later n n' ∧ ∀ r, y = Ok (Some r) → groups_msg.tb_error_code r = groups_pb2.OK →
    ∃ a n1, later n n1 ∧ handle GetTimestampBatch a count n1 = (n', Ok r).
Proof.
  unfold GroupClient._ask. intros Hw. apply (walk_effect _ _ _ _ later) in Hw; [done|..|done].
  - intros a w. unfold later. by rewrite channel_quiet.
  - intros a w w' r Hh. rewrite clock_listens in Hh. unfold bind, ret in Hh.
    destruct (TSOServicer.GetTimestampBatch _ _ w) as [w1 z] eqn:Hs. apply serve_later in Hs.
    destruct z; by injection Hh as <- <-.
Qed.

Lemma fetch_inv fuel c g p n c' g' p' n' x :
  RemoteTSOClient._fetch_batch fuel (c, (g, (p, n))) = ((c', (g', (p', n'))), x) →
  later n n' ∧ RemoteTSOClient._batch_size c' = RemoteTSOClient._batch_size c ∧
  (x ≠ Ok (Some tt) → c' = c) ∧
  (x = Ok (Some tt) → ∃ r a n1, later n n1 ∧ groups_msg.tb_error_code r = groups_pb2.OK ∧
     handle GetTimestampBatch a (RemoteTSOClient._batch_size c) n1 = (n', Ok r) ∧
     RemoteTSOClient._local_start c' = default 0 (groups_msg.tb_start_ts r) ∧
     RemoteTSOClient._local_end c' = default 0 (groups_msg.tb_end_ts r) + 1).
Proof.
  intros Hr. unfold RemoteTSOClient._fetch_batch in Hr. unfold bind at 1, reads in Hr.
  destruct (uint64 (RemoteTSOClient._batch_size c)) as [count|] eqn:Hcount.
  2: { injection Hr as <- <- <- <- <-. split_and!; [by unfold later|done|done|done]. }
  apply uint64_Ok in Hcount as [-> _]. unfold obind, bind at 1, RemoteTSOClient.group in Hr.
  destruct (GroupClient._ask _ _ _ _ fuel (g, (p, n))) as [[g1 [p1 n1]] y] eqn:Hw.
  apply ask_effect in Hw as [Hle Hok]. destruct y as [[r|]|e]; [|injection Hr as <- <- <- <- <-; by split_and!..].
  destruct (Z.eqb_spec (groups_msg.tb_error_code r) groups_pb2.OK) as [Hr1|Hr1]; cbn in Hr;
    injection Hr as <- <- <- <- <-; split_and!; try done.
  intros _. destruct (Hok r eq_refl Hr1) as (a & n0 & ? & ?). by exists r, a, n0.
Qed.

Lemma fetch_took fuel c g p n c' g' p' n' :
  RemoteTSOClient._fetch_batch fuel (c, (g, (p, n))) = ((c', (g', (p', n'))), Ok (Some tt)) →
  Forall forward (g_log n') →
  counter n < RemoteTSOClient._local_start c' < RemoteTSOClient._local_end c' ∧
  RemoteTSOClient._local_end c' ≤ counter n' + 1.
Proof.
  intros (_ & _ & _ & Hok)%fetch_inv Hlog. destruct (Hok eq_refl) as (r & a & n0 & Hle0 & Hr1 & Hh & -> & ->).
  rewrite clock_listens in Hh. apply bind_Ok_inv in Hh as (n2 & resp & Hs & Hret). injection Hret as -> <-.
  destruct (serve_run _ _ _ _ _ Hs Hr1 Hlog) as (lo & hi & Hans & Hlt & Hhi). cbn. rewrite Hans. cbn.
  destruct (later_counter _ _ (serve_later _ _ _ _ _ Hs) Hlog) as [Hlog0 _].
  destruct (later_counter _ _ Hle0 Hlog0). lia.
Qed.

Lemma remote_later fuel c g p n c' g' p' n' x :
  RemoteTSOClient.get_timestamp fuel (c, (g, (p, n))) = ((c', (g', (p', n'))), x) → later n n'.
Proof.
  unfold RemoteTSOClient.get_timestamp, obind, bind. destruct (_ >=? _).
  - destruct (RemoteTSOClient._fetch_batch fuel _) as [[c1 [g1 [p1 n1]]] y] eqn:Hf.
    apply fetch_inv in Hf as [Hle _]. destruct y as [[[]|]|]; by intros [= _ _ _ <- _].
  - intros [= _ _ _ <- _]. by unfold later.
Qed.

Lemma remote_took fuel c g p n c' g' p' n' x :
  RemoteTSOClient.get_timestamp fuel (c, (g, (p, n))) = ((c', (g', (p', n'))), x) → Forall forward (g_log n') →
  took n (as_run c) n' (as_run c') (given_by x).
Proof.
  intros Hr Hlog. destruct (later_counter _ _ (remote_later _ _ _ _ _ _ _ _ _ _ Hr) Hlog) as [_ Hcnt].
  unfold RemoteTSOClient.get_timestamp, obind, bind in Hr. unfold took, live, as_run.
  destruct (Z.geb_spec (RemoteTSOClient._local_start c) (RemoteTSOClient._local_end c)) as [Hge|Hlt].
  - destruct (RemoteTSOClient._fetch_batch fuel _) as [[c1 [g1 [p1 n1]]] y] eqn:Hf.
    pose proof Hf as (_ & Hbs & Hno & _)%fetch_inv. destruct y as [[[]|]|e]; injection Hr as <- <- <- <- <-.
    + pose proof (fetch_took _ _ _ _ _ _ _ _ _ Hf Hlog). cbn. split_and!; try done; intros; lia.
    + rewrite Hno by done. cbn. split_and!; try done. auto.
    + rewrite Hno by done. cbn. split_and!; try done. auto.
  - injection Hr as <- <- <- <- <-. cbn. split_and!; try done; intros; lia.
Qed.

(** Client [i] asks for one timestamp; each client has channels of its own. *)
Abbreviation member := (RemoteTSOClient.t * (GroupClient.t * ChannelPool.t Ch))%type.
Definition remote_call (fuel i : nat) (st : N * list member) : (N * list member) * option Z :=
  match st.2 !! i with
  | None => (st, None)
  | Some (c, (g, p)) =>
      let '((c', (g', (p', n'))), x) := RemoteTSOClient.get_timestamp fuel (c, (g, (p, st.1))) in
      ((n', <[i := (c', (g', p'))]> st.2), given_by x)
  end.

Fixpoint remote_calls (fuel : nat) (who : list nat) (st : N * list member)
    : (N * list member) * list (nat * Z) :=
  match who with
  | [] => (st, [])
  | i :: who =>
      let '(st', r) := remote_call fuel i st in
      let '(st'', out) := remote_calls fuel who st' in
      (st'', option_list (pair i <$> r) ++ out)
  end.

Abbreviation runs_of cs := (as_run <$> cs.*1).

Lemma remote_call_later fuel i st : later st.1 (remote_call fuel i st).1.1.
Proof.
  destruct st as [n cs]. unfold remote_call. cbn. destruct (cs !! i) as [[c [g p]]|]; [|by unfold later].
  destruct (RemoteTSOClient.get_timestamp fuel _) as [[c1 [g1 [p1 n1]]] x] eqn:Hg. by eapply remote_later.
Qed.

Lemma remote_calls_later fuel who : ∀ st, later st.1 (remote_calls fuel who st).1.1.
Proof.
  induction who as [|i who IH]; intros st; cbn; [by unfold later|]. pose proof (remote_call_later fuel i st) as Hc.
  destruct (remote_call fuel i st) as [st' r]. specialize (IH st').
  destruct (remote_calls fuel who st') as [st'' out]. cbn in *. by transitivity st'.1.
Qed.

Lemma remote_call_step fuel i n (cs : list member) n' cs' r given :
  apart n (runs_of cs) given → remote_call fuel i (n, cs) = ((n', cs'), r) → Forall forward (g_log n') →
  apart n' (runs_of cs') (given ++ option_list (pair i <$> r)) ∧
  match r with
  | Some ts => Forall (λ p, p.2 ≠ ts ∧ (p.1 = i → p.2 < ts)) given
  | None => True
  end.
Proof.
  intros Ha Hc Hlog. unfold remote_call in Hc. cbn in Hc. destruct (cs !! i) as [[c [g p]]|] eqn:Hi.
  2: { injection Hc as <- <- <-. cbn. by rewrite app_nil_r. }
  destruct (RemoteTSOClient.get_timestamp fuel _) as [[c1 [g1 [p1 n1]]] x] eqn:Hg. injection Hc as <- <- <-.
  rewrite !list_fmap_insert. apply (apart_step i n (runs_of cs) given (as_run c)); [done| |by eapply remote_took].
  by rewrite !list_lookup_fmap, Hi.
Qed.

Lemma remote_calls_apart fuel who : ∀ n cs given,
  apart n (runs_of cs) given → Forall forward (g_log (remote_calls fuel who (n, cs)).1.1) →
  StronglySorted given_lt given → StronglySorted given_lt (given ++ (remote_calls fuel who (n, cs)).2).
Proof.
  induction who as [|i who IH]; intros n cs given Ha Hlog Hs; cbn in *; [by rewrite app_nil_r|].
  destruct (remote_call fuel i (n, cs)) as [[n1 cs1] r] eqn:Hc.
  pose proof (remote_calls_later fuel who (n1, cs1)) as Hl. specialize (IH n1 cs1).
  destruct (remote_calls fuel who (n1, cs1)) as [[n2 cs2] out]. cbn in *.
  destruct (later_counter _ _ Hl Hlog) as [Hf _].
  destruct (remote_call_step _ _ _ _ _ _ _ _ Ha Hc Hf) as [Ha' Hnew].
  rewrite app_assoc. apply IH; [done..|]. destruct r as [ts|]; cbn; [|by rewrite app_nil_r].
  apply StronglySorted_app. split_and!; [|done|by repeat constructor].
  intros p q Hp' ->%list_elem_of_singleton. rewrite list.Forall_forall in Hnew. by apply Hnew.
Qed.

(** C35: No two transactions get one timestamp, over a wire either.  Any number of clients, each
    with seeds and channels of its own, ask the group for timestamps in any order; members
    may refuse or name others, questions and answers may be lost, and others may propose.
    All the timestamps that are handed out are different, and each client's own come in
    increasing order. *)
Theorem remote_clients_never_collide fuel who n (cs : list member) :
  Forall (λ m, ∃ batch_size, m.1 = RemoteTSOClient.init batch_size ∧ 1 ≤ batch_size) cs →
  let '((n', _), given) := remote_calls fuel who (n, cs) in
  Forall forward (g_log n') →
  StronglySorted (λ p q, p.2 ≠ q.2 ∧ (p.1 = q.1 → p.2 < q.2)) given.
Proof.
  intros Hinit. pose proof (remote_calls_apart fuel who n cs []) as Hc.
  destruct (remote_calls fuel who (n, cs)) as [[n' cs'] given]. intros Hlog. apply Hc; [|done|constructor].
  assert (∀ i c, runs_of cs !! i = Some c → 1 ≤ TSOClient._batch_size c ∧ ∀ x, ¬ live c x) as Hr.
  { intros i c. rewrite !list_lookup_fmap. destruct (cs !! i) as [[c0 gp]|] eqn:Hi; [|done]. cbn. intros [= <-].
    rewrite list.Forall_forall in Hinit. destruct (Hinit _ (list_elem_of_lookup_2 _ _ _ Hi)) as (b & Heq & Hb).
    cbn in Heq. subst c0. split; [done|]. unfold live. cbn. lia. }
  split; [by intros i c [? _]%Hr| | |..].
  - intros i c x [_ Hn]%Hr Hx. by destruct (Hn x).
  - intros i j c d x [_ Hn]%Hr _ Hx. by destruct (Hn x).
  - by intros i c j x _ ?%not_elem_of_nil.
  - by intros i c x y _ ?%not_elem_of_nil.
Qed.
End clock.

(** ** The table *)

Lemma d_of_in {V} (pairs : list (Z * V)) k v : (k, v) ∈ d_of pairs → (k, v) ∈ pairs.
Proof.
  unfold d_of. assert (∀ acc, NoDup acc.*1 →
    (k, v) ∈ foldl (λ d e, d_set d e.1 e.2) acc pairs → (k, v) ∈ acc ∨ (k, v) ∈ pairs) as Hd.
  { induction pairs as [|[k' v'] pairs IH]; intros acc Hnd; cbn; [by left|].
    intros [Hd|Hd]%IH; [|set_solver|by apply d_set_nodup].
    apply d_set_in in Hd as [[-> ->]|[_ Hd]]; set_solver. }
  intros [?%not_elem_of_nil|?]%Hd; [done..|constructor].
Qed.

Section parse.
Context `{PyRepr}.

Lemma record_payload_placement p : record_payload (shard_record p) = placement_payload p.
Proof.
  unfold record_payload, placement_payload, shard_record. cbn -[addresses_payload].
  change (foldl (λ m e, <[e.1:=e.2]> m) ∅ (sorted_items (sp_addresses p))) with (dict_of (sorted_items (sp_addresses p))).
  by rewrite dict_of_sorted.
Qed.

(** A table as its parser makes it: a dictionary by the ids of the shards. *)
Definition parsed_table (t : RoutingTable) : Prop :=
  NoDup (rt_shards t).*1 ∧ ∀ k p, (k, p) ∈ rt_shards t → k = sp_shard_id p.

Lemma parse_table_parsed payload t : _parse_table payload = Ok t → parsed_table t.
Proof.
  unfold _parse_table. intros Ht. repeat (apply rbind_Ok in Ht as (? & _ & Ht)). injection Ht as <-.
  split; cbn; [apply d_of_keys_nodup|]. intros k p Hkp%d_of_in.
  apply list_elem_of_fmap in Hkp as (p' & [= -> ->] & _). done.
Qed.

Lemma wire_table t :
  parsed_table t →
  _parse_table (_payload (shards_response (inr (rt_version t, map (λ e, shard_record e.2) (rt_shards t))))) = Ok t.
Proof.
  intros [Hnd Hid]. unfold _parse_table, _payload. cbn -[traverse d_of record_payload map].
  decides. cbn -[traverse d_of record_payload map].
  rewrite !map_map, (traverse_map _ _ snd).
  2: { intros [k p] _. rewrite record_payload_placement. apply parse_placement_payload. }
  cbn -[d_of map]. decides. cbn -[d_of map]. destruct t as [v shards]. cbn in *. do 2 f_equal. rewrite map_map.
  assert (map (λ e : Z * ShardPlacement, (sp_shard_id e.2, e.2)) shards = shards) as ->.
  { clear Hnd. induction shards as [|[k p] shards IH]; cbn; [done|]. rewrite IH by set_solver.
    by rewrite <-(Hid k p) by set_solver. }
  by apply d_of_nodup.
Qed.
End parse.

Section table.
Context `{PyRepr} `{!Msgpack} {W N Ch : Type} `{!MetaGroup W N} `{!Grpc W Ch} `{!Listening W} `{!GrpcLaws W Ch}.
(** The member that listens at an address, and what its servicer knows of the leader. *)
Context (member_at : string → N) (leader_at : string → option (option string)).
Hypothesis table_listens : ∀ a w,
  handle ListShards a tt w =
  (let '(w', r) := MetadataClient.ListShards (member_at a) (leader_at a) w in
   (w', let? r := r in Ok (shards_response r))).

(** A refusal has a code of its own. *)
Hypothesis reads_have_codes : ∀ n key w w' r,
  mg_get n key w = (w', r) → rr_success r = false → wire_code (rr_error_code r) ≠ groups_pb2.OK.

Definition any (_ _ : W) : Prop := True.
#[local] Instance any_preorder : PreOrder any.
Proof. by split. Qed.

(** The table a remote client gets is the table a member read.  When [refresh] returns, one
    of the members it asked read the table's document successfully during the call, and the
    table the client parsed out of the message, and keeps, is the one the document holds:
    the same version, ranges, members, addresses and leaders. *)
Theorem remote_refresh_is_a_read fuel c g p w s' t :
  RemoteMetadataClient.refresh fuel (c, (g, (p, w))) = (s', Ok (Some t)) →
  s'.1 = Some t ∧ ∃ a w1 r, mg_get (member_at a) TABLE_KEY w1 = (s'.2.2.2, r) ∧ rr_success r = true ∧
    MetadataClient.parse_value (rr_value r) = Ok t.
Proof.
  unfold RemoteMetadataClient.refresh, obind, bind at 1, RemoteMetadataClient.group.
  destruct (GroupClient._ask _ _ _ _ fuel (g, (p, w))) as [[g1 [p1 w1]] y] eqn:Hw.
  unfold GroupClient._ask in Hw. apply (walk_effect _ _ _ _ any) in Hw as [_ Hok]; [|done..].
  destruct y as [[resp|]|e]; [|done..].
  destruct (Z.eqb_spec (groups_msg.ls_error_code resp) groups_pb2.OK) as [Hr1|Hr1]; [|done].
  unfold RemoteMetadataClient.lift, bind, reads. cbn -[_parse_table _payload].
  destruct (_parse_table (_payload resp)) as [t1|] eqn:Hp; [|done]. intros [= <- <-]. split; [done|]. cbn.
  destruct (Hok resp eq_refl Hr1) as (a0 & w0 & _ & Hh). rewrite table_listens in Hh.
  unfold MetadataClient.ListShards in Hh. destruct (mg_get (member_at a0) TABLE_KEY w0) as [w2 r] eqn:Hg.
  exists a0, w0, r. destruct (rr_success r) eqn:Hs; cbn in Hh.
  2: { injection Hh as <- <-. cbn in Hr1. by destruct (reads_have_codes _ _ _ _ _ Hg Hs). }
  injection Hh as <- Hh. apply rbind_Ok in Hh as (x & Hx & [= <-]). apply rbind_Ok in Hx as (t0 & Ht0 & [= <-]).
  split_and!; [done..|]. rewrite Ht0. f_equal.
  assert (parsed_table t0) as Hpt.
  { unfold MetadataClient.parse_value in Ht0. apply rbind_Ok in Ht0 as (b & _ & Ht0).
    apply rbind_Ok in Ht0 as (payload & _ & Ht0). by eapply parse_table_parsed. }
  apply wire_table in Hpt. congruence.
Qed.
End table.
