(* ===== verification/RaftWire.v ===== *)
(** Raft between processes: [raft/network_client.py] and [raft/raft_servicer.py].

    A node sends its requests through a [RaftNetworkClient] and answers those of its peers
    behind a [RaftServicer].  Both translate between the node's own messages and those of
    [proto/raft.proto], field by field. *)

From Stdlib Require Import ZArith Lia.
From S2P Require Import Prelude Bytes PyVal PyOps Mvcc StateMachine Groups Tso Metadata RaftStorage RaftNode Wire.

(** What a servicer calls of its node. *)
Class RaftPeer (W N : Type) := {
  rp_request_vote : N → RequestVoteRequest → M W RequestVoteResponse;
  rp_append_entries : N → AppendEntriesRequest → M W AppendEntriesResponse;
  rp_install_snapshot : N → InstallSnapshotRequest → M W InstallSnapshotResponse
}.

Module RaftServicer.
Section servicer.
Context {W N : Type} `{RaftPeer W N}.
Record t := { _node : N }.
Definition lift {A} (r : result A) : M W A := reads (λ _, r).

Definition RequestVote (s : t) (request : raft_pb2.RequestVoteRequest) : M W raft_pb2.RequestVoteResponse :=
  let internal_request :=
    {| rv_term := raft_pb2.vq_term request; rv_candidate_id := raft_pb2.vq_candidate_id request;
       rv_last_log_index := raft_pb2.vq_last_log_index request;
       rv_last_log_term := raft_pb2.vq_last_log_term request |} in
  let* response := rp_request_vote (_node s) internal_request in
  let* term := lift (uint64 (rvr_term response)) in
  ret {| raft_pb2.vr_term := term; raft_pb2.vr_vote_granted := rvr_vote_granted response |}.

Definition entry_in (e : raft_pb2.Entry) : LogEntry :=
  {| le_term := raft_pb2.en_term e; le_index := raft_pb2.en_index e; le_command := raft_pb2.en_command e |}.

Definition AppendEntries (s : t) (request : raft_pb2.AppendEntriesRequest) : M W raft_pb2.AppendEntriesResponse :=
  let entries := map entry_in (raft_pb2.aq_entries request) in
  let internal_request :=
    {| ae_term := raft_pb2.aq_term request; ae_leader_id := raft_pb2.aq_leader_id request;
       ae_prev_log_index := raft_pb2.aq_prev_log_index request;
       ae_prev_log_term := raft_pb2.aq_prev_log_term request; ae_entries := entries;
       ae_leader_commit := raft_pb2.aq_leader_commit request |} in
  let* response := rp_append_entries (_node s) internal_request in
  let* term := lift (uint64 (aer_term response)) in
  let* match_index := lift (uint64 (aer_match_index response)) in
  ret {| raft_pb2.ap_term := term; raft_pb2.ap_success := aer_success response;
         raft_pb2.ap_match_index := match_index |}.

Definition InstallSnapshot (s : t) (request : raft_pb2.InstallSnapshotRequest)
    : M W raft_pb2.InstallSnapshotResponse :=
  let internal_request :=
    {| is_term := raft_pb2.iq_term request; is_leader_id := raft_pb2.iq_leader_id request;
       is_last_included_index := raft_pb2.iq_last_included_index request;
       is_last_included_term := raft_pb2.iq_last_included_term request;
       is_data := raft_pb2.iq_data request |} in
  let* response := rp_install_snapshot (_node s) internal_request in
  let* term := lift (uint64 (isr_term response)) in
  ret {| raft_pb2.ip_term := term; raft_pb2.ip_success := isr_success response |}.
End servicer.
Arguments t : clear implicits.
End RaftServicer.

Module RaftNetworkClient.
Section client.
Context {W Ch : Type} `{Grpc W Ch}.

(** [_channels] and [_stubs], which are a stub per channel. *)
Record t := { _peer_addresses : gmap Z string; _channels : gmap Z Ch }.

Definition open_channel (a : gmap Z Ch * W) (e : Z * string) : gmap Z Ch * W :=
  let '(w, ch) := insecure_channel e.2 a.2 in (<[e.1 := ch]> a.1, w).
Definition init (peer_addresses : gmap Z string) : M W t := λ w,
  let '(channels, w') := foldl open_channel (∅, w) (map_to_list peer_addresses) in
  (w', Ok {| _peer_addresses := peer_addresses; _channels := channels |}).

Definition lift {A} (r : result A) : M W A := reads (λ _, r).

(** One call: [None] for a peer without a stub and for an [RpcError]. *)
Definition rpc_to {Q R A} (c : t) (peer_id : Z) (m : rpc Q R) (request : result Q) (answer : R → A)
    : M W (option A) :=
  match _channels c !! peer_id with
  | None => ret None
  | Some ch =>
      let* q := lift request in
      λ w, match unary m ch q w with
           | (w', Answered r) => (w', Ok (Some (answer r)))
           | (w', RpcError) => (w', Ok None)
           | (w', ChannelClosed) => (w', Raise ValueError)
           end
  end.

Definition vote_out (request : RequestVoteRequest) : result raft_pb2.RequestVoteRequest :=
  let? term := uint64 (rv_term request) in
  let? candidate_id := uint64 (rv_candidate_id request) in
  let? last_log_index := uint64 (rv_last_log_index request) in
  let? last_log_term := uint64 (rv_last_log_term request) in
  Ok {| raft_pb2.vq_term := term; raft_pb2.vq_candidate_id := candidate_id;
        raft_pb2.vq_last_log_index := last_log_index; raft_pb2.vq_last_log_term := last_log_term |}.

Definition request_vote (c : t) (peer_id : Z) (request : RequestVoteRequest) : M W (option RequestVoteResponse) :=
  rpc_to c peer_id RequestVote (vote_out request)
    (λ r, {| rvr_term := raft_pb2.vr_term r; rvr_vote_granted := raft_pb2.vr_vote_granted r |}).

Definition entry_out (e : LogEntry) : result raft_pb2.Entry :=
  let? term := uint64 (le_term e) in
  let? index := uint64 (le_index e) in
  Ok {| raft_pb2.en_term := term; raft_pb2.en_index := index; raft_pb2.en_command := le_command e |}.

Definition append_out (request : AppendEntriesRequest) : result raft_pb2.AppendEntriesRequest :=
  let? entries := traverse entry_out (ae_entries request) in
  let? term := uint64 (ae_term request) in
  let? leader_id := uint64 (ae_leader_id request) in
  let? prev_log_index := uint64 (ae_prev_log_index request) in
  let? prev_log_term := uint64 (ae_prev_log_term request) in
  let? leader_commit := uint64 (ae_leader_commit request) in
  Ok {| raft_pb2.aq_term := term; raft_pb2.aq_leader_id := leader_id;
        raft_pb2.aq_prev_log_index := prev_log_index; raft_pb2.aq_prev_log_term := prev_log_term;
        raft_pb2.aq_entries := entries; raft_pb2.aq_leader_commit := leader_commit |}.

Definition append_entries (c : t) (peer_id : Z) (request : AppendEntriesRequest)
    : M W (option AppendEntriesResponse) :=
  rpc_to c peer_id AppendEntries (append_out request)
    (λ r, {| aer_term := raft_pb2.ap_term r; aer_success := raft_pb2.ap_success r;
             aer_match_index := raft_pb2.ap_match_index r |}).

Definition snapshot_out (request : InstallSnapshotRequest) : result raft_pb2.InstallSnapshotRequest :=
  let? term := uint64 (is_term request) in
  let? leader_id := uint64 (is_leader_id request) in
  let? last_included_index := uint64 (is_last_included_index request) in
  let? last_included_term := uint64 (is_last_included_term request) in
  Ok {| raft_pb2.iq_term := term; raft_pb2.iq_leader_id := leader_id;
        raft_pb2.iq_last_included_index := last_included_index;
        raft_pb2.iq_last_included_term := last_included_term; raft_pb2.iq_data := is_data request |}.

Definition install_snapshot (c : t) (peer_id : Z) (request : InstallSnapshotRequest)
    : M W (option InstallSnapshotResponse) :=
  rpc_to c peer_id InstallSnapshot (snapshot_out request)
    (λ r, {| isr_term := raft_pb2.ip_term r; isr_success := raft_pb2.ip_success r |}).

Definition shutdown (c : t) : M W unit := λ w,
  (foldl (λ w e, channel_close e.2 w) w (map_to_list (_channels c)), Ok tt).
End client.
Arguments t : clear implicits.
End RaftNetworkClient.

(** ** Messages arrive as they were sent *)

Section facts.
Context {W Ch N : Type} `{GrpcLaws W Ch} `{!RaftPeer W N}.

Lemma rpc_to_some {Q R A} c peer ch (m : rpc Q R) q (answer : R → A) w w' r :
  RaftNetworkClient._channels c !! peer = Some ch →
  RaftNetworkClient.rpc_to c peer m q answer w = (w', Ok (Some r)) →
  ∃ q' r', q = Ok q' ∧ handle m (channel_to ch) q' w = (w', Ok r') ∧ r = answer r'.
Proof.
  unfold RaftNetworkClient.rpc_to, bind, reads. intros ->. destruct q as [q'|]; cbn; [|done].
  destruct (unary m ch q' w) as [w1 [r1| |]] eqn:Hu; [|done..]. intros [= <- <-].
  apply unary_answered in Hu. eauto.
Qed.

Lemma rpc_to_none {Q R A} c peer ch (m : rpc Q R) q (answer : R → A) w w' :
  RaftNetworkClient._channels c !! peer = Some ch →
  RaftNetworkClient.rpc_to c peer m q answer w = (w', Ok None) →
  w' = w ∨ ∃ q' r', q = Ok q' ∧ handle m (channel_to ch) q' w = (w', r').
Proof.
  unfold RaftNetworkClient.rpc_to, bind, reads. intros ->. destruct q as [q'|]; cbn; [|done].
  destruct (unary m ch q' w) as [w1 [r1| |]] eqn:Hu; [done| |done]. intros [= <-].
  apply unary_silent in Hu as [-> | [r' ?]]; [by left|right; eauto].
Qed.

(** A translation that adds nothing and loses nothing: [out] makes a message and [in_] reads
    it back. *)
Lemma vote_out_in q q' : RaftNetworkClient.vote_out q = Ok q' →
  {| rv_term := raft_pb2.vq_term q'; rv_candidate_id := raft_pb2.vq_candidate_id q';
     rv_last_log_index := raft_pb2.vq_last_log_index q';
     rv_last_log_term := raft_pb2.vq_last_log_term q' |} = q.
Proof.
  unfold RaftNetworkClient.vote_out. intros Hq.
  repeat (apply rbind_Ok in Hq as (? & [-> _]%uint64_Ok & Hq)). injection Hq as <-. by destruct q.
Qed.

Lemma entries_out_in es es' : traverse RaftNetworkClient.entry_out es = Ok es' → map RaftServicer.entry_in es' = es.
Proof.
  revert es'. induction es as [|[tm ix cm] es IH]; intros es'; cbn; [by intros [= <-]|]. intros Hq.
  apply rbind_Ok in Hq as (e & He & Hq). apply rbind_Ok in Hq as (es1 & Hes & [= <-]). cbn. rewrite (IH _ Hes).
  unfold RaftNetworkClient.entry_out in He. cbn in He.
  repeat (apply rbind_Ok in He as (? & [-> _]%uint64_Ok & He)). by injection He as <-.
Qed.

Lemma append_out_in q q' : RaftNetworkClient.append_out q = Ok q' →
  {| ae_term := raft_pb2.aq_term q'; ae_leader_id := raft_pb2.aq_leader_id q';
     ae_prev_log_index := raft_pb2.aq_prev_log_index q'; ae_prev_log_term := raft_pb2.aq_prev_log_term q';
     ae_entries := map RaftServicer.entry_in (raft_pb2.aq_entries q');
     ae_leader_commit := raft_pb2.aq_leader_commit q' |} = q.
Proof.
  unfold RaftNetworkClient.append_out. intros Hq. apply rbind_Ok in Hq as (es & Hes%entries_out_in & Hq).
  repeat (apply rbind_Ok in Hq as (? & [-> _]%uint64_Ok & Hq)). injection Hq as <-. cbn. rewrite Hes. by destruct q.
Qed.

Lemma snapshot_out_in q q' : RaftNetworkClient.snapshot_out q = Ok q' →
  {| is_term := raft_pb2.iq_term q'; is_leader_id := raft_pb2.iq_leader_id q';
     is_last_included_index := raft_pb2.iq_last_included_index q';
     is_last_included_term := raft_pb2.iq_last_included_term q'; is_data := raft_pb2.iq_data q' |} = q.
Proof.
  unfold RaftNetworkClient.snapshot_out. intros Hq.
  repeat (apply rbind_Ok in Hq as (? & [-> _]%uint64_Ok & Hq)). injection Hq as <-. by destruct q.
Qed.

(** The servicer of a node listens at an address. *)
Record raft_listens (address : string) (s : RaftServicer.t N) : Prop := {
  rl_vote q w : handle RequestVote address q w = RaftServicer.RequestVote s q w;
  rl_append q w : handle AppendEntries address q w = RaftServicer.AppendEntries s q w;
  rl_snapshot q w : handle InstallSnapshot address q w = RaftServicer.InstallSnapshot s q w
}.

(** What a call over the wire is worth: the peer's handler on this very request, with its
    very answer; or no answer, after the handler ran on this very request or not at all. *)
Definition carries {Q A} (over : Q → M W (option A)) (handler : Q → M W A) : Prop :=
  ∀ q w w',
    (∀ a, over q w = (w', Ok (Some a)) → handler q w = (w', Ok a)) ∧
    (over q w = (w', Ok None) → w' = w ∨ ∃ x, handler q w = (w', x)).

Lemma carries_intro {Q R Q' A} (m : rpc Q R) c peer ch address
    (out : Q' → result Q) (answer : R → A) (handler : Q' → M W A) :
  RaftNetworkClient._channels c !! peer = Some ch → address = channel_to ch →
  (∀ q q' w w' x, out q = Ok q' → handle m address q' w = (w', x) →
     ∃ y, handler q w = (w', y) ∧ ∀ r, x = Ok r → y = Ok (answer r)) →
  carries (λ q, RaftNetworkClient.rpc_to c peer m (out q) answer) handler.
Proof.
  intros Hch -> Hh q w w'. split.
  - intros a Hr. eapply rpc_to_some in Hr as (q' & r' & Hq & Hr & ->); [|done].
    destruct (Hh _ _ _ _ _ Hq Hr) as (y & Hy & Hya). by rewrite Hy, (Hya r').
  - intros Hr. eapply rpc_to_none in Hr as [-> | (q' & r' & Hq & Hr)]; [by left| |done]. right.
    destruct (Hh _ _ _ _ _ Hq Hr) as (y & Hy & _). eauto.
Qed.

(** Raft over the wire is Raft between nodes.  A vote, a batch of entries or a snapshot that
    a node sends to a peer reaches the peer's handler exactly as it was sent - every entry
    with its term, index and command - and the answer that comes back is exactly the
    handler's; a message or an answer may also be lost. *)
Theorem raft_messages_cross_unchanged c peer ch (s : RaftServicer.t N) :
  RaftNetworkClient._channels c !! peer = Some ch → raft_listens (channel_to ch) s →
  carries (RaftNetworkClient.request_vote c peer) (rp_request_vote (RaftServicer._node s)) ∧
  carries (RaftNetworkClient.append_entries c peer) (rp_append_entries (RaftServicer._node s)) ∧
  carries (RaftNetworkClient.install_snapshot c peer) (rp_install_snapshot (RaftServicer._node s)).
Proof.
  intros Hch Hl. split_and!.
  - apply (carries_intro _ _ _ _ _ _ _ _ Hch eq_refl). intros q q' w w' x Hq Hh.
    rewrite (rl_vote _ _ Hl) in Hh. unfold RaftServicer.RequestVote, bind, RaftServicer.lift, reads, ret in Hh.
    rewrite (vote_out_in _ _ Hq) in Hh. destruct (rp_request_vote _ q w) as [w1 [[tm gr]|e]] eqn:Hr.
    + cbn in Hh. destruct (uint64 tm) as [tm'|] eqn:Ht; injection Hh as <- <-; eexists; (split; [done|]); [|done].
      apply uint64_Ok in Ht as [-> _]. by intros r [= <-].
    + injection Hh as <- <-. by eexists.
  - apply (carries_intro _ _ _ _ _ _ _ _ Hch eq_refl). intros q q' w w' x Hq Hh.
    rewrite (rl_append _ _ Hl) in Hh. unfold RaftServicer.AppendEntries, bind, RaftServicer.lift, reads, ret in Hh.
    rewrite (append_out_in _ _ Hq) in Hh. destruct (rp_append_entries _ q w) as [w1 [[tm ok mi]|e]] eqn:Hr.
    + cbn in Hh. destruct (uint64 tm) as [tm'|] eqn:Ht; [|injection Hh as <- <-; by eexists].
      destruct (uint64 mi) as [mi'|] eqn:Hmi; injection Hh as <- <-; eexists; (split; [done|]); [|done].
      apply uint64_Ok in Ht as [-> _]. apply uint64_Ok in Hmi as [-> _]. by intros r [= <-].
    + injection Hh as <- <-. by eexists.
  - apply (carries_intro _ _ _ _ _ _ _ _ Hch eq_refl). intros q q' w w' x Hq Hh.
    rewrite (rl_snapshot _ _ Hl) in Hh. unfold RaftServicer.InstallSnapshot, bind, RaftServicer.lift, reads, ret in Hh.
    rewrite (snapshot_out_in _ _ Hq) in Hh. destruct (rp_install_snapshot _ q w) as [w1 [[tm ok]|e]] eqn:Hr.
    + cbn in Hh. destruct (uint64 tm) as [tm'|] eqn:Ht; injection Hh as <- <-; eexists; (split; [done|]); [|done].
      apply uint64_Ok in Ht as [-> _]. by intros r [= <-].
    + injection Hh as <- <-. by eexists.
Qed.
End facts.

(** The handlers of a [MemoryRaftNode]. *)
Definition raft_peer {S R} `{!RaftNode.StateMachine S} `{!RaftStorage R} `{!Msgpack}
    : RaftPeer (MemoryRaftNode.t S R) unit := {|
  rp_request_vote _ := MemoryRaftNode.request_vote;
  rp_append_entries _ := MemoryRaftNode.append_entries;
  rp_install_snapshot _ := MemoryRaftNode.install_snapshot
|}.
