(* ===== verification/Launcher.v ===== *)
(** How a node is told what it is: the ports, the peers and the configuration of
    [launcher.py].

    A node derives every address of its cluster from the base addresses on its command line;
    [ShardServer] derives the ones it binds by arithmetic of its own. *)

From Stdlib Require Import ZArith Lia Ascii.
From S2P Require Import Prelude Bytes PyVal PyOps Engine Mvcc StateMachine Dict Router RaftStorage RaftNode ShardServer.

Definition DEFAULT_HOST : string := "127.0.0.1".
Definition DEFAULT_NUM_SHARDS : Z := 2.
Definition DEFAULT_GROUP_SIZE : Z := 3.
Definition METADATA_GROUP : Z := 0.
Definition TSO_GROUP : Z := 1.

(** ** Ports *)

Definition group_port (base_port group : Z) : Z := base_port + SHARD_SEGMENT + group.
Definition block_width : Z := SHARD_SEGMENT + 2.

Module NodePorts.
Record t := { base : Z }.
Definition shard (p : t) (shard_id : Z) : Z := base p + shard_id.
Definition group (p : t) (group : Z) : Z := group_port (base p) group.
Definition metadata (p : t) : Z := group p METADATA_GROUP.
Definition tso (p : t) : Z := group p TSO_GROUP.
Definition width (p : t) : Z := block_width.
Definition highest (p : t) : Z := group p TSO_GROUP.
End NodePorts.
Definition ports_for (base_port : Z) : NodePorts.t := {| NodePorts.base := base_port |}.

Definition _address (host : string) (port : Z) : string :=
  String.append host (String.append ":" (str_of_Z port)).

(** ** Text *)

(** [s.split(c, 1)] in two parts: before the first [c] and after it. *)
Fixpoint cut_first (c : ascii) (s : string) : option (string * string) :=
  match s with
  | EmptyString => None
  | String x s => if decide (x = c) then Some (EmptyString, s)
                  else match cut_first c s with
                       | Some (a, b) => Some (String x a, b)
                       | None => None
                       end
  end.

(** [s.rsplit(c, 1)]: before the last [c] and after it. *)
Fixpoint cut_last (c : ascii) (s : string) : option (string * string) :=
  match s with
  | EmptyString => None
  | String x s => match cut_last c s with
                  | Some (a, b) => Some (String x a, b)
                  | None => if decide (x = c) then Some (EmptyString, s) else None
                  end
  end.

(** [s.split(c)]. *)
Fixpoint split_on (c : ascii) (s : string) : list string :=
  match s with
  | EmptyString => [EmptyString]
  | String x s =>
      match split_on c s with
      | [] => [String x EmptyString]
      | part :: parts => if decide (x = c) then EmptyString :: part :: parts
                         else String x part :: parts
      end
  end.

(** [s.strip()]; white space is that of ASCII. *)
Definition strip_text (s : string) : string :=
  String.string_of_list_ascii (map (λ z, ascii_of_nat (Z.to_nat z)) (strip (chars s))).

(** ** Peers *)

Module Peer.
Record t := { node_id : Z; host : string; port : Z }.
Definition address (p : t) : string := _address (host p) (port p).
Definition text (p : t) : string := String.append (str_of_Z (node_id p)) (String.append "@" (address p)).

(** Every [ValueError] inside is raised again as one. *)
Definition parse (text : string) : result t :=
  match cut_first "@" text with
  | None => Raise ValueError
  | Some (node_id, rest) =>
      match cut_last ":" rest with
      | None => Raise ValueError
      | Some (host, port) =>
          let? i := py_int (PStr node_id) in
          let? p := py_int (PStr port) in
          Ok {| node_id := i; host := host; port := p |}
      end
  end.
End Peer.

Definition parse_peers (text : string) : result (list Peer.t) :=
  traverse Peer.parse
    (filter (λ part, part ≠ EmptyString) (map strip_text (split_on "," text))).

(** ** The configuration *)

Module ClusterConfig.
Record t := {
  node_id : Z;
  port : Z;
  host : string;
  peers : list Peer.t;
  data_dir : option string;
  num_shards : Z;
  metadata_group_size : Z;
  tso_group_size : Z;
  bootstrap : bool;
  watch_stdin : bool
}.

Definition address (c : t) : string := _address (host c) (port c).

Definition node_ids (c : t) : list Z := merge_sort Z.le (node_id c :: map Peer.node_id (peers c)).

Definition base_addresses (c : t) : gmap Z string :=
  foldl (λ m p, <[Peer.node_id p := Peer.address p]> m) {[node_id c := address c]} (peers c).

Definition _base_of (c : t) (n : option Z) : result (string * Z) :=
  match base_addresses c !! default (node_id c) n with
  | None => Raise KeyError
  | Some a =>
      match cut_last ":" a with
      | None => Raise ValueError
      | Some (host, port) => let? p := py_int (PStr port) in Ok (host, p)
      end
  end.

Definition shard_address (c : t) (shard_id : Z) (n : option Z) : result string :=
  let? (host, base) := _base_of c n in
  Ok (_address host (NodePorts.shard (ports_for base) shard_id)).
Definition _group_address (c : t) (group : Z) (n : option Z) : result string :=
  let? (host, base) := _base_of c n in
  Ok (_address host (NodePorts.group (ports_for base) group)).
Definition metadata_address (c : t) (n : option Z) : result string := _group_address c METADATA_GROUP n.
Definition tso_address (c : t) (n : option Z) : result string := _group_address c TSO_GROUP n.

Definition voters (c : t) (group_size : Z) : list Z :=
  take (Z.to_nat (Z.max 1 group_size)) (node_ids c).

Definition validate (c : t) : result unit :=
  if node_id c <? 1 then Raise ValueError
  else if num_shards c <? 1 then Raise ValueError
  else if (metadata_group_size c <? 1) || (tso_group_size c <? 1) then Raise ValueError
  else
  let ids := map Peer.node_id (peers c) in
  if negb (bool_decide (length (remove_dups ids) = length ids)) || bool_decide (node_id c ∈ ids)
  then Raise ValueError
  else
  let every := node_ids c in
  if decide (every ≠ seqZ 1 (Z.of_nat (length every))) then Raise ValueError
  else
  let ports := ports_for (port c) in
  if (port c <? 1) || (NodePorts.highest ports >? 65535) then Raise ValueError
  else if num_shards c >? SHARD_SEGMENT then Raise ValueError
  else Ok tt.
End ClusterConfig.
