(* ===== verification/LauncherFacts.v ===== *)
(** Facts about [Launcher]: peers are read back, the ports of a node are distinct and are
    ports, the addresses one node derives are those another one binds, and all nodes work
    out one membership for a group. *)

From Stdlib Require Import ZArith Lia Ascii.
From S2P Require Import Prelude Bytes PyVal PyOps PyText Engine Mvcc StateMachine Dict Router RaftStorage RaftNode ShardServer Launcher.

(** ** Text *)

Abbreviation letters s := (String.list_ascii_of_string s).

Lemma append_cons x a b : String.append (String x a) b = String x (String.append a b).
Proof. done. Qed.
Lemma append_nil b : String.append EmptyString b = b.
Proof. done. Qed.

Lemma letters_append a b : letters (String.append a b) = letters a ++ letters b.
Proof.
  induction a as [|x a IH]; [done|]. change (x :: letters (String.append a b) = x :: letters a ++ letters b).
  by rewrite IH.
Qed.

Lemma cut_first_append c a b : c ∉ letters a → cut_first c (String.append a (String c b)) = Some (a, b).
Proof.
  induction a as [|x a IH]; rewrite ?append_cons, ?append_nil; cbn [cut_first cut_last String.list_ascii_of_string]; intros Hc; [by rewrite decide_True|].
  apply not_elem_of_cons in Hc as [Hne Hc]. rewrite decide_False by done. by rewrite IH.
Qed.

Lemma cut_last_none c b : c ∉ letters b → cut_last c b = None.
Proof.
  induction b as [|x b IH]; rewrite ?append_cons, ?append_nil; cbn [cut_first cut_last String.list_ascii_of_string]; [done|]. intros [Hne Hc]%not_elem_of_cons.
  rewrite IH by done. by rewrite decide_False.
Qed.

Lemma cut_last_append c a b : c ∉ letters b → cut_last c (String.append a (String c b)) = Some (a, b).
Proof.
  intros Hc. induction a as [|x a IH]; rewrite ?append_cons, ?append_nil; cbn [cut_first cut_last String.list_ascii_of_string]; [|by rewrite IH].
  rewrite cut_last_none by done. by rewrite decide_True.
Qed.

(** The letters of a printed number. *)
Lemma str_of_Z_letters z c : c ∈ letters (str_of_Z z) → Z.of_nat (nat_of_ascii c) = 45 ∨ 48 ≤ Z.of_nat (nat_of_ascii c) ≤ 57.
Proof.
  intros Hc. assert (Z.of_nat (nat_of_ascii c) ∈ chars (str_of_Z z)) as Hin.
  { unfold chars. apply list_elem_of_fmap. eauto. }
  destruct (str_of_Z_chars z) as (ds & _ & Hd & _ & Heq). rewrite Heq in Hin. clear Heq Hc.
  assert (∀ y, y ∈ map byteZ ds → 48 ≤ y ≤ 57) as Hdig.
  { intros y (x & -> & Hx)%list_elem_of_fmap. rewrite forallb_forall in Hd. apply digit_range, Hd, list_elem_of_In, Hx. }
  destruct (z <? 0); [|right; auto]. apply elem_of_cons in Hin as [->|?]; [by left|right; auto].
Qed.

Lemma str_of_Z_no z c : Z.of_nat (nat_of_ascii c) = 44 ∨ 57 < Z.of_nat (nat_of_ascii c) → c ∉ letters (str_of_Z z).
Proof. intros Hc Hin%str_of_Z_letters. lia. Qed.

Ltac letter := first [by left | right; by vm_compute].

Lemma address_cut host port : cut_last ":" (_address host port) = Some (host, str_of_Z port).
Proof.
  unfold _address. change (String.append ":" ?s) with (String ":" s).
  apply cut_last_append, str_of_Z_no. letter.
Qed.

(** ** Peers *)

Lemma peer_parse_text p : Peer.parse (Peer.text p) = Ok p.
Proof.
  unfold Peer.parse, Peer.text. change (String.append "@" ?s) with (String "@" s).
  rewrite cut_first_append by (apply str_of_Z_no; letter). unfold Peer.address. rewrite address_cut, !int_of_str.
  by destruct p.
Qed.

(** [",".join(...)]. *)
Fixpoint join (l : list string) : string :=
  match l with
  | [] => EmptyString
  | [s] => s
  | s :: l => String.append s (String "," (join l))
  end.

Lemma split_on_none c s : c ∉ letters s → split_on c s = [s].
Proof.
  induction s as [|x s IH]; rewrite ?append_cons, ?append_nil; cbn [split_on String.list_ascii_of_string]; [done|]. intros [Hne Hc]%not_elem_of_cons. rewrite IH by done.
  by rewrite decide_False.
Qed.

Lemma split_on_append c a b : c ∉ letters a → split_on c (String.append a (String c b)) = a :: split_on c b.
Proof.
  assert (split_on c b ≠ []) as Hb by (destruct b; cbn; repeat case_match; done).
  induction a as [|x a IH]; rewrite ?append_cons, ?append_nil; cbn [split_on String.list_ascii_of_string]; intros Hc.
  - destruct (split_on c b); [done|]. by rewrite decide_True.
  - apply not_elem_of_cons in Hc as [Hne Hc]. rewrite IH by done. by rewrite decide_False.
Qed.

Lemma split_join l : l ≠ [] → Forall (λ s, ","%char ∉ letters s) l → split_on "," (join l) = l.
Proof.
  intros Hne Hl. induction Hl as [|s l Hs Hl IH]; [done|]. destruct l as [|s' l]; [by apply split_on_none|].
  change (join (s :: s' :: l)) with (String.append s (String "," (join (s' :: l)))).
  rewrite split_on_append by done. by rewrite IH.
Qed.

Lemma strip_text_id s : unspaced (chars s) → unspaced (rev (chars s)) → strip_text s = s.
Proof.
  intros H1 H2. unfold strip_text. rewrite strip_unspaced by done. unfold chars. rewrite map_map.
  rewrite <-(String.string_of_list_ascii_of_string s) at 2. f_equal. rewrite <-(map_id (letters s)) at 2.
  apply map_ext. intros c. by rewrite Nat2Z.id, ascii_nat_embedding.
Qed.

Lemma chars_append a b : chars (String.append a b) = chars a ++ chars b.
Proof. unfold chars. by rewrite letters_append, map_app. Qed.

Lemma unspaced_app a b : a ≠ [] → unspaced a → unspaced (a ++ b).
Proof. by destruct a. Qed.

Lemma number_unspaced z : chars (str_of_Z z) ≠ [] ∧ unspaced (chars (str_of_Z z)) ∧ unspaced (rev (chars (str_of_Z z))).
Proof.
  destruct (str_of_Z_chars z) as (ds & Hne & Hd & _ & ->). destruct (digits_unspaced ds Hd) as [Hu Hr].
  destruct (z <? 0).
  - split_and!; [done|done|]. cbn [rev]. destruct (rev (map byteZ ds)) eqn:E; [done|exact Hr].
  - split_and!; [by destruct ds|done..].
Qed.

Lemma text_strip p : strip_text (Peer.text p) = Peer.text p ∧ Peer.text p ≠ EmptyString.
Proof.
  destruct (number_unspaced (Peer.node_id p)) as (Hn1 & Hn2 & _).
  destruct (number_unspaced (Peer.port p)) as (Hp1 & _ & Hp3). split.
  - apply strip_text_id; unfold Peer.text, Peer.address, _address; rewrite !chars_append.
    + by apply unspaced_app.
    + rewrite !rev_app_distr, <-!app_assoc. apply unspaced_app; [|done].
      intros Hr. apply (f_equal (@rev Z)) in Hr. by rewrite rev_involutive in Hr.
  - unfold Peer.text. intros He. apply (f_equal chars) in He. rewrite chars_append in He.
    by apply app_nil in He as [He _].
Qed.

Lemma text_commas p : ","%char ∉ letters (Peer.host p) → ","%char ∉ letters (Peer.text p).
Proof.
  intros Hh. unfold Peer.text, Peer.address, _address. rewrite !letters_append.
  rewrite !not_elem_of_app. split_and!; [apply str_of_Z_no; letter|set_solver|done|set_solver|apply str_of_Z_no; letter].
Qed.

(** The peers on a command line are read back: whatever hosts, ids and ports they have, if
    no host has a comma in it. *)
Theorem peers_are_read_back ps :
  Forall (λ p, ","%char ∉ letters (Peer.host p)) ps →
  parse_peers (join (map Peer.text ps)) = Ok ps.
Proof.
  intros Hc. destruct ps as [|p ps]; [done|]. unfold parse_peers. rewrite split_join; [|done|].
  2: { apply list.Forall_forall. intros s (q & -> & Hq)%list_elem_of_fmap. apply text_commas.
       rewrite list.Forall_forall in Hc. by apply Hc. }
  rewrite map_map. erewrite (map_ext _ Peer.text) by (intros; apply text_strip).
  assert (∀ l, filter (λ part, part ≠ EmptyString) (map Peer.text l) = map Peer.text l) as Hf.
  { intros l. induction l as [|q l IH]; [done|]. cbn [map]. rewrite filter_cons_True, IH by apply text_strip. done. }
  rewrite Hf, (traverse_map _ _ id) by (intros; apply peer_parse_text). by rewrite map_id.
Qed.

(** ** Ports *)

(** A configuration that [validate] lets through. *)
Record valid_config (c : ClusterConfig.t) : Prop := {
  vc_id : 1 ≤ ClusterConfig.node_id c;
  vc_shards : 1 ≤ ClusterConfig.num_shards c ≤ SHARD_SEGMENT;
  vc_groups : 1 ≤ ClusterConfig.metadata_group_size c ∧ 1 ≤ ClusterConfig.tso_group_size c;
  vc_peers : NoDup (ClusterConfig.node_id c :: map Peer.node_id (ClusterConfig.peers c));
  vc_every : ClusterConfig.node_ids c = seqZ 1 (1 + Z.of_nat (length (ClusterConfig.peers c)));
  vc_ports : 1 ≤ ClusterConfig.port c ∧ NodePorts.highest (ports_for (ClusterConfig.port c)) ≤ 65535
}.

Lemma node_ids_length c : length (ClusterConfig.node_ids c) = S (length (ClusterConfig.peers c)).
Proof. unfold ClusterConfig.node_ids. rewrite merge_sort_Permutation. cbn. by rewrite length_map. Qed.

Lemma remove_dups_le (l : list Z) : (length (remove_dups l) ≤ length l)%nat.
Proof. induction l as [|x l IH]; cbn; [lia|]. case_decide; cbn; lia. Qed.
Lemma remove_dups_nodup (l : list Z) : length (remove_dups l) = length l → NoDup l.
Proof.
  induction l as [|x l IH]; cbn; [constructor|]. case_decide as Hx; cbn; intros Hl.
  - pose proof (remove_dups_le l). lia.
  - constructor; [done|]. apply IH. lia.
Qed.

Lemma remove_dups_id (l : list Z) : NoDup l → remove_dups l = l.
Proof. induction 1 as [|x l Hx _ IH]; cbn; [done|]. case_decide; [done|]. by rewrite IH. Qed.

Lemma validate_valid c : ClusterConfig.validate c = Ok tt ↔ valid_config c.
Proof.
  unfold ClusterConfig.validate.
  destruct (Z.ltb_spec (ClusterConfig.node_id c) 1); [split; [done|intros []; lia]|].
  destruct (Z.ltb_spec (ClusterConfig.num_shards c) 1); [split; [done|intros []; lia]|].
  destruct (Z.ltb_spec (ClusterConfig.metadata_group_size c) 1); [split; [done|intros []; lia]|].
  destruct (Z.ltb_spec (ClusterConfig.tso_group_size c) 1); [split; [done|intros []; lia]|]. cbn [orb].
  destruct (decide (NoDup (ClusterConfig.node_id c :: map Peer.node_id (ClusterConfig.peers c)))) as [Hnd|Hnd].
  2: { split; [|by intros []]. intros Hv. destruct Hnd. constructor.
       - destruct (bool_decide_reflect (ClusterConfig.node_id c ∈ map Peer.node_id (ClusterConfig.peers c))); [|done].
         by rewrite orb_true_r in Hv.
       - apply remove_dups_nodup. destruct (bool_decide_reflect (length (remove_dups
           (map Peer.node_id (ClusterConfig.peers c))) = length (map Peer.node_id (ClusterConfig.peers c)))); done. }
  pose proof Hnd as [Hnin Hnd']%NoDup_cons. rewrite bool_decide_eq_true_2 by (by rewrite remove_dups_id).
  rewrite bool_decide_eq_false_2 by done. cbn [negb orb].
  case_decide as He; [split; [done|intros [_ _ _ _ He' _]]|].
  { destruct He. rewrite He' at 1. rewrite node_ids_length. f_equal. lia. }
  rewrite node_ids_length in He.
  destruct (Z.ltb_spec (ClusterConfig.port c) 1); [split; [done|intros []; lia]|].
  destruct (Z.gtb_spec (NodePorts.highest (ports_for (ClusterConfig.port c))) 65535); cbn [orb]; [split; [done|intros []; lia]|].
  destruct (Z.gtb_spec (ClusterConfig.num_shards c) SHARD_SEGMENT); [split; [done|intros []; lia]|].
  split; [|done]. intros _. split; [done|lia|done|done| |done]. rewrite He. f_equal. lia.
Qed.

(** C37: The configurations that are let through are the well-formed ones.  [validate] accepts a
    configuration exactly when the node's id is positive, it has at least one shard and no
    more than the segment has room for, both groups have a member, no two nodes share an id,
    the ids are 1 to the number of nodes, and the ports of the block exist; every other
    configuration is refused with a [ValueError] and nothing else. *)
Theorem configs_are_checked c :
  (ClusterConfig.validate c = Ok tt ↔ valid_config c) ∧
  (¬ valid_config c → ClusterConfig.validate c = Raise ValueError).
Proof.
  split; [apply validate_valid|]. rewrite <-validate_valid. unfold ClusterConfig.validate.
  repeat case_match; try done; by intros [].
Qed.

(** Every port a node binds at its start. *)
Definition node_ports (c : ClusterConfig.t) : list Z :=
  map (NodePorts.shard (ports_for (ClusterConfig.port c))) (seqZ 0 (ClusterConfig.num_shards c))
  ++ [NodePorts.metadata (ports_for (ClusterConfig.port c)); NodePorts.tso (ports_for (ClusterConfig.port c))].

(** The ports of a block: those of the shard segment and the two groups'. *)
Definition in_block (base p : Z) : Prop := base ≤ p < base + block_width.

Lemma block_ports base p :
  in_block base p ↔ (∃ i, 0 ≤ i < SHARD_SEGMENT ∧ p = NodePorts.shard (ports_for base) i) ∨
                    p = NodePorts.metadata (ports_for base) ∨ p = NodePorts.tso (ports_for base).
Proof.
  unfold in_block, block_width, NodePorts.shard, NodePorts.metadata, NodePorts.tso, NodePorts.group, group_port,
    ports_for, METADATA_GROUP, TSO_GROUP, SHARD_SEGMENT. cbn. split.
  - intros Hp. destruct (Z.lt_ge_cases (p - base) 1000); [left; exists (p - base); lia|lia].
  - intros [(i & Hi & ->) | [-> | ->]]; lia.
Qed.

(** C36: The ports of a configuration that [validate] accepts.  What the node binds at its start
    are distinct ports, every one of them between 1 and 65535; every shard the segment has
    room for, also one that a split makes later, is at a port of its own that is neither
    group's; and a node whose base port is at least [block_width] away shares no port of its
    block. *)
Theorem valid_ports c :
  ClusterConfig.validate c = Ok tt →
  NoDup (node_ports c) ∧ Forall (λ p, 1 ≤ p ≤ 65535 ∧ in_block (ClusterConfig.port c) p) (node_ports c) ∧
  (∀ i, 0 ≤ i < SHARD_SEGMENT →
     let p := NodePorts.shard (ports_for (ClusterConfig.port c)) i in
     1 ≤ p ≤ 65535 ∧ p ≠ NodePorts.metadata (ports_for (ClusterConfig.port c)) ∧
     p ≠ NodePorts.tso (ports_for (ClusterConfig.port c)) ∧
     ∀ j, NodePorts.shard (ports_for (ClusterConfig.port c)) j = p → j = i) ∧
  (∀ base p, NodePorts.width (ports_for base) ≤ Z.abs (base - ClusterConfig.port c) →
     in_block base p → ¬ in_block (ClusterConfig.port c) p).
Proof.
  intros [Hid Hsh _ _ _ [Hp1 Hp2]]%validate_valid. revert Hp2.
  unfold node_ports, in_block, NodePorts.highest, NodePorts.width, NodePorts.shard, NodePorts.metadata, NodePorts.tso,
    NodePorts.group, group_port, ports_for, block_width, METADATA_GROUP, TSO_GROUP, SHARD_SEGMENT in *.
  cbn [NodePorts.base]. set (b := ClusterConfig.port c) in *. intros Hp2. split_and!.
  - apply NoDup_app. split_and!.
    + apply NoDup_fmap_2; [|apply NoDup_seqZ]. intros x y ?. lia.
    + intros p (i & -> & Hi%elem_of_seqZ)%list_elem_of_fmap Hp. set_unfold in Hp. lia.
    + repeat constructor; set_unfold; lia.
  - apply Forall_app. split; [|repeat constructor; lia].
    apply list.Forall_forall. intros p (i & -> & Hi%elem_of_seqZ)%list_elem_of_fmap. lia.
  - intros i Hi. cbn. split_and!; lia.
  - intros base p Hw Hb Hc. lia.
Qed.

(** ** Addresses *)

(** Where a node of the cluster is, from its entry on the command line. *)
Definition placed (c : ClusterConfig.t) (n : Z) (host : string) (port : Z) : Prop :=
  n = ClusterConfig.node_id c ∧ host = ClusterConfig.host c ∧ port = ClusterConfig.port c ∨
  ∃ p, p ∈ ClusterConfig.peers c ∧ n = Peer.node_id p ∧ host = Peer.host p ∧ port = Peer.port p.

Lemma base_lookup c n host port :
  NoDup (ClusterConfig.node_id c :: map Peer.node_id (ClusterConfig.peers c)) → placed c n host port →
  ClusterConfig.base_addresses c !! n = Some (_address host port).
Proof.
  intros [Hnin Hnd]%NoDup_cons Hp. unfold ClusterConfig.base_addresses.
  assert (∀ ps (m : gmap Z string), n ∉ map Peer.node_id ps →
    foldl (λ m p, <[Peer.node_id p := Peer.address p]> m) m ps !! n = m !! n) as Hskip.
  { intros ps. induction ps as [|q ps IH]; intros m Hn; cbn; [done|]. cbn in Hn.
    apply not_elem_of_cons in Hn as [? ?]. rewrite IH by done. by rewrite lookup_insert_ne. }
  destruct Hp as [(-> & -> & ->)|(p & Hp & -> & -> & ->)].
  - rewrite Hskip by done. apply lookup_singleton_eq.
  - apply list_elem_of_split in Hp as (l1 & l2 & Heq). rewrite Heq, foldl_app. cbn. rewrite Heq, map_app in Hnd.
    cbn in Hnd. apply NoDup_app in Hnd as (_ & _ & [Hn2 _]%NoDup_cons). rewrite Hskip by done. by rewrite lookup_insert_eq.
Qed.

Lemma base_of_placed c n host port :
  NoDup (ClusterConfig.node_id c :: map Peer.node_id (ClusterConfig.peers c)) → placed c n host port →
  ClusterConfig._base_of c (Some n) = Ok (host, port).
Proof.
  intros Hnd Hp. unfold ClusterConfig._base_of.
  change (default (ClusterConfig.node_id c) (Some n)) with n. rewrite (base_lookup _ _ _ _ Hnd Hp), address_cut, int_of_str.
  done.
Qed.

Lemma split_colon_on s : split_colon s = split_on ":" s.
Proof.
  induction s as [|x s IH]; [done|]. cbn [split_colon split_on]. rewrite IH.
  destruct (split_on ":" s); [done|]. destruct (Nat.eqb_spec (nat_of_ascii x) 58) as [He|He].
  - rewrite decide_True; [done|]. rewrite <-(ascii_nat_embedding x), He. done.
  - rewrite decide_False; [done|]. by intros ->.
Qed.

Lemma split_address host port : ":"%char ∉ letters host → split_colon (_address host port) = [host; str_of_Z port].
Proof.
  intros Hh. rewrite split_colon_on. unfold _address. change (String.append ":" ?s) with (String ":" s).
  rewrite split_on_append by done. rewrite split_on_none; [done|]. apply str_of_Z_no. letter.
Qed.

(** One address for one port.  Two nodes of a cluster, with configurations that [validate]
    accepts and that place some node at one host and port: the address the first derives for
    that node's replica of a shard is the address that [ShardServer] on the node itself
    derives from its base address, and listens at - whatever the shard, a colon in the host
    apart. *)
Theorem derived_address_is_the_bound_one c1 c2 s n host port i :
  ClusterConfig.validate c1 = Ok tt → ClusterConfig.validate c2 = Ok tt →
  placed c1 n host port → placed c2 n host port → ":"%char ∉ letters host →
  ShardServer._base_address s = ClusterConfig.base_addresses c2 !! n →
  ClusterConfig.shard_address c1 i (Some n) = Ok (_address host (port + i)) ∧
  ShardServer._shard_address_for i s = Ok (Some (_address host (port + i))) ∧
  (∀ base, ClusterConfig.base_addresses c1 !! n = Some base →
     ShardServer._peer_address base i = Ok (_address host (port + i))).
Proof.
  intros [_ _ _ Hnd1 _ _]%validate_valid [_ _ _ Hnd2 _ _]%validate_valid Hp1 Hp2 Hh Hs. split_and!.
  - unfold ClusterConfig.shard_address. by rewrite (base_of_placed _ _ _ _ Hnd1 Hp1).
  - unfold ShardServer._shard_address_for, ShardServer._get_shard_port.
    rewrite Hs, (base_lookup _ _ _ _ Hnd2 Hp2). unfold ShardServer.host_of, ShardServer._shard_port_of.
    rewrite split_address by done. rewrite int_of_str. done.
  - intros base Hb. rewrite (base_lookup _ _ _ _ Hnd1 Hp1) in Hb. injection Hb as <-.
    unfold ShardServer._peer_address, ShardServer.host_of, ShardServer._shard_port_of.
    rewrite split_address by done. rewrite int_of_str. done.
Qed.

Lemma split_two c x y : ∃ p q more, split_on c (String.append x (String c y)) = p :: q :: more.
Proof.
  induction x as [|z x (p & q & more & IH)].
  - rewrite append_nil. cbn [split_on]. destruct (split_on c y) eqn:E; [by destruct y; cbn in E; repeat case_match|].
    rewrite decide_True by done. eauto.
  - rewrite append_cons. cbn [split_on]. rewrite IH. case_decide; eauto.
Qed.

Lemma append_assoc a b d : String.append a (String.append b d) = String.append (String.append a b) d.
Proof. induction a as [|x a IH]; [done|]. by rewrite !append_cons, IH. Qed.

(** A host with a colon in it, such as an IPv6 address, passes [validate], and every address
    the configuration derives from it is well formed; the shard server takes such an address
    apart at every colon and raises, so the node does not come up. *)
Theorem colon_host_never_binds a rest port i :
  ":"%char ∉ letters a → 1 ≤ port ≤ 64000 →
  let host := String.append a (String ":" rest) in
  let c := {| ClusterConfig.node_id := 1; ClusterConfig.port := port; ClusterConfig.host := host;
              ClusterConfig.peers := []; ClusterConfig.data_dir := None; ClusterConfig.num_shards := 1;
              ClusterConfig.metadata_group_size := 1; ClusterConfig.tso_group_size := 1;
              ClusterConfig.bootstrap := true; ClusterConfig.watch_stdin := true |} in
  ClusterConfig.validate c = Ok tt ∧
  ClusterConfig.shard_address c i None = Ok (_address host (port + i)) ∧
  ShardServer._peer_address (ClusterConfig.address c) i = Raise ValueError.
Proof.
  intros Ha Hport host c. assert (valid_config c) as Hv.
  { split; cbn; [done|split; done|done|repeat constructor; set_solver|done|].
    unfold NodePorts.highest, NodePorts.group, group_port, ports_for, TSO_GROUP, SHARD_SEGMENT. cbn. lia. }
  split_and!; [by apply validate_valid| |].
  - unfold ClusterConfig.shard_address. change (ClusterConfig._base_of c None) with (ClusterConfig._base_of c (Some 1)).
    rewrite (base_of_placed c 1 host port); [done|apply Hv|by left].
  - unfold ShardServer._peer_address, ShardServer.host_of. rewrite split_colon_on.
    unfold ClusterConfig.address, _address. cbn [ClusterConfig.host c ClusterConfig.port].
    change (String.append ":" ?s) with (String ":" s). unfold host. rewrite <-append_assoc, append_cons.
    rewrite split_on_append by done. destruct (split_two ":" rest (str_of_Z port)) as (p & q & more & ->). done.
Qed.

(** ** Members of the groups *)

(** One membership.  The nodes of a cluster each work the members of a group out of their
    own command lines.  With as many peers and the same group size they all come to the same
    members: the first nodes, at least one, at most the size asked for and all of them if
    there are fewer. *)
Theorem voters_agree c1 c2 size :
  ClusterConfig.validate c1 = Ok tt → ClusterConfig.validate c2 = Ok tt →
  length (ClusterConfig.peers c1) = length (ClusterConfig.peers c2) → 1 ≤ size →
  ClusterConfig.voters c1 size = ClusterConfig.voters c2 size ∧
  ClusterConfig.voters c1 size = seqZ 1 (Z.min size (1 + Z.of_nat (length (ClusterConfig.peers c1)))).
Proof.
  intros [_ _ _ _ He1 _]%validate_valid [_ _ _ _ He2 _]%validate_valid Hl Hs.
  unfold ClusterConfig.voters. rewrite He1, He2, Hl. split; [done|].
  unfold seqZ. rewrite <-fmap_take, take_seq. do 2 f_equal. lia.
Qed.
