(* ===== verification/NodeView.v ===== *)
(** One node in a process of its own: [NodeClusterView] of [launcher.py], the other side of
    the recovery.

    It has the shape of the cluster object ([ShardedCluster.v]) and one server of its own: who
    serves a shard is read off the group this node holds and off the routing table, the
    address of a peer is worked out from the configuration, and what leads a shard is found by
    asking the members through clients. *)

From Stdlib Require Import ZArith Lia.
From S2P Require Import Prelude Bytes PyVal PyOps Engine Mvcc StateMachine Dict Router Metadata MetadataClient RaftStorage RaftNode Routing RoutingCache Publisher RecoveryNotes Recovery ShardServer ShardedCluster Wire ClientServicer Launcher.
Import RecoveryState.

(** [RemoteNodeClientFactory(metadata_seeds=...)] and [close()] of the one that was built. *)
Class ClientsHere (W : Type) := {
  ch_build : list string → M W unit;
  ch_close : M W unit
}.

(** [seeds.remove(own)], of the first one. *)
Fixpoint remove_first (own : string) (seeds : list string) : list string :=
  match seeds with
  | [] => []
  | s :: seeds => if decide (s = own) then seeds else s :: remove_first own seeds
  end.

Module NodeClusterView.

Record t := {
  _config : ClusterConfig.t;
  _range_map : RangeMap;
  _shard_servers : list (Z * ShardServer.t);
  (** Whether the factory was built. *)
  _node_clients : bool
}.
Definition init (config : ClusterConfig.t) (range_map : RangeMap) : t :=
  {| _config := config; _range_map := range_map; _shard_servers := []; _node_clients := false |}.

Definition set_servers (d : list (Z * ShardServer.t)) (v : t) : t :=
  {| _config := _config v; _range_map := _range_map v; _shard_servers := d; _node_clients := _node_clients v |}.
Definition set_clients (b : bool) (v : t) : t :=
  {| _config := _config v; _range_map := _range_map v; _shard_servers := _shard_servers v; _node_clients := b |}.
Definition set_ranges (m : RangeMap) (v : t) : t :=
  {| _config := _config v; _range_map := m; _shard_servers := _shard_servers v; _node_clients := _node_clients v |}.

(** [self._config.node_id]. *)
Definition own (v : t) : Z := ClusterConfig.node_id (_config v).
Definition serve (server : ShardServer.t) (v : t) : t := set_servers (d_set (_shard_servers v) (own v) server) v.
Definition get_shard_server (node_id : Z) (v : t) : option ShardServer.t := d_get (_shard_servers v) node_id.
Definition range_map (v : t) : RangeMap := _range_map v.
Definition shard_ids (v : t) : list Z := merge_sort Z.le (_range_map v).*1.
Definition node_ids (v : t) : list Z := ClusterConfig.node_ids (_config v).

(** [None if server is None else server.get_shard_node(shard_id)]. *)
Definition held (shard_id : Z) (v : t) : option nat :=
  match get_shard_server (own v) v with
  | None => None
  | Some server => ShardServer.get_shard_node shard_id server
  end.

Definition shard_replica_ids (shard_id : Z) (v : t) : list Z :=
  match get_shard_server (own v) v with
  | None => []
  | Some server =>
      match ShardServer.get_shard_node shard_id server with
      | None => []
      | Some _ => ShardServer.shard_replica_ids shard_id server
      end
  end.

Fixpoint peer_addresses (config : ClusterConfig.t) (shard_id : Z) (nodes : list Z) (addresses : gmap Z string)
    : result (gmap Z string) :=
  match nodes with
  | [] => Ok addresses
  | n :: nodes =>
      if decide (n ≠ ClusterConfig.node_id config) then
        let? a := ClusterConfig.shard_address config shard_id (Some n) in
        peer_addresses config shard_id nodes (<[n := a]> addresses)
      else peer_addresses config shard_id nodes addresses
  end.
Definition shard_addresses (shard_id : Z) (v : t) : result (gmap Z string) :=
  match shard_replica_ids shard_id v with
  | [] => Ok ∅
  | nodes =>
      let? a := ClusterConfig.shard_address (_config v) shard_id None in
      peer_addresses (_config v) shard_id nodes {[own v := a]}
  end.

Definition _address_of (shard_id node_id : Z) (v : t) : result (option string) :=
  match ClusterConfig.base_addresses (_config v) !! node_id with
  | None => Ok None
  | Some _ => let? a := ClusterConfig.shard_address (_config v) shard_id (Some node_id) in Ok (Some a)
  end.
Fixpoint addresses_loop (shard_id : Z) (nodes : list Z) (v : t) (addresses : gmap Z string)
    : result (gmap Z string) :=
  match nodes with
  | [] => Ok addresses
  | n :: nodes =>
      let? a := _address_of shard_id n v in
      addresses_loop shard_id nodes v (match a with Some a => <[n := a]> addresses | None => addresses end)
  end.
Definition addresses_on (shard_id : Z) (nodes : list Z) (v : t) : result (gmap Z string) :=
  addresses_loop shard_id nodes v ∅.

Definition _metadata_seeds (v : t) : result (list string) :=
  let voters := ClusterConfig.voters (_config v) (ClusterConfig.metadata_group_size (_config v)) in
  let? seeds := traverse (λ n, ClusterConfig.metadata_address (_config v) (Some n)) voters in
  let? own := ClusterConfig.metadata_address (_config v) None in
  Ok (if decide (own ∈ seeds) then own :: remove_first own seeds else seeds).

(** The handles of the nodes named that are held here. *)
Definition _nodes_on (node_ids : list Z) (shard_id : Z) (v : t) : list nat :=
  if decide (own v ∈ node_ids) then option_list (held shard_id v) else [].

Section view.
Context {E W R C : Type} `{Engine E}.
Abbreviation machine := (MVCCStateMachine.t E * list Z)%type.
Context `{!ServerWorld W machine R} `{!RaftStorage R} `{!Msgpack} `{!RaftNode.StateMachine machine}.
Context `{!ClusterTable W} `{!ClientsHere W} `{!NodeClientFactory W C} `{!NodeClient W C}.
Abbreviation node := (MemoryRaftNode.t machine R).
Abbreviation heap := (list node * W)%type.
Abbreviation st := (t * heap)%type.

Definition read {A} (f : t → A) : M st A := λ s, (s, Ok (f s.1)).
Definition lift {A} (f : t → result A) : M st A := λ s, (s, f s.1).
Definition change (f : t → t) : M st unit := λ s, ((f s.1, s.2), Ok tt).
Definition below {A} (m : M heap A) : M st A := λ s, let '(h, a) := m s.2 in ((s.1, h), a).
Definition world {A} (m : M W A) : M st A := below (outside m).

(** [_shard_server()], and a call of the server it answers with. *)
Definition _shard_server : M st ShardServer.t := λ s,
  match get_shard_server (own s.1) s.1 with Some v => (s, Ok v) | None => (s, Raise RuntimeError) end.
Definition on_server {A} (m : M (ShardServer.t * heap) A) : M st A := λ s,
  match get_shard_server (own s.1) s.1 with
  | None => (s, Raise RuntimeError)
  | Some v => let '((v', h), a) := m (v, s.2) in ((serve v' s.1, h), a)
  end.

(** *** The rest of the cluster *)

Definition _clients : M st unit :=
  let* built := read _node_clients in
  if (built : bool) then ret tt
  else
    let* seeds := lift _metadata_seeds in
    world (ch_build seeds);;;
    change (set_clients true).
Definition close_clients : M st unit :=
  let* built := read _node_clients in
  if (built : bool) then world ch_close;;; change (set_clients false) else ret tt.

Definition serving_nodes (shard_id : Z) : M st (option (list Z)) :=
  _clients;;;
  let* table := world ct_table in
  ret (option_map sp_nodes (shard table shard_id)).

(** A client that is out of reach is passed over; any other error is not caught. *)
Definition index_or_skip (client : C) : M W (option Z) := λ w,
  match nd_follower_read_index client true w with
  | (w', Raise NodeUnreachable) => (w', Ok None)
  | answer => answer
  end.
Fixpoint first_that_leads (shard_id : Z) (nodes : list Z) : M st (option C) :=
  match nodes with
  | [] => ret None
  | n :: nodes =>
      let* address := lift (_address_of shard_id n) in
      match address with
      | None => first_that_leads shard_id nodes
      | Some a =>
          let* client := world (nf_get_client shard_id n (Some a)) in
          match client with
          | None => first_that_leads shard_id nodes
          | Some client =>
              let* index := world (index_or_skip client) in
              match index with
              | Some _ => ret (Some client)
              | None => first_that_leads shard_id nodes
              end
          end
      end
  end.
Definition leader_client_for_nodes (shard_id : Z) (nodes : list Z) : M st (option C) :=
  _clients;;; first_that_leads shard_id nodes.
Definition leader_client (shard_id : Z) : M st (option C) :=
  let* nodes := serving_nodes shard_id in
  let* all := read node_ids in
  leader_client_for_nodes shard_id (default all nodes).

Definition shard_leader (shard_id : Z) : M st (option (Z * Z)) :=
  let* h := read (held shard_id) in
  match h with
  | None => ret None
  | Some h =>
      let* n := below (node_of h) in
      let* me := read own in
      ret (if decide (MemoryRaftNode._state n = LEADER) then Some (me, MemoryRaftNode._current_term n) else None)
  end.

(** *** The group held here *)

Fixpoint each_node {A} (m : M node A) (hs : list nat) : M st unit :=
  match hs with
  | [] => ret tt
  | h :: hs => below (on_node h m);;; each_node m hs
  end.
Definition freeze (shard_id : Z) (reason : string) (nodes : list Z) : M st unit :=
  let* hs := read (_nodes_on nodes shard_id) in
  each_node (MemoryRaftNode.freeze_writes reason) hs.
Definition unfreeze (shard_id : Z) (nodes : list Z) : M st unit :=
  let* hs := read (_nodes_on nodes shard_id) in each_node MemoryRaftNode.resume_writes hs.

Definition ensure_serving (shard_id : Z) (nodes : list Z) : M st (list Z) :=
  let* server := _shard_server in
  let* me := read own in
  let members := sorted_set nodes in
  let holds := bool_decide (is_Some (ShardServer.get_shard_node shard_id server)) in
  if decide (me ∉ members) then
    if negb holds then ret []
    else on_server (ShardServer.shutdown_shard shard_id);;; ret [me]
  else if holds && bool_decide (ShardServer.shard_replica_ids shard_id server = members) then ret []
  else
    (if holds then on_server (ShardServer.shutdown_shard shard_id);;; ret tt else ret tt);;;
    on_server (ShardServer.add_shard shard_id (Some members));;;
    ret (if holds then [me] else []).

Definition ensure_group_on (shard_id : Z) (nodes : list Z) : M st unit :=
  let members := sorted_set nodes in
  let* me := read own in
  if decide (me ∉ members) then ret tt
  else
    let* server := _shard_server in
    match ShardServer.get_shard_node shard_id server with
    | Some _ => ret tt
    | None => on_server (ShardServer.add_shard shard_id (Some members));;; ret tt
    end.

Definition close_group_on (shard_id : Z) (nodes : list Z) : M st (list Z) :=
  let* me := read own in
  if decide (me ∉ nodes) then ret []
  else
    let* server := _shard_server in
    match ShardServer.get_shard_node shard_id server with
    | None => ret []
    | Some _ =>
        let* closed := on_server (ShardServer.shutdown_shard shard_id) in
        ret (if (closed : bool) then [me] else [])
    end.

Definition apply_split_locally (shard_id : Z) (split_key : bytes) (new_shard_id : Z) : M st unit :=
  let* ranges := read _range_map in
  match d_get ranges shard_id with
  | None => raise KeyError
  | Some (start, end_) =>
      let new_range_map := d_set (d_set ranges shard_id (start, split_key)) new_shard_id (split_key, end_) in
      change (λ v,
        let v := set_ranges new_range_map v in
        match get_shard_server (own v) v with
        | Some server => serve (ShardServer.set_range_map new_range_map server) v
        | None => v
        end)
  end.
(** There is no placement to write. *)
Definition apply_move_locally (shard_id : Z) (nodes : list Z) : M st unit := ret tt.

(** *** Notes *)

(** The storage of the group held here, with its node. *)
Definition _storages_of (shard_id : Z) : M st (list (nat * R)) :=
  let* h := read (held shard_id) in
  match h with
  | None => ret []
  | Some h =>
      let* n := below (node_of h) in
      ret match MemoryRaftNode._storage n with Some r => [(h, r)] | None => [] end
  end.
(** The storages as a function that writes to them left them. *)
Fixpoint put_storages (hs : list nat) (rs : list R) : M st unit :=
  match hs, rs with
  | h :: hs, r :: rs =>
      below (on_node h (MemoryRaftNode.modify (MemoryRaftNode.with_storage (Some r))));;; put_storages hs rs
  | _, _ => ret tt
  end.
Definition write_storages (shard_id : Z) (f : list R → list R * result unit) : M st unit :=
  let* here := _storages_of shard_id in
  let '(rs, a) := f here.*2 in
  put_storages here.*1 rs;;; reads (λ _, a).

Definition pending_notes (shard_id : Z) : M st (list PendingNote) :=
  let* here := _storages_of shard_id in
  let* split := reads (λ _, read_note here.*2 shard_id SPLIT_RECORD_PREFIX) in
  let* move := reads (λ _, read_note here.*2 shard_id MIGRATION_RECORD_PREFIX) in
  ret (option_list split ++ option_list move).
Definition remember_note (note : PendingNote) : M st unit :=
  write_storages (pn_shard_id note) (λ rs, write_note rs note).
Definition forget_note (shard_id : Z) : M st unit :=
  write_storages shard_id (λ rs, RecoveryNotes.forget_note rs shard_id SPLIT_RECORD_PREFIX);;;
  write_storages shard_id (λ rs, RecoveryNotes.forget_note rs shard_id MIGRATION_RECORD_PREFIX).

(** *** The side of the recovery *)

#[global] Instance view : RecoveryView st C := {|
  rv_shard_ids _ := read shard_ids;
  rv_node_ids _ := read node_ids;
  rv_range_map _ := read range_map;
  rv_pending_notes i _ := pending_notes i;
  rv_remember_note n _ := remember_note n;
  rv_forget_note i _ := forget_note i;
  rv_serving_nodes i _ := serving_nodes i;
  rv_shard_replica_ids i _ := read (shard_replica_ids i);
  rv_addresses_on i ns _ := lift (addresses_on i ns);
  rv_leader_client i _ := leader_client i;
  rv_leader_client_for_nodes i ns _ := leader_client_for_nodes i ns;
  rv_freeze i reason ns _ := freeze i reason ns;
  rv_unfreeze i ns _ := unfreeze i ns;
  rv_ensure_serving i ns _ := ensure_serving i ns;
  rv_ensure_group_on i ns _ := ensure_group_on i ns;
  rv_close_group_on i ns _ := close_group_on i ns;
  rv_apply_split_locally i k j _ := apply_split_locally i k j;
  rv_apply_move_locally i ns _ := apply_move_locally i ns;
  rv_metadata_client _ := _clients;;; ret true;
  rv_split_shard i k j ns ad _ := world (ct_split_shard i k j ns ad);
  rv_move_shard i old ns ad _ := world (ct_move_shard i old ns ad) |}.

(** What the publisher is told of this node. *)
Context `{!RowCalls st C}.
Abbreviation both := (RecoveryState.t * st)%type.
Abbreviation call := RecoveryRunner.call.

Definition possible_ranges : M both (list RangeMap) := RecoveryRunner.possible_ranges (C := C).
Definition migrations : M both (list Z) := RecoveryRunner.mine (λ r, (map_to_list (_migrations r)).*1).

#[global] Instance placement : ShardCluster both := {|
  sc_range_map := call (read range_map);
  sc_shard_ids := call (read shard_ids);
  sc_shard_replica_ids i := call (read (shard_replica_ids i));
  sc_shard_addresses i := call (lift (shard_addresses i));
  sc_shard_leader i := call (shard_leader i);
  sc_possible_ranges := Some possible_ranges;
  sc_migrations := Some migrations |}.
End view.
End NodeClusterView.
