(* ===== verification/NodeViewFacts.v ===== *)
(** What one node promises the recovery that runs on it: it holds one group for a shard, with
    the members it is given, exactly when it is one of them; what it tells the table of a
    shard is what it would propose; and its two range maps are one. *)

From Stdlib Require Import ZArith Lia.
From S2P Require Import Prelude Bytes PyVal PyOps Engine Mvcc StateMachine Dict Router Metadata MetadataClient RaftStorage RaftNode Routing RoutingCache Publisher RecoveryNotes Recovery ShardServer ShardedCluster ShardedFacts Wire ClientServicer Launcher LauncherFacts NodeView.
Import RecoveryState NodeClusterView.

(** ** What a computation leaves as it was *)

(** Whatever [m] answers, [P] holds of the object after it when it held before. *)
Definition kept {T H A} (P : T → Prop) (m : M (T * H) A) : Prop := ∀ s, P s.1 → P (m s).1.1.

Section kept.
Context {T H : Type} (P : T → Prop).

Lemma kept_same {A} (m : M (T * H) A) : (∀ s, (m s).1.1 = s.1) → kept P m.
Proof. intros Hm s Hs. by rewrite Hm. Qed.
Lemma kept_bind {A B} (m : M (T * H) A) (k : A → M (T * H) B) :
  kept P m → (∀ a, kept P (k a)) → kept P (bind m k).
Proof.
  intros Hm Hk s Hs. unfold bind. specialize (Hm s Hs). destruct (m s) as [s' [a|e]]; cbn in *; [|done].
  by apply Hk.
Qed.
Lemma kept_ret {A} (a : A) : kept P (ret (S := T * H) a).
Proof. by apply kept_same. Qed.
Lemma kept_raise {A} e : kept P (raise (S := T * H) (A := A) e).
Proof. by apply kept_same. Qed.
Lemma kept_reads {A} f : kept P (reads (S := T * H) (A := A) f).
Proof. by apply kept_same. Qed.
End kept.
#[export] Hint Resolve kept_ret kept_raise kept_reads : kept.

(** Follows the text of a computation down to its calls. *)
Ltac keep :=
  lazymatch goal with
  | |- kept _ (bind _ _) => apply kept_bind; [keep | intros; keep]
  | |- kept _ (if ?b then _ else _) => destruct b; keep
  | |- kept _ (match ?x with _ => _ end) => destruct x; keep
  | |- _ => first [solve [auto with kept] | idtac]
  end.

Section servers.
Context {W S R : Type} `{ServerWorld W S R} `{!RaftNode.StateMachine S} `{!RaftStorage R} `{!Msgpack}.
Abbreviation server_state := (ShardServer.t * (list (MemoryRaftNode.t S R) * W))%type.

(** What building and closing groups does not change of a server. *)
Definition plan (v : ShardServer.t) : Z * RangeMap := (ShardServer._node_id v, ShardServer._range_map v).

Lemma kept_server_read {A} x (f : ShardServer.t → A) : kept (λ v, plan v = x) (ShardServer.read f : M server_state A).
Proof. by apply kept_same. Qed.
Lemma kept_server_lift {A} x (f : ShardServer.t → result A) :
  kept (λ v, plan v = x) (ShardServer.lift f : M server_state A).
Proof. by apply kept_same. Qed.
Lemma kept_server_below {A} x (m : M (list (MemoryRaftNode.t S R) * W) A) :
  kept (λ v, plan v = x) (ShardServer.below m).
Proof. apply kept_same. intros s. unfold ShardServer.below. by destruct (m s.2). Qed.
Lemma kept_server_change x f : (∀ v, plan (f v) = plan v) →
  kept (λ v, plan v = x) (ShardServer.change f : M server_state unit).
Proof. intros Hf s Hs. cbn. by rewrite Hf. Qed.
Hint Resolve kept_server_read kept_server_lift kept_server_below kept_server_change : kept.

Lemma add_shard_plan x i members : kept (λ v, plan v = x) (ShardServer.add_shard i members : M server_state nat).
Proof. unfold ShardServer.add_shard. keep. Qed.
Lemma shutdown_shard_plan x i : kept (λ v, plan v = x) (ShardServer.shutdown_shard i : M server_state bool).
Proof. unfold ShardServer.shutdown_shard. keep. Qed.
End servers.

Section facts.
Context {E W R C : Type} `{Engine E}.
Abbreviation machine := (MVCCStateMachine.t E * list Z)%type.
Context `{!ServerWorld W machine R} `{!RaftStorage R} `{!Msgpack} `{!RaftNode.StateMachine machine}.
Context `{!ClusterTable W} `{!ClientsHere W} `{!NodeClientFactory W C} `{!NodeClient W C}.
Abbreviation node := (MemoryRaftNode.t machine R).
Abbreviation st := (NodeClusterView.t * (list node * W))%type.
Implicit Types (s : st) (v : NodeClusterView.t).

(** ** One answer to where a key goes *)

(** Every server the view holds is this node's own, and routes by the view's range map. *)
Definition in_step v : Prop := ∀ n server, get_shard_server n v = Some server →
  n = own v ∧ plan server = (n, _range_map v).
(** ... of a node with this configuration that has started its shards. *)
Definition in_step_as config v : Prop := _config v = config ∧ in_step v ∧ is_Some (get_shard_server (own v) v).

Lemma kept_read {A} config (f : NodeClusterView.t → A) : kept (in_step_as config) (read f : M st A).
Proof. by apply kept_same. Qed.
Lemma kept_lift {A} config (f : NodeClusterView.t → result A) : kept (in_step_as config) (lift f : M st A).
Proof. by apply kept_same. Qed.
Lemma kept_below {A} config (m : M (list node * W) A) : kept (in_step_as config) (below m).
Proof. apply kept_same. intros s. unfold below. by destruct (m s.2). Qed.
Lemma kept_world {A} config (m : M W A) : kept (in_step_as config) (world m : M st A).
Proof. apply kept_below. Qed.
Lemma kept_clients config b : kept (in_step_as config) (change (set_clients b) : M st unit).
Proof. intros s Hs. exact Hs. Qed.
Lemma kept_server config : kept (in_step_as config) (_shard_server : M st _).
Proof. apply kept_same. intros s. unfold _shard_server. by destruct (get_shard_server _ _). Qed.

Lemma serve_in_step config v server :
  _config v = config → in_step v → plan server = (own v, _range_map v) → in_step_as config (serve server v).
Proof.
  intros Hc Hv Hp. split_and!; [done| |by exists server; unfold get_shard_server, serve; cbn; rewrite d_get_set, decide_True].
  intros n s'. unfold get_shard_server, serve. cbn. rewrite d_get_set.
  change (own (set_servers _ v)) with (own v).
  destruct (decide (own v = n)) as [<-|Hne]; [by intros [= <-]|]. apply Hv.
Qed.
Lemma kept_on_server {A} config (m : M (ShardServer.t * (list node * W)) A) :
  (∀ x, kept (λ u : ShardServer.t, plan u = x) m) → kept (in_step_as config) (on_server m).
Proof.
  intros Hm [v h] Hs. unfold on_server. cbn [fst snd] in *.
  destruct (get_shard_server (own v) v) as [server|] eqn:Hv; [|done].
  destruct Hs as (Hc&Hin&_). destruct (Hin _ _ Hv) as [_ Hp].
  specialize (Hm _ (server, h) Hp). destruct (m (server, h)) as [[server' h'] a]. by apply serve_in_step.
Qed.
Hint Resolve kept_read kept_lift kept_below kept_world kept_clients kept_server : kept.
Hint Resolve add_shard_plan shutdown_shard_plan : kept.
Hint Extern 1 (kept _ (on_server _)) => apply kept_on_server; intros : kept.

Lemma kept__clients config : kept (in_step_as config) (_clients : M st unit).
Proof. unfold _clients. keep. Qed.
Hint Resolve kept__clients : kept.
Lemma kept_first_that_leads config i nodes : kept (in_step_as config) (first_that_leads i nodes : M st _).
Proof. induction nodes as [|n nodes IH]; cbn [first_that_leads]; keep. Qed.
Hint Resolve kept_first_that_leads : kept.
Lemma kept_each_node {A} config (m : M node A) hs : kept (in_step_as config) (each_node m hs : M st unit).
Proof. induction hs as [|h hs IH]; cbn [each_node]; keep. Qed.
Lemma kept_put_storages config hs : ∀ rs, kept (in_step_as config) (put_storages hs rs : M st unit).
Proof. induction hs as [|h hs IH]; intros [|r rs]; cbn [put_storages]; keep. Qed.
Hint Resolve kept_each_node kept_put_storages : kept.
Lemma kept_write_storages config i f : kept (in_step_as config) (write_storages i f : M st unit).
Proof. unfold write_storages, _storages_of. keep. Qed.
Hint Resolve kept_write_storages : kept.
Lemma kept_split config i key j : kept (in_step_as config) (apply_split_locally i key j : M st unit).
Proof.
  unfold apply_split_locally. keep. intros [v h] (Hc&Hin&Hsome). cbn [change fst]. set (m := d_set _ _ _).
  change (get_shard_server (own (set_ranges m v)) (set_ranges m v)) with (get_shard_server (own v) v).
  assert (∀ n, get_shard_server n v ≠ None → n = own v) as Honly.
  { intros n Hn. destruct (get_shard_server n v) as [u|] eqn:Hu; [|done]. by apply Hin in Hu as [-> _]. }
  cbn [fst] in Hsome. destruct (get_shard_server (own v) v) as [server|] eqn:Hs; [|by destruct Hsome].
  split_and!; [done| |by exists (ShardServer.set_range_map m server); unfold get_shard_server, serve; cbn; rewrite d_get_set, decide_True].
  intros n u. unfold get_shard_server, serve. cbn. rewrite d_get_set.
  change (own (set_ranges m v)) with (own v). change (own (set_servers _ (set_ranges m v))) with (own v).
  destruct (decide (own v = n)) as [<-|Hne].
  - intros [= <-]. split; [done|]. destruct (Hin _ _ Hs) as [_ [= Hn _]]. unfold plan. cbn. by rewrite Hn.
  - intros Hu. destruct Hne. symmetry. apply Honly. unfold get_shard_server. by rewrite Hu.
Qed.

(** The calls the recovery, the publisher and the node's own stop make. *)
Inductive view_op :=
  | PendingNotes (i : Z)
  | RememberNote (note : PendingNote)
  | ForgetNote (i : Z)
  | ServingNodes (i : Z)
  | LeaderClient (i : Z)
  | LeaderClientForNodes (i : Z) (nodes : list Z)
  | ShardLeader (i : Z)
  | Freeze (i : Z) (reason : string) (nodes : list Z)
  | Unfreeze (i : Z) (nodes : list Z)
  | EnsureServing (i : Z) (nodes : list Z)
  | EnsureGroupOn (i : Z) (nodes : list Z)
  | CloseGroupOn (i : Z) (nodes : list Z)
  | ApplySplit (i : Z) (key : bytes) (j : Z)
  | ApplyMove (i : Z) (nodes : list Z)
  | CloseClients.
(** The state a call leaves, whatever it answers. *)
Definition after (op : view_op) s : st :=
  match op with
  | PendingNotes i => (pending_notes i s).1
  | RememberNote note => (remember_note note s).1
  | ForgetNote i => (forget_note i s).1
  | ServingNodes i => (serving_nodes i s).1
  | LeaderClient i => (leader_client i s).1
  | LeaderClientForNodes i nodes => (leader_client_for_nodes i nodes s).1
  | ShardLeader i => (shard_leader i s).1
  | Freeze i reason nodes => (freeze i reason nodes s).1
  | Unfreeze i nodes => (unfreeze i nodes s).1
  | EnsureServing i nodes => (ensure_serving i nodes s).1
  | EnsureGroupOn i nodes => (ensure_group_on i nodes s).1
  | CloseGroupOn i nodes => (close_group_on i nodes s).1
  | ApplySplit i key j => (apply_split_locally i key j s).1
  | ApplyMove i nodes => (apply_move_locally i nodes s).1
  | CloseClients => (close_clients s).1
  end.

Lemma after_in_step config op s : in_step_as config s.1 → in_step_as config (after op s).1.
Proof.
  destruct op; cbn [after]; revert s; match goal with |- ∀ s, _ → in_step_as _ (?m s).1.1 => change (kept (in_step_as config) m) end.
  all: unfold pending_notes, remember_note, forget_note, leader_client, leader_client_for_nodes, serving_nodes,
    shard_leader, freeze, unfreeze, ensure_serving, ensure_group_on, close_group_on, apply_move_locally,
    close_clients, _storages_of; try apply kept_split; keep.
Qed.
Lemma runs_in_step config ops s :
  in_step_as config s.1 → in_step_as config (foldl (λ s op, after op s) s ops).1.
Proof. revert s. induction ops as [|op ops IH]; intros s Hs; cbn; [done|]. by apply IH, after_in_step. Qed.

(** ** The group held here *)

Lemma own_serve server v : own (serve server v) = own v.
Proof. done. Qed.
Lemma server_serve server v : get_shard_server (own v) (serve server v) = Some server.
Proof. unfold get_shard_server, serve. cbn. by rewrite d_get_set, decide_True. Qed.
Lemma held_serve server v j : held j (serve server v) = ShardServer._shards server !! j.
Proof. unfold held. by rewrite own_serve, server_serve. Qed.
Lemma replicas_serve i server v :
  is_Some (ShardServer._shards server !! i) →
  shard_replica_ids i (serve server v) = ShardServer.shard_replica_ids i server.
Proof.
  intros [h Hh]. unfold shard_replica_ids. rewrite own_serve, server_serve. unfold ShardServer.get_shard_node.
  by rewrite Hh.
Qed.

(** A shard that is closed and built again. *)
Lemma shut_on_server i v h server s' b :
  get_shard_server (own v) v = Some server →
  on_server (ShardServer.shutdown_shard i) (v, h) = (s', Ok b) →
  ∃ server', s'.1 = serve server' v ∧ ShardServer._node_id server' = ShardServer._node_id server ∧
    ShardServer._shards server' = base.delete i (ShardServer._shards server).
Proof.
  unfold on_server. cbn [fst snd]. intros -> Hr.
  destruct (ShardServer.shutdown_shard i (server, h)) as [[server' h'] a] eqn:Hs. injection Hr as <- ->.
  apply shutdown_shard_drops in Hs as (Hn&_&Hd). by exists server'.
Qed.
Lemma built_on_server i m v h server s' hd :
  get_shard_server (own v) v = Some server → ShardServer._node_id server = own v → own v ∈ m →
  on_server (ShardServer.add_shard i (Some (sorted_set m))) (v, h) = (s', Ok hd) →
  ∃ server', s'.1 = serve server' v ∧ ShardServer._node_id server' = own v ∧
    ShardServer._shards server' = <[i := hd]> (ShardServer._shards server) ∧
    ShardServer.shard_replica_ids i server' = sorted_set m.
Proof.
  unfold on_server. cbn [fst snd]. intros -> Hid Hin Hr.
  destruct (ShardServer.add_shard _ _ (server, h)) as [[server' h'] a] eqn:Hs. injection Hr as <- ->.
  apply add_shard_holds in Hs as (Hd&Hn&Hp). exists server'. split_and!; [done|congruence|done|].
  cbn [given] in Hp. rewrite sorted_set_idem in Hp. apply built_replicas; [|by rewrite Hn, Hid].
  unfold peers_of. by rewrite Hp, Hn.
Qed.

Lemma ensure_serving_settled i nodes s server :
  get_shard_server (own s.1) s.1 = Some server →
  (is_Some (held i s.1) ↔ own s.1 ∈ nodes) → (own s.1 ∈ nodes → shard_replica_ids i s.1 = sorted_set nodes) →
  ensure_serving i nodes s = (s, Ok []).
Proof.
  intros Hs Hheld Hrep. unfold ensure_serving. rewrite (bind_run _ _ _ s server) by (unfold _shard_server; by rewrite Hs).
  rewrite (bind_run _ _ _ s (own s.1)) by done. unfold held in Hheld. rewrite Hs in Hheld.
  unfold shard_replica_ids in Hrep. rewrite Hs in Hrep. rewrite <-elem_of_sorted_set in Hheld, Hrep.
  destruct (decide (own s.1 ∉ sorted_set nodes)) as [Hn|Hn].
  - rewrite bool_decide_eq_false_2 by tauto. done.
  - apply dec_stable in Hn. destruct Hheld as [_ Hheld]. specialize (Hheld Hn) as [h Hh]. specialize (Hrep Hn).
    rewrite Hh in Hrep |- *. rewrite !bool_decide_eq_true_2; [done|done|by eexists].
Qed.

(** What [ensure_serving] does, by its cases. *)
Inductive ensured (i : Z) (nodes : list Z) (s s' : st) : list Z → Prop :=
  | ensured_idle : (is_Some (held i s.1) ↔ own s.1 ∈ nodes) →
      (own s.1 ∈ nodes → shard_replica_ids i s.1 = sorted_set nodes) → s' = s → ensured i nodes s s' []
  | ensured_closed server' : is_Some (held i s.1) → own s.1 ∉ nodes → s'.1 = serve server' s.1 →
      (∀ j, ShardServer._shards server' !! j = if decide (j = i) then None else held j s.1) →
      ensured i nodes s s' [own s.1]
  | ensured_built v server' closed hd : own s.1 ∈ nodes →
      closed = (if decide (is_Some (held i s.1)) then [own s.1] else []) →
      (is_Some (held i s.1) → shard_replica_ids i s.1 ≠ sorted_set nodes) →
      own v = own s.1 → s'.1 = serve server' v →
      (∀ j, ShardServer._shards server' !! j = if decide (j = i) then Some hd else held j s.1) →
      ShardServer.shard_replica_ids i server' = sorted_set nodes → ensured i nodes s s' closed.

Lemma ensure_serving_cases i nodes s s' closed server :
  get_shard_server (own s.1) s.1 = Some server → ShardServer._node_id server = own s.1 →
  ensure_serving i nodes s = (s', Ok closed) → ensured i nodes s s' closed.
Proof.
  intros Hs Hid. unfold ensure_serving. rewrite (bind_run _ _ _ s server) by (unfold _shard_server; by rewrite Hs).
  rewrite (bind_run _ _ _ s (own s.1)) by done.
  assert (∀ j, held j s.1 = ShardServer._shards server !! j) as Hheld by (intros j; unfold held; by rewrite Hs).
  assert (∀ j, is_Some (held j s.1) → shard_replica_ids j s.1 = ShardServer.shard_replica_ids j server) as Hrep.
  { intros j [h Hh]. rewrite Hheld in Hh. unfold shard_replica_ids. rewrite Hs. unfold ShardServer.get_shard_node. by rewrite Hh. }
  change (ShardServer.get_shard_node i server) with (ShardServer._shards server !! i). rewrite <-Hheld.
  destruct (decide (own s.1 ∉ sorted_set nodes)) as [Hn|Hn]; rewrite elem_of_sorted_set in Hn.
  - destruct (bool_decide_reflect (is_Some (held i s.1))) as [Hh|Hh]; cbn [negb].
    + intros Hr. apply bind_Ok_inv in Hr as (s1&b&Hsh&[= <- <-]). destruct s as [v h]. cbn [fst] in *.
      apply (shut_on_server i v h server) in Hsh as (server'&He&_&Hd); [|done].
      apply (ensured_closed i nodes (v, h) s1 server'); [done..|]. intros j. rewrite Hd. cbn. rewrite Hheld.
      destruct (decide (j = i)) as [->|]; [apply lookup_delete_eq|by apply lookup_delete_ne].
    + intros [= <- <-]. apply ensured_idle; [tauto|tauto|done].
  - apply dec_stable in Hn. destruct (bool_decide_reflect (is_Some (held i s.1))) as [Hh|Hh]; cbn [andb].
    + destruct (bool_decide_reflect (ShardServer.shard_replica_ids i server = sorted_set nodes)) as [He|He].
      * intros [= <- <-]. apply ensured_idle; [tauto|by rewrite Hrep|done].
      * intros Hr. apply bind_Ok_inv in Hr as (s1&u&Hsh&Hr). apply bind_Ok_inv in Hsh as (s2&b&Hsh&[= <- _]).
        apply bind_Ok_inv in Hr as (s3&hd&Hadd&[= <- <-]). destruct s as [v h], s2 as [v1 h1]. cbn [fst] in *.
        apply (shut_on_server i v h server) in Hsh as (server1&He1&Hn1&Hd1); [|done]. cbn in He1. subst v1.
        apply (built_on_server i nodes _ h1 server1) in Hadd as (server'&He'&Hn'&Hd'&Hr');
          [|exact (server_serve server1 v)|by rewrite own_serve, Hn1|done].
        apply (ensured_built i nodes (v, h) s3 (serve server1 v) server' _ hd); [done|by rewrite decide_True|by rewrite Hrep|done|done| |done].
        intros j. rewrite Hd', Hd1. cbn. rewrite Hheld. destruct (decide (j = i)) as [->|]; [apply lookup_insert_eq|].
        by rewrite lookup_insert_ne, lookup_delete_ne.
    + intros Hr. apply bind_Ok_inv in Hr as (s1&u&[= <- _]&Hr). apply bind_Ok_inv in Hr as (s3&hd&Hadd&[= <- <-]).
      destruct s as [v h]. cbn [fst] in *.
      apply (built_on_server i nodes v h server) in Hadd as (server'&He'&Hn'&Hd'&Hr'); [|done..].
      apply (ensured_built i nodes (v, h) s3 v server' _ hd); [done|by rewrite decide_False|done|done|done| |done].
      intros j. rewrite Hd'. cbn. rewrite Hheld. destruct (decide (j = i)) as [->|]; [apply lookup_insert_eq|by rewrite lookup_insert_ne].
Qed.

(** This node holds one group for a shard, with exactly the members it is given, exactly when
    it is one of them.  When [ensure_serving] returns, the node holds a group for the shard if
    and only if the set names it, that group's replicas are the set, no other shard's group
    was built or closed, and the answer names this node exactly when a group was closed,
    because the set does not name the node or the group it held had other members.  A group
    that already had these members is left alone, and asking again changes nothing. *)
Theorem node_serves_exactly i nodes s s' closed server :
  get_shard_server (own s.1) s.1 = Some server → ShardServer._node_id server = own s.1 →
  ensure_serving i nodes s = (s', Ok closed) →
  own s'.1 = own s.1 ∧
  (is_Some (held i s'.1) ↔ own s.1 ∈ nodes) ∧
  (own s.1 ∈ nodes → shard_replica_ids i s'.1 = sorted_set nodes) ∧
  (∀ j, j ≠ i → held j s'.1 = held j s.1) ∧
  closed = (if decide (is_Some (held i s.1) ∧ ¬ (own s.1 ∈ nodes ∧ shard_replica_ids i s.1 = sorted_set nodes))
            then [own s.1] else []) ∧
  (is_Some (held i s.1) → own s.1 ∈ nodes → shard_replica_ids i s.1 = sorted_set nodes → s' = s) ∧
  ensure_serving i nodes s' = (s', Ok []).
Proof.
  intros Hs Hid Hr. apply (ensure_serving_cases _ _ _ _ _ server) in Hr; [|done..].
  assert (∀ server', get_shard_server (own s'.1) s'.1 = Some server' → own s'.1 = own s.1 →
    (is_Some (held i s'.1) ↔ own s.1 ∈ nodes) → (own s.1 ∈ nodes → shard_replica_ids i s'.1 = sorted_set nodes) →
    ensure_serving i nodes s' = (s', Ok [])) as Hidle.
  { intros server' Hs' Ho Hh Hrp. rewrite <-Ho in Hh, Hrp. by apply (ensure_serving_settled _ _ _ server'). }
  destruct Hr as [Hh Hrep ->|server' Hh Hn He Hd|v server' closed hd Hn -> Hne Ho He Hd Hrp].
  - split_and!; [done..| |done|by apply (Hidle server)]. by rewrite decide_False by tauto.
  - assert (own s'.1 = own s.1) as Ho by by rewrite He. assert (∀ j, held j s'.1 = if decide (j = i) then None else held j s.1) as Hj.
    { intros j. by rewrite He, held_serve, Hd. }
    assert (held i s'.1 = None) as Hi by by rewrite Hj, decide_True.
    split_and!; [done|rewrite Hi; split; [by intros [? ?]|done]|done| | |done|].
    + intros j Hji. by rewrite Hj, decide_False.
    + by rewrite decide_True by tauto.
    + apply (Hidle server'); [by rewrite Ho, He, server_serve|done|rewrite Hi; split; [by intros [? ?]|done]|done].
  - assert (own s'.1 = own s.1) as Ho' by by rewrite He.
    assert (∀ j, held j s'.1 = if decide (j = i) then Some hd else held j s.1) as Hj.
    { intros j. by rewrite He, held_serve, Hd. }
    assert (held i s'.1 = Some hd) as Hi by by rewrite Hj, decide_True.
    assert (shard_replica_ids i s'.1 = sorted_set nodes) as Hr'.
    { rewrite He, replicas_serve; [done|]. by rewrite Hd, decide_True. }
    split_and!; [done|by rewrite Hi|done| | |intros; by destruct Hne|].
    + intros j Hji. by rewrite Hj, decide_False.
    + destruct (decide (is_Some (held i s.1))) as [Hh|Hh].
      * rewrite decide_True; [done|]. split; [done|]. intros [_ ?]. by apply Hne.
      * rewrite decide_False; [done|tauto].
    + apply (Hidle server'); [by rewrite He, own_serve, server_serve|done|by rewrite Hi|done].
Qed.
End facts.

(** ** Addresses *)

Section addresses.
Context (c : ClusterConfig.t) (i : Z) (f : Z → string).

(** Entries for some nodes, over a map. *)
Definition put_all (nodes : list Z) (m : gmap Z string) : gmap Z string := foldl (λ m n, <[n := f n]> m) m nodes.
Lemma lookup_put_all nodes : ∀ m n, put_all nodes m !! n = if decide (n ∈ nodes) then Some (f n) else m !! n.
Proof.
  unfold put_all. induction nodes as [|x nodes IH]; intros m n; cbn; [done|]. rewrite IH.
  destruct (decide (n ∈ nodes)) as [Hn|Hn]; [by rewrite decide_True by set_solver|].
  destruct (decide (n = x)) as [->|Hx]; [rewrite lookup_insert_eq, decide_True by set_solver; done|].
  rewrite lookup_insert_ne by done. by rewrite decide_False by set_solver.
Qed.

Lemma peer_loop nodes : ∀ m,
  (∀ n, n ∈ nodes → ClusterConfig.shard_address c i (Some n) = Ok (f n)) →
  peer_addresses c i nodes m = Ok (put_all (filter (λ n, n ≠ ClusterConfig.node_id c) nodes) m).
Proof.
  induction nodes as [|n nodes IH]; intros m Hf; cbn [peer_addresses]; [done|]. rewrite filter_cons.
  destruct (decide (n ≠ ClusterConfig.node_id c)) as [Hn|Hn]; [rewrite Hf by set_solver; cbn [rbind]|]; apply IH; set_solver.
Qed.

Lemma named_loop v nodes : ∀ m, _config v = c →
  (∀ n, n ∈ nodes → is_Some (ClusterConfig.base_addresses c !! n) ∧ ClusterConfig.shard_address c i (Some n) = Ok (f n)) →
  addresses_loop i nodes v m = Ok (put_all nodes m).
Proof.
  intros m Hc. revert m. induction nodes as [|n nodes IH]; intros m Hf; cbn [addresses_loop]; [done|].
  destruct (Hf n) as [[b Hb] Ha]; [set_solver|]. unfold _address_of. rewrite Hc, Hb, Ha. cbn [rbind].
  apply IH. set_solver.
Qed.
End addresses.

Lemma placed_of_id c n : n ∈ ClusterConfig.node_ids c → ∃ host port, placed c n host port.
Proof.
  unfold ClusterConfig.node_ids. rewrite merge_sort_Permutation, elem_of_cons.
  intros [->|(p & -> & Hp)%list_elem_of_fmap]; [by do 2 eexists; left|]. do 2 eexists. right. by exists p.
Qed.

(** What a node would publish of a shard is what it would propose for it.  For a shard a node
    of a valid configuration holds a group for, the addresses its publisher writes in the
    table are the addresses its recovery writes when it proposes the shard's members, neither
    computation fails, they have an entry for exactly the members, and an entry is the host of
    its node and the node's base port plus the shard. *)
Theorem published_is_proposed i v server :
  ClusterConfig.validate (_config v) = Ok tt →
  get_shard_server (own v) v = Some server → ShardServer._node_id server = own v → is_Some (held i v) →
  (∀ n, n ∈ shard_replica_ids i v → n ∈ node_ids v) →
  ∃ m, shard_addresses i v = Ok m ∧ addresses_on i (shard_replica_ids i v) v = Ok m ∧
    (∀ n, is_Some (m !! n) ↔ n ∈ shard_replica_ids i v) ∧
    ∀ n host port, n ∈ shard_replica_ids i v → placed (_config v) n host port →
      m !! n = Some (_address host (port + i)).
Proof.
  intros [_ _ _ Hnd _ _]%validate_valid Hs Hid [h Hh] Hall. set (c := _config v) in *.
  set (f n := match ClusterConfig.shard_address c i (Some n) with Ok a => a | Raise _ => EmptyString end).
  assert (∀ n host port, placed c n host port → is_Some (ClusterConfig.base_addresses c !! n) ∧
    ClusterConfig.shard_address c i (Some n) = Ok (_address host (port + i))) as Hplaced.
  { intros n host port Hp. rewrite (base_lookup _ _ _ _ Hnd Hp). split; [by eexists|].
    unfold ClusterConfig.shard_address. by rewrite (base_of_placed _ _ _ _ Hnd Hp). }
  assert (∀ n, n ∈ node_ids v → is_Some (ClusterConfig.base_addresses c !! n) ∧
    ClusterConfig.shard_address c i (Some n) = Ok (f n)) as Hf.
  { intros n (host & port & Hp)%placed_of_id. unfold f. destruct (Hplaced _ _ _ Hp) as [? ->]. done. }
  assert (own v ∈ shard_replica_ids i v) as Hown.
  { unfold shard_replica_ids. rewrite Hs. unfold held in Hh. rewrite Hs in Hh. rewrite Hh.
    unfold ShardServer.shard_replica_ids. rewrite merge_sort_Permutation, Hid. set_solver. }
  exists (put_all f (shard_replica_ids i v) ∅). split_and!.
  - unfold shard_addresses. destruct (shard_replica_ids i v) as [|n0 ns] eqn:Hns; [set_solver|]. rewrite <-Hns in *.
    change (ClusterConfig.shard_address (_config v) i None) with (ClusterConfig.shard_address c i (Some (own v))).
    rewrite (proj2 (Hf _ (Hall _ Hown))). cbn [rbind]. rewrite (peer_loop c i f) by (intros n Hn; apply Hf, Hall, Hn).
    f_equal. apply map_eq. intros n. rewrite !lookup_put_all, lookup_empty.
    destruct (decide (n = own v)) as [->|Hne].
    + rewrite decide_False, decide_True, lookup_singleton_eq; [done|done|]. rewrite list_elem_of_filter. naive_solver.
    + rewrite lookup_singleton_ne by done. apply decide_ext. rewrite list_elem_of_filter.
      change (ClusterConfig.node_id c) with (own v). tauto.
  - apply (named_loop c i f); [done|]. intros n Hn. by apply Hf, Hall.
  - intros n. rewrite lookup_put_all, lookup_empty. case_decide; [naive_solver|]. split; [by intros [? ?]|done].
  - intros n host port Hn Hp. rewrite lookup_put_all, decide_True by done.
    unfold f. by rewrite (proj2 (Hplaced _ _ _ Hp)).
Qed.
