(* ===== verification/ClusterNode.v ===== *)
(** A node's process: [ClusterNode] of [launcher.py], its start and its stop.

    A node serves a member of the routing table's group and of the clock's group if it is one
    of their voters, its shards, and the threads that keep the table current and the locks
    swept.  The members of the two groups are Raft nodes of this object; the nodes of the
    shards are in the store of [ShardServer.v]. *)

From Stdlib Require Import ZArith Lia.
From S2P Require Import Prelude Bytes PyVal PyOps Engine Mvcc StateMachine Dict Router Metadata MetadataClient RaftStorage RaftNode Routing RoutingCache Publisher RecoveryNotes Recovery ShardServer ShardedCluster Wire ClientServicer Launcher NodeView.
Import RecoveryState.

(** What the process uses of the machine it runs on. *)
Class NodeProcess (W R : Type) := {
  (** [os.makedirs(..., exist_ok=True)], [os.path.join], [create_raft_storage]. *)
  np_makedirs : string → M W unit;
  np_join : string → string → string;
  np_create_raft_storage : option string → M W R;
  (** [self._storages], to which the factory handed to the server appends as well. *)
  np_append_storage : R → M W unit;
  np_storages : W → list R;
  (** The handlers of the signals, and the thread that reads the standard input. *)
  np_install_signal_handlers : M W unit;
  np_restore_signal_handlers : M W unit;
  np_watch_stdin : M W unit;
  np_print : string → M W unit
}.

(** [", ".join(...)]. *)
Fixpoint comma_joined (l : list string) : string :=
  match l with
  | [] => EmptyString
  | [s] => s
  | s :: l => String.append s (String.append ", " (comma_joined l))
  end.

(** [ClusterConfig.describe()]. *)
Definition describe (c : ClusterConfig.t) : result string :=
  let? shards := traverse (λ i, ClusterConfig.shard_address c i None) (seqZ 0 (ClusterConfig.num_shards c)) in
  let? metadata := ClusterConfig.metadata_address c None in
  let? tso := ClusterConfig.tso_address c None in
  Ok (String.append "node " (String.append (str_of_Z (ClusterConfig.node_id c))
     (String.append ": shards at " (String.append (comma_joined shards)
     (String.append ", metadata at " (String.append metadata (String.append ", tso at " tso))))))).

Definition READY : string := "READY".
Definition SHUTDOWN : string := "SHUTDOWN".
Definition STOPPED : string := "STOPPED".

(** A thread that was started, and whether it still runs. *)
Inductive worker := Running | Stopped.

Module ClusterNode.
Section node.
Context {E W R C MM TM : Type} `{Engine E}.
Abbreviation machine := (MVCCStateMachine.t E * list Z)%type.
Context `{!ServerWorld W machine R} `{!RaftStorage R} `{!Msgpack} `{!RaftNode.StateMachine machine}.
Context `{!ClusterTable W} `{!ClientsHere W} `{!NodeClientFactory W C} `{!NodeClient W C} `{!NodeProcess W R}.
(** The machines of the two groups, and one of each as it is made. *)
Context `{!RaftNode.StateMachine MM} `{!RaftNode.StateMachine TM} (metadata_machine : MM) (tso_machine : TM).
Abbreviation view_state := (NodeClusterView.t * (list (MemoryRaftNode.t machine R) * W))%type.
Context `{!RowCalls view_state C} (patience : nat).

Record t := {
  _config : ClusterConfig.t;
  _range_map : RangeMap;
  _metadata_node : option (MemoryRaftNode.t MM R);
  _tso_node : option (MemoryRaftNode.t TM R);
  _metadata_writer : bool;
  _publisher : option worker;
  _lock_cleaner : option worker;
  _started : bool
}.
Abbreviation st := (t * (RecoveryState.t * view_state))%type.

Definition set_metadata_node (n : option (MemoryRaftNode.t MM R)) (p : t) : t :=
  {| _config := _config p; _range_map := _range_map p; _metadata_node := n; _tso_node := _tso_node p;
     _metadata_writer := _metadata_writer p; _publisher := _publisher p; _lock_cleaner := _lock_cleaner p;
     _started := _started p |}.
Definition set_tso_node (n : option (MemoryRaftNode.t TM R)) (p : t) : t :=
  {| _config := _config p; _range_map := _range_map p; _metadata_node := _metadata_node p; _tso_node := n;
     _metadata_writer := _metadata_writer p; _publisher := _publisher p; _lock_cleaner := _lock_cleaner p;
     _started := _started p |}.
Definition set_publisher (writer : bool) (w : option worker) (p : t) : t :=
  {| _config := _config p; _range_map := _range_map p; _metadata_node := _metadata_node p; _tso_node := _tso_node p;
     _metadata_writer := writer; _publisher := w; _lock_cleaner := _lock_cleaner p; _started := _started p |}.
Definition set_lock_cleaner (w : option worker) (p : t) : t :=
  {| _config := _config p; _range_map := _range_map p; _metadata_node := _metadata_node p; _tso_node := _tso_node p;
     _metadata_writer := _metadata_writer p; _publisher := _publisher p; _lock_cleaner := w; _started := _started p |}.
Definition set_started (b : bool) (p : t) : t :=
  {| _config := _config p; _range_map := _range_map p; _metadata_node := _metadata_node p; _tso_node := _tso_node p;
     _metadata_writer := _metadata_writer p; _publisher := _publisher p; _lock_cleaner := _lock_cleaner p;
     _started := b |}.

(** [ClusterNode(config)], with the view it makes. *)
Definition init (config : ClusterConfig.t) (w : W) : result st :=
  let? _ := ClusterConfig.validate config in
  let range_map := default_range_map (ClusterConfig.num_shards config) in
  Ok ({| _config := config; _range_map := range_map; _metadata_node := None; _tso_node := None;
         _metadata_writer := false; _publisher := None; _lock_cleaner := None; _started := false |},
      (RecoveryState.init, (NodeClusterView.init config range_map, ([], w)))).

Definition read {A} (f : t → A) : M st A := λ s, (s, Ok (f s.1)).
Definition change (f : t → t) : M st unit := λ s, ((f s.1, s.2), Ok tt).
Definition lift {A} (r : result A) : M st A := reads (λ _, r).
(** A call of the recovery's runner, of the view, and of the world. *)
Definition runner {A} (m : M (RecoveryState.t * view_state) A) : M st A := λ s,
  let '(x, a) := m s.2 in ((s.1, x), a).
Definition view {A} (m : M view_state A) : M st A := runner (RecoveryRunner.call m).
Definition world {A} (m : M W A) : M st A := view (NodeClusterView.world m).

(** *** The groups *)

Definition _group_storage (name : string) : M st R :=
  let* config := read _config in
  let directory := option_map (λ d, np_join d name) (ClusterConfig.data_dir config) in
  let* storage := world (np_create_raft_storage directory) in
  world (np_append_storage storage);;;
  ret storage.

(** A node with its server listening at [address]; [peers] are the other voters. *)
Definition _start_group {S} `{!RaftNode.StateMachine S} (address : string) (peers : list Z) (state_machine : S)
    (storage : R) : M st (MemoryRaftNode.t S R) :=
  let* me := read (λ p, ClusterConfig.node_id (_config p)) in
  let '(n, loaded) := MemoryRaftNode._load_from_storage
    (MemoryRaftNode.init me (merge_sort Z.le peers) state_machine (Some storage) snapshot_interval
       APPLY_RESULTS_WINDOW) in
  lift loaded;;;
  world (sw_listen address);;;
  ret n.

(** The addresses of the other voters, which the network client is given. *)
Definition group_peers (config : ClusterConfig.t) (address_of : option Z → result string) (voters : list Z)
    : result (list (Z * string)) :=
  traverse (λ n, let? a := address_of (Some n) in Ok (n, a))
    (filter (λ n, n ≠ ClusterConfig.node_id config) voters).

Definition _start_metadata_group : M st unit :=
  let* config := read _config in
  let voters := ClusterConfig.voters config (ClusterConfig.metadata_group_size config) in
  if decide (ClusterConfig.node_id config ∉ voters) then ret tt
  else
    let* address := lift (ClusterConfig.metadata_address config None) in
    let* peers := lift (group_peers config (ClusterConfig.metadata_address config) voters) in
    let* storage := _group_storage "metadata" in
    let* n := _start_group address peers.*1 metadata_machine storage in
    change (set_metadata_node (Some n)).
Definition _start_tso_group : M st unit :=
  let* config := read _config in
  let voters := ClusterConfig.voters config (ClusterConfig.tso_group_size config) in
  if decide (ClusterConfig.node_id config ∉ voters) then ret tt
  else
    let* address := lift (ClusterConfig.tso_address config None) in
    let* peers := lift (group_peers config (ClusterConfig.tso_address config) voters) in
    let* storage := _group_storage "tso" in
    let* n := _start_group address peers.*1 tso_machine storage in
    change (set_tso_node (Some n)).

(** What the service of a group tells a client of its leader. *)
Definition _group_leader_address {S} (n : MemoryRaftNode.t S R) (address_of : option Z → result string)
    : result (option string) :=
  match MemoryRaftNode._leader_id n with
  | None => Ok None
  | Some leader => let? a := address_of (Some leader) in Ok (Some a)
  end.

(** *** The shards *)

Definition new_server (config : ClusterConfig.t) (range_map : RangeMap) : ShardServer.t :=
  ShardServer.set_range_map range_map
    (ShardServer.init (ClusterConfig.node_id config) (ClusterConfig.num_shards config)
       (Z.of_nat (length (ClusterConfig.node_ids config)))).
(** A server that fails to start is not kept. *)
Definition _start_shards : M st unit :=
  let* config := read _config in
  let* range_map := read _range_map in
  view (λ s,
    let '((server, h), a) := ShardServer.start_shards (Some (ClusterConfig.base_addresses config)) ∅
                               (new_server config range_map, s.2) in
    match a with
    | Ok _ => ((NodeClusterView.serve server s.1, h), Ok tt)
    | Raise e => ((s.1, h), Raise e)
    end).

(** *** Start and stop *)

Definition _start_background : M st unit :=
  let* config := read _config in
  let* member := read (λ p, bool_decide (is_Some (_metadata_node p))) in
  (if ClusterConfig.bootstrap config && member then
     view NodeClusterView._clients;;;
     change (set_publisher true (Some Running))
   else ret tt);;;
  change (set_lock_cleaner (Some Running)).

Definition start : M st unit :=
  let* started := read _started in
  if (started : bool) then raise RuntimeError
  else
  let* config := read _config in
  match ClusterConfig.data_dir config with
  | Some d => world (np_makedirs d)
  | None => ret tt
  end;;;
  world np_install_signal_handlers;;;
  _start_metadata_group;;;
  _start_tso_group;;;
  _start_shards;;;
  runner (RecoveryRunner.load_pending_splits (C := C));;;
  runner (RecoveryRunner.load_pending_migrations (C := C));;;
  _start_background;;;
  runner (RecoveryRunner.finish_pending_splits (C := C) patience);;;
  runner (RecoveryRunner.finish_pending_migrations (C := C) patience);;;
  (if ClusterConfig.watch_stdin config then world np_watch_stdin else ret tt);;;
  change (set_started true);;;
  let* line := lift (describe config) in
  world (np_print line);;;
  world (np_print (String.append READY (String.append " " (String.append (ClusterConfig.host config)
                     (String.append " " (str_of_Z (ClusterConfig.port config))))))).

Fixpoint close_storages (storages : list R) : M st unit :=
  match storages with
  | [] => ret tt
  | r :: storages => world (sw_close r);;; close_storages storages
  end.
Definition shut {S} (n : MemoryRaftNode.t S R) : MemoryRaftNode.t S R := (MemoryRaftNode.shutdown n).1.

Definition shutdown : M st unit :=
  let* started := read _started in
  if negb started then ret tt
  else
  world (np_print SHUTDOWN);;;
  change (λ p, set_publisher (_metadata_writer p) (option_map (λ _, Stopped) (_publisher p)) p);;;
  change (λ p, set_lock_cleaner (option_map (λ _, Stopped) (_lock_cleaner p)) p);;;
  change (λ p, set_publisher false (_publisher p) p);;;
  view NodeClusterView.close_clients;;;
  view (λ s, match NodeClusterView.get_shard_server (NodeClusterView.own s.1) s.1 with
             | Some _ => NodeClusterView.on_server ShardServer.shutdown s
             | None => (s, Ok tt)
             end);;;
  change (λ p, set_metadata_node (shut <$> _metadata_node p) p);;;
  change (λ p, set_tso_node (shut <$> _tso_node p) p);;;
  let* storages := (λ s, (s, Ok (np_storages s.2.2.2.2))) in
  close_storages storages;;;
  world np_restore_signal_handlers;;;
  change (set_started false);;;
  world (np_print STOPPED).

(** [run_cluster]: the wait for the stop is no step of the model. *)
Definition run_cluster : M st Z := λ s,
  match start s with
  | (s', Raise e) => (s', Raise e)
  | (s', Ok _) => bind shutdown (λ _, ret 0) s'
  end.
End node.
Arguments t : clear implicits.
End ClusterNode.

(** ** The command line *)

(** What [argparse] makes of the arguments. *)
Record Args := {
  a_node_id : Z; a_port : Z; a_host : string; a_peers : string; a_data_dir : option string;
  a_num_shards : Z; a_metadata_group_size : Z; a_tso_group_size : Z;
  a_bootstrap : bool; a_watch_stdin : bool
}.

Definition config_from_args (args : Args) : result ClusterConfig.t :=
  let? peers := parse_peers (a_peers args) in
  Ok {| ClusterConfig.node_id := a_node_id args; ClusterConfig.port := a_port args;
        ClusterConfig.host := a_host args; ClusterConfig.peers := peers;
        ClusterConfig.data_dir := a_data_dir args; ClusterConfig.num_shards := a_num_shards args;
        ClusterConfig.metadata_group_size := a_metadata_group_size args;
        ClusterConfig.tso_group_size := a_tso_group_size args;
        ClusterConfig.bootstrap := a_bootstrap args; ClusterConfig.watch_stdin := a_watch_stdin args |}.

Section main.
Context {E W R C MM TM : Type} `{Engine E}.
Abbreviation machine := (MVCCStateMachine.t E * list Z)%type.
Context `{!ServerWorld W machine R} `{!RaftStorage R} `{!Msgpack} `{!RaftNode.StateMachine machine}.
Context `{!ClusterTable W} `{!ClientsHere W} `{!NodeClientFactory W C} `{!NodeClient W C} `{!NodeProcess W R}.
Context `{!RaftNode.StateMachine MM} `{!RaftNode.StateMachine TM} (metadata_machine : MM) (tso_machine : TM).
Context `{!RowCalls (NodeClusterView.t * (list (MemoryRaftNode.t machine R) * W)) C} (patience : nat).

(** [run_cluster(config)], from the configuration on. *)
Definition run_config (config : ClusterConfig.t) : M W Z := λ w,
  match ClusterNode.init (E := E) (R := R) (MM := MM) (TM := TM) config w with
  | Raise e => (w, Raise e)
  | Ok s => let '(s', r) := ClusterNode.run_cluster (C := C) metadata_machine tso_machine patience s in
            (s'.2.2.2.2, r)
  end.

(** [main]: what is wrong with the arguments or with the configuration is said, and the exit
    status is 2. *)
Definition main (args : Args) : M W Z := λ w,
  match config_from_args args with
  | Raise ValueError => (w, Ok 2)
  | Raise e => (w, Raise e)
  | Ok config =>
      match run_config config w with
      | (w', Raise ValueError) => (w', Ok 2)
      | r => r
      end
  end.
End main.

(** ** Stopping *)

Module StopRequest.

(** A handler of a signal, as [signal.getsignal] gives it; [Foreign] is [None], a handler that
    was not installed from Python. *)
Inductive handler := SIG_DFL | SIG_IGN | Foreign | Callable (id : nat) | RequestStop.

(** The handlers of the process, and the ones the node has put aside. *)
Record t := { table : gmap string handler; _signal_handlers : list (string * handler) }.

Section signals.
(** The signals the platform has, and the ones this thread may set. *)
Context (has may : string → bool).

(** [signal.signal(which, handler)]. *)
Definition set_signal (which : string) (h : handler) : M t unit := λ s,
  if negb (may which) then (s, Raise ValueError)
  else match h with
       | Foreign => (s, Raise TypeError)
       | _ => ({| table := <[which := h]> (table s); _signal_handlers := _signal_handlers s |}, Ok tt)
       end.

Definition put_aside (which : string) (h : handler) : M t unit := λ s,
  ({| table := table s; _signal_handlers := d_set (_signal_handlers s) which h |}, Ok tt).
Definition pop (which : string) : M t unit := λ s,
  ({| table := table s; _signal_handlers := d_pop (_signal_handlers s) which |}, Ok tt).

(** [except (ValueError, OSError)]. *)
Definition quietly (m : M t unit) (h : M t unit) : M t unit := λ s,
  match m s with
  | (s', Raise ValueError) | (s', Raise OSError) => h s'
  | r => r
  end.

Fixpoint install (names : list string) : M t unit :=
  match names with
  | [] => ret tt
  | which :: names =>
      (if has which then
         quietly (let* h := (λ s, (s, Ok (default SIG_DFL (table s !! which)))) in
                  put_aside which h ;;;
                  set_signal which RequestStop)
           (pop which)
       else ret tt) ;;;
      install names
  end.
Definition _install_signal_handlers : M t unit := install ["SIGINT"%string; "SIGTERM"%string].

Fixpoint restore (l : list (string * handler)) : M t unit :=
  match l with
  | [] => ret tt
  | (which, h) :: l => quietly (set_signal which h) (ret tt) ;;; restore l
  end.
Definition _restore_signal_handlers : M t unit :=
  (λ s, restore (_signal_handlers s) s) ;;;
  (λ s, ({| table := table s; _signal_handlers := [] |}, Ok tt)).
End signals.

(** [str.lower] of an ASCII character. *)
Definition lower_char (z : Z) : Z := if (65 <=? z) && (z <=? 90) then z + 32 else z.

(** [_watch_stdin]: the lines until one that says stop, or until there are no more; the rest is
    not read.  Either way the node is asked to stop. *)
Fixpoint _watch_stdin (lines : list string) : list string :=
  match lines with
  | [] => []
  | line :: lines =>
      if decide (map lower_char (strip (chars line)) = chars "stop") then lines else _watch_stdin lines
  end.
End StopRequest.
