(* ===== verification/ClusterNodeFacts.v ===== *)
(** What a node's process promises when it has started and when it has stopped. *)

From Stdlib Require Import ZArith Lia.
From S2P Require Import Prelude Bytes PyVal PyOps Engine Mvcc StateMachine Dict Router Metadata MetadataClient RaftStorage RaftNode Routing RoutingCache Publisher RecoveryNotes Recovery ShardServer ShardedCluster ShardedFacts Wire ClientServicer Launcher LauncherFacts NodeView NodeViewFacts ClusterNode.
Import RecoveryState ClusterNode.

(** The first nodes of a valid cluster are the voters of a group. *)
Lemma elem_of_voters c size :
  ClusterConfig.validate c = Ok tt → 1 ≤ size → ClusterConfig.node_id c ∈ ClusterConfig.voters c size ↔ ClusterConfig.node_id c ≤ size.
Proof.
  intros [Hid _ _ _ He _]%validate_valid Hs. unfold ClusterConfig.voters.
  assert (ClusterConfig.node_id c ∈ ClusterConfig.node_ids c) as Hin.
  { unfold ClusterConfig.node_ids. rewrite merge_sort_Permutation. set_solver. }
  rewrite He in Hin |- *. apply elem_of_seqZ in Hin. unfold seqZ. rewrite <-fmap_take, take_seq. split.
  - intros (k & -> & Hk%elem_of_seq)%list_elem_of_fmap. lia.
  - intros Hle. apply list_elem_of_fmap. exists (Z.to_nat (ClusterConfig.node_id c - 1)).
    split; [lia|]. apply elem_of_seq. lia.
Qed.

Section facts.
Context {E W R C MM TM : Type} `{Engine E}.
Abbreviation machine := (MVCCStateMachine.t E * list Z)%type.
Context `{!ServerWorld W machine R} `{!RaftStorage R} `{!Msgpack} `{!RaftNode.StateMachine machine}.
Context `{!ClusterTable W} `{!ClientsHere W} `{!NodeClientFactory W C} `{!NodeClient W C} `{!NodeProcess W R}.
Context `{!RaftNode.StateMachine MM} `{!RaftNode.StateMachine TM} (metadata_machine : MM) (tso_machine : TM).
Abbreviation view_state := (NodeClusterView.t * (list (MemoryRaftNode.t machine R) * W))%type.
Context `{!RowCalls view_state C} (patience : nat).
Abbreviation process := (ClusterNode.t R MM TM).
Abbreviation st := (process * (RecoveryState.t * view_state))%type.
Implicit Types (s : st).

Lemma kept_process_read {A} (P : process → Prop) (f : process → A) : kept P (read f : M st A).
Proof. by apply kept_same. Qed.
Lemma kept_process_lift {A} (P : process → Prop) (r : result A) : kept P (lift r : M st A).
Proof. by apply kept_same. Qed.
Lemma kept_runner {A} (P : process → Prop) (m : M (RecoveryState.t * view_state) A) : kept P (runner m).
Proof. apply kept_same. intros s. unfold runner. by destruct (m s.2). Qed.
Lemma kept_view {A} (P : process → Prop) (m : M view_state A) : kept P (view m : M st A).
Proof. apply kept_runner. Qed.
Lemma kept_process_world {A} (P : process → Prop) (m : M W A) : kept P (world m : M st A).
Proof. apply kept_runner. Qed.
Lemma kept_process_change (P : process → Prop) f : (∀ p, P p → P (f p)) → kept P (change f : M st unit).
Proof. intros Hf s Hs. by apply Hf. Qed.
Hint Resolve kept_process_read kept_process_lift kept_runner kept_view kept_process_world : kept.

(** A computation that returns, in the middle of a sequence. *)
Lemma kept_Ok {A} (P : process → Prop) (m : M st A) s s' a : kept P m → P s.1 → m s = (s', Ok a) → P s'.1.
Proof. intros Hm Hs Hr. specialize (Hm s Hs). by rewrite Hr in Hm. Qed.

(** *** Who publishes *)

(** A member of the group of the table was started, or the node has no seat in it; nothing
    publishes yet. *)
Definition seated (config : ClusterConfig.t) (done_ : bool) (p : process) : Prop :=
  _config p = config ∧ _publisher p = None ∧
  (is_Some (_metadata_node p) ↔
    done_ = true ∧ ClusterConfig.node_id config ∈ ClusterConfig.voters config (ClusterConfig.metadata_group_size config)).

Lemma kept_group_storage P name : kept P (_group_storage name : M st R).
Proof. unfold _group_storage. keep. Qed.
Lemma kept_start_group {S} `{!RaftNode.StateMachine S} P address peers (m : S) storage :
  kept P (_start_group address peers m storage : M st _).
Proof. unfold _start_group. keep. Qed.
Hint Resolve kept_group_storage kept_start_group : kept.

Lemma metadata_group_seats config s s' u :
  seated config false s.1 → _start_metadata_group metadata_machine s = (s', Ok u) → seated config true s'.1.
Proof.
  intros Hs Hr. unfold _start_metadata_group in Hr. apply bind_Ok_inv in Hr as (s1&c&[= <- <-]&Hr).
  pose proof Hs as (Hc&Hp&Hm). rewrite Hc in Hr. case_decide as Hv.
  - injection Hr as <- _. split_and!; [done..|]. rewrite Hm. tauto.
  - apply bind_Ok_inv in Hr as (s1&a&[= <- _]&Hr). apply bind_Ok_inv in Hr as (s2&peers&[= <- _]&Hr).
    apply bind_Ok_inv in Hr as (s3&storage&Hst&Hr). apply bind_Ok_inv in Hr as (s4&n&Hgr&[= <- _]).
    apply (kept_Ok (seated config false)) in Hst; [|auto with kept|done].
    apply (kept_Ok (seated config false)) in Hgr; [|auto with kept|done]. destruct Hgr as (Hc4&Hp4&_).
    split_and!; [done..|]. cbn. split; [done|by eexists].
Qed.
Lemma kept_tso_group config : kept (seated config true) (_start_tso_group tso_machine : M st unit).
Proof. unfold _start_tso_group. keep. by apply kept_process_change. Qed.
Lemma kept_start_shards P : kept P (_start_shards : M st unit).
Proof. unfold _start_shards. keep. Qed.

(** Whether a node publishes once its threads are started. *)
Definition publishing (config : ClusterConfig.t) (p : process) : Prop :=
  _publisher p = if ClusterConfig.bootstrap config &&
    bool_decide (ClusterConfig.node_id config ∈ ClusterConfig.voters config (ClusterConfig.metadata_group_size config))
    then Some Running else None.

Lemma background_publishes config s s' u :
  seated config true s.1 → _start_background s = (s', Ok u) → publishing config s'.1.
Proof.
  intros Hs Hr. unfold _start_background in Hr. apply bind_Ok_inv in Hr as (s1&c&[= <- <-]&Hr).
  apply bind_Ok_inv in Hr as (s1&member&[= <- <-]&Hr). apply bind_Ok_inv in Hr as (s2&u2&Hb&[= <- _]).
  pose proof Hs as (Hc&Hp&Hm). rewrite Hc in Hb. unfold publishing. cbn.
  rewrite (bool_decide_ext _ (is_Some (_metadata_node s.1))) by (rewrite Hm; tauto).
  destruct (ClusterConfig.bootstrap config && bool_decide (is_Some (_metadata_node s.1))).
  - apply bind_Ok_inv in Hb as (s3&u3&_&[= <- _]). done.
  - injection Hb as <- _. done.
Qed.

Lemma start_publishes config s s' u :
  _config s.1 = config → _publisher s.1 = None → _metadata_node s.1 = None →
  start metadata_machine tso_machine patience s = (s', Ok u) → publishing config s'.1.
Proof.
  intros Hc Hp Hm Hr. unfold start in Hr. apply bind_Ok_inv in Hr as (s1&b&[= <- <-]&Hr).
  destruct (_started s.1); [done|]. apply bind_Ok_inv in Hr as (s1&c&[= <- <-]&Hr). rewrite Hc in Hr.
  assert (seated config false s.1) as Hs.
  { split_and!; [done..|]. rewrite Hm. split; [by intros [? ?]|by intros [? _]]. }
  apply bind_Ok_inv in Hr as (s1&u1&Hx&Hr).
  apply (kept_Ok (seated config false)) in Hx; [clear Hs|destruct (ClusterConfig.data_dir config); keep|done].
  apply bind_Ok_inv in Hr as (s2&u2&Hy&Hr). apply (kept_Ok (seated config false)) in Hy; [clear Hx|keep|done].
  apply bind_Ok_inv in Hr as (s3&u3&Hx&Hr). apply metadata_group_seats with (config := config) in Hx; [clear Hy|done].
  apply bind_Ok_inv in Hr as (s4&u4&Hy&Hr). apply (kept_Ok (seated config true)) in Hy; [clear Hx|apply kept_tso_group|done].
  apply bind_Ok_inv in Hr as (s5&u5&Hx&Hr). apply (kept_Ok (seated config true)) in Hx; [clear Hy|apply kept_start_shards|done].
  apply bind_Ok_inv in Hr as (s6&u6&Hy&Hr). apply (kept_Ok (seated config true)) in Hy; [clear Hx|keep|done].
  apply bind_Ok_inv in Hr as (s7&u7&Hx&Hr). apply (kept_Ok (seated config true)) in Hx; [clear Hy|keep|done].
  apply bind_Ok_inv in Hr as (s8&u8&Hy&Hr). apply background_publishes with (config := config) in Hy; [clear Hx|done].
  apply (kept_Ok (publishing config)) in Hr; [done| |done]. keep. by apply kept_process_change.
Qed.

(** Only a node with a seat in the group of the routing table publishes.  A node that was
    built from a configuration and has started runs a publisher if it was told to bootstrap
    and its id is at most the size of the metadata group, and never otherwise: a node of a
    larger cluster that leads a shard has no thread that reports it. *)
Theorem publisher_needs_a_seat config w s s' :
  init config w = Ok s → start metadata_machine tso_machine patience s = (s', Ok tt) →
  _publisher s'.1 = if ClusterConfig.bootstrap config && (ClusterConfig.node_id config <=? ClusterConfig.metadata_group_size config)
                    then Some Running else None.
Proof.
  intros Hi Hr. unfold init in Hi. apply rbind_Ok in Hi as ([]&Hv&[= <-]).
  apply (start_publishes config) in Hr; [|done..]. rewrite Hr.
  assert (1 ≤ ClusterConfig.metadata_group_size config) as Hsz by (apply validate_valid in Hv; apply Hv).
  replace (bool_decide _) with (ClusterConfig.node_id config <=? ClusterConfig.metadata_group_size config); [done|].
  apply Bool.eq_iff_eq_true. rewrite bool_decide_eq_true, elem_of_voters by done. lia.
Qed.

(** *** The stop *)

(** A call of the world changes neither the process, nor its view, nor its nodes. *)
Lemma world_frame {A} (m : M W A) s s' r :
  world m s = (s', r) → s'.1 = s.1 ∧ s'.2.2.1 = s.2.2.1 ∧ s'.2.2.2.1 = s.2.2.2.1.
Proof.
  unfold world, view, runner, RecoveryRunner.call, RecoveryRunner.view, NodeClusterView.world, NodeClusterView.below, outside.
  destruct s as [p [rs [v [ns w]]]]. cbn. destruct (m w) as [w' a]. by intros [= <- <-].
Qed.
Lemma close_storages_frame storages : ∀ s s' r,
  close_storages storages s = (s', r) → s'.1 = s.1 ∧ s'.2.2.1 = s.2.2.1 ∧ s'.2.2.2.1 = s.2.2.2.1.
Proof.
  induction storages as [|x storages IH]; intros s s' r; cbn [close_storages]; [by intros [= <- _]|].
  unfold bind. destruct (world (sw_close x) s) as [s1 a] eqn:Hw. apply world_frame in Hw as (Hp&Hv&Hn).
  destruct a; [|by intros [= <- _]]. intros (Hp'&Hv'&Hn')%IH. by rewrite Hp', Hv', Hn'.
Qed.

Lemma shutdown_nodes_down hs : ∀ (x x' : ShardServer.t * (list (MemoryRaftNode.t machine R) * W)) u,
  ShardServer.shutdown_nodes hs x = (x', Ok u) →
  x'.1 = x.1 ∧ ∀ h, h ∈ hs ∨ down x.2.1 h → down x'.2.1 h.
Proof.
  induction hs as [|h0 hs IH]; intros [v [ns w]] x' u; cbn [ShardServer.shutdown_nodes].
  - intros [= <- _]. set_solver.
  - intros Hr. apply bind_Ok_inv in Hr as (x1&u1&Hx&Hr). apply IH in Hr as [Hv Hd].
    unfold ShardServer.below, on_node in Hx. cbn [fst snd] in Hx. destruct (ns !! h0) as [n|] eqn:Hn; [|done].
    injection Hx as <- _. split; [done|]. intros h Hh. apply Hd. cbn [fst snd]. rewrite elem_of_cons in Hh.
    destruct (decide (h = h0)) as [->|Hne].
    + right. eexists. split; [apply list_lookup_insert_eq; by eapply lookup_lt_Some|done].
    + destruct Hh as [[?|?]|(n'&Hn'&Hdn)]; [done|by left|]. right. exists n'. by rewrite list_lookup_insert_ne.
Qed.

(** Every node this process serves a shard with was shut down. *)
Definition quiet (x : view_state) : Prop :=
  NodeClusterView._node_clients x.1 = false ∧ ∀ i h, NodeClusterView.held i x.1 = Some h → down x.2.1 h.
Definition silent {S} (n : MemoryRaftNode.t S R) : Prop :=
  MemoryRaftNode._shutdown_flag n = true ∧ MemoryRaftNode._state n = FOLLOWER.

Lemma server_quiet (x x' : view_state) u :
  NodeClusterView._node_clients x.1 = false →
  match NodeClusterView.get_shard_server (NodeClusterView.own x.1) x.1 with
  | Some _ => NodeClusterView.on_server ShardServer.shutdown x
  | None => (x, Ok tt)
  end = (x', Ok u) → quiet x'.
Proof.
  destruct x as [v h]. cbn [fst]. intros Hc Hr.
  destruct (NodeClusterView.get_shard_server _ v) as [server|] eqn:Hs.
  - unfold NodeClusterView.on_server in Hr. cbn [fst snd] in Hr. rewrite Hs in Hr.
    destruct (ShardServer.shutdown (server, h)) as [[server' h'] a] eqn:Hd. injection Hr as <- ->.
    unfold ShardServer.shutdown in Hd. apply bind_Ok_inv in Hd as (x1&hs&[= <- <-]&Hd).
    apply shutdown_nodes_down in Hd as [Hv Hd]. cbn in Hv, Hd. subst server'. split; [done|].
    intros i hd. cbn [fst snd]. rewrite held_serve. intros Hi. apply Hd. left. apply list_elem_of_fmap.
    exists (i, hd). split; [done|]. by apply elem_of_map_to_list.
  - injection Hr as <- _. split; [done|]. intros i hd. unfold NodeClusterView.held. cbn. by rewrite Hs.
Qed.
Lemma close_clients_closes (x x' : view_state) u :
  NodeClusterView.close_clients x = (x', Ok u) → NodeClusterView._node_clients x'.1 = false.
Proof.
  unfold NodeClusterView.close_clients. intros Hr. apply bind_Ok_inv in Hr as (x1&b&[= <- <-]&Hr).
  destruct (NodeClusterView._node_clients x.1) eqn:Hb; [|by injection Hr as <- _].
  apply bind_Ok_inv in Hr as (x2&u2&_&[= <- _]). done.
Qed.

(** The fields of a process that has stopped. *)
Definition stopped (p : process) : process :=
  set_started false (set_tso_node (shut <$> _tso_node p) (set_metadata_node (shut <$> _metadata_node p)
    (set_publisher false (option_map (λ _, Stopped) (_publisher p))
      (set_lock_cleaner (option_map (λ _, Stopped) (_lock_cleaner p)) p)))).

Lemma view_frame {A} (m : M view_state A) s s' r :
  view m s = (s', r) → s'.1 = s.1 ∧ m s.2.2 = (s'.2.2, r).
Proof.
  unfold view, runner, RecoveryRunner.call, RecoveryRunner.view. destruct s as [p [rs x]]. cbn.
  destruct (m x) as [x' a]. by intros [= <- <-].
Qed.

Lemma shutdown_stops s s' u :
  _started s.1 = true → shutdown s = (s', Ok u) → s'.1 = stopped s.1 ∧ quiet s'.2.2.
Proof.
  intros Hst Hr. unfold shutdown in Hr. apply bind_Ok_inv in Hr as (s1&b&[= <- <-]&Hr). rewrite Hst in Hr. cbn [negb] in Hr.
  apply bind_Ok_inv in Hr as (s1&u1&Hw&Hr). apply world_frame in Hw as (Hp1&_&_).
  apply bind_Ok_inv in Hr as (s2&u2&[= <- _]&Hr). apply bind_Ok_inv in Hr as (s2&u3&[= <- _]&Hr).
  apply bind_Ok_inv in Hr as (s2&u4&[= <- _]&Hr). apply bind_Ok_inv in Hr as (s2&u5&Hv&Hr).
  apply view_frame in Hv as [Hp2 Hv]. apply close_clients_closes in Hv.
  apply bind_Ok_inv in Hr as (s3&u6&Hv'&Hr). apply view_frame in Hv' as [Hp3 Hv'].
  apply server_quiet in Hv'; [|done]. apply bind_Ok_inv in Hr as (s4&u7&[= <- _]&Hr).
  apply bind_Ok_inv in Hr as (s4&u8&[= <- _]&Hr). apply bind_Ok_inv in Hr as (s4&storages&[= <- _]&Hr).
  apply bind_Ok_inv in Hr as (s4&u9&Hc&Hr). apply close_storages_frame in Hc as (Hp4&Hv4&Hn4).
  apply bind_Ok_inv in Hr as (s5&u10&Hw&Hr). apply world_frame in Hw as (Hp5&Hv5&Hn5).
  apply bind_Ok_inv in Hr as (s6&u11&[= <- _]&Hr). apply world_frame in Hr as (Hp6&Hv6&Hn6). cbn in *. split.
  - rewrite Hp6, Hp5, Hp4, Hp3, Hp2, Hp1. done.
  - unfold quiet. rewrite Hv6, Hv5, Hv4, Hn6, Hn5, Hn4. exact Hv'.
Qed.

(** A node that has stopped is quiet.  When the stop of a started node returns, its publisher
    and its lock cleaner do not run, its clients of the cluster are closed, every Raft node
    behind its shards and its two groups is shut down and leads nothing, and stopping again
    changes nothing. *)
Theorem stopped_node_is_quiet s s' :
  _started s.1 = true → shutdown s = (s', Ok tt) →
  _started s'.1 = false ∧ _publisher s'.1 ≠ Some Running ∧ _lock_cleaner s'.1 ≠ Some Running ∧
  NodeClusterView._node_clients s'.2.2.1 = false ∧
  (∀ i h, NodeClusterView.held i s'.2.2.1 = Some h → down s'.2.2.2.1 h) ∧
  (∀ n, _metadata_node s'.1 = Some n → silent n) ∧ (∀ n, _tso_node s'.1 = Some n → silent n) ∧
  shutdown s' = (s', Ok tt).
Proof.
  intros Hst Hr. apply shutdown_stops in Hr as [Hp [Hc Hd]]; [|done].
  assert (_started s'.1 = false) as Hno by by rewrite Hp.
  assert (shutdown s' = (s', Ok tt)) as Hagain.
  { unfold shutdown. rewrite (bind_run _ _ _ s' false); [done|]. unfold read. by rewrite Hno. }
  split_and!; try done; rewrite ?Hp; cbn.
  - by destruct (_publisher s.1).
  - by destruct (_lock_cleaner s.1).
  - by destruct (_metadata_node s.1); cbn; intros n [= <-].
  - by destruct (_tso_node s.1); cbn; intros n [= <-].
Qed.

(** *** One answer to where a key goes *)

Lemma kept_start_loop x ids : kept (λ v, plan v = x) (ShardServer.start_loop ids : M (ShardServer.t * (list (MemoryRaftNode.t machine R) * W)) unit).
Proof.
  induction ids as [|i ids IH]; cbn [ShardServer.start_loop]; [by apply kept_same|].
  apply kept_bind; [by apply kept_same|intros b]. apply kept_bind; [|by intros].
  destruct b; [|by apply kept_same]. apply kept_bind; [apply add_shard_plan|by intros; apply kept_same].
Qed.
Lemma start_shards_plan x addresses nodes :
  kept (λ v, plan v = x) (ShardServer.start_shards addresses nodes : M (ShardServer.t * (list (MemoryRaftNode.t machine R) * W)) unit).
Proof.
  unfold ShardServer.start_shards. repeat (apply kept_bind; [|intros]); try by apply kept_same.
  - by apply kept_server_change.
  - destruct addresses as [addresses|]; [|by apply kept_same]. apply kept_bind; [by apply kept_same|intros me].
    destruct (addresses !! me); [by apply kept_server_change|by apply kept_same].
  - apply kept_start_loop.
Qed.

(** The table this node routes by and the one its server routes by are one.  Once the shards
    of a node are started, and after any calls of the recovery, the publisher and the stop in
    any order, failed ones included, the view holds this node's server and no other, and
    every key goes to the same shard by the server's ranges as by the view's. *)
Theorem one_map_for_the_node config w s s' ops :
  init config w = Ok s → _start_shards s = (s', Ok tt) →
  let v := (foldl (λ x op, after op x) s'.2.2 ops).1 in
  ∃ server, (∀ n, NodeClusterView.get_shard_server n v = if decide (n = ClusterConfig.node_id config) then Some server else None) ∧
    ShardServer._node_id server = ClusterConfig.node_id config ∧
    ∀ key, ShardServer._get_shard_id key server = locate (NodeClusterView.range_map v) key.
Proof.
  intros Hi Hr v. unfold init in Hi. apply rbind_Ok in Hi as ([]&_&[= <-]).
  assert (in_step_as config s'.2.2.1) as Hs.
  { unfold _start_shards in Hr. apply bind_Ok_inv in Hr as (s1&c&[= <- <-]&Hr).
    apply bind_Ok_inv in Hr as (s1&m&[= <- <-]&Hr). apply view_frame in Hr as [_ Hr].
    cbn [fst snd _config _range_map] in Hr.
    set (x := (new_server _ _, _)) in Hr. pose proof (start_shards_plan (plan x.1) (Some (ClusterConfig.base_addresses config)) ∅ x eq_refl) as Hp.
    destruct (ShardServer.start_shards _ _ x) as [[server h] [u|e]]; [|done]. injection Hr as <-. cbn in Hp |- *.
    by apply serve_in_step. }
  apply (runs_in_step config ops) in Hs as (Hc&Hin&[server Hsv]). fold v in Hc, Hin, Hsv.
  assert (NodeClusterView.own v = ClusterConfig.node_id config) as Hown by (unfold NodeClusterView.own; by rewrite Hc).
  rewrite Hown in Hsv. destruct (Hin _ _ Hsv) as [_ [= Hid Hm]]. exists server. split_and!; [|done|].
  - intros n. case_decide as Hn; [by subst|]. destruct (NodeClusterView.get_shard_server n v) as [u|] eqn:Hu; [|done].
    apply Hin in Hu as [-> _]. by rewrite Hown in Hn.
  - intros key. unfold ShardServer._get_shard_id. by rewrite Hm.
Qed.
End facts.

(** ** The command line *)

Section main.
Context {E W R C MM TM : Type} `{Engine E}.
Abbreviation machine := (MVCCStateMachine.t E * list Z)%type.
Context `{!ServerWorld W machine R} `{!RaftStorage R} `{!Msgpack} `{!RaftNode.StateMachine machine}.
Context `{!ClusterTable W} `{!ClientsHere W} `{!NodeClientFactory W C} `{!NodeClient W C} `{!NodeProcess W R}.
Context `{!RaftNode.StateMachine MM} `{!RaftNode.StateMachine TM} (metadata_machine : MM) (tso_machine : TM).
Context `{!RowCalls (NodeClusterView.t * (list (MemoryRaftNode.t machine R) * W)) C} (patience : nat).

Lemma validate_raises c x : ClusterConfig.validate c = Raise x → x = ValueError.
Proof. unfold ClusterConfig.validate. repeat case_match; by intros [= <-]. Qed.

(** Arguments that name no cluster end the process with 2, and nothing of the machine was
    touched. *)
Lemma refused_arguments_touch_nothing args w :
  config_from_args args = Raise ValueError ∨
    (∃ c, config_from_args args = Ok c ∧ ClusterConfig.validate c ≠ Ok tt) →
  main (C := C) metadata_machine tso_machine patience args w = (w, Ok 2).
Proof.
  unfold main, run_config. intros [->|(c&->&Hv)]; [done|]. unfold ClusterNode.init.
  destruct (ClusterConfig.validate c) as [[]|x] eqn:Hx; [done|].
  by rewrite (validate_raises _ _ Hx).
Qed.
End main.

(** ** Signals *)

Section signals.
Import StopRequest.
Context (has may : string → bool).
Implicit Types s : StopRequest.t.

(** What a signal does in this process. *)
Definition handling s (which : string) : handler := default SIG_DFL (table s !! which).

Lemma handling_insert tb l which h x :
  handling {| table := <[which := h]> tb; _signal_handlers := l |} x
  = if decide (which = x) then h else handling {| table := tb; _signal_handlers := l |} x.
Proof. unfold handling. cbn. rewrite lookup_insert. by case_decide. Qed.

(** What [restore] does: the handlers that were put aside are back, where they may be set. *)
Lemma restore_handling l : ∀ s,
  Forall (λ e, e.2 ≠ Foreign) l → NoDup l.*1 →
  ∃ s', restore may l s = (s', Ok tt) ∧ _signal_handlers s' = _signal_handlers s ∧
    ∀ x, handling s' x = match d_get l x with
                         | Some h => if may x then h else handling s x
                         | None => handling s x
                         end.
Proof.
  induction l as [|[which h] l IH]; intros s Hf Hnd; [by exists s|].
  apply Forall_cons in Hf as [Hh Hf]. apply list.NoDup_cons in Hnd as [Hni Hnd]. cbn in Hh, Hni.
  cbn [restore]. unfold bind, quietly, set_signal. destruct (may which) eqn:Hm; cbn [negb].
  - destruct (IH {| table := <[which := h]> (table s); _signal_handlers := _signal_handlers s |} Hf Hnd)
      as (s' & Hr & Hs & Hx).
    exists s'. split; [by destruct h|]. split; [done|]. intros x. rewrite Hx. cbn [d_get].
    assert (handling {| table := <[which := h]> (table s); _signal_handlers := _signal_handlers s |} x
            = if decide (which = x) then h else handling s x) as -> by apply handling_insert.
    case_decide as Hw; [|done]. subst x. apply d_get_None in Hni. by rewrite Hni, Hm.
  - destruct (IH s Hf Hnd) as (s' & Hr & Hs & Hx). exists s'. split; [exact Hr|]. split; [done|].
    intros x. rewrite Hx. cbn [d_get]. case_decide as Hw; [|done]. subst x.
    apply d_get_None in Hni. by rewrite Hni, Hm.
Qed.

(** One signal being taken over. *)
Lemma install_one which s :
  which ∉ (_signal_handlers s).*1 →
  (if has which then
     quietly (let* h := (λ s, (s, Ok (default SIG_DFL (table s !! which)))) in
              put_aside which h ;;; set_signal may which RequestStop) (pop which)
   else ret tt) s
  = (if has which && may which
     then {| table := <[which := RequestStop]> (table s);
             _signal_handlers := _signal_handlers s ++ [(which, handling s which)] |}
     else s, Ok tt).
Proof.
  intros Hni. destruct (has which); [|done]. cbn [andb]. unfold quietly, bind, put_aside, set_signal.
  destruct (may which); cbn.
  - f_equal. f_equal. by apply d_set_fresh.
  - unfold pop. cbn. destruct s as [tb sh]. cbn in *. do 2 f_equal.
    rewrite d_set_fresh by done. by apply d_pop_last.
Qed.

(** A node gives the signals back.  The handlers of SIGINT and SIGTERM are taken over on
    the way up, where the platform has them and the thread may set them, and from then on
    they ask the node to stop; on the way down each is the handler it was before, provided
    that it was installed from Python, and every other signal is as it was throughout. *)
Theorem signal_handlers_are_restored s x :
  _signal_handlers s = [] →
  handling s "SIGINT" ≠ Foreign → handling s "SIGTERM" ≠ Foreign →
  ∃ s1 s2, _install_signal_handlers has may s = (s1, Ok tt) ∧
    _restore_signal_handlers may s1 = (s2, Ok tt) ∧
    _signal_handlers s2 = [] ∧ handling s2 x = handling s x ∧
    handling s1 x = (if (bool_decide (x = "SIGINT"%string) || bool_decide (x = "SIGTERM"%string))
                        && has x && may x then RequestStop else handling s x).
Proof.
  intros He Hi Ht. unfold _install_signal_handlers, install.
  unfold bind at 1. rewrite install_one by (rewrite He; apply not_elem_of_nil).
  set (s1 := if has "SIGINT" && may "SIGINT" then _ else s).
  assert (handling s1 "SIGTERM" = handling s "SIGTERM") as Ht1.
  { subst s1. by destruct (_ && _); unfold handling; cbn; rewrite ?lookup_insert_ne. }
  assert ("SIGTERM"%string ∉ (_signal_handlers s1).*1) as Hni.
  { subst s1. destruct (_ && _); cbn; rewrite He; [|apply not_elem_of_nil].
    cbn. by intros ?%list_elem_of_singleton. }
  unfold bind at 1. rewrite install_one by done. rewrite Ht1.
  set (s2 := if has "SIGTERM" && may "SIGTERM" then _ else s1). exists s2.
  assert (Forall (λ e, e.2 ≠ Foreign) (_signal_handlers s2)) as Hf.
  { subst s2 s1. destruct (has "SIGTERM" && may "SIGTERM"), (has "SIGINT" && may "SIGINT"); cbn;
      rewrite He; cbn; by repeat constructor. }
  assert (NoDup (_signal_handlers s2).*1) as Hnd.
  { subst s2 s1. destruct (has "SIGTERM" && may "SIGTERM"), (has "SIGINT" && may "SIGINT"); cbn;
      rewrite He; cbn; repeat constructor; set_solver. }
  destruct (restore_handling (_signal_handlers s2) s2 Hf Hnd) as (s3 & Hr & Hs & Hx).
  exists {| table := table s3; _signal_handlers := [] |}. split; [done|]. split.
  { unfold _restore_signal_handlers, bind. by rewrite Hr. }
  split; [done|]. split.
  - change (handling {| table := table s3; _signal_handlers := [] |} x) with (handling s3 x).
    rewrite Hx. clear Hr Hx Hs Hf Hnd Hni Ht1. subst s2 s1.
    destruct (has "SIGTERM" && may "SIGTERM") eqn:HT, (has "SIGINT" && may "SIGINT") eqn:HI;
      zbool; cbn [_signal_handlers table]; rewrite He; cbn [app d_get]; rewrite ?handling_insert;
      repeat case_decide; subst; repeat match goal with Hm : may _ = true |- _ => rewrite Hm end; done.
  - destruct (decide (x = "SIGINT"%string)) as [->|Hxi]; [|destruct (decide (x = "SIGTERM"%string)) as [->|Hxt]].
    + subst s2 s1. destruct (has "SIGTERM" && may "SIGTERM"), (has "SIGINT") eqn:HI, (may "SIGINT") eqn:HM;
        cbn; rewrite ?handling_insert; done.
    + subst s2. destruct (has "SIGTERM"), (may "SIGTERM"); cbn; rewrite ?handling_insert, ?Ht1; done.
    + rewrite !bool_decide_false by done. cbn [orb andb]. subst s2 s1.
      destruct (has "SIGTERM" && may "SIGTERM"), (has "SIGINT" && may "SIGINT");
        cbn [table _signal_handlers]; rewrite ?handling_insert; repeat case_decide; first [done | congruence].
Qed.
End signals.
