(* ===== verification/Cli.v ===== *)
(** The command line: [cli.py], and [SmartClient.connect], which turns the addresses it is
    given into the seeds of a client.

    The four commands are run on a store: the embedded database, or a cluster behind a
    [SmartClient].  Text is its UTF-8 encoding; what is printed is kept, line by line. *)

From Stdlib Require Import ZArith Lia Ascii.
From S2P Require Import Prelude Bytes PyVal PyOps PyText Engine Mvcc StateMachine Dict Router Metadata Local RaftStorage RaftNode Routing Shards Coordinator SmartClient Publisher RecoveryNotes Recovery ShardServer Launcher.

(** ** Seeds *)

(** The ports of the two groups of a node, from the address of its shard 0. *)
Definition seed (server : string) : result (string * string) :=
  match cut_last ":" server with
  | None => Raise ValueError
  | Some (host, port) =>
      let? p := py_int (PStr port) in
      let ports := ports_for p in
      Ok (_address host (NodePorts.metadata ports), _address host (NodePorts.tso ports))
  end.
(** [SmartClient.connect]: the seeds of the table's group and of the clock. *)
Definition connect (servers : list string) : result (list string * list string) :=
  let? seeds := traverse seed servers in Ok (map fst seeds, map snd seeds).

Definition _servers (text : string) : list string :=
  filter (λ address, address ≠ EmptyString) (map strip_text (split_on "," text)).

(** ** Whether a command can be routed *)

(** [sorted(..., key=lambda placed: placed.start)]. *)
Fixpoint insert_start (p : ShardPlacement) (l : list ShardPlacement) : list ShardPlacement :=
  match l with
  | [] => [p]
  | q :: l => if blt (sp_start p) (sp_start q) then p :: q :: l else q :: insert_start p l
  end.
Definition by_start (l : list ShardPlacement) : list ShardPlacement := foldl (λ acc p, insert_start p acc) [] l.

(** The sentences that are reported. *)
Inductive reason :=
  | NoClock (failure : exn)
  | NoTable (failure : exn)
  | NoShard
  | StartsAt (covered : bytes)
  | Gap (covered start : bytes)
  | EndsAt (covered : bytes)
  | NoLeader (shard_id : Z).

(** The loop over the placements: the gap it stops at, or where the last one ends. *)
Fixpoint walk_ranges (covered : bytes) (placements : list ShardPlacement) : reason + bytes :=
  match placements with
  | [] => inr covered
  | p :: placements =>
      if decide (sp_start p ≠ covered) then inl (Gap covered (sp_start p))
      else walk_ranges (sp_end p) placements
  end.
Definition why_not_table (table : RoutingTable) : option reason :=
  match by_start (map snd (rt_shards table)) with
  | [] => Some NoShard
  | (first :: _) as placements =>
      let covered := sp_start first in
      if decide (covered ∉ [[]; [x00]]) then Some (StartsAt covered)
      else
        match walk_ranges covered placements with
        | inl gap => Some gap
        | inr covered =>
            if decide (covered ≠ [xff]) then Some (EndsAt covered)
            else match filter (λ e, sp_leader_id e.2 = None) (rt_shards table) with
                 | (shard_id, _) :: _ => Some (NoLeader shard_id)
                 | [] => None
                 end
        end
  end.

(** The clock, the table and the channels of the client's factory. *)
Class ClusterHandles (V : Type) := {
  hd_get_timestamp : M V Z;
  hd_table : M V RoutingTable;
  hd_close : M V unit
}.

Section wait.
Context {V : Type} `{!ClusterHandles V}.

Definition _why_not_routable : M V (option reason) := λ v,
  match hd_get_timestamp v with
  | (v, Raise e) => if is_runtime_error e then (v, Ok (Some (NoClock e))) else (v, Raise e)
  | (v, Ok _) =>
      match hd_table v with
      | (v, Raise e) => if is_runtime_error e then (v, Ok (Some (NoTable e))) else (v, Raise e)
      | (v, Ok table) => (v, Ok (why_not_table table))
      end
  end.

(** It asks once, and again [polls] times before its deadline. *)
Fixpoint wait_until_routable (polls : nat) : M V unit :=
  let* reason := _why_not_routable in
  match reason with
  | None => ret tt
  | Some _ => match polls with
              | O => raise RuntimeError
              | S polls => wait_until_routable polls
              end
  end.

(** The end of [_open]: a store whose cluster never became ready is closed. *)
Definition open_cluster (polls : nat) : M V unit := λ v,
  match wait_until_routable polls v with
  | (v', Raise e) => if is_runtime_error e then bind hd_close (λ _, raise e) v' else (v', Raise e)
  | (v', Ok _) => (v', Ok tt)
  end.
End wait.

(** ** The commands *)

(** What a command is run on; [cs_delete] answers [False], or anything else. *)
Class CommandStore (W : Type) := {
  cs_get : bytes → M W pyval;
  cs_set : bytes → bytes → M W unit;
  cs_delete : bytes → M W pyval;
  cs_scan : bytes → bytes → M W (list (bytes * bytes));
  cs_close : M W unit
}.

(** The embedded database; [now1] and [now2] are the readings of the clock a write takes. *)
Section local.
Context {E : Type} `{Engine E} (now1 now2 : Z).
Definition local_store : CommandStore (Database.t E) := {|
  cs_get key := let* v := Database.get key None in ret (match v with Some b => PBytes b | None => PNone end);
  cs_set key value := Database.set now1 now2 key value None;
  cs_delete key := Database.delete now1 now2 key None;;; ret PNone;
  cs_scan start end_ := Database.scan start end_ None;
  cs_close := ret tt |}.
End local.

(** A cluster: [ClusterStore], with the level its reads are answered at.  [walk] and [polls]
    bound the questions of a read, [sched] is the order a commit goes over the shards in. *)
Section cluster.
Context {W D C : Type} `{Shards W D} `{Msgpack}.
Abbreviation V := (TransactionCoordinator.t * W)%type.
Context `{NodeClientFactory V C} `{!TableRouter V C} `{!OwnPlacement V} `{!NodeCalls V C} `{!ClusterHandles V}.
Context (walk polls : nat) (sched : list nat) (consistency : string).
Definition cluster_store : CommandStore (SmartClient.t * V) := {|
  cs_get key := SmartClient.get walk polls key consistency;
  cs_set key value := SmartClient.put sched key value;;; ret tt;
  cs_delete key := let* b := SmartClient.delete walk key in ret (PBool b);
  cs_scan start end_ := SmartClient.scan walk start end_ None consistency;
  cs_close := SmartClient.coordinator hd_close |}.
End cluster.

Inductive command :=
  | CGet (key : text)
  | CSet (key value : text)
  | CDelete (key : text)
  | CScan (start_key end_key : text).

(** The words of an address that is no [host:port]. *)
Definition bad_server (address : string) : bool :=
  match cut_last ":" address with
  | None => true
  | Some (host, port) => bool_decide (host = EmptyString) || negb (isdigit (String.list_byte_of_string port))
  end.
(** [_open] up to the choice of a store: the words of a [parser.error], the embedded
    database, or the servers of a cluster. *)
Inductive backend := Usage | Embedded (data_dir : option string) | Cluster (servers : list string).
Definition choose_backend (server data_dir : option string) : backend :=
  let servers := match server with
                 | Some text => if decide (text = EmptyString) then [] else _servers text
                 | None => []
                 end in
  match servers with
  | [] => Embedded data_dir
  | _ => match data_dir with
         | Some _ => Usage
         | None => if existsb bad_server servers then Usage else Cluster servers
         end
  end.

Section commands.
Context {W : Type} `{!CommandStore W}.
Abbreviation st := (list text * W)%type.

Definition store {A} (m : M W A) : M st A := λ s, let '(w, a) := m s.2 in ((s.1, w), a).
Definition print (line : text) : M st unit := λ s, ((s.1 ++ [line], s.2), Ok tt).
Definition lift {A} (r : result A) : M st A := reads (λ _, r).

Fixpoint print_rows (rows : list (bytes * bytes)) : M st unit :=
  match rows with
  | [] => ret tt
  | (k, v) :: rows =>
      let* key := lift (decode_text k) in
      let* value := lift (decode_text v) in
      print (key ++ b_ ": " ++ value);;;
      print_rows rows
  end.

Definition _run (c : command) : M st Z :=
  match c with
  | CGet key =>
      let* value := store (cs_get key) in
      match value with
      | PNone => print (b_ "Key not found");;; ret 1
      | PBytes v => let* line := lift (decode_text v) in print line;;; ret 0
      | _ => raise AttributeError
      end
  | CSet key value => store (cs_set key value);;; print (b_ "OK");;; ret 0
  | CDelete key =>
      let* answer := store (cs_delete key) in
      if decide (answer = PBool false) then print (b_ "Key not deleted");;; ret 1
      else print (b_ "OK");;; ret 0
  | CScan start_key end_key =>
      let* rows := store (cs_scan start_key end_key) in
      print_rows rows;;; ret 0
  end.

(** The [try] of [main] around a store that is open: the words of a failure on one line, and
    the store closed in any case. *)
Definition run_and_close (failure_line : exn → text) (c : command) : M st Z := λ s,
  let '(s1, r) := _run c s in
  let '(s2, r) := match r with
                  | Raise e => if is_runtime_error e then bind (print (failure_line e)) (λ _, ret 1) s1 else (s1, Raise e)
                  | Ok code => (s1, Ok code)
                  end in
  match store cs_close s2 with
  | (s3, Ok _) => (s3, r)
  | (s3, Raise e) => (s3, Raise e)
  end.
End commands.
