(* ===== verification/CliFacts.v ===== *)
(** What the command line relies on before it sends a command, and what it says after. *)

From Stdlib Require Import ZArith Lia Ascii.
From S2P Require Import Prelude Bytes PyVal PyOps PyText Engine Mvcc StateMachine Dict Tso Router Metadata Local RaftStorage RaftNode Routing Shards Coordinator SmartClient Publisher RecoveryNotes Recovery ShardServer Launcher LauncherFacts NodeView NodeViewFacts Cli.

(** ** A table that routes every key *)

Lemma insert_start_perm p l : insert_start p l ≡ₚ p :: l.
Proof.
  induction l as [|q l IH]; cbn; [done|]. destruct (blt _ _); [done|]. rewrite IH. apply Permutation_swap.
Qed.
Lemma by_start_perm l : by_start l ≡ₚ l.
Proof.
  unfold by_start. assert (∀ acc, foldl (λ acc p, insert_start p acc) acc l ≡ₚ acc ++ l) as Hl.
  { induction l as [|p l IH]; intros acc; cbn; [by rewrite app_nil_r|].
    rewrite IH, insert_start_perm. cbn. by rewrite Permutation_middle. }
  apply (Hl []).
Qed.

(** Placements in which each starts where the one before ends cover all that is between the
    start of the first and the end of the last. *)
Lemma walk_ranges_cover placements : ∀ covered last key,
  walk_ranges covered placements = inr last → ble covered key = true → blt key last = true →
  ∃ p, p ∈ placements ∧ in_range (sp_start p) key (sp_end p) = true.
Proof.
  induction placements as [|p placements IH]; intros covered last key; cbn.
  - intros [= ->] Hle Hlt. pose proof (ble_blt_trans _ _ _ Hle Hlt) as Hx. by rewrite blt_irrefl in Hx.
  - destruct (decide (sp_start p ≠ covered)) as [|Hs%dec_stable]; [done|]. intros Hw Hle Hlt.
    destruct (blt key (sp_end p)) eqn:He.
    + exists p. split; [by left|]. unfold in_range. by rewrite Hs, Hle, He.
    + destruct (IH _ _ key Hw) as (q&Hq&Hin); [by unfold ble; rewrite He|done|].
      exists q. split; [by right|done].
Qed.

Lemma why_not_table_none t : why_not_table t = None →
  ∃ first placements, by_start (map snd (rt_shards t)) = first :: placements ∧
    (sp_start first = [] ∨ sp_start first = [x00]) ∧
    walk_ranges (sp_start first) (first :: placements) = inr [xff] ∧
    ∀ i p, (i, p) ∈ rt_shards t → is_Some (sp_leader_id p).
Proof.
  unfold why_not_table. destruct (by_start _) as [|first placements]; [done|].
  destruct (decide _) as [|Hb%dec_stable]; [done|].
  destruct (walk_ranges (sp_start first) (first :: placements)) as [gap|last] eqn:Hw; [done|].
  destruct (decide (last ≠ [xff])) as [|Hlast%dec_stable]; [done|]. subst last.
  destruct (filter _ (rt_shards t)) as [|[i p] l] eqn:Hf; [|done]. intros _. exists first, placements.
  split_and!; [done|set_solver|done|]. intros i p Hip. destruct (sp_leader_id p) eqn:Hl; [by eexists|].
  assert ((i, p) ∈ filter (λ e, sp_leader_id e.2 = None) (rt_shards t)) as Hin by (by apply list_elem_of_filter).
  rewrite Hf in Hin. by apply not_elem_of_nil in Hin.
Qed.

Lemma routable_table_routes t key :
  why_not_table t = None → NoDup (rt_shards t).*1 → ble [x00] key = true → blt key [xff] = true →
  ∃ p, shard_for t key = Some p ∧ in_range (sp_start p) key (sp_end p) = true ∧ is_Some (sp_leader_id p).
Proof.
  intros (first&placements&Hby&Hb&Hw&Hl)%why_not_table_none Hnd Hlo Hhi.
  destruct (walk_ranges_cover _ _ _ key Hw) as (q&Hq&Hin); [|done|].
  { destruct Hb as [-> | ->]; [apply ble_nil|done]. }
  rewrite <-Hby, by_start_perm in Hq. apply list_elem_of_fmap in Hq as ([i q']&->&Hiq). cbn in Hin.
  destruct (locate_in (routes t) key) as (r&Hr&Hk).
  { exists i, (sp_start q', sp_end q'). split; [|done]. apply list_elem_of_fmap. by exists (i, q'). }
  apply list_elem_of_fmap in Hr as ([j p]&[= Hj ->]&Hjp). exists p. split_and!; [|done|by eapply Hl].
  unfold shard_for, shard, route_for. rewrite Hj. by apply d_get_in.
Qed.

(** A wait that ends well has seen the clock give a timestamp and read such a table. *)
Lemma wait_sees_a_table {V} `{!ClusterHandles V} polls : ∀ (v v' : V),
  wait_until_routable polls v = (v', Ok tt) →
  ∃ v1 v2 ts table, hd_get_timestamp v1 = (v2, Ok ts) ∧ hd_table v2 = (v', Ok table) ∧ why_not_table table = None.
Proof.
  induction polls as [|polls IH]; intros v v'; cbn; intros Hr; apply bind_Ok_inv in Hr as (v3&reason&Hw&Hr).
  all: unfold _why_not_routable in Hw; destruct (hd_get_timestamp v) as [v1 [ts|e]] eqn:Ht; [|destruct (is_runtime_error e); simplify_eq].
  all: try (destruct (hd_table v1) as [v2 [table|e]] eqn:Htab; [|destruct (is_runtime_error e); simplify_eq]).
  all: simplify_eq; try done; try by apply IH in Hr.
  all: destruct (why_not_table table) eqn:Hn; [|injection Hr as <-; by exists v, v1, ts, table]; try done.
  by apply IH in Hr.
Qed.

(** A command is sent only to a cluster that can route it.  When the wait before a command
    returns, the clock's group had given a timestamp and then a table was read in which, if
    its shards are filed under their ids, every key from the byte 0 up to the byte 255 is
    routed to a shard whose range holds the key and whose leader is known. *)
Theorem waited_cluster_routes {V} `{!ClusterHandles V} polls (v v' : V) :
  wait_until_routable polls v = (v', Ok tt) →
  ∃ v1 v2 ts table, hd_get_timestamp v1 = (v2, Ok ts) ∧ hd_table v2 = (v', Ok table) ∧
    (NoDup (rt_shards table).*1 → ∀ key, ble [x00] key = true → blt key [xff] = true →
       ∃ p, shard_for table key = Some p ∧ in_range (sp_start p) key (sp_end p) = true ∧ is_Some (sp_leader_id p)).
Proof.
  intros (v1&v2&ts&table&Ht&Htab&Hn)%wait_sees_a_table. exists v1, v2, ts, table. split_and!; [done..|].
  intros Hnd key. by apply routable_table_routes.
Qed.

(** ** Seeds *)

(** The address a node was given for another, or for itself. *)
Definition base_address (c : ClusterConfig.t) (n : Z) : string := default EmptyString (ClusterConfig.base_addresses c !! n).

Lemma seed_of_node c n :
  valid_config c → n ∈ ClusterConfig.node_ids c →
  ∃ m t, seed (base_address c n) = Ok (m, t) ∧
    ClusterConfig.metadata_address c (Some n) = Ok m ∧ ClusterConfig.tso_address c (Some n) = Ok t.
Proof.
  intros [_ _ _ Hnd _ _] (host&port&Hp)%placed_of_id.
  assert (base_address c n = _address host port) as Hb by (unfold base_address; by rewrite (base_lookup _ _ _ _ Hnd Hp)).
  exists (_address host (NodePorts.metadata (ports_for port))), (_address host (NodePorts.tso (ports_for port))).
  unfold seed. rewrite Hb. unfold ClusterConfig.metadata_address, ClusterConfig.tso_address, ClusterConfig._group_address.
  rewrite (base_of_placed _ _ _ _ Hnd Hp), address_cut, int_of_str. done.
Qed.

(** A client finds the groups where the nodes serve them.  For any nodes of a cluster, given
    to a client by the addresses of their shard 0, the seeds the client works out are the
    addresses at which those nodes serve their members of the metadata and the timestamp
    group, in the same order. *)
Theorem seeds_are_where_the_groups_listen c ns :
  ClusterConfig.validate c = Ok tt → Forall (λ n, n ∈ ClusterConfig.node_ids c) ns →
  ∃ metadata tso, connect (map (base_address c) ns) = Ok (metadata, tso) ∧
    traverse (λ n, ClusterConfig.metadata_address c (Some n)) ns = Ok metadata ∧
    traverse (λ n, ClusterConfig.tso_address c (Some n)) ns = Ok tso.
Proof.
  intros Hv%validate_valid. unfold connect. induction 1 as [|n ns Hn _ (ms&ts&Hc&Hm&Ht)]; cbn [map traverse]; [by exists [], []|].
  destruct (seed_of_node c n Hv Hn) as (m&t&Hs&Hm1&Ht1). exists (m :: ms), (t :: ts).
  rewrite Hs, Hm1, Ht1, Hm, Ht. cbn [rbind]. destruct (traverse seed _) as [l|e]; cbn in *; [|done].
  by injection Hc as <- <-.
Qed.

(** ** What is said of a write *)

(** A write the embedded database refuses is reported as done.  For a key the storage does
    not take, [set] prints OK and exits with 0, and the storage is as it was: the commit
    answers no, and nothing looks at the answer. *)
Theorem refused_write_says_ok {E} `{Engine E} now1 now2 key value out (d : Database.t E) :
  x00 ∈ key →
  ∃ d', (@_run _ (local_store now1 now2) (CSet key value) (out, d)) = ((out ++ [b_ "OK"], d'), Ok 0) ∧
    Database._storage d' = Database._storage d.
Proof.
  intros Hk. unfold _run, store, bind, print. cbn [cs_set local_store snd fst].
  assert (∃ d', Database.set now1 now2 key value None d = (d', Ok tt) ∧ Database._storage d' = Database._storage d) as (d'&Hs&Hd).
  { unfold Database.set, Database.begin, Database.txn_set, Database.txn_commit, Database.try_writes, Database.pending,
      Database.object, Database.put, Database.get_timestamp, bind, ret.
    assert (¬ (TransactionState.PENDING ≠ TransactionState.PENDING)) as Hp by tauto.
    destruct (TimestampAllocator.allocate now1 _) as [a1 ts1]. cbn. rewrite lookup_insert_eq. cbn.
    rewrite decide_False by exact Hp. cbn. rewrite lookup_insert_eq. cbn. rewrite decide_False by exact Hp. cbn.
    unfold bind, updates, MVCCStorage.set, _check_user_key. rewrite decide_True by done. cbn. by eexists. }
  exists d'. rewrite Hs. done.
Qed.
