(* ===== verification/SqlParserFacts.v ===== *)
(** The parser reads back the statements it is written. *)

From Stdlib Require Import ZArith Lia Strings.Byte Ascii.
From S2P Require Import Prelude Bytes PyVal PyOps PyText SqlParser.
Import SQLParser.
Local Open Scope regex_scope.

(** ** Matching one piece after another *)

Section pieces.
Implicit Types (c : captures) (k : text → captures → option captures) (s run rest : text).

(** [s] does not start with a character of [p]. *)
Definition stops (p : byte → bool) s : Prop := match s with x :: _ => p x = false | [] => True end.

Lemma seq_lit w r s c k : rmatch (lit w ⋅ r) (w ++ s) c k = rmatch r s c k.
Proof. cbn [rmatch]. apply rmatch_lit. Qed.

Lemma seq_rep p n r run rest c k m :
  forallb p run = true → (n ≤ length run)%nat → stops p rest →
  rmatch r rest c k = Some m → rmatch (Rep true n p ⋅ r) (run ++ rest) c k = Some m.
Proof. intros. cbn [rmatch]. by apply rep_greedy_run. Qed.

Lemma seq_group i p n r run rest c k m :
  forallb p run = true → (n ≤ length run)%nat → stops p rest →
  rmatch r rest (<[i := run]> c) k = Some m →
  rmatch (Group i (Rep true n p) ⋅ r) (run ++ rest) c k = Some m.
Proof. intros ??? Hm. cbn [rmatch]. apply rep_greedy_run; [done..|]. by rewrite take_before. Qed.

Lemma alt_first r1 r2 s c k m : rmatch r1 s c k = Some m → rmatch (r1 ∥ r2) s c k = Some m.
Proof. cbn [rmatch]. by intros ->. Qed.
Lemma alt_second r1 r2 s c k : rmatch r1 s c k = None → rmatch (r1 ∥ r2) s c k = rmatch r2 s c k.
Proof. cbn [rmatch]. by intros ->. Qed.
Lemma group_match i r s c k :
  rmatch (Group i r) s c k = rmatch r s c (λ s' c', k s' (<[i := take (length s - length s') s]> c')).
Proof. done. Qed.
Lemma lit_none x w y s c k : x ≠ y → rmatch (lit (x :: w)) (y :: s) c k = None.
Proof. intros Hxy. cbn. by rewrite bool_decide_false. Qed.

(** A greedy group that ends where the last [lit w] of the text does. *)
Lemma last_group i n run x c k m :
  (n ≤ length run)%nat → k [] (<[i := run]> c) = Some m →
  rmatch (Group i (Rep true n any) ⋅ lit [x]) (run ++ [x]) c k = Some m.
Proof.
  intros Hn Hm. cbn [rmatch]. apply rep_greedy_back; [by apply forallb_forall|done|done| |].
  - rewrite take_before. cbn. by rewrite bool_decide_true.
  - intros [|y u] v Heq Hu; [done|]. injection Heq as -> Heq. symmetry in Heq.
    apply app_eq_nil in Heq as [-> ->]. reflexivity.
Qed.

(** A lazy group that ends at the first place where [r] matches. *)
Lemma seq_lazy i r run rest c k m :
  run ≠ [] → (∀ u v c', run = u ++ v → v ≠ [] → rmatch r (v ++ rest) c' k = None) →
  rmatch r rest (<[i := run]> c) k = Some m →
  rmatch (Group i (Rep false 1 any) ⋅ r) (run ++ rest) c k = Some m.
Proof.
  intros Hne Hno Hm. cbn [rmatch]. apply rep_lazy_run; [by apply forallb_forall| | |].
  - destruct run; [done|cbn; lia].
  - by rewrite take_before.
  - intros u v Heq Hv _. by apply (Hno u v).
Qed.
End pieces.

(** ** Printing *)

Inductive value := VStr (s : text) | VInt (n : Z) | VNull.

Definition print_value (v : value) : text :=
  match v with
  | VStr s => b_ "'" ++ s ++ b_ "'"
  | VInt n => b_ (str_of_Z n)
  | VNull => b_ "NULL"
  end.
(** What is left of it: the parser puts the whole statement in upper case. *)
Definition read_value (v : value) : pyval :=
  match v with VStr s => PStr (str (upper s)) | VInt n => PInt n | VNull => PNone end.

Fixpoint commas (l : list text) : text :=
  match l with
  | [] => []
  | [w] => w
  | w :: l => w ++ b_ "," ++ commas l
  end.

Definition print_insert (table : text) (columns : list text) (values : list value) : text :=
  b_ "INSERT" ++ b_ " " ++ b_ "INTO" ++ b_ " " ++ table ++ b_ " " ++ b_ "(" ++ commas columns ++
  b_ ")" ++ b_ " " ++ b_ "VALUES" ++ b_ " " ++ b_ "(" ++ commas (map print_value values) ++ b_ ")".

Definition print_condition (column operator : text) (v : value) : text :=
  column ++ b_ " " ++ operator ++ b_ " " ++ print_value v.
Definition print_select (columns : list text) (table : text) (condition : option text) : text :=
  b_ "SELECT" ++ b_ " " ++ commas columns ++ b_ " " ++ b_ "FROM" ++ b_ " " ++ table ++
  match condition with Some w => b_ " " ++ b_ "WHERE" ++ b_ " " ++ w | None => [] end.

(** A name: letters, digits and underscores. *)
Definition name (s : text) : Prop := s ≠ [] ∧ forallb is_word s = true.
(** A value the parser can read from a list, and one it can read in a condition. *)
Definition plain (v : value) : Prop :=
  match v with VStr s => ","%byte ∉ s | VInt n => 0 ≤ n | VNull => True end.
Definition comparable (v : value) : Prop :=
  match v with VStr s => "'"%byte ∉ s ∧ x0a ∉ s | VInt n => 0 ≤ n | VNull => False end.

(** ** Characters *)

Lemma word_upper x : is_word x = true → is_word (upper1 x) = true.
Proof. destruct x; vm_compute; done. Qed.
Lemma word_not x : is_word x = true →
  is_sp x = false ∧ x ≠ ","%byte ∧ x ≠ ")"%byte ∧ x ≠ "'"%byte ∧ x ≠ x22.
Proof. destruct x; vm_compute; done. Qed.
Lemma digit_word x : is_digit x = true → is_word x = true ∧ upper1 x = x ∧ lower1 x = x.
Proof. destruct x; vm_compute; done. Qed.
Lemma upper_same x y : y = ","%byte ∨ y = "'"%byte ∨ y = x0a → upper1 x = y → x = y.
Proof. intros [-> |[-> | ->]]; destruct x; vm_compute; done. Qed.

Lemma upper_app a b : upper (a ++ b) = upper a ++ upper b.
Proof. apply map_app. Qed.
Lemma upper_nin y s : y = ","%byte ∨ y = "'"%byte ∨ y = x0a → y ∉ s → y ∉ upper s.
Proof.
  intros Hy Hs (x&Hx&Hin)%list_elem_of_fmap. apply Hs.
  by rewrite <-(upper_same x y Hy (eq_sym Hx)).
Qed.
Lemma name_upper s : name s → name (upper s).
Proof.
  intros [Hne Hw]. split; [by destruct s|]. unfold upper. rewrite forallb_forall in *.
  intros y (x&<-&Hx)%in_map_iff. auto using word_upper.
Qed.
Lemma name_nin s y : name s → is_word y = false → y ∉ s.
Proof.
  intros [_ Hw] Hy Hin. rewrite forallb_forall in Hw. rewrite Hw in Hy; [done|]. by apply list_elem_of_In.
Qed.

(** ** Lists of words *)

Lemma split_nin y s : y ∉ s → split y s = [s].
Proof.
  induction s as [|x s IH]; intros Hy; [done|]. apply not_elem_of_cons in Hy as [Hx Hy]. cbn [split].
  rewrite decide_False by done. by rewrite IH.
Qed.
Lemma split_cons y w s : y ∉ w → split y (w ++ y :: s) = w :: split y s.
Proof.
  induction w as [|x w IH]; intros Hy; cbn [app split]; [by rewrite decide_True|].
  apply not_elem_of_cons in Hy as [Hx Hy]. rewrite decide_False by done. by rewrite IH.
Qed.
Lemma split_commas l : l ≠ [] → Forall (λ w, ","%byte ∉ w) l → split "," (commas l) = l.
Proof.
  intros Hne Hl. induction Hl as [|w l Hw Hl IH]; [done|]. destruct l as [|w' l]; [by apply split_nin|].
  change (commas (w :: w' :: l)) with (w ++ ","%byte :: commas (w' :: l)).
  rewrite split_cons by done. by rewrite IH.
Qed.
Lemma commas_upper l : upper (commas l) = commas (map upper l).
Proof.
  induction l as [|w l IH]; [done|]. destruct l as [|w' l]; [done|].
  change (commas (w :: w' :: l)) with (w ++ b_ "," ++ commas (w' :: l)).
  change (commas (map upper (w :: w' :: l))) with (upper w ++ b_ "," ++ commas (map upper (w' :: l))).
  by rewrite !upper_app, IH.
Qed.
Lemma commas_nonempty w l : w ≠ [] → commas (w :: l) ≠ [].
Proof. intros Hw. destruct l; [done|]. by destruct w. Qed.

Lemma lstrip_id s : stops is_sp s → lstrip s = s.
Proof. destruct s as [|x s]; [done|]. cbn. by intros ->. Qed.
Lemma strip_id s : stops is_sp s → stops is_sp (rev s) → strip s = s.
Proof. intros H1 H2. unfold strip. by rewrite (lstrip_id s), (lstrip_id (rev s)), rev_involutive. Qed.
Lemma name_strip s : name s → strip s = s.
Proof.
  intros [Hne Hw]. rewrite forallb_forall in Hw.
  assert (Hs : ∀ t, (∀ x, In x t → is_word x = true) → stops is_sp t).
  { intros [|x t] Ht; [done|]. apply (word_not x), Ht. by left. }
  apply strip_id; apply Hs; [done|]. intros x Hx. apply Hw. by apply in_rev.
Qed.

Lemma digits_name s : s ≠ [] → forallb is_digit s = true → name s ∧ upper s = s ∧ lower s = s.
Proof.
  intros Hne Hd. rewrite forallb_forall in Hd. split_and!.
  - split; [done|]. apply forallb_forall. intros x Hx. by apply digit_word, Hd.
  - unfold upper. rewrite <-(map_id s) at 2. apply map_ext_in. intros x Hx. by apply digit_word, Hd.
  - unfold lower. rewrite <-(map_id s) at 2. apply map_ext_in. intros x Hx. by apply digit_word, Hd.
Qed.

(** ** Values *)

Lemma quoted_read q s : quoted [q] ([q] ++ s ++ [q]) = true ∧ inner ([q] ++ s ++ [q]) = s.
Proof.
  split.
  - unfold quoted, endswith. rewrite app_assoc, rev_app_distr. cbn.
    rewrite !bool_decide_true by done. done.
  - unfold inner. cbn [app drop length]. rewrite length_app. cbn.
    replace (length s + 1 - 1)%nat with (length s) by lia. apply take_app_length.
Qed.
Lemma name_not_quoted s q : name s → is_word q = false → quoted [q] s = false.
Proof.
  intros [Hne Hw] Hq. destruct s as [|x s]; [done|]. unfold quoted. cbn in *.
  apply andb_true_iff in Hw as [Hx _]. rewrite bool_decide_false; [done|]. intros ->. congruence.
Qed.
Lemma quoted_strip q s : is_sp q = false → strip ([q] ++ s ++ [q]) = [q] ++ s ++ [q].
Proof. intros Hq. apply strip_id; [done|]. by rewrite app_assoc, rev_app_distr. Qed.

Lemma value_read v : plain v → parse_value (upper (print_value v)) = read_value v.
Proof.
  intros Hv. unfold parse_value. destruct v as [s|n|]; cbn [print_value read_value].
  - rewrite !upper_app. change (upper (b_ "'")) with ["'"%byte]. rewrite quoted_strip by done.
    destruct (quoted_read "'" (upper s)) as [Hq Hi]. change (b_ "'") with ["'"%byte]. by rewrite Hq, Hi.
  - destruct (number_read n Hv) as (Hne&Hd&Hz). destruct (digits_name _ Hne Hd) as (Hn&->&_).
    change (b_ "'") with ["'"%byte].
    rewrite (name_strip _ Hn), (name_not_quoted _ "'" Hn), (name_not_quoted _ x22 Hn) by done. unfold isdigit.
    rewrite bool_decide_false, Hd by done. cbn [negb andb]. by rewrite Hz.
  - vm_compute. done.
Qed.
Lemma value_commas v : plain v → ","%byte ∉ upper (print_value v) ∧ upper (print_value v) ≠ [].
Proof.
  intros Hv. destruct v as [s|n|]; cbn [print_value].
  - rewrite !upper_app. split; [|done]. rewrite !elem_of_app.
    intros [Hx|[Hx|Hx]]; [|by apply upper_nin in Hx; auto|];
      change (upper (b_ "'")) with ["'"%byte] in Hx; apply list_elem_of_singleton in Hx; done.
  - destruct (number_read n Hv) as (Hne&Hd&_). destruct (digits_name _ Hne Hd) as (Hn&->&_).
    split; [|done]. by apply (name_nin _ _ Hn).
  - split; [|done]. vm_compute. intros Hx.
    repeat (apply elem_of_cons in Hx as [Hx|Hx]; [done|]). by apply elem_of_nil in Hx.
Qed.

(** ** Statements *)

Lemma insert_match t cs vs :
  name t → cs ≠ [] → ")"%byte ∉ cs → vs ≠ [] →
  re_match insert_pattern (b_ "INSERT" ++ b_ " " ++ b_ "INTO" ++ b_ " " ++ t ++ b_ " " ++ b_ "(" ++ cs ++
    b_ ")" ++ b_ " " ++ b_ "VALUES" ++ b_ " " ++ b_ "(" ++ vs ++ b_ ")")
  = Some (<[3%nat := vs]> (<[2%nat := cs]> (<[1%nat := t]> ∅))).
Proof.
  intros [Hne Hw] Hc Hp Hv. unfold re_match, insert_pattern.
  rewrite seq_lit. apply seq_rep; [done|cbn; lia|done|]. rewrite seq_lit.
  apply seq_rep; [done|cbn; lia| |].
  { destruct t as [|x t]; [done|]. cbn in *. apply andb_true_iff in Hw as [Hx _]. by apply word_not. }
  apply seq_group; [done|destruct t; [done|cbn; lia]|done|].
  apply seq_rep; [done|cbn; lia|done|]. rewrite seq_lit.
  apply seq_lazy; [done| |].
  { intros u [|x v] c' -> Hx; [done|]. cbn. rewrite bool_decide_false; [done|].
    intros <-. apply Hp. apply elem_of_app. right. left. }
  rewrite seq_lit. apply seq_rep; [done|cbn; lia|done|]. rewrite seq_lit.
  apply seq_rep; [done|cbn; lia|done|]. rewrite seq_lit.
  apply last_group; [destruct vs; [done|cbn; lia]|done].
Qed.

Lemma names_commas l : Forall name l → ")"%byte ∉ commas l ∧ Forall (λ w, ","%byte ∉ w) l ∧
  forallb (λ x, negb (is_sp x)) (commas l) = true.
Proof.
  intros Hl. split_and!.
  - induction Hl as [|w l Hw Hl IH]; [by intros ?%elem_of_nil|]. destruct l as [|w' l]; [by apply name_nin|].
    change (commas (w :: w' :: l)) with (w ++ b_ "," ++ commas (w' :: l)). rewrite !elem_of_app.
    intros [Hx|[Hx|Hx]]; [by apply (name_nin w ")" Hw eq_refl)| |done]. by apply list_elem_of_singleton in Hx.
  - eapply Forall_impl; [exact Hl|]. intros w Hw. by apply name_nin.
  - assert (∀ w, name w → forallb (λ x, negb (is_sp x)) w = true) as Hn.
    { intros w [_ Hw]. rewrite forallb_forall in *. intros x Hx. apply negb_true_iff.
      by apply word_not, Hw. }
    induction Hl as [|w l Hw Hl IH]; [done|]. destruct l as [|w' l]; [by apply Hn|].
    change (commas (w :: w' :: l)) with (w ++ b_ "," ++ commas (w' :: l)).
    rewrite !forallb_app, IH, Hn by done. done.
Qed.

Lemma strip_names l : Forall name l → map strip l = l.
Proof.
  intros Hl. rewrite <-(map_id l) at 2. apply map_ext_in. intros w Hw. apply name_strip.
  rewrite list.Forall_forall in Hl. by apply Hl, list_elem_of_In.
Qed.
Lemma names_upper l : Forall name l → Forall name (map upper l).
Proof. intros Hl. apply Forall_map. eapply Forall_impl; [exact Hl|]. apply name_upper. Qed.

(** Text that ends in no white space. *)
Lemma stops_rev s w : w ≠ [] → stops is_sp (rev w) → stops is_sp (rev (s ++ w)).
Proof. intros Hw Hs. rewrite rev_app_distr. destruct w as [|x w] using rev_ind; [done|]. by rewrite rev_app_distr in *. Qed.

Lemma insert_reads table columns values :
  name table → columns ≠ [] → Forall name columns → values ≠ [] → Forall plain values →
  parse (print_insert table columns values) =
    Some (Insert {| is_table := upper table; is_columns := map upper columns;
                    is_values := map read_value values |}).
Proof.
  intros Ht Hc0 Hc Hv0 Hv. unfold parse, print_insert.
  rewrite strip_id; [|done|rewrite !app_assoc; by apply stops_rev].
  rewrite !upper_app, !commas_upper, map_map. cbn [startswith].
  change (startswith (b_ "SELECT") _) with false. change (startswith (b_ "INSERT") _) with true. cbn iota.
  unfold _parse_insert.
  change (upper (b_ "INSERT")) with (b_ "INSERT"). change (upper (b_ "INTO")) with (b_ "INTO").
  change (upper (b_ "VALUES")) with (b_ "VALUES"). change (upper (b_ " ")) with (b_ " ").
  change (upper (b_ "(")) with (b_ "("). change (upper (b_ ")")) with (b_ ")").
  pose proof (names_upper _ Hc) as Hcu. destruct (names_commas _ Hcu) as (Hp&Hcc&_).
  rewrite insert_match; [|by apply name_upper| |done|].
  - cbn [group fmap option_fmap option_map]. unfold group. simplify_map_eq. do 2 f_equal.
    rewrite split_commas, strip_names by (done || by destruct columns).
    rewrite split_commas, map_map; [| |].
    + f_equal. apply map_ext_in. intros v Hin%list_elem_of_In. apply value_read.
      by eapply list.Forall_forall in Hv.
    + by destruct values.
    + apply Forall_map. eapply Forall_impl; [exact Hv|]. intros v Hpv. by apply value_commas.
  - destruct columns as [|w l]; [done|]. apply commas_nonempty.
    apply Forall_cons in Hcu as [[Hne _] _]. done.
  - destruct values as [|v l]; [done|]. apply commas_nonempty. apply Forall_cons in Hv as [Hpv _].
    by apply value_commas.
Qed.

(** *** SELECT *)

Definition column (w : text) : Prop := name w ∨ w = b_ "*".
Definition operator (w : text) : Prop := w ∈ [b_ "="; b_ ">"; b_ "<"; b_ ">="; b_ "<="].

(** A column list has no white space and splits into its columns. *)
Lemma columns_read l : l ≠ [] → Forall column l →
  commas l ≠ [] ∧ forallb (λ x, negb (is_sp x)) (commas l) = true ∧ map strip (split "," (commas l)) = l.
Proof.
  intros Hne Hl.
  assert (Hw : ∀ w, column w → w ≠ [] ∧ forallb (λ x, negb (is_sp x)) w = true ∧ ","%byte ∉ w ∧ strip w = w).
  { intros w [Hw| ->].
    - destruct (names_commas [w]) as (_&Hc&Hs); [by constructor|]. apply Forall_cons in Hc as [Hc _].
      split_and!; [apply Hw|done|done|by apply name_strip].
    - split_and!; [done|done|by intros [?|?%elem_of_nil]%elem_of_cons|done]. }
  split_and!.
  - destruct l as [|w l]; [done|]. apply Forall_cons in Hl as [Hl _]. by apply commas_nonempty, Hw.
  - induction Hl as [|w l Hc Hl IH]; [done|]. destruct l as [|w' l]; [by apply Hw|].
    change (commas (w :: w' :: l)) with (w ++ b_ "," ++ commas (w' :: l)).
    rewrite !forallb_app, IH by done. destruct (Hw w Hc) as (_&->&_). done.
  - rewrite split_commas; [|done|].
    + rewrite <-(map_id l) at 2. apply map_ext_in. intros w Hin%list_elem_of_In.
      rewrite list.Forall_forall in Hl. by apply Hw, Hl.
    + eapply Forall_impl; [exact Hl|]. intros w Hc. by apply Hw.
Qed.

Lemma column_upper w : column w → column (upper w).
Proof. intros [Hw| ->]; [left; by apply name_upper|by right]. Qed.

Lemma select_match cs t (w : option text) :
  cs ≠ [] → forallb (λ x, negb (is_sp x)) cs = true → name t →
  match w with Some c => stops is_sp c ∧ c ≠ [] | None => True end →
  ∃ m, re_match select_pattern (b_ "SELECT" ++ b_ " " ++ cs ++ b_ " " ++ b_ "FROM" ++ b_ " " ++ t ++
      match w with Some c => b_ " " ++ b_ "WHERE" ++ b_ " " ++ c | None => [] end) = Some m ∧
    group m 1 = Some cs ∧ group m 2 = Some t ∧ group m 3 = w.
Proof.
  intros Hc Hs [Hne Hw] Hwh. set (m := <[2%nat := t]> (<[1%nat := cs]> (∅ : captures))).
  exists (match w with Some c => <[3%nat := c]> m | None => m end). split.
  2:{ unfold group, m. destruct w; by simplify_map_eq. }
  assert (Hword : ∀ x r, forallb is_word (x :: r) = true → is_sp x = false).
  { intros x r [Hx _]%andb_true_iff. by apply word_not. }
  unfold re_match, select_pattern. rewrite seq_lit. rewrite forallb_forall in Hs.
  apply seq_rep; [done|cbn; lia| |].
  { destruct cs as [|x cs]; [done|]. apply negb_true_iff, Hs. by left. }
  apply seq_lazy; [done| |].
  { intros u [|x v] c' -> Hx; [done|]. cbn.
    assert (is_sp x = false) as ->; [|done]. apply negb_true_iff, Hs. apply in_app_iff. right. by left. }
  apply seq_rep; [done|cbn; lia|done|]. rewrite seq_lit.
  apply seq_rep; [done|cbn; lia|destruct t; [done|by eapply Hword]|].
  apply seq_group; [done|destruct t; [done|cbn; lia]|by destruct w|].
  fold m. destruct w as [c|]; [|done]. destruct Hwh as [Hc1 Hc2].
  assert (Hin : ∀ k', k' [] (<[3%nat := c]> m) = Some (<[3%nat := c]> m) →
    rmatch (sp1 ⋅ lit (b_ "WHERE") ⋅ sp1 ⋅ Group 3 (Rep true 1 any)) (b_ " " ++ b_ "WHERE" ++ b_ " " ++ c) m k'
    = Some (<[3%nat := c]> m)).
  { intros k' Hk. apply seq_rep; [done|cbn; lia|done|]. rewrite seq_lit.
    apply seq_rep; [done|cbn; lia|done|]. cbn [rmatch].
    apply rep_greedy_all; [by apply forallb_forall|destruct c; [done|cbn; lia]|].
    change (length (@nil byte)) with 0%nat. rewrite Nat.sub_0_r, firstn_all. exact Hk. }
  change (rmatch (Opt ?r) ?s ?c ?k) with (match rmatch r s c k with Some m => Some m | None => k s c end).
  by rewrite Hin.
Qed.

(** The text of a condition's value, after the operator and a space. *)
Definition value_text (V : text) : Prop :=
  (∃ s, V = b_ "'" ++ s ++ b_ "'" ∧ "'"%byte ∉ s ∧ x0a ∉ s) ∨
  (V ≠ [] ∧ forallb is_digit V = true).

Lemma value_match V c k m : value_text V → k [] (<[3%nat := V]> c) = Some m →
  rmatch (Group 3 (lit (b_ "'") ⋅ Rep false 0 dot ⋅ lit (b_ "'") ∥ Rep true 1 is_digit)) V c k = Some m.
Proof.
  intros HV Hk. rewrite group_match. destruct HV as [(s&->&Hq&Hn)|[Hne Hd]].
  - apply alt_first. rewrite seq_lit. cbn [rmatch]. apply rep_lazy_run.
    + apply forallb_forall. intros x Hx%list_elem_of_In. unfold dot. apply negb_true_iff, bool_decide_false.
      intros ->. done.
    + lia.
    + etrans; [apply (rmatch_lit (b_ "'") [])|].
      change (length (@nil byte)) with 0%nat. by rewrite Nat.sub_0_r, firstn_all.
    + intros u [|x v] Heq Hv _; [done|]. apply (lit_none "'" []). intros <-.
      apply Hq. rewrite Heq. apply elem_of_app. right. left.
  - destruct V as [|x V]; [done|]. rewrite alt_second.
    + cbn [rmatch]. apply rep_greedy_all; [done|cbn; lia|].
      change (length (@nil byte)) with 0%nat. by rewrite Nat.sub_0_r, firstn_all.
    + apply (lit_none "'" []). intros <-. done.
Qed.

(** An operator followed by a space: the first alternative that lets the rest match. *)
Lemma operator_match op r V c k m :
  operator op → (∀ s c', rmatch r ("="%byte :: s) c' k = None) →
  rmatch r (b_ " " ++ V) (<[2%nat := op]> c) k = Some m →
  rmatch (Group 2 (lit (b_ "=") ∥ lit (b_ ">") ∥ lit (b_ "<") ∥ lit (b_ ">=") ∥ lit (b_ "<=")) ⋅ r)
    (op ++ b_ " " ++ V) c k = Some m.
Proof.
  intros Hop Hno Hr. cbn [rmatch].
  rewrite <-(take_before op (b_ " " ++ V)) in Hr. unfold operator in Hop.
  repeat (apply elem_of_cons in Hop as [-> |Hop];
    [cbn; repeat (rewrite Hno; cbn); cbn in Hr; by rewrite Hr|]).
  by apply elem_of_nil in Hop.
Qed.

Lemma where_match C op V :
  name C → operator op → value_text V → stops is_sp V →
  re_match where_pattern (C ++ b_ " " ++ op ++ b_ " " ++ V) =
    Some (<[3%nat := V]> (<[2%nat := op]> (<[1%nat := C]> ∅))).
Proof.
  intros [Hne Hw] Hop HV Hs. unfold re_match, where_pattern.
  apply seq_group; [done|destruct C; [done|cbn; lia]|done|].
  apply seq_rep; [done|cbn; lia| |].
  { unfold operator in Hop. repeat (apply elem_of_cons in Hop as [-> |Hop]; [done|]). by apply elem_of_nil in Hop. }
  apply operator_match; [done|done|].
  apply seq_rep; [done|cbn; lia|done|]. by apply value_match.
Qed.

Lemma condition_text v : comparable v → value_text (upper (print_value v)) ∧ stops is_sp (upper (print_value v)).
Proof.
  intros Hv. destruct v as [s|n|]; [|by apply (number_read n) in Hv as (Hne&Hd&_);
    destruct (digits_name _ Hne Hd) as (Hn&Hu&_); cbn [print_value]; rewrite Hu; split;
    [by right|destruct (b_ (str_of_Z n)); [done|]; destruct Hn as [_ [Hx _]%andb_true_iff]; by apply word_not]|done].
  destruct Hv as [Hq Hn]. cbn [print_value]. rewrite !upper_app. split; [|done].
  left. exists (upper s). split_and!; [done|apply upper_nin; auto..].
Qed.

Lemma condition_value v : comparable v →
  (if quoted (b_ "'") (upper (print_value v)) then PStr (str (inner (upper (print_value v))))
   else if isdigit (upper (print_value v)) then PInt (int_of_digits (upper (print_value v)))
   else PStr (str (upper (print_value v)))) = read_value v.
Proof.
  intros Hv. destruct v as [s|n|]; [| |done]; cbn [print_value read_value].
  - rewrite !upper_app. change (upper (b_ "'")) with ["'"%byte]. change (b_ "'") with ["'"%byte].
    destruct (quoted_read "'" (upper s)) as [Hq Hi]. by rewrite Hq, Hi.
  - destruct (number_read n Hv) as (Hne&Hd&Hz). destruct (digits_name _ Hne Hd) as (Hn&->&_).
    change (b_ "'") with ["'"%byte]. rewrite (name_not_quoted _ "'" Hn) by done.
    unfold isdigit. rewrite bool_decide_false, Hd by done. cbn [negb andb]. by rewrite Hz.
Qed.

Lemma print_select_upper columns table w :
  upper (print_select columns table w) =
  b_ "SELECT" ++ b_ " " ++ commas (map upper columns) ++ b_ " " ++ b_ "FROM" ++ b_ " " ++ upper table ++
  match upper <$> w with Some c => b_ " " ++ b_ "WHERE" ++ b_ " " ++ c | None => [] end.
Proof. unfold print_select. destruct w; cbn [fmap option_fmap option_map]; by rewrite !upper_app, commas_upper. Qed.

Lemma operator_upper op : operator op → upper op = op.
Proof.
  unfold operator. intros Hop. repeat (apply elem_of_cons in Hop as [-> |Hop]; [done|]).
  by apply elem_of_nil in Hop.
Qed.

Lemma select_read columns table w :
  columns ≠ [] → Forall column columns → name table →
  match upper <$> w with Some c => stops is_sp c ∧ c ≠ [] | None => True end →
  stops is_sp (rev (print_select columns table w)) →
  parse (print_select columns table w) =
    Some (Select {| ss_table := upper table; ss_columns := map upper columns; ss_where_clause := upper <$> w |}).
Proof.
  intros Hc0 Hc Ht Hw Hend. unfold parse. rewrite strip_id by (done || apply Hend).
  rewrite print_select_upper. change (startswith (b_ "SELECT") (b_ "SELECT" ++ _)) with true. cbn iota.
  assert (Forall column (map upper columns)) as Hcu
    by (apply Forall_map; eapply Forall_impl; [exact Hc|]; apply column_upper).
  destruct (columns_read (map upper columns)) as (Hne&Hsp&Hsplit); [by destruct columns|done|].
  destruct (select_match (commas (map upper columns)) (upper table) (upper <$> w)) as (m&Hm&G1&G2&G3);
    [done|done|by apply name_upper|done|].
  unfold _parse_select. rewrite Hm, G1, G2, G3, Hsplit. done.
Qed.

Lemma name_ends s : name s → s ≠ [] ∧ stops is_sp (rev s) ∧ stops is_sp s.
Proof.
  intros [Hne Hw]. rewrite forallb_forall in Hw.
  assert (∀ t, (∀ x, In x t → In x s) → stops is_sp t) as Hs.
  { intros [|x t] Ht; [done|]. apply (word_not x), Hw, Ht. by left. }
  split_and!; [done| |]; apply Hs; [|done]. intros x Hx. by apply in_rev.
Qed.

Lemma select_reads columns table col op v :
  columns ≠ [] → Forall column columns → name table → name col → operator op → comparable v →
  parse (print_select columns table None) =
    Some (Select {| ss_table := upper table; ss_columns := map upper columns; ss_where_clause := None |}) ∧
  ∃ clause,
    parse (print_select columns table (Some (print_condition col op v))) =
      Some (Select {| ss_table := upper table; ss_columns := map upper columns;
                      ss_where_clause := Some clause |}) ∧
    parse_where_condition clause = Some (upper col, op, read_value v).
Proof.
  intros Hc0 Hc Ht Hcol Hop Hv. destruct (condition_text v Hv) as [HV Hs].
  pose proof (name_upper _ Hcol) as Hcu. split.
  - rewrite select_read; [done..| |].
    + done.
    + unfold print_select. rewrite app_nil_r, !app_assoc. destruct (name_ends table Ht) as (?&?&?).
      by apply stops_rev.
  - exists (upper (print_condition col op v)). split.
    + apply (select_read columns table (Some (print_condition col op v))); [done..| |].
      * cbn. unfold print_condition. rewrite upper_app. destruct (name_ends _ Hcu) as (Hne&_&Hst).
        split; [by destruct (upper col)|by destruct (upper col)].
      * unfold print_select, print_condition. rewrite !app_assoc. apply stops_rev.
        -- destruct v as [s|n|]; [done| |done]. by apply number_read.
        -- destruct v as [s|n|]; [|apply (number_read n) in Hv as (Hne&Hd&_);
             apply (name_ends (b_ (str_of_Z n))), digits_name; done|done].
           cbn [print_value]. rewrite app_assoc. by apply stops_rev.
    + unfold parse_where_condition, print_condition. rewrite !upper_app, (operator_upper op Hop).
      change (upper (b_ " ")) with (b_ " "). rewrite (where_match _ _ _ Hcu Hop HV Hs).
      unfold group. simplify_map_eq. by rewrite (condition_value v Hv).
Qed.

(** Statements that were printed are read back, all of it in upper case.  An INSERT
    gives its table, columns and values; names are of word characters, and a quoted value
    may contain anything but a comma, parentheses and quotes included.  A SELECT, with or
    without a condition, gives its columns (or the star), its table and its condition, and
    the condition is read as its column, its operator - any of the five - and its value. *)
Theorem statements_are_read_back table columns values col op v :
  name table → columns ≠ [] → values ≠ [] → Forall plain values →
  name col → operator op → comparable v →
  (Forall name columns →
   parse (print_insert table columns values) =
     Some (Insert {| is_table := upper table; is_columns := map upper columns;
                     is_values := map read_value values |})) ∧
  (Forall column columns →
   parse (print_select columns table None) =
     Some (Select {| ss_table := upper table; ss_columns := map upper columns; ss_where_clause := None |}) ∧
   ∃ clause,
     parse (print_select columns table (Some (print_condition col op v))) =
       Some (Select {| ss_table := upper table; ss_columns := map upper columns;
                       ss_where_clause := Some clause |}) ∧
     parse_where_condition clause = Some (upper col, op, read_value v)).
Proof. intros. split; [by intros; apply insert_reads|]. intros. by apply select_reads. Qed.
