(* ===== verification/SqlExecutor.v ===== *)
(** The SQL executor of [sql/executor.py]: statements over the shards of a cluster.

    It reaches a key's leader as any client does ([ShardLeaders], without a routing table)
    and reads ranges from every replica that does not refuse.  [SqlCluster] is what else it
    uses of the cluster, and the clock. *)

From Stdlib Require Import ZArith Lia Strings.Byte.
From S2P Require Import Prelude Bytes PyVal PyOps PyText Engine Mvcc StateMachine Dict Router Routing Shards Coordinator SmartClient SqlParser.

Class SqlCluster (W : Type) := {
  sq_shard_ids : M W (list Z);
  sq_shard_replica_ids : Z → M W (list Z);
  sq_time : M W Z  (** [int(time.time() * 1000000)] *)
}.

Module SQLExecutor.
Section executor.
Context `{PyRepr} `{Msgpack} {W C : Type} `{NodeClientFactory W C} `{!TableRouter W C}
  `{!OwnPlacement W} `{!NodeCalls W C} `{!SqlCluster W}.

(** The executor's one changing field, [_leaders], beside the world. *)
Abbreviation st := (ShardLeaders.t * W)%type.
Definition init : ShardLeaders.t := ShardLeaders.init false.

Definition world {A} (m : M W A) : M st A := ShardLeaders.world m.
Definition lift {A} (r : result A) : M st A := reads (λ _, r).

(** [f"{table}:{value}".encode()]. *)
Definition row_key (table : text) (value : pyval) : bytes := table ++ b_ ":" ++ b_ (py_str value).

(** [s.split(":", 1)[1]], for text that has a colon. *)
Fixpoint after_colon (s : text) : text :=
  match s with
  | [] => []
  | x :: s => if decide (x = ":"%byte) then s else after_colon s
  end.

(** A stored row: the dictionary it was packed from, when it was packed from one. *)
Definition as_row (value : bytes) : option pyval :=
  match unpackb value with Ok (PDict d) => Some (PDict d) | _ => None end.

(** One shard's replicas, and then every shard's. *)
Fixpoint rows_from_replicas (shard_id : Z) (start_key end_key : bytes) (nodes : list Z)
    : M st (list (bytes * bytes)) :=
  match nodes with
  | [] => ret []
  | node_id :: nodes =>
      let* client := world (nf_get_client shard_id node_id None) in
      match client with
      | None => rows_from_replicas shard_id start_key end_key nodes
      | Some c => λ s,
          match world (nc_scan c start_key end_key None None) s with
          | (s', Ok rows) =>
              (let* rest := rows_from_replicas shard_id start_key end_key nodes in ret (rows ++ rest)) s'
          | (s', Raise (ScanRefused code key address)) =>
              if decide (code = ErrorCode.ERR_NOT_LEADER)
              then rows_from_replicas shard_id start_key end_key nodes s'
              else (s', Raise (ScanRefused code key address))
          | (s', Raise e) => (s', Raise e)
          end
      end
  end.
Fixpoint rows_from_shards (start_key end_key : bytes) (ids : list Z) : M st (list (bytes * bytes)) :=
  match ids with
  | [] => ret []
  | shard_id :: ids =>
      let* nodes := world (sq_shard_replica_ids shard_id) in
      let* rows := rows_from_replicas shard_id start_key end_key nodes in
      let* rest := rows_from_shards start_key end_key ids in
      ret (rows ++ rest)
  end.
Definition _rows_from_every_shard (start_key end_key : bytes) : M st (list (bytes * bytes)) :=
  let* ids := world sq_shard_ids in rows_from_shards start_key end_key ids.

Definition full_scan_row (table : text) (r : bytes * bytes) : result (list pyval) :=
  let? key := decode_text r.1 in
  if startswith (table ++ b_ ":") key then
    let? value := decode_text r.2 in
    Ok [PDict [(str (after_colon key), PStr (str value))]]
  else Ok [].
Definition _execute_full_scan (stmt : SelectStatement) : M st (list pyval) :=
  let* rows := _rows_from_every_shard [] [xff] in
  let* results := lift (traverse (full_scan_row (ss_table stmt)) rows) in
  ret (concat results).

Definition keep_row (table : text) (r : bytes * bytes) : result (list (bytes * bytes)) :=
  let? key := decode_text r.1 in
  Ok (if startswith (table ++ b_ ":") key then [r] else []).
Definition show_row (r : bytes * bytes) : result pyval :=
  let? key := decode_text r.1 in
  match as_row r.2 with
  | Some row => Ok row
  | None => let? value := decode_text r.2 in Ok (PDict [(str (after_colon key), PStr (str value))])
  end.
Definition _execute_range_scan (stmt : SelectStatement) (operator : text) (value : pyval)
    : M st (list pyval) :=
  let table_name := lower (ss_table stmt) in
  let value_bytes := row_key table_name value in
  let start_key := if decide (operator = b_ ">") then next_key value_bytes
                   else if decide (operator = b_ ">=") then value_bytes else [] in
  let end_key := if decide (operator = b_ "<") then value_bytes
                 else if decide (operator = b_ "<=") then next_key value_bytes else [xff] in
  let* rows := _rows_from_every_shard start_key end_key in
  let* kept := lift (traverse (keep_row table_name) rows) in
  let sorted_results := merge_sort row_le (concat kept) in
  lift (traverse show_row sorted_results).

(** The read of one key; a node answers bytes, or [None] for a key that is not there. *)
Definition select_one (column : text) (key : bytes) : M st (list pyval) :=
  let* client := ShardLeaders.leader_for_key key in
  match client with
  | None => ret []
  | Some c =>
      let* answer := world (nc_get c key None None) in
      match rr_success answer.1, rr_value answer.1 with
      | true, PBytes (x :: v) =>
          match as_row (x :: v) with
          | Some row => ret [row]
          | None => let* s := lift (decode_text (x :: v)) in ret [PDict [(str (lower column), PStr (str s))]]
          end
      | _, _ => ret []
      end
  end.

Definition _execute_select (stmt : SelectStatement) : M st (list pyval) :=
  let where_condition :=
    match ss_where_clause stmt with
    | Some (x :: w) => SQLParser.parse_where_condition (x :: w)
    | _ => None
    end in
  match where_condition with
  | Some (column, operator, value) =>
      if decide (operator = b_ "=") then select_one column (row_key (lower (ss_table stmt)) value)
      else _execute_range_scan stmt operator value
  | None => _execute_full_scan stmt
  end.

(** [{col.lower(): val for col, val in zip(columns, values)}]. *)
Definition insert_row (stmt : InsertStatement) : list (string * pyval) :=
  d_of (zip (map (λ c, str (lower c)) (is_columns stmt)) (is_values stmt)).

(** The proposal's answer is not looked at. *)
Definition _execute_insert (stmt : InsertStatement) : M st (list pyval) :=
  match is_columns stmt, is_values stmt with
  | _ :: _, row_id :: _ =>
      let key := row_key (lower (is_table stmt)) row_id in
      let* client := ShardLeaders.leader_for_key key in
      match client with
      | None => ret []
      | Some c =>
          let* value_bytes := lift (packb (PDict (insert_row stmt))) in
          let* timestamp := world sq_time in
          let* command := lift (serialize_command CommandType.SET
            [("key"%string, PBytes key); ("value"%string, PBytes value_bytes);
             ("timestamp"%string, PInt timestamp)]) in
          world (nc_propose c command);;;
          ret [PDict [("result"%string, PStr "inserted")]]
      end
  | _, _ => ret []
  end.

Definition execute (sql : text) : M st (list pyval) :=
  match SQLParser.parse sql with
  | Some (Select s) => _execute_select s
  | Some (Insert s) => _execute_insert s
  | None => ret []
  end.
End executor.
End SQLExecutor.
