(* ===== verification/SqlFacts.v ===== *)
(** What the SQL layer promises over a cluster in one process ([LocalCluster]): an inserted
    row is what a SELECT on its key finds; and what it does not. *)

From Stdlib Require Import ZArith Lia Strings.Byte.
From S2P Require Import Prelude Bytes PyVal PyOps PyText Engine Mvcc StateMachine StateMachineFacts Dict Router Routing Shards Coordinator CoordinatorFacts ClusterRuns SmartClient SqlParser SqlParserFacts SqlExecutor.
Import MVCCStorage MVCCStateMachine.

#[local] Existing Instances MemoryEngine.engine MemoryEngine.laws.

(** ** A SET at a newer timestamp is what is read *)

Section machine.
Context {E : Type} `{EngineLaws E} `{!Msgpack}.

Lemma apply_plain_set_run now k v ts (e : E) last :
  no_sep k → valid_ts ts →
  apply_op now (OSet k v ts None) (mk e last)
  = (mk (e_put e (Mvcc.row_key x01 k ts) (x01 :: v)) (Z.max ts last), apply_success None).
Proof.
  intros Hk Ht. unfold apply_op. rewrite dispatch_op. unfold _apply_set.
  rewrite (lift_run (PBytes k)), (lift_run (PBytes v)) by done.
  unfold bind at 1, reads at 1. cbn [_last_applied_timestamp].
  rewrite (lift_run (PInt ts)), (lift_run k), (lift_run ts), (lift_run v) by done.
  erewrite write_run by (by apply set_Ok). rewrite (lift_run PNone) by done.
  rewrite decide_True by done. rewrite bind_ret. unfold with_storage. cbn [_storage _last_applied_timestamp].
  by rewrite bump_run.
Qed.

Lemma read_after_set k v ts (e : E) last :
  store_inv e → no_sep k → valid_ts ts → last ≤ ts → get_newest_lock e k = Ok None →
  get (mk (e_put e (Mvcc.row_key x01 k ts) (x01 :: v)) (Z.max ts last)) k None
  = Ok (read_success (PBytes v) ts).
Proof.
  intros Hi Hk Ht Hl Hlock. rewrite Z.max_l by lia.
  set (e' := e_put e (Mvcc.row_key x01 k ts) (x01 :: v)).
  assert (Hi' : store_inv e').
  { apply (sm_step_inv (mk e last) (mk e' (Z.max ts last))); [|done]. eapply st_set. by apply set_Ok. }
  assert (He : ∀ ns t, entry e' ns k t = if decide (ns = x01 ∧ t = ts) then Some (x01 :: v) else entry e ns k t).
  { intros ns t. unfold e'. rewrite row_key_put by done. repeat case_decide; naive_solver. }
  assert (Hlock' : get_newest_lock e' k = Ok None).
  { destruct (store_inv_newest_lock e k Hi Hk) as [[Hno _]|(?&?&?&?&_&_&_&Hx)]; [|congruence].
    rewrite (get_newest_lock_newest _ _ None); [done|by apply inv_wf|done|]. intros t.
    rewrite He, decide_False by (by intros []). apply Hno. }
  destruct (get_rule (mk e' ts) k None Hi' Hk) as (o&Hv&->).
  { cbn. destruct Ht. lia. }
  cbn [_storage _last_applied_timestamp default] in *. rewrite Hlock'.
  assert (visible (hist e' k) ts (Some (v, ts))) as Hnew.
  { cbn. split_and!; [|lia|intros; lia]. unfold hist. by rewrite He, decide_True. }
  by rewrite (visible_unique _ _ _ _ Hv Hnew).
Qed.
End machine.

(** ** The executor over a cluster in one process *)

Module LocalSql.
Section local.
Context `{PyRepr} `{!Msgpack}.
Abbreviation W := LocalCluster.t.

(** A handle is the number of the shard it reaches; every shard has one node, 0. *)
#[global] Instance factory : NodeClientFactory W Z := {|
  nf_get_client s _ _ := reads (λ w, Ok (const s <$> LocalCluster.c_machines w !! s));
  nf_get_client_at _ _ := ret None;
  nf_forget_client _ _ := ret tt;
  nf_address _ := None
|}.
#[global] Instance no_router : TableRouter W Z := {|
  rt_leader_for_shard _ := ret None;
  rt_any_replica_for _ := ret None;
  rt_replica_addresses _ := ret [];
  rt_routes := ret [];
  rt_shard_for _ := ret None;
  rt_refresh_for_shard _ := ret tt;
  rt_invalidate _ := ret tt
|}.
#[global] Instance own : OwnPlacement W := {|
  cl_shard_leader s := reads (λ w, Ok (const 0 <$> LocalCluster.c_machines w !! s));
  cl_range_map := reads (λ w, Ok (LocalCluster.c_ranges w))
|}.
#[global] Instance calls : NodeCalls W Z := {|
  nc_get s key ts _ := reads (λ w, let? r := get (LocalCluster.machine_of w s) key ts in Ok (r, None));
  nc_propose s command :=
    let* r := LocalCluster.propose s command in
    ret (default (apply_failure ErrorCode.ERR_UNKNOWN) r, None);
  nc_scan s start end_ ts _ := reads (λ w,
    let? rows := scan (LocalCluster.machine_of w s) start end_ ts in
    traverse (λ r, let? v := as_bytes r.2 in Ok (r.1, v)) rows);
  nc_monotonic := ret 0
|}.
#[global] Instance nodes : SqlCluster W := {|
  sq_shard_ids := reads (λ w, Ok (LocalCluster.c_ranges w).*1);
  sq_shard_replica_ids _ := ret [0];
  sq_time := reads (λ w, Ok (LocalCluster.c_now w))
|}.
End local.
End LocalSql.

Section sql.
Context `{PyRepr} `{!Msgpack}.
Abbreviation W := LocalCluster.t.
Abbreviation start := SQLExecutor.init.

Lemma leader_here key (w : W) m :
  LocalCluster.c_machines w !! locate (LocalCluster.c_ranges w) key = Some m →
  ShardLeaders.leader_for_key key (start, w)
  = ((start, w), Ok (Some (locate (LocalCluster.c_ranges w) key))).
Proof.
  intros Hm. unfold ShardLeaders.leader_for_key, ShardLeaders.shard_for_key.
  rewrite (bind_run _ _ (start, w) (start, w) (Some (locate (LocalCluster.c_ranges w) key))) by done.
  revert Hm. generalize (locate (LocalCluster.c_ranges w) key) as s. intros s Hm.
  unfold ShardLeaders.leader_for_shard.
  rewrite (bind_run _ _ (start, w) (start, w) None).
  2:{ unfold ShardLeaders._take_hint, ShardLeaders.mine. cbn. by rewrite lookup_empty, delete_empty. }
  rewrite bind_ret, (bind_run _ _ (start, w) (start, w) None) by done.
  rewrite (bind_run _ _ (start, w) (start, w) false) by done.
  assert (∀ A (a : A), reads (λ w, Ok (const a <$> LocalCluster.c_machines w !! s)) w = (w, Ok (Some a))) as Hr.
  { intros A a. unfold reads. by rewrite Hm. }
  rewrite (bind_run _ _ (start, w) (start, w) (Some 0)); unfold ShardLeaders.world; cbn [fst snd]; [|].
  - cbn [nf_get_client LocalSql.factory]. by rewrite (Hr Z s).
  - cbn [cl_shard_leader LocalSql.own]. by rewrite (Hr Z 0).
Qed.

Lemma lower_upper1 x : lower1 (upper1 x) = lower1 x.
Proof. destruct x; vm_compute; reflexivity. Qed.
Lemma lower_upper s : lower (upper s) = lower s.
Proof. unfold lower, upper. rewrite map_map. apply map_ext. apply lower_upper1. Qed.

(** The INSERT of a parsed statement, on a shard that takes it. *)
Lemma insert_run stmt c cols id vals (w : W) e last b cmd :
  let key := SQLExecutor.row_key (lower (is_table stmt)) id in
  let shard := locate (LocalCluster.c_ranges w) key in
  is_columns stmt = c :: cols → is_values stmt = id :: vals →
  LocalCluster.c_machines w !! shard = Some (mk e last) → no_sep key → valid_ts (LocalCluster.c_now w) →
  packb (PDict (SQLExecutor.insert_row stmt)) = Ok b →
  serialize_command (op_type (OSet key b (LocalCluster.c_now w) None))
    (op_kwargs (OSet key b (LocalCluster.c_now w) None)) = Ok cmd →
  SQLExecutor._execute_insert stmt (start, w) =
    ((start, LocalCluster.with_machine shard
        (mk (e_put e (Mvcc.row_key x01 key (LocalCluster.c_now w)) (x01 :: b))
            (Z.max (LocalCluster.c_now w) last)) w),
     Ok [PDict [("result"%string, PStr "inserted")]]).
Proof.
  intros key shard Hc Hv Hm Hk Ht Hb Hcmd. unfold SQLExecutor._execute_insert. rewrite Hc, Hv. fold key.
  rewrite (bind_run _ _ _ _ _ (leader_here key w _ Hm)). fold shard.
  rewrite (bind_run _ _ _ (start, w) b) by (unfold SQLExecutor.lift, reads; by rewrite Hb).
  rewrite (bind_run _ _ _ (start, w) (LocalCluster.c_now w)) by done.
  rewrite (bind_run _ _ _ (start, w) cmd) by (unfold SQLExecutor.lift, reads; by rewrite <-Hcmd).
  unfold bind at 1, SQLExecutor.world, ShardLeaders.world. cbn [fst snd nc_propose LocalSql.calls].
  unfold bind at 1, LocalCluster.propose. rewrite Hm, (apply_serialized _ _ _ _ Hcmd).
  by rewrite apply_plain_set_run.
Qed.

(** The SELECT of one key that reads [b]. *)
Lemma select_run column key (w : W) m x b ts row :
  LocalCluster.c_machines w !! locate (LocalCluster.c_ranges w) key = Some m →
  get m key None = Ok (read_success (PBytes (x :: b)) ts) → SQLExecutor.as_row (x :: b) = Some row →
  SQLExecutor.select_one column key (start, w) = ((start, w), Ok [row]).
Proof.
  intros Hm Hg Hr. unfold SQLExecutor.select_one. rewrite (bind_run _ _ _ _ _ (leader_here key w _ Hm)).
  rewrite (bind_run _ _ _ (start, w) (read_success (PBytes (x :: b)) ts, None)).
  2:{ unfold SQLExecutor.world, ShardLeaders.world, reads. cbn. unfold LocalCluster.machine_of. rewrite Hm. cbn.
      by rewrite Hg. }
  cbn [fst rr_success rr_value read_success]. by rewrite Hr.
Qed.

(** C29: An inserted row is found by its key.  After an INSERT, as text, on a shard whose
    clock is not behind what it has applied and whose key holds no lock, a SELECT, as text,
    with an equality on the first value returns the inserted row: every column, in lower
    case, with its value.  The column the condition names makes no difference. *)
Theorem inserted_row_is_selected (w : W) table c cols id vals columns col e last :
  let stmt := {| is_table := upper table; is_columns := map upper (c :: cols);
                 is_values := map read_value (id :: vals) |} in
  let key := SQLExecutor.row_key (lower table) (read_value id) in
  name table → Forall name (c :: cols) → Forall plain (id :: vals) → comparable id →
  columns ≠ [] → Forall column columns → name col →
  LocalCluster.c_machines w !! locate (LocalCluster.c_ranges w) key = Some (mk e last) →
  store_inv e → no_sep key → get_newest_lock e key = Ok None →
  valid_ts (LocalCluster.c_now w) → last ≤ LocalCluster.c_now w →
  (∃ b, packb (PDict (SQLExecutor.insert_row stmt)) = Ok b ∧
        is_Ok (serialize_command CommandType.SET (op_kwargs (OSet key b (LocalCluster.c_now w) None)))) →
  ∃ w',
    SQLExecutor.execute (print_insert table (c :: cols) (id :: vals)) (start, w)
      = ((start, w'), Ok [PDict [("result"%string, PStr "inserted")]]) ∧
    SQLExecutor.execute (print_select columns table (Some (print_condition col (b_ "=") id))) (start, w')
      = ((start, w'), Ok [PDict (SQLExecutor.insert_row stmt)]).
Proof.
  intros stmt key Ht Hcs Hvs Hid Hsel0 Hsel Hcol Hm Hi Hk Hlock Hts Hlast (b&Hb&[cmd Hcmd]).
  set (w' := LocalCluster.with_machine (locate (LocalCluster.c_ranges w) key)
    (mk (e_put e (Mvcc.row_key x01 key (LocalCluster.c_now w)) (x01 :: b)) (Z.max (LocalCluster.c_now w) last)) w).
  assert (Hkey : SQLExecutor.row_key (lower (upper table)) (read_value id) = key) by (unfold key; by rewrite lower_upper).
  exists w'. split.
  - unfold SQLExecutor.execute. rewrite insert_reads by done. fold stmt.
    pose proof (insert_run stmt (upper c) (map upper cols) (read_value id) (map read_value vals) w e last b cmd) as Hrun.
    cbn zeta in Hrun. cbn [is_table stmt] in Hrun. rewrite Hkey in Hrun. by apply Hrun.
  - unfold SQLExecutor.execute.
    destruct (select_reads columns table col (b_ "=") id Hsel0 Hsel Ht Hcol ltac:(left) Hid) as (_&clause&->&Hw).
    unfold SQLExecutor._execute_select. cbn [ss_where_clause ss_table].
    destruct clause as [|x clause]; [done|]. rewrite Hw, decide_True by done. rewrite Hkey.
    destruct b as [|x0 b]; [by apply packb_not_empty in Hb|].
    eapply select_run; [apply lookup_insert_eq|by apply read_after_set|].
    unfold SQLExecutor.as_row. by rewrite (unpackb_packb _ _ Hb).
Qed.
End sql.

(** ** Two executions on one shard *)

Module Listing.
#[local] Existing Instances reference_codec.
#[local] Instance repr : PyRepr := λ _, EmptyString.

Definition w0 : LocalCluster.t :=
  {| LocalCluster.c_machines := <[0 := LocalCluster.empty]> ∅; LocalCluster.c_ranges := [(0, ([], [xff]))];
     LocalCluster.c_last_ts := 0; LocalCluster.c_now := 5 |}.

Definition run (sql : string) (w : LocalCluster.t) : LocalCluster.t * result (list pyval) :=
  let '((_, w'), r) := SQLExecutor.execute (b_ sql) (SQLExecutor.init, w) in (w', r).
Definition bob : pyval := PDict [("id"%string, PInt 10); ("name"%string, PStr "BOB")].
Definition w1 : LocalCluster.t := (run "INSERT INTO users (id, name) VALUES (10, 'Bob')" w0).1.

(** An inserted row is not listed.  The row of user 10 is found by its key; a SELECT of
    the whole table, which filters by the name of the table in upper case, does not list it;
    and a SELECT of the users above 1 skips it, because the range starts at the end of the
    keys that begin with "users:1". *)
Theorem inserted_row_is_not_listed :
  (run "SELECT * FROM users WHERE id = 10" w1).2 = Ok [bob] ∧
  (run "SELECT * FROM users WHERE id >= 1" w1).2 = Ok [bob] ∧
  (run "SELECT * FROM users" w1).2 = Ok [] ∧
  (run "SELECT * FROM users WHERE id > 1" w1).2 = Ok [].
Proof. split_and!; vm_compute; reflexivity. Qed.
End Listing.

(** ** The theorems for a table of users *)

#[local] Existing Instances reference_codec MemoryEngine.engine MemoryEngine.laws Listing.repr.

Lemma not_in_text (x : byte) (s : bytes) : existsb (λ y, bool_decide (x = y)) s = false → x ∉ s.
Proof.
  intros He Hin. assert (existsb (λ y, bool_decide (x = y)) s = true) as Ht; [|congruence].
  apply existsb_exists. exists x. split; [by apply list_elem_of_In|by apply bool_decide_true].
Qed.

Lemma q_names : name (b_ "users") ∧ name (b_ "id") ∧ name (b_ "note").
Proof. done. Qed.
Lemma q_plain : plain (VInt 7) ∧ plain (VStr (b_ "Hi (all)")) ∧ comparable (VInt 7).
Proof. split_and!; [done|by apply not_in_text|done]. Qed.

Lemma statements_are_read_back_witness :
  SQLParser.parse (b_ "INSERT INTO users (id,note) VALUES (7,'Hi (all)')") =
    Some (Insert {| is_table := b_ "USERS"; is_columns := [b_ "ID"; b_ "NOTE"];
                    is_values := [PInt 7; PStr "HI (ALL)"] |}) ∧
  SQLParser.parse (b_ "SELECT id,note FROM users") =
    Some (Select {| ss_table := b_ "USERS"; ss_columns := [b_ "ID"; b_ "NOTE"]; ss_where_clause := None |}) ∧
  ∃ clause, SQLParser.parse (b_ "SELECT id,note FROM users WHERE id <= 7") =
    Some (Select {| ss_table := b_ "USERS"; ss_columns := [b_ "ID"; b_ "NOTE"]; ss_where_clause := Some clause |}) ∧
    SQLParser.parse_where_condition clause = Some (b_ "ID", b_ "<=", PInt 7).
Proof.
  destruct q_names as (H1&H2&H3). destruct q_plain as (P1&P2&P3).
  destruct (statements_are_read_back (b_ "users") [b_ "id"; b_ "note"] [VInt 7; VStr (b_ "Hi (all)")]
    (b_ "id") (b_ "<=") (VInt 7)) as [Hi Hs];
    [done|done|done|repeat constructor; done|done|unfold operator; set_solver|done|].
  split; [apply Hi; repeat constructor; done|]. apply Hs. repeat constructor; done.
Defined.

Lemma q_empty_inv : store_inv MemoryEngine.init.
Proof.
  assert (Hn : ∀ ns k ts, entry MemoryEngine.init ns k ts = None) by (intros; unfold entry; by case_decide).
  split; intros; rewrite ?Hn in *; try done. intros k [v Hv]. done.
Qed.

Lemma inserted_row_is_selected_witness :
  ∃ w', SQLExecutor.execute (b_ "INSERT INTO users (id,note) VALUES (7,'Hi (all)')") (SQLExecutor.init, Listing.w0)
      = ((SQLExecutor.init, w'), Ok [PDict [("result"%string, PStr "inserted")]]) ∧
    SQLExecutor.execute (b_ "SELECT * FROM users WHERE id = 7") (SQLExecutor.init, w')
      = ((SQLExecutor.init, w'), Ok [PDict [("id"%string, PInt 7); ("note"%string, PStr "HI (ALL)")]]).
Proof.
  destruct q_names as (H1&H2&H3). destruct q_plain as (P1&P2&P3).
  apply (inserted_row_is_selected Listing.w0 (b_ "users") (b_ "id") [b_ "note"] (VInt 7) [VStr (b_ "Hi (all)")]
    [b_ "*"] (b_ "id") MemoryEngine.init 0).
  - done.
  - repeat constructor; done.
  - repeat constructor; done.
  - done.
  - done.
  - constructor; [by right|constructor].
  - done.
  - vm_compute. reflexivity.
  - exact q_empty_inv.
  - by apply not_in_text.
  - vm_compute. reflexivity.
  - vm_compute. done.
  - vm_compute. done.
  - eexists. split; [vm_compute; reflexivity|]. vm_compute. by eexists.
Defined.
