(* ===== verification/Witnesses.v ===== *)
(** The theorems at work: each is applied here to concrete data, its hypotheses discharged
    by evaluation.  The engine is the dictionary engine, the codec is [reference_codec]. *)

From Stdlib Require Import ZArith Lia.
From S2P Require Import Prelude Bytes PyVal PyOps Engine Mvcc StateMachine StateMachineFacts Replicas Groups Tso Dict Router Metadata MetadataFacts MetadataClient.
Import MVCCStorage MVCCStateMachine.

#[local] Existing Instances reference_codec MemoryEngine.engine MemoryEngine.laws.
#[local] Instance no_repr : PyRepr := λ _, EmptyString.

(** ** Storage *)

Definition w_key : bytes := b_ "alice".
Definition w_key2 : bytes := b_ "bob".
Definition w_val : bytes := b_ "100".
Definition w_e0 : MemoryEngine.t := MemoryEngine.init.
Definition w_get (r : result MemoryEngine.t) : MemoryEngine.t :=
  match r with Ok e => e | Raise _ => w_e0 end.

Lemma wf_e0 : wf w_e0.
Proof. intros k [v Hv]. done. Qed.

Lemma inv_e0 : store_inv w_e0.
Proof.
  assert (Hn : ∀ ns k ts, entry w_e0 ns k ts = None) by (intros; unfold entry; by case_decide).
  split; [exact wf_e0|..]; intros; rewrite Hn in *; try done.
Qed.

Lemma no_sep_key : no_sep w_key.
Proof. vm_compute. intros Hin. repeat (apply elem_of_cons in Hin as [Hin|Hin]; [discriminate|]). by apply elem_of_nil in Hin. Qed.
Lemma no_sep_key2 : no_sep w_key2.
Proof. vm_compute. intros Hin. repeat (apply elem_of_cons in Hin as [Hin|Hin]; [discriminate|]). by apply elem_of_nil in Hin. Qed.
Lemma ts_ok z : 0 ≤ z < 1000 → valid_ts z.
Proof. unfold valid_ts, _MAX_TS. lia. Qed.

Lemma mvcc_write_keeps_wf_witness : wf (w_get (set w_e0 w_key w_val 5)).
Proof.
  eapply (mvcc_write_keeps_wf w_e0 (λ e, set e w_key w_val 5)).
  - exact wf_e0.
  - constructor.
  - vm_compute. reflexivity.
Defined.

Lemma get_version_visible_witness :
  ∃ r, get_version w_e0 w_key 5 = Ok r ∧ visible (hist w_e0 w_key) 5 (version_of <$> r).
Proof. apply (get_version_visible w_e0 w_key 5); [exact wf_e0|exact no_sep_key|lia]. Defined.

Lemma set_delete_update_history_witness :
  ∃ e', set w_e0 w_key w_val 5 = Ok e' ∧ hist e' w_key 5 = Some (Some w_val).
Proof.
  destruct (proj1 (set_delete_update_history w_e0 w_key w_val 5 w_key 5 no_sep_key
    (ts_ok 5 ltac:(lia)) no_sep_key)) as (e'&He&Hh).
  exists e'. split; [exact He|]. rewrite Hh. by rewrite decide_True.
Defined.

Lemma writes_refuse_bad_input_witness : set w_e0 w_key w_val (-1) = Raise ValueError.
Proof.
  apply (writes_refuse_bad_input w_e0 w_key w_val (-1) 3 (ts_ok 3 ltac:(lia))).
  right. unfold valid_ts. lia.
Defined.

Definition w_locked : MemoryEngine.t := w_get (put_lock w_e0 w_key 7 LockStatus.LOCKED w_key 1 w_val).

Lemma lock_roundtrip_witness :
  ∃ lock, get_lock w_locked w_key 7 = Ok (Some lock) ∧ lk_value lock = PBytes w_val.
Proof.
  eexists. split.
  - eapply (lock_roundtrip w_e0 w_key 7 LockStatus.LOCKED w_key 1 w_val w_locked).
    + exact wf_e0.
    + vm_compute. reflexivity.
    + vm_compute. reflexivity.
  - reflexivity.
Defined.

Lemma scan_versions_agrees_witness :
  ∃ rows, MVCCStorage.scan_versions w_e0 w_key w_key2 5 = Ok rows.
Proof.
  destruct (scan_versions_agrees w_e0 w_key w_key2 5 wf_e0 no_sep_key no_sep_key2 ltac:(lia)) as (rows&Hr&_).
  exists rows. exact Hr.
Defined.

Definition w_dump : bytes := match dump w_locked with Ok d => d | Raise _ => [] end.

Lemma wf_locked : wf w_locked.
Proof. eapply (put_lock_wf w_e0 w_key 7 LockStatus.LOCKED w_key 1 w_val); [exact wf_e0|]. vm_compute. reflexivity. Qed.

Lemma dump_load_restores_witness : ∃ e', load w_dump w_e0 = (e', Ok tt) ∧ same_rows e' w_locked.
Proof.
  destruct (dump_load_restores w_locked w_e0 w_dump wf_locked wf_e0) as (e'&Hl&_&Hs).
  - vm_compute. reflexivity.
  - exists e'. split; [exact Hl|exact Hs].
Defined.

(** ** The state machine *)

Definition w_s0 : MVCCStateMachine.t MemoryEngine.t := mk w_e0 0.

Lemma apply_keeps_invariant_witness :
  store_inv (_storage (foldl (λ s c, (apply c.1 c.2 s).1) w_s0 [(3, b_ "junk"); (4, [])])).
Proof. apply (apply_keeps_invariant [(3, b_ "junk"); (4, [])] w_s0). exact inv_e0. Defined.

Lemma prewrite_admission_witness :
  ar_success (apply_op 9 (OPrewrite w_key w_val 5 w_key) w_s0).2 = true ∧
  ∀ ts, 5 < ts → hist w_e0 w_key ts = None.
Proof.
  pose proof (prewrite_admission 9 w_key w_val 5 w_key w_e0 0 inv_e0 no_sep_key
                (ts_ok 5 ltac:(lia)) eq_refl) as Hp.
  fold w_s0 in Hp. destruct (apply_op 9 (OPrewrite w_key w_val 5 w_key) w_s0) as [s' r] eqn:Hr.
  assert (ar_success r = true) as Hok.
  { change r with (s', r).2. rewrite <-Hr. vm_compute. reflexivity. }
  split; [exact Hok|]. apply Hp. exact Hok.
Defined.

Definition w_pre : MVCCStateMachine.t MemoryEngine.t :=
  (apply_op 9 (OPrewrite w_key w_val 5 w_key) w_s0).1.

Lemma inv_pre : store_inv (_storage w_pre).
Proof.
  change w_pre with (run_log [(9, OPrewrite w_key w_val 5 w_key)] w_s0).
  apply run_log_inv. exact inv_e0.
Qed.

Lemma commit_publishes_witness :
  ar_success (apply_op 9 (OCommit w_key 5 8) w_pre).2 = true.
Proof.
  pose proof (commit_publishes 9 w_key 5 8 (_storage w_pre) 0 inv_pre no_sep_key
                (ts_ok 5 ltac:(lia)) (ts_ok 8 ltac:(lia))) as Hc.
  replace w_pre with (mk (_storage w_pre) 0) by reflexivity.
  destruct (apply_op 9 (OCommit w_key 5 8) (mk (_storage w_pre) 0)) as [s' r].
  assert (∃ l, get_lock (_storage w_pre) w_key 5 = Ok (Some l)) as [l Hl].
  { eexists. vm_compute. reflexivity. }
  rewrite Hl in Hc. destruct Hc as [-> _]. reflexivity.
Defined.

Lemma refused_command_changes_nothing_witness :
  (apply_op 9 (OCommit w_key 5 8) w_s0).1 = w_s0.
Proof. apply (refused_command_changes_nothing 9 (OCommit w_key 5 8) w_s0); [exact I|]. vm_compute. reflexivity. Defined.

Lemma snapshot_read_stable_witness :
  get_version (_storage (run_log [(1, OSet w_key w_val 9 None)] w_s0)) w_key 5
  = get_version (_storage w_s0) w_key 5.
Proof.
  apply (snapshot_read_stable [(1, OSet w_key w_val 9 None)] w_s0 w_key 5);
    [exact inv_e0|exact no_sep_key|lia|].
  intros c w Hin Hw. apply list_elem_of_singleton in Hin as ->. injection Hw as <-. lia.
Defined.

Lemma no_lost_update_witness :
  ar_success (apply_op 9 (OPrewrite w_key w_val 5 w_key)
    (run_log [] (run_log [(1, OSet w_key w_val 9 None)] w_s0))).2 = false.
Proof.
  apply (no_lost_update [] (run_log [(1, OSet w_key w_val 9 None)] w_s0) 9 w_key w_val 5 w_key 9).
  - apply run_log_inv. exact inv_e0.
  - exact no_sep_key.
  - apply ts_ok. lia.
  - lia.
  - reflexivity.
  - vm_compute. discriminate.
Defined.

Lemma latest_read_is_newest_witness :
  ∃ o, get (run_log [(1, OSet w_key w_val 9 None)] w_s0) w_key None = Ok (read_answer o).
Proof.
  destruct (latest_read_is_newest [(1, OSet w_key w_val 9 None)] w_s0 w_key) as (o&Ho&_).
  - exact inv_e0.
  - intros k ts _ [v Hv]. unfold entry in Hv. by case_decide.
  - reflexivity.
  - intros c Hin. apply list_elem_of_singleton in Hin as ->. exact I.
  - exact no_sep_key.
  - vm_compute. reflexivity.
  - exists o. exact Ho.
Defined.

Lemma machine_scan_agrees_witness :
  match MVCCStateMachine.scan_versions w_s0 w_key w_key2 (Some 5) with
  | Ok rows => Sorted (λ x y, ble x.1.1 y.1.1 = true) rows
  | Raise _ => True
  end.
Proof.
  pose proof (machine_scan_agrees w_s0 w_key w_key2 (Some 5) inv_e0 no_sep_key no_sep_key2 ltac:(cbn; lia)) as Hs.
  destruct (MVCCStateMachine.scan_versions _ _ _ _); [apply Hs|exact I].
Defined.

Definition w_cmd (o : op) : bytes := match packb (op_cmd o) with Ok c => c | Raise _ => [] end.

Lemma replicas_agree_witness :
  answers (zip [1; 2] [w_cmd (OPrewrite w_key w_val 5 w_key); w_cmd (OCommit w_key 5 8)]) w_s0
  = answers (zip [30; 40] [w_cmd (OPrewrite w_key w_val 5 w_key); w_cmd (OCommit w_key 5 8)]) w_s0.
Proof.
  apply (replicas_agree [w_cmd (OPrewrite w_key w_val 5 w_key); w_cmd (OCommit w_key 5 8)]
           [1; 2] [30; 40] w_s0 w_s0); [reflexivity|reflexivity|].
  apply sim_restored; [exact inv_e0|by intros k|reflexivity].
Defined.

Definition w_set : MVCCStateMachine.t MemoryEngine.t := run_log [(1, OSet [x61] [x31] 9 None)] w_s0.
Lemma inv_set : store_inv (_storage w_set).
Proof. apply run_log_inv. exact inv_e0. Qed.

Definition w_snap : bytes := match snapshot w_set with Ok d => d | Raise _ => [] end.

Lemma snapshot_stands_for_log_witness :
  ∃ s', restore w_snap w_s0 = (s', Ok tt) ∧ ∀ k ts, get s' k ts = get w_set k ts.
Proof.
  destruct (snapshot_stands_for_log w_set w_s0 w_snap inv_set wf_e0) as (s'&Hr&Hg&_).
  - vm_compute. reflexivity.
  - exists s'. split; [exact Hr|exact Hg].
Defined.

(** ** Clocks *)

Definition w_alloc (n : Z) : bytes :=
  match TSOSMStateMachine.serialize_command ALLOCATE [("batch_size"%string, PInt n)] with
  | Ok c => c | Raise _ => [] end.

Lemma w_alloc_ok n : packable (PInt n) = true →
  TSOSMStateMachine.serialize_command ALLOCATE [("batch_size"%string, PInt n)] = Ok (w_alloc n).
Proof.
  intros Hn. unfold w_alloc. destruct (TSOSMStateMachine.serialize_command _ _) eqn:Hs; [done|].
  assert (is_Ok (packb (PDict [("type"%string, PBytes ALLOCATE); ("batch_size"%string, PInt n)]))) as [b Hb].
  { apply packb_packable. cbn -[Z.ltb Z.leb] in *. rewrite Hn. reflexivity. }
  unfold TSOSMStateMachine.serialize_command in Hs. by rewrite Hb in Hs.
Qed.

Lemma w_alloc_forward n : packable (PInt n) = true → 0 ≤ n → forward (w_alloc n).
Proof.
  intros Hp Hn cmd v z Hu Hv Hz. pose proof (w_alloc_ok n Hp) as Hc.
  rewrite (unpackb_packb _ _ Hc) in Hu. injection Hu as <-. cbn in Hv. injection Hv as <-.
  injection Hz as <-. done.
Qed.

Lemma tso_runs_never_overlap_witness :
  ∃ s', StronglySorted (λ r1 r2, r1.2 < r2.1)
    (runs [w_alloc 10; w_alloc 3] TSOSMStateMachine.init ++ runs [w_alloc 5] s').
Proof.
  destruct (tso_runs_never_overlap [w_alloc 10; w_alloc 3] [w_alloc 5] TSOSMStateMachine.init
    TSOSMStateMachine.init
    (match TSOSMStateMachine.snapshot (Tso.after [w_alloc 10; w_alloc 3] TSOSMStateMachine.init) with
     | Ok d => d | Raise _ => [] end)) as (s'&_&Hs).
  - repeat constructor; apply w_alloc_forward; done.
  - repeat constructor; apply w_alloc_forward; done.
  - vm_compute. reflexivity.
  - exists s'. exact Hs.
Defined.

Lemma allocate_answers_run_witness :
  answered_run (TSOSMStateMachine.apply (w_alloc 10) TSOSMStateMachine.init).2 = Some (1, 10).
Proof.
  apply (allocate_answers_run 10 TSOSMStateMachine.init (w_alloc 10)). vm_compute. reflexivity.
Defined.

Lemma tso_clients_never_collide_witness :
  StronglySorted (λ p q, p.2 ≠ q.2 ∧ (p.1 = q.1 → p.2 < q.2))
    (calls [0; 1; 0; 1; 1]%nat
       (LocalGroup.start TSOSMStateMachine.apply TSOSMStateMachine.init, TSOClient.init <$> [2; 1])).2.
Proof.
  pose proof (tso_clients_never_collide [0; 1; 0; 1; 1]%nat
    (LocalGroup.start TSOSMStateMachine.apply TSOSMStateMachine.init) [2; 1]) as Hc.
  destruct (calls _ _) as [[n' cs'] given] eqn:Hcalls. apply Hc.
  - repeat constructor; lia.
  - assert (g_log n' = [w_alloc 2; w_alloc 1; w_alloc 1; w_alloc 1]) as ->.
    { change n' with ((n', cs'), given).1.1. rewrite <-Hcalls. vm_compute. reflexivity. }
    repeat constructor; apply w_alloc_forward; done.
Defined.

(** ** Routing *)

Lemma default_map_routes_witness : locate (default_range_map 3) (b_ "zebra") = 1.
Proof.
  rewrite (proj2 (default_map_routes 3 (b_ "zebra") ltac:(lia))). vm_compute. reflexivity.
Defined.

Definition w_ok {A} (d : A) (r : result A) : A := match r with Ok a => a | Raise _ => d end.
Definition w_init : bytes := w_ok [] (MetadataStateMachine.init_routes_command (default_range_map 2)).
Definition w_addr : gmap Z string := {[4 := "a"%string; 5 := "b"%string]}.
Definition w_split : bytes :=
  w_ok [] (MetadataStateMachine.split_shard_command 0 [x40] 2 [4; 5] w_addr).
Definition w_table : MetadataStateMachine.t := (MetadataStateMachine.apply w_init MetadataStateMachine.init).1.

Lemma w_init_ok : MetadataStateMachine.init_routes_command (default_range_map 2) = Ok w_init.
Proof. vm_compute. reflexivity. Qed.

Lemma metadata_table_never_overlaps_witness :
  meta_inv (run [w_split; w_split; b_ "junk"] w_table).
Proof.
  apply (metadata_table_never_overlaps (default_range_map 2) w_init [w_split; w_split; b_ "junk"]).
  - apply default_map_nodup.
  - apply default_range_disjoint.
  - apply default_map_nonempty.
  - exact w_init_ok.
Defined.

Lemma inv_table : meta_inv w_table.
Proof.
  apply (bootstrap_inv _ _ w_init_ok).
  - apply default_map_nodup.
  - apply default_range_disjoint.
  - apply default_map_nonempty.
Qed.

Lemma metadata_snapshot_restores_witness :
  MetadataStateMachine.restore (w_ok [] (MetadataStateMachine.snapshot w_table))
    MetadataStateMachine.init = (w_table, Ok tt).
Proof.
  apply (metadata_snapshot_restores w_table MetadataStateMachine.init). 
  - exact inv_table.
  - vm_compute. reflexivity.
Defined.

Lemma w_table_shards i p :
  MetadataStateMachine._shards w_table !! i = Some p →
  p = fresh_placement 0 [x00] [x80] [] ∅ ∧ i = 0 ∨ p = fresh_placement 1 [x80] [xff] [] ∅ ∧ i = 1.
Proof.
  assert (MetadataStateMachine._shards w_table =
    {[0 := fresh_placement 0 [x00] [x80] [] ∅; 1 := fresh_placement 1 [x80] [xff] [] ∅]}) as ->
    by (vm_compute; reflexivity).
  intros [[<- <-]|[_ [<- <-]%lookup_singleton_Some]]%lookup_insert_Some; auto.
Qed.

Lemma split_moves_upper_range_witness :
  ar_success (MetadataStateMachine.apply w_split w_table).2 = true ∧
  MetadataStateMachine.apply w_split (MetadataStateMachine.apply w_split w_table).1
  = ((MetadataStateMachine.apply w_split w_table).1, apply_success None).
Proof.
  assert (Hok : ar_success (MetadataStateMachine.apply w_split w_table).2 = true)
    by (vm_compute; reflexivity).
  split; [exact Hok|].
  refine (match proj2 (split_moves_upper_range 0 [x40] 2 [4; 5] w_addr w_split w_table
    (w_ok {| rt_version := 0; rt_shards := [] |} (MetadataStateMachine.table w_table))
    (w_ok {| rt_version := 0; rt_shards := [] |}
       (MetadataStateMachine.table (MetadataStateMachine.apply w_split w_table).1))
    _ inv_table _ _ _ _) Hok with
    ex_intro _ p (conj _ (conj _ (conj _ (conj _ Hr)))) => Hr end).
  - vm_compute. reflexivity.
  - by intros l q [[-> ->]|[-> ->]]%w_table_shards.
  - vm_compute. reflexivity.
  - vm_compute. reflexivity.
  - vm_compute. reflexivity.
Defined.

Definition w_move (from to : list Z) : bytes :=
  w_ok [] (MetadataStateMachine.move_shard_command 0 from to w_addr).

Lemma move_replaces_replica_set_witness :
  ar_success (MetadataStateMachine.apply (w_move [] [4; 5]) w_table).2 = true.
Proof.
  refine (proj2 (proj1 (move_replaces_replica_set 0 [] [4; 5] w_addr (w_move [] [4; 5])
    w_table (fresh_placement 0 [x00] [x80] [] ∅) _ _ _)) _).
  - vm_compute. reflexivity.
  - vm_compute. reflexivity.
  - discriminate.
  - split_and!; [discriminate| | |reflexivity|].
    + apply (bool_decide_unpack _). vm_compute. exact I.
    + intros n Hn. apply elem_of_cons in Hn as [->|Hn]; [vm_compute; eauto|].
      apply list_elem_of_singleton in Hn as ->. vm_compute; eauto.
    + intros n _ Hn. by apply elem_of_nil in Hn.
Defined.

Definition w_report (n t : Z) : bytes := w_ok [] (MetadataStateMachine.report_leader_command 0 n t).

Lemma deposed_leader_stays_out_witness :
  ar_success (MetadataStateMachine.apply (w_report 9 3)
    (run [w_split] (MetadataStateMachine.apply (w_report 4 7) w_table).1)).2 = false.
Proof.
  refine (proj2 (proj2 (deposed_leader_stays_out 0 7 [w_split]
    (MetadataStateMachine.apply (w_report 4 7) w_table).1 9 3 (w_report 9 3) _ _ _ _))).
  - eexists. split; [vm_compute; reflexivity|]. split; [discriminate|]. cbn. lia.
  - constructor; [|constructor]. intros cmd ty Hu Ht. vm_compute in Hu. injection Hu as <-.
    vm_compute in Ht. injection Ht as <-. split; discriminate.
  - lia.
  - vm_compute. reflexivity.
Defined.

Lemma metadata_client_reads_its_writes_witness :
  ∃ w1 c1 r w3 c3 t,
    MetadataClient._propose (MetadataStateMachine.init_routes_command (default_range_map 2)) ([], None)
      = ((w1, c1), Ok r) ∧
    MetadataClient.table false (w1, c1) = ((w3, c3), Ok t) ∧ 1 ≤ rt_version t.
Proof.
  do 6 eexists. split; [vm_compute; reflexivity|]. split; [vm_compute; reflexivity|].
  destruct (metadata_client_reads_its_writes
    (MetadataStateMachine.init_routes_command (default_range_map 2)) [] None
    [w_init] None (apply_success None) [w_init] [w_init]
    (Some (w_ok {| rt_version := 0; rt_shards := [] |} (MetadataStateMachine.table w_table)))
    (w_ok {| rt_version := 0; rt_shards := [] |} (MetadataStateMachine.table w_table)) false)
    as (cmd&before&after&Hc&_&_&_&Hv&_).
  - vm_compute. reflexivity.
  - reflexivity.
  - done.
  - vm_compute. reflexivity.
  - vm_compute. discriminate.
Defined.
