(* ===== verification/RaftWitnesses.v ===== *)
(** The theorems on Raft at work: each is applied here to concrete runs, its hypotheses
    discharged by evaluation. *)

From Stdlib Require Import ZArith Lia.
From S2P Require Import Prelude Bytes PyVal Engine Mvcc StateMachine StateMachineFacts Replicas Dict RaftStorage RaftNode RaftNodeFacts RaftRuns RaftElection RaftMachines RaftTimers RaftCluster.
Import MemoryRaftNode.

#[local] Existing Instances reference_codec MemoryEngine.engine MemoryEngine.laws.

Abbreviation machine := (MVCCStateMachine.t MemoryEngine.t * list Z)%type.
Abbreviation node := (MemoryRaftNode.t machine MemoryEngine.t).

Definition w_disk : MemoryEngine.t := MemoryEngine.init.
Definition w_machine : machine :=
  ({| MVCCStateMachine._storage := w_disk; MVCCStateMachine._last_applied_timestamp := 0 |}, [3; 5; 8]).
Definition w_node (i : Z) (peers : list Z) : node := new_node i peers w_machine w_disk 0 100.
Definition w_command : bytes := b_ "x".

Lemma w_disk_empty : holds w_disk nothing.
Proof. by apply engine_holds_nothing. Qed.

(** A node that votes, restarts and campaigns; and a group of one that takes a proposal. *)
Definition w_events : list (event (S:=machine)) :=
  [EVoteRequest (StaleAnswer.vote_for 1 3); ERestart w_machine 0 100; ECampaign].
Definition w_votes : list (Z * Z) := [(1, 3); (2, 1)].
Definition w_lead : list (event (S:=machine)) :=
  [ECampaign; EProposeAdmit w_command; EProposeAppend w_command; EProposeDone].
Definition w_leader : node := (run w_lead (w_node 1 [])).1.

Lemma w_events_ok : Forall well_formed w_events.
Proof. by repeat constructor. Qed.
Lemma w_lead_ok : Forall well_formed w_lead.
Proof. by repeat constructor. Qed.

Definition w_saves : list save_op :=
  [SMeta 2 (Some 1); SAppend {| le_term := 2; le_index := 1; le_command := [] |}; SCommit 1].
Definition w_saved : MemoryEngine.t := match run_saves w_saves w_disk with Ok e => e | Raise _ => w_disk end.
Lemma w_saves_run : run_saves w_saves w_disk = Ok w_saved.
Proof. vm_compute. reflexivity. Qed.
Lemma w_saves_ok : saves_ok w_saves nothing.
Proof. by repeat constructor. Qed.

Lemma engine_storage_loads_what_was_saved_witness :
  run_saves w_saves w_disk = Ok w_saved ∧ load_meta w_saved = Ok (2, Some 1).
Proof.
  split; [exact w_saves_run|].
  exact (proj1 (engine_storage_loads_what_was_saved w_disk w_saved w_saves (λ _, eq_refl) w_saves_ok w_saves_run)).
Defined.

Definition w_voter : node := (run w_events (w_node 1 [2; 3])).1.
Lemma w_events_run : run w_events (w_node 1 [2; 3]) = (w_voter, Ok w_votes).
Proof. vm_compute. reflexivity. Qed.

Lemma votes_once_per_term_witness : run w_events (w_node 1 [2; 3]) = (w_voter, Ok w_votes) ∧
  ∀ t c1 c2, (t, c1) ∈ w_votes → (t, c2) ∈ w_votes → c1 = c2.
Proof.
  split; [exact w_events_run|].
  exact (votes_once_per_term 1 [2; 3] w_machine w_disk 0 100 w_events w_voter w_votes
    w_disk_empty w_events_ok w_events_run).
Defined.

Lemma w_lead_run : run w_lead (w_node 1 []) = (w_leader, Ok [(1, 1)]).
Proof. vm_compute. reflexivity. Qed.

Lemma raft_log_is_on_disk_witness : _last_applied w_leader ≤ _commit_index w_leader.
Proof.
  destruct (raft_log_is_on_disk 1 [] w_machine w_disk 0 100 w_lead w_leader [(1, 1)]
    w_disk_empty w_lead_ok w_lead_run) as (_&_&_&[Hb _]). exact Hb.
Defined.

Lemma restart_recovers_witness :
  ∃ n, _load_from_storage (restart w_machine 0 100 w_leader) = (n, Ok tt) ∧ _voted_for n = Some 1.
Proof.
  destruct (_load_from_storage (restart w_machine 0 100 w_leader)) as [n r] eqn:Hl.
  assert (r = Ok tt) as -> by (transitivity (_load_from_storage (restart w_machine 0 100 w_leader)).2;
    [by rewrite Hl|vm_compute; reflexivity]).
  exists n. split; [reflexivity|].
  destruct (restart_recovers 1 [] w_machine w_disk 0 100 w_lead w_leader [(1, 1)] w_machine 0 100 n tt
    w_disk_empty w_lead_ok w_lead_run Hl) as [Hv _].
  destruct (Hv 1 1 ltac:(by left)) as [Hlt|[_ Hvote]]; [|exact Hvote].
  exfalso. replace n with (_load_from_storage (restart w_machine 0 100 w_leader)).1 in Hlt by (by rewrite Hl).
  vm_compute in Hlt. discriminate Hlt.
Defined.

(** A leader of three, before it counts the answer of node 2. *)
Definition w_three : node :=
  (run [ECampaign; EVoteResponse 2 (StaleAnswer.yes 1)] (w_node 1 [2; 3])).1.
Definition w_counting : node := with_match_index (<[2 := 1]> (_match_index w_three)) w_three.

Lemma match_index_inv (n : node) d m : node_inv n d → node_inv (with_match_index m n) d.
Proof. intros Hi. apply (inv_core n); [done|by repeat split|apply Hi]. Qed.
Lemma machine_inv (n : node) d m : node_inv n d → node_inv (with_state_machine m n) d.
Proof. intros Hi. apply (inv_core n); [done|by repeat split|apply Hi]. Qed.

Lemma w_three_inv : ∃ d, node_inv w_three d.
Proof.
  destruct (new_run_inv 1 [2; 3] w_machine w_disk 0 100 [ECampaign; EVoteResponse 2 (StaleAnswer.yes 1)] w_three [(1, 1)])
    as (d&Hi&_); [exact w_disk_empty|by repeat constructor|vm_compute; reflexivity|by exists d].
Qed.
Lemma w_counting_inv : ∃ d, node_inv w_counting d.
Proof.
  destruct w_three_inv as [d Hi]. exists d. apply match_index_inv. exact Hi.
Qed.

Definition w_counted : node := (_update_commit_index w_counting).1.
Lemma w_count_run : _update_commit_index w_counting = (w_counted, Ok tt).
Proof. vm_compute. reflexivity. Qed.

Lemma commit_moves_on_majority_witness :
  _commit_index w_counted = 1 ∧
  majority w_counting ≤ 1 + Z.of_nat (length (filter (λ m, 1 ≤ m) (map_to_list (_match_index w_counting)).*2)).
Proof.
  assert (_commit_index w_counted = 1) as Hc by (vm_compute; reflexivity).
  split; [exact Hc|]. destruct w_counting_inv as [d Hi].
  destruct (commit_moves_on_majority w_counting d w_counted tt Hi w_count_run) as [Heq|(_&_&Hm&_)].
  - rewrite Heq in Hc. vm_compute in Hc. discriminate Hc.
  - rewrite Hc in Hm. exact Hm.
Defined.

(** Nodes with an entry they know to be committed and have not applied. *)
Definition w_behind (clock : list Z) : node :=
  with_state_machine (w_machine.1, clock) (with_commit_index 1 w_three).
Lemma w_behind_inv clock : ∃ d, node_inv (w_behind clock) d.
Proof.
  destruct w_three_inv as [d Hi]. exists d. apply machine_inv, commit_inv; [exact Hi|]. vm_compute. split; discriminate.
Qed.

Lemma apply_follows_log_witness : _last_applied (apply_loop (w_behind [7])) = 1.
Proof.
  destruct (w_behind_inv [7]) as [d Hi]. rewrite (proj2 (apply_follows_log _ d Hi)). reflexivity.
Defined.

Lemma w_machine_sim : sim w_machine.1 w_machine.1.
Proof.
  apply sim_restored; [|by intros k|reflexivity].
  assert (Hn : ∀ ns k ts, entry w_disk ns k ts = None) by (intros; unfold entry; by case_decide).
  split; [by intros k [v Hv]|..]; intros; rewrite Hn in *; done.
Qed.

Lemma nodes_with_one_log_agree_witness :
  sim (_state_machine (apply_loop (w_behind [7]))).1 (_state_machine (apply_loop (w_behind [40]))).1.
Proof.
  destruct (w_behind_inv [7]) as [d1 Hi1], (w_behind_inv [40]) as [d2 Hi2].
  apply (nodes_with_one_log_agree (w_behind [7]) d1 (w_behind [40]) d2 Hi1 Hi2 w_machine_sim).
  vm_compute. reflexivity.
Defined.

(** The first seven events of [StaleAnswer.events] take every answer in its term. *)
Definition w_group : StaleAnswer.group :=
  default StaleAnswer.c0 (StaleAnswer.play true (take 7 StaleAnswer.events) StaleAnswer.c0).
Lemma w_group_reached : rtc (cstep asked_now) StaleAnswer.c0 w_group.
Proof.
  apply (StaleAnswer.play_rtc true (take 7 StaleAnswer.events)). unfold w_group.
  destruct (StaleAnswer.play true _ _) eqn:Hp; [done|]. vm_compute in Hp. discriminate Hp.
Qed.
Lemma w_group_leader : StaleAnswer.leads w_group 3 = Some 2.
Proof. vm_compute. reflexivity. Qed.

Lemma election_safety_witness : StaleAnswer.leads w_group 3 = Some 2 ∧
  ∀ j m, nodes w_group !! j = Some m → _state m = LEADER → _current_term m = 2 → 3 = j.
Proof.
  pose proof w_group_leader as Hl. split; [exact Hl|]. intros j m Hj Hm Ht.
  unfold StaleAnswer.leads in Hl. destruct (nodes w_group !! 3) as [n|] eqn:Hn; [|discriminate Hl].
  case_decide as Hs; [|discriminate Hl]. injection Hl as Ht3.
  apply (election_safety StaleAnswer.members StaleAnswer.c0 w_group 3 j n m
    StaleAnswer.c0_fresh w_group_reached Hn Hj Hs Hm). congruence.
Defined.

(** ** Timers *)

(** A node of three that starts at 0, votes for node 3 at 50, and hears nothing any more. *)
Definition w_now : moment := {| now := 0; draw := 200 |}.
Definition w_later : moment := {| now := 50; draw := 150 |}.
Definition w_start : node * timers := (w_node 1 [2; 3], TimedNode.fresh_timers).
Definition w_started : node * timers := (TimedNode.init w_now (w_node 1 [2; 3]) w_start).1.
Definition w_vote : RaftRuns.event (S:=machine) := EVoteRequest (StaleAnswer.vote_for 1 3).
Definition w_voted : node * timers := (TimedNode.node_event default_timeouts w_later w_vote w_started).1.
Definition w_turns : list TimedNode.turn :=
  replicate 301 {| TimedNode.tr_draw := 150; TimedNode.tr_took := 0; TimedNode.tr_late := 0 |}.

Lemma w_voted_run : timed_run default_timeouts 0 w_started 50 w_voted.
Proof.
  apply (run_on _ 0 w_started w_later (TimedNode.TNode w_vote) w_voted 50 w_voted).
  - done.
  - unfold drawn. cbn. lia.
  - exists [(1, 3)]. vm_compute. reflexivity.
  - apply run_here.
Qed.

Lemma silent_node_campaigns_witness :
  ∃ time s', (time, s') ∈ TimedNode._tick default_timeouts w_turns 50 w_voted ∧
    _current_term s'.1 = 2 ∧ time ≤ 350.
Proof.
  destruct (silent_node_campaigns default_timeouts w_now (w_node 1 [2; 3]) w_start w_started 50 w_voted
              w_turns 0) as (time & s' & Hin & Hterm & Hle).
  - reflexivity.
  - unfold drawn. cbn. lia.
  - vm_compute. reflexivity.
  - exact w_voted_run.
  - vm_compute. reflexivity.
  - vm_compute. discriminate.
  - cbn. lia.
  - unfold w_turns. apply list.Forall_forall. intros r [-> _]%elem_of_replicate. cbn. lia.
  - lia.
  - exists time, s'. split; [exact Hin|]. split; [rewrite Hterm; vm_compute; reflexivity|].
    cbn in Hle. lia.
Defined.

(** A disk that cannot be written to. *)
Module FullDisk.
Inductive t := disk.

#[local] Instance storage : RaftStorage t := {|
  save_meta _ _ _ := Raise SqliteError; load_meta _ := Ok (0, None);
  append_log_entry _ _ := Raise SqliteError; truncate_log _ _ := Raise SqliteError;
  compact_log _ _ := Raise SqliteError; load_log _ := Ok [];
  save_snapshot _ _ _ _ := Raise SqliteError; load_snapshot _ := Ok None;
  save_commit_index _ _ := Raise SqliteError; load_commit_index _ := Ok 0;
  save_admin _ _ _ := Raise SqliteError; load_admin _ _ := Ok None;
  delete_admin _ _ := Raise SqliteError; RaftStorage.clear r := r |}.

(** A group of one, whose first campaign is due. *)
Definition alone : MemoryRaftNode.t machine t * timers :=
  (MemoryRaftNode.init 1 [] w_machine (Some disk) 0 100, with_deadline (Some 200) TimedNode.fresh_timers).

Lemma failed_save_stops_elections_witness :
  _election_deadline (TimedNode.tick_turn default_timeouts {| now := 200; draw := 150 |} 200 alone).1.2 = None.
Proof.
  apply (failed_save_stops_elections default_timeouts {| now := 200; draw := 150 |} 200 alone disk SqliteError 200).
  - reflexivity.
  - discriminate.
  - reflexivity.
  - cbn. lia.
  - reflexivity.
  - reflexivity.
Defined.
End FullDisk.

(** ** A group in one process *)

#[local] Instance w_world : ClusterWorld unit machine MemoryEngine.t := {|
  cw_machine := ret w_machine; cw_storage := None; cw_connect _ := ret tt;
  cw_bind _ := ret tt; cw_serve _ := ret tt; cw_stop _ := ret tt; cw_wait _ := ret tt |}.
#[local] Instance w_in_memory : InMemory (W := unit) (S := machine) (R := MemoryEngine.t).
Proof. split; [done|]. intros w. by exists w, w_machine. Qed.

Lemma started_group_elects_witness :
  ∃ c1 w1 c2 w2,
    RaftCluster.start 100 100 (RaftCluster.init (S := machine) (R := MemoryEngine.t) 3, tt) = ((c1, w1), Ok tt) ∧
    RaftCluster.campaign [3] 2 (c1, w1) = ((c2, w2), Ok tt) ∧ RaftCluster.get_leader c2 = Some 2.
Proof.
  destruct (started_group_elects (W := unit) (S := machine) (R := MemoryEngine.t) 100 100 3 tt 2 [3])
    as (c1 & w1 & c2 & w2 & Hs & _ & _ & Hc & Hl & _).
  - apply elem_of_seqZ. lia.
  - apply (bool_decide_unpack _). vm_compute. reflexivity.
  - intros p Hp. apply list_elem_of_singleton in Hp as ->. apply (bool_decide_unpack _). vm_compute. reflexivity.
  - vm_compute. discriminate.
  - exists c1, w1, c2, w2. split; [exact Hs|]. split; [exact Hc|exact Hl].
Defined.
