(* ===== verification/ClusterWitnesses.v ===== *)
(** The theorems of the coordinator, the resolver and the validation of reads, applied to a
    transaction over two shards: [HalfCommitted.w0] with the keys "a" and "b". *)

From Stdlib Require Import ZArith Lia.
From S2P Require Import Prelude Bytes PyVal Engine Mvcc StateMachine StateMachineFacts Dict Router Shards Coordinator CoordinatorFacts ClusterRuns.
Import MVCCStorage MVCCStateMachine TransactionCoordinator LocalCluster HalfCommitted.

#[local] Existing Instances reference_codec MemoryEngine.engine MemoryEngine.laws.

(** ** A transaction that is about to commit *)

Abbreviation both := (TransactionCoordinator.t * LocalCluster.t)%type.

Definition w_pending : both :=
  ((begin;;; add_write 1 a one;;; add_write 1 b two) (c0, w0)).1.
Definition w_txn : Transaction := add_key b two (add_key a one (new_transaction 1 1)).

Lemma w_pending_txn : _transactions w_pending.1 !! 1 = Some w_txn.
Proof. vm_compute. reflexivity. Qed.

Lemma w_entry ns k ts : entry MemoryEngine.init ns k ts = None.
Proof. unfold entry. by case_decide. Qed.
Lemma w_empty_machine s : machine_of w_pending.2 s = LocalCluster.empty.
Proof.
  unfold machine_of. change (c_machines w_pending.2) with (<[0 := LocalCluster.empty]> (<[1 := LocalCluster.empty]> (∅ : gmap Z sm))).
  destruct (decide (s = 0)) as [->|H0]; [by rewrite lookup_insert_eq|rewrite lookup_insert_ne by done].
  destruct (decide (s = 1)) as [->|H1]; [by rewrite lookup_insert_eq|by rewrite lookup_insert_ne].
Qed.
Lemma w_empty_inv : store_inv (_storage LocalCluster.empty).
Proof. split; [by intros k [v Hv]|..]; intros; cbn in *; rewrite w_entry in *; done. Qed.

Lemma w_pending_good : good 1 w_pending.2.
Proof. intros s. cbn [machine laws]. rewrite w_empty_machine. exact w_empty_inv. Qed.
Lemma w_pending_unwritten : unwritten 1 w_pending.2.
Proof. intros s k cts Hk. cbn [machine laws]. rewrite w_empty_machine. unfold wrote. cbn. by rewrite w_entry. Qed.

Lemma no_sep_ab : no_sep a ∧ no_sep b.
Proof. split; vm_compute; intros [?|?%elem_of_nil]%elem_of_cons; done. Qed.
Lemma w_legal : Forall (legal w_txn) (keys w_txn).
Proof. repeat constructor; try (by apply no_sep_ab). Qed.

Definition w_commit : both * result (bool * option Z) := commit [1; 0]%nat 1 w_pending.
Lemma w_commit_answer : w_commit.2 = Ok (true, Some 2).
Proof. vm_compute. reflexivity. Qed.
Lemma w_commit_run : commit [1; 0]%nat 1 (w_pending.1, w_pending.2) = (w_commit.1, Ok (true, Some 2)).
Proof. rewrite <-surjective_pairing. rewrite <-w_commit_answer. apply surjective_pairing. Qed.

Lemma commit_all_or_nothing_witness :
  published 1 (machine_of w_commit.1.2 0) a one 2 ∧ holds_lock 1 (machine_of w_commit.1.2 1) b two a.
Proof.
  pose proof (commit_all_or_nothing 1 ltac:(unfold valid_ts, _MAX_TS; lia) [1; 0]%nat 1 w_pending.1 w_pending.2
    w_commit.1.1 w_commit.1.2 true (Some 2) w_txn w_pending_txn eq_refl ltac:(discriminate) eq_refl eq_refl
    w_legal w_pending_good w_pending_unwritten (λ _, eq_refl)) as Hc.
  rewrite <-(surjective_pairing w_commit.1) in Hc.
  destruct (Hc w_commit_run) as (cts&[= <-]&(s&v&Hs&Hv&Hp)&Hsec).
  assert (placed w_pending.2 w_commit.1.2) as Hpl by (intros k; vm_compute; reflexivity).
  rewrite Hpl in Hs. split.
  - replace s with 0 in Hp by (vm_compute in Hs; congruence).
    replace v with one in Hp; [exact Hp|]. vm_compute in Hv.
    apply elem_of_cons in Hv as [Hv|Hv]; [by injection Hv|].
    apply elem_of_cons in Hv as [Hv|Hv%elem_of_nil]; [discriminate Hv|done].
  - destruct (Hsec b two) as (s'&Hs'&Hh&_); [by right; left|discriminate|].
    rewrite Hpl in Hs'. replace s' with 1 in Hh by (vm_compute in Hs'; congruence). exact Hh.
Defined.

Lemma w_committed_good : good 1 w_commit.1.2.
Proof.
  destruct (commit_spec 1 ltac:(unfold valid_ts, _MAX_TS; lia) [1; 0]%nat 1 w_pending.1 w_pending.2 w_commit.1 true (Some 2) w_txn
    w_pending_txn eq_refl ltac:(discriminate) eq_refl eq_refl w_legal w_pending_good w_pending_unwritten (λ _, eq_refl) w_commit_run)
    as (?&?&_&_&Hg&_). exact Hg.
Qed.
Lemma w_committed_lock : holds_lock 1 (machine_of w_commit.1.2 1) b two a.
Proof.
  destruct (packb (lock_payload LockStatus.LOCKED a 100 two)) as [p|] eqn:Hp; [|vm_compute in Hp; discriminate Hp].
  exists 100, p. split; [|exact Hp]. vm_compute in Hp. injection Hp as <-. vm_compute. reflexivity.
Qed.

(** ** The pool commits the secondary key *)

Definition w_task : task := {| tk_shard := 1; tk_key := b; tk_start_ts := 1; tk_commit_ts := 2 |}.
Definition w_rolled : LocalCluster.t * result unit := commit_task w_task w_commit.1.2.

Definition w_groups : list (Z * list (bytes * bytes)) := [(0, [(a, one)]); (1, [(b, two)])].
Lemma w_in_groups s kv : in_groups w_groups s kv → (s, kv) = (0, (a, one)) ∨ (s, kv) = (1, (b, two)).
Proof.
  intros [[-> ->%list_elem_of_singleton]|[[-> ->%list_elem_of_singleton]|[]%in_groups_nil]%in_groups_cons]%in_groups_cons;
    [by left|by right].
Qed.
Lemma secondary_rolls_forward_witness :
  w_rolled.2 = Ok tt ∧
  (published 1 (machine_of w_rolled.1 1) b two 2 ∨ holds_lock 1 (machine_of w_rolled.1 1) b two a).
Proof.
  destruct (secondary_rolls_forward 1 ltac:(unfold valid_ts, _MAX_TS; lia) w_groups a 2 1 b two w_commit.1.2 w_rolled.1 w_rolled.2)
    as (Hr&_&_&Hp).
  - intros s kv Hin. destruct (w_in_groups _ _ Hin) as [[= -> ->]|[= -> ->]]; (split; [by apply no_sep_ab|done]).
  - intros s k v v' Hin Hin'. destruct (w_in_groups _ _ Hin) as [Heq|Heq], (w_in_groups _ _ Hin') as [Heq'|Heq']; congruence.
  - intros s b' Hb. cbn in Hb. by apply elem_of_nil in Hb.
  - exact w_committed_good.
  - exists [(b, two)]. split; [right; by left|by left].
  - exact w_committed_lock.
  - apply surjective_pairing.
  - split; [exact Hr|]. apply Hp; [|exact w_committed_lock]. exists [(b, two)]. split; [right; by left|by left].
Defined.

(** ** A reader meets the lock on "b" *)

Lemma w_up (w : LocalCluster.t) :
  c_ranges w = c_ranges w0 → is_Some (c_machines w !! 0) → is_Some (c_machines w !! 1) → good 1 w → up w.
Proof.
  intros Hr H0 H1 Hg. split; [|exact Hg]. intros k. rewrite Hr. cbn.
  destruct (in_range [] k _); [exact H0|]. destruct (in_range _ k _); [exact H1|exact H0].
Qed.
Lemma w_committed_up : up w_commit.1.2.
Proof. apply w_up; [vm_compute; reflexivity|by vm_compute; eexists..|exact w_committed_good]. Qed.

Lemma resolver_asks_primary_witness :
  ∃ w', LockResolver.resolve_lock {| LockResolver._lock_ttl := 5 |} b None w_commit.1.2 = (w', Ok true) ∧
    published 1 (machine_of w' 1) b two 2.
Proof.
  destruct (resolver_asks_primary 5 b a two 100 1 w_commit.1.2 w_committed_up (proj2 no_sep_ab) (proj1 no_sep_ab))
    as (w'&ok&Hr&_&Hv); [reflexivity|vm_compute; reflexivity|].
  assert (verdict_of 5 (c_now w_commit.1.2) (machine_of w_commit.1.2 (locate (c_ranges w_commit.1.2) a)) a 1 = roll_forward 2) as Hvd
    by (vm_compute; reflexivity).
  rewrite Hvd in Hv. destruct Hv as (->&Hp&_). exists w'. split; [exact Hr|].
  replace (locate (c_ranges w_commit.1.2) b) with 1 in Hp by (vm_compute; reflexivity). exact Hp.
Defined.

(** ** A transaction that read "a" before it was committed *)

Definition w_reader : Transaction := add_read a (new_transaction 2 1).
Lemma w_superseded : superseded w_commit.1.2 1 a.
Proof. exists 2. split; [lia|]. vm_compute. by eexists. Qed.

Lemma validation_finds_stale_reads_witness :
  ∃ o, _validate_read_set w_reader w_commit.1.2 = (w_commit.1.2, Ok o) ∧ o ≠ None.
Proof.
  destruct (validation_finds_stale_reads w_reader w_commit.1.2 w_committed_up) as (o&Ho&Hn&_).
  - intros k. cbn. intros [->%elem_of_singleton|[]%elem_of_empty]%elem_of_union. exact (proj1 no_sep_ab).
  - exists o. split; [exact Ho|]. intros Hnone. rewrite Hn in Hnone.
    apply (Hnone a); [apply elem_of_union; left; by apply elem_of_singleton|exact w_superseded].
Defined.
