(* ===== verification/ClientWitnesses.v ===== *)
(** The walk of [ask_shard], the routing cache and the client of a cluster at work. *)

From Stdlib Require Import ZArith Lia.
From S2P Require Import Prelude Bytes PyVal PyOps Engine Mvcc StateMachine Dict Local LocalSpec Router Metadata Shards Coordinator CoordinatorFacts ClusterRuns Routing RoutingFacts RoutingCache RoutingCacheFacts SmartClient SmartClientFacts.

(** The theorems on the walk of [ask_shard], for the shard of [AskedTwice]. *)
Module Walks.
Import ShardLeaders AskedTwice.
Local Open Scope string_scope.

Definition w_leaders : ShardLeaders.t := ShardLeaders.init true.
Lemma w_bound : walk_bound 0 (list_to_set replicas) w_leaders 1 = 9%nat.
Proof. vm_compute. reflexivity. Qed.

Lemma ask_shard_terminates_witness :
  (ask_shard fst snd 9 0 (question []) 1 None (w_leaders, [])).2 ≠ Ok None.
Proof.
  apply (ask_shard_terminates fst snd 0 (question []) (λ _, True) (list_to_set replicas) (λ a, bool_decide (a ∈ replicas))
    (walk_bounded [])).
  - exact I.
  - reflexivity.
  - rewrite w_bound. lia.
Defined.

Lemma w_found : found fst snd 0 (question ["c"]) (λ _, True) (λ a, bool_decide (a ∈ replicas)) "c".
Proof.
  split.
  - intros a w _. by eexists _, _.
  - reflexivity.
  - intros w _. exists w, replicas. split; [reflexivity|]. unfold replicas. set_solver.
  - intros w _. by eexists _, _.
  - intros c w _. unfold ask, question. destruct (decide (c ∈ ["c"])); cbn.
    + rewrite decide_False by done. by eexists _, _.
    + rewrite decide_True by done. by eexists _, _.
  - intros w w' c _ Hc w1 _. replace c with "c" by (vm_compute in Hc; congruence). by eexists _, _.
  - intros c [= ->] w1 _. by eexists _, _.
Qed.

Lemma ask_shard_finds_replica_witness :
  ∃ l' w' a, ask_shard fst snd 9 0 (question ["c"]) 1 None (w_leaders, []) = ((l', w'), Ok (Some (Some a))) ∧
    a.1 ≠ Some ErrorCode.ERR_NOT_LEADER.
Proof.
  destruct (ask_shard_finds_replica fst snd 0 (question ["c"]) (λ _, True) (list_to_set replicas) (λ a, bool_decide (a ∈ replicas))
    (walk_bounded ["c"]) "c" w_found 9 1 None w_leaders []) as (l1&w1&o&Hs&Ho).
  - exact I.
  - reflexivity.
  - reflexivity.
  - by intros ?%elem_of_empty.
  - rewrite w_bound. lia.
  - vm_compute in Hs. injection Hs as <- <- <-. destruct Ho as (l'&w'&a&Hr&Ha&_).
    exists l', w', a. split; [exact Hr|exact Ha].
Defined.

(** ** The same shard, found in a cached table *)

Definition w_placement : ShardPlacement :=
  {| sp_shard_id := 0; sp_start := []; sp_end := [xff]; sp_nodes := [1; 2; 3; 4]; sp_leader_id := Some 1; sp_leader_term := 1;
     sp_addresses := <[1 := "a"]> (<[2 := "b"]> (<[3 := "c"]> (<[4 := "d"]> ∅))) |}.
Definition w_table : RoutingTable := {| rt_version := 1; rt_shards := [(0, w_placement)] |}.
#[local] Instance w_source : TableSource (list string) := {| ts_read := ret w_table; ts_monotonic := ret 10 |}.
#[local] Instance w_own : OwnPlacement (RoutingCache.t * list string) :=
  {| cl_shard_leader _ := ret None; cl_range_map := ret [] |}.
Definition w_shuffle (l : list Z) : list Z := l.
Definition w_cached (c : string) : M (RoutingCache.t * list string) (option (option Z * option string)) :=
  RoutingCache.outside (question [] c).

Lemma w_known : known (list_to_set replicas) w_table.
Proof.
  intros i p n x. unfold Metadata.shard, w_table. cbn. case_decide; [|done]. intros [= <-]. cbn.
  rewrite !lookup_insert_Some, lookup_empty. set_solver.
Qed.
Lemma w_reliable : reliable (λ _ : list string, True) (list_to_set replicas) (λ a, bool_decide (a ∈ replicas)) 0.
Proof.
  split; try done.
  - intros w w' tb _ [= <- <-]. split; [done|exact w_known].
  - intros x w w' c _ [= <- <-]. split; [done|]. rewrite bool_decide_eq_true. by case_decide; split; try done; intros [? ?].
Qed.

(** Asking a node changes nothing in the cache. *)
Lemma w_cached_ask c cw : ∃ r, ask fst snd w_cached c cw = ((cw.1, cw.2 ++ [c])%list, Ok r) ∧
  ∀ o h, r = refused o (Some h) → h = "d".
Proof.
  destruct cw as [x w]. unfold ask, w_cached, RoutingCache.outside, question. cbn.
  rewrite decide_True by done. eexists. split; [done|]. intros o h. by destruct (decide (c = "b")); intros [=].
Qed.

Lemma cached_walk_terminates_witness :
  (@ask_shard _ _ RoutingCache.factory (RoutingCache.router w_shuffle) _ _ fst snd 9 0 w_cached 1 None
     (w_leaders, (RoutingCache.init None 5, []))).2 ≠ Ok None.
Proof.
  apply (cached_walk_terminates w_shuffle (λ _, True) (list_to_set replicas) (λ a, bool_decide (a ∈ replicas)) 0 w_reliable).
  - by intros w w' r Hi [= <- _].
  - intros c w w' r [_ Hi] Ha. destruct (w_cached_ask c w) as (r'&Hr&_). rewrite Hr in Ha. injection Ha as <- _. by split.
  - intros c w w' o h _ Ha. destruct (w_cached_ask c w) as (r'&Hr&Hh). rewrite Hr in Ha. injection Ha as _ ->.
    rewrite (Hh _ _ eq_refl). set_solver.
  - split; [done|]. by intros tb.
  - reflexivity.
  - rewrite w_bound. lia.
Defined.

Lemma w_handles (i : Z) (x : option string) (w : list string) : nf_get_client 0 i x w = (w, Ok x).
Proof. reflexivity. Qed.

(** A reader on node 3, which has a handle on every replica. *)
Lemma replica_reads_stay_in_set_witness :
  RoutingCache.any_replica_for w_shuffle 0 (RoutingCache.with_table w_table (RoutingCache.init (Some 3) 5), [])
    = ((RoutingCache.with_table w_table (RoutingCache.init (Some 3) 5), []), Ok (Some "c")).
Proof.
  destruct (replica_reads_stay_in_set (W := list string) w_shuffle 0 (λ _ x, x) w_handles (λ l, Permutation_refl l) w_table w_placement
    (RoutingCache.with_table w_table (RoutingCache.init (Some 3) 5)) [] eq_refl eq_refl) as (r&Hr&_&_&Hl).
  rewrite Hr, (Hl 3 "c" eq_refl); [reflexivity| |reflexivity]. cbn. set_solver.
Defined.
End Walks.

(** The theorems on the routing cache and on the client of a cluster, for the two shards of
    [HalfCommitted.w0]. *)
Module Clients.
Import HalfCommitted.

#[local] Existing Instances reference_codec MemoryEngine.engine MemoryEngine.laws.

(** ** A client of the two shards *)

Abbreviation V := (TransactionCoordinator.t * LocalCluster.t)%type.

Definition w_data (s : Z) : gmap bytes bytes :=
  if decide (s = 0) then {[a := one]} else if decide (s = 1) then {[b := two]} else ∅.

(** A handle is the number of the shard it reaches. *)
#[local] Instance w_factory : NodeClientFactory V Z := {|
  nf_get_client s _ _ := ret (Some s);
  nf_get_client_at _ _ := ret None;
  nf_forget_client _ _ := ret tt;
  nf_address _ := None
|}.
#[local] Instance w_router : TableRouter V Z := {|
  rt_leader_for_shard s := ret (Some s);
  rt_any_replica_for s := ret (Some s);
  rt_replica_addresses _ := ret [];
  rt_routes := ret (LocalCluster.c_ranges w0);
  rt_shard_for key := ret (Some (locate (LocalCluster.c_ranges w0) key));
  rt_refresh_for_shard _ := ret tt;
  rt_invalidate _ := ret tt
|}.
#[local] Instance w_own : OwnPlacement V := {|
  cl_shard_leader s := ret (Some s); cl_range_map := ret (LocalCluster.c_ranges w0)
|}.
#[local] Instance w_calls : NodeCalls V Z := {|
  nc_get _ _ _ _ := ret (read_failure ErrorCode.ERR_UNKNOWN, None);
  nc_propose _ _ := ret (apply_failure ErrorCode.ERR_UNKNOWN, None);
  nc_scan s start end_ _ _ := ret (SnapshotSpec.rows (w_data s) start end_);
  nc_monotonic := ret 0
|}.

Definition w_client : SmartClient.t := SmartClient.init false 1.
Definition w_fresh (sv : SmartClient.t * V) : Prop := SmartClient._leaders sv.1 = ShardLeaders.init false.

Definition w_state (x : ReadIndexCache.t) (v : V) : SmartClient.t * V :=
  ({| SmartClient._leaders := ShardLeaders.init false; SmartClient._read_index_cache := x |}, v).

Lemma w_forget s : ShardLeaders.forget s (ShardLeaders.init false) = ShardLeaders.init false.
Proof. unfold ShardLeaders.forget, ShardLeaders.init, ShardLeaders.with_hints, ShardLeaders.with_queued, ShardLeaders.with_asked. cbn. by rewrite !delete_empty. Qed.

Lemma w_leader s v :
  ShardLeaders.leader_for_shard s (ShardLeaders.init false, v) = ((ShardLeaders.init false, v), Ok (Some s)).
Proof.
  unfold ShardLeaders.leader_for_shard.
  rewrite (bind_run _ _ _ (ShardLeaders.init false, v) None).
  2:{ unfold ShardLeaders._take_hint, ShardLeaders.mine. cbn. by rewrite lookup_empty, delete_empty. }
  reflexivity.
Qed.

Lemma w_placement :
  disjoint_ranges (LocalCluster.c_ranges w0) ∧ NoDup (LocalCluster.c_ranges w0).*1 ∧
  held_in_range (LocalCluster.c_ranges w0) w_data.
Proof.
  assert (∀ e, e ∈ LocalCluster.c_ranges w0 → e = (0, ([], b)) ∨ e = (1, (b, [xff]))) as Hin.
  { intros e [->|[->|?%elem_of_nil]%elem_of_cons]%elem_of_cons; auto. done. }
  split_and!.
  - intros s1 s2 r1 r2 k [[= -> ->]|[= -> ->]]%Hin [[= -> ->]|[= -> ->]]%Hin; try done.
    + intros [_ Hx]%in_range_iff [Hy _]%in_range_iff. cbn [fst snd] in *. unfold ble in Hy. by rewrite Hx in Hy.
    + intros [Hy _]%in_range_iff [_ Hx]%in_range_iff. cbn [fst snd] in *. unfold ble in Hy. by rewrite Hx in Hy.
  - cbn. rewrite !list.NoDup_cons. repeat split; [set_solver..|constructor].
  - assert (no_sep a ∧ no_sep b) as [Ha Hb] by (split; vm_compute; intros [?|?%elem_of_nil]%elem_of_cons; done).
    intros s r k [[= -> ->]|[= -> ->]]%Hin; unfold w_data.
    + rewrite decide_True by done. intros [v [<- _]%lookup_singleton_Some]. split; [exact Ha|vm_compute; reflexivity].
    + rewrite decide_False, decide_True by done. intros [v [<- _]%lookup_singleton_Some]. split; [exact Hb|vm_compute; reflexivity].
Qed.

Lemma w_piece s start end_ sv : w_fresh sv → ∃ sv',
  SmartClient.scan_piece 5 None Consistency.STRONG s start end_ sv
  = (sv', Ok (SnapshotSpec.rows (w_data s) start end_)) ∧ w_fresh sv'.
Proof.
  destruct sv as [[l x] v]. intros Hf. unfold w_fresh in Hf. cbn in Hf. subst l. exists (w_state x v). split; [|done].
  unfold SmartClient.scan_piece. rewrite (bind_run _ _ _ (w_state x v) None) by done.
  rewrite (bind_run _ _ _ (w_state x v) None) by done.
  rewrite (bind_run _ _ _ (w_state x v)
      (Some (SnapshotSpec.rows (w_data s) start end_))); [done|].
  unfold SmartClient.ask_shard, SmartClient.leaders, bind at 1. cbn [SmartClient._leaders SmartClient._read_index_cache fst snd].
  unfold ShardLeaders.ask_shard. cbn [ShardLeaders.ask_loop].
  rewrite (bind_run _ _ _ _ _ (w_leader s v)).
  rewrite (bind_run _ _ _ (ShardLeaders.init false, v) (ShardLeaders.final (SnapshotSpec.rows (w_data s) start end_))) by done.
  rewrite (bind_run _ _ _ (ShardLeaders.init false, v) tt); [done|].
  unfold ShardLeaders.answered, ShardLeaders._forget_shard, ShardLeaders.mine. cbn [fst snd]. by rewrite w_forget.
Qed.

Lemma w_answers :
  shards_answer (LocalCluster.c_ranges w0) w_data 5 None Consistency.STRONG w_fresh.
Proof.
  split.
  - intros [[l x] v] Hf. unfold w_fresh in Hf. cbn in Hf. subst l. by eexists.
  - intros s r Hin. assert (r = ([], b) ∨ r = (b, [xff])) as [-> | ->].
    { apply elem_of_cons in Hin as [[= -> ->]|Hin]; [by left|].
      apply elem_of_cons in Hin as [[= -> ->]|?%elem_of_nil]; [by right|done]. }
    all: vm_compute; intros [?|?%elem_of_nil]%elem_of_cons; done.
  - intros s r start end_ sv _ Hf _ _. destruct (w_piece s start end_ sv Hf) as (sv'&Hs&Hf').
    eexists _, _. split_and!; [exact Hs|exact Hf'|by left].
Qed.
Lemma w_all_answer : all_answer (LocalCluster.c_ranges w0) 5 None Consistency.STRONG w_fresh.
Proof.
  intros s r start end_ sv sv' x _ Hf _ _ Hr. destruct (w_piece s start end_ sv Hf) as (sv1&Hs&_). congruence.
Qed.
Lemma sharded_scan_is_one_scan_witness :
  ∃ sv', SmartClient.scan 5 a [xff] None Consistency.STRONG (w_client, (c0, w0)) = (sv', Ok [(a, one); (b, two)]).
Proof.
  destruct w_placement as (Hd&Hn&Hh).
  destruct (sharded_scan_is_one_scan (LocalCluster.c_ranges w0) w_data 5 None Consistency.STRONG w_fresh
    Hd Hn Hh w_answers a [xff] (w_client, (c0, w0))) as (sv'&o&Hs&_&_&Ho).
  - by left.
  - reflexivity.
  - vm_compute. intros [?|?%elem_of_nil]%elem_of_cons; done.
  - vm_compute. intros [?|?%elem_of_nil]%elem_of_cons; done.
  - exists sv'. rewrite Hs, (Ho w_all_answer). vm_compute. reflexivity.
Defined.

(** ** A commit *)

Definition w_pending : V := ((TransactionCoordinator.begin;;; TransactionCoordinator.add_write 1 a one) (c0, w0)).1.
Definition w_commit : (SmartClient.t * V) * result (bool * option Z) := SmartClient.commit [] 1 (w_client, w_pending).
Lemma w_client_commit_answer : w_commit.2 = Ok (true, Some 2).
Proof. vm_compute. reflexivity. Qed.

Lemma client_commit_is_committed_witness : is_committed 1 w_commit.1.2.1.
Proof.
  apply (client_commit_is_committed [] 1 (w_client, w_pending) w_commit.1 (true, Some 2)).
  rewrite <-w_client_commit_answer. apply surjective_pairing.
Defined.
End Clients.
