(* ===== verification/RecoveryWitnesses.v ===== *)
(** Recoveries and the cluster object at work. *)

From Stdlib Require Import ZArith Lia.
From S2P Require Import Prelude Bytes PyVal PyOps Engine Mvcc StateMachine StateMachineFacts Dict Router Metadata MetadataClient RaftStorage RaftNode RaftMachines Routing RoutingCache Publisher RecoveryNotes Recovery RecoveryFacts RecoveryCopy RecoveryDesk ShardServer ShardedCluster ShardedFacts.

(** The theorems on recovery, at two storages that hold a note of each kind, and at a move
    of one row from nodes 1 and 2 to nodes 3 and 4. *)
Module Moves.
Import RecoveryState RecoveryRunner.

#[local] Existing Instances reference_codec MemoryEngine.engine MemoryEngine.laws.

(** Two replicas of shard 0; one holds a note of a split already. *)
Definition rw_old : PendingNote := note_split 0 (b_ "k") 2.
Definition rw_storages : list MemoryEngine.t :=
  (write_note [MemoryEngine.init] rw_old).1 ++ [MemoryEngine.init].
Definition rw_note : PendingNote := note_move 0 [1; 2] [3; 4].

Lemma notes_survive_witness :
  ∃ l', write_note rw_storages rw_note = (l', Ok tt) ∧
    read_note (drop 1 l') 0 MIGRATION_RECORD_PREFIX = Ok (Some rw_note) ∧
    read_note l' 0 SPLIT_RECORD_PREFIX = Ok (Some rw_old).
Proof.
  destruct (notes_survive rw_storages rw_note) as (l'&Hw&Hr&Ho&_).
  - right. by exists 0, [1; 2], [3; 4].
  - vm_compute. reflexivity.
  - exists l'. split; [exact Hw|]. split.
    + apply Hr; [|intros s; apply (subseteq_drop 1)].
      assert (length l' = 2%nat) as Hl.
      { transitivity (length (write_note rw_storages rw_note).1); [by rewrite Hw|vm_compute; reflexivity]. }
      by destruct l' as [|? [|? ?]].
    + rewrite Ho; [vm_compute; reflexivity|done].
Defined.

(** ** A move that is finished *)

(** A side with one shard of one row, at version 5, that nodes 1 and 2 serve.  Its state
    is what was proposed to the group on nodes 3 and 4. *)
#[local] Instance rw_view : RecoveryView (list bytes) (list Z) := {|
  rv_shard_ids := λ _, ret [0];
  rv_node_ids := λ _, ret [1; 2; 3; 4];
  rv_range_map := λ _, ret [(0, ([], b_ "z"))];
  rv_pending_notes _ := λ _, ret [rw_note];
  rv_remember_note _ := λ _, ret tt;
  rv_forget_note _ := λ _, ret tt;
  rv_serving_nodes _ := λ _, ret (Some [2; 1]);
  rv_shard_replica_ids _ := λ _, ret [1; 2];
  rv_addresses_on _ _ := λ _, ret ∅;
  rv_leader_client _ := λ _, ret (Some [1; 2]);
  rv_leader_client_for_nodes _ ns := λ _, ret (Some ns);
  rv_freeze _ _ _ := λ _, ret tt;
  rv_unfreeze _ _ := λ _, ret tt;
  rv_ensure_serving _ _ := λ _, ret [1; 2];
  rv_ensure_group_on _ _ := λ _, ret tt;
  rv_close_group_on _ _ := λ _, ret [];
  rv_apply_split_locally _ _ _ := λ _, ret tt;
  rv_apply_move_locally _ _ := λ _, ret tt;
  rv_metadata_client := λ _, ret true;
  rv_split_shard _ _ _ _ _ := λ _, ret (apply_success None);
  rv_move_shard _ _ _ _ := λ _, ret (apply_success None) |}.
#[local] Instance rw_calls : RowCalls (list bytes) (list Z) := {|
  rc_scan _ _ _ := ret [(b_ "a", b_ "1")];
  rc_scan_versions _ _ _ := ret [(b_ "a", b_ "1", 5)];
  rc_get _ _ := ret (read_success PNone 0);
  rc_get_write_record _ _ := ret None;
  rc_propose _ b := λ l, (l ++ [b], Ok (apply_success None)) |}.

(** The runner after it has read the notes, and its run. *)
Definition rw_runner : RecoveryState.t := (load_pending_migrations (C := list Z) (init, @nil bytes)).1.1.
Definition rw_state : MigrationState := new_migration 0 [3; 4] [1; 2].
Import TracedView.
Definition rw_end := _resume_migration (C := list Z) 0 0 (rw_runner, (@nil bytes, @nil event)).

Lemma move_waits_for_the_table_witness :
  rw_end.2 = Ok true ∧ length rw_end.1.2.1 = 1%nat ∧
  (∀ pre e post, rw_end.1.2.2 = pre ++ e :: post → allowed 0 [1; 2] [3; 4] pre e) ∧
  landed 0 [3; 4] rw_end.1.2.2.
Proof.
  split; [vm_compute; reflexivity|]. split; [vm_compute; reflexivity|].
  apply (move_waits_for_the_table (C := list Z) 0 0 0 rw_state rw_runner rw_end.1.1 [] rw_end.1.2.1 rw_end.1.2.2 (Ok true));
    vm_compute; reflexivity.
Defined.

(** ** A row that is copied *)

(** The row of [RefusedRow], and the whole of its shard moved to nodes 3 and 4. *)
Lemma rw_empty_entry ns k ts : entry MemoryEngine.init ns k ts = None.
Proof. unfold entry. by case_decide. Qed.
Lemma rw_empty_hist k ts : hist MemoryEngine.init k ts = None.
Proof. apply hist_None, rw_empty_entry. Qed.
Lemma rw_empty_sound : sound RefusedRow.empty.
Proof.
  split; [|intros k ts Hk [raw He]; cbn in He; by rewrite rw_empty_entry in He|done].
  split; intros; rewrite ?rw_empty_entry in *; try done. intros k [v Hv]. done.
Qed.
Lemma rw_empty_copy s : copy_of (b_ "a") (b_ "z") s RefusedRow.empty.
Proof.
  split; [exact rw_empty_sound|..].
  - intros k Hk _. rewrite (get_newest_lock_newest _ _ None); [done|apply rw_empty_sound|done|].
    intros ts. apply rw_empty_entry.
  - intros k ts o _ _. cbn. by rewrite rw_empty_hist.
Qed.

Lemma rw_set : ∃ s, apply_op 0 (OSet (b_ "m") (b_ "v") 5 None) RefusedRow.empty = (s, apply_success None) ∧
  s = RefusedRow.holding_m.
Proof. eexists. split; [|reflexivity]. vm_compute. reflexivity. Qed.
Lemma rw_rows k ts : no_sep k →
  hist (MVCCStateMachine._storage RefusedRow.holding_m) k ts
  = if decide (k = b_ "m" ∧ ts = 5) then Some (Some (b_ "v")) else None.
Proof.
  intros Hk. destruct rw_set as (s&Hs&<-).
  destruct (moved_entries _ _ _ _ _ _ _ _ Hs eq_refl) as (_&_&_&Hh&_). rewrite Hh by done.
  case_decide; [done|]. apply rw_empty_hist.
Qed.
Lemma rw_sound : sound RefusedRow.holding_m.
Proof.
  split; [|intros k ts Hk [raw He]|done].
  - eapply sm_step_inv; [apply apply_op_step|apply rw_empty_sound].
  - assert (is_Some (hist (MVCCStateMachine._storage RefusedRow.holding_m) k ts)) as Hs.
    { unfold hist. rewrite He. by eexists. }
    rewrite rw_rows in Hs by done. case_decide as Hd; [destruct Hd as [_ ->]; vm_compute; done|by destruct Hs].
Qed.

Definition rw_move := finish_move (C := group) 0 0 (with_objects [rw_state] init, (RefusedRow.start, @nil desk)).

Lemma table_is_told_after_the_copy_witness :
  rw_move.2 = Ok true ∧ names rw_move.1.2.1 = [3; 4] ∧
  (∀ u, u ∈ rw_move.1.2.2 → machines u (0, [1; 2]) = machines RefusedRow.start (0, [1; 2]) ∧
     alike (b_ "a") (b_ "z") (machines u (0, [1; 2])) (machines u (0, [3; 4]))) ∧
  rw_move.1.2.2 ≠ [].
Proof.
  split; [vm_compute; reflexivity|]. split; [vm_compute; reflexivity|].
  assert (rw_move = ((rw_move.1.1, (rw_move.1.2.1, rw_move.1.2.2)), Ok true)) as Hrun by (vm_compute; reflexivity).
  destruct (table_is_told_after_the_copy (E := MemoryEngine.t) (C := group) 0 0 [1; 2] [3; 4] 0 (b_ "a") (b_ "z") rw_state
    (with_objects [rw_state] init) rw_move.1.1 RefusedRow.start rw_move.1.2.1 rw_move.1.2.2 (Ok true)) as [Hall Hsome].
  1-6: vm_compute; reflexivity || discriminate.
  1-2: apply (bool_decide_unpack (no_sep _)); vm_compute; exact I.
  - by intros r w w' m [= _ <-].
  - exact rw_sound.
  - intros k ts o Hk _. cbn. rewrite rw_rows by done. case_decide as Hd; [destruct Hd as [_ ->]; done|done].
  - apply rw_empty_copy.
  - exact Hrun.
  - split; [exact Hall|]. by apply Hsome.
Defined.
End Moves.

(** The theorems on the cluster object, for four nodes and a shard on nodes 1 and 2, in a
    world where every node that is running gets its leader elected and hears from its peers.

    The shard is moved to nodes 3 and 4.  The routing table refuses the move, and takes it
    the second time. *)
Module Nodes.
Import RecoveryState ShardedRaftCluster.

#[local] Existing Instances reference_codec MemoryEngine.engine MemoryEngine.laws.

(** Whether the table takes a move, and the nodes it names. *)
Record sworld := { takes : bool; named : list Z }.

Abbreviation sw_machine := (MVCCStateMachine.t MemoryEngine.t * list Z)%type.
Abbreviation sw_node := (MemoryRaftNode.t sw_machine MemoryEngine.t).

(** The last node of a group that is running leads it. *)
Definition elect (n : sw_node) : sw_node :=
  if MemoryRaftNode._shutdown_flag n then n
  else if forallb (λ p, p <? MemoryRaftNode._node_id n) (MemoryRaftNode._peers n)
  then MemoryRaftNode.with_state LEADER (MemoryRaftNode.with_current_term 1 n) else n.

#[local] Instance sw_outside : ServerWorld sworld sw_machine MemoryEngine.t := {|
  sw_state_machine := ret (RefusedRow.empty, []);
  sw_storage := Some (λ _ _, ret MemoryEngine.init);
  sw_listen _ := ret tt;
  sw_close _ := ret tt;
  sw_data_dir _ := None;
  sw_isdir _ := ret false;
  sw_exists _ := ret false;
  sw_rename _ _ := ret tt;
  sw_sibling _ b := b;
  sw_time := ret 0;
  sw_others ns w := (map elect ns, w);
  sw_round _ _ _ n := (n, Some (true, MemoryRaftNode._current_term n)) |}.

#[local] Instance sw_table : ClusterTable sworld := {|
  ct_table := λ w, (w, Ok {| rt_version := 1; rt_shards := [(0, {| sp_shard_id := 0; sp_start := []; sp_end := [xff];
    sp_nodes := named w; sp_addresses := ∅; sp_leader_id := None; sp_leader_term := 0 |})] |});
  ct_split_shard _ _ _ _ _ := ret (apply_success None);
  ct_move_shard _ _ ns _ := λ w,
    if takes w then ({| takes := true; named := ns |}, Ok (apply_success None))
    else (w, Ok (apply_failure 14)) |}.

Abbreviation sw_state := (t * (list sw_node * sworld))%type.
(** A node answers out of its own machine, and takes a command at once. *)
Definition sw_read {A} (h : nat) (f : MVCCStateMachine.t MemoryEngine.t → result A) : M sw_state A :=
  let* m := machine_of h in reads (λ _, f m).
#[local] Instance sw_calls : RowCalls sw_state nat := {|
  rc_scan h a b := sw_read h (λ m, let? rows := MVCCStateMachine.scan_versions m a b None in
                                   let? rows := bytes_rows rows in Ok rows.*1);
  rc_scan_versions h a b := sw_read h (λ m, let? rows := MVCCStateMachine.scan_versions m a b None in bytes_rows rows);
  rc_get h k := sw_read h (λ m, MVCCStateMachine.get m k None);
  rc_get_write_record h k := sw_read h (λ m, MVCCStateMachine.get_write_record m k);
  rc_propose h b := below (on_node h (λ n,
    let '(m, r) := MVCCStateMachine.apply 0 b (MemoryRaftNode._state_machine n).1 in
    (MemoryRaftNode.with_state_machine (m, []) n, Ok r))) |}.

(** The cluster is started and elects its leader; the move is asked for while the table
    refuses it, and again when it would take it. *)
Definition sw_start := (start 2 None {[0 := [1; 2]]} true
  (RecoveryState.init, (ShardedRaftCluster.init 4 1, (@nil sw_node, {| takes := false; named := [1; 2] |})))).1.
Definition sw_elected := (sw_start.1, (below others sw_start.2).1).
Definition sw_refused := move_shard 2 0 [3; 4] sw_elected.
Definition willing (b : RecoveryState.t * sw_state) : RecoveryState.t * sw_state :=
  (b.1, (b.2.1, (b.2.2.1, {| takes := true; named := named b.2.2.2 |}))).
Definition sw_again := move_shard 2 0 [3; 4] (willing sw_refused.1).
Definition sw_direct := move_shard 2 0 [3; 4] (willing sw_elected).
Definition frozen (b : RecoveryState.t * sw_state) : list bool :=
  omap (λ h, MemoryRaftNode._writes_frozen <$> b.2.2.1 !! h) (_nodes_on [1; 2] 0 b.2.1).

(** Without the refusal the move is made. *)
Lemma sw_direct_moves : sw_direct.2 = Ok true ∧ named sw_direct.1.2.2.2 = [3; 4].
Proof. vm_compute. done. Qed.

Lemma sw_stays_down ns w h : down ns h → down (sw_others ns w).1 h.
Proof.
  intros (n&Hn&Hd&Hf). exists n. split; [|done]. cbn. rewrite list_lookup_fmap, Hn. cbn. unfold elect. by rewrite Hd.
Qed.

(** Whether the handle kept for the shard on a node is of a node that was closed. *)
Definition stale_at (s : sw_state) (n : Z) : bool :=
  match LocalNodeClientFactory._clients (_node_clients s.1) !! (0, n) with
  | Some h => match s.2.1 !! h with
              | Some x => MemoryRaftNode._shutdown_flag x && bool_decide (MemoryRaftNode._state x = FOLLOWER)
              | None => false
              end
  | None => false
  end.
Lemma stale_at_down s n : stale_at s n = true →
  ∃ h, LocalNodeClientFactory._clients (_node_clients s.1) !! (0, n) = Some h ∧ down s.2.1 h.
Proof.
  unfold stale_at. destruct (_ !! (0, n)) as [h|]; [|done]. intros Hx. exists h. split; [done|]. unfold down.
  destruct (s.2.1 !! h) as [x|]; [|done].
  apply andb_true_iff in Hx as [Hx Hf%bool_decide_eq_true]. by exists x.
Qed.
Lemma sw_stale : stale 0 [3; 4] (willing sw_refused.1).2.
Proof.
  intros n Hn. apply stale_at_down. revert n Hn. apply list.Forall_forall. repeat constructor.
Qed.

(** The refused move thawed the shard.  The second one leaves it frozen, with the new groups
    standing on both nodes. *)
Definition sw_rebuilt := ensure_group_on 0 [3; 4] (willing sw_refused.1).1 (willing sw_refused.1).2.

#[local] Instance sw_side : RecoveryView sw_state nat := view 2.
Lemma rebuilt_group_is_never_found_witness :
  sw_refused.2 = Ok false ∧ frozen sw_refused.1 = [false; false] ∧
  sw_again.2 = Ok false ∧ frozen sw_again.1 = [true; true] ∧
  (∀ n, n ∈ [3; 4] → is_Some (held_by n 0 sw_rebuilt.1.1)) ∧
  ∃ s2, RecoveryRunner.wait_for_group (C := nat) 1000 0 [3; 4] ((willing sw_refused.1).1, sw_rebuilt.1)
        = (((willing sw_refused.1).1, s2), Ok None).
Proof.
  split; [vm_compute; reflexivity|]. split; [vm_compute; reflexivity|].
  split; [vm_compute; reflexivity|]. split; [vm_compute; reflexivity|].
  destruct (rebuilt_group_is_never_found 2 sw_stays_down 0 [3; 4] [3; 4] 1000 (willing sw_refused.1).1
    (willing sw_refused.1).2 sw_rebuilt.1 sw_stale) as (Hheld&_&Hw).
  - assert (sw_rebuilt.2 = Ok tt) as Hok by (vm_compute; reflexivity).
    fold sw_rebuilt. destruct sw_rebuilt as [s1 a]. cbn in *. by rewrite Hok.
  - split; [exact Hheld|]. destruct Hw as (s2&Hw&_); [done|]. exists s2. exact Hw.
Defined.

(** ** The nodes of a shard *)

Definition sw_served := ensure_serving 2 0 [3; 4] sw_elected.1 sw_elected.2.

Lemma ensure_serving_is_exact_witness :
  sw_served.2 = Ok [1; 2] ∧ (∀ n, is_Some (held_by n 0 sw_served.1.1) ↔ n ∈ [3; 4]).
Proof.
  split; [vm_compute; reflexivity|].
  apply (ensure_serving_is_exact 2 0 [3; 4] sw_elected.1 sw_elected.2 sw_served.1 [1; 2]).
  - intros n v. unfold get_shard_server. intros Hv%d_get_Some_in.
    assert (Forall (λ e, ShardServer._node_id e.2 = e.1) (_shard_servers sw_elected.2.1)) as Hall
      by (vm_compute; repeat constructor).
    rewrite list.Forall_forall in Hall. by apply (Hall (n, v)).
  - assert (sw_served.2 = Ok [1; 2]) as Hok by (vm_compute; reflexivity).
    fold sw_served. destruct sw_served as [s1 a]. cbn in *. by rewrite Hok.
Defined.
End Nodes.
