(* ===== verification/ProcessWitnesses.v ===== *)
(** Clients across a wire, and the process of a node, at work. *)

From Stdlib Require Import ZArith Lia.
From S2P Require Import Prelude Bytes PyVal PyOps Engine Mvcc StateMachine StateMachineFacts Replicas Groups Tso Dict Local Router Metadata MetadataClient RaftStorage RaftNode RaftNodeFacts RaftRuns RaftMachines Routing RoutingCache Publisher RecoveryNotes Recovery RecoveryDesk ShardServer ShardedCluster ShardedFacts Wire ClientServicer RemoteNode RemoteFacts NodeHere RemoteGroups RemoteGroupFacts RemoteClock RaftWire Launcher LauncherFacts NodeView NodeViewFacts ClusterNode ClusterNodeFacts Cli CliFacts Witnesses.

(** The theorems on clients across a wire at work, over a wire that delivers every message to
    the process that listens at its address. *)
Module Remote.
(** A command the clock refuses is refused with a code. *)
Lemma tso_refusal_has_code `{!Msgpack} c s : ar_success (TSOSMStateMachine.apply c s).2 = false →
  wire_code (ar_error_code (TSOSMStateMachine.apply c s).2) ≠ groups_pb2.OK.
Proof.
  unfold TSOSMStateMachine.apply, TSOSMStateMachine._apply_allocate, bind, reads, updates.
  destruct (unpackb c) as [cmd|]; [|done]. cbn. destruct (py_get cmd "type") as [ty|]; [|done]. cbn.
  case_decide; [|done]. destruct (py_get_or cmd "batch_size" _) as [v|]; [|done]. cbn.
  destruct (as_int v) as [z|]; [|done]. cbn. by destruct (packb _).
Qed.

#[local] Existing Instances reference_codec MemoryEngine.engine MemoryEngine.laws.

(** A channel is the address it was opened to; a servicer that raises is a call that fails. *)
Module DirectWire.
Section wire.
Context {W : Type} `{!Listening W}.

Definition grpc : Grpc W string := {|
  insecure_channel a w := (w, a);
  channel_close _ w := w;
  unary Q R m ch q w := match handle m ch q w with
                        | (w', Ok r) => (w', Answered r)
                        | (w', Raise _) => (w', RpcError)
                        end
|}.
#[local] Existing Instance grpc.

Definition laws : GrpcLaws W string.
Proof.
  refine {| channel_to ch := ch |}; intros Q R m ch q w w'; cbn.
  - intros r. destruct (handle m ch q w) as [w1 [x|e]]; [|done]. by intros [= -> ->].
  - destruct (handle m ch q w) as [w1 [x|e]]; [done|]. intros [= ->]. right. by eexists.
  - by destruct (handle m ch q w) as [w1 [x|e]].
Defined.
End wire.
End DirectWire.

(** ** A node behind its servicers *)

Abbreviation rm_machine := (MVCCStateMachine.t MemoryEngine.t * list Z)%type.
Abbreviation rm_node := (MemoryRaftNode.t rm_machine MemoryEngine.t).

(** A group of one: its leader asks nobody, and no other thread does anything. *)
Definition rm_rounds (_ : Z) (n : rm_node) : rm_node * option (bool * Z) := (n, None).
#[local] Instance rm_here : NodeHere rm_node unit := node_here rm_rounds id 0.
#[local] Instance rm_peer : RaftPeer rm_node unit := raft_peer.
#[local] Instance rm_client : NodeClient rm_node (LocalNodeClient.t unit) := LocalNodeClient.client.

Definition rm_servicer : ClientServicer.t rm_node unit (LocalNodeClient.t unit) :=
  ClientServicer.init tt None None.
Definition rm_raft : RaftServicer.t unit := {| RaftServicer._node := tt |}.

(** One process, which answers at every address. *)
#[local] Instance rm_listening : Listening rm_node := {|
  handle Q R m := match m in rpc Q R return string → Q → M rm_node R with
    | Get => λ _, ClientServicer.Get rm_servicer
    | Scan => λ _, ClientServicer.Scan rm_servicer
    | Propose => λ _, ClientServicer.Propose rm_servicer
    | GetLock => λ _, ClientServicer.GetLock rm_servicer
    | GetWriteRecord => λ _, ClientServicer.GetWriteRecord rm_servicer
    | FollowerReadIndex => λ _, ClientServicer.FollowerReadIndex rm_servicer
    | RequestVote => λ _, RaftServicer.RequestVote rm_raft
    | AppendEntries => λ _, RaftServicer.AppendEntries rm_raft
    | InstallSnapshot => λ _, RaftServicer.InstallSnapshot rm_raft
    | ListShards | GetTimestampBatch => λ _ _, raise RuntimeError
    end
|}.
#[local] Existing Instances DirectWire.grpc DirectWire.laws.

Definition rm_address : string := "10.0.0.1:50051".
Definition rm_handle : RemoteNodeClient.t string :=
  {| RemoteNodeClient._address := rm_address; RemoteNodeClient._channel := rm_address |}.
Lemma rm_serves : serves (channel_to (RemoteNodeClient._channel rm_handle)) rm_servicer.
Proof. by split. Qed.

Lemma unpack_ordinary_codec : ∀ b, ordinary (unpackb b).
Proof. intros b code key hint. cbn. by case_match. Qed.
#[local] Instance rm_clean : CleanNode rm_node unit := clean_node_here rm_rounds id 0 unpack_ordinary_codec.

(** The node after it was elected and took one write. *)
Definition rm_command : bytes :=
  match serialize_command (op_type (OSet (b_ "k") (b_ "v") 7 None)) (op_kwargs (OSet (b_ "k") (b_ "v") 7 None)) with
  | Ok b => b | Raise _ => [] end.
Definition rm_start : rm_node :=
  RaftRuns.new_node 1 [] ({| MVCCStateMachine._storage := MemoryEngine.init; MVCCStateMachine._last_applied_timestamp := 0 |}, [3; 5])
    MemoryEngine.init 0 100.
Definition rm_leader : rm_node :=
  (run [ECampaign; EProposeAdmit rm_command; EProposeAppend rm_command; EProposeDone] rm_start).1.

Definition rm_read : ReadResult :=
  {| rr_success := true; rr_value := PBytes (b_ "v"); rr_commit_ts := 7; rr_error_code := None;
     rr_read_index := Some 2 |}.
Lemma rm_named_read : RemoteNodeClient.get rm_handle (b_ "k") (Some 9) (Some 2) rm_leader = (rm_leader, Ok (rm_read, None)).
Proof. vm_compute. reflexivity. Qed.
Lemma rm_unnamed_read : RemoteNodeClient.get rm_handle (b_ "k") (Some 9) None rm_leader = (rm_leader, Ok (rm_read, None)).
Proof. vm_compute. reflexivity. Qed.

Lemma remote_get_is_local_get_witness :
  LocalNodeClient.get (ClientServicer._client rm_servicer) (b_ "k") (Some 9) (Some 2) rm_leader = (rm_leader, Ok rm_read).
Proof.
  destruct (remote_get_is_local_get rm_handle rm_servicer (b_ "k") (Some 9) 2 rm_leader rm_serves ltac:(done)) as [Hr _].
  exact (proj1 (Hr rm_leader rm_read None rm_named_read)).
Defined.

Lemma unnamed_read_is_confirmed_witness :
  ∃ w1, confirmed rm_servicer 2 rm_leader w1 ∧ nh_get tt (b_ "k") (Some 9) (Some 2) w1 = (rm_leader, Ok rm_read).
Proof.
  exact (unnamed_read_is_confirmed rm_handle rm_servicer (b_ "k") (Some 9) rm_leader rm_leader rm_read None 2
    rm_serves rm_unnamed_read eq_refl).
Defined.

(** A vote request and a heartbeat arrive at a node as they were sent. *)
Definition rm_network : RaftNetworkClient.t string :=
  {| RaftNetworkClient._peer_addresses := {[1 := rm_address]};
     RaftNetworkClient._channels := {[1 := rm_address]} |}.
Definition rm_vote : RequestVoteRequest :=
  {| rv_term := 4; rv_candidate_id := 2; rv_last_log_index := 9; rv_last_log_term := 3 |}.
Lemma rm_raft_listens : raft_listens (channel_to rm_address) rm_raft.
Proof. by split. Qed.
Lemma raft_messages_cross_unchanged_witness :
  carries (RaftNetworkClient.request_vote rm_network 1) (rp_request_vote tt) ∧
  (RaftNetworkClient.request_vote rm_network 1 rm_vote rm_leader).2 = Ok (Some {| rvr_term := 4; rvr_vote_granted := true |}).
Proof.
  split; [|vm_compute; reflexivity].
  exact (proj1 (raft_messages_cross_unchanged rm_network 1 rm_address rm_raft eq_refl rm_raft_listens)).
Defined.

(** ** The clock *)

Abbreviation clock := (LocalGroup.node TSOSMStateMachine.apply TSOSMStateMachine.init).
(** Every address is the leader's. *)
Definition gw_leader (_ : string) : option (option string) := None.
#[local] Instance gw_listening : Listening clock := {|
  handle Q R m := match m in rpc Q R return string → Q → M clock R with
    | GetTimestampBatch => λ a count,
        let* r := TSOServicer.GetTimestampBatch (gw_leader a) count in ret (tso_response r)
    | _ => λ _ _, raise RuntimeError
    end
|}.

Lemma gw_refusals c (n n' : clock) r :
  g_propose c n = (n', r) → ar_success r = false → wire_code (ar_error_code r) ≠ groups_pb2.OK.
Proof.
  intros [= _ <-]. unfold LocalGroup.propose. pose proof (tso_refusal_has_code c (LocalGroup.machine (`n))) as Hc.
  by destruct (TSOSMStateMachine.apply c _) as [s' r].
Qed.

Definition gw_seeds (a : string) : GroupClient.t :=
  {| GroupClient._seeds := [a]; GroupClient._owns_channels := true; GroupClient._preferred := None |}.
Definition gw_clients : list (RemoteTSOClient.t * (GroupClient.t * ChannelPool.t string)) :=
  [(RemoteTSOClient.init 2, (gw_seeds "10.0.0.1:9001", ChannelPool.init));
   (RemoteTSOClient.init 1, (gw_seeds "10.0.0.2:9001", ChannelPool.init))].
Definition gw_start : clock := LocalGroup.start TSOSMStateMachine.apply TSOSMStateMachine.init.

Lemma remote_clients_never_collide_witness :
  (remote_calls 5 [0; 1; 0; 1; 0]%nat (gw_start, gw_clients)).2 = [(0%nat, 1); (1%nat, 3); (0%nat, 2); (1%nat, 4); (0%nat, 5)] ∧
  StronglySorted (λ p q, p.2 ≠ q.2 ∧ (p.1 = q.1 → p.2 < q.2)) (remote_calls 5 [0; 1; 0; 1; 0]%nat (gw_start, gw_clients)).2.
Proof.
  split; [vm_compute; reflexivity|].
  pose proof (remote_clients_never_collide gw_leader (λ _ _ _, eq_refl) (λ _ _, eq_refl) gw_refusals 5
    [0; 1; 0; 1; 0]%nat gw_start gw_clients) as Hc.
  destruct (remote_calls _ _ _) as [[n' cs'] given] eqn:Hcalls. apply Hc.
  - repeat constructor; eexists; (split; [reflexivity|lia]).
  - assert (g_log n' = [w_alloc 2; w_alloc 1; w_alloc 1; w_alloc 2]) as ->.
    { change n' with ((n', cs'), given).1.1. rewrite <-Hcalls. vm_compute. reflexivity. }
    repeat constructor; apply w_alloc_forward; done.
Defined.

(** ** A walk *)

(** Of three members the first is down, the second names the third, which leads. *)
Definition gw_follows : groups_msg.GetTimestampBatchResponse :=
  {| groups_msg.tb_error_code := groups_pb2.NOT_LEADER; groups_msg.tb_leader_address := Some "c:1"%string;
     groups_msg.tb_start_ts := None; groups_msg.tb_end_ts := None |}.
Definition gw_leads : groups_msg.GetTimestampBatchResponse :=
  {| groups_msg.tb_error_code := groups_pb2.OK; groups_msg.tb_leader_address := None;
     groups_msg.tb_start_ts := Some 1; groups_msg.tb_end_ts := Some 10 |}.
Definition gw_answer (a : string) : call groups_msg.GetTimestampBatchResponse :=
  if decide (a = "b:1"%string) then Answered gw_follows
  else if decide (a = "c:1"%string) then Answered gw_leads else RpcError.
#[local] Instance gw_members : Listening unit := {|
  handle Q R m := match m in rpc Q R return string → Q → M unit R with
    | GetTimestampBatch => λ a _,
        match gw_answer a with Answered r => ret r | _ => raise RuntimeError end
    | _ => λ _ _, raise RuntimeError
    end
|}.
Definition gw_group : GroupClient.t :=
  {| GroupClient._seeds := ["a:1"; "b:1"]%string; GroupClient._owns_channels := true;
     GroupClient._preferred := None |}.
(** The pool's channels are to the addresses they are kept under. *)
Definition gw_pool (pw : ChannelPool.t string * unit) : Prop :=
  ∀ a ch, ChannelPool._channels pw.1 !! a = Some ch → ch = a.

Lemma gw_stable address pw : gw_pool pw →
  ∃ pw', GroupClient.call_at GetTimestampBatch 10 address pw = (pw', Ok (gw_answer address)) ∧ gw_pool pw'.
Proof.
  destruct pw as [p []]. intros Hp. unfold GroupClient.call_at, bind, ChannelPool.channel.
  assert (∀ q, gw_pool (q, tt) → ∃ pw', (let '(w', r) := unary GetTimestampBatch address 10 tt in ((q, w'), Ok r))
    = (pw', Ok (gw_answer address)) ∧ gw_pool pw') as Hcall.
  { intros q Hq. exists (q, tt). split; [|done]. cbn. unfold gw_answer. repeat case_decide; done. }
  destruct (ChannelPool._channels p !! address) as [ch|] eqn:Hch.
  - rewrite (Hp _ _ Hch). by apply Hcall.
  - apply Hcall. intros a ch. cbn. destruct (decide (a = address)) as [->|Hne].
    + rewrite lookup_insert_eq. by intros [= <-].
    + rewrite lookup_insert_ne by done. apply Hp.
Qed.
Lemma gw_reached a :
  reached groups_msg.tb_error_code groups_msg.tb_leader_address gw_answer (GroupClient._candidates gw_group) a →
  a ∈ ({["a:1"; "b:1"; "c:1"]}%string : gset string).
Proof.
  induction 1 as [a Ha|a r h _ _ Hr _ Hn].
  - vm_compute in Ha. set_solver.
  - unfold gw_answer in Hr. repeat case_decide; simplify_eq; cbn in Hn; simplify_eq; set_solver.
Qed.

Lemma group_walk_answers_witness :
  ∃ g' pw' x, GroupClient._ask GetTimestampBatch groups_msg.tb_error_code groups_msg.tb_leader_address 10 6
      (gw_group, (ChannelPool.init, tt)) = ((g', pw'), x) ∧ gw_pool pw' ∧
    walk_end groups_msg.tb_error_code groups_msg.tb_leader_address gw_answer (GroupClient._candidates gw_group)
      gw_group g' x.
Proof.
  apply (group_walk_answers GetTimestampBatch groups_msg.tb_error_code groups_msg.tb_leader_address 10 gw_pool
    gw_answer {["a:1"; "b:1"; "c:1"]}%string 6 gw_group (ChannelPool.init, tt)).
  - exact gw_stable.
  - intros address. unfold gw_answer. repeat case_decide; done.
  - exact gw_reached.
  - done.
  - vm_compute. lia.
Defined.
Lemma gw_walk_finds_the_leader :
  (GroupClient._ask GetTimestampBatch groups_msg.tb_error_code groups_msg.tb_leader_address 10 6
      (gw_group, (ChannelPool.init, tt))).2 = Ok (Some gw_leads).
Proof. vm_compute. reflexivity. Qed.
End Remote.

(** The theorems on a node's process at work: nodes of a cluster of four, whose metadata
    group has three members, on a machine where every port can be bound. *)
Module Process.
#[local] Existing Instances reference_codec MemoryEngine.engine MemoryEngine.laws.

Abbreviation lw_machine := (MVCCStateMachine.t MemoryEngine.t * list Z)%type.
Abbreviation lw_node := (MemoryRaftNode.t lw_machine MemoryEngine.t).
(** The lines that were printed and the ports that were bound, the last first. *)
Abbreviation lworld := (list string).
Definition lw_note (s : string) : M lworld unit := λ w, (s :: w, Ok tt).

#[local] Instance lw_outside : ServerWorld lworld lw_machine MemoryEngine.t := {|
  sw_state_machine := ret (RefusedRow.empty, []);
  sw_storage := Some (λ _ _, ret MemoryEngine.init);
  sw_listen a := lw_note a;
  sw_close _ := ret tt;
  sw_data_dir _ := None;
  sw_isdir _ := ret false;
  sw_exists _ := ret false;
  sw_rename _ _ := ret tt;
  sw_sibling _ b := b;
  sw_time := ret 0;
  sw_others ns w := (ns, w);
  sw_round _ _ _ n := (n, None) |}.
#[local] Instance lw_table : ClusterTable lworld := {|
  ct_table := ret {| rt_version := 1; rt_shards := [] |};
  ct_split_shard _ _ _ _ _ := ret (apply_success None);
  ct_move_shard _ _ _ _ := ret (apply_success None) |}.
#[local] Instance lw_clients : ClientsHere lworld := {| ch_build _ := ret tt; ch_close := ret tt |}.
(** A client is the node's id; nobody is reached. *)
#[local] Instance lw_factory : NodeClientFactory lworld nat := {|
  nf_get_client _ n _ := ret (Some (Z.to_nat n));
  nf_get_client_at _ _ := ret None;
  nf_forget_client _ _ := ret tt;
  nf_address _ := None |}.
#[local] Instance lw_handle : NodeClient lworld nat := {|
  nd_get _ _ _ _ := raise NodeUnreachable;
  nd_scan_versions _ _ _ _ _ := raise NodeUnreachable;
  nd_propose _ _ := raise NodeUnreachable;
  nd_get_lock _ _ := raise NodeUnreachable;
  nd_get_write_record _ _ := raise NodeUnreachable;
  nd_follower_read_index _ _ := raise NodeUnreachable |}.
#[local] Instance lw_process : NodeProcess lworld MemoryEngine.t := {|
  np_makedirs _ := ret tt;
  np_join a b := String.append a (String.append "/" b);
  np_create_raft_storage _ := ret MemoryEngine.init;
  np_append_storage _ := ret tt;
  np_storages _ := [MemoryEngine.init];
  np_install_signal_handlers := ret tt;
  np_restore_signal_handlers := ret tt;
  np_watch_stdin := ret tt;
  np_print := lw_note |}.
Abbreviation lw_view := (NodeClusterView.t * (list lw_node * lworld))%type.
#[local] Instance lw_calls : RowCalls lw_view nat := {|
  rc_scan _ _ _ := raise NodeUnreachable;
  rc_scan_versions _ _ _ := raise NodeUnreachable;
  rc_get _ _ := raise NodeUnreachable;
  rc_get_write_record _ _ := raise NodeUnreachable;
  rc_propose _ _ := raise NodeUnreachable |}.

(** Node [n] of four. *)
Definition lw_peer (n : Z) : Peer.t := {| Peer.node_id := n; Peer.host := "10.0.0.1"; Peer.port := 7000 + 2000 * n |}.
Definition lw_config (n : Z) : ClusterConfig.t :=
  {| ClusterConfig.node_id := n; ClusterConfig.port := 7000 + 2000 * n; ClusterConfig.host := "10.0.0.1";
     ClusterConfig.peers := map lw_peer (filter (λ m, m ≠ n) [1; 2; 3; 4]);
     ClusterConfig.data_dir := Some "data"%string; ClusterConfig.num_shards := 2;
     ClusterConfig.metadata_group_size := DEFAULT_GROUP_SIZE; ClusterConfig.tso_group_size := DEFAULT_GROUP_SIZE;
     ClusterConfig.bootstrap := true; ClusterConfig.watch_stdin := true |}.

(** ** Configurations *)

Lemma lw_valid1 : ClusterConfig.validate (lw_config 1) = Ok tt.
Proof. vm_compute. reflexivity. Qed.
Lemma lw_valid2 : ClusterConfig.validate (lw_config 2) = Ok tt.
Proof. vm_compute. reflexivity. Qed.

Lemma valid_ports_witness : NoDup (node_ports (lw_config 1)).
Proof. exact (proj1 (valid_ports (lw_config 1) lw_valid1)). Defined.

Lemma peers_are_read_back_witness : parse_peers "2@10.0.0.1:11000,3@10.0.0.1:13000" = Ok [lw_peer 2; lw_peer 3].
Proof.
  apply (peers_are_read_back [lw_peer 2; lw_peer 3]).
  repeat constructor; intros Hc; vm_compute in Hc; repeat (apply elem_of_cons in Hc as [Hc|Hc]; [discriminate|]);
    by apply not_elem_of_nil in Hc.
Defined.

(** What node 1 works out for node 2's shard 1 is what node 2's server binds. *)
Definition lw_server2 : ShardServer.t :=
  {| ShardServer._node_id := 2; ShardServer._num_shards := 2; ShardServer._total_nodes := 4; ShardServer._shards := ∅;
     ShardServer._shard_peers := ∅; ShardServer._range_map := []; ShardServer._shard_addresses := ∅;
     ShardServer._shard_members := ∅; ShardServer._started := true;
     ShardServer._peer_addresses := Some (ClusterConfig.base_addresses (lw_config 2));
     ShardServer._base_address := Some "10.0.0.1:11000"%string |}.
Lemma derived_address_is_the_bound_one_witness :
  ClusterConfig.shard_address (lw_config 1) 1 (Some 2) = Ok "10.0.0.1:11001"%string ∧
  ShardServer._shard_address_for 1 lw_server2 = Ok (Some "10.0.0.1:11001"%string).
Proof.
  destruct (derived_address_is_the_bound_one (lw_config 1) (lw_config 2) lw_server2 2 "10.0.0.1" 11000 1
    lw_valid1 lw_valid2) as (Hd&Hb&_).
  - right. exists (lw_peer 2). split; [vm_compute; by left|done].
  - left. done.
  - intros Hc. vm_compute in Hc. repeat (apply elem_of_cons in Hc as [Hc|Hc]; [discriminate|]).
    by apply not_elem_of_nil in Hc.
  - vm_compute. reflexivity.
  - split; [exact Hd|exact Hb].
Defined.

(** ** A process *)

Lemma ran {A B} (x : A * result B) b : x.2 = Ok b → x = (x.1, Ok b).
Proof. destruct x as [a r]. by intros [= ->]. Qed.

Abbreviation lw_state := (ClusterNode.t MemoryEngine.t lw_machine lw_machine * (RecoveryState.t * lw_view))%type.
Definition lw_empty : lw_machine := (RefusedRow.empty, []).
(** Node [n] before its start. *)
Definition lw_init (n : Z) : lw_state :=
  ({| ClusterNode._config := lw_config n; ClusterNode._range_map := default_range_map 2;
      ClusterNode._metadata_node := None; ClusterNode._tso_node := None; ClusterNode._metadata_writer := false;
      ClusterNode._publisher := None; ClusterNode._lock_cleaner := None; ClusterNode._started := false |},
   (RecoveryState.init, (NodeClusterView.init (lw_config n) (default_range_map 2), ([], [])))).
Lemma lw_init_ok : ClusterNode.init (lw_config 4) [] = Ok (lw_init 4) ∧ ClusterNode.init (lw_config 1) [] = Ok (lw_init 1).
Proof. split; vm_compute; reflexivity. Qed.
Definition lw_start (n : Z) := ClusterNode.start lw_empty lw_empty 2 (lw_init n).

Lemma publisher_needs_a_seat_witness :
  ClusterNode._publisher (lw_start 4).1.1 = None ∧ ClusterNode._publisher (lw_start 1).1.1 = Some Running.
Proof.
  split.
  - apply (publisher_needs_a_seat lw_empty lw_empty 2 (lw_config 4) [] (lw_init 4)); [apply lw_init_ok|].
    apply (ran (lw_start 4)). vm_compute. reflexivity.
  - apply (publisher_needs_a_seat lw_empty lw_empty 2 (lw_config 1) [] (lw_init 1)); [apply lw_init_ok|].
    apply (ran (lw_start 1)). vm_compute. reflexivity.
Defined.
(** The last lines of node 1: it is ready, and its groups and its shards listen. *)
Lemma lw_ready : take 2 (lw_start 1).1.2.2.2.2 =
  ["READY 10.0.0.1 9000"; "node 1: shards at 10.0.0.1:9000, 10.0.0.1:9001, metadata at 10.0.0.1:10000, tso at 10.0.0.1:10001"]%string
  ∧ drop 2 (lw_start 1).1.2.2.2.2 = ["10.0.0.1:9001"; "10.0.0.1:9000"; "10.0.0.1:10001"; "10.0.0.1:10000"]%string.
Proof. split; vm_compute; reflexivity. Qed.

Lemma stopped_node_is_quiet_witness :
  ClusterNode._publisher (ClusterNode.shutdown (lw_start 1).1).1.1 = Some Stopped ∧
  ∀ i h, NodeClusterView.held i (ClusterNode.shutdown (lw_start 1).1).1.2.2.1 = Some h →
    down (ClusterNode.shutdown (lw_start 1).1).1.2.2.2.1 h.
Proof.
  split; [vm_compute; reflexivity|].
  apply (stopped_node_is_quiet (lw_start 1).1); [vm_compute; reflexivity|].
  apply ran. vm_compute. reflexivity.
Defined.

(** Node 1 with its shards, a split of shard 0, and the new shard built and closed again. *)
Definition lw_shards := ClusterNode._start_shards (lw_init 1).
Definition lw_ops : list view_op :=
  [EnsureServing 2 [1; 2]; ApplySplit 0 (b_ "A") 2; EnsureServing 2 [2; 3]; ApplySplit 9 (b_ "B") 3].
Lemma one_map_for_the_node_witness :
  ∃ server, (∀ n, NodeClusterView.get_shard_server n (foldl (λ x op, after op x) lw_shards.1.2.2 lw_ops).1
      = if decide (n = 1) then Some server else None) ∧ ShardServer._node_id server = 1 ∧
    ∀ key, ShardServer._get_shard_id key server
      = locate (NodeClusterView.range_map (foldl (λ x op, after op x) lw_shards.1.2.2 lw_ops).1) key.
Proof.
  apply (one_map_for_the_node (lw_config 1) [] (lw_init 1) lw_shards.1 lw_ops); [apply lw_init_ok|].
  apply (ran lw_shards). vm_compute. reflexivity.
Defined.

(** Node 1 is told that shard 0, which all four nodes serve, is served by nodes 1 and 3. *)
Definition lw_held : lw_view := lw_shards.1.2.2.
Definition lw_told := NodeClusterView.ensure_serving 0 [3; 1] lw_held.
Definition lw_server1 : ShardServer.t :=
  match NodeClusterView.get_shard_server 1 lw_held.1 with Some s => s | None => lw_server2 end.
Lemma lw_named : 1 ∈ [3; 1].
Proof. set_solver. Qed.
Lemma node_serves_exactly_witness :
  lw_told.2 = Ok [1] ∧ NodeClusterView.shard_replica_ids 0 lw_held.1 = [1; 2; 3; 4] ∧
  NodeClusterView.shard_replica_ids 0 lw_told.1.1 = [1; 3] ∧ is_Some (NodeClusterView.held 0 lw_told.1.1).
Proof.
  split; [vm_compute; reflexivity|]. split; [vm_compute; reflexivity|].
  destruct (node_serves_exactly 0 [3; 1] lw_held lw_told.1 [1] lw_server1) as (_&Hh&Hr&_).
  - vm_compute. reflexivity.
  - vm_compute. reflexivity.
  - apply (ran lw_told). vm_compute. reflexivity.
  - assert (NodeClusterView.own lw_held.1 = 1) as Hown by (vm_compute; reflexivity).
    assert (sorted_set [3; 1] = [1; 3]) as He by (vm_compute; reflexivity). rewrite Hown in Hh, Hr. rewrite He in Hr.
    split; [exact (Hr lw_named)|exact (proj2 Hh lw_named)].
Defined.

Lemma published_is_proposed_witness :
  ∃ m, NodeClusterView.shard_addresses 0 lw_told.1.1 = Ok m ∧
    NodeClusterView.addresses_on 0 [1; 3] lw_told.1.1 = Ok m.
Proof.
  destruct (published_is_proposed 0 lw_told.1.1
    (match NodeClusterView.get_shard_server 1 lw_told.1.1 with Some s => s | None => lw_server2 end)) as (m&Hs&Ha&_).
  - vm_compute. reflexivity.
  - vm_compute. reflexivity.
  - vm_compute. reflexivity.
  - vm_compute. by eexists.
  - intros n Hn. vm_compute in Hn. vm_compute. set_solver.
  - exists m. split; [exact Hs|exact Ha].
Defined.

(** ** The command line *)

Definition cw_placement (i : Z) (start end_ : bytes) (leader : option Z) : ShardPlacement :=
  {| sp_shard_id := i; sp_start := start; sp_end := end_; sp_nodes := [1; 2]; sp_addresses := ∅;
     sp_leader_id := leader; sp_leader_term := 1 |}.
Definition cw_table (leader : option Z) : RoutingTable :=
  {| rt_version := 3; rt_shards := [(1, cw_placement 1 [x80] [xff] leader); (0, cw_placement 0 [x00] [x80] (Some 2))] |}.

(** The state counts the questions: the clock is silent at the first one, and the leader of
    shard 1 is known from the third on. *)
#[local] Instance cw_handles : ClusterHandles nat := {|
  hd_get_timestamp := λ n, (S n, if decide (n = 0)%nat then Raise NodeUnreachable else Ok 7);
  hd_table := λ n, (n, Ok (cw_table (if decide (n < 3)%nat then None else Some 1)));
  hd_close := ret tt |}.

Lemma cw_asked : _why_not_routable 0%nat = (1%nat, Ok (Some (NoClock NodeUnreachable))) ∧
  _why_not_routable 1%nat = (2%nat, Ok (Some (NoLeader 1))) ∧ _why_not_routable 2%nat = (3%nat, Ok None).
Proof. split_and!; vm_compute; reflexivity. Qed.

Lemma waited_cluster_routes_witness :
  wait_until_routable 2 0%nat = (3%nat, Ok tt) ∧
  ∃ v1 v2 ts table, hd_get_timestamp v1 = (v2, Ok ts) ∧ hd_table v2 = (3%nat, Ok table) ∧
    (NoDup (rt_shards table).*1 → ∀ key, ble [x00] key = true → blt key [xff] = true →
       ∃ p, shard_for table key = Some p ∧ in_range (sp_start p) key (sp_end p) = true ∧ is_Some (sp_leader_id p)).
Proof.
  split; [vm_compute; reflexivity|]. apply (waited_cluster_routes 2 0%nat 3%nat). vm_compute. reflexivity.
Defined.

Lemma seeds_are_where_the_groups_listen_witness :
  connect ["10.0.0.1:9000"; "10.0.0.1:11000"]%string =
    Ok (["10.0.0.1:10000"; "10.0.0.1:12000"], ["10.0.0.1:10001"; "10.0.0.1:12001"])%string ∧
  ∃ metadata tso, connect (map (base_address (lw_config 1)) [1; 2]) = Ok (metadata, tso) ∧
    traverse (λ n, ClusterConfig.metadata_address (lw_config 1) (Some n)) [1; 2] = Ok metadata ∧
    traverse (λ n, ClusterConfig.tso_address (lw_config 1) (Some n)) [1; 2] = Ok tso.
Proof.
  split; [vm_compute; reflexivity|].
  apply (seeds_are_where_the_groups_listen (lw_config 1) [1; 2]); [vm_compute; reflexivity|].
  repeat constructor; vm_compute; set_solver.
Defined.
End Process.
